(* ===== verification/_CoqProject ===== *)
-Q . S2P
Prelude.v
KeyIndex.v
Identity.v
CommandIndex.v
IndexSound.v
IndexUpdate.v
Numbers.v
Canonical.v
Graph.v
Ir.v
IrFacts.v
Model.v
Events.v
Chain.v
Machine.v
Location.v
Effects.v
DerivedIndex.v
IndexSpec.v
Reducer.v
Verify.v
Authority.v
Archive.v
Compaction.v
Admission.v
Submit.v
Restore.v
Rollback.v
RunInv.v
RunSteps.v
Terminate.v
ReducerInv.v
MachineInv.v
ChainInv.v
RestoreInv.v
RestoreTrace.v
History.v
RollbackInv.v
CollectionHash.v
SparseTree.v
SparseProof.v
SparseSound.v
SparseResolve.v
ArchiveIndex.v
CompactionInv.v
ArchiveMember.v
Collections.v
Stores.v
MapNode.v
MapTree.v
MapProof.v
Trie.v
MapRefine.v
MapApply.v
MapSound.v
MapReads.v
MapBuild.v
LogNode.v
LogTree.v
LogProof.v
Rope.v
LogRefine.v
LogJoin.v
LogApply.v
LogSound.v
LogBuild.v
Samples.v
MachineTheorems.v
RunTheorems.v
EffectTheorems.v
RollbackTheorems.v
PlanTheorems.v
ArchiveTheorems.v
CompactionTheorems.v
RestoreTheorems.v
LogTheorems.v
MapTheorems.v
VerifyTheorems.v
CanonicalTheorems.v
