(* ===== verification/Prelude.v ===== *)
(** * A verification library for Cymule

    Cymule runs plans: a plan is a frozen program of scopes, effects and
    invocations, a Run executes one, and everything that happens to a Run is a
    command, admitted as a batch of events.  This library models the kernel,
    [src/crates/cymule-core], in which all of that is decided: which plans are
    accepted, which commands are admitted, how events change the projection,
    and how the history is authenticated; and the authenticated map and log of
    [src/crates/cymule-authenticated-collections], in which the durable store
    keeps its state.  It is a shallow embedding: a Rust
    function is a function here, [Result] is [result] below, a loop is
    [try_fold], [try_each] or recursion with fuel, a [BTreeMap] is a [gmap]
    whose iteration order is the byte order of the keys ([btree_list]), a
    [String] is the list of its UTF-8 bytes, and a [u64] is an [N] with its
    overflow check written out.  A method on [&mut self] takes the state and
    returns the next one.

    ** The parts and how they interact

    A command enters through [submit].  It is hashed as canonical JSON, looked
    up among the retained commands, checked against the token of its Run, and
    turned into payloads by [admit_command]; each payload becomes an event,
    whose authority is checked against plans, artifacts and locations, and
    which [apply_event] folds into the projection.  The admission is then
    chained to the previous one and a batch record commits to the new root.

    - [Identity], [Numbers], [Canonical]: identifiers, Artifact references and
      canonical JSON ([canonical.rs], parts of [model.rs], [machine.rs]).
    - [Graph], [Ir] with [IrFacts]: plan candidates, their validation, the
      iterative cycle check, sealing ([ir.rs]).
    - [Model], [Events]: commands, events, projections, structural identities,
      construction and verification of events ([model.rs]).
    - [Effects]: the state machine of one external effect ([model.rs]).
    - [DerivedIndex]: the incremental index of a Run ([RunDerivedIndex] of
      [model.rs]); [IndexSpec] is its specification as comprehensions over the
      canonical maps, stated with the secondary indexes of [KeyIndex], and
      relates the two.
    - [Reducer]: [Projection::apply_event] with all it calls; [Verify]: the
      checks of a whole projection and of its derived indexes ([model.rs]).
    - [CommandIndex] with [IndexSound]: the sparse Merkle index of archived
      commands; [IndexUpdate]: its updates, rebased proofs, nodes and the
      resolution of a proof from nodes; [Chain]: admissions, command records,
      batches, archive entries ([machine.rs]).
    - [Archive]: segments of archived commands, the Merkle tree over their
      entries, proofs of inclusion and of membership, persisted objects
      ([machine.rs]).
    - [Machine], [Location], [Authority], [Admission], [Submit]: the machine,
      its material, the checks of an event, one handler per command, and
      submission ([machine.rs]).
    - [Compaction]: the prefix of the history moves into a segment of the
      archive and a base takes its place; bases and anchors, the cut, the checks
      against what is retained, both operations ([machine.rs]).
    - [Restore]: the snapshot of a machine and the way back: the catalog of its
      material, the replay of recorded batches, the audit of the archive below a
      base, the three ways to restore, [verify_replay] and the replay of a
      complete set of entries ([machine.rs]).
    - [Rollback]: the undo records of a batch ([machine.rs]).

    The authenticated collections are independent of the kernel.  Their nodes
    are content addressed and come from a provider, so that a client holds a
    root only.  A map is a compressed binary trie over the bits of key hashes, a
    log a height-balanced tree of leaves with up to 32 values.

    - [CollectionHash]: framed hash inputs and the bits of a hash ([hash.rs]).
    - [Collections]: what [map.rs] and [log.rs] have in common, once for both
      kinds of node: programs that read and create nodes, the overlay of a
      mutation, resolvers that record and replay; the class [Kind] is the
      interface, and [Stores] proves what holds for every kind.
    - [MapNode]: the nodes of a map.  [MapTree]: lookup, insertion,
      removal, batches, construction.  [MapProof]: proofs of a key, of a page
      and of a batch, and the audit (all of [map.rs]).
    - [Trie]: tries as an inductive type, with insertion and removal as
      functions; [MapRefine] and [MapApply] show that the algorithms on nodes
      compute these, and that the root is a function of the entries,
      [root_of_contents].
    - [MapSound]: the nodes of a proof cannot be confused with those of the map,
      and what succeeds on them says what the map says; [MapReads] has the
      lemmas on exact proofs, audits, pages and their bounds, [MapBuild] those
      on construction.
    - [LogNode], [LogTree], [LogProof]: nodes of a log; lookup, concatenation,
      splitting, batches; proofs, audit and construction (all of [log.rs]).
    - [Rope]: logs as an inductive type, with the same algorithms as functions
      that also list what they make, and the bound on their height;
      [LogRefine], [LogJoin] and [LogApply] show that the programs on nodes
      compute the root of the rope.
    - [LogSound]: the nodes of a proof cannot be confused with those of the
      log, ranges and audits; [LogBuild] has the lemmas on
      construction, recorded proofs and bounds.

    The invariants of the kernel are in files of their own: [RunInv] states
    what a Run satisfies; [RunSteps] and [Terminate] have one lemma per operation
    of the reducer; [ReducerInv] lifts them to events and shows that the
    kernel's own checks accept the invariant, [MachineInv] and [ChainInv] lift
    it to the public operations, [History] relates a Run to its later states,
    [RollbackInv] shows what an undo record restores.
    The index of archived commands is a tree of depth 256 over the bits of
    command keys: [SparseTree] defines it on lists of leaves, [SparseProof] has
    its paths and says when a proof is faithful to it, [SparseSound] shows that
    rebasing, compression and insertion keep that and that verified proofs have
    it, up to collisions, and [SparseResolve] that a store of nodes answers
    every query.  [ArchiveIndex] and [ArchiveMember] apply this to segments;
    the latter has the tree over their entries and their construction too.
    [CompactionInv] shows that both compactions keep the invariants, whose
    [log_of] relates a machine to its whole history, the compacted part
    included.  A machine is [reachable] when public operations lead to it from
    the empty one: [machine_step] lists staging and submission, and [life_step]
    adds the two compactions.  [RestoreInv] describes the step that admits one
    recorded batch ([replay_step]) and shows that the replay of the batch takes
    that step and no other; [RestoreTrace] composes the steps into the trace
    from an empty machine, which the hot invariant [hot_inv] keeps for every
    machine that no compaction has cut.

    ** What the theorems show

    - [MachineTheorems]: the verifiers of the reducer and of the derived indexes
      accept every reachable projection, which is the replay of its log, its
      index is the specified one, its commands and events close over each other, its
      admissions form a verified chain; submission is idempotent as long as
      the command is retained, refers to the archive afterwards, refuses a
      reused identity and honours its precondition.
    - [RunTheorems]: the history and every Run with its obligations only grow,
      compactions included, a completed Run is settled, a terminated
      one is closed and frozen, obligations are exactly the committed mutating
      effects, and a mutating effect is released only after its scope is
      committed.
    - [EffectTheorems]: the lifecycle of an effect is finite and dispatch needs
      a release.  [RollbackTheorems]: what a rolled-back command leaves behind,
      with the one case in which the rollback is not exact.
    - [PlanTheorems]: plan validation decides well-formedness, invocations of
      an accepted plan terminate, sealed plans verify.
    - [ArchiveTheorems]: proofs of the command index bind what they stand for;
      a segment seals the hot tail and extends the index by exactly its entries,
      archived commands stay resolvable and provable, and proofs of inclusion
      bind their entries, all up to a collision of the hash function, which the
      statements name explicitly.
    - [CompactionTheorems]: compaction loses nothing and leaves the projection
      and the authority root as they are, commands are answered as before it,
      an archived command is not admitted again, and a compaction that has
      passed its checks completes.
    - [RestoreTheorems]: a machine that no compaction has cut comes back from its
      own snapshot, by a replay of every batch; the digest of the snapshot and
      the authority check of the projection are the only steps that may fail,
      and nothing is claimed about them.  What restoring accepts from a snapshot
      without a base, whoever made it, is the replay of its events.  Restoring
      above a base is modelled without theorems of its own.
    - [MapTheorems]: batches of the authenticated map refine a function on
      entries, verified proofs of keys, pages and batches are true of the map,
      an exact proof always verifies, construction and audits agree with the
      root of the entries, and the root binds them.
    - [LogTheorems]: the same for the log, as a function on lists of values:
      batches, reads, ranges, splits; every range of a log is provable, and the
      direct construction agrees with appending.
    - [CanonicalTheorems], [VerifyTheorems]: Artifact references bind kind and
      bytes, exactness of the number rules with respect to a grammar of number
      literals and their values ([Numeral], [numeral_denotes]), normal forms of canonical bytes, and
      totality of the scans and of the projection verifier.

    Every theorem with hypotheses is followed by a witness: the same theorem at
    the machines of [Samples], a script of commands that drives one Run from
    its start to completion, evaluated by the kernel.

    ** Parameters

    What the kernel calls but does not define is a type class: [Sha256] (the
    hash, of 32 bytes), [JsonLibrary] and [Canonical] (parsing and printing of
    JSON and the serialisers that the compiler derives), [MachineSerialize],
    [ArchiveSerialize], [CompactionSerialize], [SnapshotSerialize], [ValueSerialize], [PlanCodec],
    [SchemaCompiler]; [Resolver] is the provider of nodes.  Laws are hypotheses of
    the theorem that needs them, never of the class; [Samples] has instances.

    ** Fuel

    The depth-first search of [Graph] runs with a bound on the frames it can
    push, the ancestor walk of [Verify] with the number of scopes plus one, the
    scans of [Numbers] with the length of the document; each bound is proved
    sufficient, so the exhausted case never arises.  A path of the map has at
    most [MAX_MAP_PATH_NODES] nodes, as in the code; [MapReads] proves that
    pages, audits and the collection of created nodes need no more fuel than
    they have, whatever nodes a provider serves.  The recursions of the log have
    a fuel above the height of the node they start from, which decreases along
    every verified branch ([LogBuild]).  The reduction of a Merkle level and the
    walk along its path have the length of the level as fuel, and each round
    halves it.

    A balanced log of fewer than [LOG_CAPACITY] values, about 8.9e15, is at most
    [MAX_LOG_HEIGHT] high, so that within this bound an operation never fails
    for its height.  The exact range of lengths reaches slightly further, to
    9.0e15: between the two the theorems on the log claim nothing.

    ** Not modelled

    The deltas between snapshots and their decomposition into root parts,
    batches of several commands, the paged form of the kernel
    ([machine/pinned.rs]), the transport decoders of the
    authenticated collections, the durable store, the runtime with its plugins,
    and the profile crates, which are mostly transactions, processes and wire
    types.
    A [Result] carries the category of an error ([CoreError]) and not its text.
    A failing call returns no state, so that a partial mutation of a failing
    event is not observable; [Rollback] models what is undone afterwards. *)

From Stdlib Require Export Ascii Lia.
From stdpp Require Export strings sorting numbers base tactics option sets gmap.
From stdpp Require Export relations list_basics list_relations list_misc list_monad list.

(** Facts that automation may use across the components. *)
Create HintDb cymule.

#[export] Set Default Goal Selector "!".
#[export] Set Warnings "-clear-no-such-hyp,-register-all,-level-tolerance".

(** ** Results: Rust's [std::result::Result] with its [?] operator *)

Inductive result (E A : Type) : Type :=
| Ok (a : A)
| Err (e : E).
Arguments Ok {E A} a.
Arguments Err {E A} e.

#[export] Instance result_ret {E} : MRet (result E) := λ A a, Ok a.
#[export] Instance result_bind {E} : MBind (result E) :=
  λ A B f m, match m with Ok a => f a | Err e => Err e end.
#[export] Instance result_fmap {E} : FMap (result E) :=
  λ A B f m, match m with Ok a => Ok (f a) | Err e => Err e end.

#[export] Instance result_eq_dec {E A} `{EqDecision E, EqDecision A} :
  EqDecision (result E A).
Proof. solve_decision. Defined.

(** [if guard { return Err(e) }] written as a statement: [require] fails with
    [e] unless the condition holds. *)
Definition require {E} (b : bool) (e : E) : result E () :=
  if b then Ok () else Err e.

(** [Option::ok_or_else] *)
Definition ok_or {E A} (o : option A) (e : E) : result E A :=
  match o with Some a => Ok a | None => Err e end.

Definition is_ok {E A} (r : result E A) : bool :=
  match r with Ok _ => true | Err _ => false end.

Section Loops.
Context {E A B S : Type}.

(** A [for] loop whose body may return an error: left fold in the monad. *)
Section TryFold.
Variable f : S → A → result E S.
Fixpoint try_fold (s : S) (l : list A) : result E S :=
  match l with
  | [] => Ok s
  | a :: l => s' ← f s a; try_fold s' l
  end.
End TryFold.

(** A [for] loop that only checks. *)
Section TryEach.
Variable f : A → result E ().
Fixpoint try_each (l : list A) : result E () :=
  match l with
  | [] => Ok ()
  | a :: l => _ ← f a; try_each l
  end.
End TryEach.

(** [iter.map(f).collect::<Result<Vec<_>>>()] *)
Section TryMap.
Variable f : A → result E B.
Fixpoint try_map (l : list A) : result E (list B) :=
  match l with
  | [] => Ok []
  | a :: l => b ← f a; bs ← try_map l; Ok (b :: bs)
  end.
End TryMap.
End Loops.

Section ResultLemmas.
Context {E : Type}.

Lemma bind_Ok {A B} (m : result E A) (f : A → result E B) b :
  (m ≫= f) = Ok b ↔ ∃ a, m = Ok a ∧ f a = Ok b.
Proof. destruct m; unfold mbind, result_bind; naive_solver. Qed.

Lemma require_Ok (b : bool) (e : E) u : require b e = Ok u ↔ b = true.
Proof. destruct b, u; split; done. Qed.

Lemma ok_or_Ok {A} (o : option A) (e : E) a : ok_or o e = Ok a ↔ o = Some a.
Proof. destruct o; naive_solver. Qed.

Lemma try_each_Ok {A} (f : A → result E ()) l u :
  try_each f l = Ok u ↔ ∀ a, a ∈ l → f a = Ok ().
Proof.
  destruct u. induction l as [|a l IH]; simpl; [split; [inversion 2|done]|].
  rewrite bind_Ok. setoid_rewrite IH. split.
  - intros ([] & Ha & Hl) b [->|?]%elem_of_cons; auto.
  - intros H. exists (). split; [apply H; left|intros; apply H; by right].
Qed.

Lemma try_fold_app {A S} (f : S → A → result E S) s l k :
  try_fold f s (l ++ k) = s' ← try_fold f s l; try_fold f s' k.
Proof.
  revert s. induction l as [|a l IH]; intros s; [done|]. simpl.
  destruct (f s a); [apply IH|done].
Qed.

(** Loop rule: an invariant of the processed prefix. *)
Lemma try_fold_inv {A S} (f : S → A → result E S) (P : list A → S → Prop) l s s' :
  P [] s →
  (∀ done x rest t t', l = done ++ x :: rest → P done t → f t x = Ok t' →
    P (done ++ [x]) t') →
  try_fold f s l = Ok s' → P l s'.
Proof.
  intros H0 Hstep.
  enough (∀ k pre t, l = pre ++ k → P pre t → try_fold f t k = Ok s' → P l s')
    by eauto using app_nil_l.
  induction k as [|x k IH]; intros pre t Hl HP Hf; simpl in Hf.
  - rewrite app_nil_r in Hl. by simplify_eq.
  - apply bind_Ok in Hf as (t' & Hx & Hk).
    eapply (IH (pre ++ [x])); [by rewrite <-app_assoc|by eauto|done].
Qed.

(** Total-correctness loop rule: the loop succeeds and ends in the invariant. *)
Lemma try_fold_total {A S} (f : S → A → result E S) (P : list A → S → Prop) l s :
  P [] s →
  (∀ done x rest t, l = done ++ x :: rest → P done t →
    ∃ t', f t x = Ok t' ∧ P (done ++ [x]) t') →
  ∃ s', try_fold f s l = Ok s' ∧ P l s'.
Proof.
  intros H0 Hstep.
  enough (∀ k pre t, l = pre ++ k → P pre t → ∃ s', try_fold f t k = Ok s' ∧ P l s')
    by eauto using app_nil_l.
  induction k as [|x k IH]; intros pre t Hl HP; simpl.
  - rewrite app_nil_r in Hl. simplify_eq. eauto.
  - destruct (Hstep pre x k t Hl HP) as (t' & Hx & HP'). rewrite Hx. simpl.
    eapply (IH (pre ++ [x])); [by rewrite <-app_assoc|done].
Qed.

Lemma try_map_Ok {A B} (f : A → result E B) l bs :
  try_map f l = Ok bs ↔ Forall2 (λ a b, f a = Ok b) l bs.
Proof.
  revert bs. induction l as [|a l IH]; intros bs; simpl.
  - split; [intros; by simplify_eq|by inversion 1].
  - rewrite bind_Ok. setoid_rewrite bind_Ok. split.
    + intros (b & Hb & bs' & Hl & ?); simplify_eq. constructor; [done|by apply IH].
    + inversion 1 as [|? b ? bs' Hb Hl]; subst. exists b. split; [done|].
      exists bs'. split; [by apply IH|done].
Qed.
End ResultLemmas.

(** Split a hypothesis [m = Ok a] about a monadic computation into the
    equations of its steps. *)
Ltac inv_ok_in H :=
  lazymatch type of H with
  | (_ ≫= _) = Ok _ => apply bind_Ok in H; destruct H as (? & ? & H)
  | require _ _ = Ok _ => apply require_Ok in H
  | ok_or _ _ = Ok _ => apply ok_or_Ok in H
  | Ok _ = Ok _ => injection H as H; try subst
  | Err _ = Ok _ => discriminate H
  | mret _ = Ok _ => injection H as H; try subst
  end.

Ltac inv_ok :=
  repeat match goal with
  | H : (_ ≫= _) = Ok _ |- _ => apply bind_Ok in H; destruct H as (? & ? & H)
  | H : require _ _ = Ok _ |- _ => apply require_Ok in H
  | H : ok_or _ _ = Ok _ |- _ => apply ok_or_Ok in H
  | H : Err _ = Ok _ |- _ => discriminate H
  | H : Ok _ = Ok _ |- _ => injection H as H; simplify_eq
  | u : () |- _ => destruct u
  end.

(** Turn boolean guards into propositions. *)
Create Rewrite HintDb boolprop.
#[export] Hint Rewrite andb_true_iff andb_false_iff orb_true_iff orb_false_iff
  negb_true_iff negb_false_iff bool_decide_eq_true bool_decide_eq_false
  N.leb_le N.leb_gt N.ltb_lt N.ltb_ge N.eqb_eq N.eqb_neq
  Nat.leb_le Nat.leb_gt Nat.ltb_lt Nat.ltb_ge Nat.eqb_eq Nat.eqb_neq : boolprop.
Ltac to_prop := autorewrite with boolprop in *; destruct_and?.

Lemma forallb_Forall {A} (p : A → bool) l : forallb p l = true ↔ Forall (λ a, p a = true) l.
Proof. by rewrite forallb_forall, List.Forall_forall. Qed.

(** ** Machine integers *)

(** [u64::MAX]; [usize] is 64 bits wide on every supported target. *)
Definition u64_max : N := 18446744073709551615.

(** [u64::checked_add] *)
Definition checked_add (a b : N) : option N :=
  if decide (a + b ≤ u64_max)%N then Some (a + b)%N else None.
Lemma checked_add_fits a b : (a + b ≤ u64_max)%N → checked_add a b = Some (a + b)%N.
Proof. intros Hab. unfold checked_add. by rewrite decide_True. Qed.
(** [u64::checked_sub] *)
Definition checked_sub (a b : N) : option N :=
  if decide (b ≤ a)%N then Some (a - b)%N else None.
(** [Option::filter] *)
Definition opt_filter {A} (p : A → bool) (o : option A) : option A :=
  match o with Some a => if p a then Some a else None | None => None end.

Lemma checked_add_Some a b c :
  checked_add a b = Some c ↔ (c = a + b ∧ c ≤ u64_max)%N.
Proof. unfold checked_add. case_decide; naive_solver lia. Qed.
Lemma checked_sub_Some a b c : checked_sub a b = Some c ↔ (b ≤ a ∧ c = a - b)%N.
Proof. unfold checked_sub. case_decide; naive_solver lia. Qed.
Lemma opt_filter_Some {A} (p : A → bool) o a :
  opt_filter p o = Some a ↔ o = Some a ∧ p a = true.
Proof.
  destruct o as [x|]; simpl; [|naive_solver].
  destruct (p x) eqn:Hp; split; intros H.
  - by simplify_eq.
  - by destruct H as [[= ->] _].
  - done.
  - destruct H as [[= ->] ?]. congruence.
Qed.

(** ** Stable sorting and removal of neighbouring duplicates

    [slice.sort_by(|a, b| key(a).cmp(&key(b)))] is stable. *)
Section SortByKey.
Context {A : Type} (key : A → string).
Fixpoint insert_by_key (x : A) (l : list A) : list A :=
  match l with
  | [] => [x]
  | y :: l' => if String.leb (key x) (key y) then x :: l else y :: insert_by_key x l'
  end.
Definition sort_by_key (l : list A) : list A := foldr insert_by_key [] l.

(** [vec.dedup_by(|a, b| key(a) == key(b))]: an element with the key of the
    retained one before it is removed. *)
Fixpoint dedup_after (prev : A) (l : list A) : list A :=
  match l with
  | [] => []
  | x :: l => if decide (key x = key prev) then dedup_after prev l else x :: dedup_after x l
  end.
Definition dedup_by_key (l : list A) : list A :=
  match l with [] => [] | x :: l => x :: dedup_after x l end.

Lemma insert_by_key_perm x l : insert_by_key x l ≡ₚ x :: l.
Proof.
  induction l as [|y l IH]; cbn; [done|]. destruct (String.leb _ _); [done|].
  rewrite IH. constructor.
Qed.
Lemma sort_by_key_perm l : sort_by_key l ≡ₚ l.
Proof. induction l as [|x l IH]; cbn; [done|]. by rewrite insert_by_key_perm, IH. Qed.
End SortByKey.

(** ** Ordered iteration over [BTreeMap] and [BTreeSet]

    A [BTreeMap<String, _>] is a [gmap string _]; iterating it visits the keys
    in increasing byte-lexicographic order, which decides which error an
    early-returning loop reports first. *)
Definition key_le {A} (p q : string * A) : Prop := String.leb p.1 q.1 = true.
#[export] Instance key_le_dec {A} (p q : string * A) : Decision (key_le p q) :=
  bool_eq_dec _ _.
Definition btree_list {A} (m : gmap string A) : list (string * A) :=
  merge_sort key_le (map_to_list m).
Definition btree_values {A} (m : gmap string A) : list A := (btree_list m).*2.
Definition str_le (p q : string) : Prop := String.leb p q = true.
#[export] Instance str_le_dec (p q : string) : Decision (str_le p q) :=
  bool_eq_dec _ _.
Definition btree_elements (s : gset string) : list string :=
  merge_sort str_le (elements s).

Lemma btree_list_perm {A} (m : gmap string A) : btree_list m ≡ₚ map_to_list m.
Proof. apply merge_sort_Permutation. Qed.
Lemma elem_of_btree_list {A} (m : gmap string A) k v :
  (k, v) ∈ btree_list m ↔ m !! k = Some v.
Proof. by rewrite btree_list_perm, elem_of_map_to_list. Qed.
Lemma elem_of_btree_values {A} (m : gmap string A) v :
  v ∈ btree_values m ↔ ∃ k, m !! k = Some v.
Proof.
  unfold btree_values. rewrite list_elem_of_fmap. split.
  - intros ([k v'] & -> & H). exists k. by apply elem_of_btree_list.
  - intros [k H]. exists (k, v). split; [done|]. by apply elem_of_btree_list.
Qed.
Lemma btree_list_NoDup_keys {A} (m : gmap string A) : NoDup (btree_list m).*1.
Proof. rewrite btree_list_perm. apply NoDup_fst_map_to_list. Qed.
Lemma btree_list_map {A} (m : gmap string A) : list_to_map (btree_list m) = m.
Proof.
  rewrite (list_to_map_proper _ (map_to_list m)); [apply list_to_map_to_list| |].
  - apply btree_list_NoDup_keys.
  - apply btree_list_perm.
Qed.
Lemma elem_of_btree_elements (s : gset string) x : x ∈ btree_elements s ↔ x ∈ s.
Proof. unfold btree_elements. by rewrite merge_sort_Permutation, elem_of_elements. Qed.
Lemma btree_elements_NoDup (s : gset string) : NoDup (btree_elements s).
Proof. unfold btree_elements. rewrite merge_sort_Permutation. apply NoDup_elements. Qed.

#[export] Hint Rewrite @elem_of_btree_list @elem_of_btree_values
  elem_of_btree_elements : boolprop.
