(* ===== verification/KeyIndex.v ===== *)
(** * Secondary indexes of a keyed map

    The derived index of a Run is a family of secondary indexes of its
    canonical maps: the keys whose value has a property ([having]), and the
    keys grouped by an attribute of their value ([group_by]).  This file gives
    the two comprehensions and the equations that describe them under a point
    update of the indexed map, so that an incrementally maintained index can
    be compared with the comprehension. *)

From S2P Require Import Prelude.

(** The keys whose value satisfies [p]. *)
Definition having {A} (p : A → bool) (m : gmap string A) : gset string :=
  dom (filter (λ kv : string * A, p kv.2 = true) m).

(** Set or clear the membership of one key. *)
Definition put_flag (b : bool) (k : string) (s : gset string) : gset string :=
  if b then {[k]} ∪ s ∖ {[k]} else s ∖ {[k]}.

Lemma elem_of_put_flag b k s j :
  j ∈ put_flag b k s ↔ (j = k ∧ b = true) ∨ (j ≠ k ∧ j ∈ s).
Proof. unfold put_flag. destruct (decide (j = k)), b; set_solver. Qed.

(** The keys grouped by [f]; only non-empty groups are present. *)
Definition groups {A} (f : A → option string) (m : gmap string A) : gset string :=
  list_to_set (omap (λ kv : string * A, f kv.2) (map_to_list m)).
Definition group {A} (f : A → option string) (m : gmap string A) (g : string) : gset string :=
  having (λ a, bool_decide (f a = Some g)) m.
Definition group_by {A} (f : A → option string) (m : gmap string A)
    : gmap string (gset string) :=
  map_imap (λ g _, Some (group f m g)) (gset_to_gmap () (groups f m)).

(** [u64] cardinality of a set *)
Definition card (s : gset string) : N := N.of_nat (size s).

(** The element of a set with at most one. *)
Definition pick (s : gset string) : option string := head (elements s).

Lemma pick_empty : pick ∅ = None.
Proof. unfold pick. by rewrite elements_empty. Qed.
Lemma pick_singleton k : pick {[k]} = Some k.
Proof. unfold pick. by rewrite elements_singleton. Qed.
Lemma pick_None s : pick s = None → s = ∅.
Proof.
  unfold pick. destruct (elements s) eqn:He; [|done].
  intros _. by apply leibniz_equiv, elements_empty_inv.
Qed.
Lemma pick_Some s k : pick s = Some k → k ∈ s.
Proof.
  unfold pick. destruct (elements s) eqn:He; [done|]. intros [= ->].
  apply elem_of_elements. rewrite He. by left.
Qed.

Lemma card_empty : card ∅ = 0%N.
Proof. unfold card. by rewrite size_empty. Qed.
Lemma card_0 s : card s = 0%N ↔ s = ∅.
Proof.
  unfold card. split; [|intros ->; by rewrite size_empty]. intros Hs.
  apply leibniz_equiv, size_empty_inv. lia.
Qed.
Lemma card_insert k s : k ∉ s → card ({[k]} ∪ s) = (card s + 1)%N.
Proof. intros Hk. unfold card. rewrite size_union by set_solver. rewrite size_singleton. lia. Qed.
Lemma card_remove k s : k ∈ s → card s = (card (s ∖ {[k]}) + 1)%N.
Proof.
  intros Hk. rewrite <-(card_insert k) by set_solver. f_equal.
  apply set_eq. intros y. destruct (decide (y = k)); set_solver.
Qed.
Lemma card_subseteq s t : s ⊆ t → (card s ≤ card t)%N.
Proof. intros ?%subseteq_size. unfold card. lia. Qed.
Lemma card_union s t : s ## t → card (s ∪ t) = (card s + card t)%N.
Proof. intros. unfold card. rewrite size_union by done. lia. Qed.
Lemma card_list_to_set l : NoDup l → card (list_to_set l) = N.of_nat (length l).
Proof. intros. unfold card. by rewrite size_list_to_set. Qed.

Section Having.
Context {A : Type}.
Implicit Types (m : gmap string A) (p : A → bool) (f : A → option string).

Lemma elem_of_having p m k : k ∈ having p m ↔ ∃ a, m !! k = Some a ∧ p a = true.
Proof.
  unfold having. rewrite elem_of_dom. split.
  - intros [a Ha]. apply map_lookup_filter_Some in Ha. eauto.
  - intros (a & Ha & Hp). exists a. by apply map_lookup_filter_Some.
Qed.

Lemma having_insert p m k a : having p (<[k:=a]> m) = put_flag (p a) k (having p m).
Proof.
  apply set_eq. intros j. rewrite elem_of_put_flag, !elem_of_having.
  destruct (decide (j = k)) as [->|Hj].
  - rewrite lookup_insert_eq. naive_solver.
  - rewrite lookup_insert_ne by done. naive_solver.
Qed.

Lemma put_flag_id p m k a : m !! k = Some a → put_flag (p a) k (having p m) = having p m.
Proof. intros Hk. by rewrite <-having_insert, insert_id. Qed.

Lemma having_insert_same p m k a b :
  m !! k = Some b → p a = p b → having p (<[k:=a]> m) = having p m.
Proof. intros Hk Hp. rewrite having_insert, Hp. by apply put_flag_id. Qed.

Lemma having_empty p : having p ∅ = ∅.
Proof. apply set_eq. intros k. rewrite elem_of_having. split.
  - intros (a & Ha & _). by rewrite lookup_empty in Ha.
  - intros Hk. by apply elem_of_empty in Hk.
Qed.

Lemma having_ext p q m m' :
  (∀ k, (∃ a, m !! k = Some a ∧ p a = true) ↔ (∃ b, m' !! k = Some b ∧ q b = true)) →
  having p m = having q m'.
Proof. intros He. apply set_eq. intros k. by rewrite !elem_of_having, He. Qed.

Lemma having_notin p m k : m !! k = None → k ∉ having p m.
Proof. rewrite elem_of_having. naive_solver. Qed.

Lemma elem_of_groups f m g : g ∈ groups f m ↔ ∃ k a, m !! k = Some a ∧ f a = Some g.
Proof.
  unfold groups. rewrite elem_of_list_to_set, list_elem_of_omap. split.
  - intros ([k a] & Hk%elem_of_map_to_list & Hf). eauto.
  - intros (k & a & Hk & Hf). exists (k, a). by rewrite elem_of_map_to_list.
Qed.
Lemma elem_of_group f m g k : k ∈ group f m g ↔ ∃ a, m !! k = Some a ∧ f a = Some g.
Proof. unfold group. rewrite elem_of_having. by setoid_rewrite bool_decide_eq_true. Qed.
Lemma groups_group f m g : g ∈ groups f m ↔ group f m g ≠ ∅.
Proof.
  rewrite elem_of_groups. split.
  - intros (k & a & H) He. enough (k ∈ group f m g) by set_solver.
    rewrite elem_of_group. eauto.
  - intros [k Hk]%set_choose_L. apply elem_of_group in Hk. naive_solver.
Qed.

Lemma lookup_group_by f m g :
  group_by f m !! g = if decide (group f m g = ∅) then None else Some (group f m g).
Proof.
  unfold group_by. rewrite map_lookup_imap.
  case_decide as Hg.
  - rewrite (proj2 (lookup_gset_to_gmap_None _ _ _)); [done|]. rewrite groups_group. tauto.
  - rewrite (proj2 (lookup_gset_to_gmap_Some _ _ _ ())); [done|]. split; [|done].
    by rewrite groups_group.
Qed.
Lemma group_by_default f m g : default ∅ (group_by f m !! g) = group f m g.
Proof. rewrite lookup_group_by. by case_decide as Hg; [rewrite Hg|]. Qed.

Lemma group_insert f m k a g :
  group f (<[k:=a]> m) g = put_flag (bool_decide (f a = Some g)) k (group f m g).
Proof. apply having_insert. Qed.
Lemma group_insert_same f m k a b g :
  m !! k = Some b → f a = f b → group f (<[k:=a]> m) g = group f m g.
Proof. intros Hk Hf. unfold group. by eapply having_insert_same; [|rewrite Hf]. Qed.

Lemma group_by_ext f h m m' :
  (∀ g, group f m g = group h m' g) → group_by f m = group_by h m'.
Proof. intros He. apply map_eq. intros g. by rewrite !lookup_group_by, He. Qed.

Lemma group_by_insert_same f m k a b :
  m !! k = Some b → f a = f b → group_by f (<[k:=a]> m) = group_by f m.
Proof. intros. apply group_by_ext. intros. by eapply group_insert_same. Qed.
Lemma group_by_insert_none f m k a :
  m !! k = None → f a = None → group_by f (<[k:=a]> m) = group_by f m.
Proof.
  intros Hk Hf. apply group_by_ext. intros g. rewrite group_insert, Hf.
  rewrite bool_decide_eq_false_2 by done. simpl. apply (having_notin (λ a, bool_decide (f a = Some g))) in Hk.
  fold (group f m g) in Hk. set_solver.
Qed.
Lemma group_by_insert_new f m k a g :
  m !! k = None → f a = Some g →
  group_by f (<[k:=a]> m) = <[g := {[k]} ∪ group f m g]> (group_by f m).
Proof.
  intros Hk Hf. apply map_eq. intros h. rewrite lookup_group_by, group_insert, Hf.
  assert (Hn : k ∉ group f m h) by by apply having_notin.
  destruct (decide (h = g)) as [->|Hh].
  - rewrite lookup_insert_eq. rewrite bool_decide_eq_true_2 by done. simpl.
    assert ({[k]} ∪ group f m g ∖ {[k]} = {[k]} ∪ group f m g) as -> by set_solver.
    rewrite decide_False by set_solver. done.
  - rewrite lookup_insert_ne by done. rewrite bool_decide_eq_false_2 by congruence. simpl.
    assert (group f m h ∖ {[k]} = group f m h) as -> by set_solver.
    by rewrite lookup_group_by.
Qed.
Lemma group_by_insert_drop f m k a b g :
  m !! k = Some b → f b = Some g → f a = None →
  group_by f (<[k:=a]> m)
  = if decide (group f m g ∖ {[k]} = ∅) then delete g (group_by f m)
    else <[g := group f m g ∖ {[k]}]> (group_by f m).
Proof.
  intros Hk Hb Ha. apply map_eq. intros h. rewrite lookup_group_by, group_insert, Ha.
  rewrite bool_decide_eq_false_2 by done. simpl.
  destruct (decide (h = g)) as [->|Hh].
  - case_decide; [by rewrite lookup_delete_eq|by rewrite lookup_insert_eq].
  - assert (group f m h ∖ {[k]} = group f m h) as ->.
    { assert (k ∉ group f m h); [|set_solver]. rewrite elem_of_group. naive_solver. }
    rewrite <-lookup_group_by. case_decide.
    + by rewrite lookup_delete_ne.
    + by rewrite lookup_insert_ne.
Qed.
End Having.

(** ** Filtering a key list through a map *)

Definition key_is {A} (p : A → bool) (m : gmap string A) (k : string) : bool :=
  match m !! k with Some a => p a | None => false end.

Lemma key_is_insert_ne {A} (p : A → bool) m k a j :
  j ≠ k → key_is p (<[k:=a]> m) j = key_is p m j.
Proof. intros. unfold key_is. by rewrite lookup_insert_ne. Qed.
Lemma key_is_insert {A} (p : A → bool) m k a : key_is p (<[k:=a]> m) k = p a.
Proof. unfold key_is. by rewrite lookup_insert_eq. Qed.

Definition keys_with {A} (p : A → bool) (m : gmap string A) (l : list string) : list string :=
  filter (λ k, key_is p m k = true) l.

Lemma elem_of_keys_with {A} (p : A → bool) m l k :
  k ∈ keys_with p m l ↔ k ∈ l ∧ ∃ a, m !! k = Some a ∧ p a = true.
Proof.
  unfold keys_with. rewrite list_elem_of_filter. unfold key_is.
  destruct (m !! k); naive_solver.
Qed.
Lemma keys_with_ext {A} (p q : A → bool) m n l :
  (∀ k, k ∈ l → key_is p m k = key_is q n k) → keys_with p m l = keys_with q n l.
Proof.
  intros He. unfold keys_with. induction l as [|k l IH]; [done|].
  rewrite !filter_cons, (He k) by by left. rewrite IH by (intros; apply He; by right). done.
Qed.
Lemma keys_with_notin {A} (p : A → bool) m l k a :
  k ∉ l → keys_with p (<[k:=a]> m) l = keys_with p m l.
Proof. intros Hk. apply keys_with_ext. intros j Hj. apply key_is_insert_ne. set_solver. Qed.
Lemma keys_with_same {A} (p : A → bool) m l k a b :
  m !! k = Some b → p a = p b → keys_with p (<[k:=a]> m) l = keys_with p m l.
Proof.
  intros Hk Hp. apply keys_with_ext. intros j _. destruct (decide (j = k)) as [->|].
  - rewrite key_is_insert, Hp. unfold key_is. by rewrite Hk.
  - by apply key_is_insert_ne.
Qed.
Lemma keys_with_snoc {A} (p : A → bool) m l k a :
  keys_with p (<[k:=a]> m) (l ++ [k])
  = keys_with p (<[k:=a]> m) l ++ if p a then [k] else [].
Proof.
  unfold keys_with. rewrite filter_app. f_equal. rewrite filter_cons, filter_nil.
  rewrite key_is_insert. by destruct (p a).
Qed.
Lemma keys_with_NoDup {A} (p : A → bool) m l : NoDup l → NoDup (keys_with p m l).
Proof. apply NoDup_filter. Qed.

Definition set_with {A} (p : A → bool) (m : gmap string A) (l : list string) : gset string :=
  list_to_set (keys_with p m l).
Lemma elem_of_set_with {A} (p : A → bool) m l k :
  k ∈ set_with p m l ↔ k ∈ l ∧ ∃ a, m !! k = Some a ∧ p a = true.
Proof. unfold set_with. by rewrite elem_of_list_to_set, elem_of_keys_with. Qed.
Lemma set_with_put {A} (p : A → bool) m l k a :
  k ∈ l → set_with p (<[k:=a]> m) l = put_flag (p a) k (set_with p m l).
Proof.
  intros Hk. apply set_eq. intros j. rewrite elem_of_put_flag, !elem_of_set_with.
  destruct (decide (j = k)) as [->|Hj].
  - rewrite lookup_insert_eq. naive_solver.
  - rewrite lookup_insert_ne by done. naive_solver.
Qed.
Lemma set_with_same {A} (p : A → bool) m l k a b :
  m !! k = Some b → p a = p b → set_with p (<[k:=a]> m) l = set_with p m l.
Proof. intros. unfold set_with. by erewrite keys_with_same. Qed.
Lemma set_with_notin {A} (p : A → bool) m l k a :
  k ∉ l → set_with p (<[k:=a]> m) l = set_with p m l.
Proof. intros. unfold set_with. by rewrite keys_with_notin. Qed.
Lemma keys_with_snoc_fresh {A} (p : A → bool) m l k a :
  k ∉ l →
  keys_with p (<[k:=a]> m) (l ++ [k]) = if p a then keys_with p m l ++ [k] else keys_with p m l.
Proof.
  intros Hk. rewrite keys_with_snoc, keys_with_notin by done. destruct (p a); [done|].
  by rewrite app_nil_r.
Qed.
Lemma set_with_snoc_fresh {A} (p : A → bool) m l k a :
  k ∉ l → set_with p (<[k:=a]> m) (l ++ [k]) = put_flag (p a) k (set_with p m l).
Proof.
  intros Hk. apply set_eq. intros j. rewrite elem_of_put_flag, !elem_of_set_with, elem_of_app.
  rewrite list_elem_of_singleton. destruct (decide (j = k)) as [->|Hj].
  - rewrite lookup_insert_eq. naive_solver.
  - rewrite lookup_insert_ne by done. naive_solver.
Qed.
Lemma list_to_set_snoc_L (l : list string) k :
  (list_to_set (l ++ [k]) : gset string) = {[k]} ∪ list_to_set l.
Proof. set_solver. Qed.

(** ** Loops over the values of a map

    A fallible loop over a [BTreeMap]'s values, where every value carries its
    own key: the invariant is indexed by the part of the map already visited. *)
Section ValueLoop.
Context {E A S : Type} (key : A → string) (f : S → A → result E S) (P : gmap string A → S → Prop).

(** The part of the map whose values are in the list. *)
Definition visited (l : list A) : gmap string A :=
  list_to_map ((λ a, (key a, a)) <$> reverse l).

Lemma visited_snoc l a : visited (l ++ [a]) = <[key a := a]> (visited l).
Proof. unfold visited. by rewrite reverse_snoc. Qed.

Lemma lookup_visited l k a :
  NoDup (key <$> l) → visited l !! k = Some a ↔ a ∈ l ∧ key a = k.
Proof.
  intros Hl. unfold visited. rewrite <-elem_of_list_to_map.
  - rewrite list_elem_of_fmap. setoid_rewrite elem_of_reverse. naive_solver.
  - rewrite <-list_fmap_compose. change (NoDup (key <$> reverse l)).
    by rewrite fmap_reverse, reverse_Permutation.
Qed.

Lemma btree_values_NoDup (m : gmap string A) :
  (∀ k a, m !! k = Some a → key a = k) → NoDup (key <$> btree_values m).
Proof.
  intros Hkey. enough (key <$> btree_values m = (btree_list m).*1) as -> by apply btree_list_NoDup_keys.
  unfold btree_values. rewrite <-list_fmap_compose. apply list_fmap_ext.
  intros i [k a] Hi. apply list_elem_of_lookup_2, elem_of_btree_list in Hi. cbn. eauto.
Qed.

Lemma visited_all (m : gmap string A) :
  (∀ k a, m !! k = Some a → key a = k) → visited (btree_values m) = m.
Proof.
  intros Hkey. apply map_eq. intros k. apply option_eq. intros a.
  rewrite lookup_visited by by apply btree_values_NoDup. rewrite elem_of_btree_values. split.
  - intros [[k' Hk] <-]. by rewrite (Hkey _ _ Hk).
  - intros Hk. split; eauto.
Qed.

Lemma visited_step (m : gmap string A) l a rest :
  (∀ k a, m !! k = Some a → key a = k) → btree_values m = l ++ a :: rest →
  visited l ⊆ m ∧ visited l !! key a = None ∧ m !! key a = Some a.
Proof.
  intros Hkey Hl. pose proof (btree_values_NoDup _ Hkey) as Hnd.
  assert (Hin : ∀ b, b ∈ btree_values m → m !! key b = Some b).
  { intros b [k Hk]%elem_of_btree_values. by rewrite (Hkey _ _ Hk). }
  rewrite Hl in Hnd, Hin. rewrite fmap_app in Hnd. cbn in Hnd.
  apply NoDup_app in Hnd as (Hnd & Hdis & _). split; [|split].
  - apply map_subseteq_spec. intros k b [Hb <-]%lookup_visited; [|done]. apply Hin. set_solver.
  - apply eq_None_not_Some. intros [b [Hb Hk]%lookup_visited]; [|done].
    apply (Hdis (key b)); [by apply list_elem_of_fmap_2|]. rewrite Hk. by left.
  - apply Hin. set_solver.
Qed.

(** The loop succeeds and ends in the invariant. *)
Lemma btree_values_total (m : gmap string A) s :
  (∀ k a, m !! k = Some a → key a = k) →
  P ∅ s →
  (∀ m' a t, m' ⊆ m → m' !! key a = None → m !! key a = Some a → P m' t →
    ∃ t', f t a = Ok t' ∧ P (<[key a := a]> m') t') →
  ∃ s', try_fold f s (btree_values m) = Ok s' ∧ P m s'.
Proof.
  intros Hkey H0 Hstep.
  destruct (try_fold_total f (λ l t, P (visited l) t) (btree_values m) s) as (s' & Hs' & HP);
    [done| |].
  - intros l a rest t Hl HP. rewrite visited_snoc.
    destruct (visited_step _ _ _ _ Hkey Hl) as (? & ? & ?). by apply Hstep.
  - exists s'. by rewrite visited_all in HP.
Qed.

(** If the loop succeeds, it ends in the invariant. *)
Lemma btree_values_inv (m : gmap string A) s s' :
  (∀ k a, m !! k = Some a → key a = k) →
  P ∅ s →
  (∀ m' a t t', m' ⊆ m → m' !! key a = None → m !! key a = Some a → P m' t →
    f t a = Ok t' → P (<[key a := a]> m') t') →
  try_fold f s (btree_values m) = Ok s' → P m s'.
Proof.
  intros Hkey H0 Hstep Hrun.
  enough (P (visited (btree_values m)) s') as HP by by rewrite visited_all in HP.
  eapply (try_fold_inv f (λ l t, P (visited l) t)); [done| |done].
  intros l a rest t t' Hl HP Hf. rewrite visited_snoc.
  destruct (visited_step _ _ _ _ Hkey Hl) as (? & ? & ?). by eapply Hstep.
Qed.
End ValueLoop.

Lemma having_fmap {A B} (p : B → bool) (g : A → B) (m : gmap string A) :
  having p (g <$> m) = having (p ∘ g) m.
Proof.
  apply set_eq. intros k. rewrite !elem_of_having. setoid_rewrite lookup_fmap.
  destruct (m !! k); cbn; naive_solver.
Qed.
Lemma having_mono {A} (p : A → bool) (m n : gmap string A) : m ⊆ n → having p m ⊆ having p n.
Proof.
  intros Hs k. rewrite !elem_of_having. intros (a & Ha & Hp). exists a.
  split; [by eapply lookup_weaken|done].
Qed.
Lemma keys_with_all {A} (p : A → bool) m l :
  (∀ k, k ∈ l → ∃ a, m !! k = Some a ∧ p a = true) → keys_with p m l = l.
Proof.
  unfold keys_with. induction l as [|k l IH]; [done|]. intros Hall. rewrite filter_cons.
  destruct (Hall k) as (a & Ha & Hp); [by left|].
  rewrite decide_True by (unfold key_is; by rewrite Ha).
  f_equal. apply IH. intros. apply Hall. by right.
Qed.
Lemma keys_with_none {A} (p : A → bool) m l :
  (∀ k a, k ∈ l → m !! k = Some a → p a = false) → keys_with p m l = [].
Proof.
  unfold keys_with. induction l as [|k l IH]; [done|]. intros Hall. rewrite filter_cons.
  rewrite decide_False.
  - apply IH. intros ? ? ?. apply Hall. by right.
  - unfold key_is. destruct (m !! k) eqn:Hk; [|done]. rewrite (Hall k); [done|by left|done].
Qed.

(** ** Updating the values of a list of keys *)
Definition adjust {A} (f : A → A) (l : list string) (m : gmap string A) : gmap string A :=
  map_imap (λ k a, Some (if decide (k ∈ l) then f a else a)) m.

Lemma lookup_adjust {A} (f : A → A) l m k :
  adjust f l m !! k = (λ a, if decide (k ∈ l) then f a else a) <$> m !! k.
Proof. unfold adjust. rewrite map_lookup_imap. by destruct (m !! k). Qed.
Lemma adjust_nil {A} (f : A → A) m : adjust f [] m = m.
Proof. apply map_eq. intros k. rewrite lookup_adjust. by destruct (m !! k). Qed.
Lemma adjust_cons {A} (f : A → A) k l m a :
  m !! k = Some a → k ∉ l → adjust f l (<[k := f a]> m) = adjust f (k :: l) m.
Proof.
  intros Hk Hni. apply map_eq. intros j. rewrite !lookup_adjust.
  destruct (decide (j = k)) as [->|Hj].
  - rewrite lookup_insert_eq, Hk. cbn. by rewrite decide_False, decide_True by (done || by left).
  - rewrite lookup_insert_ne by done. destruct (m !! j) as [b|]; [|done]. cbn. f_equal.
    case_decide; [by rewrite decide_True by by right|].
    rewrite decide_False; [done|]. by rewrite elem_of_cons; intros [|].
Qed.
