(* ===== verification/Identity.v ===== *)
(** * Identities: content identifiers, semantic identifiers, Artifact references

    Models the identity validators of [crates/cymule-core/src/canonical.rs],
    [ir.rs], [model.rs] and [machine.rs].  A Rust [String] is the list of its
    UTF-8 bytes; [sha2]'s SHA-256 is the only parameter. *)

From S2P Require Import Prelude.

(** The categories of [CoreError] that the modelled code raises.  The message
    of an error is text for a reader and is not modelled.  [Panic] is not a
    value of the Rust type: it stands for a run that ends abruptly (a map
    indexed at an absent key), which the theorems show not to happen. *)
Inductive CoreError :=
| Validation
| NotFound
| IdentityMismatch
| IllegalTransition
| CommandReuse
| Causal
| ArchivedCommandReplayRequired
| Encoding
| Panic.

#[export] Instance CoreError_eq_dec : EqDecision CoreError.
Proof. solve_decision. Defined.

Abbreviation core := (result CoreError).

(** [CoreError::code] *)
Definition CoreError_code (e : CoreError) : string :=
  match e with
  | Validation => "validation_failed"
  | NotFound => "not_found"
  | IdentityMismatch => "identity_mismatch"
  | IllegalTransition => "illegal_transition"
  | CommandReuse => "command_id_reused"
  | Causal => "causal_error"
  | ArchivedCommandReplayRequired => "archived_command_replay_required"
  | Encoding => "encoding_failed"
  | Panic => "panic"
  end.

(** ** Bytes of a string *)

Definition byte_of (c : ascii) : N := N_of_ascii c.

Fixpoint all_bytes (p : N → bool) (s : string) : bool :=
  match s with
  | EmptyString => true
  | String c s => p (byte_of c) && all_bytes p s
  end.

Fixpoint byte_len (s : string) : N :=
  match s with EmptyString => 0 | String _ s => 1 + byte_len s end.

Definition is_ascii_lowercase (b : N) : bool := (97 <=? b)%N && (b <=? 122)%N.
Definition is_ascii_uppercase (b : N) : bool := (65 <=? b)%N && (b <=? 90)%N.
Definition is_ascii_digit (b : N) : bool := (48 <=? b)%N && (b <=? 57)%N.
Definition is_ascii_alphanumeric (b : N) : bool :=
  is_ascii_lowercase b || is_ascii_uppercase b || is_ascii_digit b.

(** [byte.is_ascii_digit() || matches!(byte, b'a'..=b'f')] *)
Definition is_lower_hex (b : N) : bool :=
  is_ascii_digit b || ((97 <=? b)%N && (b <=? 102)%N).

(** [str::strip_prefix] *)
Fixpoint strip_prefix (p s : string) : option string :=
  match p, s with
  | EmptyString, _ => Some s
  | String a p, String b s => if decide (a = b) then strip_prefix p s else None
  | String _ _, EmptyString => None
  end.

(** ** Unicode scalar values of a UTF-8 byte string *)

(** [value.chars().count()]: every scalar value has exactly one byte that is
    not a continuation byte. *)
Fixpoint chars_count (s : string) : N :=
  match s with
  | EmptyString => 0
  | String c s =>
      if (128 <=? byte_of c)%N && (byte_of c <? 192)%N
      then chars_count s else 1 + chars_count s
  end.

(** [value.chars().any(char::is_control)]: the control characters are
    U+0000..U+001F, U+007F and U+0080..U+009F, the last ones encoded as the
    byte 0xC2 followed by 0x80..0x9F. *)
Fixpoint has_control (s : string) : bool :=
  match s with
  | EmptyString => false
  | String c s' =>
      (byte_of c <? 32)%N || (byte_of c =? 127)%N ||
      ((byte_of c =? 194)%N &&
        match s' with
        | String d _ => (128 <=? byte_of d)%N && (byte_of d <=? 159)%N
        | EmptyString => false
        end) || has_control s'
  end.

(** [machine.rs: validate_identity] *)
Definition validate_identity (value : string) : core () :=
  if bool_decide (value = EmptyString) || (512 <? chars_count value)%N || has_control value
  then Err Validation else Ok ().

(** [ir.rs: validate_semantic_id] *)
Definition is_semantic_byte (b : N) : bool :=
  is_ascii_alphanumeric b || (b =? 46)%N || (b =? 95)%N || (b =? 45)%N
  || (b =? 47)%N || (b =? 58)%N.
Definition validate_semantic_id (id : string) : core () :=
  let valid := negb (bool_decide (id = EmptyString)) && (byte_len id <=? 160)%N
               && all_bytes is_semantic_byte id in
  if valid then Ok () else Err Validation.

(** ** Content identifiers *)

(** [canonical.rs: HEX] and the loop of [sha256_bytes] *)
Definition hex_digit (v : N) : ascii := ascii_of_N (if (v <? 10)%N then 48 + v else 87 + v).
Fixpoint hex_string (bytes : string) : string :=
  match bytes with
  | EmptyString => EmptyString
  | String c rest =>
      String (hex_digit (byte_of c / 16)) (String (hex_digit (byte_of c mod 16)) (hex_string rest))
  end.

(** The hash function of the [sha2] crate: 32 bytes for every input. *)
Class Sha256 := {
  sha256 : string → string;
  sha256_len : ∀ m, byte_len (sha256 m) = 32%N;
}.

(** [canonical.rs: sha256_bytes] *)
Definition sha256_bytes `{Sha256} (bytes : string) : string := hex_string (sha256 bytes).

(** [canonical.rs: content_id], from the canonical bytes of its value *)
Definition content_id_of_bytes `{Sha256} (domain bytes : string) : string :=
  "sha256:" +:+ sha256_bytes (domain +:+ String "000" bytes).

(** [canonical.rs: validate_content_id] *)
Definition validate_content_id (value : string) : core () :=
  match strip_prefix "sha256:" value with
  | None => Err Validation
  | Some digest =>
      if negb (byte_len digest =? 64)%N || negb (all_bytes is_lower_hex digest)
      then Err Validation else Ok ()
  end.

(** [machine.rs: is_canonical_digest] and [is_sha256_id] *)
Definition is_canonical_digest (v : string) : bool :=
  (byte_len v =? 64)%N && all_bytes is_lower_hex v.
Definition is_sha256_id (v : string) : bool :=
  match strip_prefix "sha256:" v with Some d => is_canonical_digest d | None => false end.

(** ** Artifact references *)

Definition ARTIFACT_IDENTITY_VERSION : string := "cymule.artifact/2".
Definition EFFECT_SCHEMA_VERSION : string := "cymule.effect-schema/1".
Definition EFFECT_ARGS_ARTIFACT_KIND : string := "cymule.effect-args/1".
Definition EXECUTION_BINDING_ARTIFACT_KIND : string := "cymule.execution-binding/2".
Definition RUN_INPUT_ARTIFACT_KIND : string := "cymule.input/1".
Definition EFFECT_INTENT_ID_DOMAIN : string := "cymule.effect-intent/2".
Definition EFFECT_OBLIGATION_ID_DOMAIN : string := "cymule.effect-obligation/1".
Definition INVOCATION_ID_DOMAIN : string := "cymule.invocation/2".
Definition SCOPE_ID_DOMAIN : string := "cymule.scope/2".
Definition EVENT_VERSION : string := "cymule.event/8".
Definition COMMAND_VERSION : string := "cymule.command/6".
Definition ROOT_SCOPE_ID : string := "scope:root".
Definition MAX_EXACT_INTEGER : N := 9007199254740991.
Definition MAX_ARTIFACT_KIND_BYTES : N := 255.
Definition MAX_ARTIFACT_BYTES : N := 8 * 1024 * 1024.

Record ArtifactRef := {
  identity_version : string;
  artifact_id : string;
  artifact_kind : string;
}.
#[export] Instance ArtifactRef_eq_dec : EqDecision ArtifactRef.
Proof. solve_decision. Defined.

(** [kind.split('/')] *)
Fixpoint split_slash (s : string) : list string :=
  match s with
  | EmptyString => [EmptyString]
  | String c s =>
      if decide (c = "/"%char) then EmptyString :: split_slash s
      else match split_slash s with
           | seg :: segs => String c seg :: segs
           | [] => [String c EmptyString]
           end
  end.

Definition is_kind_byte (b : N) : bool :=
  is_ascii_lowercase b || is_ascii_digit b || (b =? 46)%N || (b =? 95)%N
  || (b =? 45)%N || (b =? 43)%N.
Definition contains_slash (s : string) : bool := negb (all_bytes (λ b, negb (b =? 47)%N) s).

(** [model.rs: validate_artifact_kind] *)
Definition validate_artifact_kind (kind : string) : core () :=
  if bool_decide (kind = EmptyString)
     || (MAX_ARTIFACT_KIND_BYTES <? byte_len kind)%N
     || negb (all_bytes (λ b, b <? 128)%N kind)
     || negb (contains_slash kind)
     || existsb (λ segment, bool_decide (segment = EmptyString)
                            || negb (all_bytes is_kind_byte segment)) (split_slash kind)
  then Err Validation else Ok ().

(** [uN::to_be_bytes] for an [n]-byte integer *)
Fixpoint to_be_bytes (n : nat) (v : N) : string :=
  match n with
  | O => EmptyString
  | S n => String (ascii_of_N ((v / 256 ^ N.of_nat n) mod 256)) (to_be_bytes n v)
  end.

(** The framed preimage of [artifact_ref]. *)
Definition artifact_preimage (kind bytes : string) : string :=
  ARTIFACT_IDENTITY_VERSION +:+ to_be_bytes 4 (byte_len kind) +:+ kind
    +:+ to_be_bytes 8 (byte_len bytes) +:+ bytes.

(** [model.rs: artifact_ref] *)
Definition artifact_ref `{Sha256} (kind bytes : string) : core ArtifactRef :=
  _ ← validate_artifact_kind kind;
  _ ← require (byte_len bytes <=? MAX_ARTIFACT_BYTES)%N Validation;
  _ ← require (byte_len kind <=? 4294967295)%N Validation;
  _ ← require (byte_len bytes <=? u64_max)%N Validation;
  Ok {| identity_version := ARTIFACT_IDENTITY_VERSION;
        artifact_id := "sha256:" +:+ sha256_bytes (artifact_preimage kind bytes);
        artifact_kind := kind |}.

(** [ArtifactRef::validate] *)
Definition ArtifactRef_validate (r : ArtifactRef) : core () :=
  _ ← require (bool_decide (identity_version r = ARTIFACT_IDENTITY_VERSION)) Validation;
  _ ← validate_artifact_kind (artifact_kind r);
  match strip_prefix "sha256:" (artifact_id r) with
  | None => Err Validation
  | Some digest =>
      if negb (byte_len digest =? 64)%N || negb (all_bytes is_lower_hex digest)
      then Err Validation else Ok ()
  end.

(** [model.rs: validate_effect_args_reference] *)
Definition validate_effect_args_reference (args : ArtifactRef) : core () :=
  _ ← ArtifactRef_validate args;
  require (bool_decide (artifact_kind args = EFFECT_ARGS_ARTIFACT_KIND)) Validation.

(** [model.rs: validate_failure_code]: the grammar is written with the index of
    each byte, the first one restricted further. *)
Fixpoint failure_code_bytes (index : N) (code : string) : bool :=
  match code with
  | EmptyString => true
  | String c code =>
      (is_ascii_lowercase (byte_of c)
       || ((0 <? index)%N && (is_ascii_digit (byte_of c) || (byte_of c =? 95)%N)))
      && failure_code_bytes (1 + index) code
  end.
Definition validate_failure_code (code : string) : core () :=
  let valid := negb (bool_decide (code = EmptyString)) && (byte_len code <=? 200)%N
               && failure_code_bytes 0 code in
  if valid then Ok () else Err Validation.

(** ** Lemmas *)

Section IdentityLemmas.

Lemma byte_of_range c : (byte_of c < 256)%N.
Proof. destruct c as [[] [] [] [] [] [] [] []]; unfold byte_of; simpl; lia. Qed.

Lemma byte_of_inj c d : byte_of c = byte_of d → c = d.
Proof.
  intros H. rewrite <-(ascii_N_embedding c), <-(ascii_N_embedding d).
  unfold byte_of in H. by rewrite H.
Qed.

Lemma byte_len_app s t : byte_len (s +:+ t) = (byte_len s + byte_len t)%N.
Proof. induction s as [|c s IH]; simpl; [done|]. rewrite IH. lia. Qed.

Lemma all_bytes_app p s t : all_bytes p (s +:+ t) = all_bytes p s && all_bytes p t.
Proof. induction s as [|c s IH]; simpl; [done|]. by rewrite IH, andb_assoc. Qed.

Lemma string_assoc s t u : (s +:+ t) +:+ u = s +:+ (t +:+ u).
Proof. induction s as [|c s IH]; [done|]. exact (f_equal (String c) IH). Qed.
Lemma string_nil s : s +:+ "" = s.
Proof. induction s as [|c s IH]; [done|]. exact (f_equal (String c) IH). Qed.
Lemma strip_prefix_app p s : strip_prefix p (p +:+ s) = Some s.
Proof. induction p as [|c p IH]; simpl; [done|]. by rewrite decide_True. Qed.

Lemma strip_prefix_Some p s t : strip_prefix p s = Some t ↔ s = p +:+ t.
Proof.
  split; [|intros ->; apply strip_prefix_app].
  revert s. induction p as [|c p IH]; intros s; simpl; [by intros [= ->]|].
  destruct s as [|d s]; [done|]. case_decide; [|done]. intros ?%IH. by subst.
Qed.

Lemma hex_string_len s : byte_len (hex_string s) = (2 * byte_len s)%N.
Proof. induction s as [|c s IH]; simpl; [done|]. rewrite IH. lia. Qed.

Lemma hex_digit_byte v : (v < 16)%N → byte_of (hex_digit v) = (if v <? 10 then 48 + v else 87 + v)%N.
Proof.
  intros Hv. unfold byte_of, hex_digit. apply N_ascii_embedding.
  destruct (N.ltb_spec v 10); lia.
Qed.
Lemma hex_digit_lower v : (v < 16)%N → is_lower_hex (byte_of (hex_digit v)) = true.
Proof.
  intros Hv. rewrite hex_digit_byte by done. unfold is_lower_hex, is_ascii_digit.
  destruct (N.ltb_spec v 10); autorewrite with boolprop; lia.
Qed.
Lemma hex_digit_inj v w : (v < 16)%N → (w < 16)%N → hex_digit v = hex_digit w → v = w.
Proof.
  intros Hv Hw Heq%(f_equal byte_of). rewrite !hex_digit_byte in Heq by done.
  destruct (N.ltb_spec v 10), (N.ltb_spec w 10); lia.
Qed.

Lemma nibbles_lt c : (byte_of c / 16 < 16)%N ∧ (byte_of c mod 16 < 16)%N.
Proof.
  pose proof (byte_of_range c). split; [apply N.Div0.div_lt_upper_bound; lia|].
  apply N.mod_lt. lia.
Qed.

Lemma hex_string_lower s : all_bytes is_lower_hex (hex_string s) = true.
Proof.
  induction s as [|c s IH]; [done|]. cbn [hex_string all_bytes].
  destruct (nibbles_lt c). by rewrite !hex_digit_lower, IH.
Qed.

Lemma hex_string_inj s t : hex_string s = hex_string t → s = t.
Proof.
  revert t. induction s as [|c s IH]; intros [|d t]; cbn [hex_string]; try done.
  intros [= H1 H2 H3]. destruct (nibbles_lt c), (nibbles_lt d).
  apply hex_digit_inj in H1; [|done..]. apply hex_digit_inj in H2; [|done..].
  rewrite (IH t) by done. f_equal. apply byte_of_inj.
  rewrite (N.div_mod' (byte_of c) 16), (N.div_mod' (byte_of d) 16). lia.
Qed.

Lemma validate_content_id_Ok v u :
  validate_content_id v = Ok u ↔
  ∃ d, v = "sha256:" +:+ d ∧ byte_len d = 64%N ∧ all_bytes is_lower_hex d = true.
Proof.
  unfold validate_content_id. destruct u. destruct (strip_prefix _ v) as [d|] eqn:Hs.
  - apply strip_prefix_Some in Hs as ->. split.
    + case_match eqn:Hb; [done|]. intros _. exists d. to_prop. done.
    + intros (d' & Hd & Hl & Hh). apply (f_equal (strip_prefix "sha256:")) in Hd.
      rewrite !strip_prefix_app in Hd. simplify_eq. by rewrite Hl, Hh.
  - split; [done|]. intros (d & -> & _). by rewrite strip_prefix_app in Hs.
Qed.

Lemma content_id_valid `{Sha256} dom bytes :
  validate_content_id (content_id_of_bytes dom bytes) = Ok ().
Proof.
  apply validate_content_id_Ok. eexists. split; [done|]. unfold sha256_bytes. split.
  - rewrite hex_string_len, sha256_len. done.
  - apply hex_string_lower.
Qed.

Lemma is_sha256_id_valid v : is_sha256_id v = true ↔ validate_content_id v = Ok ().
Proof.
  unfold is_sha256_id, validate_content_id, is_canonical_digest.
  destruct (strip_prefix _ v) as [d|]; [|by split].
  destruct (byte_len d =? 64)%N, (all_bytes is_lower_hex d); by split.
Qed.
Lemma sha256_bytes_digest `{Sha256} bytes : is_canonical_digest (sha256_bytes bytes) = true.
Proof.
  unfold is_canonical_digest, sha256_bytes. by rewrite hex_string_len, sha256_len, hex_string_lower.
Qed.

(** Two framed fields with equal lengths split uniquely. *)
Lemma append_inj s1 s2 t1 t2 :
  byte_len s1 = byte_len s2 → s1 +:+ t1 = s2 +:+ t2 → s1 = s2 ∧ t1 = t2.
Proof.
  revert s2. induction s1 as [|c s1 IH]; intros [|d s2] Hl He; cbn in Hl; try lia; [done|].
  injection He as -> He. destruct (IH s2) as [-> ->]; [lia|done|done].
Qed.

Lemma to_be_bytes_len n v : byte_len (to_be_bytes n v) = N.of_nat n.
Proof. induction n; cbn [to_be_bytes byte_len]; lia. Qed.

Lemma to_be_bytes_inj n v w :
  (v < 256 ^ N.of_nat n)%N → (w < 256 ^ N.of_nat n)%N →
  to_be_bytes n v = to_be_bytes n w → v = w.
Proof.
  intros Hv Hw. enough (∀ v w, to_be_bytes n v = to_be_bytes n w →
    (v mod 256 ^ N.of_nat n = w mod 256 ^ N.of_nat n)%N) as Hm.
  { intros H%Hm. by rewrite !N.mod_small in H. }
  clear. induction n as [|n IH]; intros v w; cbn [to_be_bytes].
  - intros _. by rewrite !N.mod_1_r.
  - intros [= Hhi Hlo%IH].
    apply (f_equal N_of_ascii) in Hhi.
    rewrite !N_ascii_embedding in Hhi by (apply N.mod_lt; lia).
    rewrite Nat2N.inj_succ, N.pow_succ_r', (N.mul_comm 256).
    rewrite !N.Div0.mod_mul_r, Hlo, Hhi. done.
Qed.
End IdentityLemmas.

#[export] Hint Resolve content_id_valid : cymule.
