(* ===== verification/CommandIndex.v ===== *)
(** * The archived-command index

    Models the sparse Merkle map of [crates/cymule-core/src/machine.rs] that
    authenticates which command identities are archived: keys, leaf and node
    hashes, and membership and non-membership proofs.  Hashes are taken over
    binary payloads, so the hash function is the only parameter. *)

From S2P Require Import Prelude Identity.

Definition COMMAND_INDEX_DEPTH : nat := 256.
Definition COMMAND_INDEX_PROOF_VERSION : string := "cymule.command-index-proof/2".
Definition COMMAND_INDEX_KEY_DOMAIN : string := "cymule.command-index-key/1".
Definition COMMAND_INDEX_LEAF_DOMAIN : string := "cymule.command-index-leaf/1".
Definition COMMAND_INDEX_NODE_DOMAIN : string := "cymule.command-index-node/1".
Definition COMMAND_INDEX_EMPTY_DOMAIN : string := "cymule.command-index-empty-leaf/1".

Record MachineCommandIndexValue := {
  iv_admission_id : string;
  iv_archive_entry_digest : string;
}.
#[export] Instance MachineCommandIndexValue_eq_dec : EqDecision MachineCommandIndexValue.
Proof. solve_decision. Defined.

Record MachineCommandIndexProof := {
  proof_version : string;
  ip_command_id : string;
  ip_value : option MachineCommandIndexValue;
  empty_depth : option N;
  siblings : list string;
}.
#[export] Instance MachineCommandIndexProof_eq_dec : EqDecision MachineCommandIndexProof.
Proof. solve_decision. Defined.

Inductive MachineCommandIndexNode :=
| Branch (node_id : string) (depth : N) (left right : string)
| Member (node_id key_hash command_id : string) (value : MachineCommandIndexValue).
#[export] Instance MachineCommandIndexNode_eq_dec : EqDecision MachineCommandIndexNode.
Proof. solve_decision. Defined.

(** [u8::from_str_radix] on two lowercase hexadecimal digits, for a whole
    string of pairs. *)
Definition hex_value (c : ascii) : N :=
  if is_ascii_digit (byte_of c) then byte_of c - 48 else byte_of c - 87.
Fixpoint decode_hex (s : string) : string :=
  match s with
  | String a (String b s) => String (ascii_of_N (16 * hex_value a + hex_value b)) (decode_hex s)
  | _ => EmptyString
  end.

(** [decode_command_index_hash] *)
Definition hash_bytes (v : string) : string :=
  decode_hex (default EmptyString (strip_prefix "sha256:" v)).
Definition decode_command_index_hash (v : string) : core string :=
  _ ← require (is_sha256_id v) Validation;
  Ok (hash_bytes v).

(** [command_index_key_id] *)
Definition command_index_key_id (key : string) : string := "sha256:" +:+ hex_string key.

(** [command_index_bit]: bit [depth] of a 32-byte key, most significant first. *)
Definition command_index_bit (key : string) (depth : nat) : bool :=
  match String.get (depth / 8) key with
  | Some c => N.testbit (byte_of c) (7 - N.of_nat (depth mod 8))
  | None => false
  end.

(** [MachineCommandIndexValue::verify] *)
Definition IndexValue_verify (v : MachineCommandIndexValue) : core () :=
  require (is_sha256_id (iv_admission_id v) && is_sha256_id (iv_archive_entry_digest v)) Validation.

Section Index.
Context `{Sha256}.

Definition command_index_binary_hash (domain payload : string) : string :=
  "sha256:" +:+ sha256_bytes (domain +:+ String "000" payload).

Definition command_index_key (cid : string) : core string :=
  _ ← validate_identity cid;
  _ ← require (byte_len cid <=? 4294967295)%N Validation;
  decode_command_index_hash (command_index_binary_hash COMMAND_INDEX_KEY_DOMAIN
    (to_be_bytes 4 (byte_len cid) +:+ cid)).

Definition command_index_member_leaf (key cid : string) (v : MachineCommandIndexValue)
    : core string :=
  _ ← require (byte_len cid <=? 4294967295)%N Validation;
  admission ← decode_command_index_hash (iv_admission_id v);
  entry ← decode_command_index_hash (iv_archive_entry_digest v);
  Ok (command_index_binary_hash COMMAND_INDEX_LEAF_DOMAIN
        (key +:+ to_be_bytes 4 (byte_len cid) +:+ cid +:+ admission +:+ entry)).

Definition command_index_node (depth : nat) (left right : string) : core string :=
  _ ← require (N.of_nat depth <=? 65535)%N Validation;
  l ← decode_command_index_hash left;
  r ← decode_command_index_hash right;
  Ok (command_index_binary_hash COMMAND_INDEX_NODE_DOMAIN
        (to_be_bytes 2 (N.of_nat depth) +:+ l +:+ r)).

(** [command_index_empty_hashes]: the hash of the empty subtree of height
    [h], which hangs at depth [256 - h]; the [expect] is a panic. *)
Fixpoint empty_hash_of_height (h : nat) : core string :=
  match h with
  | O => Ok (command_index_binary_hash COMMAND_INDEX_EMPTY_DOMAIN EmptyString)
  | S h' =>
      child ← empty_hash_of_height h';
      match command_index_node (COMMAND_INDEX_DEPTH - h) child child with
      | Ok node => Ok node
      | Err _ => Err Panic
      end
  end.
Definition command_index_empty_hash (depth : nat) : core string :=
  empty_hash_of_height (COMMAND_INDEX_DEPTH - depth).

(** [command_index_empty_hashes], the whole table from the leaf up: entry [h]
    is the hash of the empty subtree of height [h]. *)
Fixpoint empty_hashes_from (h n : nat) (e : string) : core (list string) :=
  match n with
  | O => Ok [e]
  | S n =>
      match command_index_node (COMMAND_INDEX_DEPTH - S h) e e with
      | Ok parent => hashes ← empty_hashes_from (S h) n parent; Ok (e :: hashes)
      | Err _ => Err Panic
      end
  end.
Definition command_index_empty_hashes : core (list string) :=
  empty_hashes_from 0 COMMAND_INDEX_DEPTH
    (command_index_binary_hash COMMAND_INDEX_EMPTY_DOMAIN EmptyString).

(** [MachineCommandIndexProof::empty_hash] and [empty_root] *)
Definition empty_hash (depth : nat) : core string :=
  _ ← require (depth <=? COMMAND_INDEX_DEPTH) Validation;
  command_index_empty_hash depth.
Definition empty_root : core string := command_index_empty_hash 0.

(** [MachineCommandIndexNode::identity] *)
Definition IndexNode_identity (n : MachineCommandIndexNode) : core string :=
  match n with
  | Branch id depth l r =>
      let depth := N.to_nat depth in
      _ ← require ((depth <? COMMAND_INDEX_DEPTH) && is_sha256_id l && is_sha256_id r)
            IdentityMismatch;
      expected ← command_index_node depth l r;
      _ ← require (bool_decide (expected = id)) IdentityMismatch;
      Ok id
  | Member id key_hash cid v =>
      _ ← validate_identity cid;
      _ ← IndexValue_verify v;
      key ← command_index_key cid;
      _ ← require (bool_decide (key_hash = command_index_key_id key)) IdentityMismatch;
      expected ← command_index_member_leaf key cid v;
      _ ← require (bool_decide (expected = id)) IdentityMismatch;
      Ok id
  end.

(** [empty_nonmembership] *)
Definition empty_nonmembership (cid : string) : core MachineCommandIndexProof :=
  _ ← validate_identity cid;
  Ok {| proof_version := COMMAND_INDEX_PROOF_VERSION; ip_command_id := cid; ip_value := None;
        empty_depth := Some 0%N; siblings := [] |}.

(** [validate_shape_syntax] *)
Definition validate_shape_syntax (p : MachineCommandIndexProof) : core nat :=
  _ ← require (bool_decide (proof_version p = COMMAND_INDEX_PROOF_VERSION)) Validation;
  _ ← validate_identity (ip_command_id p);
  depth ← match ip_value p, empty_depth p with
          | Some v, None =>
              _ ← require (length (siblings p) =? COMMAND_INDEX_DEPTH) Validation;
              _ ← IndexValue_verify v;
              Ok COMMAND_INDEX_DEPTH
          | None, Some depth =>
              _ ← require ((N.to_nat depth <=? COMMAND_INDEX_DEPTH)
                           && (length (siblings p) =? N.to_nat depth)) Validation;
              Ok (N.to_nat depth)
          | _, _ => Err Validation
          end;
  _ ← require (forallb is_sha256_id (siblings p)) Validation;
  Ok depth.

(** [validate_shape] *)
Definition validate_shape (p : MachineCommandIndexProof) : core nat :=
  depth ← validate_shape_syntax p;
  if bool_decide (ip_value p = None) && (0 <? depth) then
    empty ← command_index_empty_hash depth;
    _ ← require (negb (bool_decide (head (siblings p) = Some empty))) Validation;
    Ok depth
  else Ok depth.

(** The loop that hashes towards the root: [remaining] is the depth of the
    current node. *)
Fixpoint hash_up (key : string) (remaining : nat) (current : string) (l : list string)
    {struct l} : core string :=
  match l, remaining with
  | [], _ => Ok current
  | sibling :: l, S depth =>
      current ← (if command_index_bit key depth then command_index_node depth sibling current
                 else command_index_node depth current sibling);
      hash_up key depth current l
  | _ :: _, O => Err Panic
  end.

(** The empty subtrees that a compressed proof leaves out, from the leaf up. *)
Definition omitted_siblings (depth : nat) : core (list string) :=
  hashes ← command_index_empty_hashes;
  Ok (take (COMMAND_INDEX_DEPTH - depth) hashes).

(** [root_with_value] *)
Definition root_with_value (p : MachineCommandIndexProof) (v : option MachineCommandIndexValue)
    : core string :=
  depth ← validate_shape p;
  key ← command_index_key (ip_command_id p);
  current ← match ip_value p, v with
            | Some expected, Some v =>
                _ ← require (bool_decide (expected = v)) Validation;
                command_index_member_leaf key (ip_command_id p) v
            | Some _, None => Err Validation
            | None, Some v =>
                _ ← IndexValue_verify v;
                leaf ← command_index_member_leaf key (ip_command_id p) v;
                omitted ← omitted_siblings depth;
                hash_up key COMMAND_INDEX_DEPTH leaf omitted
            | None, None => command_index_empty_hash depth
            end;
  hash_up key depth current (siblings p).

(** [MachineCommandIndexProof::root] *)
Definition IndexProof_root (p : MachineCommandIndexProof) : core string :=
  root_with_value p (ip_value p).

(** [is_canonical_empty_nonmembership] *)
Definition is_canonical_empty_nonmembership (p : MachineCommandIndexProof) (expected : string)
    : core bool :=
  root ← empty_root;
  Ok (bool_decide (expected = root) && bool_decide (ip_value p = None)
      && bool_decide (empty_depth p = Some 0%N) && bool_decide (siblings p = [])).

(** [MachineCommandIndexProof::verify] *)
Definition IndexProof_verify (p : MachineCommandIndexProof) (expected : string) : core () :=
  _ ← validate_shape p;
  fast ← is_canonical_empty_nonmembership p expected;
  if (fast : bool) then Ok () else
  _ ← require (is_sha256_id expected) IdentityMismatch;
  root ← IndexProof_root p;
  require (bool_decide (root = expected)) IdentityMismatch.

(** [materialized] *)
Definition materialized (p : MachineCommandIndexProof) : core MachineCommandIndexProof :=
  depth ← validate_shape p;
  if bool_decide (is_Some (ip_value p)) || (depth =? COMMAND_INDEX_DEPTH) then Ok p else
  omitted ← omitted_siblings depth;
  Ok {| proof_version := COMMAND_INDEX_PROOF_VERSION; ip_command_id := ip_command_id p;
        ip_value := None; empty_depth := Some (N.of_nat COMMAND_INDEX_DEPTH);
        siblings := omitted ++ siblings p |}.
End Index.
