(* ===== verification/IndexSound.v ===== *)
(** * Soundness of the archived-command index

    Two proofs for one command against one root carry the same value, unless
    the hash inputs of the two verifications contain a collision.  A proof of
    absence, extended with a value, becomes a proof of membership. *)

From S2P Require Import Prelude Identity CommandIndex.

(** [l] contains no two different strings with the same hash. *)
Definition collision_free `{Sha256} (l : list string) : Prop :=
  ∀ x y, x ∈ l → y ∈ l → sha256 x = sha256 y → x = y.

(** A decision procedure for the absence of collisions: digests map to the one
    string that has them. *)
Definition collision_check `{Sha256} (l : list string) : bool :=
  match try_fold (λ (seen : gmap string string) x,
    let d := hex_string (sha256 x) in
    match seen !! d with
    | Some y => _ ← require (bool_decide (x = y)) Panic; Ok seen
    | None => Ok (<[d := x]> seen)
    end) ∅ l with Ok _ => true | Err _ => false end.
Lemma collision_free_subset `{Sha256} l k : (∀ x, x ∈ l → x ∈ k) → collision_free k → collision_free l.
Proof. intros Hs Hk x y Hx Hy. by apply Hk; apply Hs. Qed.
Lemma collision_check_sound `{Sha256} l : collision_check l = true → collision_free l.
Proof.
  unfold collision_check. destruct (try_fold _ _ l) as [seen|] eqn:Hf; [|done]. intros _.
  assert (Hall : ∀ x, x ∈ l → seen !! hex_string (sha256 x) = Some x).
  { refine (try_fold_inv _ (λ don (s : gmap string string), ∀ x, x ∈ don →
      s !! hex_string (sha256 x) = Some x) _ _ _ _ _ Hf); [by intros ? ?%elem_of_nil|].
    intros don x rest s s' _ IH Hs y Hy. cbn in Hs. apply elem_of_app in Hy.
    rewrite list_elem_of_singleton in Hy.
    destruct (s !! hex_string (sha256 x)) as [z|] eqn:Hz; inv_ok.
    - rewrite bool_decide_eq_true in *. subst. destruct Hy as [Hy| ->]; [by apply IH|done].
    - destruct (decide (hex_string (sha256 x) = hex_string (sha256 y))) as [Heq|Hne].
      + rewrite Heq, lookup_insert_eq. destruct Hy as [Hy| ->]; [|done].
        specialize (IH y Hy). rewrite <-Heq in IH. congruence.
      + rewrite lookup_insert_ne by done. destruct Hy as [Hy| ->]; [by apply IH|done]. }
  intros x y Hx Hy Heq. apply Hall in Hx, Hy. rewrite Heq in Hx. congruence.
Qed.

Section Hex.
Lemma hex_value_lt c : is_lower_hex (byte_of c) = true → (hex_value c < 16)%N.
Proof.
  unfold is_lower_hex, hex_value, is_ascii_digit. pose proof (byte_of_range c).
  destruct (48 <=? byte_of c)%N eqn:?, (byte_of c <=? 57)%N eqn:?; cbn; to_prop; lia.
Qed.
Lemma hex_value_inj c d :
  is_lower_hex (byte_of c) = true → is_lower_hex (byte_of d) = true →
  hex_value c = hex_value d → c = d.
Proof.
  intros Hc Hd Heq. apply byte_of_inj. revert Hc Hd Heq. unfold is_lower_hex, hex_value, is_ascii_digit.
  destruct (48 <=? byte_of c)%N eqn:?, (byte_of c <=? 57)%N eqn:?,
    (48 <=? byte_of d)%N eqn:?, (byte_of d <=? 57)%N eqn:?; cbn; intros; to_prop; lia.
Qed.

Fixpoint even_len (s : string) : bool :=
  match s with
  | EmptyString => true
  | String _ (String _ s) => even_len s
  | String _ EmptyString => false
  end.

Lemma string_pair_ind (P : string → Prop) :
  P EmptyString → (∀ a, P (String a EmptyString)) → (∀ a b s, P s → P (String a (String b s))) →
  ∀ s, P s.
Proof.
  intros H0 H1 H2. assert (∀ s, P s ∧ ∀ a, P (String a s)) as Hs; [|apply Hs].
  induction s as [|a s [IH1 IH2]]; [by split|]. split; [apply IH2|]. intros b. by apply H2.
Qed.

Lemma decode_hex_inj s t :
  byte_len s = byte_len t → even_len s = true →
  all_bytes is_lower_hex s = true → all_bytes is_lower_hex t = true →
  decode_hex s = decode_hex t → s = t.
Proof.
  revert t. induction s as [|a|a b s IH] using string_pair_ind; intros t Hl He Hs Ht Hd.
  - destruct t; cbn in Hl; [done|lia].
  - done.
  - destruct t as [|c [|d t]]; cbn [byte_len] in Hl; try lia.
    cbn [all_bytes decode_hex even_len] in *. to_prop. injection Hd as Hh Ht'.
    apply (f_equal N_of_ascii) in Hh.
    repeat match goal with
    | Hx : is_lower_hex (byte_of ?c) = true |- _ =>
        lazymatch goal with
        | _ : (hex_value c < 16)%N |- _ => fail
        | _ => pose proof (hex_value_lt c Hx)
        end
    end.
    rewrite !N_ascii_embedding in Hh by lia.
    assert (hex_value a = hex_value c ∧ hex_value b = hex_value d) as [Hac Hbd] by lia.
    apply hex_value_inj in Hac, Hbd; [|done..]. subst. f_equal. f_equal.
    apply IH; [lia|done..].
Qed.

Lemma even_len_of_64 s : byte_len s = 64%N → even_len s = true.
Proof.
  enough (∀ n s, byte_len s = (2 * n)%N → even_len s = true) as He by (intros; by apply (He 32%N)).
  intros n. clear s. induction n as [|n IH] using N.peano_ind; intros s Hs.
  - by destruct s; cbn in Hs; [|lia].
  - destruct s as [|a [|b s]]; cbn [byte_len] in Hs; [done|lia|]. cbn. apply IH. lia.
Qed.

Lemma decode_command_index_hash_inj v w b :
  decode_command_index_hash v = Ok b → decode_command_index_hash w = Ok b → v = w.
Proof.
  unfold decode_command_index_hash. intros Hv Hw. inv_ok. unfold hash_bytes, is_sha256_id in *.
  destruct (strip_prefix _ v) as [d|] eqn:Hd; [|done].
  destruct (strip_prefix _ w) as [e|] eqn:He; [|done].
  apply strip_prefix_Some in Hd as ->, He as ->. unfold is_canonical_digest in *. cbn in *. to_prop.
  f_equal. symmetry. eapply decode_hex_inj; [congruence|by apply even_len_of_64|done..].
Qed.

Lemma decode_hex_string s : decode_hex (hex_string s) = s.
Proof.
  induction s as [|c s IH]; [done|]. cbn [hex_string decode_hex]. rewrite IH. f_equal.
  rewrite <-(ascii_N_embedding c) at 3. f_equal. destruct (nibbles_lt c).
  unfold hex_value. rewrite !hex_digit_byte by done. unfold is_ascii_digit, byte_of in *.
  assert (∀ v, (v < 16)%N → ((if ((48 <=? (if v <? 10 then 48 + v else 87 + v))
      && ((if v <? 10 then 48 + v else 87 + v) <=? 57))%N
    then (if v <? 10 then 48 + v else 87 + v) - 48
    else (if v <? 10 then 48 + v else 87 + v) - 87) = v)%N) as Hv.
  { intros v Hlt. destruct (N.ltb_spec v 10).
    - destruct (N.leb_spec 48 (48 + v)), (N.leb_spec (48 + v) 57); cbn; lia.
    - destruct (N.leb_spec 48 (87 + v)), (N.leb_spec (87 + v) 57); cbn; lia. }
  rewrite !Hv by done. pose proof (N.div_mod' (N_of_ascii c) 16). lia.
Qed.
End Hex.

Section Soundness.
Context `{Sha256}.

(** ** Hash inputs *)

Definition binary_input (domain payload : string) : string := domain +:+ String "000" payload.
Definition node_payload (depth : nat) (l r : string) : string :=
  to_be_bytes 2 (N.of_nat depth) +:+ hash_bytes l
    +:+ hash_bytes r.
Definition node_input (depth : nat) (l r : string) : string :=
  binary_input COMMAND_INDEX_NODE_DOMAIN (node_payload depth l r).

Lemma binary_input_inj d x y : binary_input d x = binary_input d y → x = y.
Proof. unfold binary_input. intros Heq. apply append_inj in Heq as [_ Heq]; [|done]. congruence. Qed.
Lemma binary_hash_valid domain payload :
  is_sha256_id (command_index_binary_hash domain payload) = true.
Proof.
  unfold is_sha256_id, command_index_binary_hash. rewrite strip_prefix_app.
  apply sha256_bytes_digest.
Qed.
Lemma binary_hash_inj d1 p1 d2 p2 l :
  collision_free l → binary_input d1 p1 ∈ l → binary_input d2 p2 ∈ l →
  command_index_binary_hash d1 p1 = command_index_binary_hash d2 p2 →
  binary_input d1 p1 = binary_input d2 p2.
Proof.
  intros Hc H1 H2 Heq. apply Hc; [done..|]. apply hex_string_inj.
  apply (f_equal (strip_prefix "sha256:")) in Heq. unfold command_index_binary_hash in Heq.
  rewrite !strip_prefix_app in Heq. by injection Heq.
Qed.

Lemma node_Ok depth l r h :
  command_index_node depth l r = Ok h ↔
  (N.of_nat depth <= 65535)%N ∧ is_sha256_id l = true ∧ is_sha256_id r = true
  ∧ h = command_index_binary_hash COMMAND_INDEX_NODE_DOMAIN (node_payload depth l r).
Proof.
  unfold command_index_node, decode_command_index_hash, node_payload. split.
  - intros Hn. inv_ok. to_prop. done.
  - intros (Hd & Hl & Hr & ->). apply N.leb_le in Hd. rewrite Hd, Hl, Hr. done.
Qed.
Lemma node_Ok_valid depth l r h : command_index_node depth l r = Ok h → is_sha256_id h = true.
Proof. intros (_ & _ & _ & ->)%node_Ok. apply binary_hash_valid. Qed.

Lemma decode_hex_len s : even_len s = true → (2 * byte_len (decode_hex s) = byte_len s)%N.
Proof.
  induction s as [|a|a b s IH] using string_pair_ind; cbn [decode_hex byte_len even_len]; [done..|].
  intros ?%IH. lia.
Qed.
Lemma sha256_id_payload_len v :
  is_sha256_id v = true → byte_len (hash_bytes v) = 32%N.
Proof.
  unfold is_sha256_id, is_canonical_digest, hash_bytes. destruct (strip_prefix _ v) as [d|]; [|done]. cbn.
  intros Hd. to_prop. pose proof (decode_hex_len d) as Hl.
  rewrite even_len_of_64 in Hl by done. lia.
Qed.

Lemma node_inj depth l1 r1 l2 r2 h inputs :
  collision_free inputs → node_input depth l1 r1 ∈ inputs → node_input depth l2 r2 ∈ inputs →
  command_index_node depth l1 r1 = Ok h → command_index_node depth l2 r2 = Ok h →
  l1 = l2 ∧ r1 = r2.
Proof.
  intros Hc H1 H2 (Hd & Hl1 & Hr1 & ->)%node_Ok (_ & Hl2 & Hr2 & Heq)%node_Ok.
  apply (binary_hash_inj _ _ _ _ _ Hc H1 H2), binary_input_inj in Heq. unfold node_payload in Heq.
  apply append_inj in Heq as [_ Heq]; [|done].
  apply append_inj in Heq as [Hl Hr]; [|by rewrite !sha256_id_payload_len].
  split; [apply (decode_command_index_hash_inj _ _ (hash_bytes l2))
         |apply (decode_command_index_hash_inj _ _ (hash_bytes r2))];
    unfold decode_command_index_hash; rewrite ?Hl1, ?Hr1, ?Hl2, ?Hr2; unfold require;
    cbn [mbind result_bind]; congruence.
Qed.

(** The inputs that [hash_up] hashes. *)
Fixpoint hash_up_inputs (key : string) (remaining : nat) (current : string) (l : list string)
    {struct l} : list string :=
  match l, remaining with
  | sibling :: l, S depth =>
      let '(a, b) := if command_index_bit key depth then (sibling, current) else (current, sibling) in
      node_input depth a b ::
        match command_index_node depth a b with
        | Ok parent => hash_up_inputs key depth parent l
        | Err _ => []
        end
  | _, _ => []
  end.

Lemma hash_up_step key depth current sibling l :
  hash_up key (S depth) current (sibling :: l) =
    let '(a, b) := if command_index_bit key depth then (sibling, current) else (current, sibling) in
    parent ← command_index_node depth a b; hash_up key depth parent l.
Proof. cbn. by destruct (command_index_bit key depth). Qed.

(** Two paths of the same length to one root are the same path. *)
Lemma hash_up_inj key d c1 l1 c2 l2 root inputs :
  collision_free inputs →
  (∀ x, x ∈ hash_up_inputs key d c1 l1 → x ∈ inputs) →
  (∀ x, x ∈ hash_up_inputs key d c2 l2 → x ∈ inputs) →
  length l1 = d → length l2 = d →
  hash_up key d c1 l1 = Ok root → hash_up key d c2 l2 = Ok root → c1 = c2 ∧ l1 = l2.
Proof.
  intros Hc. revert d c1 c2 l2. induction l1 as [|s1 l1 IH]; intros d c1 c2 l2 Hi1 Hi2 Hl1 Hl2 Hr1 Hr2.
  - cbn in Hl1. subst d. destruct l2; [|done]. cbn in *. split; [congruence|done].
  - destruct d as [|d]; [done|]. destruct l2 as [|s2 l2]; [done|].
    cbn in Hl1, Hl2. injection Hl1 as Hl1. injection Hl2 as Hl2.
    rewrite hash_up_step in Hr1, Hr2. cbn [hash_up_inputs] in Hi1, Hi2.
    destruct (command_index_bit key d); cbn zeta in *;
      apply bind_Ok in Hr1 as (p1 & Hn1 & Hr1); apply bind_Ok in Hr2 as (p2 & Hn2 & Hr2);
      rewrite Hn1 in Hi1; rewrite Hn2 in Hi2; setoid_rewrite elem_of_cons in Hi1;
      setoid_rewrite elem_of_cons in Hi2;
      (destruct (IH d p1 p2 l2) as [-> ->]; [by auto..|]);
      destruct (node_inj d _ _ _ _ _ inputs Hc (Hi1 _ (or_introl eq_refl))
        (Hi2 _ (or_introl eq_refl)) Hn1 Hn2) as [-> ->]; done.
Qed.

Lemma hash_up_app key d c l k :
  length l ≤ d →
  hash_up key d c (l ++ k) = c ← hash_up key d c l; hash_up key (d - length l) c k.
Proof.
  revert d c. induction l as [|s l IH]; intros d c Hl; [by rewrite Nat.sub_0_r|].
  destruct d as [|d]; [cbn in Hl; lia|]. cbn [app length] in *. rewrite !hash_up_step.
  destruct (command_index_bit key d); cbn zeta; destruct (command_index_node d _ _); cbn;
    [apply IH; lia|done|apply IH; lia|done].
Qed.

(** ** Empty subtrees *)

Lemma empty_hash_Ok h :
  h ≤ COMMAND_INDEX_DEPTH → ∃ e, empty_hash_of_height h = Ok e ∧ is_sha256_id e = true.
Proof.
  induction h as [|h IH]; intros Hh; cbn [empty_hash_of_height].
  - eexists. split; [done|]. apply binary_hash_valid.
  - destruct IH as (e & -> & He); [lia|]. cbn [mbind result_bind].
    destruct (command_index_node (COMMAND_INDEX_DEPTH - S h) e e) as [n|] eqn:Hn.
    + exists n. split; [done|]. by eapply node_Ok_valid.
    + exfalso. assert (command_index_node (COMMAND_INDEX_DEPTH - S h) e e
        = Ok (command_index_binary_hash COMMAND_INDEX_NODE_DOMAIN
            (node_payload (COMMAND_INDEX_DEPTH - S h) e e))) as Hok; [|congruence].
      apply node_Ok. unfold COMMAND_INDEX_DEPTH in *. split_and!; [lia|done..].
Qed.
Lemma empty_hash_step h e :
  S h ≤ COMMAND_INDEX_DEPTH → empty_hash_of_height h = Ok e →
  empty_hash_of_height (S h) = command_index_node (COMMAND_INDEX_DEPTH - S h) e e.
Proof.
  intros Hh He. destruct (empty_hash_Ok (S h) Hh) as (e' & He' & _). rewrite He'.
  cbn [empty_hash_of_height] in He'. rewrite He in He'. cbn [mbind result_bind] in He'.
  by destruct (command_index_node _ e e).
Qed.

Lemma empty_hashes_from_Ok h n e :
  h + n ≤ COMMAND_INDEX_DEPTH → empty_hash_of_height h = Ok e →
  empty_hashes_from h n e = try_map empty_hash_of_height (seq h (S n)).
Proof.
  revert h e. induction n as [|n IH]; intros h e Hn He; cbn [empty_hashes_from seq try_map];
    rewrite He; cbn [mbind result_bind]; [done|].
  destruct (empty_hash_Ok (S h)) as (e' & He' & _); [lia|].
  pose proof (empty_hash_step h e ltac:(lia) He) as Hs. rewrite He' in Hs. rewrite <-Hs.
  rewrite (IH (S h) e') by (done || lia). cbn [seq try_map]. by rewrite He'.
Qed.
Lemma try_map_take {E A B} (f : A → result E B) l bs n :
  try_map f l = Ok bs → try_map f (take n l) = Ok (take n bs).
Proof.
  revert bs n. induction l as [|a l IH]; intros bs n Hl; cbn [try_map] in Hl.
  - injection Hl as <-. by rewrite !take_nil.
  - apply bind_Ok in Hl as (b & Hb & Hl). apply bind_Ok in Hl as (l' & Hl' & [= <-]).
    destruct n as [|n]; [done|]. cbn [take try_map]. rewrite Hb. cbn [mbind result_bind].
    by rewrite (IH l' n Hl').
Qed.
Lemma empty_hashes_Ok :
  ∃ l, command_index_empty_hashes = Ok l
    ∧ try_map empty_hash_of_height (seq 0 (S COMMAND_INDEX_DEPTH)) = Ok l.
Proof.
  unfold command_index_empty_hashes.
  rewrite (empty_hashes_from_Ok 0 COMMAND_INDEX_DEPTH _) by (done || lia).
  assert (∀ n a, a + n ≤ S COMMAND_INDEX_DEPTH →
    ∃ l, try_map empty_hash_of_height (seq a n) = Ok l) as Hl.
  { induction n as [|n IH]; intros a Ha; cbn [seq try_map]; [eauto|].
    destruct (empty_hash_Ok a) as (e & -> & _); [lia|]. cbn [mbind result_bind].
    destruct (IH (S a)) as (l & ->); [lia|]. cbn [mbind result_bind]. eauto. }
  destruct (Hl (S COMMAND_INDEX_DEPTH) 0 ltac:(lia)) as (l & Hl'). eauto.
Qed.
Lemma omitted_siblings_eq depth :
  omitted_siblings depth = try_map empty_hash_of_height (seq 0 (COMMAND_INDEX_DEPTH - depth)).
Proof.
  unfold omitted_siblings. destruct empty_hashes_Ok as (l & -> & Hl). cbn [mbind result_bind].
  apply (try_map_take _ _ _ (COMMAND_INDEX_DEPTH - depth)) in Hl. rewrite <-Hl. f_equal.
  rewrite take_seq. f_equal. lia.
Qed.

Lemma omitted_Ok depth :
  depth ≤ COMMAND_INDEX_DEPTH →
  ∃ l, omitted_siblings depth = Ok l ∧ length l = COMMAND_INDEX_DEPTH - depth
    ∧ Forall (λ s, is_sha256_id s = true) l.
Proof.
  intros Hd. rewrite omitted_siblings_eq.
  assert (∀ n a, a + n ≤ COMMAND_INDEX_DEPTH →
    ∃ l, try_map empty_hash_of_height (seq a n) = Ok l ∧ length l = n
      ∧ Forall (λ s, is_sha256_id s = true) l) as Hl; [|apply Hl; lia].
  induction n as [|n IH]; intros a Ha; cbn [seq try_map].
  - exists []. split_and!; [done..|constructor].
  - destruct (empty_hash_Ok a) as (e & -> & He); [lia|]. cbn [mbind result_bind].
    destruct (IH (S a)) as (l & -> & Hl & Hf); [lia|]. exists (e :: l).
    split_and!; [done|by cbn; rewrite Hl|by constructor].
Qed.

(** Hashing an empty leaf up its omitted siblings gives the empty subtree. *)
Lemma hash_up_omitted key n a e l :
  a + n ≤ COMMAND_INDEX_DEPTH → empty_hash_of_height a = Ok e →
  try_map empty_hash_of_height (seq a n) = Ok l →
  hash_up key (COMMAND_INDEX_DEPTH - a) e l = empty_hash_of_height (a + n).
Proof.
  revert a e l. induction n as [|n IH]; intros a e l Hn He Hl; cbn [seq try_map] in Hl.
  - injection Hl as <-. by rewrite Nat.add_0_r, He.
  - rewrite He in Hl. cbn [mbind result_bind] in Hl. apply bind_Ok in Hl as (l' & Hl' & Hl).
    injection Hl as <-. destruct (empty_hash_Ok (S a)) as (e' & He' & _); [lia|].
    replace (COMMAND_INDEX_DEPTH - a) with (S (COMMAND_INDEX_DEPTH - S a)) by lia.
    rewrite hash_up_step. pose proof (empty_hash_step a e ltac:(lia) He) as Hs.
    rewrite He' in Hs. destruct (command_index_bit key _); cbn zeta; rewrite <-Hs;
      cbn [mbind result_bind]; rewrite (IH (S a) e' l') by (done || lia); f_equal; lia.
Qed.

(** ** Proofs *)

(** The shape check, case by case. *)
Lemma validate_shape_Ok p depth :
  validate_shape p = Ok depth →
  length (siblings p) = depth ∧ depth ≤ COMMAND_INDEX_DEPTH
  ∧ Forall (λ s, is_sha256_id s = true) (siblings p)
  ∧ match ip_value p with
    | Some v => depth = COMMAND_INDEX_DEPTH ∧ IndexValue_verify v = Ok () ∧ empty_depth p = None
    | None => empty_depth p = Some (N.of_nat depth)
    end.
Proof.
  unfold validate_shape. intros Hs. apply bind_Ok in Hs as (d & Hsyn & Hs).
  assert (d = depth) as <-.
  { destruct (bool_decide (ip_value p = None) && (0 <? d)); inv_ok; done. }
  clear Hs. unfold validate_shape_syntax in Hsyn. inv_ok.
  match goal with Hf : forallb _ _ = true |- _ => apply forallb_Forall in Hf end.
  destruct (ip_value p) as [v|], (empty_depth p) as [n|]; inv_ok; to_prop.
  - by split_and!.
  - split_and!; [done|lia|done|by rewrite N2Nat.id].
Qed.

Lemma shape_head p depth :
  validate_shape p = Ok depth →
  proof_version p = COMMAND_INDEX_PROOF_VERSION ∧ validate_identity (ip_command_id p) = Ok ().
Proof. unfold validate_shape, validate_shape_syntax. intros Hs. inv_ok. by to_prop. Qed.

(** The leaf that a proof speaks about and its complete path to the root. *)
Definition member_input (key cid : string) (v : MachineCommandIndexValue) : string :=
  binary_input COMMAND_INDEX_LEAF_DOMAIN
    (key +:+ to_be_bytes 4 (byte_len cid) +:+ cid +:+ hash_bytes (iv_admission_id v)
     +:+ hash_bytes (iv_archive_entry_digest v)).
Definition empty_input : string := binary_input COMMAND_INDEX_EMPTY_DOMAIN EmptyString.
Definition leaf_input (key : string) (p : MachineCommandIndexProof) : string :=
  match ip_value p with
  | Some v => member_input key (ip_command_id p) v
  | None => empty_input
  end.
Definition input_hash (input : string) : string := "sha256:" +:+ sha256_bytes input.
Definition full_path (p : MachineCommandIndexProof) : core (list string) :=
  match ip_value p with
  | Some _ => Ok (siblings p)
  | None => omitted ← omitted_siblings (length (siblings p)); Ok (omitted ++ siblings p)
  end.
(** Everything the verification of a proof hashes below the root. *)
Definition proof_inputs (p : MachineCommandIndexProof) : list string :=
  match command_index_key (ip_command_id p), full_path p with
  | Ok key, Ok path =>
      leaf_input key p ::
        hash_up_inputs key COMMAND_INDEX_DEPTH (input_hash (leaf_input key p)) path
  | _, _ => []
  end.

Lemma member_leaf_Ok key cid v leaf :
  command_index_member_leaf key cid v = Ok leaf → leaf = input_hash (member_input key cid v).
Proof. unfold command_index_member_leaf, decode_command_index_hash. intros Hl. by inv_ok. Qed.

Lemma member_leaf_valid key cid v :
  IndexValue_verify v = Ok () → (byte_len cid <= 4294967295)%N →
  command_index_member_leaf key cid v = Ok (input_hash (member_input key cid v)).
Proof.
  unfold IndexValue_verify, command_index_member_leaf, decode_command_index_hash. intros Hv Hl.
  inv_ok. to_prop. apply N.leb_le in Hl. rewrite Hl.
  repeat match goal with Hx : is_sha256_id _ = true |- _ => rewrite Hx; clear Hx end. done.
Qed.

(** The root of a well-formed proof is the hash of its leaf up its full path. *)
Lemma IndexProof_root_eq p key depth :
  validate_shape p = Ok depth → command_index_key (ip_command_id p) = Ok key →
  ∃ path, full_path p = Ok path ∧ length path = COMMAND_INDEX_DEPTH
    ∧ IndexProof_root p
      = hash_up key COMMAND_INDEX_DEPTH (input_hash (leaf_input key p)) path.
Proof.
  intros Hs Hk. pose proof (validate_shape_Ok _ _ Hs) as (Hlen & Hle & _ & Hv).
  unfold IndexProof_root, root_with_value. rewrite Hs, Hk. cbn [mbind result_bind].
  unfold full_path, leaf_input. destruct (ip_value p) as [v|].
  - destruct Hv as (-> & Hv & _). rewrite bool_decide_eq_true_2 by done. cbn [require mbind result_bind].
    rewrite member_leaf_valid; [eauto|done|]. unfold command_index_key in Hk. inv_ok. by to_prop.
  - destruct (empty_hash_Ok (COMMAND_INDEX_DEPTH - depth)) as (e & He & _); [lia|].
    unfold command_index_empty_hash. rewrite He, Hlen. cbn [mbind result_bind].
    destruct (omitted_Ok depth Hle) as (om & Hom & Homl & _). rewrite Hom. cbn [mbind result_bind].
    eexists. split; [done|]. split; [rewrite length_app; lia|].
    rewrite hash_up_app by lia. rewrite omitted_siblings_eq in Hom.
    pose proof (hash_up_omitted key (COMMAND_INDEX_DEPTH - depth) 0 (input_hash empty_input) om
      ltac:(lia) eq_refl Hom) as Hup.
    rewrite Nat.sub_0_r, Nat.add_0_l, He in Hup. rewrite Hup. cbn [mbind result_bind].
    rewrite Homl. by replace (COMMAND_INDEX_DEPTH - (COMMAND_INDEX_DEPTH - depth)) with depth by lia.
Qed.
Lemma path_of_root p root key depth :
  validate_shape p = Ok depth → command_index_key (ip_command_id p) = Ok key →
  IndexProof_root p = Ok root →
  ∃ path, full_path p = Ok path ∧ length path = COMMAND_INDEX_DEPTH
    ∧ hash_up key COMMAND_INDEX_DEPTH (input_hash (leaf_input key p)) path = Ok root.
Proof.
  intros Hs Hk Hr. destruct (IndexProof_root_eq p key depth Hs Hk) as (path & Hp & Hl & He).
  exists path. by rewrite <-He.
Qed.
Lemma empty_root_Ok : ∃ e, empty_root = Ok e.
Proof.
  destruct (empty_hash_Ok COMMAND_INDEX_DEPTH) as (e & He & _); [done|]. exists e.
  unfold empty_root, command_index_empty_hash. by rewrite Nat.sub_0_r.
Qed.
(** A well-formed proof verifies against the root that it computes. *)
Lemma verify_of_root p root depth :
  validate_shape p = Ok depth → IndexProof_root p = Ok root → is_sha256_id root = true →
  IndexProof_verify p root = Ok ().
Proof.
  intros Hs Hr Hid. unfold IndexProof_verify, is_canonical_empty_nonmembership.
  destruct empty_root_Ok as (e & ->). rewrite Hs. cbn [mbind result_bind].
  destruct (bool_decide (root = e) && _ && _ && _); [done|].
  rewrite Hid, Hr. cbn [require mbind result_bind]. by rewrite bool_decide_eq_true_2.
Qed.

Lemma verify_root p root key :
  command_index_key (ip_command_id p) = Ok key → IndexProof_verify p root = Ok () →
  ∃ depth, validate_shape p = Ok depth ∧ IndexProof_root p = Ok root.
Proof.
  unfold IndexProof_verify. intros Hk Hv. apply bind_Ok in Hv as (depth & Hshape & Hv).
  exists depth. split; [done|]. apply bind_Ok in Hv as (fast & Hfast & Hv). destruct fast.
  - unfold is_canonical_empty_nonmembership in Hfast. inv_ok. to_prop.
    pose proof (validate_shape_Ok _ _ Hshape) as (Hlen & _ & _ & _).
    assert (depth = 0) as -> by (rewrite <-Hlen; by match goal with He : siblings p = [] |- _ => rewrite He end).
    unfold IndexProof_root, root_with_value. rewrite Hshape, Hk. cbn [mbind result_bind].
    match goal with He : ip_value p = None |- _ => rewrite He end.
    match goal with He : empty_root = Ok _ |- _ => unfold empty_root in He; rewrite He end.
    cbn [mbind result_bind]. match goal with He : siblings p = [] |- _ => rewrite He end. cbn. congruence.
  - inv_ok. to_prop. congruence.
Qed.

Lemma input_hash_inj x y inputs :
  collision_free inputs → x ∈ inputs → y ∈ inputs → input_hash x = input_hash y → x = y.
Proof.
  intros Hc Hx Hy Heq. apply Hc; [done..|]. apply hex_string_inj. unfold input_hash in Heq.
  apply (f_equal (strip_prefix "sha256:")) in Heq. rewrite !strip_prefix_app in Heq. by injection Heq.
Qed.

Lemma member_input_inj key cid v w :
  IndexValue_verify v = Ok () → IndexValue_verify w = Ok () →
  member_input key cid v = member_input key cid w → v = w.
Proof.
  unfold IndexValue_verify, member_input. intros Hv Hw Heq%binary_input_inj. inv_ok. to_prop.
  apply append_inj in Heq as [_ Heq]; [|done]. apply append_inj in Heq as [_ Heq]; [|done].
  apply append_inj in Heq as [_ Heq]; [|done].
  apply append_inj in Heq as [Ha He]; [|by rewrite !sha256_id_payload_len].
  assert (∀ a b, is_sha256_id a = true → is_sha256_id b = true → hash_bytes a = hash_bytes b → a = b)
    as Hinj.
  { intros a b Ha1 Hb1 Hab. apply (decode_command_index_hash_inj _ _ (hash_bytes b));
      unfold decode_command_index_hash; rewrite ?Ha1, ?Hb1, ?Hab; done. }
  apply Hinj in Ha, He; [|done..]. destruct v, w. by f_equal.
Qed.

Lemma member_is_not_empty key cid v : member_input key cid v ≠ empty_input.
Proof. unfold member_input, empty_input, binary_input. by intros [=]. Qed.

(** A verified proof about a key, reduced to its leaf and its full path. *)
Lemma verified_path p root key :
  command_index_key (ip_command_id p) = Ok key → IndexProof_verify p root = Ok () →
  ∃ path, proof_inputs p = leaf_input key p ::
      hash_up_inputs key COMMAND_INDEX_DEPTH (input_hash (leaf_input key p)) path
    ∧ length path = COMMAND_INDEX_DEPTH
    ∧ hash_up key COMMAND_INDEX_DEPTH (input_hash (leaf_input key p)) path = Ok root.
Proof.
  intros Hk Hv. destruct (verify_root _ _ _ Hk Hv) as (depth & Hs & Hr).
  destruct (path_of_root _ _ _ _ Hs Hk Hr) as (path & Hp & Hl & Hup).
  exists path. unfold proof_inputs. by rewrite Hk, Hp.
Qed.

Lemma member_key p root v :
  IndexProof_verify p root = Ok () → ip_value p = Some v →
  ∃ key, command_index_key (ip_command_id p) = Ok key.
Proof.
  unfold IndexProof_verify, is_canonical_empty_nonmembership. intros Hp Hv. inv_ok.
  rewrite Hv, (bool_decide_eq_false_2 (Some v = None)), andb_false_r, andb_false_l in Hp by done.
  cbn in Hp. inv_ok. unfold IndexProof_root, root_with_value in *. inv_ok. eauto.
Qed.

(** The core of the agreement theorem, for a proof of membership. *)
Lemma member_agrees p q root v :
  IndexProof_verify p root = Ok () → IndexProof_verify q root = Ok () →
  ip_command_id p = ip_command_id q → collision_free (proof_inputs p ++ proof_inputs q) →
  ip_value p = Some v → ip_value q = Some v.
Proof.
  intros Hp Hq Hid Hc Hv. destruct (member_key _ _ _ Hp Hv) as [key Hk].
  destruct (verified_path _ _ _ Hk Hp) as (pp & Hpi & Hpl & Hpr). rewrite Hid in Hk.
  destruct (verified_path _ _ _ Hk Hq) as (pq & Hqi & Hql & Hqr). rewrite Hpi, Hqi in Hc.
  assert (input_hash (leaf_input key p) = input_hash (leaf_input key q)) as Hleaf.
  { refine (proj1 (hash_up_inj key _ _ _ _ _ _ _ Hc _ _ Hpl Hql Hpr Hqr));
      intros x Hx; apply elem_of_app; [left|right]; by right. }
  apply (input_hash_inj _ _ _ Hc) in Hleaf.
  2:{ apply elem_of_app. left. by left. }
  2:{ apply elem_of_app. right. by left. }
  unfold leaf_input in Hleaf. rewrite Hv in Hleaf. destruct (ip_value q) as [w|] eqn:Hw.
  - rewrite Hid in Hleaf. f_equal. symmetry. eapply member_input_inj; [| |exact Hleaf].
    + destruct (verify_root p root key) as (? & Hs & _); [congruence|done|].
      apply validate_shape_Ok in Hs as (_ & _ & _ & Hs). rewrite Hv in Hs. apply Hs.
    + destruct (verify_root q root key) as (? & Hs & _); [congruence|done|].
      apply validate_shape_Ok in Hs as (_ & _ & _ & Hs). rewrite Hw in Hs. apply Hs.
  - by apply member_is_not_empty in Hleaf.
Qed.

Lemma hash_up_valid key d c l root :
  l ≠ [] → hash_up key d c l = Ok root → is_sha256_id root = true.
Proof.
  intros Hne Hup. destruct l as [|s l]; [done|]. clear Hne.
  destruct d as [|d]; [done|]. rewrite hash_up_step in Hup.
  assert (∃ a b p, command_index_node d a b = Ok p ∧ hash_up key d p l = Ok root)
    as (a & b & p & Hn & Hp).
  { destruct (command_index_bit key d); cbn zeta in Hup; apply bind_Ok in Hup as (p & ? & ?); eauto. }
  clear s Hup. apply node_Ok_valid in Hn. clear a b c. revert d p Hn Hp.
  induction l as [|s l IH]; intros d p Hn Hp; [cbn in Hp; congruence|].
  destruct d as [|d]; [done|]. rewrite hash_up_step in Hp.
  destruct (command_index_bit key d); cbn zeta in Hp; apply bind_Ok in Hp as (p' & Hp' & Hp);
    (eapply IH; [|exact Hp]; by eapply node_Ok_valid).
Qed.

(** The proof of membership that a proof of absence becomes once the value
    has been inserted. *)
Definition inserted_proof (p : MachineCommandIndexProof) (v : MachineCommandIndexValue)
    (path : list string) : MachineCommandIndexProof :=
  {| proof_version := COMMAND_INDEX_PROOF_VERSION; ip_command_id := ip_command_id p;
     ip_value := Some v; empty_depth := None; siblings := path |}.

(** What inserting a value into an absent slot computes. *)
Lemma root_with_new_value p v root :
  ip_value p = None → root_with_value p (Some v) = Ok root →
  ∃ key path, command_index_key (ip_command_id p) = Ok key ∧ full_path p = Ok path
    ∧ length path = COMMAND_INDEX_DEPTH ∧ Forall (λ s, is_sha256_id s = true) path
    ∧ validate_identity (ip_command_id p) = Ok () ∧ IndexValue_verify v = Ok ()
    ∧ command_index_member_leaf key (ip_command_id p) v
      = Ok (input_hash (member_input key (ip_command_id p) v))
    ∧ hash_up key COMMAND_INDEX_DEPTH (input_hash (member_input key (ip_command_id p) v)) path
      = Ok root.
Proof.
  intros Hn Hr. unfold root_with_value in Hr. rewrite Hn in Hr.
  apply bind_Ok in Hr as (depth & Hs & Hr). apply bind_Ok in Hr as (key & Hk & Hr).
  apply bind_Ok in Hr as (cur & Hcur & Hr). apply bind_Ok in Hcur as ([] & Hv & Hcur).
  apply bind_Ok in Hcur as (leaf & Hleaf & Hcur). apply bind_Ok in Hcur as (om & Hom & Hcur).
  destruct (validate_shape_Ok _ _ Hs) as (Hlen & Hle & Hsib & _).
  destruct (omitted_Ok depth Hle) as (om' & Hom' & Homl & Homv). rewrite Hom in Hom'.
  injection Hom' as <-. exists key, (om ++ siblings p).
  unfold full_path. rewrite Hn, Hlen, Hom. cbn [mbind result_bind].
  pose proof (member_leaf_Ok _ _ _ _ Hleaf) as Hle'. subst leaf. split_and!; try done.
  - rewrite length_app. lia.
  - by apply Forall_app.
  - unfold validate_shape, validate_shape_syntax in Hs. by inv_ok.
  - rewrite hash_up_app by lia. rewrite Hcur. cbn [mbind result_bind].
    rewrite Homl. by replace (COMMAND_INDEX_DEPTH - (COMMAND_INDEX_DEPTH - depth)) with depth by lia.
Qed.

Lemma inserted_shape p v path :
  validate_identity (ip_command_id p) = Ok () → IndexValue_verify v = Ok () →
  length path = COMMAND_INDEX_DEPTH → Forall (λ s, is_sha256_id s = true) path →
  validate_shape (inserted_proof p v path) = Ok COMMAND_INDEX_DEPTH.
Proof.
  intros Hid Hv Hl Hf. unfold validate_shape, validate_shape_syntax, inserted_proof.
  cbn [proof_version ip_command_id ip_value empty_depth siblings].
  rewrite (bool_decide_eq_true_2 (COMMAND_INDEX_PROOF_VERSION = _)) by done. rewrite Hid, Hl, Nat.eqb_refl.
  unfold require. cbn [mbind result_bind]. rewrite Hv. cbn [mbind result_bind].
  rewrite (proj2 (forallb_Forall is_sha256_id path)) by done. cbn [mbind result_bind].
  by rewrite (bool_decide_eq_false_2 (Some v = None)).
Qed.
Lemma inserted_proof_verifies p v root :
  ip_value p = None → root_with_value p (Some v) = Ok root →
  ∃ path, full_path p = Ok path ∧ IndexProof_verify (inserted_proof p v path) root = Ok ().
Proof.
  intros Hn Hr. destruct (root_with_new_value _ _ _ Hn Hr)
    as (key & path & Hk & Hp & Hl & Hf & Hid & Hv & Hleaf & Hup).
  exists path. split; [done|].
  pose proof (inserted_shape p v path Hid Hv Hl Hf) as Hs.
  eapply verify_of_root; [exact Hs| |by eapply (hash_up_valid key), Hup; destruct path].
  destruct (IndexProof_root_eq _ key _ Hs Hk) as (path' & Hp' & _ & ->). cbn in Hp'.
  by injection Hp' as <-.
Qed.
End Soundness.
