(* ===== verification/IndexUpdate.v ===== *)
(** * Updates of the archived-command index

    Models the part of [crates/cymule-core/src/machine.rs] that moves proofs of
    the command index from one root to the next: the canonical compression of a
    proof of absence, the nodes that an insertion replaces, the rebasing of a
    proof onto a later root, and the resolution of a proof from a store of
    nodes. *)

From S2P Require Import Prelude Identity CommandIndex.

(** ** Addresses *)

Definition zero_bytes (n : nat) : list ascii := replicate n (ascii_of_N 0).
(** [u8::MAX << (8 - remaining_bits)], in eight bits *)
Definition byte_mask (remaining_bits : nat) : N :=
  (N.shiftl 255 (8 - N.of_nat remaining_bits) mod 256)%N.
(** [command_index_prefix] *)
Definition command_index_prefix (key : string) (depth : nat) : string :=
  if COMMAND_INDEX_DEPTH <=? depth then key else
  let bytes := String.list_ascii_of_string key in
  let full_bytes := depth / 8 in
  let remaining_bits := depth mod 8 in
  String.string_of_list_ascii
    (if remaining_bits =? 0 then
       take full_bytes bytes ++ zero_bytes (length bytes - full_bytes)
     else
       take full_bytes bytes
       ++ ((λ c, ascii_of_N (N.land (byte_of c) (byte_mask remaining_bits)))
             <$> take 1 (drop full_bytes bytes))
       ++ zero_bytes (length bytes - (full_bytes + 1))).
(** [key[depth / 8] ^= 1 << (7 - depth % 8)] *)
Definition flip_bit (key : string) (depth : nat) : string :=
  String.string_of_list_ascii
    (alter (λ c, ascii_of_N (N.lxor (byte_of c) (N.shiftl 1 (7 - N.of_nat (depth mod 8)))))
       (depth / 8) (String.list_ascii_of_string key)).
(** [command_index_sibling_address] *)
Definition command_index_sibling_address (key : string) (parent_depth : nat) : nat * string :=
  (S parent_depth, command_index_prefix (flip_bit key parent_depth) (S parent_depth)).

(** [CommandIndexNodeUpdates] *)
Abbreviation CommandIndexNodeUpdates := (gmap (nat * string) string).

Section Update.
Context `{Sha256}.

(** ** Compression *)

(** [take_while(|(level, sibling)| sibling == empty[256 - level]).count()], with
    the table of the empty hashes from the leaf up *)
Fixpoint count_empty (empty l : list string) {struct l} : nat :=
  match l, empty with
  | sibling :: l, e :: empty => if bool_decide (sibling = e) then S (count_empty empty l) else 0
  | _, _ => 0
  end.

(** A proof of absence with the given depth and path. *)
Definition absence_proof (version cid : string) (depth : nat) (path : list string)
    : MachineCommandIndexProof :=
  {| proof_version := version; ip_command_id := cid; ip_value := None;
     empty_depth := Some (N.of_nat depth); siblings := path |}.

(** [compress_nonmembership] *)
Definition compress_nonmembership (p : MachineCommandIndexProof)
    : core MachineCommandIndexProof :=
  if bool_decide (is_Some (ip_value p)) then _ ← validate_shape p; Ok p else
  depth ← validate_shape_syntax p;
  m ← (if depth =? COMMAND_INDEX_DEPTH then Ok p else materialized p);
  empty ← command_index_empty_hashes;
  let omitted := count_empty empty (siblings m) in
  let compressed := absence_proof (proof_version m) (ip_command_id m)
                      (COMMAND_INDEX_DEPTH - omitted) (drop omitted (siblings m)) in
  _ ← validate_shape compressed;
  Ok compressed.

(** ** Rebasing *)

(** The loop of [rebase_command_index_proof]: a sibling that has been replaced
    is looked up; [remaining] is the depth of the current node. *)
Fixpoint rebase_siblings (key : string) (nodes : CommandIndexNodeUpdates) (remaining : nat)
    (l : list string) {struct l} : list string :=
  match l with
  | [] => []
  | sibling :: l =>
      default sibling (nodes !! command_index_sibling_address key (pred remaining))
        :: rebase_siblings key nodes (pred remaining) l
  end.
Definition set_siblings (l : list string) (p : MachineCommandIndexProof)
    : MachineCommandIndexProof :=
  {| proof_version := proof_version p; ip_command_id := ip_command_id p; ip_value := ip_value p;
     empty_depth := empty_depth p; siblings := l |}.

(** [rebase_command_index_proof] *)
Definition rebase_command_index_proof (p : MachineCommandIndexProof)
    (parent_root result_root : string) (nodes : CommandIndexNodeUpdates)
    : core MachineCommandIndexProof :=
  _ ← IndexProof_verify p parent_root;
  key ← command_index_key (ip_command_id p);
  m ← materialized p;
  rebased ← compress_nonmembership
              (set_siblings (rebase_siblings key nodes COMMAND_INDEX_DEPTH (siblings m)) m);
  _ ← IndexProof_verify rebased result_root;
  Ok rebased.

(** The loop of [record_command_index_member_update] *)
Fixpoint record_path (key : string) (remaining : nat) (node : string) (l : list string)
    (nodes : CommandIndexNodeUpdates) {struct l} : core (CommandIndexNodeUpdates * string) :=
  match l, remaining with
  | [], _ => Ok (nodes, node)
  | sibling :: l, S depth =>
      node ← (if command_index_bit key depth then command_index_node depth sibling node
              else command_index_node depth node sibling);
      record_path key depth node l (<[(depth, command_index_prefix key depth) := node]> nodes)
  | _ :: _, O => Err Panic
  end.
(** [record_command_index_member_update] *)
Definition record_command_index_member_update (p : MachineCommandIndexProof)
    (v : MachineCommandIndexValue) : core (CommandIndexNodeUpdates * string) :=
  m ← materialized p;
  key ← command_index_key (ip_command_id m);
  leaf ← command_index_member_leaf key (ip_command_id m) v;
  record_path key COMMAND_INDEX_DEPTH leaf (siblings m) {[(COMMAND_INDEX_DEPTH, key) := leaf]}.

(** ** Nodes *)

Definition node_id_of (n : MachineCommandIndexNode) : string :=
  match n with Branch i _ _ _ | Member i _ _ _ => i end.

(** The [BTreeMap] of nodes by identity, and [insert_command_index_node] *)
Definition insert_command_index_node (nodes : gmap string MachineCommandIndexNode)
    (n : MachineCommandIndexNode) : core (gmap string MachineCommandIndexNode) :=
  id ← IndexNode_identity n;
  match nodes !! id with
  | Some existing => _ ← require (bool_decide (existing = n)) IdentityMismatch; Ok nodes
  | None => Ok (<[id := n]> nodes)
  end.

(** The branches of the path of one update, in the loop of [command_index_nodes] *)
Fixpoint insert_path_nodes (key : string) (remaining : nat) (node : string) (l : list string)
    (nodes : gmap string MachineCommandIndexNode) {struct l}
    : core (gmap string MachineCommandIndexNode) :=
  match l, remaining with
  | [], _ => Ok nodes
  | sibling :: l, S depth =>
      let '(a, b) := if command_index_bit key depth then (sibling, node) else (node, sibling) in
      node ← command_index_node depth a b;
      nodes ← insert_command_index_node nodes (Branch node (N.of_nat depth) a b);
      insert_path_nodes key depth node l nodes
  | _ :: _, O => Err Panic
  end.
(** One round of the loop of [command_index_nodes]; [value] computes the value
    of the entry. *)
Definition insert_update_nodes (nodes : gmap string MachineCommandIndexNode)
    (update : MachineCommandIndexProof) (value : core MachineCommandIndexValue)
    : core (gmap string MachineCommandIndexNode) :=
  m ← materialized update;
  key ← command_index_key (ip_command_id m);
  v ← value;
  leaf ← command_index_member_leaf key (ip_command_id m) v;
  nodes ← insert_command_index_node nodes
            (Member leaf (command_index_key_id key) (ip_command_id m) v);
  insert_path_nodes key COMMAND_INDEX_DEPTH leaf (siblings m) nodes.

(** ** Resolution

    The loader is the caller's; it may have a state. *)

Section Resolve.
Context {L : Type} (load : L → string → core (option MachineCommandIndexNode) * L).

(** [load(&current)?], the absence error and the check of the identity *)
Definition load_node (s : L) (current : string) : core MachineCommandIndexNode * L :=
  let '(r, s) := load s current in
  (loaded ← r;
   n ← ok_or loaded NotFound;
   id ← IndexNode_identity n;
   _ ← require (bool_decide (id = current)) IdentityMismatch;
   Ok n, s).

Definition branch_at (n : MachineCommandIndexNode) (depth : nat) : core (string * string) :=
  match n with
  | Branch _ d l r => _ ← require (N.to_nat d =? depth) IdentityMismatch; Ok (l, r)
  | Member _ _ _ _ => Err IdentityMismatch
  end.

(** The [while] loop: [h] is the height of the current node and [acc] the
    siblings passed, the last one first.  The result is the leaf that is
    reached, the depth at which the loop ended and the siblings. *)
Fixpoint descend (empty : list string) (key : string) (h : nat) (current : string)
    (acc : list string) (s : L) : core (string * nat * list string) * L :=
  match h with
  | O => (Ok (current, COMMAND_INDEX_DEPTH, acc), s)
  | S h' =>
      let depth := COMMAND_INDEX_DEPTH - h in
      if bool_decide (empty !! h = Some current)
      then (leaf ← ok_or (empty !! 0) Panic; Ok (leaf, depth, acc), s)
      else
        let '(r, s) := load_node s current in
        match (n ← r; branch_at n depth) with
        | Err e => (Err e, s)
        | Ok (l, r) =>
            if command_index_bit key depth then descend empty key h' r (l :: acc) s
            else descend empty key h' l (r :: acc) s
        end
  end.

(** The value at the leaf *)
Definition leaf_value (empty : list string) (key cid current : string) (s : L)
    : core (option MachineCommandIndexValue) * L :=
  if bool_decide (empty !! 0 = Some current) then (Ok None, s) else
  let '(r, s) := load_node s current in
  (n ← r;
   match n with
   | Branch _ _ _ _ => Err IdentityMismatch
   | Member _ key_hash occupied v =>
       _ ← require (bool_decide (key_hash = command_index_key_id key)
                    && bool_decide (occupied = cid)) IdentityMismatch;
       Ok (Some v)
   end, s).

(** [resolve_machine_command_index_proof] *)
Definition resolve_machine_command_index_proof (root cid : string) (s : L)
    : core MachineCommandIndexProof * L :=
  match (_ ← require (is_sha256_id root) Validation;
         _ ← validate_identity cid;
         key ← command_index_key cid;
         empty ← command_index_empty_hashes;
         Ok (key, empty)) with
  | Err e => (Err e, s)
  | Ok (key, empty) =>
      let '(r, s) := descend empty key COMMAND_INDEX_DEPTH root [] s in
      match r with
      | Err e => (Err e, s)
      | Ok (current, depth, path) =>
          let '(r, s) := leaf_value empty key cid current s in
          (v ← r;
           let p := {| proof_version := COMMAND_INDEX_PROOF_VERSION; ip_command_id := cid;
                       ip_value := v;
                       empty_depth := match v with
                                      | None => Some (N.of_nat depth)
                                      | Some _ => None
                                      end;
                       siblings := path |} in
           _ ← IndexProof_verify p root;
           Ok p, s)
      end
  end.
End Resolve.
End Update.
