(* ===== verification/Numbers.v ===== *)
(** * JSON number literals

    Models the number checks of [crates/cymule-core/src/canonical.rs]:
    [validate_json_number_lexemes] scans a JSON document for number literals
    and rejects every literal that denotes an integer outside the exact range
    of an IEEE-754 double, without converting it to a double first. *)

From S2P Require Import Prelude Identity.

(** ** Digits *)

Definition is_digit (c : ascii) : bool := is_ascii_digit (byte_of c).
Definition digit_value (c : ascii) : N := (byte_of c - 48)%N.
(** [mantissa.bytes().filter(u8::is_ascii_digit)], as digit values *)
Fixpoint digits_of (s : string) : list N :=
  match s with
  | EmptyString => []
  | String c s => if is_digit c then digit_value c :: digits_of s else digits_of s
  end.
(** The digits at the front of a string, and the rest of it. *)
Fixpoint take_digits (s : string) : string * string :=
  match s with
  | String c s' =>
      if is_digit c then let '(d, r) := take_digits s' in (String c d, r) else (EmptyString, s)
  | EmptyString => (EmptyString, EmptyString)
  end.
(** Split at the first byte that satisfies [p]; the byte is dropped. *)
Fixpoint split_at_first (p : ascii → bool) (s : string) : string * option string :=
  match s with
  | EmptyString => (EmptyString, None)
  | String c s' =>
      if p c then (EmptyString, Some s')
      else let '(a, b) := split_at_first p s' in (String c a, b)
  end.

Definition is_exponent_mark (c : ascii) : bool :=
  bool_decide (c = "e"%char) || bool_decide (c = "E"%char).
Definition is_dot (c : ascii) : bool := bool_decide (c = "."%char).

(** [parse_decimal_exponent]: the magnitude is clamped at 10^9. *)
Definition parse_decimal_exponent (value : string) : Z :=
  let '(negative, digits) :=
    match strip_prefix "-" value with Some d => (true, d) | None => (false, value) end in
  let digits := default digits (strip_prefix "+" digits) in
  let magnitude :=
    (fix go (current : Z) (s : string) : Z :=
       match s with
       | EmptyString => current
       | String c s => go (Z.min (current * 10 + Z.of_N (byte_of c - 48)) 1000000000) s
       end) 0%Z digits in
  if (negative : bool) then (- magnitude)%Z else magnitude.

(** The number of zeros at the front of a digit list. *)
Fixpoint zeros (l : list N) : nat :=
  match l with d :: l => if decide (d = 0%N) then S (zeros l) else 0 | [] => 0 end.

(** [decimal_integer_is_safe]: [MAX] is [b"9007199254740991"]; the buffer of 16
    bytes is filled with the retained digits and padded with zeros, and byte
    slices compare lexicographically. *)
Definition MAX_DIGITS : list N := [9; 0; 0; 7; 1; 9; 9; 2; 5; 4; 7; 4; 0; 9; 9; 1]%N.
Fixpoint digits_le (a b : list N) : bool :=
  match a, b with
  | [], _ => true
  | _ :: _, [] => false
  | x :: a, y :: b => (x <? y)%N || ((x =? y)%N && digits_le a b)
  end.
Definition decimal_integer_is_safe (digits : list N) (leading_zeros removed_trailing : nat)
    (appended_zeros : nat) : bool :=
  let coefficient_digits := length digits in
  let retained := coefficient_digits - leading_zeros - removed_trailing in
  let normalized_length := retained + appended_zeros in
  if negb (normalized_length =? 16) then normalized_length <? 16
  else
    let retained_end := coefficient_digits - removed_trailing in
    let kept := drop leading_zeros (take retained_end digits) in
    digits_le (kept ++ replicate (16 - length kept) 0%N) MAX_DIGITS.

(** ** The fractional branch

    [lexeme.parse::<f64>()] rounds to nearest, ties to even.  For the positive
    rational [num/den] the result is [k * 2^t] with [t] the exponent of the
    unit in the last place. *)
Definition round_half_even (num den : Z) : Z :=
  let q := (num / den)%Z in
  let r := (num mod den)%Z in
  if (2 * r <? den)%Z then q
  else if (den <? 2 * r)%Z then (q + 1)%Z
  else if Z.even q then q else (q + 1)%Z.
(** [floor (log2 (num/den))] *)
Definition log2_ratio (num den : Z) : Z :=
  let e := (Z.log2 num - Z.log2 den)%Z in
  if (if (0 <=? e)%Z then (den * 2 ^ e <=? num)%Z else (den <=? num * 2 ^ (- e))%Z)
  then e else (e - 1)%Z.
Definition f64_of_ratio (num den : Z) : Z * Z :=
  let t := Z.max (log2_ratio num den - 52) (-1074) in
  if (0 <=? t)%Z then (round_half_even num (den * 2 ^ t), t)
  else (round_half_even (num * 2 ^ (- t)) den, t).
(** [value.is_finite()]: below [2^1024] *)
Definition f64_is_finite (v : Z * Z) : bool :=
  if (0 <=? v.2)%Z then (v.1 * 2 ^ v.2 <? 2 ^ 1024)%Z else (v.1 <? 2 ^ (1024 - v.2))%Z.
(** [value.fract() == 0.0] *)
Definition f64_is_integral (v : Z * Z) : bool :=
  if (0 <=? v.2)%Z then true else (v.1 mod 2 ^ (- v.2) =? 0)%Z.

(** ** One literal *)

Record Literal := {
  lit_digits : list N;     (** the digits of the mantissa *)
  lit_scale : Z;           (** the literal denotes [digits * 10^scale] *)
}.

(** The decimal reading of a literal: mantissa digits, and exponent less the
    length of the fraction. *)
Definition read_literal (lexeme : string) : Literal :=
  let unsigned := default lexeme (strip_prefix "-" lexeme) in
  let '(mantissa, exponent_text) := split_at_first is_exponent_mark unsigned in
  let exponent := match exponent_text with Some t => parse_decimal_exponent t | None => 0%Z end in
  let fraction_length :=
    match (split_at_first is_dot mantissa).2 with
    | Some fraction => String.length fraction
    | None => 0
    end in
  {| lit_digits := digits_of mantissa; lit_scale := exponent - Z.of_nat fraction_length |}.

(** The value of a digit list. *)
Definition digits_value (l : list N) : N := foldl (λ acc d, 10 * acc + d)%N 0%N l.

(** [validate_json_number_lexeme] *)
Definition validate_json_number_lexeme (lexeme : string) : core () :=
  let lit := read_literal lexeme in
  let digits := lit_digits lit in
  let scale := lit_scale lit in
  let total_digits := length digits in
  let leading_zeros := zeros digits in
  let trailing_zeros := zeros (reverse digits) in
  let is_zero := bool_decide (leading_zeros = total_digits) in
  let removed_trailing := if (scale <? 0)%Z then Z.to_nat (- scale) else 0 in
  let is_integer := is_zero || (0 <=? scale)%Z || (removed_trailing <=? trailing_zeros) in
  if is_integer then
    if negb is_zero
       && negb (decimal_integer_is_safe digits leading_zeros removed_trailing
                  (Z.to_nat (Z.max scale 0)))
    then Err Encoding else Ok ()
  else
    let value := f64_of_ratio (Z.of_N (digits_value digits)) (10 ^ (- scale)) in
    _ ← require (f64_is_finite value) Encoding;
    require (negb (f64_is_integral value)) Encoding.

(** ** The scan of a document *)

(** The rest of a string literal, after its opening quote. *)
Fixpoint skip_string (escaped : bool) (s : string) : string :=
  match s with
  | EmptyString => EmptyString
  | String c s =>
      if escaped then skip_string false s
      else if decide (byte_of c = 92%N) then skip_string true s
      else if decide (byte_of c = 34%N) then s
      else skip_string false s
  end.

(** One literal starting at its first digit: integer part, fraction, exponent. *)
Definition scan_number (s : string) : string * string :=
  let '(int, rest) :=
    match s with
    | String c rest => if decide (byte_of c = 48%N) then (String c EmptyString, rest) else take_digits s
    | EmptyString => (EmptyString, EmptyString)
    end in
  let '(frac, rest) :=
    match rest with
    | String c rest' =>
        if is_dot c then let '(d, r) := take_digits rest' in (String c d, r) else (EmptyString, rest)
    | EmptyString => (EmptyString, EmptyString)
    end in
  let '(exp, rest) :=
    match rest with
    | String c rest' =>
        if is_exponent_mark c then
          let '(sign, rest'') :=
            match rest' with
            | String d r =>
                if bool_decide (d = "+"%char) || bool_decide (d = "-"%char)
                then (String d EmptyString, r) else (EmptyString, rest')
            | EmptyString => (EmptyString, EmptyString)
            end in
          let '(d, r) := take_digits rest'' in (String c (sign +:+ d), r)
        else (EmptyString, rest)
    | EmptyString => (EmptyString, EmptyString)
    end in
  (int +:+ frac +:+ exp, rest).

(** [validate_json_number_lexemes]; the length of the input is enough fuel,
    because every iteration consumes a byte.  Out of fuel is [Panic]. *)
Fixpoint scan_numbers (fuel : nat) (s : string) : core () :=
  match fuel with
  | O => match s with EmptyString => Ok () | _ => Err Panic end
  | S fuel =>
      match s with
      | EmptyString => Ok ()
      | String c rest =>
          if decide (byte_of c = 34%N) then scan_numbers fuel (skip_string false rest)
          else if is_digit c then
            let '(lexeme, rest) := scan_number s in
            _ ← validate_json_number_lexeme lexeme;
            scan_numbers fuel rest
          else if decide (c = "-"%char) then
            match rest with
            | String d _ =>
                if is_digit d then
                  let '(lexeme, rest) := scan_number rest in
                  _ ← validate_json_number_lexeme (String c lexeme);
                  scan_numbers fuel rest
                else scan_numbers fuel rest
            | EmptyString => scan_numbers fuel rest
            end
          else scan_numbers fuel rest
      end
  end.
Definition validate_json_number_lexemes (s : string) : core () :=
  scan_numbers (String.length s) s.

Example lex1 : validate_json_number_lexeme "9007199254740991" = Ok ().
Proof. vm_compute. reflexivity. Qed.
Example lex2 : validate_json_number_lexeme "9007199254740992" = Err Encoding.
Proof. vm_compute. reflexivity. Qed.
Example lex3 : validate_json_number_lexeme "-0.9007199254740991e16" = Ok ().
Proof. vm_compute. reflexivity. Qed.
Example lex4 : validate_json_number_lexeme "0.1" = Ok ().
Proof. vm_compute. reflexivity. Qed.
Example lex5 : validate_json_number_lexeme "4503599627370496.5" = Err Encoding.
Proof. vm_compute. reflexivity. Qed.
Example lex6 : validate_json_number_lexeme "1e-400" = Err Encoding.
Proof. vm_compute. reflexivity. Qed.
Example lex7 : validate_json_number_lexemes "{'a': [12e3, -0.5, 1E400]}" = Err Encoding.
Proof. vm_compute. reflexivity. Qed.
