(* ===== verification/Canonical.v ===== *)
(** * Canonical JSON

    Models [crates/cymule-core/src/canonical.rs]: the number rules of I-JSON
    on serialised and decoded values, strict decoding, and the domain-separated
    content identifier.  [serde_json] and [serde_json_canonicalizer] are
    parameters, and so are the serialisers that [derive(Serialize)] generates. *)

From S2P Require Import Prelude Identity Numbers.

(** ** Values *)

(** An IEEE-754 double: [(-1)^negative * mantissa * 2^exponent]. *)
Inductive Float :=
| FNaN
| FInfinite (negative : bool)
| FFinite (negative : bool) (mantissa : N) (exponent : Z).
#[export] Instance Float_eq_dec : EqDecision Float.
Proof. solve_decision. Defined.

(** [serde_json::Number]: an [i64] or [u64], or a double. *)
Inductive Number := NInt (z : Z) | NFloat (f : Float).
#[export] Instance Number_eq_dec : EqDecision Number.
Proof. solve_decision. Defined.

(** [serde_json::Value]; the members of an object are in key order. *)
Inductive Json :=
| JNull
| JBool (b : bool)
| JNumber (n : Number)
| JString (s : string)
| JArray (items : list Json)
| JObject (fields : list (string * Json)).

#[export] Instance Json_eq_dec : EqDecision Json.
Proof.
  refine (fix go x y := let _ : EqDecision Json := @go in
    match x, y with
    | JNull, JNull => left _
    | JBool a, JBool b => cast_if (decide (a = b))
    | JNumber a, JNumber b => cast_if (decide (a = b))
    | JString a, JString b => cast_if (decide (a = b))
    | JArray a, JArray b => cast_if (decide (a = b))
    | JObject a, JObject b => cast_if (decide (a = b))
    | _, _ => right _
    end); abstract congruence.
Defined.

(** Nested induction on values. *)
Section JsonInd.
Context (P : Json → Prop).
Hypothesis HNull : P JNull.
Hypothesis HBool : ∀ b, P (JBool b).
Hypothesis HNumber : ∀ n, P (JNumber n).
Hypothesis HString : ∀ s, P (JString s).
Hypothesis HArray : ∀ items, Forall P items → P (JArray items).
Hypothesis HObject : ∀ fields, Forall (λ kv, P kv.2) fields → P (JObject fields).
Fixpoint Json_nested_ind (v : Json) : P v :=
  match v with
  | JNull => HNull
  | JBool b => HBool b
  | JNumber n => HNumber n
  | JString s => HString s
  | JArray items =>
      HArray items ((fix go l : Forall P l :=
        match l with
        | [] => Forall_nil_2 P
        | x :: l => Forall_cons_2 P x l (Json_nested_ind x) (go l)
        end) items)
  | JObject fields =>
      HObject fields ((fix go l : Forall (λ kv, P kv.2) l :=
        match l with
        | [] => Forall_nil_2 _
        | x :: l => Forall_cons_2 (λ kv : string * Json, P kv.2) x l (Json_nested_ind x.2) (go l)
        end) fields)
  end.
End JsonInd.

Definition is_object (v : Json) : bool := match v with JObject _ => true | _ => false end.
Definition is_boolean (v : Json) : bool := match v with JBool _ => true | _ => false end.
Definition as_str (v : Json) : option string := match v with JString s => Some s | _ => None end.
(** [Value::get] with a string index *)
Definition json_get (key : string) (v : Json) : option Json :=
  match v with
  | JObject fields => (snd <$> list_find (λ p, p.1 = key) fields) ≫= λ p, Some p.2
  | _ => None
  end.

(** What a [Serialize] implementation presents to a serialiser. *)
Inductive Ser :=
| SerBool (b : bool)
| SerSigned (z : Z)
| SerUnsigned (n : N)
| SerFloat (f : Float)
| SerStr (s : string)
| SerUnit
| SerNone
| SerSome (v : Ser)
| SerNewtype (v : Ser)
| SerSeq (items : list Ser)
| SerMap (entries : list (Ser * Ser))
| SerStruct (fields : list (string * Ser)).

(** What the JSON parser presents to a visitor: members in source order, with
    repetitions. *)
Inductive Raw :=
| RawNull
| RawBool (b : bool)
| RawSigned (z : Z)
| RawUnsigned (n : N)
| RawFloat (f : Float)
| RawStr (s : string)
| RawSeq (items : list Raw)
| RawMap (members : list (string * Raw)).

(** ** Numbers *)

Definition FIRST_UNSAFE_INTEGER_F64 : N := 9007199254740992.
Definition float_is_finite (f : Float) : bool := match f with FFinite _ _ _ => true | _ => false end.
(** [value.fract() == 0.0] of a finite double *)
Definition float_is_integral (f : Float) : bool :=
  match f with
  | FFinite _ m e => if (0 <=? e)%Z then true else (Z.of_N m mod 2 ^ (- e) =? 0)%Z
  | _ => false
  end.
(** The integer that a finite integral double denotes. *)
Definition float_integer (f : Float) : Z :=
  match f with
  | FFinite negative m e =>
      let v := if (0 <=? e)%Z then (Z.of_N m * 2 ^ e)%Z else (Z.of_N m / 2 ^ (- e))%Z in
      if negative then (- v)%Z else v
  | _ => 0%Z
  end.
(** [value.abs() >= FIRST_UNSAFE_INTEGER_F64] of a finite integral double *)
Definition float_is_unsafe (f : Float) : bool :=
  (Z.of_N FIRST_UNSAFE_INTEGER_F64 <=? Z.abs (float_integer f))%Z.

(** [normalized_integral_number]: the double printed without a fraction and
    parsed again as an integer; the two [expect]s cannot fail below 2^53. *)
Definition normalized_integral_number (f : Float) : Number := NInt (float_integer f).

Definition integer_is_exact (z : Z) : bool := (Z.abs z <=? Z.of_N MAX_EXACT_INTEGER)%Z.

(** The numeric rules that [serialize_f64] applies. *)
Definition probe_float (f : Float) : core () :=
  _ ← require (float_is_finite f) Encoding;
  require (negb (float_is_integral f && float_is_unsafe f)) Encoding.

(** [NumberProbe]: the serialiser that only looks at numbers. *)
Fixpoint number_probe (v : Ser) : core () :=
  match v with
  | SerBool _ | SerStr _ | SerUnit | SerNone => Ok ()
  | SerSigned z => require (integer_is_exact z) Encoding
  | SerUnsigned n => require (n <=? MAX_EXACT_INTEGER)%N Encoding
  | SerFloat f => probe_float f
  | SerSome v | SerNewtype v => number_probe v
  | SerSeq items => try_each number_probe items
  | SerMap entries => try_each (λ '(k, v), _ ← number_probe k; number_probe v) entries
  | SerStruct fields => try_each (λ '(_, v), number_probe v) fields
  end.

(** The [Value::Number] arm of [normalize_ijson_numbers]. *)
Definition normalize_number (n : Number) : core Number :=
  match n with
  | NInt z => _ ← require (integer_is_exact z) Encoding; Ok n
  | NFloat f =>
      _ ← require (float_is_finite f) Encoding;
      if float_is_integral f then
        _ ← require (negb (float_is_unsafe f)) Encoding;
        Ok (normalized_integral_number f)
      else Ok n
  end.

(** [normalize_ijson_numbers]; the value is updated in place. *)
Fixpoint normalize_ijson_numbers (v : Json) : core Json :=
  match v with
  | JArray items => items ← try_map normalize_ijson_numbers items; Ok (JArray items)
  | JObject fields =>
      fields ← try_map (λ '(k, v), v ← normalize_ijson_numbers v; Ok (k, v)) fields;
      Ok (JObject fields)
  | JNumber n => n ← normalize_number n; Ok (JNumber n)
  | JNull | JBool _ | JString _ => Ok v
  end.

(** ** Strict decoding *)

(** [Map::insert] of a key that is absent. *)
Fixpoint member_insert (key : string) (v : Json) (fields : list (string * Json))
    : list (string * Json) :=
  match fields with
  | [] => [(key, v)]
  | (k, w) :: rest =>
      if String.leb key k then (key, v) :: fields else (k, w) :: member_insert key v rest
  end.
Definition contains_key (key : string) (fields : list (string * Json)) : bool :=
  bool_decide (key ∈ fields.*1).

Definition visit_f64 (f : Float) : core Json :=
  _ ← require (float_is_finite f) Encoding;
  if float_is_integral f then
    _ ← require (negb (float_is_unsafe f)) Encoding;
    Ok (JNumber (normalized_integral_number f))
  else Ok (JNumber (NFloat f)).

(** [UniqueValueVisitor] *)
Fixpoint unique_value (raw : Raw) : core Json :=
  match raw with
  | RawNull => Ok JNull
  | RawBool b => Ok (JBool b)
  | RawSigned z => _ ← require (integer_is_exact z) Encoding; Ok (JNumber (NInt z))
  | RawUnsigned n =>
      _ ← require (n <=? MAX_EXACT_INTEGER)%N Encoding; Ok (JNumber (NInt (Z.of_N n)))
  | RawFloat f => visit_f64 f
  | RawStr s => Ok (JString s)
  | RawSeq items => values ← try_map unique_value items; Ok (JArray values)
  | RawMap members =>
      values ← try_fold (λ values '(key, raw),
        _ ← require (negb (contains_key key values)) Encoding;
        value ← unique_value raw;
        Ok (member_insert key value values)) [] members;
      Ok (JObject values)
  end.

(** [serde_json] and [serde_json_canonicalizer]: the parser of one complete
    JSON text, [to_value], and the JCS printer on the two kinds of value.
    [None] is an error of the crate. *)
Class JsonLibrary := {
  json_parse : string → option Raw;
  to_value : Ser → option Json;
  jcs_serialized : Ser → option string;
  jcs_value : Json → option string;
}.

Section Canonicalisation.
Context `{JsonLibrary}.

(** [canonical_bytes] *)
Definition canonical_bytes (value : Ser) : core string :=
  _ ← number_probe value;
  direct ← ok_or (jcs_serialized value) Encoding;
  normalized ← ok_or (to_value value) Encoding;
  normalized ← normalize_ijson_numbers normalized;
  canonical ← ok_or (jcs_value normalized) Encoding;
  _ ← require (bool_decide (direct = canonical)) Encoding;
  Ok canonical.

(** [decode_json], with the typed decoder of its result. *)
Definition decode_json {T} (from_value : Json → option T) (bytes : string) : core T :=
  _ ← validate_json_number_lexemes bytes;
  raw ← ok_or (json_parse bytes) Encoding;
  value ← unique_value raw;
  ok_or (from_value value) Encoding.

(** [content_id] and [canonical_digest] *)
Definition content_id_of `{Sha256} (domain : string) (value : Ser) : core string :=
  bytes ← canonical_bytes value;
  Ok (content_id_of_bytes domain bytes).
Definition canonical_digest_of `{Sha256} (value : Ser) : core string :=
  bytes ← canonical_bytes value;
  Ok (sha256_bytes bytes).
End Canonicalisation.

(** * I-JSON values *)

(** Every integer is exact and no double denotes an integer. *)
Definition number_exact (n : Number) : bool :=
  match n with
  | NInt z => integer_is_exact z
  | NFloat f => float_is_finite f && negb (float_is_integral f)
  end.
Fixpoint json_exact (v : Json) : bool :=
  match v with
  | JNumber n => number_exact n
  | JArray items => forallb json_exact items
  | JObject fields => forallb (λ '(_, v), json_exact v) fields
  | JNull | JBool _ | JString _ => true
  end.

(** No object has two members of the same name. *)
Fixpoint json_unique (v : Json) : bool :=
  match v with
  | JArray items => forallb json_unique items
  | JObject fields =>
      bool_decide (NoDup fields.*1) && forallb (λ '(_, v), json_unique v) fields
  | JNull | JBool _ | JString _ | JNumber _ => true
  end.

(** Nested induction on what the parser presents. *)
Section RawInd.
Context (P : Raw → Prop).
Hypothesis HLeaf : ∀ r, (match r with RawSeq _ | RawMap _ => False | _ => True end) → P r.
Hypothesis HSeq : ∀ items, Forall P items → P (RawSeq items).
Hypothesis HMap : ∀ members, Forall (λ kv, P kv.2) members → P (RawMap members).
Fixpoint Raw_nested_ind (r : Raw) : P r :=
  match r with
  | RawSeq items =>
      HSeq items ((fix go l : Forall P l :=
        match l with
        | [] => Forall_nil_2 P
        | x :: l => Forall_cons_2 P x l (Raw_nested_ind x) (go l)
        end) items)
  | RawMap members =>
      HMap members ((fix go l : Forall (λ kv, P kv.2) l :=
        match l with
        | [] => Forall_nil_2 _
        | x :: l => Forall_cons_2 (λ kv : string * Raw, P kv.2) x l (Raw_nested_ind x.2) (go l)
        end) members)
  | r => HLeaf r I
  end.
End RawInd.

Lemma member_insert_perm k v fields : member_insert k v fields ≡ₚ (k, v) :: fields.
Proof.
  induction fields as [|[k' w] fields IH]; cbn; [done|].
  destruct (String.leb k k'); [done|]. rewrite IH. constructor.
Qed.

(** A decoded or normalised double satisfies the number rules. *)
Lemma normalize_number_exact n n' : normalize_number n = Ok n' → number_exact n' = true.
Proof.
  unfold normalize_number, normalized_integral_number. intros Hn. destruct n as [z|f]; inv_ok; [done|].
  destruct (float_is_integral f) eqn:Hi; inv_ok.
  - cbn. unfold integer_is_exact, float_is_unsafe, MAX_EXACT_INTEGER, FIRST_UNSAFE_INTEGER_F64 in *.
    apply negb_true_iff, Z.leb_gt in H0. apply Z.leb_le. lia.
  - cbn. by rewrite H, Hi.
Qed.
Lemma visit_f64_normalize f v :
  visit_f64 f = Ok v → ∃ n, v = JNumber n ∧ normalize_number (NFloat f) = Ok n.
Proof.
  unfold visit_f64, normalize_number. intros Hv. inv_ok. rewrite H. cbn.
  destruct (float_is_integral f); inv_ok; [|by eauto]. rewrite H0. cbn. eauto.
Qed.
Lemma normalize_number_id n : number_exact n = true → normalize_number n = Ok n.
Proof.
  destruct n as [z|f]; cbn; intros Hn; [by rewrite Hn|]. to_prop. rewrite H, H0. done.
Qed.

(** Normalisation establishes the number rules and is the identity on values
    that satisfy them. *)
Lemma normalize_exact v v' : normalize_ijson_numbers v = Ok v' → json_exact v' = true.
Proof.
  revert v'. induction v as [|b|n|s|items IH|fields IH] using Json_nested_ind; intros v' Hv;
    cbn in Hv; inv_ok; try done.
  - cbn. by eapply normalize_number_exact.
  - apply try_map_Ok in H. cbn. apply forallb_Forall.
    induction H as [|x y xs ys Hxy Hl IHl]; [done|].
    inversion IH; subst. constructor; auto.
  - apply try_map_Ok in H. cbn. apply forallb_Forall.
    induction H as [|[k x] y xs ys Hxy Hl IHl]; [done|].
    inversion IH; subst. inv_ok. constructor; auto.
Qed.
Lemma normalize_id v : json_exact v = true → normalize_ijson_numbers v = Ok v.
Proof.
  induction v as [|b|n|s|items IH|fields IH] using Json_nested_ind; cbn; intros Hv; try done.
  - by rewrite normalize_number_id.
  - enough (try_map normalize_ijson_numbers items = Ok items) as -> by done.
    apply forallb_Forall in Hv. induction IH as [|x l Hx _ IHl]; [done|].
    inversion Hv; subst. cbn. rewrite Hx by done. cbn. by rewrite IHl.
  - match goal with |- (try_map ?f fields ≫= _) = _ => enough (try_map f fields = Ok fields) as -> by done end.
    apply forallb_Forall in Hv. induction IH as [|[k x] l Hx _ IHl]; [done|].
    inversion Hv; subst. cbn in *. rewrite Hx by done. cbn. by rewrite IHl.
Qed.

(** The object loop of the visitor. *)
Lemma member_loop_wf (P : Json → bool) members fields :
  Forall (λ kv, ∀ v, unique_value kv.2 = Ok v → P v = true) members →
  try_fold (λ values '(key, raw),
    _ ← require (negb (contains_key key values)) Encoding;
    value ← unique_value raw;
    Ok (member_insert key value values)) [] members = Ok fields →
  NoDup fields.*1 ∧ Forall (λ kv, P kv.2 = true) fields.
Proof.
  intros Hall Hok.
  refine (try_fold_inv _ (λ _ fields, NoDup fields.*1 ∧ Forall (λ kv, P kv.2 = true) fields)
    members [] fields _ _ Hok); [split; constructor|].
  intros l [k raw] rest t t' -> [Hnd Hf] Hstep. inv_ok.
  unfold contains_key in H. apply negb_true_iff, bool_decide_eq_false in H.
  rewrite member_insert_perm. split; [by constructor|]. constructor; [|done]. cbn.
  rewrite Forall_app, Forall_cons in Hall. by apply Hall.
Qed.

(** A strictly decoded value is an I-JSON value. *)
Lemma unique_value_wf raw v :
  unique_value raw = Ok v → json_exact v = true ∧ json_unique v = true.
Proof.
  revert v. induction raw as [raw Hleaf|items IH|members IH] using Raw_nested_ind; intros v Hv.
  - destruct raw; cbn in Hv; inv_ok; try done.
    + split; [|done]. cbn. unfold integer_is_exact. apply N.leb_le in H. apply Z.leb_le. lia.
    + apply visit_f64_normalize in Hv as (m & -> & Hm). split; [|done]. cbn.
      by eapply normalize_number_exact.
  - cbn in Hv. inv_ok. apply try_map_Ok in H. cbn. rewrite !forallb_Forall.
    induction H as [|x y xs ys Hxy Hl IHl]; [by split|]. apply Forall_cons in IH as [IHx IHxs].
    destruct (IHl IHxs) as [? ?]. destruct (IHx _ Hxy) as [? ?]. split; by constructor.
  - cbn in Hv. inv_ok. cbn. rewrite andb_true_iff, bool_decide_eq_true, !forallb_Forall.
    pose proof (member_loop_wf json_exact members x) as He.
    pose proof (member_loop_wf json_unique members x) as Hu.
    destruct He as [Hnd He]; [|done|].
    { eapply Forall_impl; [exact IH|]. intros [k r] Hr w Hw. by destruct (Hr w Hw). }
    destruct Hu as [_ Hu]; [|done|].
    { eapply Forall_impl; [exact IH|]. intros [k r] Hr w Hw. by destruct (Hr w Hw). }
    split_and!; [|done|].
    + eapply Forall_impl; [exact He|]. by intros [].
    + eapply Forall_impl; [exact Hu|]. by intros [].
Qed.

Lemma decode_json_value `{JsonLibrary} {T} (from_value : Json → option T) bytes t :
  decode_json from_value bytes = Ok t →
  ∃ raw v, json_parse bytes = Some raw ∧ unique_value raw = Ok v ∧ from_value v = Some t
    ∧ json_exact v = true ∧ json_unique v = true.
Proof.
  unfold decode_json. intros Hd. inv_ok.
  match goal with Hu : unique_value _ = Ok _ |- _ => destruct (unique_value_wf _ _ Hu) end. eauto 10.
Qed.
