(* ===== verification/Graph.v ===== *)
(** * The acyclicity check of the invocation graph

    Models [validate_acyclic_graph] of [crates/cymule-core/src/ir.rs]: a
    depth-first search with an explicit stack of [Enter]/[Exit] frames.  The
    loop is a small-step machine; its fuel is a bound on the number of frames
    ever pushed and is proved sufficient. *)

From S2P Require Import Prelude Identity.

Abbreviation graph := (gmap string (gset string)).

Inductive Visit := Enter (d : string) | Exit (d : string).
#[export] Instance Visit_eq_dec : EqDecision Visit.
Proof. solve_decision. Defined.

Record DfsState := {
  visiting : gset string;
  complete : gset string;
  stack : list Visit;
}.

(** The ways a run of the loop can end: the loop has drained the stack, it has
    returned the recursion error, or it has indexed the map with an absent key
    (a panic in Rust). *)
Inductive DfsOutcome :=
| Drained (s : DfsState)
| Recursive (definition : string)
| Panicked.

Section Graph.
Context (g : graph).

Definition successors (d : string) : gset string := default ∅ (g !! d).
Definition edge (d t : string) : Prop := t ∈ successors d.

(** The frames pushed by entering [d]: its [Exit] below the [Enter]s of its
    incomplete targets, pushed in reverse so the smallest is on top. *)
Definition push_targets (done targets : gset string) (d : string) (s : list Visit) : list Visit :=
  map Enter (filter (λ t, t ∉ done) (btree_elements targets)) ++ Exit d :: s.

(** One iteration of [while let Some(visit) = stack.pop()]. *)
Definition dfs_step (st : DfsState) : DfsState + DfsOutcome :=
  match stack st with
  | [] => inr (Drained st)
  | Enter d :: s =>
      if decide (d ∈ complete st) then
        inl {| visiting := visiting st; complete := complete st; stack := s |}
      else if decide (d ∈ visiting st) then inr (Recursive d)
      else match g !! d with
           | None => inr Panicked
           | Some targets =>
               inl {| visiting := {[d]} ∪ visiting st; complete := complete st;
                      stack := push_targets (complete st) targets d s |}
           end
  | Exit d :: s =>
      inl {| visiting := visiting st ∖ {[d]}; complete := {[d]} ∪ complete st; stack := s |}
  end.

Fixpoint dfs_run (fuel : nat) (st : DfsState) : option DfsOutcome :=
  match fuel with
  | O => None
  | S fuel => match dfs_step st with
              | inl st' => dfs_run fuel st'
              | inr o => Some o
              end
  end.

(** Every definition is entered at most once, and entering it pushes at most
    its targets and its own exit. *)
Definition dfs_fuel : nat :=
  S (S (sum_list_with (λ d, S (size (successors d))) (btree_list g).*1)).

(** The outer loop over the keys of the map. *)
Fixpoint dfs_roots (roots : list string) (st : DfsState) : option DfsOutcome :=
  match roots with
  | [] => Some (Drained st)
  | d :: roots =>
      if decide (d ∈ complete st) then dfs_roots roots st
      else match dfs_run dfs_fuel
                   {| visiting := visiting st; complete := complete st;
                      stack := Enter d :: stack st |} with
           | Some (Drained st') => dfs_roots roots st'
           | o => o
           end
  end.

Definition dfs_initial : DfsState := {| visiting := ∅; complete := ∅; stack := [] |}.

(** [validate_acyclic_graph]; running out of fuel is excluded below. *)
Definition validate_acyclic_graph : core () :=
  match dfs_roots (btree_list g).*1 dfs_initial with
  | Some (Drained _) => Ok ()
  | Some (Recursive _) => Err Validation
  | Some Panicked | None => Err Panic
  end.

(** ** Specification *)

(** A definition can reach itself. *)
Definition cyclic : Prop := ∃ d, tc edge d d.
(** Every target of an edge is a definition. *)
Definition closed : Prop := ∀ d t, edge d t → is_Some (g !! t).

(** The [Exit] frames of a stack, topmost first. *)
Fixpoint exits (s : list Visit) : list string :=
  match s with
  | [] => []
  | Enter _ :: s => exits s
  | Exit d :: s => d :: exits s
  end.
Definition visit_name (v : Visit) : string := match v with Enter d | Exit d => d end.

(** Every frame was pushed by the definition of the nearest [Exit] below it. *)
Fixpoint linked (s : list Visit) : Prop :=
  match s with
  | [] => True
  | v :: s => (∀ p, head (exits s) = Some p → edge p (visit_name v)) ∧ linked s
  end.

(** Every target of an open definition is complete or still above its [Exit]. *)
Definition covered (done : gset string) (s : list Visit) : Prop :=
  ∀ pre d post, s = pre ++ Exit d :: post →
  ∀ t, edge d t → t ∈ done ∨ ∃ v, v ∈ pre ∧ visit_name v = t.

Record dfs_inv (st : DfsState) : Prop := {
  inv_visiting : visiting st = list_to_set (exits (stack st));
  inv_nodup : NoDup (exits (stack st));
  inv_disjoint : visiting st ## complete st;
  inv_linked : linked (stack st);
  inv_covered : covered (complete st) (stack st);
  inv_acc : ∀ d, d ∈ complete st → Acc (flip edge) d;
  inv_keys : ∀ v, v ∈ stack st → is_Some (g !! visit_name v);
  inv_done : ∀ d, d ∈ complete st → is_Some (g !! d);
}.

Lemma exits_app s s' : exits (s ++ s') = exits s ++ exits s'.
Proof. induction s as [|[] s IH]; simpl; by rewrite ?IH. Qed.
Lemma exits_enters l : exits (map Enter l) = [].
Proof. by induction l. Qed.
Lemma elem_of_exits d s : d ∈ exits s ↔ Exit d ∈ s.
Proof. induction s as [|[] s IH]; simpl; set_solver. Qed.

(** A linked stack is a path: its topmost [Exit] is reachable from each one. *)
Lemma linked_path s p d :
  linked s → head (exits s) = Some p → d ∈ exits s → rtc edge d p.
Proof.
  revert p. induction s as [|v s IH]; intros p; [done|]. intros [Hv Hs].
  destruct v as [e|e]; simpl in *; [by apply IH|]. intros [= <-] [->|Hd]%elem_of_cons; [done|].
  destruct (head (exits s)) as [q|] eqn:Hq.
  - eapply rtc_r; [by eapply IH|]. by apply Hv.
  - destruct (exits s); [set_solver|done].
Qed.

Lemma linked_app_enters s l d :
  linked s → (∀ p, head (exits s) = Some p → edge p d) →
  (∀ t, t ∈ l → edge d t) → linked (map Enter l ++ Exit d :: s).
Proof.
  intros Hs Hd Hl. induction l as [|t l IH]; simpl.
  - done.
  - split; [|apply IH; set_solver]. rewrite exits_app, exits_enters. simpl.
    intros p [= <-]. apply Hl. set_solver.
Qed.

Lemma pushed_covers (done : gset string) d t :
  edge d t → t ∈ done ∨
  ∃ v, v ∈ map Enter (filter (λ t, t ∉ done) (btree_elements (successors d)))
       ∧ visit_name v = t.
Proof.
  intros Ht. destruct (decide (t ∈ done)) as [?|Hn]; [by left|right].
  exists (Enter t). split; [|done]. apply list_elem_of_fmap. exists t. split; [done|].
  apply list_elem_of_filter. by rewrite elem_of_btree_elements.
Qed.

Lemma exit_not_pushed e l : Exit e ∉ map Enter l.
Proof. intros (? & ? & _)%list_elem_of_fmap. done. Qed.

Lemma inv_step st st' : closed → dfs_inv st → dfs_step st = inl st' → dfs_inv st'.
Proof.
  intros Hclosed [Hvis Hnd Hdisj Hlink Hcov Hacc Hkeys Hdone].
  unfold dfs_step. destruct st as [vis done stk]; simpl in *.
  destruct stk as [|[d|d] s]; [done|..].
  - case_decide as Hc.
    { intros [= <-]. destruct Hlink. split; simpl; [done..| |done| |done].
      - intros pre e post Hs t Ht. destruct (Hcov (Enter d :: pre) e post) with t
          as [?|(v & Hv & Hn)]; [by rewrite Hs|done|by left|].
        apply elem_of_cons in Hv as [->|Hv]; [left; by simplify_eq/=|eauto].
      - set_solver. }
    case_decide as Hv; [done|]. destruct (g !! d) as [targets|] eqn:Hg; [|done].
    intros [= <-]. destruct Hlink as [Hd Hlink]. simpl in *.
    assert (successors d = targets) as Hsucc by (unfold successors; by rewrite Hg).
    split; simpl; unfold push_targets.
    + rewrite exits_app, exits_enters. simpl. set_solver.
    + rewrite exits_app, exits_enters. simpl. constructor; [|done]. set_solver.
    + set_solver.
    + apply linked_app_enters; [done..|]. intros t Ht.
      apply list_elem_of_filter in Ht as [_ Ht]. rewrite elem_of_btree_elements in Ht.
      unfold edge. by rewrite Hsucc.
    + intros pre e post Hs t Ht.
      assert (∀ t, edge d t → t ∈ done ∨
        ∃ v, v ∈ map Enter (filter (λ t, t ∉ done) (btree_elements targets)) ∧ visit_name v = t)
        as Hnew by (rewrite <-Hsucc; apply pushed_covers).
      apply app_eq_inv in Hs as [(k & Hk & Hs)|(k & Hk & Hs)].
      * destruct k as [|x k]; simpl in Hs.
        -- injection Hs as -> ->. rewrite app_nil_r in Hk. subst pre. by apply Hnew.
        -- injection Hs as <- Hs. exfalso.
           assert (Exit e ∈ pre ++ Exit e :: k) as Hin by set_solver.
           rewrite <-Hk in Hin. by apply exit_not_pushed in Hin.
      * destruct k as [|x k]; simpl in Hs.
        -- injection Hs as <- <-. rewrite app_nil_r in Hk. subst pre. by apply Hnew.
        -- injection Hs as <- Hs. subst pre s.
           destruct (Hcov (Enter d :: k) e post) with t as [?|(v & Hv' & Hn)]; [done..|by left|].
           right. apply elem_of_cons in Hv' as [->|Hv'].
           ++ exists (Exit d). split; [set_solver|done].
           ++ exists v. split; [set_solver|done].
    + done.
    + intros v. rewrite elem_of_app, elem_of_cons. intros [Hin|[->|Hin]]; [|by eauto|set_solver].
      apply list_elem_of_fmap in Hin as (t & -> & Ht). simpl.
      apply list_elem_of_filter in Ht as [_ Ht]. rewrite elem_of_btree_elements in Ht.
      apply (Hclosed d). unfold edge. by rewrite Hsucc.
    + done.
  - intros [= <-]. destruct Hlink as [Hd Hlink]. simpl in *.
    apply NoDup_cons in Hnd as [Hnin Hnd].
    split; simpl.
    + set_solver.
    + done.
    + set_solver.
    + done.
    + intros pre e post Hs t Ht. destruct (Hcov (Exit d :: pre) e post) with t
        as [?|(v & Hv & Hn)]; [by rewrite Hs|done|set_solver|].
      apply elem_of_cons in Hv as [->|Hv]; [left; simplify_eq/=; set_solver|eauto].
    + intros e He. destruct (decide (e = d)) as [->|Hne]; [|apply Hacc; set_solver].
      constructor. intros t Ht. destruct (Hcov [] d s) with t as [?|(v & Hv & _)];
        [done|done|by apply Hacc|set_solver].
    + set_solver.
    + intros e [->%elem_of_singleton|He]%elem_of_union; [|by apply Hdone].
      apply (Hkeys (Exit d)). set_solver.
Qed.

(** ** Termination: the frames still to be pushed *)

Definition frame_cost (seen : gset string) (d : string) : nat :=
  if decide (d ∈ seen) then 0 else S (size (successors d)).
Definition measure (st : DfsState) : nat :=
  sum_list_with (frame_cost (visiting st ∪ complete st)) (btree_list g).*1 + length (stack st).

Lemma frame_cost_seen seen d : d ∈ seen → frame_cost seen d = 0.
Proof. intros. unfold frame_cost. by rewrite decide_True. Qed.
Lemma frame_cost_fresh seen d : d ∉ seen → frame_cost seen d = S (size (successors d)).
Proof. intros. unfold frame_cost. by rewrite decide_False. Qed.
Lemma frame_cost_other seen d e : d ≠ e → frame_cost ({[d]} ∪ seen) e = frame_cost seen e.
Proof. intros. unfold frame_cost. repeat case_decide; set_solver. Qed.

Lemma frame_cost_add seen d l :
  NoDup l → d ∈ l → d ∉ seen →
  sum_list_with (frame_cost seen) l =
    S (size (successors d)) + sum_list_with (frame_cost ({[d]} ∪ seen)) l.
Proof.
  intros Hnd Hd Hs. induction Hnd as [|e l He Hnd IH]; [set_solver|]. simpl.
  apply elem_of_cons in Hd as [<-|Hd].
  - assert (sum_list_with (frame_cost seen) l = sum_list_with (frame_cost ({[d]} ∪ seen)) l)
      as ->.
    { clear -He. induction l as [|x l IH]; simpl; [done|].
      rewrite IH, frame_cost_other by set_solver. done. }
    rewrite frame_cost_fresh, (frame_cost_seen ({[d]} ∪ seen)) by set_solver. lia.
  - rewrite IH, frame_cost_other by set_solver. lia.
Qed.

Lemma length_push_targets done targets d s :
  length (push_targets done targets d s) ≤ S (size targets) + length s.
Proof.
  unfold push_targets. rewrite length_app, length_map. simpl.
  pose proof (length_filter (λ t, t ∉ done) (btree_elements targets)).
  assert (length (btree_elements targets) = size targets).
  { unfold btree_elements, size, set_size. simpl. by rewrite merge_sort_Permutation. }
  lia.
Qed.

Lemma elem_of_keys d : d ∈ (btree_list g).*1 ↔ is_Some (g !! d).
Proof.
  rewrite list_elem_of_fmap. split.
  - intros ([k v] & -> & Hk). exists v. by apply elem_of_btree_list.
  - intros [v Hv]. exists (d, v). split; [done|]. by apply elem_of_btree_list.
Qed.

Lemma measure_step st st' :
  dfs_inv st → dfs_step st = inl st' → measure st' < measure st.
Proof.
  intros Hinv Hstep. unfold dfs_step in Hstep. unfold measure.
  destruct st as [vis done stk]; simpl in *. destruct stk as [|[d|d] s]; [done|..].
  - case_decide as Hc; [simplify_eq/=; lia|]. case_decide as Hv; [done|].
    destruct (g !! d) as [targets|] eqn:Hg; [|done]. simplify_eq/=.
    rewrite (frame_cost_add (vis ∪ done) d); [|apply btree_list_NoDup_keys| |set_solver].
    2:{ apply elem_of_keys. by rewrite Hg. }
    rewrite (assoc_L (∪)). pose proof (length_push_targets done targets d s).
    unfold successors. rewrite Hg. simpl. lia.
  - simplify_eq/=. destruct Hinv as [Hvis _ _ _ _ _ _ _]. simpl in Hvis.
    assert (vis ∖ {[d]} ∪ ({[d]} ∪ done) = vis ∪ done) as ->; [|lia].
    apply set_eq. intros x. destruct (decide (x = d)); set_solver.
Qed.

(** ** Correctness of a run *)

Lemma step_outcome st o :
  closed → dfs_inv st → dfs_step st = inr o →
  match o with
  | Drained st' => st' = st ∧ stack st = []
  | Recursive d => tc edge d d
  | Panicked => False
  end.
Proof.
  intros Hclosed [Hvis Hnd Hdisj Hlink Hcov Hacc Hkeys Hdone].
  unfold dfs_step. destruct st as [vis done stk]; simpl in *.
  destruct stk as [|[d|d] s]; [by intros [= <-]| |done].
  case_decide as Hc; [done|]. case_decide as Hv.
  - intros [= <-]. rewrite Hvis in Hv. simpl in Hv. destruct Hlink as [Hd Hlink].
    rewrite elem_of_list_to_set in Hv.
    destruct (head (exits s)) as [p|] eqn:Hp; [|by destruct (exits s); [set_solver|]].
    eapply tc_rtc_l; [by eapply linked_path|]. apply tc_once. by apply Hd.
  - destruct (g !! d) eqn:Hg; [done|]. exfalso.
    destruct (Hkeys (Enter d)) as [? Hk]; [set_solver|]. simpl in Hk. congruence.
Qed.

Lemma step_complete_mono st st' : dfs_step st = inl st' → complete st ⊆ complete st'.
Proof.
  unfold dfs_step. destruct (stack st) as [|[d|d] s]; [done|..].
  - case_decide; [by intros [= <-]|]. case_decide; [done|].
    destruct (g !! d); [by intros [= <-]|done].
  - intros [= <-]. simpl. set_solver.
Qed.

(** A frame to enter stays on the stack as itself or as its exit, or the
    definition is complete. *)
Lemma step_frame st st' d :
  dfs_step st = inl st' →
  (∃ v, v ∈ stack st ∧ visit_name v = d) →
  (∃ v, v ∈ stack st' ∧ visit_name v = d) ∨ d ∈ complete st'.
Proof.
  unfold dfs_step. intros Hstep (v & Hv & <-).
  destruct (stack st) as [|[e|e] s]; [done|..].
  - case_decide as Hc; [|case_decide; [done|]; destruct (g !! e); [|done]].
    + injection Hstep as <-. simpl. apply elem_of_cons in Hv as [->|Hv]; [by right|left; eauto].
    + injection Hstep as <-. simpl. left. unfold push_targets.
      apply elem_of_cons in Hv as [->|Hv].
      * exists (Exit e). split; [set_solver|done].
      * exists v. split; [set_solver|done].
  - injection Hstep as <-. simpl. apply elem_of_cons in Hv as [->|Hv]; [right; set_solver|].
    left. eauto.
Qed.

Lemma run_sound fuel st :
  closed → dfs_inv st → measure st < fuel →
  ∃ o, dfs_run fuel st = Some o ∧
    match o with
    | Drained st' => dfs_inv st' ∧ stack st' = [] ∧ complete st ⊆ complete st' ∧
                     (∀ v, v ∈ stack st → visit_name v ∈ complete st')
    | Recursive d => tc edge d d
    | Panicked => False
    end.
Proof.
  intros Hclosed. revert st. induction fuel as [|fuel IH]; intros st Hinv Hfuel; [lia|].
  simpl. destruct (dfs_step st) as [st'|o] eqn:Hstep.
  - pose proof (measure_step _ _ Hinv Hstep).
    destruct (IH st') as (o & Ho & Hres); [by eapply inv_step|lia|].
    exists o. split; [done|]. destruct o as [st''| |]; [|done..].
    destruct Hres as (Hinv' & Hs & Hsub & Hent). split_and!; [done..| |].
    + etrans; [|done]. eapply step_complete_mono; done.
    + intros v Hv. destruct (step_frame st st' (visit_name v)) as [(w & Hw & <-)|Hc];
        [done|by eauto|by apply Hent|by apply Hsub].
  - exists o. split; [done|]. pose proof (step_outcome _ _ Hclosed Hinv Hstep) as Hres.
    destruct o as [st'| |]; [|done..]. destruct Hres as [-> Hs]. rewrite Hs.
    split_and!; [done..|set_solver].
Qed.

(** ** The whole check *)

Definition rest_inv (st : DfsState) : Prop := dfs_inv st ∧ stack st = [].

Lemma measure_root st d :
  rest_inv st →
  measure {| visiting := visiting st; complete := complete st; stack := Enter d :: stack st |}
    < dfs_fuel.
Proof.
  intros [_ Hs]. unfold measure, dfs_fuel. simpl. rewrite Hs. simpl.
  assert (∀ l seen, sum_list_with (frame_cost seen) l
                    ≤ sum_list_with (λ d, S (size (successors d))) l) as Hle.
  { intros l seen. induction l as [|x l IH]; simpl; [done|].
    unfold frame_cost at 1. case_decide; lia. }
  pose proof (Hle (btree_list g).*1 (visiting st ∪ complete st)). lia.
Qed.

Lemma rest_inv_enter st d :
  rest_inv st → is_Some (g !! d) →
  dfs_inv {| visiting := visiting st; complete := complete st; stack := Enter d :: stack st |}.
Proof.
  intros [[Hvis Hnd Hdisj Hlink Hcov Hacc Hkeys Hdone] Hs] Hd. rewrite Hs in *.
  split; simpl; try done.
  - intros pre e post He. destruct pre as [|? [|??]]; simplify_eq/=.
  - intros v ->%list_elem_of_singleton. done.
Qed.

Lemma roots_sound roots st :
  closed → rest_inv st → (∀ d, d ∈ roots → is_Some (g !! d)) →
  ∃ o, dfs_roots roots st = Some o ∧
    match o with
    | Drained st' => rest_inv st' ∧ complete st ⊆ complete st' ∧
                     (∀ d, d ∈ roots → d ∈ complete st')
    | Recursive d => tc edge d d
    | Panicked => False
    end.
Proof.
  intros Hclosed. revert st. induction roots as [|d roots IH]; intros st Hinv Hkeys; cbn [dfs_roots].
  { exists (Drained st). split_and!; [done..|set_solver]. }
  case_decide as Hd.
  - destruct (IH st) as (o & Ho & Hres); [done|set_solver|].
    exists o. split; [done|]. destruct o; [|done..]. set_solver.
  - destruct (run_sound dfs_fuel _ Hclosed (rest_inv_enter st d Hinv ltac:(set_solver)))
      as (o & -> & Hres); [by apply measure_root|].
    destruct o as [st'|e|]; [|by exists (Recursive e)|done].
    destruct Hres as (Hinv' & Hs' & Hsub & Hent). simpl in *.
    destruct (IH st') as (o & Ho & Hres); [done|set_solver|].
    exists o. split; [done|]. destruct o; [|done..].
    destruct Hres as (? & ? & ?). split_and!; [done|set_solver|].
    intros x [->|Hx]%elem_of_cons; [|set_solver].
    specialize (Hent (Enter d)). simpl in Hent. set_solver.
Qed.

Lemma acc_no_cycle d : Acc (flip edge) d → ¬ tc edge d d.
Proof.
  intros Hacc. induction Hacc as [d _ IH]. intros Hc.
  assert (∃ t, edge d t ∧ rtc edge t d) as (t & Hdt & Htd).
  { inversion Hc as [? ? He|? t ? He Ht]; subst; [by exists d|].
    exists t. split; [done|]. by apply tc_rtc. }
  apply (IH t Hdt). eapply tc_rtc_l; [exact Htd|]. by apply tc_once.
Qed.

(** The loop never runs out of fuel or indexes an absent definition, and its
    verdict is exact: either every definition is well founded under "invokes",
    or some definition reaches itself. *)
Lemma validate_acyclic_graph_cases :
  closed →
  (validate_acyclic_graph = Ok () ∧ ∀ d, Acc (flip edge) d) ∨
  (validate_acyclic_graph = Err Validation ∧ cyclic).
Proof.
  intros Hclosed. unfold validate_acyclic_graph.
  destruct (roots_sound (btree_list g).*1 dfs_initial) as (o & -> & Hres); [done| | |].
  - split; [|done]. split; simpl; try set_solver.
    + constructor.
    + by intros [].
  - intros d. by rewrite elem_of_keys.
  - destruct o as [st|d|]; [left|right; split; [done|by exists d]|done].
    split; [done|]. destruct Hres as (Hinv & _ & Hall). intros d.
    destruct (g !! d) as [ts|] eqn:Hg.
    + apply Hinv, Hall. apply elem_of_keys. by rewrite Hg.
    + constructor. intros t. unfold flip, edge, successors. rewrite Hg. set_solver.
Qed.
End Graph.
