(* ===== verification/Ir.v ===== *)
(** * The frozen IR: plans and their admission

    Models [crates/cymule-core/src/ir.rs]: the data of a [PlanCandidate], the
    structural validation of definitions and regions, the acyclicity check of
    the invocation graph and the sealing of a plan.  The JSON Schema compiler
    ([jsonschema]), the canonical JSON codec and the hash are parameters. *)

From S2P Require Import Prelude Identity Canonical Graph.

(** ** Plans *)

Inductive MutationKind := Observational | Mutating.
Inductive DispatchPolicy := Eager | OnScopeCommit | Explicit.
Inductive ReconciliationMode := Queryable | ExternallyAttested | Human | Impossible.
#[export] Instance MutationKind_eq_dec : EqDecision MutationKind.
Proof. solve_decision. Defined.
#[export] Instance DispatchPolicy_eq_dec : EqDecision DispatchPolicy.
Proof. solve_decision. Defined.
#[export] Instance ReconciliationMode_eq_dec : EqDecision ReconciliationMode.
Proof. solve_decision. Defined.

Record EffectProfile := {
  mutation : MutationKind;
  dispatch : DispatchPolicy;
  reconciliation_mode : ReconciliationMode;
  keyed_idempotency : bool;
  irreversible : bool;
}.
#[export] Instance EffectProfile_eq_dec : EqDecision EffectProfile.
Proof. solve_decision. Defined.

Record ComponentContract := {
  component_id : string;
  component_input_schema : Json;
  component_output_schema : Json;
  output_artifact_kind : string;
  component_requirements : list (string * string);
}.
#[export] Instance ComponentContract_eq_dec : EqDecision ComponentContract.
Proof. solve_decision. Defined.

Record EffectContract := {
  contract_id : string;
  effect_input_schema : Json;
  effect_output_schema : Json;
  contract_profile : EffectProfile;
  effect_requirements : list (string * string);
}.
#[export] Instance EffectContract_eq_dec : EqDecision EffectContract.
Proof. solve_decision. Defined.

Inductive WaitSpec :=
| Signal (key : string) (consume_once : bool)
| Timer (timer_id : string)
| InputWait (correlation : string) (schema : Json).
#[export] Instance WaitSpec_eq_dec : EqDecision WaitSpec.
Proof. solve_decision. Defined.

Inductive Expression :=
| EInput
| ELiteral (value : Json)
| EBinding (name : string)
| EObject (fields : list (string * Expression))
| EArray (items : list Expression).
#[export] Instance Expression_eq_dec : EqDecision Expression.
Proof.
  refine (fix go x y := let _ : EqDecision Expression := @go in
    match x, y with
    | EInput, EInput => left _
    | ELiteral a, ELiteral b => cast_if (decide (a = b))
    | EBinding a, EBinding b => cast_if (decide (a = b))
    | EObject a, EObject b => cast_if (decide (a = b))
    | EArray a, EArray b => cast_if (decide (a = b))
    | _, _ => right _
    end); abstract congruence.
Defined.

(** [Operation::Scope] holds a boxed [Region], so the three types are mutual. *)
Inductive Operation :=
| OCall (component : string) (input : Expression) (bind : option string)
| OInvoke (definition : string) (input : Expression) (bind : option string)
| OWait (wait : WaitSpec) (bind : option string)
| OEffect (effect : string) (input : Expression) (occurrence : string) (bind : option string)
| OScope (body : Region) (bind : option string)
with Step := MkStep (step_id : string) (operation : Operation)
with Region := MkRegion (steps : list Step) (region_result : Expression).

Definition step_id (s : Step) : string := let 'MkStep i _ := s in i.
Definition step_operation (s : Step) : Operation := let 'MkStep _ o := s in o.
Definition region_steps (r : Region) : list Step := let 'MkRegion l _ := r in l.
Definition region_result (r : Region) : Expression := let 'MkRegion _ e := r in e.

Definition operation_eq_dec_with (go : EqDecision Region) : EqDecision Operation.
Proof. solve_decision. Defined.
Definition step_eq_dec_with (go : EqDecision Region) : EqDecision Step.
Proof. pose proof (operation_eq_dec_with go). solve_decision. Defined.
#[export] Instance Region_eq_dec : EqDecision Region.
Proof.
  refine (fix go x y :=
    match x, y with
    | MkRegion l e, MkRegion l' e' =>
        cast_if_and (@list_eq_dec _ (step_eq_dec_with (@go)) l l') (decide (e = e'))
    end); congruence.
Defined.

Record Definition_ := {
  def_id : string;
  def_input_schema : Json;
  def_output_schema : Json;
  body : Region;
}.
#[export] Instance Definition_eq_dec : EqDecision Definition_.
Proof. solve_decision. Defined.

Record PlanCandidate := {
  ir_version : string;
  plan_name : string;
  entry : string;
  components : list ComponentContract;
  effects_ : list EffectContract;
  definitions : list Definition_;
  metadata : list (string * string);
}.
#[export] Instance PlanCandidate_eq_dec : EqDecision PlanCandidate.
Proof. solve_decision. Defined.

Record SealedPlan := {
  plan_id : string;
  candidate : PlanCandidate;
}.
#[export] Instance SealedPlan_eq_dec : EqDecision SealedPlan.
Proof. solve_decision. Defined.

Definition IR_VERSION : string := "cymule.ir/3".
Definition PLAN_ID_DOMAIN : string := "cymule.plan/1".
Definition JSON_SCHEMA_DIALECT : string := "https://json-schema.org/draft/2020-12/schema".

(** The [jsonschema] crate: whether a document compiles as a Draft 2020-12
    schema with external retrieval denied, and whether an instance matches a
    compiled schema. *)
Class SchemaCompiler := {
  schema_builds : Json → bool;
  schema_matches : Json → Json → bool;
}.

Section Validation.
Context `{SchemaCompiler}.

Definition validate_schema (schema : Json) : core () :=
  _ ← require (is_object schema || is_boolean schema) Validation;
  _ ← match json_get "$schema" schema with
      | Some declared =>
          require (bool_decide (as_str declared = Some JSON_SCHEMA_DIALECT)) Validation
      | None => Ok ()
      end;
  require (schema_builds schema) Validation.

Definition validate_schema_instance (schema instance : Json) : core () :=
  _ ← require (schema_builds schema) Validation;
  require (schema_matches schema instance) Validation.

Definition validate_wait (wait : WaitSpec) : core () :=
  match wait with
  | Signal key _ => validate_semantic_id key
  | Timer timer_id => validate_semantic_id timer_id
  | InputWait correlation schema =>
      _ ← validate_semantic_id correlation;
      validate_schema schema
  end.

Fixpoint validate_expression (expression : Expression) (bindings : gset string) : core () :=
  match expression with
  | EInput | ELiteral _ => Ok ()
  | EBinding name => require (bool_decide (name ∈ bindings)) Validation
  | EObject fields => try_each (λ '(_, e), validate_expression e bindings) fields
  | EArray items => try_each (λ e, validate_expression e bindings) items
  end.

(** The loop of [unique_contract_ids]; the iterator is the list of ids. *)
Definition unique_contract_ids (ids : list string) : core (gset string) :=
  try_fold (λ unique id,
    _ ← validate_semantic_id id;
    _ ← require (bool_decide (id ∉ unique)) Validation;
    Ok ({[id]} ∪ unique)) ∅ ids.

(** The declared result binding of an operation. *)
Definition operation_bind (o : Operation) : option string :=
  match o with
  | OCall _ _ b | OInvoke _ _ b | OWait _ b | OEffect _ _ _ b | OScope _ b => b
  end.

Section Region.
Context (comps : gset string) (effs : gmap string EffectProfile) (defs : gset string).

(** [validate_region]; the mutable [sites] set is threaded through, and the
    state of the loop is the pair of [sites] and [bindings]. *)
Fixpoint validate_region (region : Region) (sites inherited : gset string)
    : core (gset string) :=
  let 'MkRegion steps result := region in
  st ← try_fold (λ st step,
      let '(sites, bindings) := st in
      let 'MkStep id operation := step in
      _ ← validate_semantic_id id;
      _ ← require (bool_decide (id ∉ sites)) Validation;
      let sites := {[id]} ∪ sites in
      sites ← match operation with
        | OCall component input _ =>
            _ ← require (bool_decide (component ∈ comps)) Validation;
            _ ← validate_expression input bindings;
            Ok sites
        | OInvoke definition input _ =>
            _ ← require (bool_decide (definition ∈ defs)) Validation;
            _ ← validate_expression input bindings;
            Ok sites
        | OWait wait _ =>
            _ ← validate_wait wait;
            Ok sites
        | OEffect effect input occurrence bind =>
            profile ← ok_or (effs !! effect) Validation;
            _ ← require (negb (bool_decide (is_Some bind)
                   && (negb (bool_decide (mutation profile = Observational))
                       || negb (bool_decide (dispatch profile = Eager))))) Validation;
            _ ← validate_semantic_id occurrence;
            _ ← validate_expression input bindings;
            Ok sites
        | OScope body _ => validate_region body sites bindings
        end;
      match operation_bind operation with
      | Some binding =>
          _ ← validate_semantic_id binding;
          _ ← require (bool_decide (binding ∉ bindings)) Validation;
          Ok (sites, {[binding]} ∪ bindings)
      | None => Ok (sites, bindings)
      end) (sites, inherited) steps;
  _ ← validate_expression result st.2;
  Ok st.1.
End Region.

(** [collect_invocations] *)
Fixpoint collect_invocations (region : Region) (targets : gset string) : gset string :=
  let 'MkRegion steps _ := region in
  foldl (λ targets '(MkStep _ operation),
    match operation with
    | OInvoke definition _ _ => {[definition]} ∪ targets
    | OScope body _ => collect_invocations body targets
    | OCall _ _ _ | OWait _ _ | OEffect _ _ _ _ => targets
    end) targets steps.

(** The graph built by [validate_invocation_graph]; [collect] into a
    [BTreeMap] keeps the last of two equal keys. *)
Definition invocation_graph (defs : list Definition_) : graph :=
  foldl (λ g d, <[def_id d := collect_invocations (body d) ∅]> g) ∅ defs.
Definition validate_invocation_graph (defs : list Definition_) : core () :=
  validate_acyclic_graph (invocation_graph defs).

Definition effect_profiles (effs : list EffectContract) : gmap string EffectProfile :=
  foldl (λ m c, <[contract_id c := contract_profile c]> m) ∅ effs.

Definition validate_component_contract (c : ComponentContract) : core () :=
  _ ← validate_schema (component_input_schema c);
  _ ← validate_schema (component_output_schema c);
  validate_artifact_kind (output_artifact_kind c).

Definition validate_effect_contract (c : EffectContract) : core () :=
  _ ← validate_schema (effect_input_schema c);
  _ ← validate_schema (effect_output_schema c);
  require (negb (bool_decide (mutation (contract_profile c) = Mutating)
                 && bool_decide (dispatch (contract_profile c) = Eager))) Validation.

Definition validate_definitions (comps : gset string) (effs : gmap string EffectProfile)
    (defs : gset string) (l : list Definition_) : core (gset string) :=
  try_fold (λ sites d,
    _ ← validate_schema (def_input_schema d);
    _ ← validate_schema (def_output_schema d);
    validate_region comps effs defs (body d) sites ∅) ∅ l.

(** [PlanCandidate::validate] *)
Definition PlanCandidate_validate (c : PlanCandidate) : core () :=
  _ ← require (bool_decide (ir_version c = IR_VERSION)) Validation;
  _ ← validate_semantic_id (plan_name c);
  component_ids ← unique_contract_ids (component_id <$> components c);
  _ ← unique_contract_ids (contract_id <$> effects_ c);
  _ ← try_each validate_component_contract (components c);
  _ ← try_each validate_effect_contract (effects_ c);
  definition_ids ← unique_contract_ids (def_id <$> definitions c);
  _ ← require (bool_decide (entry c ∈ definition_ids)) Validation;
  _ ← validate_definitions component_ids (effect_profiles (effects_ c)) definition_ids
        (definitions c);
  validate_invocation_graph (definitions c).
End Validation.

(** ** Sealing *)

(** The serialiser and the typed decoder that [serde] derives for a candidate. *)
Class PlanCodec := {
  serialize_plan : PlanCandidate → Ser;
  plan_from_value : Json → option PlanCandidate;
}.

Section Sealing.
Context `{SchemaCompiler} `{Sha256} `{JsonLibrary} `{PlanCodec}.

(** [canonical_plan_candidate] *)
Definition canonical_plan_candidate (c : PlanCandidate) : core PlanCandidate :=
  bytes ← canonical_bytes (serialize_plan c);
  decode_json plan_from_value bytes.

Definition plan_content_id (c : PlanCandidate) : core string :=
  content_id_of PLAN_ID_DOMAIN (serialize_plan c).

(** [seal_plan] *)
Definition seal_plan (c : PlanCandidate) : core SealedPlan :=
  normalized ← canonical_plan_candidate c;
  let c := if decide (normalized = c) then c else normalized in
  _ ← PlanCandidate_validate c;
  id ← plan_content_id c;
  Ok {| plan_id := id; candidate := c |}.

(** [SealedPlan::verify] *)
Definition SealedPlan_verify (p : SealedPlan) : core () :=
  normalized ← canonical_plan_candidate (candidate p);
  _ ← require (bool_decide (normalized = candidate p)) Validation;
  _ ← PlanCandidate_validate (candidate p);
  expected ← plan_content_id (candidate p);
  require (bool_decide (expected = plan_id p)) IdentityMismatch.
End Sealing.

(** * Declarative well-formedness *)

(** Every binding an expression reads is among [B]. *)
Inductive expr_scoped (B : gset string) : Expression → Prop :=
| scoped_input : expr_scoped B EInput
| scoped_literal v : expr_scoped B (ELiteral v)
| scoped_binding x : x ∈ B → expr_scoped B (EBinding x)
| scoped_object fields : Forall (λ p, expr_scoped B p.2) fields → expr_scoped B (EObject fields)
| scoped_array items : Forall (expr_scoped B) items → expr_scoped B (EArray items).

Section WellFormed.
Context `{SchemaCompiler}.
Context (comps : gset string) (effs : gmap string EffectProfile) (defs : gset string).

(** An effect result may be bound only for an eager observation. *)
Definition bindable (p : EffectProfile) : Prop :=
  mutation p = Observational ∧ dispatch p = Eager.

(** Typing-style rules: [B] holds the bindings visible at a step. *)
Inductive region_wf : gset string → Region → Prop :=
| wf_region B steps res : steps_wf B steps res → region_wf B (MkRegion steps res)
with steps_wf : gset string → list Step → Expression → Prop :=
| wf_result B res : expr_scoped B res → steps_wf B [] res
| wf_step B id op steps res :
    validate_semantic_id id = Ok () →
    operation_wf B op →
    (∀ b, operation_bind op = Some b → validate_semantic_id b = Ok () ∧ b ∉ B) →
    steps_wf (match operation_bind op with Some b => {[b]} ∪ B | None => B end) steps res →
    steps_wf B (MkStep id op :: steps) res
with operation_wf : gset string → Operation → Prop :=
| wf_call B c input b : c ∈ comps → expr_scoped B input → operation_wf B (OCall c input b)
| wf_invoke B d input b : d ∈ defs → expr_scoped B input → operation_wf B (OInvoke d input b)
| wf_wait B w b : validate_wait w = Ok () → operation_wf B (OWait w b)
| wf_effect B e input occ b p :
    effs !! e = Some p → (is_Some b → bindable p) → validate_semantic_id occ = Ok () →
    expr_scoped B input → operation_wf B (OEffect e input occ b)
| wf_scope B body b : region_wf B body → operation_wf B (OScope body b).
End WellFormed.

(** The step sites of a region, in the order the validator visits them. *)
Fixpoint region_sites (r : Region) : list string :=
  let 'MkRegion steps _ := r in
  flat_map (λ '(MkStep id op),
    id :: match op with OScope body _ => region_sites body | _ => [] end) steps.

(** [r] contains an invocation of [t]. *)
Inductive invokes : Region → string → Prop :=
| invokes_here steps res id t input b :
    MkStep id (OInvoke t input b) ∈ steps → invokes (MkRegion steps res) t
| invokes_scope steps res id body b t :
    MkStep id (OScope body b) ∈ steps → invokes body t → invokes (MkRegion steps res) t.
