(* ===== verification/Model.v ===== *)
(** * Commands, events and projections

    The data of [crates/cymule-core/src/model.rs] and the structural
    identities derived from it. *)

From stdpp Require pretty.
From S2P Require Import Prelude Identity Canonical Ir.

(** One invoke edge in an entry-rooted invocation path. *)
Record InvocationPathSegment := {
  seg_site_id : string;
  seg_region_path : list nat;
  seg_scope_id : string;
}.
#[export] Instance InvocationPathSegment_eq_dec : EqDecision InvocationPathSegment.
Proof. solve_decision. Defined.

Record InitialAttemptSpec := {
  ia_attempt_id : string;
  ia_continuation_id : string;
  ia_occurrence_binding : string;
  ia_continuation_epoch : N;
  ia_execution_fence : N;
}.
#[export] Instance InitialAttemptSpec_eq_dec : EqDecision InitialAttemptSpec.
Proof. solve_decision. Defined.

Inductive WorldOutcome := Unobserved | Applied | NotApplied | Unknown.
#[export] Instance WorldOutcome_eq_dec : EqDecision WorldOutcome.
Proof. solve_decision. Defined.

Inductive ReconciliationResolution :=
| ResolvedApplied | ResolvedNotApplied | StillUnknown | ResolutionGovernanceRequired.
#[export] Instance ReconciliationResolution_eq_dec : EqDecision ReconciliationResolution.
Proof. solve_decision. Defined.

Inductive ReconciliationState := NotRequired | Pending | Resolved | GovernanceRequired.
#[export] Instance ReconciliationState_eq_dec : EqDecision ReconciliationState.
Proof. solve_decision. Defined.

Inductive EffectPhase :=
| Admitted_ | Prepared | ReleaseAuthorized | DispatchStarted | CancelledBeforeRelease.
#[export] Instance EffectPhase_eq_dec : EqDecision EffectPhase.
Proof. solve_decision. Defined.

Inductive EffectExecutionAvailability := Available | Unavailable.
#[export] Instance EffectExecutionAvailability_eq_dec : EqDecision EffectExecutionAvailability.
Proof. solve_decision. Defined.

Inductive EffectTransition :=
| Prepare
| AuthorizeRelease
| StartDispatch
| Observe (outcome : WorldOutcome)
| Reconcile (resolution : ReconciliationResolution)
| MarkUnavailable.
#[export] Instance EffectTransition_eq_dec : EqDecision EffectTransition.
Proof. solve_decision. Defined.

Inductive RunFailureClass := DeclaredFailure | RuntimeDefect | Substrate.
#[export] Instance RunFailureClass_eq_dec : EqDecision RunFailureClass.
Proof. solve_decision. Defined.
Record RunFailure := {
  failure_class : RunFailureClass;
  failure_code : string;
  failure_detail : ArtifactRef;
}.
#[export] Instance RunFailure_eq_dec : EqDecision RunFailure.
Proof. solve_decision. Defined.

(** [RunFailure::verify] *)
Definition RunFailure_verify (f : RunFailure) : core () :=
  _ ← validate_failure_code (failure_code f);
  ArtifactRef_validate (failure_detail f).

Inductive Command :=
| StartRun (plan_id binding_context : string) (input : ArtifactRef)
    (material_digest : string) (initial_attempt : InitialAttemptSpec)
| BeginAttempt (attempt_id continuation_id occurrence_binding : string)
    (continuation_epoch execution_fence : N)
| YieldAttempt (attempt_id : string) (continuation_epoch execution_fence : N)
| AdvanceEpoch
| OpenScope (scope_id parent_scope invocation_id : string)
    (invocation_path : list InvocationPathSegment) (definition_id : string)
    (region_path : list nat) (site_id : string)
| ProposeEffect (scope_id invocation_id : string)
    (invocation_path : list InvocationPathSegment) (definition_id : string)
    (region_path : list nat) (site_id occurrence operation : string)
    (args execution_binding : ArtifactRef) (occurrence_binding : string)
| TransitionEffect (intent_id : string) (transition : EffectTransition)
| CommitScope (scope_id : string)
| AbortScope (scope_id : string)
| UpdateBinding (binding_context : string)
| MigrateRun (from_plan to_plan from_binding to_binding safe_point_id : string)
    (target_epoch : N) (target_continuation_digest : string)
| RecordFact (key value : string)
| CompleteRun (result : option ArtifactRef)
| FailRun (failure : RunFailure)
| CancelRun (reason : ArtifactRef).
#[export] Instance Command_eq_dec : EqDecision Command.
Proof. solve_decision. Defined.

Record CommandEnvelope := {
  command_version : string;
  command_id : string;
  actor : string;
  env_run_id : string;
  expected_precondition : option string;
  command : Command;
}.
#[export] Instance CommandEnvelope_eq_dec : EqDecision CommandEnvelope.
Proof. solve_decision. Defined.

Inductive EventPayload :=
| RunStarted (plan_id entry_definition binding_context : string) (input : ArtifactRef)
| AttemptStarted (attempt_id continuation_id occurrence_binding : string)
    (continuation_epoch execution_fence : N)
| AttemptYielded (attempt_id : string) (continuation_epoch execution_fence : N)
| EpochAdvanced (epoch : N)
| ScopeOpened (scope_id parent_scope invocation_id : string)
    (invocation_path : list InvocationPathSegment) (definition_id : string)
    (region_path : list nat) (site_id : string)
| EffectProposed (intent_id origin_plan_id scope_id invocation_id : string)
    (invocation_path : list InvocationPathSegment) (definition_id : string)
    (region_path : list nat) (site_id occurrence effect_schema_version operation : string)
    (profile : EffectProfile) (args execution_binding : ArtifactRef)
    (occurrence_binding : string)
| EffectTransitioned (intent_id : string) (transition : EffectTransition)
| ScopeCommitted (scope_id : string) (obligation_count : N) (obligation_commitment : string)
| ScopeAborted (scope_id : string)
| BindingUpdated (previous current : string)
| RunMigrated (from_plan to_plan from_binding to_binding safe_point_id : string)
    (target_epoch : N) (target_continuation_digest : string)
| FactRecorded (key value : string)
| RunCompleted (result : option ArtifactRef)
| RunFailed (failure : RunFailure) (epoch : N)
| RunCancelled (reason : ArtifactRef) (epoch : N).
#[export] Instance EventPayload_eq_dec : EqDecision EventPayload.
Proof. solve_decision. Defined.

Record Event := {
  event_id : string;
  event_version : string;
  ev_command_id : string;
  ev_command_hash : string;
  ev_run_id : string;
  parents : list string;
  reads : gset string;
  writes : gset string;
  coordination_key : option string;
  payload : EventPayload;
}.
#[export] Instance Event_eq_dec : EqDecision Event.
Proof. solve_decision. Defined.

(** ** Projections *)

Inductive ScopeStatus := Open | ClosedCommitted | ClosedAborted.
#[export] Instance ScopeStatus_eq_dec : EqDecision ScopeStatus.
Proof. solve_decision. Defined.

Record ScopeProjection := {
  scope_id : string;
  parent_scope : option string;
  scope_invocation_id : string;
  scope_invocation_path : list InvocationPathSegment;
  scope_definition_id : string;
  scope_region_path : list nat;
  scope_site_id : option string;
  scope_status : ScopeStatus;
  intents : gset string;
  intent_order : list string;
}.
#[export] Instance ScopeProjection_eq_dec : EqDecision ScopeProjection.
Proof. solve_decision. Defined.

Record EffectProjection := {
  intent_id : string;
  origin_plan_id : string;
  effect_scope_id : string;
  effect_invocation_id : string;
  effect_invocation_path : list InvocationPathSegment;
  effect_definition_id : string;
  effect_region_path : list nat;
  effect_site_id : string;
  effect_occurrence : string;
  effect_schema_version : string;
  effect_operation : string;
  profile : EffectProfile;
  args : ArtifactRef;
  execution_binding : ArtifactRef;
  effect_occurrence_binding : string;
  execution_availability : EffectExecutionAvailability;
  phase : EffectPhase;
  outcome : WorldOutcome;
  reconciliation : ReconciliationState;
}.
#[export] Instance EffectProjection_eq_dec : EqDecision EffectProjection.
Proof. solve_decision. Defined.

Record ObligationProjection := {
  obligation_id : string;
  obligation_intent_id : string;
  blocking : bool;
  resolved : bool;
}.
#[export] Instance ObligationProjection_eq_dec : EqDecision ObligationProjection.
Proof. solve_decision. Defined.

Record AttemptProjection := {
  attempt_id : string;
  continuation_id : string;
  occurrence_binding : string;
  continuation_epoch : N;
  execution_fence : N;
  active : bool;
}.
#[export] Instance AttemptProjection_eq_dec : EqDecision AttemptProjection.
Proof. solve_decision. Defined.

Inductive RunExecutionStatus :=
| Active
| Completed
| Failed (failure : RunFailure)
| Cancelled (reason : ArtifactRef).
#[export] Instance RunExecutionStatus_eq_dec : EqDecision RunExecutionStatus.
Proof. solve_decision. Defined.

Inductive WorldSettlementStatus :=
| Settled | SettlementPending | SettlementUnknown | SettlementGovernanceRequired.
#[export] Instance WorldSettlementStatus_eq_dec : EqDecision WorldSettlementStatus.
Proof. solve_decision. Defined.

Record OpenScopeEffectIndex := {
  all_intents : gset string;
  all_intent_order : list string;
  mutating_intents : gset string;
  mutating_intent_order : list string;
  abort_transition_intents : gset string;
  abort_blockers : gset string;
}.
#[export] Instance OpenScopeEffectIndex_eq_dec : EqDecision OpenScopeEffectIndex.
Proof. solve_decision. Defined.

Record RunDerivedIndex := {
  initialized : bool;
  active_attempt : option string;
  governance_effects : gset string;
  unknown_effects : gset string;
  pending_effects : gset string;
  terminal_transition_effects : gset string;
  unresolved_blocking_obligations : gset string;
  obligation_by_intent : gmap string (gset string);
  open_descendants : gmap string N;
  open_scope_ids : gset string;
  open_scope_effects : gmap string OpenScopeEffectIndex;
  effect_count_by_scope : gmap string N;
  committed_effect_count : N;
}.
#[export] Instance RunDerivedIndex_eq_dec : EqDecision RunDerivedIndex.
Proof. solve_decision. Defined.

Record RunProjection := {
  run_id : string;
  initial_plan : string;
  current_plan : string;
  plan_lineage : list string;
  initial_binding_context : string;
  current_binding_context : string;
  binding_lineage : list string;
  epoch : N;
  execution_status : RunExecutionStatus;
  world_settlement : WorldSettlementStatus;
  scopes : gmap string ScopeProjection;
  effects : gmap string EffectProjection;
  obligations : gmap string ObligationProjection;
  attempts : gmap string AttemptProjection;
  run_result : option ArtifactRef;
  last_event : string;
  derived : RunDerivedIndex;
}.
#[export] Instance RunProjection_eq_dec : EqDecision RunProjection.
Proof. solve_decision. Defined.

Record Projection := {
  runs : gmap string RunProjection;
  facts : gmap string string;
}.
#[export] Instance Projection_eq_dec : EqDecision Projection.
Proof. solve_decision. Defined.

(** [Projection::default] *)
Definition empty_projection : Projection := {| runs := ∅; facts := ∅ |}.

(** ** Field updates ([run.field = ...]) *)

Definition set_scope_status (v : ScopeStatus) (s : ScopeProjection) : ScopeProjection :=
  {| scope_id := scope_id s; parent_scope := parent_scope s;
     scope_invocation_id := scope_invocation_id s;
     scope_invocation_path := scope_invocation_path s;
     scope_definition_id := scope_definition_id s; scope_region_path := scope_region_path s;
     scope_site_id := scope_site_id s; scope_status := v;
     intents := intents s; intent_order := intent_order s |}.
Definition add_scope_intent (i : string) (s : ScopeProjection) : ScopeProjection :=
  {| scope_id := scope_id s; parent_scope := parent_scope s;
     scope_invocation_id := scope_invocation_id s;
     scope_invocation_path := scope_invocation_path s;
     scope_definition_id := scope_definition_id s; scope_region_path := scope_region_path s;
     scope_site_id := scope_site_id s; scope_status := scope_status s;
     intents := {[i]} ∪ intents s; intent_order := intent_order s ++ [i] |}.
Definition set_effect_state (av : EffectExecutionAvailability) (p : EffectPhase)
    (o : WorldOutcome) (rc : ReconciliationState) (e : EffectProjection) : EffectProjection :=
  {| intent_id := intent_id e; origin_plan_id := origin_plan_id e;
     effect_scope_id := effect_scope_id e; effect_invocation_id := effect_invocation_id e;
     effect_invocation_path := effect_invocation_path e;
     effect_definition_id := effect_definition_id e; effect_region_path := effect_region_path e;
     effect_site_id := effect_site_id e; effect_occurrence := effect_occurrence e;
     effect_schema_version := effect_schema_version e; effect_operation := effect_operation e;
     profile := profile e; args := args e; execution_binding := execution_binding e;
     effect_occurrence_binding := effect_occurrence_binding e;
     execution_availability := av; phase := p; outcome := o; reconciliation := rc |}.
Definition set_resolved (b : bool) (o : ObligationProjection) : ObligationProjection :=
  {| obligation_id := obligation_id o; obligation_intent_id := obligation_intent_id o;
     blocking := blocking o; resolved := b |}.
Definition set_active (b : bool) (a : AttemptProjection) : AttemptProjection :=
  {| attempt_id := attempt_id a; continuation_id := continuation_id a;
     occurrence_binding := occurrence_binding a; continuation_epoch := continuation_epoch a;
     execution_fence := execution_fence a; active := b |}.

Definition set_current_plan v (r : RunProjection) : RunProjection :=
  Build_RunProjection (run_id r) (initial_plan r) v (plan_lineage r)
    (initial_binding_context r) (current_binding_context r) (binding_lineage r) (epoch r)
    (execution_status r) (world_settlement r) (scopes r) (effects r) (obligations r)
    (attempts r) (run_result r) (last_event r) (derived r).
Definition set_plan_lineage v (r : RunProjection) : RunProjection :=
  Build_RunProjection (run_id r) (initial_plan r) (current_plan r) v
    (initial_binding_context r) (current_binding_context r) (binding_lineage r) (epoch r)
    (execution_status r) (world_settlement r) (scopes r) (effects r) (obligations r)
    (attempts r) (run_result r) (last_event r) (derived r).
Definition set_current_binding_context v (r : RunProjection) : RunProjection :=
  Build_RunProjection (run_id r) (initial_plan r) (current_plan r) (plan_lineage r)
    (initial_binding_context r) v (binding_lineage r) (epoch r) (execution_status r)
    (world_settlement r) (scopes r) (effects r) (obligations r) (attempts r) (run_result r)
    (last_event r) (derived r).
Definition set_binding_lineage v (r : RunProjection) : RunProjection :=
  Build_RunProjection (run_id r) (initial_plan r) (current_plan r) (plan_lineage r)
    (initial_binding_context r) (current_binding_context r) v (epoch r) (execution_status r)
    (world_settlement r) (scopes r) (effects r) (obligations r) (attempts r) (run_result r)
    (last_event r) (derived r).
Definition set_epoch v (r : RunProjection) : RunProjection :=
  Build_RunProjection (run_id r) (initial_plan r) (current_plan r) (plan_lineage r)
    (initial_binding_context r) (current_binding_context r) (binding_lineage r) v
    (execution_status r) (world_settlement r) (scopes r) (effects r) (obligations r)
    (attempts r) (run_result r) (last_event r) (derived r).
Definition set_execution_status v (r : RunProjection) : RunProjection :=
  Build_RunProjection (run_id r) (initial_plan r) (current_plan r) (plan_lineage r)
    (initial_binding_context r) (current_binding_context r) (binding_lineage r) (epoch r) v
    (world_settlement r) (scopes r) (effects r) (obligations r) (attempts r) (run_result r)
    (last_event r) (derived r).
Definition set_world_settlement v (r : RunProjection) : RunProjection :=
  Build_RunProjection (run_id r) (initial_plan r) (current_plan r) (plan_lineage r)
    (initial_binding_context r) (current_binding_context r) (binding_lineage r) (epoch r)
    (execution_status r) v (scopes r) (effects r) (obligations r) (attempts r) (run_result
    r) (last_event r) (derived r).
Definition set_scopes v (r : RunProjection) : RunProjection :=
  Build_RunProjection (run_id r) (initial_plan r) (current_plan r) (plan_lineage r)
    (initial_binding_context r) (current_binding_context r) (binding_lineage r) (epoch r)
    (execution_status r) (world_settlement r) v (effects r) (obligations r) (attempts r)
    (run_result r) (last_event r) (derived r).
Definition set_effects v (r : RunProjection) : RunProjection :=
  Build_RunProjection (run_id r) (initial_plan r) (current_plan r) (plan_lineage r)
    (initial_binding_context r) (current_binding_context r) (binding_lineage r) (epoch r)
    (execution_status r) (world_settlement r) (scopes r) v (obligations r) (attempts r)
    (run_result r) (last_event r) (derived r).
Definition set_obligations v (r : RunProjection) : RunProjection :=
  Build_RunProjection (run_id r) (initial_plan r) (current_plan r) (plan_lineage r)
    (initial_binding_context r) (current_binding_context r) (binding_lineage r) (epoch r)
    (execution_status r) (world_settlement r) (scopes r) (effects r) v (attempts r)
    (run_result r) (last_event r) (derived r).
Definition set_attempts v (r : RunProjection) : RunProjection :=
  Build_RunProjection (run_id r) (initial_plan r) (current_plan r) (plan_lineage r)
    (initial_binding_context r) (current_binding_context r) (binding_lineage r) (epoch r)
    (execution_status r) (world_settlement r) (scopes r) (effects r) (obligations r) v
    (run_result r) (last_event r) (derived r).
Definition set_run_result v (r : RunProjection) : RunProjection :=
  Build_RunProjection (run_id r) (initial_plan r) (current_plan r) (plan_lineage r)
    (initial_binding_context r) (current_binding_context r) (binding_lineage r) (epoch r)
    (execution_status r) (world_settlement r) (scopes r) (effects r) (obligations r)
    (attempts r) v (last_event r) (derived r).
Definition set_last_event v (r : RunProjection) : RunProjection :=
  Build_RunProjection (run_id r) (initial_plan r) (current_plan r) (plan_lineage r)
    (initial_binding_context r) (current_binding_context r) (binding_lineage r) (epoch r)
    (execution_status r) (world_settlement r) (scopes r) (effects r) (obligations r)
    (attempts r) (run_result r) v (derived r).
Definition set_derived v (r : RunProjection) : RunProjection :=
  Build_RunProjection (run_id r) (initial_plan r) (current_plan r) (plan_lineage r)
    (initial_binding_context r) (current_binding_context r) (binding_lineage r) (epoch r)
    (execution_status r) (world_settlement r) (scopes r) (effects r) (obligations r)
    (attempts r) (run_result r) (last_event r) v.
Definition set_active_attempt v (r : RunDerivedIndex) : RunDerivedIndex :=
  Build_RunDerivedIndex (initialized r) v (governance_effects r) (unknown_effects r)
    (pending_effects r) (terminal_transition_effects r) (unresolved_blocking_obligations r)
    (obligation_by_intent r) (open_descendants r) (open_scope_ids r) (open_scope_effects r)
    (effect_count_by_scope r) (committed_effect_count r).
Definition set_governance_effects v (r : RunDerivedIndex) : RunDerivedIndex :=
  Build_RunDerivedIndex (initialized r) (active_attempt r) v (unknown_effects r)
    (pending_effects r) (terminal_transition_effects r) (unresolved_blocking_obligations r)
    (obligation_by_intent r) (open_descendants r) (open_scope_ids r) (open_scope_effects r)
    (effect_count_by_scope r) (committed_effect_count r).
Definition set_unknown_effects v (r : RunDerivedIndex) : RunDerivedIndex :=
  Build_RunDerivedIndex (initialized r) (active_attempt r) (governance_effects r) v
    (pending_effects r) (terminal_transition_effects r) (unresolved_blocking_obligations r)
    (obligation_by_intent r) (open_descendants r) (open_scope_ids r) (open_scope_effects r)
    (effect_count_by_scope r) (committed_effect_count r).
Definition set_pending_effects v (r : RunDerivedIndex) : RunDerivedIndex :=
  Build_RunDerivedIndex (initialized r) (active_attempt r) (governance_effects r)
    (unknown_effects r) v (terminal_transition_effects r) (unresolved_blocking_obligations
    r) (obligation_by_intent r) (open_descendants r) (open_scope_ids r) (open_scope_effects
    r) (effect_count_by_scope r) (committed_effect_count r).
Definition set_terminal_transition_effects v (r : RunDerivedIndex) : RunDerivedIndex :=
  Build_RunDerivedIndex (initialized r) (active_attempt r) (governance_effects r)
    (unknown_effects r) (pending_effects r) v (unresolved_blocking_obligations r)
    (obligation_by_intent r) (open_descendants r) (open_scope_ids r) (open_scope_effects r)
    (effect_count_by_scope r) (committed_effect_count r).
Definition set_unresolved_blocking_obligations v (r : RunDerivedIndex) : RunDerivedIndex :=
  Build_RunDerivedIndex (initialized r) (active_attempt r) (governance_effects r)
    (unknown_effects r) (pending_effects r) (terminal_transition_effects r) v
    (obligation_by_intent r) (open_descendants r) (open_scope_ids r) (open_scope_effects r)
    (effect_count_by_scope r) (committed_effect_count r).
Definition set_obligation_by_intent v (r : RunDerivedIndex) : RunDerivedIndex :=
  Build_RunDerivedIndex (initialized r) (active_attempt r) (governance_effects r)
    (unknown_effects r) (pending_effects r) (terminal_transition_effects r)
    (unresolved_blocking_obligations r) v (open_descendants r) (open_scope_ids r)
    (open_scope_effects r) (effect_count_by_scope r) (committed_effect_count r).
Definition set_open_descendants v (r : RunDerivedIndex) : RunDerivedIndex :=
  Build_RunDerivedIndex (initialized r) (active_attempt r) (governance_effects r)
    (unknown_effects r) (pending_effects r) (terminal_transition_effects r)
    (unresolved_blocking_obligations r) (obligation_by_intent r) v (open_scope_ids r)
    (open_scope_effects r) (effect_count_by_scope r) (committed_effect_count r).
Definition set_open_scope_ids v (r : RunDerivedIndex) : RunDerivedIndex :=
  Build_RunDerivedIndex (initialized r) (active_attempt r) (governance_effects r)
    (unknown_effects r) (pending_effects r) (terminal_transition_effects r)
    (unresolved_blocking_obligations r) (obligation_by_intent r) (open_descendants r) v
    (open_scope_effects r) (effect_count_by_scope r) (committed_effect_count r).
Definition set_open_scope_effects v (r : RunDerivedIndex) : RunDerivedIndex :=
  Build_RunDerivedIndex (initialized r) (active_attempt r) (governance_effects r)
    (unknown_effects r) (pending_effects r) (terminal_transition_effects r)
    (unresolved_blocking_obligations r) (obligation_by_intent r) (open_descendants r)
    (open_scope_ids r) v (effect_count_by_scope r) (committed_effect_count r).
Definition set_effect_count_by_scope v (r : RunDerivedIndex) : RunDerivedIndex :=
  Build_RunDerivedIndex (initialized r) (active_attempt r) (governance_effects r)
    (unknown_effects r) (pending_effects r) (terminal_transition_effects r)
    (unresolved_blocking_obligations r) (obligation_by_intent r) (open_descendants r)
    (open_scope_ids r) (open_scope_effects r) v (committed_effect_count r).
Definition set_committed_effect_count v (r : RunDerivedIndex) : RunDerivedIndex :=
  Build_RunDerivedIndex (initialized r) (active_attempt r) (governance_effects r)
    (unknown_effects r) (pending_effects r) (terminal_transition_effects r)
    (unresolved_blocking_obligations r) (obligation_by_intent r) (open_descendants r)
    (open_scope_ids r) (open_scope_effects r) (effect_count_by_scope r) v.
Definition set_all_intents v (r : OpenScopeEffectIndex) : OpenScopeEffectIndex :=
  Build_OpenScopeEffectIndex v (all_intent_order r) (mutating_intents r)
    (mutating_intent_order r) (abort_transition_intents r) (abort_blockers r).
Definition set_all_intent_order v (r : OpenScopeEffectIndex) : OpenScopeEffectIndex :=
  Build_OpenScopeEffectIndex (all_intents r) v (mutating_intents r) (mutating_intent_order
    r) (abort_transition_intents r) (abort_blockers r).
Definition set_mutating_intents v (r : OpenScopeEffectIndex) : OpenScopeEffectIndex :=
  Build_OpenScopeEffectIndex (all_intents r) (all_intent_order r) v (mutating_intent_order
    r) (abort_transition_intents r) (abort_blockers r).
Definition set_mutating_intent_order v (r : OpenScopeEffectIndex) : OpenScopeEffectIndex :=
  Build_OpenScopeEffectIndex (all_intents r) (all_intent_order r) (mutating_intents r) v
    (abort_transition_intents r) (abort_blockers r).
Definition set_abort_transition_intents v (r : OpenScopeEffectIndex) : OpenScopeEffectIndex :=
  Build_OpenScopeEffectIndex (all_intents r) (all_intent_order r) (mutating_intents r)
    (mutating_intent_order r) v (abort_blockers r).
Definition set_abort_blockers v (r : OpenScopeEffectIndex) : OpenScopeEffectIndex :=
  Build_OpenScopeEffectIndex (all_intents r) (all_intent_order r) (mutating_intents r)
    (mutating_intent_order r) (abort_transition_intents r) v.

(** The [Default] values of the two index types. *)
Definition default_open_scope_index : OpenScopeEffectIndex :=
  {| all_intents := ∅; all_intent_order := []; mutating_intents := ∅;
     mutating_intent_order := []; abort_transition_intents := ∅; abort_blockers := ∅ |}.
Definition default_index : RunDerivedIndex :=
  {| initialized := false; active_attempt := None; governance_effects := ∅;
     unknown_effects := ∅; pending_effects := ∅; terminal_transition_effects := ∅;
     unresolved_blocking_obligations := ∅; obligation_by_intent := ∅; open_descendants := ∅;
     open_scope_ids := ∅; open_scope_effects := ∅; effect_count_by_scope := ∅;
     committed_effect_count := 0 |}.

(** [ArtifactRecord] and its [validate] *)
Record ArtifactRecord := {
  reference : ArtifactRef;
  artifact_bytes : string;
}.
#[export] Instance ArtifactRecord_eq_dec : EqDecision ArtifactRecord.
Proof. solve_decision. Defined.
Definition ArtifactRecord_validate `{Sha256} (a : ArtifactRecord) : core () :=
  _ ← ArtifactRef_validate (reference a);
  expected ← artifact_ref (artifact_kind (reference a)) (artifact_bytes a);
  require (bool_decide (expected = reference a)) IdentityMismatch.

(** ** Structural identities

    The values that are content-addressed.  Their serialisers are derived. *)
Inductive Preimage :=
| PreEffectIntent (run_id plan_id invocation_id site_id scope_id occurrence : string)
    (args : ArtifactRef) (effect_schema_version : string)
| PreInvocation (run_id plan_id entry_definition : string) (path : list InvocationPathSegment)
| PreScope (run_id plan_id invocation_id definition_id : string) (body_region_path : list nat)
| PreObligation (intent_id : string)
| PreCommitmentGenesis
| PreCommitmentAppend (parent : string) (obligation : ObligationProjection)
| PreEvent (event_version command_id command_hash run_id : string) (parents : list string)
    (reads writes : gset string) (coordination_key : option string) (payload : EventPayload)
| PreEnvelope (envelope : CommandEnvelope)
| PreProjectionGenesis
| PreProjectionRoot (projection_root event_id : string)
| PrePlan (plan : SealedPlan)
| PreArtifact (artifact : ArtifactRecord)
| PreMaterial (source_command_id : string) (plans : list SealedPlan)
    (artifacts : list ArtifactRecord).

Class Canonical `{JsonLibrary} := { serialize : Preimage → Ser }.

Section Identities.
Context `{Sha256} `{Canonical}.

(** [canonical.rs: content_id] *)
Definition content_id (domain : string) (v : Preimage) : core string :=
  content_id_of domain (serialize v).

(** [canonical.rs: canonical_digest] *)
Definition canonical_digest (v : Preimage) : core string := canonical_digest_of (serialize v).

Definition effect_intent_id (run_id plan_id invocation_id site_id scope_id occurrence : string)
    (args : ArtifactRef) (schema : string) : core string :=
  _ ← validate_effect_args_reference args;
  content_id EFFECT_INTENT_ID_DOMAIN
    (PreEffectIntent run_id plan_id invocation_id site_id scope_id occurrence args schema).

Definition plan_invocation_id (run_id plan_id entry_definition : string)
    (path : list InvocationPathSegment) : core string :=
  content_id INVOCATION_ID_DOMAIN (PreInvocation run_id plan_id entry_definition path).

Definition plan_scope_id (run_id plan_id invocation_id definition_id : string)
    (body_region_path : list nat) : core string :=
  content_id SCOPE_ID_DOMAIN
    (PreScope run_id plan_id invocation_id definition_id body_region_path).

Definition effect_obligation_id (intent_id : string) : core string :=
  content_id EFFECT_OBLIGATION_ID_DOMAIN (PreObligation intent_id).

Lemma content_id_is_valid domain v i : content_id domain v = Ok i → validate_content_id i = Ok ().
Proof. unfold content_id, content_id_of. intros Hc. inv_ok. apply content_id_valid. Qed.
End Identities.

(** [RunProjection::precondition_token], with [u64] printed in decimal. *)
Definition precondition_token (r : RunProjection) : string :=
  "pre:" +:+ pretty.pretty (epoch r) +:+ ":" +:+ last_event r.
