(* ===== verification/Events.v ===== *)
(** * Events: construction, verification and footprints

    Models [Event::new] and [Event::verify] of
    [crates/cymule-core/src/model.rs], and the semantic footprints and the
    command/event correspondence of [machine.rs]. *)

From S2P Require Import Prelude Identity Ir Model.

(** [parents.dedup()]: drops an element equal to its successor. *)
Fixpoint dedup (l : list string) : list string :=
  match l with
  | a :: ((b :: _) as l') => if decide (a = b) then dedup l' else a :: dedup l'
  | _ => l
  end.

(** No pair of neighbours with [pair[0] >= pair[1]]. *)
Fixpoint strictly_sorted (l : list string) : bool :=
  match l with
  | a :: l' => match l' with b :: _ => negb (String.leb b a) | [] => true end && strictly_sorted l'
  | [] => true
  end.

Record EventContent := {
  c_command_id : string;
  c_command_hash : string;
  c_run_id : string;
  c_parents : list string;
  c_reads : gset string;
  c_writes : gset string;
  c_coordination_key : option string;
  c_payload : EventPayload;
}.

(** [validate_event_header] *)
Definition validate_event_header (command_id command_hash run_id : string) : core () :=
  _ ← validate_identity command_id;
  _ ← validate_identity run_id;
  if negb (byte_len command_hash =? 64)%N || negb (all_bytes is_lower_hex command_hash)
  then Err Validation else Ok ().

Section Events.
Context `{Sha256} `{Canonical}.

Definition event_preimage_id (event_version command_id command_hash run_id : string)
    (parents : list string) (reads writes : gset string) (key : option string)
    (payload : EventPayload) : core string :=
  content_id EVENT_VERSION
    (PreEvent event_version command_id command_hash run_id parents reads writes key payload).

(** [Event::new] *)
Definition Event_new (c : EventContent) : core Event :=
  _ ← validate_event_header (c_command_id c) (c_command_hash c) (c_run_id c);
  let parents := dedup (merge_sort str_le (c_parents c)) in
  _ ← try_each validate_content_id parents;
  id ← event_preimage_id EVENT_VERSION (c_command_id c) (c_command_hash c) (c_run_id c) parents
         (c_reads c) (c_writes c) (c_coordination_key c) (c_payload c);
  Ok {| event_id := id; event_version := EVENT_VERSION; ev_command_id := c_command_id c;
        ev_command_hash := c_command_hash c; ev_run_id := c_run_id c; parents := parents;
        reads := c_reads c; writes := c_writes c; coordination_key := c_coordination_key c;
        payload := c_payload c |}.

(** The payload checks of [Event::verify]. *)
Definition verify_payload (p : EventPayload) : core () :=
  match p with
  | RunStarted _ _ _ input =>
      _ ← ArtifactRef_validate input;
      require (bool_decide (artifact_kind input = RUN_INPUT_ARTIFACT_KIND)) Validation
  | EffectProposed _ _ _ _ _ _ _ _ _ _ _ _ arguments binding _ =>
      _ ← validate_effect_args_reference arguments;
      _ ← ArtifactRef_validate binding;
      require (bool_decide (artifact_kind binding = EXECUTION_BINDING_ARTIFACT_KIND)) Validation
  | ScopeCommitted _ count commitment =>
      _ ← require (count <=? MAX_EXACT_INTEGER)%N Validation;
      validate_content_id commitment
  | RunCompleted (Some result) => ArtifactRef_validate result
  | RunFailed failure _ => RunFailure_verify failure
  | RunCancelled reason _ => ArtifactRef_validate reason
  | FactRecorded key value =>
      _ ← validate_identity key;
      validate_content_id value
  | _ => Ok ()
  end.

(** [Event::verify] *)
Definition Event_verify (e : Event) : core () :=
  _ ← require (bool_decide (event_version e = EVENT_VERSION)) Validation;
  _ ← validate_event_header (ev_command_id e) (ev_command_hash e) (ev_run_id e);
  _ ← require (strictly_sorted (parents e)) Validation;
  _ ← try_each validate_content_id (parents e);
  _ ← verify_payload (payload e);
  expected ← event_preimage_id (event_version e) (ev_command_id e) (ev_command_hash e)
               (ev_run_id e) (parents e) (reads e) (writes e) (coordination_key e) (payload e);
  require (bool_decide (expected = event_id e)) IdentityMismatch.
End Events.

(** ** Footprints *)

Definition run_key (rid : string) : string := "run:" +:+ rid.
Definition fact_key (key : string) : string := "fact:" +:+ key.
Definition effect_key (rid iid : string) : string := "effect:" +:+ rid +:+ ":" +:+ iid.
Definition scope_key (rid sid : string) : string := "scope:" +:+ rid +:+ ":" +:+ sid.
Definition tree_key (rid : string) : string := "scope-tree:" +:+ rid.
Definition attempt_key (rid aid : string) : string := "attempt:" +:+ rid +:+ ":" +:+ aid.

(** [footprints]: the reads, the writes and the coordination key of a payload. *)
Definition footprints (rid : string) (p : EventPayload)
    : gset string * gset string * option string :=
  match p with
  | RunStarted _ _ _ _ => (∅, {[run_key rid]}, Some (run_key rid))
  | FactRecorded key _ => ({[fact_key key]}, {[fact_key key]}, Some (fact_key key))
  | EffectProposed iid _ sid _ _ _ _ _ _ _ _ _ _ _ _ =>
      ({[run_key rid; scope_key rid sid]},
       {[effect_key rid iid; scope_key rid sid; tree_key rid]}, Some (tree_key rid))
  | EffectTransitioned iid _ =>
      ({[run_key rid; effect_key rid iid]}, {[effect_key rid iid]}, Some (effect_key rid iid))
  | ScopeOpened sid parent _ _ _ _ _ =>
      ({[run_key rid; scope_key rid parent]},
       {[scope_key rid parent; scope_key rid sid; tree_key rid]}, Some (tree_key rid))
  | ScopeCommitted sid _ _ | ScopeAborted sid =>
      ({[run_key rid; scope_key rid sid]}, {[scope_key rid sid; tree_key rid]},
       Some (tree_key rid))
  | AttemptStarted aid _ _ _ _ | AttemptYielded aid _ _ =>
      ({[run_key rid]}, {[attempt_key rid aid]}, Some (attempt_key rid aid))
  | EpochAdvanced _ | BindingUpdated _ _ | RunMigrated _ _ _ _ _ _ _ | RunCompleted _
  | RunFailed _ _ | RunCancelled _ _ =>
      ({[run_key rid]}, {[run_key rid]}, Some (run_key rid))
  end.

(** [verify_event_footprint] *)
Definition verify_event_footprint (e : Event) : core () :=
  let '(r, w, k) := footprints (ev_run_id e) (payload e) in
  require (bool_decide (reads e = r) && bool_decide (writes e = w)
           && bool_decide (coordination_key e = k)) IdentityMismatch.

(** ** Correspondence of a command and its event *)

(** [command_matches_attempt_event] *)
Definition command_matches_attempt_event (c : Command) (p : EventPayload) : bool :=
  match c, p with
  | StartRun plan binding input _ _, RunStarted plan' _ binding' input' =>
      bool_decide (plan = plan') && bool_decide (binding = binding') && bool_decide (input = input')
  | StartRun _ _ _ _ a, AttemptStarted aid cid occ ep fence =>
      bool_decide (ia_attempt_id a = aid) && bool_decide (ia_continuation_id a = cid)
      && bool_decide (ia_occurrence_binding a = occ) && bool_decide (ia_continuation_epoch a = ep)
      && bool_decide (ia_execution_fence a = fence)
  | BeginAttempt aid cid occ ep fence, AttemptStarted aid' cid' occ' ep' fence' =>
      bool_decide (aid = aid') && bool_decide (cid = cid') && bool_decide (occ = occ')
      && bool_decide (ep = ep') && bool_decide (fence = fence')
  | YieldAttempt aid ep fence, AttemptYielded aid' ep' fence' =>
      bool_decide (aid = aid') && bool_decide (ep = ep') && bool_decide (fence = fence')
  | AdvanceEpoch, EpochAdvanced _ => true
  | _, _ => false
  end.

(** [command_matches_scope_event]; a path of [usize::MAX] steps does not exist
    in memory, so [checked_add] on its length succeeds. *)
Definition command_matches_scope_event (c : Command) (p : EventPayload) : bool :=
  match c, p with
  | OpenScope sid parent iid path did rpath site, ScopeOpened sid' parent' iid' path' did' rpath' site' =>
      bool_decide (sid = sid') && bool_decide (parent = parent') && bool_decide (iid = iid')
      && bool_decide (path = path') && bool_decide (did = did')
      && bool_decide (length rpath' = length rpath + 1)
      && bool_decide (take (length rpath) rpath' = rpath) && bool_decide (site = site')
  | CommitScope sid, ScopeCommitted sid' _ _ => bool_decide (sid = sid')
  | AbortScope sid, ScopeAborted sid' => bool_decide (sid = sid')
  | _, _ => false
  end.

(** [command_matches_effect_event] *)
Definition command_matches_effect_event (c : Command) (p : EventPayload) : bool :=
  match c, p with
  | ProposeEffect sid iid path did rpath site occ op arguments binding occ_binding,
    EffectProposed _ _ sid' iid' path' did' rpath' site' occ' _ op' _ arguments' binding'
      occ_binding' =>
      bool_decide (sid = sid') && bool_decide (iid = iid') && bool_decide (path = path')
      && bool_decide (did = did') && bool_decide (rpath = rpath') && bool_decide (site = site')
      && bool_decide (occ = occ') && bool_decide (op = op')
      && bool_decide (arguments = arguments') && bool_decide (binding = binding')
      && bool_decide (occ_binding = occ_binding')
  | TransitionEffect iid t, EffectTransitioned iid' t' =>
      bool_decide (iid = iid') && bool_decide (t = t')
  | _, _ => false
  end.

(** [command_matches_run_control_event] *)
Definition command_matches_run_control_event (c : Command) (p : EventPayload) : bool :=
  match c, p with
  | UpdateBinding binding, BindingUpdated _ current => bool_decide (binding = current)
  | MigrateRun fp tp fb tb sp ep d, RunMigrated fp' tp' fb' tb' sp' ep' d' =>
      bool_decide (fp = fp') && bool_decide (tp = tp') && bool_decide (fb = fb')
      && bool_decide (tb = tb') && bool_decide (sp = sp') && bool_decide (ep = ep')
      && bool_decide (d = d')
  | RecordFact k v, FactRecorded k' v' => bool_decide (k = k') && bool_decide (v = v')
  | CompleteRun r, RunCompleted r' => bool_decide (r = r')
  | FailRun f, RunFailed f' _ => bool_decide (f = f')
  | CancelRun r, RunCancelled r' _ => bool_decide (r = r')
  | _, _ => false
  end.

(** [command_matches_event] *)
Definition command_matches_event (c : Command) (p : EventPayload) : bool :=
  match c with
  | StartRun _ _ _ _ _ | BeginAttempt _ _ _ _ _ | YieldAttempt _ _ _ | AdvanceEpoch =>
      command_matches_attempt_event c p
  | OpenScope _ _ _ _ _ _ _ | CommitScope _ | AbortScope _ => command_matches_scope_event c p
  | ProposeEffect _ _ _ _ _ _ _ _ _ _ _ | TransitionEffect _ _ => command_matches_effect_event c p
  | UpdateBinding _ | MigrateRun _ _ _ _ _ _ _ | RecordFact _ _ | CompleteRun _ | FailRun _
  | CancelRun _ => command_matches_run_control_event c p
  end.

(** ** Lemmas *)

Lemma dedup_cons a b l :
  dedup (a :: b :: l) = if decide (a = b) then dedup (b :: l) else a :: dedup (b :: l).
Proof. done. Qed.
Lemma dedup_head l : head (dedup l) = head l.
Proof.
  induction l as [|a [|b l] IH]; [done|done|]. rewrite dedup_cons.
  case_decide; [by subst|done].
Qed.

Lemma str_le_antisym a b : str_le a b → str_le b a → a = b.
Proof.
  unfold str_le, String.leb. rewrite (String.compare_antisym a b).
  destruct (String.compare b a) eqn:Hc; try done. intros _ _. symmetry. by apply String.compare_eq_iff.
Qed.
#[export] Instance str_le_total : Total str_le.
Proof.
  intros a b. unfold str_le, String.leb. rewrite (String.compare_antisym a b).
  destruct (String.compare b a); cbn; auto.
Qed.

(** Sorting and removing neighbouring duplicates gives strictly sorted parents. *)
Lemma dedup_strict l : Sorted str_le l → strictly_sorted (dedup l) = true.
Proof.
  induction l as [|a [|b l] IH]; intros Hs; [done|done|].
  inversion Hs as [|? ? Hs' Hhd]; subst. inversion Hhd as [|? ? Hab]; subst.
  specialize (IH Hs'). rewrite dedup_cons. case_decide as Heq; [exact IH|]. cbn [strictly_sorted].
  pose proof (dedup_head (b :: l)) as Hh.
  destruct (dedup (b :: l)) as [|c rest] eqn:Hd; [done|]. cbn in Hh. injection Hh as ->.
  rewrite IH, andb_true_r. apply negb_true_iff, not_true_iff_false. intros Hba.
  apply Heq. by apply str_le_antisym.
Qed.
