(* ===== verification/Chain.v ===== *)
(** * The admission chain and its batch records

    Models the records with which [crates/cymule-core/src/machine.rs] commits
    to admitted commands: the rolling commitments of plans, artifacts and
    batches, the chained command admissions, the atomic batch records and the
    archive entries, each with its verification. *)

From S2P Require Import Prelude Identity CommandIndex Canonical Ir Model Events.

Definition MACHINE_AUTHORITY_ROOT_DOMAIN : string := "cymule.machine-authority-root/2".
Definition MACHINE_PLAN_ADMISSION_COMMITMENT_DOMAIN : string :=
  "cymule.machine-plan-admission-lineage/1".
Definition MACHINE_ARTIFACT_ADMISSION_COMMITMENT_DOMAIN : string :=
  "cymule.machine-artifact-admission-lineage/1".
Definition MACHINE_COMMAND_BATCH_ADMISSION_COMMITMENT_DOMAIN : string :=
  "cymule.machine-command-batch-admission-lineage/1".
Definition COMMAND_ADMISSION_VERSION : string := "cymule.command-admission/3".
Definition MACHINE_COMMAND_BATCH_VERSION : string := "cymule.command-batch/1".
Definition MACHINE_COMMAND_BATCH_RECEIPT_VERSION : string := "cymule.command-batch-receipt/1".
Definition COMMAND_ARCHIVE_LEAF_DOMAIN : string := "cymule.command-archive-leaf/1".
Definition MAX_MACHINE_MATERIAL_PLANS : nat := 64.
Definition MAX_MACHINE_MATERIAL_ARTIFACTS : nat := 256.
Definition MAX_MACHINE_COMMAND_BATCH_MEMBERS : nat := 32.
Definition MAX_MACHINE_COMMAND_BATCH_PLANS : nat := 128.
Definition MAX_MACHINE_COMMAND_BATCH_ARTIFACTS : nat := 320.

(** ** Data *)

Inductive CommandReceiptStatus := ReceiptApplied | ReceiptConflict.
#[export] Instance CommandReceiptStatus_eq_dec : EqDecision CommandReceiptStatus.
Proof. solve_decision. Defined.

Record CommandReceipt := {
  receipt_command_id : string;
  receipt_status : CommandReceiptStatus;
  receipt_event_ids : list string;
  receipt_error_code : option string;
  receipt_message : option string;
  observed_precondition : option string;
  current_precondition : option string;
}.
#[export] Instance CommandReceipt_eq_dec : EqDecision CommandReceipt.
Proof. solve_decision. Defined.

(** [CommandRecord], and [ArchivedCommandRecord], which has the same fields *)
Record CommandRecord := {
  envelope : CommandEnvelope;
  semantic_hash : string;
  receipt : CommandReceipt;
  batch_id : string;
  batch_position : N;
  batch_len : N;
}.
#[export] Instance CommandRecord_eq_dec : EqDecision CommandRecord.
Proof. solve_decision. Defined.

Record CommandAdmission := {
  admission_version : string;
  admission_id : string;
  sequence : N;
  parent_admission : option string;
  adm_command_id : string;
  adm_semantic_hash : string;
  command_record_digest : string;
  adm_batch_id : string;
  adm_batch_position : N;
  adm_batch_len : N;
  before_projection_digest : string;
  after_projection_digest : string;
  adm_status : CommandReceiptStatus;
  adm_event_ids : list string;
}.
#[export] Instance CommandAdmission_eq_dec : EqDecision CommandAdmission.
Proof. solve_decision. Defined.

Record MachineCommandBatchMember := {
  position : N;
  member_command_id : string;
  intent_hash : string;
  member_semantic_hash : string;
}.
#[export] Instance MachineCommandBatchMember_eq_dec : EqDecision MachineCommandBatchMember.
Proof. solve_decision. Defined.

Record MachineCommandBatchMaterialSource := {
  ms_source_command_id : string;
  ms_plan_ids : list string;
  ms_artifacts : list ArtifactRef;
}.
#[export] Instance MachineCommandBatchMaterialSource_eq_dec :
  EqDecision MachineCommandBatchMaterialSource.
Proof. solve_decision. Defined.

Record MachineCommandBatchRecord := {
  batch_version : string;
  br_batch_id : string;
  parent_authority_root : string;
  admission_parent_authority_root : string;
  members : list MachineCommandBatchMember;
  br_material_digest : option string;
  material_source : option MachineCommandBatchMaterialSource;
  br_plan_ids : list string;
  br_artifacts : list ArtifactRef;
  receipts : list CommandReceipt;
  br_event_ids : list string;
  result_authority_root : string;
  batch_receipt_id : string;
}.
#[export] Instance MachineCommandBatchRecord_eq_dec : EqDecision MachineCommandBatchRecord.
Proof. solve_decision. Defined.

Record MachineCommandArchiveEntry := {
  entry_admission : CommandAdmission;
  entry_command : CommandRecord;
  entry_events : list Event;
}.

Record MachineAuthorityRootInput := {
  plan_commitment : string;
  plan_count : N;
  artifact_commitment : string;
  artifact_count : N;
  batch_commitment : string;
  ar_batch_count : N;
  ar_projection_root : string;
  event_count : N;
  admission_sequence : option N;
  admission_head : option string;
}.

(** The values of this component that are hashed; their serialisers are
    derived.  The identities that a value carries for itself are not part of
    its preimage. *)
Inductive MachinePreimage :=
| MPGenesis
| MPAppend (root identity : string)
| MPAuthorityRoot (input : MachineAuthorityRootInput)
| MPIntent (command_version command_id actor run_id : string) (command : Command)
| MPBatchManifest (parent : string) (members : list (N * string * string))
    (material_digest : option string) (source : option MachineCommandBatchMaterialSource)
    (plan_ids : list string) (artifacts : list ArtifactRef)
| MPBatchReceipt (batch_id admission_parent : string)
    (source : option MachineCommandBatchMaterialSource) (members : list MachineCommandBatchMember)
    (receipts : list CommandReceipt) (event_ids : list string) (result : string)
    (plan_ids : list string) (artifacts : list ArtifactRef)
| MPAdmission (sequence : N) (parent : option string)
    (command_id semantic_hash record_digest batch_id : string) (batch_position batch_len : N)
    (before after : string) (status : CommandReceiptStatus) (event_ids : list string)
| MPCommandRecord (record : CommandRecord)
| MPArchiveEntry (entry : MachineCommandArchiveEntry).
Class MachineSerialize := { serialize_machine : MachinePreimage → Ser }.

Definition is_start_run (c : Command) : bool :=
  match c with StartRun _ _ _ _ _ => true | _ => false end.
Definition material_digest_of (c : Command) : option string :=
  match c with StartRun _ _ _ digest _ => Some digest | _ => None end.

(** [validate_envelope] *)
Definition validate_envelope (env : CommandEnvelope) : core () :=
  _ ← require (bool_decide (command_version env = COMMAND_VERSION)) Validation;
  _ ← validate_identity (command_id env);
  _ ← validate_identity (actor env);
  validate_identity (env_run_id env).

(** ** The material a command names *)

Definition binding_reference (id : string) : ArtifactRef :=
  {| identity_version := ARTIFACT_IDENTITY_VERSION; artifact_id := id;
     artifact_kind := EXECUTION_BINDING_ARTIFACT_KIND |}.
Definition named_material (c : Command) : list string * list ArtifactRef :=
  match c with
  | StartRun pid binding input _ _ => ([pid], [binding_reference binding; input])
  | ProposeEffect _ _ _ _ _ _ _ _ arguments binding _ => ([], [arguments; binding])
  | UpdateBinding binding => ([], [binding_reference binding])
  | MigrateRun from_plan to_plan from_binding to_binding _ _ _ =>
      ([from_plan; to_plan], [binding_reference from_binding; binding_reference to_binding])
  | CompleteRun (Some result) => ([], [result])
  | FailRun failure => ([], [failure_detail failure])
  | CancelRun reason => ([], [reason])
  | _ => ([], [])
  end.
(** [command_material_membership] *)
Definition command_material_membership (c : Command) : core (list string * list ArtifactRef) :=
  let '(pids, refs) := named_material c in
  let pids := dedup (sort_by_key id pids) in
  let refs := dedup_by_key artifact_id (sort_by_key artifact_id refs) in
  _ ← try_each validate_content_id pids;
  _ ← try_each ArtifactRef_validate refs;
  Ok (pids, refs).

(** [single_command_material_source] *)
Definition single_command_material_source (env : CommandEnvelope) (pids : list string)
    (refs : list ArtifactRef) : option MachineCommandBatchMaterialSource :=
  if is_start_run (command env)
  then Some {| ms_source_command_id := command_id env; ms_plan_ids := pids; ms_artifacts := refs |}
  else None.

(** [MachineCommandBatchMaterialSource::verify] *)
Definition MaterialSource_verify (s : MachineCommandBatchMaterialSource) : core () :=
  _ ← validate_identity (ms_source_command_id s);
  _ ← require (negb ((bool_decide (ms_plan_ids s = []) && bool_decide (ms_artifacts s = []))
                     || (MAX_MACHINE_MATERIAL_PLANS <? length (ms_plan_ids s))
                     || (MAX_MACHINE_MATERIAL_ARTIFACTS <? length (ms_artifacts s))
                     || negb (strictly_sorted (ms_plan_ids s))
                     || negb (strictly_sorted (artifact_id <$> ms_artifacts s)))) Validation;
  _ ← try_each validate_content_id (ms_plan_ids s);
  try_each ArtifactRef_validate (ms_artifacts s).

(** [next_command_admission_sequence], from the sequence and identity of the parent *)
Definition next_command_admission_sequence (parent : option (N * string)) : core N :=
  match parent with
  | None => Ok 1%N
  | Some (s, _) =>
      ok_or (opt_filter (λ v, v <=? MAX_EXACT_INTEGER)%N (checked_add s 1)) Validation
  end.

Section Chain.
Context `{Sha256} `{Canonical} `{!MachineSerialize}.

Definition machine_content_id (domain : string) (v : MachinePreimage) : core string :=
  content_id_of domain (serialize_machine v).
Definition machine_digest (v : MachinePreimage) : core string :=
  canonical_digest_of (serialize_machine v).

(** [AdmissionCommitment::new] and [insert_with_undo], on the root *)
Definition commitment_genesis (domain : string) : core string := machine_content_id domain MPGenesis.
Definition commitment_insert (domain root identity : string) : core string :=
  _ ← validate_content_id identity;
  machine_content_id domain (MPAppend root identity).

Definition machine_authority_root (input : MachineAuthorityRootInput) : core string :=
  machine_digest (MPAuthorityRoot input).

(** [command_intent_hash] *)
Definition command_intent_hash (env : CommandEnvelope) : core string :=
  machine_digest (MPIntent (command_version env) (command_id env) (actor env) (env_run_id env)
                    (command env)).

(** [machine_command_batch_id] *)
Definition machine_command_batch_id (parent : string) (l : list MachineCommandBatchMember)
    (digest : option string) (source : option MachineCommandBatchMaterialSource)
    (pids : list string) (refs : list ArtifactRef) : core string :=
  _ ← require (is_canonical_digest parent) Validation;
  machine_content_id MACHINE_COMMAND_BATCH_VERSION
    (MPBatchManifest parent ((λ m, (position m, member_command_id m, intent_hash m)) <$> l)
       digest source pids refs).

(** [single_command_batch_metadata]; the position is 0 and the length 1. *)
Definition single_command_batch_metadata (parent : string) (env : CommandEnvelope) (hash : string)
    : core string :=
  intent ← command_intent_hash env;
  let m := {| position := 0; member_command_id := command_id env; intent_hash := intent;
              member_semantic_hash := hash |} in
  material ← command_material_membership (command env);
  let '(pids, refs) := (material : list string * list ArtifactRef) in
  machine_command_batch_id parent [m] (material_digest_of (command env))
    (single_command_material_source env pids refs) pids refs.

(** [verify_command_record] *)
Definition receipt_shape_ok (r : CommandRecord) : bool :=
  match receipt_status (receipt r) with
  | ReceiptApplied =>
      (length (receipt_event_ids (receipt r))
         =? (if is_start_run (command (envelope r)) then 1 else 0) + 1)
      && forallb is_sha256_id (receipt_event_ids (receipt r))
      && bool_decide (receipt_error_code (receipt r) = None)
      && bool_decide (receipt_message (receipt r) = None)
      && bool_decide (current_precondition (receipt r) ≠ None)
  | ReceiptConflict =>
      bool_decide (receipt_event_ids (receipt r) = [])
      && bool_decide (receipt_error_code (receipt r) = Some "stale_action")
      && bool_decide (receipt_message (receipt r)
           = Some "the Run changed after the caller's view")
      && bool_decide (observed_precondition (receipt r) ≠ None)
      && bool_decide (observed_precondition (receipt r) ≠ current_precondition (receipt r))
  end.
Definition verify_command_record (r : CommandRecord) : core () :=
  _ ← validate_envelope (envelope r);
  digest ← canonical_digest (PreEnvelope (envelope r));
  require (bool_decide (digest = semantic_hash r)
           && bool_decide (receipt_command_id (receipt r) = command_id (envelope r))
           && is_sha256_id (batch_id r)
           && negb (batch_len r =? 0)%N
           && (batch_position r <? batch_len r)%N
           && bool_decide (observed_precondition (receipt r) = expected_precondition (envelope r))
           && receipt_shape_ok r) IdentityMismatch.

(** ** Command admissions *)

(** [CommandAdmission::expected_id] *)
Definition admission_expected_id (a : CommandAdmission) : core string :=
  machine_content_id COMMAND_ADMISSION_VERSION
    (MPAdmission (sequence a) (parent_admission a) (adm_command_id a) (adm_semantic_hash a)
       (command_record_digest a) (adm_batch_id a) (adm_batch_position a) (adm_batch_len a)
       (before_projection_digest a) (after_projection_digest a) (adm_status a) (adm_event_ids a)).

Definition admission_shape_ok (a : CommandAdmission) (expected_sequence : N)
    (parent : option (N * string)) : bool :=
  bool_decide (admission_version a = COMMAND_ADMISSION_VERSION)
  && (sequence a =? expected_sequence)%N && negb (sequence a =? 0)%N
  && (sequence a <=? MAX_EXACT_INTEGER)%N
  && bool_decide (parent_admission a = snd <$> parent)
  && negb (bool_decide (adm_command_id a = EmptyString))
  && is_canonical_digest (adm_semantic_hash a)
  && is_canonical_digest (command_record_digest a)
  && is_sha256_id (adm_batch_id a) && negb (adm_batch_len a =? 0)%N
  && (adm_batch_position a <? adm_batch_len a)%N
  && is_canonical_digest (before_projection_digest a)
  && is_canonical_digest (after_projection_digest a)
  && match adm_status a with
     | ReceiptApplied =>
         negb (bool_decide (adm_event_ids a = [])) && (length (adm_event_ids a) <=? 2)
         && forallb is_sha256_id (adm_event_ids a)
     | ReceiptConflict =>
         bool_decide (adm_event_ids a = [])
         && bool_decide (before_projection_digest a = after_projection_digest a)
     end.

(** [CommandAdmission::verify] *)
Definition CommandAdmission_verify (a : CommandAdmission) (parent : option (N * string))
    : core () :=
  expected ← next_command_admission_sequence parent;
  _ ← require (admission_shape_ok a expected parent) Validation;
  expected ← admission_expected_id a;
  require (bool_decide (admission_id a = expected)) IdentityMismatch.

Definition set_admission_id (i : string) (a : CommandAdmission) : CommandAdmission :=
  {| admission_version := admission_version a; admission_id := i; sequence := sequence a;
     parent_admission := parent_admission a; adm_command_id := adm_command_id a;
     adm_semantic_hash := adm_semantic_hash a; command_record_digest := command_record_digest a;
     adm_batch_id := adm_batch_id a; adm_batch_position := adm_batch_position a;
     adm_batch_len := adm_batch_len a; before_projection_digest := before_projection_digest a;
     after_projection_digest := after_projection_digest a; adm_status := adm_status a;
     adm_event_ids := adm_event_ids a |}.

(** [CommandAdmission::new] *)
Definition CommandAdmission_new (parent : option (N * string)) (r : CommandRecord)
    (before after : string) : core CommandAdmission :=
  seq ← next_command_admission_sequence parent;
  digest ← machine_digest (MPCommandRecord r);
  let a := {| admission_version := COMMAND_ADMISSION_VERSION; admission_id := EmptyString;
              sequence := seq; parent_admission := snd <$> parent;
              adm_command_id := command_id (envelope r); adm_semantic_hash := semantic_hash r;
              command_record_digest := digest; adm_batch_id := batch_id r;
              adm_batch_position := batch_position r; adm_batch_len := batch_len r;
              before_projection_digest := before; after_projection_digest := after;
              adm_status := receipt_status (receipt r);
              adm_event_ids := receipt_event_ids (receipt r) |} in
  id ← admission_expected_id a;
  let a := set_admission_id id a in
  _ ← CommandAdmission_verify a parent;
  Ok a.

(** [verify_admission_record] *)
Definition verify_admission_record (a : CommandAdmission) (r : CommandRecord) : core () :=
  _ ← verify_command_record r;
  _ ← require (bool_decide (adm_command_id a = command_id (envelope r))
               && bool_decide (adm_semantic_hash a = semantic_hash r)) IdentityMismatch;
  digest ← machine_digest (MPCommandRecord r);
  require (bool_decide (command_record_digest a = digest)
           && bool_decide (adm_status a = receipt_status (receipt r))
           && bool_decide (adm_event_ids a = receipt_event_ids (receipt r))
           && bool_decide (adm_batch_id a = batch_id r)
           && (adm_batch_position a =? batch_position r)%N
           && (adm_batch_len a =? batch_len r)%N) IdentityMismatch.

(** [verify_command_event_correspondence] *)
Definition verify_command_event_correspondence (r : CommandRecord) (ev : Event) : core () :=
  require (command_matches_event (command (envelope r)) (payload ev)) IdentityMismatch.

(** [MachineCommandArchiveEntry::verify_shape] *)
Definition ArchiveEntry_verify (e : MachineCommandArchiveEntry) : core () :=
  let a := entry_admission e in
  _ ← verify_admission_record a (entry_command e);
  _ ← require (bool_decide (adm_event_ids a = event_id <$> entry_events e)
               && negb (bool_decide (adm_status a = ReceiptApplied)
                        && bool_decide (entry_events e = []))
               && negb (bool_decide (adm_status a = ReceiptConflict)
                        && negb (bool_decide (entry_events e = [])))) IdentityMismatch;
  try_each (λ ev,
    _ ← require (bool_decide (ev_command_id ev = adm_command_id a)
                 && bool_decide (ev_command_hash ev = adm_semantic_hash a)) IdentityMismatch;
    _ ← Event_verify ev;
    _ ← verify_event_footprint ev;
    verify_command_event_correspondence (entry_command e) ev) (entry_events e).
(** [leaf_digest] and [identity] *)
Definition ArchiveEntry_leaf_digest (e : MachineCommandArchiveEntry) : core string :=
  machine_content_id COMMAND_ARCHIVE_LEAF_DOMAIN (MPArchiveEntry e).
Definition ArchiveEntry_identity (e : MachineCommandArchiveEntry) : core string :=
  _ ← ArchiveEntry_verify e;
  ArchiveEntry_leaf_digest e.

(** ** Batch records *)

(** [MachineCommandBatchRecord::expected_receipt_id] *)
Definition batch_expected_receipt_id (b : MachineCommandBatchRecord) : core string :=
  machine_content_id MACHINE_COMMAND_BATCH_RECEIPT_VERSION
    (MPBatchReceipt (br_batch_id b) (admission_parent_authority_root b) (material_source b)
       (members b) (receipts b) (br_event_ids b) (result_authority_root b) (br_plan_ids b)
       (br_artifacts b)).

Definition batch_fixed_ok (b : MachineCommandBatchRecord) : bool :=
  bool_decide (batch_version b = MACHINE_COMMAND_BATCH_VERSION)
  && negb (bool_decide (members b = []) && bool_decide (material_source b = None))
  && bool_decide (is_Some (br_material_digest b) ↔ is_Some (material_source b))
  && (length (members b) <=? MAX_MACHINE_COMMAND_BATCH_MEMBERS)
  && (length (br_plan_ids b) <=? MAX_MACHINE_COMMAND_BATCH_PLANS)
  && (length (br_artifacts b) <=? MAX_MACHINE_COMMAND_BATCH_ARTIFACTS)
  && (length (members b) =? length (receipts b))
  && is_canonical_digest (parent_authority_root b)
  && is_canonical_digest (admission_parent_authority_root b)
  && is_canonical_digest (result_authority_root b)
  && match br_material_digest b with
     | Some digest => is_ok (validate_content_id digest)
     | None => true
     end
  && strictly_sorted (br_plan_ids b)
  && strictly_sorted (artifact_id <$> br_artifacts b).

(** [verify_material_source] *)
Definition verify_material_source (b : MachineCommandBatchRecord) : core () :=
  match material_source b with
  | None => Ok ()
  | Some s =>
      _ ← MaterialSource_verify s;
      require (forallb (λ i, bool_decide (i ∈ br_plan_ids b)) (ms_plan_ids s)
               && forallb (λ r, bool_decide (r ∈ br_artifacts b)) (ms_artifacts s)
               && negb (bool_decide (members b = [])
                        && negb (bool_decide (ms_plan_ids s = br_plan_ids b)
                                 && bool_decide (ms_artifacts s = br_artifacts b)))) Validation
  end.

(** The body of the member loop; the state is the index and the commands seen. *)
Definition verify_batch_member (b : MachineCommandBatchRecord) (st : nat * gset string)
    (mr : MachineCommandBatchMember * CommandReceipt) : core (nat * gset string) :=
  let '(index, seen) := st in
  let '(m, r) := mr in
  _ ← validate_identity (member_command_id m);
  _ ← require ((N.to_nat (position m) =? index)
               && bool_decide (member_command_id m ∉ seen)
               && is_canonical_digest (intent_hash m)
               && is_canonical_digest (member_semantic_hash m)
               && bool_decide (receipt_command_id r = member_command_id m)
               && negb (bool_decide (receipt_status r = ReceiptConflict)
                        && negb ((length (members b) =? 1)
                                 && bool_decide (receipt_event_ids r = [])))
               && negb (bool_decide (receipt_status r = ReceiptApplied)
                        && (bool_decide (receipt_event_ids r = [])
                            || (2 <? length (receipt_event_ids r))))) IdentityMismatch;
  Ok (S index, {[member_command_id m]} ∪ seen).

Definition verify_batch_event (seen : gset string) (i : string) : core (gset string) :=
  _ ← validate_content_id i;
  _ ← require (bool_decide (i ∉ seen)) IdentityMismatch;
  Ok ({[i]} ∪ seen).

(** [MachineCommandBatchRecord::verify] *)
Definition BatchRecord_verify (b : MachineCommandBatchRecord) : core () :=
  _ ← require (batch_fixed_ok b) Validation;
  _ ← verify_material_source b;
  _ ← try_fold (verify_batch_member b) (0, ∅) (zip (members b) (receipts b));
  let event_ids := receipts b ≫= receipt_event_ids in
  _ ← try_fold verify_batch_event ∅ event_ids;
  _ ← try_each validate_content_id (br_plan_ids b);
  _ ← try_each ArtifactRef_validate (br_artifacts b);
  _ ← require (bool_decide (event_ids = br_event_ids b)) IdentityMismatch;
  id ← machine_command_batch_id (parent_authority_root b) (members b) (br_material_digest b)
         (material_source b) (br_plan_ids b) (br_artifacts b);
  _ ← require (bool_decide (br_batch_id b = id)) IdentityMismatch;
  id ← batch_expected_receipt_id b;
  require (bool_decide (batch_receipt_id b = id)) IdentityMismatch.

Definition set_batch_receipt_id (i : string) (b : MachineCommandBatchRecord)
    : MachineCommandBatchRecord :=
  {| batch_version := batch_version b; br_batch_id := br_batch_id b;
     parent_authority_root := parent_authority_root b;
     admission_parent_authority_root := admission_parent_authority_root b;
     members := members b; br_material_digest := br_material_digest b;
     material_source := material_source b; br_plan_ids := br_plan_ids b;
     br_artifacts := br_artifacts b; receipts := receipts b; br_event_ids := br_event_ids b;
     result_authority_root := result_authority_root b; batch_receipt_id := i |}.

(** [build_single_command_batch_record] *)
Definition build_single_command_batch_record (parent result : string) (r : CommandRecord)
    : core MachineCommandBatchRecord :=
  let env := envelope r in
  let digest := material_digest_of (command env) in
  intent ← command_intent_hash env;
  let m := {| position := 0; member_command_id := command_id env; intent_hash := intent;
              member_semantic_hash := semantic_hash r |} in
  material ← command_material_membership (command env);
  let '(pids, refs) := (material : list string * list ArtifactRef) in
  let source := single_command_material_source env pids refs in
  _ ← require ((batch_position r =? 0)%N && (batch_len r =? 1)%N) IdentityMismatch;
  id ← machine_command_batch_id parent [m] digest source pids refs;
  _ ← require (bool_decide (batch_id r = id)) IdentityMismatch;
  let b := {| batch_version := MACHINE_COMMAND_BATCH_VERSION; br_batch_id := batch_id r;
              parent_authority_root := parent; admission_parent_authority_root := parent;
              members := [m]; br_material_digest := digest; material_source := source;
              br_plan_ids := pids; br_artifacts := refs; receipts := [receipt r];
              br_event_ids := receipt_event_ids (receipt r); result_authority_root := result;
              batch_receipt_id := EmptyString |} in
  id ← batch_expected_receipt_id b;
  let b := set_batch_receipt_id id b in
  _ ← BatchRecord_verify b;
  Ok b.

(** [MachineCommandBatchRecord::verify_entry] *)
Definition BatchRecord_verify_entry (b : MachineCommandBatchRecord)
    (e : MachineCommandArchiveEntry) : core () :=
  _ ← BatchRecord_verify b;
  _ ← ArchiveEntry_verify e;
  let r := entry_command e in
  let index := N.to_nat (batch_position r) in
  m ← ok_or (members b !! index) IdentityMismatch;
  _ ← require (bool_decide (batch_id r = br_batch_id b)
               && (N.to_nat (batch_len r) =? length (members b))
               && bool_decide (member_command_id m = command_id (envelope r))
               && (position m =? batch_position r)%N
               && bool_decide (member_semantic_hash m = semantic_hash r)) IdentityMismatch;
  intent ← command_intent_hash (envelope r);
  require (bool_decide (intent_hash m = intent)
           && bool_decide (receipts b !! index = Some (receipt r))
           && (bool_decide (parent_authority_root b = admission_parent_authority_root b)
               || ((length (members b) =? 1)
                   && match command (envelope r) with
                      | CommitScope _ | AbortScope _ | FailRun _ | CancelRun _ => true
                      | _ => false
                      end))) IdentityMismatch.
End Chain.
