(* ===== verification/Machine.v ===== *)
(** * The machine and its immutable material

    Models the fields of [Machine] in [crates/cymule-core/src/machine.rs] and
    the operations on plans, artifacts and batches: staging, retention under a
    rolling commitment, lookup, and the authority root that binds them. *)

From S2P Require Import Prelude Identity CommandIndex Canonical Ir Model Events Chain.

Definition PROJECTION_ROOT_GENESIS_DOMAIN : string := "cymule.projection-root-genesis/1".
Definition PROJECTION_ROOT_EVENT_DOMAIN : string := "cymule.projection-root-event/1".

(** [MachineAuthority]: the roots of the three [AdmissionCommitment]s, whose
    domains are constants, the number of batches and the reducer frontier. *)
Record MachineAuthority := {
  auth_plans : string;
  auth_artifacts : string;
  auth_batches : string;
  batch_count : N;
  projection_root : string;
}.

(** [MachineBaseSnapshot] *)
Record MachineBase := {
  prefix_digest : string;
  archive_head : string;
  archive_count : N;
  archive_event_count : N;
  base_admission_head : option string;
  base_command_index_root : string;
  base_plan_commitment : string;
  base_plan_count : N;
  base_artifact_commitment : string;
  base_artifact_count : N;
  base_batch_commitment : string;
  base_batch_count : N;
  base_projection : Projection;
  base_projection_digest : string;
  base_projection_root : string;
}.
#[export] Instance MachineBase_eq_dec : EqDecision MachineBase.
Proof. solve_decision. Defined.

(** [MachineBaseAnchor] *)
Record MachineBaseAnchor := {
  anchor_version : string;
  anchor_id : string;
  anchor_base_id : string;
  anchor_archive_head : string;
  anchor_archive_count : N;
  anchor_archive_event_count : N;
  anchor_archive_batch_count : N;
  anchor_admission_head : option string;
  anchor_command_index_root : string;
  anchor_prefix_digest : string;
  anchor_projection_digest : string;
  anchor_projection_root : string;
}.
#[export] Instance MachineBaseAnchor_eq_dec : EqDecision MachineBaseAnchor.
Proof. solve_decision. Defined.

(** [Machine] *)
Record Machine := {
  plans : gmap string SealedPlan;
  plan_order : list string;
  staged_plans : gmap string SealedPlan;
  artifacts : gmap string ArtifactRecord;
  artifact_order : list string;
  staged_artifacts : gmap string ArtifactRecord;
  batches : gmap string MachineCommandBatchRecord;
  batch_order : list string;
  events : gmap string Event;
  event_order : list string;
  base : option MachineBase;
  base_anchor : option MachineBaseAnchor;
  compacted_event_ids : gset string;
  projection : Projection;
  admissions : list CommandAdmission;
  commands : gmap string CommandRecord;
  command_index_proofs : gmap string MachineCommandIndexProof;
  authority : MachineAuthority;
}.

Definition set_plans (v : gmap string SealedPlan) (m : Machine) : Machine :=
  Build_Machine v (plan_order m) (staged_plans m) (artifacts m) (artifact_order m)
    (staged_artifacts m) (batches m) (batch_order m) (events m) (event_order m) (base m)
    (base_anchor m) (compacted_event_ids m) (projection m) (admissions m) (commands m)
    (command_index_proofs m) (authority m).
Definition set_plan_order (v : list string) (m : Machine) : Machine :=
  Build_Machine (plans m) v (staged_plans m) (artifacts m) (artifact_order m)
    (staged_artifacts m) (batches m) (batch_order m) (events m) (event_order m) (base m)
    (base_anchor m) (compacted_event_ids m) (projection m) (admissions m) (commands m)
    (command_index_proofs m) (authority m).
Definition set_staged_plans (v : gmap string SealedPlan) (m : Machine) : Machine :=
  Build_Machine (plans m) (plan_order m) v (artifacts m) (artifact_order m)
    (staged_artifacts m) (batches m) (batch_order m) (events m) (event_order m) (base m)
    (base_anchor m) (compacted_event_ids m) (projection m) (admissions m) (commands m)
    (command_index_proofs m) (authority m).
Definition set_artifacts (v : gmap string ArtifactRecord) (m : Machine) : Machine :=
  Build_Machine (plans m) (plan_order m) (staged_plans m) v (artifact_order m)
    (staged_artifacts m) (batches m) (batch_order m) (events m) (event_order m) (base m)
    (base_anchor m) (compacted_event_ids m) (projection m) (admissions m) (commands m)
    (command_index_proofs m) (authority m).
Definition set_artifact_order (v : list string) (m : Machine) : Machine :=
  Build_Machine (plans m) (plan_order m) (staged_plans m) (artifacts m) v
    (staged_artifacts m) (batches m) (batch_order m) (events m) (event_order m) (base m)
    (base_anchor m) (compacted_event_ids m) (projection m) (admissions m) (commands m)
    (command_index_proofs m) (authority m).
Definition set_staged_artifacts (v : gmap string ArtifactRecord) (m : Machine) : Machine :=
  Build_Machine (plans m) (plan_order m) (staged_plans m) (artifacts m) (artifact_order m) v
    (batches m) (batch_order m) (events m) (event_order m) (base m) (base_anchor m)
    (compacted_event_ids m) (projection m) (admissions m) (commands m)
    (command_index_proofs m) (authority m).
Definition set_batches (v : gmap string MachineCommandBatchRecord) (m : Machine) : Machine :=
  Build_Machine (plans m) (plan_order m) (staged_plans m) (artifacts m) (artifact_order m)
    (staged_artifacts m) v (batch_order m) (events m) (event_order m) (base m)
    (base_anchor m) (compacted_event_ids m) (projection m) (admissions m) (commands m)
    (command_index_proofs m) (authority m).
Definition set_batch_order (v : list string) (m : Machine) : Machine :=
  Build_Machine (plans m) (plan_order m) (staged_plans m) (artifacts m) (artifact_order m)
    (staged_artifacts m) (batches m) v (events m) (event_order m) (base m) (base_anchor m)
    (compacted_event_ids m) (projection m) (admissions m) (commands m)
    (command_index_proofs m) (authority m).
Definition set_events (v : gmap string Event) (m : Machine) : Machine :=
  Build_Machine (plans m) (plan_order m) (staged_plans m) (artifacts m) (artifact_order m)
    (staged_artifacts m) (batches m) (batch_order m) v (event_order m) (base m)
    (base_anchor m) (compacted_event_ids m) (projection m) (admissions m) (commands m)
    (command_index_proofs m) (authority m).
Definition set_event_order (v : list string) (m : Machine) : Machine :=
  Build_Machine (plans m) (plan_order m) (staged_plans m) (artifacts m) (artifact_order m)
    (staged_artifacts m) (batches m) (batch_order m) (events m) v (base m) (base_anchor m)
    (compacted_event_ids m) (projection m) (admissions m) (commands m)
    (command_index_proofs m) (authority m).
Definition set_base (v : option MachineBase) (m : Machine) : Machine :=
  Build_Machine (plans m) (plan_order m) (staged_plans m) (artifacts m) (artifact_order m)
    (staged_artifacts m) (batches m) (batch_order m) (events m) (event_order m) v
    (base_anchor m) (compacted_event_ids m) (projection m) (admissions m) (commands m)
    (command_index_proofs m) (authority m).
Definition set_base_anchor (v : option MachineBaseAnchor) (m : Machine) : Machine :=
  Build_Machine (plans m) (plan_order m) (staged_plans m) (artifacts m) (artifact_order m)
    (staged_artifacts m) (batches m) (batch_order m) (events m) (event_order m) (base m) v
    (compacted_event_ids m) (projection m) (admissions m) (commands m)
    (command_index_proofs m) (authority m).
Definition set_compacted_event_ids (v : gset string) (m : Machine) : Machine :=
  Build_Machine (plans m) (plan_order m) (staged_plans m) (artifacts m) (artifact_order m)
    (staged_artifacts m) (batches m) (batch_order m) (events m) (event_order m) (base m)
    (base_anchor m) v (projection m) (admissions m) (commands m) (command_index_proofs m)
    (authority m).
Definition set_projection (v : Projection) (m : Machine) : Machine :=
  Build_Machine (plans m) (plan_order m) (staged_plans m) (artifacts m) (artifact_order m)
    (staged_artifacts m) (batches m) (batch_order m) (events m) (event_order m) (base m)
    (base_anchor m) (compacted_event_ids m) v (admissions m) (commands m)
    (command_index_proofs m) (authority m).
Definition set_admissions (v : list CommandAdmission) (m : Machine) : Machine :=
  Build_Machine (plans m) (plan_order m) (staged_plans m) (artifacts m) (artifact_order m)
    (staged_artifacts m) (batches m) (batch_order m) (events m) (event_order m) (base m)
    (base_anchor m) (compacted_event_ids m) (projection m) v (commands m)
    (command_index_proofs m) (authority m).
Definition set_commands (v : gmap string CommandRecord) (m : Machine) : Machine :=
  Build_Machine (plans m) (plan_order m) (staged_plans m) (artifacts m) (artifact_order m)
    (staged_artifacts m) (batches m) (batch_order m) (events m) (event_order m) (base m)
    (base_anchor m) (compacted_event_ids m) (projection m) (admissions m) v
    (command_index_proofs m) (authority m).
Definition set_command_index_proofs (v : gmap string MachineCommandIndexProof) (m : Machine) : Machine :=
  Build_Machine (plans m) (plan_order m) (staged_plans m) (artifacts m) (artifact_order m)
    (staged_artifacts m) (batches m) (batch_order m) (events m) (event_order m) (base m)
    (base_anchor m) (compacted_event_ids m) (projection m) (admissions m) (commands m) v
    (authority m).
Definition set_authority (v : MachineAuthority) (m : Machine) : Machine :=
  Build_Machine (plans m) (plan_order m) (staged_plans m) (artifacts m) (artifact_order m)
    (staged_artifacts m) (batches m) (batch_order m) (events m) (event_order m) (base m)
    (base_anchor m) (compacted_event_ids m) (projection m) (admissions m) (commands m)
    (command_index_proofs m) v.

Definition set_auth_plans (v : string) (a : MachineAuthority) : MachineAuthority :=
  Build_MachineAuthority v (auth_artifacts a) (auth_batches a) (batch_count a) (projection_root a).
Definition set_auth_artifacts (v : string) (a : MachineAuthority) : MachineAuthority :=
  Build_MachineAuthority (auth_plans a) v (auth_batches a) (batch_count a) (projection_root a).
Definition set_auth_batches (v : string) (a : MachineAuthority) : MachineAuthority :=
  Build_MachineAuthority (auth_plans a) (auth_artifacts a) v (batch_count a) (projection_root a).
Definition set_batch_count (v : N) (a : MachineAuthority) : MachineAuthority :=
  Build_MachineAuthority (auth_plans a) (auth_artifacts a) (auth_batches a) v (projection_root a).
Definition set_projection_root (v : string) (a : MachineAuthority) : MachineAuthority :=
  Build_MachineAuthority (auth_plans a) (auth_artifacts a) (auth_batches a) (batch_count a) v.

(** [Machine::artifact] *)
Definition artifact (m : Machine) (r : ArtifactRef) : option ArtifactRecord :=
  opt_filter (λ record, bool_decide (reference record = r))
    (match artifacts m !! artifact_id r with
     | Some record => Some record
     | None => staged_artifacts m !! artifact_id r
     end).

(** [Machine::plan] *)
Definition plan (m : Machine) (pid : string) : option SealedPlan :=
  match plans m !! pid with Some p => Some p | None => staged_plans m !! pid end.

(** [Machine::run] *)
Definition machine_run (m : Machine) (rid : string) : core RunProjection :=
  ok_or (runs (projection m) !! rid) NotFound.

(** [Machine::effect_contract] *)
Definition effect_contract (m : Machine) (pid op : string) : core EffectContract :=
  ok_or (plan ← plans m !! pid;
         snd <$> list_find (λ c, contract_id c = op) (effects_ (candidate plan))) NotFound.

(** [ReplayAvailability] and [replay_availability] *)
Inductive ReplayAvailability :=
| Exact
| ReplayUnavailable
| ProjectionOnly (missing : list string).
Definition replay_availability (m : Machine) (required : list ArtifactRef) : ReplayAvailability :=
  let missing := artifact_id <$>
    filter (λ r, reference <$> artifacts m !! artifact_id r ≠ Some r) required in
  if bool_decide (missing = []) then Exact
  else if bool_decide (events m = ∅) && bool_decide (base m = None)
  then ReplayUnavailable else ProjectionOnly missing.

(** [append_event] *)
Definition append_event (m : Machine) (ev : Event) : Machine :=
  set_events (<[event_id ev := ev]> (events m))
    (set_event_order (event_order m ++ [event_id ev]) m).

(** [command_admission_parent], as the sequence and the identity *)
Definition command_admission_parent (l : list CommandAdmission) (b : option MachineBase)
    : option (N * string) :=
  match last l with
  | Some a => Some (sequence a, admission_id a)
  | None => b ≫= λ b, (λ i, (archive_count b, i)) <$> base_admission_head b
  end.
Definition admission_parent (m : Machine) : option (N * string) :=
  command_admission_parent (admissions m) (base m).

Section Material.
Context `{Sha256} `{Canonical} `{!MachineSerialize} `{SchemaCompiler} `{PlanCodec}.

(** [insert_plan] *)
Definition insert_plan (m : Machine) (p : SealedPlan) : core Machine :=
  _ ← SealedPlan_verify p;
  match plans m !! plan_id p with
  | Some existing => _ ← require (bool_decide (existing = p)) IdentityMismatch; Ok m
  | None =>
      match staged_plans m !! plan_id p with
      | None => Ok (set_staged_plans (<[plan_id p := p]> (staged_plans m)) m)
      | Some existing => _ ← require (bool_decide (existing = p)) IdentityMismatch; Ok m
      end
  end.

(** [put_artifact] *)
Definition put_artifact (m : Machine) (kind bytes : string) : core (Machine * ArtifactRef) :=
  r ← artifact_ref kind bytes;
  let a := {| reference := r; artifact_bytes := bytes |} in
  match artifacts m !! artifact_id r with
  | Some existing => _ ← require (bool_decide (existing = a)) IdentityMismatch; Ok (m, r)
  | None =>
      match staged_artifacts m !! artifact_id r with
      | None => Ok (set_staged_artifacts (<[artifact_id r := a]> (staged_artifacts m)) m, r)
      | Some existing => _ ← require (bool_decide (existing = a)) IdentityMismatch; Ok (m, r)
      end
  end.

(** [retain_plan] *)
Definition retain_plan (m : Machine) (p : SealedPlan) : core Machine :=
  _ ← SealedPlan_verify p;
  match plans m !! plan_id p with
  | Some existing => _ ← require (bool_decide (existing = p)) IdentityMismatch; Ok m
  | None =>
      root ← commitment_insert MACHINE_PLAN_ADMISSION_COMMITMENT_DOMAIN
               (auth_plans (authority m)) (plan_id p);
      Ok (set_authority (set_auth_plans root (authority m))
            (set_plan_order (plan_order m ++ [plan_id p])
              (set_plans (<[plan_id p := p]> (plans m)) m)))
  end.

(** [retain_artifact] *)
Definition retain_artifact (m : Machine) (a : ArtifactRecord) : core Machine :=
  _ ← ArtifactRecord_validate a;
  let i := artifact_id (reference a) in
  match artifacts m !! i with
  | Some existing => _ ← require (bool_decide (existing = a)) IdentityMismatch; Ok m
  | None =>
      root ← commitment_insert MACHINE_ARTIFACT_ADMISSION_COMMITMENT_DOMAIN
               (auth_artifacts (authority m)) i;
      Ok (set_authority (set_auth_artifacts root (authority m))
            (set_artifact_order (artifact_order m ++ [i])
              (set_artifacts (<[i := a]> (artifacts m)) m)))
  end.

(** [insert_batch] *)
Definition insert_batch (m : Machine) (b : MachineCommandBatchRecord) : core Machine :=
  _ ← BatchRecord_verify b;
  match batches m !! br_batch_id b with
  | Some existing => _ ← require (bool_decide (existing = b)) IdentityMismatch; Ok m
  | None =>
      root ← commitment_insert MACHINE_COMMAND_BATCH_ADMISSION_COMMITMENT_DOMAIN
               (auth_batches (authority m)) (br_batch_id b);
      count ← ok_or (opt_filter (λ v, v <=? MAX_EXACT_INTEGER)%N
                       (checked_add (batch_count (authority m)) 1)) Validation;
      Ok (set_authority (set_batch_count count (set_auth_batches root (authority m)))
            (set_batch_order (batch_order m ++ [br_batch_id b])
              (set_batches (<[br_batch_id b := b]> (batches m)) m)))
  end.

(** [admit_staged_command_material] *)
Definition admit_staged_command_material (m : Machine) (c : Command) : core Machine :=
  membership ← command_material_membership c;
  let '(pids, refs) := (membership : list string * list ArtifactRef) in
  let missing_plan pid := bool_decide (plans m !! pid = None) && bool_decide (staged_plans m !! pid = None) in
  let missing_artifact r := bool_decide (artifacts m !! artifact_id r = None)
                            && bool_decide (staged_artifacts m !! artifact_id r = None) in
  _ ← require (negb (existsb missing_plan pids || existsb missing_artifact refs)) Validation;
  let staged := omap (λ pid, staged_plans m !! pid) pids in
  staged_records ← try_map (λ ra,
      let '(r, a) := (ra : ArtifactRef * ArtifactRecord) in
      if decide (reference a = r) then Ok a else Err IdentityMismatch)
    (omap (λ r, a ← staged_artifacts m !! artifact_id r; Some (r, a)) refs);
  m ← try_fold retain_plan m staged;
  m ← try_fold retain_artifact m staged_records;
  let m := foldl (λ m p, set_staged_plans (delete (plan_id p) (staged_plans m)) m) m staged in
  Ok (foldl (λ m a, set_staged_artifacts
               (delete (artifact_id (reference a)) (staged_artifacts m)) m) m staged_records).

(** [authority_root_with_batch] and [authority_root]; map sizes fit a [u64]. *)
Definition authority_root_with_batch (m : Machine) (batch_root : string) (count : N)
    : core string :=
  let parent := admission_parent m in
  evs ← ok_or (opt_filter (λ v, v <=? MAX_EXACT_INTEGER)%N
                 (checked_add (N.of_nat (length (event_order m)))
                    (match base m with Some b => archive_event_count b | None => 0%N end))) Validation;
  machine_authority_root
    {| plan_commitment := auth_plans (authority m);
       plan_count := N.of_nat (size (plans m));
       artifact_commitment := auth_artifacts (authority m);
       artifact_count := N.of_nat (size (artifacts m));
       batch_commitment := batch_root; ar_batch_count := count;
       ar_projection_root := projection_root (authority m); event_count := evs;
       admission_sequence := fst <$> parent; admission_head := snd <$> parent |}.
Definition authority_root (m : Machine) : core string :=
  authority_root_with_batch m (auth_batches (authority m)) (batch_count (authority m)).

(** [current_command_index_root] *)
Definition current_command_index_root (b : option MachineBase) : core string :=
  match b with Some b => Ok (base_command_index_root b) | None => empty_root end.

(** The position of an admission in the chain. *)
Fixpoint admission_position (cid : string) (l : list CommandAdmission)
    : option (list CommandAdmission * CommandAdmission) :=
  match l with
  | [] => None
  | a :: l =>
      if decide (adm_command_id a = cid) then Some ([], a)
      else pr ← admission_position cid l; Some (a :: pr.1, pr.2)
  end.

(** [verify_retained_command_record] *)
Definition verify_retained_command_record (m : Machine) (cid : string) (r : CommandRecord)
    : core () :=
  proof ← ok_or (command_index_proofs m !! cid) NotFound;
  _ ← require (bool_decide (ip_command_id proof = cid) && bool_decide (ip_value proof = None))
        IdentityMismatch;
  root ← current_command_index_root (base m);
  _ ← IndexProof_verify proof root;
  found ← ok_or (admission_position cid (admissions m)) NotFound;
  let '(before, a) := (found : list CommandAdmission * CommandAdmission) in
  let parent := match last before with
                | Some p => Some (sequence p, admission_id p)
                | None => command_admission_parent [] (base m)
                end in
  _ ← CommandAdmission_verify a parent;
  verify_admission_record a r.

(** [command_receipt] *)
Definition command_receipt (m : Machine) (cid : string) : core (option CommandReceipt) :=
  match commands m !! cid with
  | None => if decide (is_Some (base m)) then Err ArchivedCommandReplayRequired else Ok None
  | Some r => _ ← verify_retained_command_record m cid r; Ok (Some (receipt r))
  end.
End Material.
