(* ===== verification/Location.v ===== *)
(** * Execution locations

    Models the lexical location checks of [crates/cymule-core/src/machine.rs]:
    regions and steps addressed by path, entry-rooted invocation paths, and
    the scope that must enclose a location. *)

From S2P Require Import Prelude Identity Ir Model.

(** [region_at_path] *)
Fixpoint region_walk (region : Region) (path : list nat) : core Region :=
  match path with
  | [] => Ok region
  | index :: path =>
      step ← ok_or (region_steps region !! index) NotFound;
      match step_operation step with
      | OScope body _ => region_walk body path
      | _ => Err Validation
      end
  end.
Definition find_definition (c : PlanCandidate) (did : string) : option Definition_ :=
  snd <$> list_find (λ d, def_id d = did) (definitions c).
Definition region_at_path (c : PlanCandidate) (did : string) (path : list nat) : core Region :=
  d ← ok_or (find_definition c did) NotFound;
  region_walk (body d) path.

(** [locate_step] *)
Definition locate_step (c : PlanCandidate) (did : string) (path : list nat) (site : string)
    : core (Step * nat) :=
  region ← region_at_path c did path;
  found ← ok_or (list_find (λ s, step_id s = site) (region_steps region)) NotFound;
  Ok (found.2, found.1).

(** [step_at] *)
Definition step_at (c : PlanCandidate) (did : string) (path : list nat) (index : nat)
    : core Step :=
  region ← region_at_path c did path;
  ok_or (region_steps region !! index) NotFound.

(** [validate_execution_scope_fields] *)
Definition validate_execution_scope_fields (scope : ScopeProjection) (iid : string)
    (path : list InvocationPathSegment) (did : string) (rpath : list nat) (sid : string)
    (require_open : bool) : core () :=
  _ ← require (negb (require_open && bool_decide (scope_status scope ≠ Open))) IllegalTransition;
  let enclosing := default ROOT_SCOPE_ID (seg_scope_id <$> last path) in
  match rpath with
  | [] => require (bool_decide (sid = enclosing)) Validation
  | _ :: _ =>
      require (bool_decide (scope_invocation_id scope = iid)
               && bool_decide (scope_definition_id scope = did)
               && bool_decide (scope_region_path scope = rpath)) Validation
  end.

(** [validate_execution_location_scope_only] *)
Definition validate_execution_location_scope_only (run : RunProjection) (iid : string)
    (path : list InvocationPathSegment) (did : string) (rpath : list nat) (sid : string)
    (require_open : bool) : core () :=
  scope ← ok_or (scopes run !! sid) NotFound;
  validate_execution_scope_fields scope iid path did rpath sid require_open.

Section Location.
Context `{Sha256} `{Canonical}.

(** [resolve_plan_invocation]: the closure that checks the scope of a segment
    is an argument; the state of the loop is the definition, the invocation
    and the prefix walked so far. *)
Definition resolve_plan_invocation (c : PlanCandidate) (pid rid : string)
    (path : list InvocationPathSegment)
    (validate_scope : string → list InvocationPathSegment → string → InvocationPathSegment → core ())
    : core (string * string) :=
  invocation ← plan_invocation_id rid pid (entry c) [];
  st ← try_fold (λ st segment,
      let '(did, iid, prefix) := (st : string * string * list InvocationPathSegment) in
      _ ← validate_scope iid prefix did segment;
      found ← locate_step c did (seg_region_path segment) (seg_site_id segment);
      match step_operation found.1 with
      | OInvoke definition _ _ =>
          let prefix := prefix ++ [segment] in
          iid ← plan_invocation_id rid pid (entry c) prefix;
          Ok (definition, iid, prefix)
      | _ => Err Validation
      end) (entry c, invocation, []) path;
  Ok (st.1.1, st.1.2).

(** [resolve_invocation] *)
Definition resolve_invocation (c : PlanCandidate) (pid : string) (run : RunProjection)
    (path : list InvocationPathSegment) (require_open : bool) : core (string * string) :=
  resolve_plan_invocation c pid (run_id run) path (λ iid prefix did segment,
    validate_execution_location_scope_only run iid prefix did (seg_region_path segment)
      (seg_scope_id segment) require_open).

(** [validate_execution_location] *)
Definition validate_execution_location (c : PlanCandidate) (pid : string) (run : RunProjection)
    (iid : string) (path : list InvocationPathSegment) (did : string) (rpath : list nat)
    (sid : string) : core () :=
  resolved ← resolve_invocation c pid run path true;
  _ ← require (bool_decide (resolved.1 = did) && bool_decide (resolved.2 = iid)) Validation;
  scope ← ok_or (scopes run !! sid) NotFound;
  validate_execution_scope_fields scope iid path did rpath sid true.

Definition is_scope_operation (o : Operation) : bool :=
  match o with OScope _ _ => true | _ => false end.

(** [slice.split_last()], with the prefix first *)
Definition split_last {A} (l : list A) : option (list A * A) :=
  match last l with Some x => Some (removelast l, x) | None => None end.

(** [scope_matches_plan]: every failed lookup or check answers [false]; only
    the identity computation may fail. *)
Definition scope_matches_plan (c : PlanCandidate) (pid : string) (run : RunProjection)
    (scope : ScopeProjection) : core bool :=
  match scope_site_id scope, split_last (scope_region_path scope) with
  | Some site, Some (parent_path, index) =>
      match resolve_invocation c pid run (scope_invocation_path scope) false with
      | Err _ => Ok false
      | Ok (did, iid) =>
          if negb (bool_decide (did = scope_definition_id scope)
                   && bool_decide (iid = scope_invocation_id scope)) then Ok false else
          match parent_scope scope with
          | None => Ok false
          | Some parent =>
              if negb (is_ok (validate_execution_location_scope_only run
                   (scope_invocation_id scope) (scope_invocation_path scope)
                   (scope_definition_id scope) parent_path parent false)) then Ok false else
              match step_at c (scope_definition_id scope) parent_path index with
              | Err _ => Ok false
              | Ok step =>
                  if negb (bool_decide (step_id step = site)
                           && is_scope_operation (step_operation step)) then Ok false else
                  expected ← plan_scope_id (run_id run) pid (scope_invocation_id scope)
                               (scope_definition_id scope) (scope_region_path scope);
                  Ok (bool_decide (scope_id scope = expected))
              end
          end
      end
  | _, _ => Ok false
  end.
End Location.

(** [direct_child_scope_on_path]: the parent chain is walked with fuel; the
    outer [None] is out of fuel. *)
Fixpoint climb (fuel : nat) (run : RunProjection) (child : ScopeProjection) (ancestor : string)
    : option (option ScopeProjection) :=
  match fuel with
  | O => None
  | S fuel =>
      match parent_scope child with
      | None => Some None
      | Some parent =>
          if decide (parent = ancestor) then Some (Some child)
          else match scopes run !! parent with
               | None => Some None
               | Some child => climb fuel run child ancestor
               end
      end
  end.
Definition direct_child_scope_on_path (run : RunProjection) (descendant ancestor : string)
    : option (option ScopeProjection) :=
  match scopes run !! descendant with
  | None => Some None
  | Some child => climb (S (size (scopes run))) run child ancestor
  end.

(** [ExecutionFrameLocation] *)
Record ExecutionFrameLocation := {
  fl_run_id : string;
  fl_plan_id : string;
  fl_invocation_id : string;
  fl_invocation_path : list InvocationPathSegment;
  fl_definition_id : string;
  fl_region_path : list nat;
  fl_scope_id : string;
  fl_next_step : nat;
}.

Section Frames.
Context `{Sha256} `{Canonical} `{SchemaCompiler} `{PlanCodec}.

(** The scope check of [validate_plan_execution_frame]: the enclosing scope
    is recomputed from the structure instead of being looked up. *)
Definition validate_structural_scope (rid pid iid : string)
    (prefix : list InvocationPathSegment) (did : string) (segment : InvocationPathSegment)
    : core () :=
  enclosing ← match seg_region_path segment with
              | [] => Ok (default ROOT_SCOPE_ID (seg_scope_id <$> last prefix))
              | _ :: _ => plan_scope_id rid pid iid did (seg_region_path segment)
              end;
  require (bool_decide (seg_scope_id segment = enclosing)) Validation.

(** [validate_plan_execution_frame] *)
Definition validate_plan_execution_frame (plan : SealedPlan) (l : ExecutionFrameLocation)
    (scope : ScopeProjection) : core () :=
  _ ← SealedPlan_verify plan;
  _ ← validate_identity (fl_run_id l);
  _ ← require (bool_decide (plan_id plan = fl_plan_id l)
               && bool_decide (scope_id scope = fl_scope_id l)) IdentityMismatch;
  resolved ← resolve_plan_invocation (candidate plan) (plan_id plan) (fl_run_id l)
               (fl_invocation_path l)
               (validate_structural_scope (fl_run_id l) (plan_id plan));
  _ ← require (bool_decide (resolved.1 = fl_definition_id l)
               && bool_decide (resolved.2 = fl_invocation_id l)) IdentityMismatch;
  _ ← validate_execution_scope_fields scope (fl_invocation_id l) (fl_invocation_path l)
        (fl_definition_id l) (fl_region_path l) (fl_scope_id l) false;
  region ← region_at_path (candidate plan) (fl_definition_id l) (fl_region_path l);
  require (fl_next_step l <=? length (region_steps region)) Validation.
End Frames.
