(* ===== verification/Effects.v ===== *)
(** * The lifecycle of one external effect

    Models the effect state machine of [crates/cymule-core/src/model.rs]:
    settlement classes, legal phase/outcome/reconciliation combinations, and
    the transition function. *)

From S2P Require Import Prelude Identity Ir Model.

Inductive EffectSettlementClass := ClassGovernance | ClassUnknown | ClassPending | ClassSettled.
#[export] Instance EffectSettlementClass_eq_dec : EqDecision EffectSettlementClass.
Proof. solve_decision. Defined.

Definition effect_settlement_class (e : EffectProjection) : EffectSettlementClass :=
  if decide (reconciliation e = GovernanceRequired) then ClassGovernance
  else if decide (outcome e = Unknown) then ClassUnknown
  else if bool_decide (phase e ≠ CancelledBeforeRelease) && bool_decide (outcome e = Unobserved)
  then ClassPending
  else ClassSettled.

Definition needs_terminal_transition (e : EffectProjection) : bool :=
  (bool_decide (phase e = DispatchStarted) && bool_decide (outcome e = Unobserved))
  || negb (bool_decide (phase e = DispatchStarted) || bool_decide (phase e = CancelledBeforeRelease)).

Definition needs_scope_abort_transition (e : EffectProjection) : bool :=
  bool_decide (phase e = Admitted_) || bool_decide (phase e = Prepared).

Definition blocks_scope_abort (e : EffectProjection) : bool :=
  bool_decide (mutation (profile e) = Mutating)
  && (bool_decide (phase e = ReleaseAuthorized) || bool_decide (phase e = DispatchStarted)).

Definition reconciliation_state_for_unknown (p : EffectProfile) : ReconciliationState :=
  match reconciliation_mode p with
  | Queryable | ExternallyAttested => Pending
  | Human | Impossible => GovernanceRequired
  end.

Definition terminalized_effect (e : EffectProjection) : EffectProjection :=
  match phase e, outcome e with
  | DispatchStarted, Unobserved =>
      set_effect_state (execution_availability e) (phase e) Unknown
        (reconciliation_state_for_unknown (profile e)) e
  | DispatchStarted, _ => e
  | _, _ => set_effect_state (execution_availability e) CancelledBeforeRelease NotApplied Resolved e
  end.

Definition reconciliation_transition_allowed (mode : ReconciliationMode)
    (state : ReconciliationState) (resolution : ReconciliationResolution) : bool :=
  match mode with
  | Queryable | ExternallyAttested =>
      bool_decide (state = Pending)
      && negb (bool_decide (resolution = ResolutionGovernanceRequired))
  | Human | Impossible =>
      bool_decide (state = GovernanceRequired)
      && (bool_decide (resolution = ResolvedApplied) || bool_decide (resolution = ResolvedNotApplied))
  end.

(** The guard of the [AuthorizeRelease] arm. *)
Definition release_allowed (p : EffectProfile) (scope : ScopeStatus) : bool :=
  match dispatch p with
  | Eager => negb (bool_decide (scope = ClosedAborted))
  | OnScopeCommit | Explicit => bool_decide (scope = ClosedCommitted)
  end.

(** The guard of the [Reconcile] arm. *)
Definition reconcile_allowed (e : EffectProjection) (r : ReconciliationResolution) : bool :=
  (bool_decide (phase e = DispatchStarted) && bool_decide (outcome e = Unknown)
   && reconciliation_transition_allowed (reconciliation_mode (profile e)) (reconciliation e) r)
  || (bool_decide (phase e = DispatchStarted)
      && bool_decide (execution_availability e = Unavailable)
      && bool_decide (reconciliation e = GovernanceRequired)
      && bool_decide (outcome e = Unknown)
      && (bool_decide (r = ResolvedApplied) || bool_decide (r = ResolvedNotApplied))).

(** [apply_effect_transition]: the match arms in order, each with its guard. *)
Definition apply_effect_transition (e : EffectProjection) (scope : ScopeStatus)
    (t : EffectTransition) : core EffectProjection :=
  match t with
  | Prepare =>
      _ ← require (bool_decide (phase e = Admitted_)) IllegalTransition;
      Ok (set_effect_state (execution_availability e) Prepared (outcome e) (reconciliation e) e)
  | AuthorizeRelease =>
      _ ← require (bool_decide (phase e = Prepared)
                   && bool_decide (execution_availability e = Available)
                   && release_allowed (profile e) scope) IllegalTransition;
      Ok (set_effect_state (execution_availability e) ReleaseAuthorized (outcome e)
            (reconciliation e) e)
  | StartDispatch =>
      _ ← require (bool_decide (phase e = ReleaseAuthorized)
                   && bool_decide (execution_availability e = Available)) IllegalTransition;
      Ok (set_effect_state (execution_availability e) DispatchStarted (outcome e)
            (reconciliation e) e)
  | Observe o =>
      _ ← require (bool_decide (phase e = DispatchStarted)
                   && bool_decide (execution_availability e = Available)
                   && bool_decide (outcome e = Unobserved)
                   && negb (bool_decide (o = Unobserved))) IllegalTransition;
      Ok (set_effect_state (execution_availability e) (phase e) o
            (if decide (o = Unknown) then reconciliation_state_for_unknown (profile e)
             else NotRequired) e)
  | Reconcile r =>
      _ ← require (reconcile_allowed e r) IllegalTransition;
      Ok (match r with
          | ResolvedApplied =>
              set_effect_state (execution_availability e) (phase e) Applied Resolved e
          | ResolvedNotApplied =>
              set_effect_state (execution_availability e) (phase e) NotApplied Resolved e
          | StillUnknown =>
              set_effect_state (execution_availability e) (phase e) (outcome e) Pending e
          | ResolutionGovernanceRequired =>
              set_effect_state (execution_availability e) (phase e) (outcome e) GovernanceRequired e
          end)
  | MarkUnavailable =>
      _ ← require (bool_decide (execution_availability e = Available)
                   && negb (bool_decide (outcome e = Applied) || bool_decide (outcome e = NotApplied))
                   && bool_decide (phase e ≠ CancelledBeforeRelease)) IllegalTransition;
      Ok (if decide (phase e = DispatchStarted)
          then set_effect_state Unavailable (phase e) Unknown GovernanceRequired e
          else set_effect_state Unavailable CancelledBeforeRelease NotApplied Resolved e)
  end.

(** [verify_effect_reducer_state] *)
Definition effect_state_legal (e : EffectProjection) : bool :=
  match phase e with
  | Admitted_ | Prepared | ReleaseAuthorized =>
      bool_decide (execution_availability e = Available) && bool_decide (outcome e = Unobserved)
      && bool_decide (reconciliation e = NotRequired)
  | CancelledBeforeRelease =>
      bool_decide (outcome e = NotApplied) && bool_decide (reconciliation e = Resolved)
  | DispatchStarted =>
      match execution_availability e, outcome e, reconciliation e with
      | Available, Unobserved, NotRequired
      | Available, (Applied | NotApplied), (NotRequired | Resolved)
      | Unavailable, Unknown, GovernanceRequired
      | Unavailable, (Applied | NotApplied), Resolved => true
      | Available, Unknown, Pending =>
          bool_decide (reconciliation_mode (profile e) = Queryable)
          || bool_decide (reconciliation_mode (profile e) = ExternallyAttested)
      | Available, Unknown, GovernanceRequired =>
          bool_decide (reconciliation_mode (profile e) = Human)
          || bool_decide (reconciliation_mode (profile e) = Impossible)
      | _, _, _ => false
      end
  end.
Definition verify_effect_reducer_state (e : EffectProjection) : core () :=
  require (effect_state_legal e) Validation.

(** [verify_effect_scope_state] *)
Definition effect_scope_legal (e : EffectProjection) (scope : ScopeStatus) : bool :=
  let eager_observation := bool_decide (dispatch (profile e) = Eager)
                           && bool_decide (mutation (profile e) = Observational) in
  let released := bool_decide (phase e = ReleaseAuthorized) || bool_decide (phase e = DispatchStarted) in
  let release_is_legal :=
    match dispatch (profile e) with
    | Eager => eager_observation
    | OnScopeCommit | Explicit => bool_decide (scope = ClosedCommitted)
    end in
  let aborted_scope_is_legal :=
    bool_decide (scope ≠ ClosedAborted) || bool_decide (phase e = CancelledBeforeRelease)
    || (eager_observation && released) in
  negb ((bool_decide (dispatch (profile e) = Eager) && negb eager_observation)
        || (released && negb release_is_legal) || negb aborted_scope_is_legal).
Definition verify_effect_scope_state (e : EffectProjection) (scope : ScopeProjection) : core () :=
  require (effect_scope_legal e (scope_status scope)) Validation.

(** A whole lifecycle: transitions, each with the status of the owning scope at
    that point, applied until the first refusal. *)
Definition effect_lifecycle (e : EffectProjection)
    (steps : list (ScopeStatus * EffectTransition)) : core EffectProjection :=
  try_fold (λ e st, apply_effect_transition e st.1 st.2) e steps.

(** ** Lemmas *)

(** Case analysis over the state axes of a legal effect, impossible
    combinations pruned before the profile is split. *)
Ltac legal_cases e Hl :=
  let av := fresh "av" in let ph := fresh "ph" in let oc := fresh "oc" in
  let rc := fresh "rc" in let pf := fresh "pf" in
  destruct e as [? ? ? ? ? ? ? ? ? ? ? pf ? ? ? av ph oc rc];
  destruct ph, av, oc, rc; try discriminate Hl; cbn in Hl;
  destruct pf as [[] [] [] ? ?]; try discriminate Hl.

Lemma transition_legal e s t e' :
  effect_state_legal e = true → apply_effect_transition e s t = Ok e' →
  effect_state_legal e' = true.
Proof.
  intros Hl Ht. legal_cases e Hl; destruct t as [| | |[]|[]|]; try discriminate Ht;
    destruct s; try discriminate Ht; by injection Ht as <-.
Qed.

Lemma transition_frame e s t e' :
  apply_effect_transition e s t = Ok e' →
  intent_id e' = intent_id e ∧ effect_scope_id e' = effect_scope_id e ∧ profile e' = profile e
  ∧ args e' = args e ∧ execution_binding e' = execution_binding e
  ∧ origin_plan_id e' = origin_plan_id e.
Proof.
  intros Ht. destruct t as [| | |o|[]|]; cbn [apply_effect_transition] in Ht; inv_ok;
    repeat case_decide; done.
Qed.

Lemma transition_scope_legal e s t e' :
  effect_scope_legal e s = true → effect_state_legal e = true →
  apply_effect_transition e s t = Ok e' → effect_scope_legal e' s = true.
Proof.
  intros Hs Hl Ht. legal_cases e Hl; destruct s; try discriminate Hs;
    destruct t as [| | |[]|[]|]; try discriminate Ht; by injection Ht as <-.
Qed.

Lemma terminalized_legal e :
  effect_state_legal e = true → effect_state_legal (terminalized_effect e) = true.
Proof. intros Hl. by legal_cases e Hl. Qed.

Lemma terminalized_done e :
  effect_state_legal e = true → needs_terminal_transition (terminalized_effect e) = false.
Proof. intros Hl. by legal_cases e Hl. Qed.

Lemma terminalized_id e :
  needs_terminal_transition e = false → effect_state_legal e = true → terminalized_effect e = e.
Proof. intros Ht Hl. legal_cases e Hl; by try discriminate Ht. Qed.

(** A settled effect refuses every transition. *)
Lemma settled_refuses e s t :
  effect_state_legal e = true → effect_settlement_class e = ClassSettled →
  apply_effect_transition e s t = Err IllegalTransition.
Proof.
  intros Hl Hc. legal_cases e Hl; try discriminate Hc; destruct t as [| | |[]|[]|]; try done;
    by destruct s.
Qed.
(** An effect that is not settled accepts one. *)
Lemma unsettled_accepts e :
  effect_state_legal e = true → effect_settlement_class e ≠ ClassSettled →
  ∃ s t e', apply_effect_transition e s t = Ok e'.
Proof.
  intros Hl Hc. legal_cases e Hl; try (by destruct Hc);
    first [ by exists Open, MarkUnavailable; eexists
          | by exists Open, (Reconcile ResolvedApplied); eexists ].
Qed.
