(* ===== verification/DerivedIndex.v ===== *)
(** * The derived hot index of a Run

    Models [RunDerivedIndex] of [crates/cymule-core/src/model.rs]: the index
    that the reducer updates incrementally, and [rebuild], which recomputes it
    from the canonical fields.  An error abandons the run of the function, so
    the partially updated index of a failing call is not observable here. *)

From S2P Require Import Prelude Identity Ir Model Effects.

(** [map.entry(k).or_default()] followed by an update of the slot *)
Definition entry_set_add (k v : string) (m : gmap string (gset string))
    : gmap string (gset string) :=
  <[k := {[v]} ∪ default ∅ (m !! k)]> m.
Definition entry_set (k : string) (m : gmap string (gset string)) : gset string :=
  default ∅ (m !! k).
Definition entry_count (k : string) (m : gmap string N) : N := default 0%N (m !! k).

(** [count.filter(|value| value <= MAX_EXACT_INTEGER)] after [checked_add] *)
Definition checked_add_exact (a b : N) : option N :=
  opt_filter (λ v, v <=? MAX_EXACT_INTEGER)%N (checked_add a b).

(** The settlement set that an effect belongs to. *)
Definition class_set (c : EffectSettlementClass) (x : RunDerivedIndex) : gset string :=
  match c with
  | ClassGovernance => governance_effects x
  | ClassUnknown => unknown_effects x
  | ClassPending => pending_effects x
  | ClassSettled => ∅
  end.
Definition set_class_set (c : EffectSettlementClass) (s : gset string) (x : RunDerivedIndex)
    : RunDerivedIndex :=
  match c with
  | ClassGovernance => set_governance_effects s x
  | ClassUnknown => set_unknown_effects s x
  | ClassPending => set_pending_effects s x
  | ClassSettled => x
  end.

(** [RunDerivedIndex::add_effect_state] *)
Definition add_effect_state (e : EffectProjection) (status : ScopeStatus) (x : RunDerivedIndex)
    : core RunDerivedIndex :=
  let i := intent_id e in
  _ ← require (negb (bool_decide (i ∈ governance_effects x) || bool_decide (i ∈ unknown_effects x)
                     || bool_decide (i ∈ pending_effects x))) Validation;
  let c := effect_settlement_class e in
  _ ← require (negb (bool_decide (i ∈ class_set c x))) Validation;
  let x := set_class_set c ({[i]} ∪ class_set c x) x in
  let x := if needs_terminal_transition e
           then set_terminal_transition_effects ({[i]} ∪ terminal_transition_effects x) x
           else x in
  if decide (status = Open) then
    scope ← ok_or (open_scope_effects x !! effect_scope_id e) Validation;
    let scope := if needs_scope_abort_transition e
                 then set_abort_transition_intents ({[i]} ∪ abort_transition_intents scope) scope
                 else scope in
    let scope := if blocks_scope_abort e
                 then set_abort_blockers ({[i]} ∪ abort_blockers scope) scope
                 else scope in
    Ok (set_open_scope_effects (<[effect_scope_id e := scope]> (open_scope_effects x)) x)
  else Ok x.

(** [RunDerivedIndex::remove_effect_state] *)
Definition remove_effect_state (e : EffectProjection) (status : ScopeStatus)
    (x : RunDerivedIndex) : core RunDerivedIndex :=
  let i := intent_id e in
  let c := effect_settlement_class e in
  _ ← require (bool_decide (c = ClassSettled) || bool_decide (i ∈ class_set c x)) Validation;
  let x := set_class_set c (class_set c x ∖ {[i]}) x in
  let x := set_terminal_transition_effects (terminal_transition_effects x ∖ {[i]}) x in
  if decide (status = Open) then
    scope ← ok_or (open_scope_effects x !! effect_scope_id e) Validation;
    let scope := set_abort_transition_intents (abort_transition_intents scope ∖ {[i]}) scope in
    let scope := set_abort_blockers (abort_blockers scope ∖ {[i]}) scope in
    Ok (set_open_scope_effects (<[effect_scope_id e := scope]> (open_scope_effects x)) x)
  else Ok x.

(** [RunDerivedIndex::register_effect] *)
Definition register_effect (e : EffectProjection) (status : ScopeStatus) (x : RunDerivedIndex)
    : core RunDerivedIndex :=
  let i := intent_id e in
  count ← ok_or (checked_add (entry_count (effect_scope_id e) (effect_count_by_scope x)) 1)
            Validation;
  let x := set_effect_count_by_scope
             (<[effect_scope_id e := count]> (effect_count_by_scope x)) x in
  x ← (if decide (status = ClosedCommitted) then
         count ← ok_or (checked_add_exact (committed_effect_count x) 1) Validation;
         Ok (set_committed_effect_count count x)
       else Ok x);
  x ← (if decide (status = Open) then
         scope ← ok_or (open_scope_effects x !! effect_scope_id e) Validation;
         _ ← require (bool_decide (i ∉ all_intents scope)) Validation;
         let scope := set_all_intents ({[i]} ∪ all_intents scope) scope in
         let scope := set_all_intent_order (all_intent_order scope ++ [i]) scope in
         scope ← (if decide (mutation (profile e) = Mutating) then
                    _ ← require (bool_decide (i ∉ mutating_intents scope)) Validation;
                    let scope := set_mutating_intents ({[i]} ∪ mutating_intents scope) scope in
                    Ok (set_mutating_intent_order (mutating_intent_order scope ++ [i]) scope)
                  else Ok scope);
         Ok (set_open_scope_effects (<[effect_scope_id e := scope]> (open_scope_effects x)) x)
       else Ok x);
  add_effect_state e status x.

(** The four loops of [RunDerivedIndex::rebuild]. *)
Definition rebuild_attempt (x : RunDerivedIndex) (a : AttemptProjection) : core RunDerivedIndex :=
  if active a then
    _ ← require (bool_decide (active_attempt x = None)) Validation;
    Ok (set_active_attempt (Some (attempt_id a)) x)
  else Ok x.

Definition rebuild_open_scope (x : RunDerivedIndex) (s : ScopeProjection) : core RunDerivedIndex :=
  if decide (scope_status s ≠ Open) then Ok x else
  let x := set_open_scope_ids ({[scope_id s]} ∪ open_scope_ids x) x in
  let x := set_open_scope_effects
             (<[scope_id s := default_open_scope_index]> (open_scope_effects x)) x in
  match parent_scope s with
  | Some parent =>
      count ← ok_or (checked_add (entry_count parent (open_descendants x)) 1) Validation;
      Ok (set_open_descendants (<[parent := count]> (open_descendants x)) x)
  | None => Ok x
  end.

Definition rebuild_scope_effects (run : RunProjection) (x : RunDerivedIndex)
    (s : ScopeProjection) : core RunDerivedIndex :=
  try_fold (λ x i,
    e ← ok_or (effects run !! i) Validation;
    _ ← require (bool_decide (effect_scope_id e = scope_id s)) Validation;
    register_effect e (scope_status s) x) x (intent_order s).

Definition rebuild_obligation (x : RunDerivedIndex) (o : ObligationProjection)
    : core RunDerivedIndex :=
  _ ← require (bool_decide
        (obligation_id o ∉ entry_set (obligation_intent_id o) (obligation_by_intent x))) Validation;
  let x := set_obligation_by_intent
             (entry_set_add (obligation_intent_id o) (obligation_id o) (obligation_by_intent x)) x in
  if blocking o && negb (resolved o) then
    Ok (set_unresolved_blocking_obligations
          ({[obligation_id o]} ∪ unresolved_blocking_obligations x) x)
  else Ok x.

(** [RunDerivedIndex { initialized: true, ..Self::default() }] *)
Definition initialized_index : RunDerivedIndex :=
  {| initialized := true; active_attempt := None; governance_effects := ∅;
     unknown_effects := ∅; pending_effects := ∅; terminal_transition_effects := ∅;
     unresolved_blocking_obligations := ∅; obligation_by_intent := ∅; open_descendants := ∅;
     open_scope_ids := ∅; open_scope_effects := ∅; effect_count_by_scope := ∅;
     committed_effect_count := 0 |}.

(** [RunDerivedIndex::rebuild] *)
Definition rebuild (run : RunProjection) : core RunDerivedIndex :=
  x ← try_fold rebuild_attempt initialized_index (btree_values (attempts run));
  x ← try_fold rebuild_open_scope x (btree_values (scopes run));
  x ← try_fold (rebuild_scope_effects run) x (btree_values (scopes run));
  try_fold rebuild_obligation x (btree_values (obligations run)).

(** [RunDerivedIndex::settlement] *)
Definition settlement (x : RunDerivedIndex) : WorldSettlementStatus :=
  if decide (governance_effects x ≠ ∅) then SettlementGovernanceRequired
  else if decide (unknown_effects x ≠ ∅) then SettlementUnknown
  else if decide (pending_effects x ≠ ∅) then SettlementPending
  else Settled.

(** [model.rs: derive_world_settlement], over the canonical effects *)
Definition any_effect (p : EffectProjection → bool) (run : RunProjection) : bool :=
  existsb p (btree_values (effects run)).
Definition derive_world_settlement (run : RunProjection) : WorldSettlementStatus :=
  if any_effect (λ e, bool_decide (reconciliation e = GovernanceRequired)) run
  then SettlementGovernanceRequired
  else if any_effect (λ e, bool_decide (outcome e = Unknown)) run then SettlementUnknown
  else if any_effect (λ e, bool_decide (phase e ≠ CancelledBeforeRelease)
                           && bool_decide (outcome e = Unobserved)) run
  then SettlementPending
  else Settled.
