(* ===== verification/IndexSpec.v ===== *)
(** * The derived index as a function of the canonical maps

    [spec_index run] is the abstract content of [RunDerivedIndex]: every field
    is a comprehension over the canonical maps of the Run.  The file proves that
    each incremental update of the index computes the comprehension of the
    updated Run, and that [rebuild] computes [spec_index] from scratch. *)

From S2P Require Import Prelude KeyIndex Identity Ir Model Effects DerivedIndex.

Definition in_class (c : EffectSettlementClass) (e : EffectProjection) : bool :=
  bool_decide (effect_settlement_class e = c).
Definition scope_is_open (s : ScopeProjection) : bool := bool_decide (scope_status s = Open).
Definition open_parent (s : ScopeProjection) : option string :=
  if scope_is_open s then parent_scope s else None.
Definition in_scope (e : EffectProjection) : option string := Some (effect_scope_id e).
Definition of_intent (o : ObligationProjection) : option string := Some (obligation_intent_id o).
Definition is_mutating (e : EffectProjection) : bool :=
  bool_decide (mutation (profile e) = Mutating).
Definition unresolved_blocking (o : ObligationProjection) : bool :=
  blocking o && negb (resolved o).
Definition committed_in (scs : gmap string ScopeProjection) (e : EffectProjection) : bool :=
  match scs !! effect_scope_id e with
  | Some s => bool_decide (scope_status s = ClosedCommitted)
  | None => false
  end.

(** The per-scope index of an open scope. *)
Definition open_index (effs : gmap string EffectProjection) (order : list string)
    : OpenScopeEffectIndex :=
  {| all_intents := list_to_set order; all_intent_order := order;
     mutating_intents := set_with is_mutating effs order;
     mutating_intent_order := keys_with is_mutating effs order;
     abort_transition_intents := set_with needs_scope_abort_transition effs order;
     abort_blockers := set_with blocks_scope_abort effs order |}.
Definition open_indexes (effs : gmap string EffectProjection)
    (scs : gmap string ScopeProjection) : gmap string OpenScopeEffectIndex :=
  omap (λ s, if scope_is_open s then Some (open_index effs (intent_order s)) else None) scs.

Definition spec_of (scs : gmap string ScopeProjection) (effs : gmap string EffectProjection)
    (obs : gmap string ObligationProjection) (atts : gmap string AttemptProjection)
    : RunDerivedIndex :=
  {| initialized := true;
     active_attempt := pick (having active atts);
     governance_effects := having (in_class ClassGovernance) effs;
     unknown_effects := having (in_class ClassUnknown) effs;
     pending_effects := having (in_class ClassPending) effs;
     terminal_transition_effects := having needs_terminal_transition effs;
     unresolved_blocking_obligations := having unresolved_blocking obs;
     obligation_by_intent := group_by of_intent obs;
     open_descendants := card <$> group_by open_parent scs;
     open_scope_ids := having scope_is_open scs;
     open_scope_effects := open_indexes effs scs;
     effect_count_by_scope := card <$> group_by in_scope effs;
     committed_effect_count := card (having (committed_in scs) effs) |}.
Definition spec_index (r : RunProjection) : RunDerivedIndex :=
  spec_of (scopes r) (effects r) (obligations r) (attempts r).

(** The index after effect [e] has been put in place of its previous version. *)
Definition put_open (e : EffectProjection) (o : OpenScopeEffectIndex) : OpenScopeEffectIndex :=
  let i := intent_id e in
  set_abort_transition_intents
    (put_flag (needs_scope_abort_transition e) i (abort_transition_intents o))
    (set_abort_blockers (put_flag (blocks_scope_abort e) i (abort_blockers o)) o).
Definition put_effect (e : EffectProjection) (status : ScopeStatus) (x : RunDerivedIndex)
    : RunDerivedIndex :=
  let i := intent_id e in
  let put c s := put_flag (in_class c e) i s in
  {| initialized := initialized x; active_attempt := active_attempt x;
     governance_effects := put ClassGovernance (governance_effects x);
     unknown_effects := put ClassUnknown (unknown_effects x);
     pending_effects := put ClassPending (pending_effects x);
     terminal_transition_effects :=
       put_flag (needs_terminal_transition e) i (terminal_transition_effects x);
     unresolved_blocking_obligations := unresolved_blocking_obligations x;
     obligation_by_intent := obligation_by_intent x; open_descendants := open_descendants x;
     open_scope_ids := open_scope_ids x;
     open_scope_effects :=
       if decide (status = Open) then alter (put_open e) (effect_scope_id e) (open_scope_effects x)
       else open_scope_effects x;
     effect_count_by_scope := effect_count_by_scope x;
     committed_effect_count := committed_effect_count x |}.

Lemma put_flag_absent b k (s : gset string) : k ∉ s → put_flag b k s = if b then {[k]} ∪ s else s.
Proof. intros. unfold put_flag. assert (s ∖ {[k]} = s) as -> by set_solver. done. Qed.
Lemma put_flag_flag b c k (s : gset string) : put_flag b k (put_flag c k s) = put_flag b k s.
Proof. unfold put_flag. destruct b, c; set_solver. Qed.
Lemma put_flag_false k (s : gset string) : put_flag false k s = s ∖ {[k]}.
Proof. done. Qed.
Lemma alter_Some {A} (f : A → A) k (m : gmap string A) a :
  m !! k = Some a → alter f k m = <[k := f a]> m.
Proof.
  intros Hk. apply map_eq. intros j. destruct (decide (j = k)) as [->|].
  - by rewrite lookup_alter_eq, lookup_insert_eq, Hk.
  - by rewrite lookup_alter_ne, lookup_insert_ne.
Qed.

(** An index in which effect [i] of scope [sid] occurs in no mutable set. *)
Definition effect_absent (i sid : string) (status : ScopeStatus) (x : RunDerivedIndex) : Prop :=
  i ∉ governance_effects x ∧ i ∉ unknown_effects x ∧ i ∉ pending_effects x
  ∧ i ∉ terminal_transition_effects x
  ∧ (status = Open → ∃ o, open_scope_effects x !! sid = Some o
       ∧ i ∉ abort_transition_intents o ∧ i ∉ abort_blockers o).

Lemma add_effect_state_absent e status x :
  effect_absent (intent_id e) (effect_scope_id e) status x →
  add_effect_state e status x = Ok (put_effect e status x).
Proof.
  intros (Hg & Hu & Hp & Ht & Ho).
  assert (Hc : ∀ c, intent_id e ∉ class_set c x) by (intros []; simpl; set_solver).
  unfold add_effect_state. rewrite !bool_decide_eq_false_2 by auto.
  destruct x as [? ? gov unk pen term ? ? ? ? ose ? ?]. unfold put_effect, in_class.
  cbn -[union difference] in *. rewrite !put_flag_absent by done.
  case_decide as Hs.
  - destruct (Ho Hs) as (o & Hl & Ha & Hb). rewrite (alter_Some _ _ _ o) by done.
    unfold put_open. rewrite !put_flag_absent by done.
    destruct (effect_settlement_class e), (needs_terminal_transition e);
      cbn; rewrite Hl; cbn; destruct (needs_scope_abort_transition e), (blocks_scope_abort e), o; done.
  - destruct (effect_settlement_class e), (needs_terminal_transition e); done.
Qed.

Definition drop_open (i : string) (o : OpenScopeEffectIndex) : OpenScopeEffectIndex :=
  set_abort_transition_intents (put_flag false i (abort_transition_intents o))
    (set_abort_blockers (put_flag false i (abort_blockers o)) o).
Definition drop_effect (i sid : string) (status : ScopeStatus) (x : RunDerivedIndex)
    : RunDerivedIndex :=
  {| initialized := initialized x; active_attempt := active_attempt x;
     governance_effects := put_flag false i (governance_effects x);
     unknown_effects := put_flag false i (unknown_effects x);
     pending_effects := put_flag false i (pending_effects x);
     terminal_transition_effects := put_flag false i (terminal_transition_effects x);
     unresolved_blocking_obligations := unresolved_blocking_obligations x;
     obligation_by_intent := obligation_by_intent x; open_descendants := open_descendants x;
     open_scope_ids := open_scope_ids x;
     open_scope_effects :=
       if decide (status = Open) then alter (drop_open i) sid (open_scope_effects x)
       else open_scope_effects x;
     effect_count_by_scope := effect_count_by_scope x;
     committed_effect_count := committed_effect_count x |}.

(** An index whose settlement sets hold [e] in its own class only. *)
Definition effect_indexed (e : EffectProjection) (status : ScopeStatus) (x : RunDerivedIndex)
    : Prop :=
  (∀ c, c ≠ ClassSettled → intent_id e ∈ class_set c x ↔ effect_settlement_class e = c)
  ∧ (status = Open → is_Some (open_scope_effects x !! effect_scope_id e)).

Lemma remove_effect_state_indexed e status x :
  effect_indexed e status x →
  remove_effect_state e status x = Ok (drop_effect (intent_id e) (effect_scope_id e) status x).
Proof.
  intros [Hc Ho]. unfold remove_effect_state, drop_effect.
  pose proof (Hc ClassGovernance ltac:(done)) as Hg.
  pose proof (Hc ClassUnknown ltac:(done)) as Hu.
  pose proof (Hc ClassPending ltac:(done)) as Hp.
  assert (bool_decide (effect_settlement_class e = ClassSettled)
    || bool_decide (intent_id e ∈ class_set (effect_settlement_class e) x) = true) as ->.
  { rewrite orb_true_iff, !bool_decide_eq_true.
    destruct (decide (effect_settlement_class e = ClassSettled)); naive_solver. }
  destruct x as [? ? gov unk pen term ? ? ? ? ose ? ?]. cbn -[difference] in *.
  assert (Hn : ∀ s : gset string, intent_id e ∉ s → s ∖ {[intent_id e]} = s) by set_solver.
  clear Hc. case_decide as Hs.
  - destruct (Ho Hs) as (o & Hl). rewrite (alter_Some _ _ _ o) by done.
    destruct (effect_settlement_class e); cbn -[difference]; rewrite Hl; cbn -[difference];
      rewrite ?(Hn gov), ?(Hn unk), ?(Hn pen) by (rewrite ?Hg, ?Hu, ?Hp; done); done.
  - destruct (effect_settlement_class e); cbn -[difference];
      rewrite ?(Hn gov), ?(Hn unk), ?(Hn pen) by (rewrite ?Hg, ?Hu, ?Hp; done); done.
Qed.

Lemma put_drop_effect e i sid status x :
  intent_id e = i → effect_scope_id e = sid →
  put_effect e status (drop_effect i sid status x) = put_effect e status x.
Proof.
  intros <- <-. unfold put_effect, drop_effect. cbn -[put_flag].
  rewrite !put_flag_flag. f_equal. case_decide; [|done].
  apply map_eq. intros j. destruct (decide (j = effect_scope_id e)) as [->|].
  - rewrite !lookup_alter_eq. destruct (open_scope_effects x !! _) as [o|]; [|done].
    cbn -[put_flag]. unfold put_open, drop_open. cbn -[put_flag]. by rewrite !put_flag_flag.
  - by rewrite !lookup_alter_ne.
Qed.

Lemma drop_effect_absent i sid status x :
  (status = Open → is_Some (open_scope_effects x !! sid)) →
  effect_absent i sid status (drop_effect i sid status x).
Proof.
  intros Ho. unfold effect_absent, drop_effect, put_flag. cbn.
  repeat split; [set_solver..|]. intros Hs. destruct (Ho Hs) as [o Hl].
  rewrite decide_True by done. rewrite lookup_alter_eq, Hl. eexists. split; [done|].
  unfold drop_open, put_flag. cbn. set_solver.
Qed.

(** Removing an effect and adding its next version. *)
Lemma reindex_effect e e' status x :
  effect_indexed e status x → intent_id e' = intent_id e →
  effect_scope_id e' = effect_scope_id e →
  (remove_effect_state e status x ≫= add_effect_state e' status) = Ok (put_effect e' status x).
Proof.
  intros Hx Hi Hs. rewrite remove_effect_state_indexed by done. cbn [mbind result_bind].
  rewrite add_effect_state_absent.
  - f_equal. by apply put_drop_effect.
  - rewrite Hi, Hs. apply drop_effect_absent, Hx.
Qed.

(** The bookkeeping of [register_effect] before the effect enters its sets. *)
Definition enrol (e : EffectProjection) (o : OpenScopeEffectIndex) : OpenScopeEffectIndex :=
  let i := intent_id e in
  {| all_intents := {[i]} ∪ all_intents o; all_intent_order := all_intent_order o ++ [i];
     mutating_intents := if is_mutating e then {[i]} ∪ mutating_intents o else mutating_intents o;
     mutating_intent_order :=
       if is_mutating e then mutating_intent_order o ++ [i] else mutating_intent_order o;
     abort_transition_intents := abort_transition_intents o; abort_blockers := abort_blockers o |}.
Definition counted (e : EffectProjection) (status : ScopeStatus) (x : RunDerivedIndex)
    : RunDerivedIndex :=
  set_committed_effect_count
    (if decide (status = ClosedCommitted) then committed_effect_count x + 1
     else committed_effect_count x)%N
  (set_effect_count_by_scope
    (<[effect_scope_id e := (entry_count (effect_scope_id e) (effect_count_by_scope x) + 1)%N]>
      (effect_count_by_scope x))
  (set_open_scope_effects
    (if decide (status = Open) then alter (enrol e) (effect_scope_id e) (open_scope_effects x)
     else open_scope_effects x) x)).

Lemma checked_add_exact_Some a b c :
  checked_add_exact a b = Some c ↔ (c = a + b ∧ c ≤ MAX_EXACT_INTEGER)%N.
Proof.
  unfold checked_add_exact. rewrite opt_filter_Some, checked_add_Some, N.leb_le.
  unfold MAX_EXACT_INTEGER, u64_max. naive_solver lia.
Qed.
Lemma checked_add_exact_fits a b :
  (a + b ≤ MAX_EXACT_INTEGER)%N → checked_add_exact a b = Some (a + b)%N.
Proof. intros. by apply checked_add_exact_Some. Qed.

Lemma register_effect_counted e status x :
  (entry_count (effect_scope_id e) (effect_count_by_scope x) + 1 ≤ u64_max)%N →
  (status = ClosedCommitted → (committed_effect_count x + 1 ≤ MAX_EXACT_INTEGER)%N) →
  (status = Open → ∃ o, open_scope_effects x !! effect_scope_id e = Some o
     ∧ intent_id e ∉ all_intents o ∧ intent_id e ∉ mutating_intents o) →
  register_effect e status x = add_effect_state e status (counted e status x).
Proof.
  intros Hc Hm Ho. unfold register_effect, counted.
  rewrite checked_add_fits by done. cbn [ok_or mbind result_bind].
  destruct x as [? ? ? ? ? ? ? ? ? ? ose cnt com]. cbn in Hc, Hm, Ho. destruct status.
  - rewrite decide_False by done. cbn [mbind result_bind]. rewrite !decide_True by done.
    destruct (Ho eq_refl) as (o & Hl & Ha & Hmu). rewrite (alter_Some _ _ _ o) by done.
    cbn. rewrite Hl. cbn. rewrite (bool_decide_eq_true_2 _ Ha). cbn.
    unfold enrol, is_mutating. destruct o. cbn in Hmu |- *.
    destruct (decide (mutation (profile e) = Mutating)) as [Hmt|Hmt].
    + rewrite (bool_decide_eq_true_2 _ Hmt). cbn. by rewrite (bool_decide_eq_true_2 _ Hmu).
    + by rewrite (bool_decide_eq_false_2 _ Hmt).
  - rewrite decide_True by done. cbn. by rewrite checked_add_exact_fits by auto.
  - done.
Qed.

(** The index after a scope has been opened, and after it has been closed. *)
Definition opened (sid : string) (parent : option string) (x : RunDerivedIndex)
    : RunDerivedIndex :=
  let x := set_open_scope_ids ({[sid]} ∪ open_scope_ids x) x in
  let x := set_open_scope_effects
             (<[sid := default_open_scope_index]> (open_scope_effects x)) x in
  match parent with
  | Some p =>
      set_open_descendants
        (<[p := (entry_count p (open_descendants x) + 1)%N]> (open_descendants x)) x
  | None => x
  end.
Definition closed (sid : string) (parent : option string) (committed : N) (x : RunDerivedIndex)
    : RunDerivedIndex :=
  let x := set_open_scope_ids (open_scope_ids x ∖ {[sid]}) x in
  let x := set_open_scope_effects (delete sid (open_scope_effects x)) x in
  let x := set_committed_effect_count (committed_effect_count x + committed)%N x in
  match parent with
  | Some p =>
      let count := (entry_count p (open_descendants x) - 1)%N in
      set_open_descendants
        (if decide (count = 0%N) then delete p (open_descendants x)
         else <[p := count]> (open_descendants x)) x
  | None => x
  end.

(** ** The comprehension under point updates of the Run *)

(** Effects and scopes refer to each other consistently. *)
Record linked (scs : gmap string ScopeProjection) (effs : gmap string EffectProjection) : Prop := {
  linked_id : ∀ i e, effs !! i = Some e → intent_id e = i;
  linked_scope : ∀ i e, effs !! i = Some e →
    ∃ s, scs !! effect_scope_id e = Some s ∧ i ∈ intent_order s;
  linked_member : ∀ sid s i, scs !! sid = Some s → i ∈ intent_order s →
    ∃ e, effs !! i = Some e ∧ effect_scope_id e = sid;
  linked_nodup : ∀ sid s, scs !! sid = Some s → NoDup (intent_order s);
}.

Lemma linked_in_scope scs effs i e s :
  linked scs effs → effs !! i = Some e → scs !! effect_scope_id e = Some s → i ∈ intent_order s.
Proof. intros Hl He Hs. destruct (linked_scope _ _ Hl _ _ He) as (s' & Hs' & ?). naive_solver. Qed.
Lemma linked_not_in_scope scs effs i e sid s :
  linked scs effs → effs !! i = Some e → scs !! sid = Some s → sid ≠ effect_scope_id e →
  i ∉ intent_order s.
Proof. intros Hl He Hs Hne Hi. destruct (linked_member _ _ Hl _ _ _ Hs Hi) as (e' & ? & ?). naive_solver. Qed.
Lemma linked_fresh scs effs i sid s :
  linked scs effs → effs !! i = None → scs !! sid = Some s → i ∉ intent_order s.
Proof. intros Hl He Hs Hi. destruct (linked_member _ _ Hl _ _ _ Hs Hi) as (e' & ? & ?). naive_solver. Qed.

Lemma lookup_open_indexes effs scs sid :
  open_indexes effs scs !! sid
  = s ← scs !! sid; if scope_is_open s then Some (open_index effs (intent_order s)) else None.
Proof. unfold open_indexes. apply lookup_omap. Qed.

Section Specification.
Context (obs : gmap string ObligationProjection) (atts : gmap string AttemptProjection).

Lemma spec_effect_indexed scs effs i e s :
  linked scs effs → effs !! i = Some e → scs !! effect_scope_id e = Some s →
  effect_indexed e (scope_status s) (spec_of scs effs obs atts).
Proof.
  intros Hl He Hs. pose proof (linked_id _ _ Hl _ _ He) as <-. split.
  - assert (Hc : ∀ c, intent_id e ∈ having (in_class c) effs ↔ effect_settlement_class e = c).
    { intros c. rewrite elem_of_having. unfold in_class. setoid_rewrite bool_decide_eq_true.
      naive_solver. }
    intros [] ?; [apply Hc..|done].
  - intros Ho. cbn. rewrite lookup_open_indexes, Hs. cbn. unfold scope_is_open.
    rewrite bool_decide_eq_true_2 by done. done.
Qed.

(** Replacing an effect in place. *)
Lemma spec_put_effect scs effs i e e' s :
  linked scs effs → effs !! i = Some e → scs !! effect_scope_id e = Some s →
  intent_id e' = i → effect_scope_id e' = effect_scope_id e → profile e' = profile e →
  spec_of scs (<[i:=e']> effs) obs atts
  = put_effect e' (scope_status s) (spec_of scs effs obs atts).
Proof.
  intros Hl He Hs Hi Hsid Hp. unfold spec_of, put_effect. rewrite Hi, Hsid.
  cbn -[put_flag]. rewrite !having_insert. f_equal.
  - apply map_eq. intros j. rewrite lookup_open_indexes.
    assert (Hj : scs !! j ≫= (λ s, if scope_is_open s then
        Some (open_index (<[i:=e']> effs) (intent_order s)) else None)
      = (if decide (scope_status s = Open)
         then alter (put_open e') (effect_scope_id e) (open_indexes effs scs)
         else open_indexes effs scs) !! j); [|exact Hj].
    destruct (decide (j = effect_scope_id e)) as [->|Hj].
    + rewrite Hs. cbn -[put_flag]. unfold scope_is_open.
      case_decide as Ho; [rewrite bool_decide_eq_true_2 by done
                         |rewrite bool_decide_eq_false_2 by done; rewrite lookup_open_indexes, Hs;
                          cbn; unfold scope_is_open; by rewrite bool_decide_eq_false_2 by done].
      rewrite lookup_alter_eq, lookup_open_indexes, Hs. cbn -[put_flag]. unfold scope_is_open.
      rewrite bool_decide_eq_true_2 by done. cbn -[put_flag]. f_equal.
      unfold open_index, put_open. rewrite Hi. cbn -[put_flag].
      pose proof (linked_in_scope _ _ _ _ _ Hl He Hs) as Hin.
      assert (Hm : is_mutating e' = is_mutating e) by (unfold is_mutating; by rewrite Hp).
      rewrite (set_with_same is_mutating _ _ _ _ e), (keys_with_same _ _ _ _ _ e) by done.
      by rewrite !set_with_put.
    + assert ((if decide (scope_status s = Open)
         then alter (put_open e') (effect_scope_id e) (open_indexes effs scs)
         else open_indexes effs scs) !! j = open_indexes effs scs !! j) as ->.
      { case_decide; [by rewrite lookup_alter_ne|done]. }
      rewrite lookup_open_indexes. destruct (scs !! j) as [s'|] eqn:Hs'; [|done]. cbn.
      destruct (scope_is_open s'); [|done]. f_equal.
      pose proof (linked_not_in_scope _ _ _ _ _ _ Hl He Hs' Hj) as Hn.
      unfold open_index. by rewrite !set_with_notin, keys_with_notin.
  - by rewrite (group_by_insert_same _ _ _ _ e) by (try done; unfold in_scope; by rewrite Hsid).
  - rewrite <-having_insert, (having_insert_same _ _ _ _ e); [done|done|].
    unfold committed_in. by rewrite Hsid.
Qed.

Lemma entry_count_group {A} (f : A → option string) (m : gmap string A) g :
  entry_count g (card <$> group_by f m) = card (group f m g).
Proof.
  unfold entry_count. rewrite lookup_fmap, lookup_group_by.
  case_decide as Hg; cbn; [by rewrite Hg, card_empty|done].
Qed.

Lemma card_group_insert {A} (f : A → option string) (m : gmap string A) k a g :
  m !! k = None → f a = Some g →
  card <$> group_by f (<[k:=a]> m)
  = <[g := (entry_count g (card <$> group_by f m) + 1)%N]> (card <$> group_by f m).
Proof.
  intros Hk Hf. rewrite entry_count_group, (group_by_insert_new _ _ _ _ g) by done.
  rewrite fmap_insert. f_equal. apply card_insert. by apply having_notin.
Qed.

Lemma open_indexes_insert effs scs sid s :
  open_indexes effs (<[sid := s]> scs)
  = if scope_is_open s then <[sid := open_index effs (intent_order s)]> (open_indexes effs scs)
    else delete sid (open_indexes effs scs).
Proof.
  apply map_eq. intros j. rewrite lookup_open_indexes. destruct (decide (j = sid)) as [->|].
  - rewrite lookup_insert_eq. cbn. destruct (scope_is_open s).
    + by rewrite lookup_insert_eq.
    + by rewrite lookup_delete_eq.
  - rewrite lookup_insert_ne by done. destruct (scope_is_open s).
    + by rewrite lookup_insert_ne, lookup_open_indexes.
    + by rewrite lookup_delete_ne, lookup_open_indexes.
Qed.

Lemma open_indexes_fresh effs scs i e :
  (∀ sid s, scs !! sid = Some s → i ∉ intent_order s) →
  open_indexes (<[i := e]> effs) scs = open_indexes effs scs.
Proof.
  intros Hf. apply map_eq. intros j. rewrite !lookup_open_indexes.
  destruct (scs !! j) as [s|] eqn:Hj; [|done]. cbn. destruct (scope_is_open s); [|done].
  f_equal. unfold open_index. pose proof (Hf _ _ Hj).
  by rewrite !set_with_notin, keys_with_notin.
Qed.

Lemma having_committed_scope scs effs sid s s' :
  scs !! sid = Some s → scope_status s' = scope_status s →
  having (committed_in (<[sid := s']> scs)) effs = having (committed_in scs) effs.
Proof.
  intros Hs Hst. apply having_ext. intros k. unfold committed_in.
  assert (He : ∀ e, match <[sid := s']> scs !! effect_scope_id e with
      | Some s => bool_decide (scope_status s = ClosedCommitted) | None => false end
    = match scs !! effect_scope_id e with
      | Some s => bool_decide (scope_status s = ClosedCommitted) | None => false end).
  { intros e. destruct (decide (effect_scope_id e = sid)) as [->|].
    - by rewrite lookup_insert_eq, Hs, Hst.
    - by rewrite lookup_insert_ne by done. }
  by setoid_rewrite He.
Qed.

(** Registering a new effect in its scope. *)
Lemma effect_absent_fresh scs effs i e s :
  linked scs effs → effs !! i = None → scs !! effect_scope_id e = Some s → intent_id e = i →
  effect_absent i (effect_scope_id e) (scope_status s)
    (counted e (scope_status s) (spec_of scs effs obs atts)).
Proof.
  intros Hl Hn Hs Hi. unfold effect_absent, counted. cbn.
  repeat split; [by apply having_notin..|]. intros Ho. rewrite decide_True by done.
  rewrite lookup_alter_eq, lookup_open_indexes, Hs. cbn. unfold scope_is_open.
  rewrite bool_decide_eq_true_2 by done. eexists. split; [done|]. cbn.
  rewrite !elem_of_set_with. pose proof (linked_fresh _ _ _ _ _ Hl Hn Hs). naive_solver.
Qed.

Lemma spec_register scs effs i e s :
  linked scs effs → effs !! i = None → scs !! effect_scope_id e = Some s → intent_id e = i →
  spec_of (<[effect_scope_id e := add_scope_intent i s]> scs) (<[i := e]> effs) obs atts
  = put_effect e (scope_status s) (counted e (scope_status s) (spec_of scs effs obs atts)).
Proof.
  intros Hl Hn Hs Hi. pose proof (linked_fresh _ _ _ _ _ Hl Hn Hs) as Hf.
  unfold put_effect, counted. rewrite Hi. cbn -[put_flag].
  unfold spec_of. rewrite !having_insert. f_equal.
  - f_equal. by apply group_by_insert_same with (b := s).
  - rewrite <-having_insert. by apply having_insert_same with (b := s).
  - rewrite open_indexes_insert, open_indexes_fresh by (intros; by eapply linked_fresh).
    assert (scope_is_open (add_scope_intent i s) = scope_is_open s) as -> by done.
    unfold scope_is_open. case_decide as Ho.
    + rewrite bool_decide_eq_true_2 by done.
      assert (open_indexes effs scs !! effect_scope_id e = Some (open_index effs (intent_order s))) as Hx.
      { rewrite lookup_open_indexes, Hs. cbn. unfold scope_is_open.
        by rewrite bool_decide_eq_true_2. }
      rewrite (alter_Some (enrol e) _ _ _ Hx), (alter_Some _ _ _ (enrol e (open_index effs (intent_order s))))
        by by rewrite lookup_insert_eq.
      rewrite insert_insert_eq. f_equal. unfold put_open, enrol. rewrite Hi.
      cbn -[put_flag]. unfold open_index. cbn -[put_flag].
      rewrite !set_with_snoc_fresh, keys_with_snoc_fresh by done.
      rewrite put_flag_absent by by rewrite elem_of_set_with; intros [??].
      rewrite list_to_set_snoc_L. done.
    + rewrite bool_decide_eq_false_2 by done. apply delete_id.
      rewrite lookup_open_indexes, Hs. cbn. unfold scope_is_open.
      by rewrite bool_decide_eq_false_2.
  - by apply card_group_insert.
  - rewrite <-having_insert. rewrite (having_committed_scope _ _ _ s) by done.
    rewrite having_insert. unfold committed_in at 1. rewrite Hs.
    rewrite put_flag_absent by by apply having_notin.
    case_decide as Ho; [rewrite (bool_decide_eq_true_2 _ Ho)|by rewrite (bool_decide_eq_false_2 _ Ho)].
    apply card_insert. by apply having_notin.
Qed.

Lemma register_effect_spec scs effs i e s :
  linked scs effs → effs !! i = None → scs !! effect_scope_id e = Some s → intent_id e = i →
  (card (group in_scope effs (effect_scope_id e)) + 1 ≤ u64_max)%N →
  (scope_status s = ClosedCommitted →
   (card (having (committed_in scs) effs) + 1 ≤ MAX_EXACT_INTEGER)%N) →
  register_effect e (scope_status s) (spec_of scs effs obs atts)
  = Ok (spec_of (<[effect_scope_id e := add_scope_intent i s]> scs) (<[i := e]> effs) obs atts).
Proof.
  intros Hl Hn Hs Hi Hc Hm. pose proof (linked_fresh _ _ _ _ _ Hl Hn Hs) as Hf.
  rewrite register_effect_counted.
  - rewrite (spec_register scs effs i e s) by done. apply add_effect_state_absent.
    rewrite Hi. by apply effect_absent_fresh.
  - cbn. by rewrite entry_count_group.
  - done.
  - intros Ho. cbn. rewrite lookup_open_indexes, Hs. cbn. unfold scope_is_open.
    rewrite bool_decide_eq_true_2 by done. eexists. split; [done|]. cbn. rewrite Hi.
    rewrite elem_of_set_with, elem_of_list_to_set. naive_solver.
Qed.

Lemma spec_fresh_scope scs effs sid s :
  scs !! sid = None → intent_order s = [] →
  (∀ i e, effs !! i = Some e → effect_scope_id e ≠ sid) →
  spec_of (<[sid := s]> scs) effs obs atts
  = if scope_is_open s then opened sid (parent_scope s) (spec_of scs effs obs atts)
    else spec_of scs effs obs atts.
Proof.
  intros Hs Ho He.
  assert (Hc : having (committed_in (<[sid:=s]> scs)) effs = having (committed_in scs) effs).
  { apply having_ext. intros k. unfold committed_in.
    split; intros (e & Hk & Hv); exists e; (split; [done|]);
      specialize (He _ _ Hk); by rewrite lookup_insert_ne in *. }
  assert (Hi : open_index effs (intent_order s) = default_open_scope_index) by by rewrite Ho.
  unfold spec_of. rewrite Hc, having_insert, open_indexes_insert, Hi.
  rewrite put_flag_absent by by apply having_notin.
  destruct (scope_is_open s) eqn:Hop.
  - unfold opened. cbn. destruct (parent_scope s) as [p|] eqn:Hp.
    + unfold set_open_descendants. cbn. f_equal. apply card_group_insert; [done|].
      unfold open_parent. by rewrite Hop.
    + unfold set_open_scope_effects. cbn. f_equal. f_equal. apply group_by_insert_none; [done|].
      unfold open_parent. by rewrite Hop.
  - f_equal.
    + f_equal. apply group_by_insert_none; [done|]. unfold open_parent. by rewrite Hop.
    + apply delete_id. by rewrite lookup_open_indexes, Hs.
Qed.

Lemma spec_close_scope scs effs sid s status :
  linked scs effs → scs !! sid = Some s → scope_status s = Open → status ≠ Open →
  spec_of (<[sid := set_scope_status status s]> scs) effs obs atts
  = closed sid (parent_scope s)
      (if decide (status = ClosedCommitted) then N.of_nat (length (intent_order s)) else 0)
      (spec_of scs effs obs atts).
Proof.
  intros Hl Hs Hop Hst. set (s' := set_scope_status status s).
  assert (Hop' : scope_is_open s' = false) by by apply bool_decide_eq_false_2.
  assert (Hop1 : scope_is_open s = true) by by apply bool_decide_eq_true_2.
  assert (Hc : card (having (committed_in (<[sid:=s']> scs)) effs)
    = (card (having (committed_in scs) effs)
       + if decide (status = ClosedCommitted) then N.of_nat (length (intent_order s)) else 0)%N).
  { case_decide as Hcm.
    - rewrite <-card_list_to_set by by apply (linked_nodup _ _ Hl _ _ Hs).
      rewrite <-card_union.
      + f_equal. apply set_eq. intros i. rewrite elem_of_union, elem_of_list_to_set, !elem_of_having.
        unfold committed_in. split.
        * intros (e & He & Hv). destruct (decide (effect_scope_id e = sid)) as [Hsid|Hsid].
          -- right. eapply linked_in_scope; [done..|]. by rewrite Hsid.
          -- left. exists e. by rewrite lookup_insert_ne in Hv.
        * intros [(e & He & Hv)|Hi].
          -- exists e. split; [done|]. destruct (decide (effect_scope_id e = sid)) as [->|].
             ++ rewrite lookup_insert_eq. cbn. by apply bool_decide_eq_true_2.
             ++ by rewrite lookup_insert_ne.
          -- destruct (linked_member _ _ Hl _ _ _ Hs Hi) as (e & He & <-). exists e.
             split; [done|]. rewrite lookup_insert_eq. cbn. by apply bool_decide_eq_true_2.
      + intros i Hi Hj. apply elem_of_list_to_set in Hj. apply elem_of_having in Hi as (e & He & Hv).
        destruct (linked_member _ _ Hl _ _ _ Hs Hj) as (e' & He' & Hsid).
        unfold committed_in in Hv. simplify_eq. rewrite Hs, Hop in Hv. done.
    - rewrite N.add_0_r. f_equal. apply having_ext. intros i. unfold committed_in.
      split; intros (e & He & Hv); exists e; (split; [done|]);
        destruct (decide (effect_scope_id e = sid)) as [Hsid|];
        try (by rewrite lookup_insert_ne in * by done); rewrite Hsid in *.
      + rewrite lookup_insert_eq in Hv. cbn in Hv. by rewrite bool_decide_eq_true in Hv.
      + rewrite Hs, Hop in Hv. done. }
  unfold spec_of, closed. rewrite Hc, having_insert, open_indexes_insert, Hop'. cbn.
  destruct (parent_scope s) as [p|] eqn:Hp.
  - unfold set_open_descendants. cbn. f_equal.
    rewrite (group_by_insert_drop _ _ _ _ s p); [|done|unfold open_parent; by rewrite Hop1|
      unfold open_parent; by rewrite Hop'].
    rewrite entry_count_group.
    assert (Hin : sid ∈ group open_parent scs p).
    { apply elem_of_group. exists s. split; [done|]. unfold open_parent. by rewrite Hop1. }
    pose proof (card_remove _ _ Hin) as Hr.
    assert (card (group open_parent scs p) - 1 = card (group open_parent scs p ∖ {[sid]}))%N
      as -> by lia.
    destruct (decide (group open_parent scs p ∖ {[sid]} = ∅)) as [Hg|Hg].
    + rewrite decide_True by by apply card_0. by rewrite fmap_delete.
    + rewrite decide_False by by rewrite card_0. by rewrite fmap_insert.
  - unfold set_committed_effect_count. cbn. f_equal. f_equal.
    apply group_by_insert_same with (b := s); [done|]. unfold open_parent.
    by rewrite Hop', Hop1, Hp.
Qed.

Lemma spec_put_obligation scs effs o ob :
  obs !! o = None → obligation_id ob = o →
  spec_of scs effs (<[o := ob]> obs) atts
  = set_unresolved_blocking_obligations
      (if unresolved_blocking ob then {[o]} ∪ having unresolved_blocking obs
       else having unresolved_blocking obs)
      (set_obligation_by_intent
        (entry_set_add (obligation_intent_id ob) o (group_by of_intent obs))
        (spec_of scs effs obs atts)).
Proof.
  intros Hn Hid. unfold spec_of, set_unresolved_blocking_obligations. cbn.
  rewrite having_insert, put_flag_absent by by apply having_notin. f_equal.
  unfold entry_set_add. rewrite group_by_default.
  by apply group_by_insert_new.
Qed.
End Specification.

(** The consistency of the canonical maps that [rebuild] relies on. *)
Record indexable (r : RunProjection) : Prop := {
  ix_linked : linked (scopes r) (effects r);
  ix_scope_id : ∀ sid s, scopes r !! sid = Some s → scope_id s = sid;
  ix_intents : ∀ sid s, scopes r !! sid = Some s → intents s = list_to_set (intent_order s);
  ix_attempt_id : ∀ aid a, attempts r !! aid = Some a → attempt_id a = aid;
  ix_one_active : ∀ aid bid a b, attempts r !! aid = Some a → attempts r !! bid = Some b →
    active a = true → active b = true → aid = bid;
  ix_obligation_id : ∀ oid o, obligations r !! oid = Some o → obligation_id o = oid;
  ix_children : ∀ p, (card (group open_parent (scopes r) p) ≤ u64_max)%N;
  ix_scope_count : ∀ sid, (card (group in_scope (effects r) sid) ≤ u64_max)%N;
  ix_committed : (card (having (committed_in (scopes r)) (effects r)) ≤ MAX_EXACT_INTEGER)%N;
}.

Lemma rebuild_attempts r :
  indexable r →
  try_fold rebuild_attempt initialized_index (btree_values (attempts r))
  = Ok (spec_of ∅ ∅ ∅ (attempts r)).
Proof.
  intros Hr.
  destruct (btree_values_total attempt_id rebuild_attempt (λ m x, x = spec_of ∅ ∅ ∅ m)
    (attempts r) initialized_index) as (x & Hx & ->); [|done| |done].
  - intros. by eapply ix_attempt_id.
  - intros m a x Hm Hfresh Ha ->. unfold rebuild_attempt.
    set (k := attempt_id a) in *.
    assert (Hspec : spec_of ∅ ∅ ∅ (<[k:=a]> m)
      = set_active_attempt (pick (having active (<[k:=a]> m))) (spec_of ∅ ∅ ∅ m)) by done.
    rewrite Hspec, having_insert, put_flag_absent by by apply having_notin.
    destruct (active a) eqn:Hact; [|by eexists].
    assert (having active m = ∅) as Hz.
    { apply set_eq. intros j. split; [|intros Hj; by apply elem_of_empty in Hj].
      intros (b & Hb & Hbact)%elem_of_having.
      assert (attempts r !! j = Some b) as Hb' by by eapply lookup_weaken.
      assert (j = k) as -> by by eapply (ix_one_active _ Hr); [exact Hb'|exact Ha|..].
      congruence. }
    cbn. rewrite Hz, pick_empty. rewrite bool_decide_eq_true_2 by done. cbn.
    rewrite union_empty_r_L, pick_singleton. by eexists.
Qed.

(** A scope whose intents are the given list. *)
Definition reorder (l : list string) (s : ScopeProjection) : ScopeProjection :=
  {| scope_id := scope_id s; parent_scope := parent_scope s;
     scope_invocation_id := scope_invocation_id s;
     scope_invocation_path := scope_invocation_path s;
     scope_definition_id := scope_definition_id s; scope_region_path := scope_region_path s;
     scope_site_id := scope_site_id s; scope_status := scope_status s;
     intents := list_to_set l; intent_order := l |}.

Lemma rebuild_open_scopes r :
  indexable r →
  try_fold rebuild_open_scope (spec_of ∅ ∅ ∅ (attempts r)) (btree_values (scopes r))
  = Ok (spec_of (reorder [] <$> scopes r) ∅ ∅ (attempts r)).
Proof.
  intros Hr.
  destruct (btree_values_total scope_id rebuild_open_scope
    (λ m x, x = spec_of (reorder [] <$> m) ∅ ∅ (attempts r))
    (scopes r) (spec_of ∅ ∅ ∅ (attempts r))) as (x & Hx & ->); [| | |done].
  - intros. by eapply ix_scope_id.
  - by rewrite fmap_empty.
  - intros m s x Hm Hfresh Hs ->. unfold rebuild_open_scope.
    rewrite fmap_insert. rewrite spec_fresh_scope; [|by rewrite lookup_fmap, Hfresh|done|done].
    unfold scope_is_open. cbn [reorder scope_status parent_scope].
    destruct (decide (scope_status s = Open)) as [Ho|Ho].
    + rewrite decide_False, bool_decide_eq_true_2 by auto. unfold opened.
      destruct (parent_scope s) as [p|] eqn:Hp; [|by eexists].
      cbn [set_open_scope_effects set_open_scope_ids open_descendants].
      set (y := set_open_scope_effects _ _). cbn.
      rewrite checked_add_fits; [by eexists|].
      rewrite entry_count_group. change (group open_parent (reorder [] <$> m) p)
        with (having (λ s, bool_decide (open_parent s = Some p)) (reorder [] <$> m)).
      rewrite having_fmap.
      etransitivity; [|apply (ix_children _ Hr p)].
      rewrite <-(card_insert (scope_id s)) by by apply having_notin.
      apply card_subseteq. intros k [->%elem_of_singleton|Hk]%elem_of_union.
      * apply elem_of_group. exists s. split; [done|]. unfold open_parent, scope_is_open.
        by rewrite bool_decide_eq_true_2.
      * eapply having_mono in Hk; [|exact Hm]. done.
    + rewrite decide_True, bool_decide_eq_false_2 by auto. by eexists.
Qed.

(** ** The effect loop

    After the intents [D] have been registered the index is that of the Run
    restricted to [D]. *)
Section EffectLoop.
Context (r : RunProjection) (Hr : indexable r).

Definition belongs (sid : string) (e : EffectProjection) : bool :=
  bool_decide (effect_scope_id e = sid).
Definition members (sid : string) (D : list string) : list string :=
  keys_with (belongs sid) (effects r) D.
Definition effects_at (D : list string) : gmap string EffectProjection :=
  filter (λ kv : string * EffectProjection, kv.1 ∈ D) (effects r).
Definition scopes_at (D : list string) : gmap string ScopeProjection :=
  (λ s, reorder (members (scope_id s) D) s) <$> scopes r.

Lemma lookup_effects_at D i e : effects_at D !! i = Some e ↔ effects r !! i = Some e ∧ i ∈ D.
Proof. unfold effects_at. apply map_lookup_filter_Some. Qed.
Lemma lookup_scopes_at D sid s :
  scopes r !! sid = Some s → scopes_at D !! sid = Some (reorder (members sid D) s).
Proof.
  intros Hs. unfold scopes_at. rewrite lookup_fmap, Hs. cbn. by rewrite (ix_scope_id _ Hr _ _ Hs).
Qed.
Lemma lookup_scopes_at_inv D sid s' :
  scopes_at D !! sid = Some s' →
  ∃ s, scopes r !! sid = Some s ∧ s' = reorder (members sid D) s.
Proof.
  unfold scopes_at. rewrite lookup_fmap. intros (s & Hs & ->)%fmap_Some.
  exists s. by rewrite (ix_scope_id _ Hr _ _ Hs).
Qed.
Lemma elem_of_members sid D i :
  i ∈ members sid D ↔ i ∈ D ∧ ∃ e, effects r !! i = Some e ∧ effect_scope_id e = sid.
Proof.
  unfold members. rewrite elem_of_keys_with. unfold belongs.
  by setoid_rewrite bool_decide_eq_true.
Qed.

Lemma linked_at D : NoDup D → linked (scopes_at D) (effects_at D).
Proof.
  pose proof (ix_linked _ Hr) as Hl. intros HD. split.
  - intros i e [He _]%lookup_effects_at. by apply (linked_id _ _ Hl).
  - intros i e [He Hi]%lookup_effects_at. destruct (linked_scope _ _ Hl _ _ He) as (s & Hs & Hin).
    eexists. split; [by apply lookup_scopes_at|]. cbn. apply elem_of_members. eauto.
  - intros sid s' i (s & Hs & ->)%lookup_scopes_at_inv. cbn.
    intros (Hi & e & He & <-)%elem_of_members. exists e. by rewrite lookup_effects_at.
  - intros sid s' (s & Hs & ->)%lookup_scopes_at_inv. by apply keys_with_NoDup.
Qed.

Lemma effects_at_snoc D i e :
  effects r !! i = Some e → effects_at (D ++ [i]) = <[i := e]> (effects_at D).
Proof.
  intros He. apply map_eq. intros j. apply option_eq. intros b.
  rewrite lookup_effects_at, elem_of_app, list_elem_of_singleton.
  destruct (decide (j = i)) as [->|].
  - rewrite lookup_insert_eq. naive_solver.
  - rewrite lookup_insert_ne, lookup_effects_at by done. naive_solver.
Qed.

Lemma scopes_at_snoc D i e s :
  effects r !! i = Some e → scopes r !! effect_scope_id e = Some s →
  scopes_at (D ++ [i])
  = <[effect_scope_id e := add_scope_intent i (reorder (members (effect_scope_id e) D) s)]>
      (scopes_at D).
Proof.
  intros He Hs. unfold scopes_at. apply map_eq. intros j. rewrite lookup_fmap.
  assert (Hm : ∀ sid, members sid (D ++ [i])
    = if decide (effect_scope_id e = sid) then members sid D ++ [i] else members sid D).
  { intros sid. unfold members, keys_with. rewrite filter_app, filter_cons, filter_nil.
    assert (key_is (belongs sid) (effects r) i = bool_decide (effect_scope_id e = sid)) as ->
      by (unfold key_is; by rewrite He).
    destruct (decide (effect_scope_id e = sid)) as [Hd|Hd].
    - by rewrite (bool_decide_eq_true_2 _ Hd), decide_True.
    - by rewrite (bool_decide_eq_false_2 _ Hd), decide_False, app_nil_r. }
  destruct (decide (j = effect_scope_id e)) as [->|Hj].
  - rewrite lookup_insert_eq, Hs. cbn. rewrite (ix_scope_id _ Hr _ _ Hs), Hm, decide_True by done.
    unfold reorder, add_scope_intent. cbn. by rewrite list_to_set_snoc_L.
  - rewrite lookup_insert_ne, lookup_fmap by done. destruct (scopes r !! j) as [s'|] eqn:Hs'; [|done].
    cbn. by rewrite (ix_scope_id _ Hr _ _ Hs'), Hm, decide_False.
Qed.

Lemma card_group_at D sid i e :
  effects r !! i = Some e → i ∉ D → effect_scope_id e = sid →
  (card (group in_scope (effects_at D) sid) + 1 ≤ card (group in_scope (effects r) sid))%N.
Proof.
  intros He Hi Hsid. rewrite <-(card_insert i).
  - apply card_subseteq. intros j [->%elem_of_singleton|Hj]%elem_of_union; apply elem_of_group.
    + exists e. unfold in_scope. by rewrite Hsid.
    + apply elem_of_group in Hj as (b & [Hb _]%lookup_effects_at & Hf). eauto.
  - intros (b & [_ Hb]%lookup_effects_at & _)%elem_of_group. done.
Qed.

Lemma card_committed_at D i e s :
  effects r !! i = Some e → i ∉ D → scopes r !! effect_scope_id e = Some s →
  scope_status s = ClosedCommitted →
  (card (having (committed_in (scopes_at D)) (effects_at D)) + 1
   ≤ card (having (committed_in (scopes r)) (effects r)))%N.
Proof.
  intros He Hi Hs Hst. rewrite <-(card_insert i).
  - apply card_subseteq. intros j [->%elem_of_singleton|Hj]%elem_of_union; apply elem_of_having.
    + exists e. split; [done|]. unfold committed_in. rewrite Hs. by apply bool_decide_eq_true_2.
    + apply elem_of_having in Hj as (b & [Hb _]%lookup_effects_at & Hf). exists b. split; [done|].
      unfold committed_in in *. destruct (scopes_at D !! effect_scope_id b) as [s'|] eqn:Hs'; [|done].
      by apply lookup_scopes_at_inv in Hs' as (s'' & -> & ->).
  - intros (b & [_ Hb]%lookup_effects_at & _)%elem_of_having. done.
Qed.

Definition index_at (D : list string) : RunDerivedIndex :=
  spec_of (scopes_at D) (effects_at D) ∅ (attempts r).

Lemma rebuild_scope_effects_at D sid s :
  scopes r !! sid = Some s → NoDup D → (∀ i, i ∈ intent_order s → i ∉ D) →
  rebuild_scope_effects r (index_at D) s = Ok (index_at (D ++ intent_order s)).
Proof.
  intros Hs HD Hdis. pose proof (ix_linked _ Hr) as Hl.
  destruct (try_fold_total (λ x i,
      e ← ok_or (effects r !! i) Validation;
      _ ← require (bool_decide (effect_scope_id e = scope_id s)) Validation;
      register_effect e (scope_status s) x) (λ l x, x = index_at (D ++ l)) (intent_order s)
      (index_at D)) as (x & Hx & ->); [by rewrite app_nil_r| |done].
  intros l i rest x Hord ->.
  pose proof (linked_nodup _ _ Hl _ _ Hs) as Hnd. rewrite Hord in Hnd.
  assert (Hin : i ∈ intent_order s) by (rewrite Hord; set_solver).
  destruct (linked_member _ _ Hl _ _ _ Hs Hin) as (e & He & <-).
  assert (HDl : NoDup (D ++ l)).
  { apply NoDup_app in Hnd as (? & ? & ?). apply NoDup_app. split; [done|]. split; [|done].
    intros j Hj Hjl. apply (Hdis j); [rewrite Hord; set_solver|done]. }
  assert (Hfresh : i ∉ D ++ l).
  { rewrite elem_of_app. intros [Hi|Hi]; [by apply (Hdis i)|].
    apply NoDup_app in Hnd as (_ & Hd & _). apply (Hd _ Hi). by left. }
  rewrite He. cbn [ok_or mbind result_bind].
  rewrite (ix_scope_id _ Hr _ _ Hs), bool_decide_eq_true_2 by done. cbn [require mbind result_bind].
  eexists. split; [|done].
  pose proof (lookup_scopes_at (D ++ l) _ _ Hs) as Hs'.
  unfold index_at. change (scope_status s)
    with (scope_status (reorder (members (effect_scope_id e) (D ++ l)) s)).
  rewrite (register_effect_spec _ _ _ _ i e (reorder (members (effect_scope_id e) (D ++ l)) s)).
  - rewrite app_assoc, (effects_at_snoc _ _ e), (scopes_at_snoc _ _ e s) by done. done.
  - by apply linked_at.
  - apply eq_None_not_Some. intros [b [_ Hb]%lookup_effects_at]. done.
  - done.
  - by apply (linked_id _ _ Hl).
  - etransitivity; [by apply (card_group_at _ _ i e)|]. apply (ix_scope_count _ Hr).
  - intros Hst. etransitivity; [by apply (card_committed_at _ i e s)|].
    apply (ix_committed _ Hr).
Qed.

Definition processed (l : list ScopeProjection) : list string := l ≫= intent_order.

Lemma elem_of_processed l i : i ∈ processed l ↔ ∃ s, s ∈ l ∧ i ∈ intent_order s.
Proof. unfold processed. rewrite list_elem_of_bind. naive_solver. Qed.

Lemma members_app sid D D' : members sid (D ++ D') = members sid D ++ members sid D'.
Proof. apply filter_app. Qed.

Lemma members_processed l sid s :
  scopes r !! sid = Some s → NoDup (scope_id <$> l) →
  (∀ s', s' ∈ l → scopes r !! scope_id s' = Some s') →
  members sid (processed l) = if decide (sid ∈ scope_id <$> l) then intent_order s else [].
Proof.
  pose proof (ix_linked _ Hr) as Hl. intros Hs Hnd Hall.
  assert (Hone : ∀ s', scopes r !! scope_id s' = Some s' →
    members sid (intent_order s') = if decide (scope_id s' = sid) then intent_order s' else []).
  { intros s' Hs'. unfold members. case_decide as Hd.
    - apply keys_with_all. intros i Hi. destruct (linked_member _ _ Hl _ _ _ Hs' Hi) as (e & He & Hse).
      exists e. split; [done|]. apply bool_decide_eq_true_2. congruence.
    - apply keys_with_none. intros i e Hi He. apply bool_decide_eq_false_2.
      destruct (linked_member _ _ Hl _ _ _ Hs' Hi) as (e' & He' & Hse).
      congruence. }
  induction l as [|s' l IH]; [done|].
  cbn [fmap list_fmap] in *. apply NoDup_cons in Hnd as [Hni Hnd].
  change (processed (s' :: l)) with (intent_order s' ++ processed l).
  rewrite members_app, Hone by (apply Hall; by left).
  rewrite IH; [|done|intros; apply Hall; by right].
  destruct (decide (scope_id s' = sid)) as [Hd|Hd].
  - subst sid. rewrite (Hall s') in Hs by by left. injection Hs as ->.
    rewrite decide_False, app_nil_r by done. by rewrite decide_True by by left.
  - cbn. destruct (decide (sid ∈ scope_id <$> l)).
    + by rewrite decide_True by by right.
    + rewrite decide_False; [done|]. by rewrite elem_of_cons; intros [->|].
Qed.

Lemma btree_scopes_nodup : NoDup (scope_id <$> btree_values (scopes r)).
Proof.
  enough (scope_id <$> btree_values (scopes r) = (btree_list (scopes r)).*1) as ->
    by apply btree_list_NoDup_keys.
  unfold btree_values. rewrite <-list_fmap_compose. apply list_fmap_ext.
  intros i [k a] Hi. apply list_elem_of_lookup_2, elem_of_btree_list in Hi. cbn.
  by eapply ix_scope_id.
Qed.

Lemma scopes_at_all : scopes_at (processed (btree_values (scopes r))) = scopes r.
Proof.
  apply map_eq. intros sid. destruct (scopes r !! sid) as [s|] eqn:Hs.
  - rewrite (lookup_scopes_at _ _ s) by done.
    rewrite (members_processed _ _ s); [|done|apply btree_scopes_nodup|].
    + rewrite decide_True.
      * pose proof (ix_intents _ Hr _ _ Hs) as Hi. f_equal. destruct s. unfold reorder. cbn in *.
        by rewrite Hi.
      * apply list_elem_of_fmap. exists s. rewrite elem_of_btree_values.
        by rewrite (ix_scope_id _ Hr _ _ Hs); eauto.
    + intros s' [k Hk]%elem_of_btree_values. by rewrite (ix_scope_id _ Hr _ _ Hk).
  - unfold scopes_at. by rewrite lookup_fmap, Hs.
Qed.

Lemma effects_at_all : effects_at (processed (btree_values (scopes r))) = effects r.
Proof.
  apply map_eq. intros i. apply option_eq. intros e. rewrite lookup_effects_at.
  split; [by intros [? _]|]. intros He. split; [done|]. apply elem_of_processed.
  destruct (linked_scope _ _ (ix_linked _ Hr) _ _ He) as (s & Hs & Hi). exists s.
  rewrite elem_of_btree_values. eauto.
Qed.

Lemma rebuild_effects :
  try_fold (rebuild_scope_effects r) (spec_of (reorder [] <$> scopes r) ∅ ∅ (attempts r))
    (btree_values (scopes r))
  = Ok (spec_of (scopes r) (effects r) ∅ (attempts r)).
Proof.
  destruct (try_fold_total (rebuild_scope_effects r)
    (λ l x, NoDup (processed l) ∧ x = index_at (processed l))
    (btree_values (scopes r)) (index_at [])) as (x & Hx & _ & ->).
  - split; [constructor|done].
  - intros l s rest x Hl [Hnd ->].
    assert (Hlk : ∀ s', s' ∈ l ++ s :: rest → scopes r !! scope_id s' = Some s').
    { intros s' Hs'. rewrite <-Hl in Hs'. apply elem_of_btree_values in Hs' as [k Hk].
      by rewrite (ix_scope_id _ Hr _ _ Hk). }
    assert (Hs : scopes r !! scope_id s = Some s) by (apply Hlk; set_solver).
    pose proof btree_scopes_nodup as Hids. rewrite Hl, fmap_app in Hids. cbn in Hids.
    apply NoDup_app in Hids as (_ & Hids & _).
    assert (Hdis : ∀ i, i ∈ intent_order s → i ∉ processed l).
    { intros i Hi (s' & Hs' & Hi')%elem_of_processed.
      assert (Hlk' : scopes r !! scope_id s' = Some s') by (apply Hlk; set_solver).
      pose proof (ix_linked _ Hr) as Hlinked.
      destruct (linked_member _ _ Hlinked _ _ _ Hs Hi) as (e & He & Hse).
      destruct (linked_member _ _ Hlinked _ _ _ Hlk' Hi') as (e' & He' & Hse').
      apply (Hids (scope_id s)); [|by left]. apply list_elem_of_fmap. exists s'.
      split; [congruence|done]. }
    rewrite (rebuild_scope_effects_at _ (scope_id s)) by done.
    eexists. split; [done|].
    assert (processed (l ++ [s]) = processed l ++ intent_order s) as ->.
    { unfold processed. rewrite bind_app. cbn. by rewrite app_nil_r. }
    split; [|done]. apply NoDup_app. split; [done|]. split; [set_solver|].
    apply (linked_nodup _ _ (ix_linked _ Hr) _ _ Hs).
  - unfold index_at in Hx at 2. rewrite scopes_at_all, effects_at_all in Hx. rewrite <-Hx.
    f_equal. unfold index_at. f_equal.
    symmetry. apply map_eq. intros i. apply option_eq. intros e. rewrite lookup_effects_at.
    split; [by intros [_ Hi%elem_of_nil]|]. by rewrite lookup_empty.
Qed.

Lemma rebuild_obligations :
  try_fold rebuild_obligation (spec_of (scopes r) (effects r) ∅ (attempts r))
    (btree_values (obligations r))
  = Ok (spec_index r).
Proof.
  destruct (btree_values_total obligation_id rebuild_obligation
    (λ m x, x = spec_of (scopes r) (effects r) m (attempts r)) (obligations r)
    (spec_of (scopes r) (effects r) ∅ (attempts r))) as (x & Hx & ->); [|done| |done].
  - intros. by eapply ix_obligation_id.
  - intros m o x Hm Hfresh Ho ->. unfold rebuild_obligation. cbn [spec_of obligation_by_intent].
    unfold entry_set. rewrite group_by_default.
    rewrite bool_decide_eq_true_2 by by apply having_notin. cbn [require mbind result_bind].
    rewrite (spec_put_obligation _ _ _ _ (obligation_id o)) by done.
    unfold unresolved_blocking. destruct (blocking o && negb (resolved o)); by eexists.
Qed.

Lemma rebuild_spec : rebuild r = Ok (spec_index r).
Proof.
  unfold rebuild. rewrite rebuild_attempts by done. cbn [mbind result_bind].
  rewrite rebuild_open_scopes by done. cbn [mbind result_bind].
  rewrite rebuild_effects. cbn [mbind result_bind]. apply rebuild_obligations.
Qed.
End EffectLoop.
