(* ===== verification/Reducer.v ===== *)
(** * The projection reducer

    Models [Projection::apply_event] of [crates/cymule-core/src/model.rs] with
    every per-event function it calls, and the obligation summary of
    [machine.rs].  A projection is passed and returned; an [Err] has no
    projection, as in the machine, which rolls a failed event back. *)

From S2P Require Import Prelude Identity Ir Model Effects DerivedIndex.

Definition SCOPE_OBLIGATION_COMMITMENT_DOMAIN : string := "cymule.scope-obligation-lineage/1".

Section Reducer.
Context `{Sha256} `{Canonical}.

(** ** Obligations ([machine.rs]) *)

Definition observed_terminally (e : EffectProjection) : bool :=
  bool_decide (outcome e = Applied) || bool_decide (outcome e = NotApplied).

Definition obligation_for_effect (e : EffectProjection) : core ObligationProjection :=
  _ ← require (bool_decide (mutation (profile e) = Mutating)) Validation;
  id ← effect_obligation_id (intent_id e);
  Ok {| obligation_id := id; obligation_intent_id := intent_id e; blocking := true;
        resolved := observed_terminally e |}.

Definition scope_obligation_commitment_genesis : core string :=
  content_id SCOPE_OBLIGATION_COMMITMENT_DOMAIN PreCommitmentGenesis.

Definition reducer_derived (o : ObligationProjection) : core () :=
  expected ← effect_obligation_id (obligation_intent_id o);
  require (bool_decide (obligation_id o = expected) && blocking o) Validation.

Definition scope_obligation_commitment_append (parent : string) (o : ObligationProjection)
    : core string :=
  _ ← validate_content_id parent;
  _ ← reducer_derived o;
  content_id SCOPE_OBLIGATION_COMMITMENT_DOMAIN (PreCommitmentAppend parent o).

Definition scope_obligation_summary (l : list ObligationProjection) : core (N * string) :=
  genesis ← scope_obligation_commitment_genesis;
  try_fold (λ acc o,
    _ ← reducer_derived o;
    count ← ok_or (checked_add_exact acc.1 1) Validation;
    commitment ← scope_obligation_commitment_append acc.2 o;
    Ok (count, commitment)) (0%N, genesis) l.

(** ** Attempts and epochs *)

Definition verify_attempt_numbers (continuation_epoch execution_fence : N) : core () :=
  if (MAX_EXACT_INTEGER <? continuation_epoch)%N || (execution_fence =? 0)%N
     || (MAX_EXACT_INTEGER <? execution_fence)%N
  then Err Validation else Ok ().

Definition apply_attempt_started (run : RunProjection) (aid cid occ : string)
    (cepoch fence : N) : core RunProjection :=
  _ ← require (bool_decide (cepoch = epoch run)) IllegalTransition;
  _ ← verify_attempt_numbers cepoch fence;
  _ ← require (bool_decide (attempts run !! aid = None)) IllegalTransition;
  _ ← require (bool_decide (active_attempt (derived run) = None)) IllegalTransition;
  let run := set_attempts (<[aid :=
    {| attempt_id := aid; continuation_id := cid; occurrence_binding := occ;
       continuation_epoch := cepoch; execution_fence := fence; active := true |}]>
    (attempts run)) run in
  Ok (set_derived (set_active_attempt (Some aid) (derived run)) run).

Definition apply_attempt_yielded (run : RunProjection) (aid : string) (cepoch fence : N)
    : core RunProjection :=
  _ ← verify_attempt_numbers cepoch fence;
  attempt ← ok_or (attempts run !! aid) NotFound;
  _ ← require (active attempt && bool_decide (continuation_epoch attempt = cepoch)
               && bool_decide (execution_fence attempt = fence)) IllegalTransition;
  let run := set_attempts (<[aid := set_active false attempt]> (attempts run)) run in
  Ok (set_derived (set_active_attempt None (derived run)) run).

(** [run.epoch.checked_add(1).filter(|value| value <= MAX_EXACT_INTEGER)] *)
Definition next_epoch (run : RunProjection) : core N :=
  ok_or (checked_add_exact (epoch run) 1) IllegalTransition.

Definition apply_epoch_advanced (run : RunProjection) (e : N) : core RunProjection :=
  expected ← next_epoch run;
  _ ← require (bool_decide (e = expected)) IllegalTransition;
  let run := set_epoch e run in
  match active_attempt (derived run) with
  | Some aid =>
      let run := set_derived (set_active_attempt None (derived run)) run in
      match attempts run !! aid with
      | Some attempt => Ok (set_attempts (<[aid := set_active false attempt]> (attempts run)) run)
      | None => Ok run
      end
  | None => Ok run
  end.

(** ** Scope and effect indexes *)

Definition index_opened_scope (run : RunProjection) (sid : string) : core RunProjection :=
  let parent := scopes run !! sid ≫= parent_scope in
  let x := derived run in
  _ ← require (bool_decide (sid ∉ open_scope_ids x)
               && bool_decide (open_scope_effects x !! sid = None)) Validation;
  let x := set_open_scope_ids ({[sid]} ∪ open_scope_ids x) x in
  let x := set_open_scope_effects
             (<[sid := default_open_scope_index]> (open_scope_effects x)) x in
  match parent with
  | Some p =>
      count ← ok_or (checked_add_exact (entry_count p (open_descendants x)) 1) Validation;
      Ok (set_derived (set_open_descendants (<[p := count]> (open_descendants x)) x) run)
  | None => Ok (set_derived x run)
  end.

Definition index_closed_scope (run : RunProjection) (sid : string) (committed : bool)
    : core RunProjection :=
  let parent := scopes run !! sid ≫= parent_scope in
  let x := derived run in
  _ ← require (bool_decide (sid ∈ open_scope_ids x)) Validation;
  let x := set_open_scope_ids (open_scope_ids x ∖ {[sid]}) x in
  effects ← ok_or (open_scope_effects x !! sid) Validation;
  let x := set_open_scope_effects (delete sid (open_scope_effects x)) x in
  x ← (if committed then
         count ← ok_or (checked_add_exact (committed_effect_count x)
                          (N.of_nat (size (all_intents effects)))) Validation;
         Ok (set_committed_effect_count count x)
       else Ok x);
  match parent with
  | Some p =>
      count ← ok_or (open_descendants x !! p) Validation;
      count ← ok_or (checked_sub count 1) Validation;
      Ok (set_derived (set_open_descendants
            (if decide (count = 0%N) then delete p (open_descendants x)
             else <[p := count]> (open_descendants x)) x) run)
  | None => Ok (set_derived x run)
  end.

(** The loop body of [update_obligation] for one indexed obligation. *)
Definition update_one_obligation (is_resolved : bool) (run : RunProjection) (oid : string)
    : core RunProjection :=
  match obligations run !! oid with
  | Some o =>
      if decide (resolved o ≠ is_resolved) then
        let x := derived run in
        x ← (if blocking o then
               if is_resolved then
                 _ ← require (bool_decide (oid ∈ unresolved_blocking_obligations x)) Validation;
                 Ok (set_unresolved_blocking_obligations
                       (unresolved_blocking_obligations x ∖ {[oid]}) x)
               else
                 _ ← require (bool_decide (oid ∉ unresolved_blocking_obligations x)) Validation;
                 Ok (set_unresolved_blocking_obligations
                       ({[oid]} ∪ unresolved_blocking_obligations x) x)
             else Ok x);
        Ok (set_derived x
              (set_obligations (<[oid := set_resolved is_resolved o]> (obligations run)) run))
      else Ok run
  | None => Ok run
  end.

Definition update_obligation (run : RunProjection) (iid : string) : core RunProjection :=
  let is_resolved :=
    match effects run !! iid with
    | Some e => bool_decide (phase e = CancelledBeforeRelease) || observed_terminally e
    | None => false
    end in
  let ids := entry_set iid (obligation_by_intent (derived run)) in
  try_fold (update_one_obligation is_resolved) run (btree_elements ids).

Definition update_world_settlement (run : RunProjection) : RunProjection :=
  set_world_settlement (settlement (derived run)) run.

(** ** Scopes *)

Definition apply_scope_opened (run : RunProjection) (sid parent iid : string)
    (path : list InvocationPathSegment) (did : string) (rpath : list nat) (site : string)
    : core RunProjection :=
  _ ← require (bool_decide (scopes run !! sid = None)) IllegalTransition;
  parent_projection ← ok_or (scopes run !! parent) NotFound;
  _ ← require (bool_decide (scope_status parent_projection = Open)) IllegalTransition;
  let run := set_scopes (<[sid :=
    {| scope_id := sid; parent_scope := Some parent; scope_invocation_id := iid;
       scope_invocation_path := path; scope_definition_id := did;
       scope_region_path := rpath; scope_site_id := Some site; scope_status := Open;
       intents := ∅; intent_order := [] |}]> (scopes run)) run in
  index_opened_scope run sid.

Definition open_scope_close_index (run : RunProjection) (sid : string)
    : core OpenScopeEffectIndex :=
  scope ← ok_or (scopes run !! sid) NotFound;
  _ ← require (bool_decide (scope_status scope = Open)) IllegalTransition;
  _ ← require (bool_decide (entry_count sid (open_descendants (derived run)) = 0%N))
        IllegalTransition;
  ok_or (open_scope_effects (derived run) !! sid) Validation.

Definition derived_scope_obligations (run : RunProjection) (x : OpenScopeEffectIndex)
    : core (gmap string ObligationProjection) :=
  try_fold (λ expected iid,
    e ← ok_or (effects run !! iid) NotFound;
    o ← obligation_for_effect e;
    _ ← require (bool_decide (expected !! obligation_id o = None)) Validation;
    Ok (<[obligation_id o := o]> expected)) ∅ (mutating_intent_order x).

(** The loop body of [insert_scope_obligations]. *)
Definition insert_one_obligation (x : OpenScopeEffectIndex) (run : RunProjection)
    (o : ObligationProjection) : core RunProjection :=
  _ ← require (bool_decide (obligation_intent_id o ∈ mutating_intents x)) IllegalTransition;
  _ ← require (bool_decide (obligations run !! obligation_id o = None)) IllegalTransition;
  let run := set_obligations (<[obligation_id o := o]> (obligations run)) run in
  let y := derived run in
  _ ← require (bool_decide
        (obligation_id o ∉ entry_set (obligation_intent_id o) (obligation_by_intent y))) Validation;
  let y := set_obligation_by_intent
             (entry_set_add (obligation_intent_id o) (obligation_id o) (obligation_by_intent y))
             y in
  y ← (if blocking o && negb (resolved o) then
         _ ← require (bool_decide (obligation_id o ∉ unresolved_blocking_obligations y)) Validation;
         Ok (set_unresolved_blocking_obligations
               ({[obligation_id o]} ∪ unresolved_blocking_obligations y) y)
       else Ok y);
  Ok (set_derived y run).

Definition insert_scope_obligations (run : RunProjection) (x : OpenScopeEffectIndex)
    (expected : gmap string ObligationProjection) : core RunProjection :=
  try_fold (insert_one_obligation x) run (btree_values expected).

(** [run.scopes.get_mut(id)?.status = status] *)
Definition close_scope (run : RunProjection) (sid : string) (status : ScopeStatus)
    : core RunProjection :=
  scope ← ok_or (scopes run !! sid) NotFound;
  Ok (set_scopes (<[sid := set_scope_status status scope]> (scopes run)) run).

Definition apply_scope_committed (run : RunProjection) (sid : string) (count : N)
    (commitment : string) : core RunProjection :=
  x ← open_scope_close_index run sid;
  expected ← derived_scope_obligations run x;
  order ← try_map (λ iid,
    id ← effect_obligation_id iid;
    ok_or (expected !! id) NotFound) (mutating_intent_order x);
  summary ← scope_obligation_summary order;
  _ ← require (bool_decide (count = summary.1) && bool_decide (commitment = summary.2))
        IllegalTransition;
  run ← close_scope run sid ClosedCommitted;
  run ← index_closed_scope run sid true;
  insert_scope_obligations run x expected.

(** The state a scope abort gives an unreleased effect. *)
Definition aborted_effect (e : EffectProjection) : EffectProjection :=
  set_effect_state (execution_availability e) CancelledBeforeRelease NotApplied Resolved e.

(** Replace one effect and re-index it, as the abort and terminal loops do. *)
Definition replace_effect (run : RunProjection) (iid : string) (previous next : EffectProjection)
    (status : ScopeStatus) : core RunProjection :=
  x ← remove_effect_state previous status (derived run);
  x ← add_effect_state next status x;
  Ok (set_effects (<[iid := next]> (effects run)) (set_derived x run)).

Definition apply_scope_aborted (run : RunProjection) (sid : string) : core RunProjection :=
  x ← open_scope_close_index run sid;
  _ ← require (bool_decide (abort_blockers x = ∅)) IllegalTransition;
  run ← try_fold (λ run iid,
    previous ← ok_or (effects run !! iid) NotFound;
    replace_effect run iid previous (aborted_effect previous) Open)
    run (btree_elements (abort_transition_intents x));
  run ← close_scope run sid ClosedAborted;
  run ← index_closed_scope run sid false;
  Ok (update_world_settlement run).

(** ** Effects *)

Definition validate_effect_proposal_header (run : RunProjection) (iid origin schema : string)
    (binding : ArtifactRef) : core () :=
  _ ← require (bool_decide (effects run !! iid = None)) IllegalTransition;
  _ ← require (bool_decide (origin = current_plan run)) Validation;
  _ ← require (bool_decide (schema = EFFECT_SCHEMA_VERSION)) Validation;
  require (bool_decide (artifact_kind binding = EXECUTION_BINDING_ARTIFACT_KIND)
           && bool_decide (artifact_id binding = current_binding_context run)) Validation.

Definition apply_effect_proposed (run : RunProjection) (event_run : string)
    (iid origin sid inv : string) (path : list InvocationPathSegment) (did : string)
    (rpath : list nat) (site occ schema op : string) (prof : EffectProfile)
    (arguments binding : ArtifactRef) (occ_binding : string) : core RunProjection :=
  _ ← validate_effect_proposal_header run iid origin schema binding;
  scope ← ok_or (scopes run !! sid) NotFound;
  _ ← require (bool_decide (scope_status scope = Open)) IllegalTransition;
  expected ← effect_intent_id event_run (current_plan run) inv site sid occ arguments schema;
  _ ← require (bool_decide (iid = expected)) IdentityMismatch;
  let run := set_scopes (<[sid := add_scope_intent iid scope]> (scopes run)) run in
  let e := {| intent_id := iid; origin_plan_id := origin; effect_scope_id := sid;
              effect_invocation_id := inv; effect_invocation_path := path;
              effect_definition_id := did; effect_region_path := rpath;
              effect_site_id := site; effect_occurrence := occ;
              effect_schema_version := schema; effect_operation := op; profile := prof;
              args := arguments; execution_binding := binding;
              effect_occurrence_binding := occ_binding;
              execution_availability := Available; phase := Admitted_;
              outcome := Unobserved; reconciliation := NotRequired |} in
  x ← register_effect e Open (derived run);
  let run := set_effects (<[iid := e]> (effects run)) (set_derived x run) in
  Ok (update_world_settlement run).

Definition apply_effect_transitioned (run : RunProjection) (iid : string)
    (t : EffectTransition) : core RunProjection :=
  previous ← ok_or (effects run !! iid) NotFound;
  scope ← ok_or (scopes run !! effect_scope_id previous) NotFound;
  let status := scope_status scope in
  next ← apply_effect_transition previous status t;
  run ← replace_effect run iid previous next status;
  run ← update_obligation run iid;
  Ok (update_world_settlement run).

(** ** Bindings, migration, completion and termination *)

Definition apply_binding_updated (run : RunProjection) (previous current : string)
    : core RunProjection :=
  _ ← require (bool_decide (current_binding_context run = previous)) IllegalTransition;
  Ok (set_binding_lineage (binding_lineage run ++ [current])
        (set_current_binding_context current run)).

Definition apply_run_migrated (run : RunProjection)
    (from_plan to_plan from_binding to_binding : string) (target : N) : core RunProjection :=
  _ ← require (bool_decide (current_plan run = from_plan)
               && bool_decide (current_binding_context run = from_binding)
               && bool_decide (active_attempt (derived run) = None)
               && bool_decide (checked_add (epoch run) 1 = Some target)
               && (target <=? MAX_EXACT_INTEGER)%N) IllegalTransition;
  let run := set_current_binding_context to_binding (set_current_plan to_plan run) in
  let run := set_plan_lineage (plan_lineage run ++ [to_plan]) run in
  let run := set_binding_lineage (binding_lineage run ++ [to_binding]) run in
  Ok (set_epoch target run).

Definition apply_run_completed (run : RunProjection) (result : option ArtifactRef)
    : core RunProjection :=
  let x := derived run in
  _ ← require (bool_decide (active_attempt x = None)) IllegalTransition;
  _ ← require (bool_decide (unresolved_blocking_obligations x = ∅)) IllegalTransition;
  _ ← require (bool_decide (open_scope_ids x = ∅)) IllegalTransition;
  _ ← require (bool_decide (settlement x = Settled)) IllegalTransition;
  Ok (set_run_result result (set_execution_status Completed run)).

Definition terminalize_one (run : RunProjection) (iid : string) : core RunProjection :=
  previous ← ok_or (effects run !! iid) Validation;
  scope ← ok_or (scopes run !! effect_scope_id previous) Validation;
  replace_effect run iid previous (terminalized_effect previous) (scope_status scope).

Definition abort_open_scope (run : RunProjection) (sid : string) : core RunProjection :=
  scope ← ok_or (scopes run !! sid) Validation;
  Ok (set_scopes (<[sid := set_scope_status ClosedAborted scope]> (scopes run)) run).

Definition terminate_run_execution (run : RunProjection) (e : N) : core RunProjection :=
  expected ← next_epoch run;
  _ ← require (bool_decide (e = expected)) IllegalTransition;
  let run := set_epoch e run in
  run ← match active_attempt (derived run) with
        | Some aid =>
            let run := set_derived (set_active_attempt None (derived run)) run in
            attempt ← ok_or (attempts run !! aid) Validation;
            Ok (set_attempts (<[aid := set_active false attempt]> (attempts run)) run)
        | None => Ok run
        end;
  let transition_effects := btree_elements (terminal_transition_effects (derived run)) in
  run ← try_fold terminalize_one run transition_effects;
  run ← try_fold update_obligation run transition_effects;
  let open := btree_elements (open_scope_ids (derived run)) in
  let run := set_derived (set_open_scope_ids ∅ (derived run)) run in
  run ← try_fold abort_open_scope run open;
  let x := set_open_descendants ∅ (set_open_scope_effects ∅ (derived run)) in
  Ok (update_world_settlement (set_derived x run)).

(** ** Events *)

Definition is_reconcile (p : EventPayload) : bool :=
  match p with EffectTransitioned _ (Reconcile _) => true | _ => false end.
Definition is_failed_or_cancelled (s : RunExecutionStatus) : bool :=
  match s with Failed _ | Cancelled _ => true | _ => false end.

(** [verify_run_event_gate] *)
Definition verify_run_event_gate (status : RunExecutionStatus) (p : EventPayload) : core () :=
  let terminal_reconciliation := is_failed_or_cancelled status && is_reconcile p in
  require (bool_decide (status = Active) || terminal_reconciliation) IllegalTransition.

Definition ensure_derived (run : RunProjection) : core RunProjection :=
  if initialized (derived run) then Ok run
  else x ← rebuild run; Ok (set_derived x run).

(** [ensure_projection_derived_index] *)
Definition ensure_projection_derived_index (p : Projection) (ev : Event) : core Projection :=
  match runs p !! ev_run_id ev with
  | Some run =>
      run ← ensure_derived run;
      Ok {| runs := <[ev_run_id ev := run]> (runs p); facts := facts p |}
  | None => Ok p
  end.

Definition started_run (ev : Event) (plan entry_definition binding invocation : string)
    : RunProjection :=
  {| run_id := ev_run_id ev; initial_plan := plan; current_plan := plan;
     plan_lineage := [plan]; initial_binding_context := binding;
     current_binding_context := binding; binding_lineage := [binding]; epoch := 0;
     execution_status := Active; world_settlement := Settled;
     scopes := {[ROOT_SCOPE_ID :=
       {| scope_id := ROOT_SCOPE_ID; parent_scope := None; scope_invocation_id := invocation;
          scope_invocation_path := []; scope_definition_id := entry_definition;
          scope_region_path := []; scope_site_id := None; scope_status := Open;
          intents := ∅; intent_order := [] |}]};
     effects := ∅; obligations := ∅; attempts := ∅; run_result := None;
     last_event := event_id ev;
     derived := set_open_scope_effects {[ROOT_SCOPE_ID := default_open_scope_index]}
                  (set_open_scope_ids {[ROOT_SCOPE_ID]} initialized_index) |}.

Definition apply_run_started (p : Projection) (ev : Event)
    (plan entry_definition binding : string) : core Projection :=
  _ ← require (bool_decide (runs p !! ev_run_id ev = None)) IllegalTransition;
  invocation ← plan_invocation_id (ev_run_id ev) plan entry_definition [];
  Ok {| runs := <[ev_run_id ev := started_run ev plan entry_definition binding invocation]>
                  (runs p);
        facts := facts p |}.

(** [apply_projection_global_event]: the flag says the event is finished. *)
Definition apply_projection_global_event (p : Projection) (ev : Event)
    : core (Projection * bool) :=
  match payload ev with
  | RunStarted plan entry_definition binding _ =>
      p ← apply_run_started p ev plan entry_definition binding; Ok (p, true)
  | FactRecorded key value =>
      match facts p !! key with
      | Some existing => _ ← require (bool_decide (existing = value)) IllegalTransition; Ok (p, false)
      | None => Ok ({| runs := runs p; facts := <[key := value]> (facts p) |}, false)
      end
  | _ => Ok (p, false)
  end.

(** The [match] of [apply_event] on a Run event. *)
Definition apply_run_event (run : RunProjection) (ev : Event) : core RunProjection :=
  match payload ev with
  | RunStarted _ _ _ _ | FactRecorded _ _ => Ok run
  | AttemptStarted aid cid occ cepoch fence =>
      apply_attempt_started run aid cid occ cepoch fence
  | AttemptYielded aid cepoch fence => apply_attempt_yielded run aid cepoch fence
  | EpochAdvanced e => apply_epoch_advanced run e
  | ScopeOpened sid parent iid path did rpath site =>
      apply_scope_opened run sid parent iid path did rpath site
  | EffectProposed iid origin sid inv path did rpath site occ schema op prof arguments
      binding occ_binding =>
      apply_effect_proposed run (ev_run_id ev) iid origin sid inv path did rpath site occ
        schema op prof arguments binding occ_binding
  | EffectTransitioned iid t => apply_effect_transitioned run iid t
  | ScopeCommitted sid count commitment => apply_scope_committed run sid count commitment
  | ScopeAborted sid => apply_scope_aborted run sid
  | BindingUpdated previous current => apply_binding_updated run previous current
  | RunMigrated from_plan to_plan from_binding to_binding _ target _ =>
      apply_run_migrated run from_plan to_plan from_binding to_binding target
  | RunCompleted result => apply_run_completed run result
  | RunFailed failure e =>
      run ← terminate_run_execution run e; Ok (set_execution_status (Failed failure) run)
  | RunCancelled reason e =>
      run ← terminate_run_execution run e; Ok (set_execution_status (Cancelled reason) run)
  end.

(** [Projection::apply_event] *)
Definition apply_event (p : Projection) (ev : Event) : core Projection :=
  p ← ensure_projection_derived_index p ev;
  pb ← apply_projection_global_event p ev;
  let '(p, finished) := (pb : Projection * bool) in
  if (finished : bool) then Ok p else
  run ← ok_or (runs p !! ev_run_id ev) NotFound;
  _ ← verify_run_event_gate (execution_status run) (payload ev);
  run ← apply_run_event run ev;
  Ok {| runs := <[ev_run_id ev := set_last_event (event_id ev) run]> (runs p);
        facts := facts p |}.

(** Replay: events applied in order from the empty projection. *)
Definition replay_events (evs : list Event) : core Projection :=
  try_fold apply_event empty_projection evs.
End Reducer.
