(* ===== verification/Verify.v ===== *)
(** * The projection invariants that the kernel checks

    Models [Projection::verify_reducer_invariants], [verify_derived_indexes]
    and the per-Run checks they call, of [crates/cymule-core/src/model.rs].
    The ancestor walk of a scope takes fuel; the number of scopes plus one is
    enough, because every step visits a new scope. *)

From S2P Require Import Prelude Identity Ir Model Effects DerivedIndex Reducer.

Section Verify.
Context `{Sha256} `{Canonical}.

(** [verify_execution_numbers] for one Run *)
Definition verify_run_numbers (run : RunProjection) : core () :=
  _ ← require (epoch run <=? MAX_EXACT_INTEGER)%N Validation;
  try_each (λ a,
    if (MAX_EXACT_INTEGER <? continuation_epoch a)%N || (execution_fence a =? 0)%N
       || (MAX_EXACT_INTEGER <? execution_fence a)%N
    then Err Validation else Ok ()) (btree_values (attempts run)).
Definition verify_execution_numbers (p : Projection) : core () :=
  try_each verify_run_numbers (btree_values (runs p)).

(** [verify_world_settlement_invariants] for one Run *)
Definition verify_run_settlement (run : RunProjection) : core () :=
  let d := derive_world_settlement run in
  _ ← require (bool_decide (world_settlement run = d)) Validation;
  require (negb (bool_decide (execution_status run = Completed) && bool_decide (d ≠ Settled)))
    Validation.
Definition verify_world_settlement_invariants (p : Projection) : core () :=
  try_each verify_run_settlement (btree_values (runs p)).

(** The [while let Some(ancestor_id) = ancestor] loop; [None] is out of fuel. *)
Fixpoint walk_ancestors (fuel : nat) (run : RunProjection) (status : ScopeStatus)
    (seen : gset string) (ancestor : option string) : option (core ()) :=
  match ancestor with
  | None => Some (Ok ())
  | Some a =>
      match fuel with
      | O => None
      | S fuel =>
          if decide (a ∈ seen) then Some (Err Validation) else
          match scopes run !! a with
          | None => Some (Err Validation)
          | Some s =>
              if bool_decide (status = Open) && bool_decide (scope_status s ≠ Open)
              then Some (Err Validation)
              else walk_ancestors fuel run status ({[a]} ∪ seen) (parent_scope s)
          end
      end
  end.

(** The body of the loop of [verify_scope_projection]. *)
Definition verify_one_scope (run : RunProjection) (kv : string * ScopeProjection) : core () :=
  let '(sid, scope) := kv in
  _ ← require (bool_decide (sid = scope_id scope)) Validation;
  let ordered : gset string := list_to_set (intent_order scope) in
  _ ← require (bool_decide (size ordered = length (intent_order scope))
               && bool_decide (ordered = intents scope)) Validation;
  _ ← try_each validate_content_id (intent_order scope);
  if decide (sid = ROOT_SCOPE_ID) then Ok () else
  _ ← require (bool_decide (scope_site_id scope ≠ None)
               && bool_decide (scope_region_path scope ≠ [])) Validation;
  parent ← ok_or (parent_scope scope) Validation;
  _ ← require (bool_decide (parent ≠ sid) && bool_decide (is_Some (scopes run !! parent)))
        Validation;
  default (Err Panic)
    (walk_ancestors (S (size (scopes run))) run (scope_status scope) {[sid]} (Some parent)).

Definition verify_scope_projection (run : RunProjection) : core () :=
  root ← ok_or (scopes run !! ROOT_SCOPE_ID) Validation;
  _ ← require (bool_decide (scope_id root = ROOT_SCOPE_ID)
               && bool_decide (parent_scope root = None)
               && bool_decide (scope_site_id root = None)
               && bool_decide (scope_invocation_path root = [])
               && bool_decide (scope_region_path root = [])) Validation;
  try_each (verify_one_scope run) (btree_list (scopes run)).

Definition verify_one_effect (run : RunProjection) (kv : string * EffectProjection) : core () :=
  let '(iid, e) := kv in
  _ ← require (bool_decide (iid = intent_id e)) Validation;
  scope ← ok_or (scopes run !! effect_scope_id e) Validation;
  _ ← require (bool_decide (iid ∈ intents scope)) Validation;
  _ ← validate_effect_args_reference (args e);
  _ ← ArtifactRef_validate (execution_binding e);
  _ ← require (bool_decide (artifact_kind (execution_binding e) = EXECUTION_BINDING_ARTIFACT_KIND))
        Validation;
  _ ← verify_effect_reducer_state e;
  verify_effect_scope_state e scope.

Definition verify_scope_members (run : RunProjection) (scope : ScopeProjection) : core () :=
  try_each (λ iid,
    e ← ok_or (effects run !! iid) Validation;
    require (bool_decide (effect_scope_id e = scope_id scope)) Validation)
    (btree_elements (intents scope)).

Definition verify_effect_projection (run : RunProjection) : core () :=
  _ ← try_each (verify_one_effect run) (btree_list (effects run));
  try_each (verify_scope_members run) (btree_values (scopes run)).

(** The obligation a closed-committed mutating effect must have; the [expect]
    on its scope is a panic. *)
Definition expected_obligation (run : RunProjection)
    (expected : gmap string ObligationProjection) (e : EffectProjection)
    : core (gmap string ObligationProjection) :=
  scope ← ok_or (scopes run !! effect_scope_id e) Panic;
  if bool_decide (mutation (profile e) = Mutating)
     && bool_decide (scope_status scope = ClosedCommitted) then
    id ← effect_obligation_id (intent_id e);
    Ok (<[id := {| obligation_id := id; obligation_intent_id := intent_id e; blocking := true;
                   resolved := bool_decide (phase e = CancelledBeforeRelease)
                               || observed_terminally e |}]> expected)
  else Ok expected.

Definition verify_obligation_projection (run : RunProjection) : core () :=
  expected ← try_fold (expected_obligation run) ∅ (btree_values (effects run));
  require (bool_decide (obligations run = expected)) Validation.

Definition terminal_effect_state (e : EffectProjection) : bool :=
  match phase e, outcome e, reconciliation e with
  | DispatchStarted, _, _ | CancelledBeforeRelease, NotApplied, Resolved => true
  | _, _, _ => false
  end.

Definition verify_terminal_run (run : RunProjection) (has_active_attempt has_open_scope : bool)
    : core () :=
  if (epoch run =? 0)%N || bool_decide (run_result run ≠ None) || has_active_attempt
     || has_open_scope || bool_decide (world_settlement run = SettlementPending)
     || existsb (λ a, epoch run <=? continuation_epoch a)%N (btree_values (attempts run))
     || any_effect (λ e, negb (terminal_effect_state e)) run
  then Err Validation else Ok ().

(** The attempt loop: validates each attempt and counts the active ones. *)
Definition verify_attempts (run : RunProjection) : core nat :=
  try_fold (λ n kv,
    let '(aid, a) := (kv : string * AttemptProjection) in
    _ ← validate_content_id aid;
    _ ← validate_content_id (continuation_id a);
    _ ← validate_content_id (occurrence_binding a);
    _ ← require (bool_decide (aid = attempt_id a)
                 && (continuation_epoch a <=? epoch run)%N
                 && negb (active a && bool_decide (continuation_epoch a ≠ epoch run))) Validation;
    Ok (n + if active a then 1 else 0)) 0 (btree_list (attempts run)).

Definition verify_lineage (run : RunProjection) : core () :=
  require (bool_decide (plan_lineage run ≠ []) && bool_decide (binding_lineage run ≠ [])
           && bool_decide (last_event run ≠ EmptyString)
           && bool_decide (head (plan_lineage run) = Some (initial_plan run))
           && bool_decide (last (plan_lineage run) = Some (current_plan run))
           && bool_decide (head (binding_lineage run) = Some (initial_binding_context run))
           && bool_decide (last (binding_lineage run) = Some (current_binding_context run)))
    Validation.

Definition verify_status (run : RunProjection) (active_attempts : nat) : core () :=
  let has_active_attempt := bool_decide (active_attempts = 1) in
  let has_open_scope :=
    existsb (λ s, bool_decide (scope_status s = Open)) (btree_values (scopes run)) in
  match execution_status run with
  | Active => require (bool_decide (run_result run = None)) Validation
  | Completed => require (negb (has_active_attempt || has_open_scope)) Validation
  | Failed failure =>
      _ ← RunFailure_verify failure;
      verify_terminal_run run has_active_attempt has_open_scope
  | Cancelled reason =>
      _ ← ArtifactRef_validate reason;
      verify_terminal_run run has_active_attempt has_open_scope
  end.

(** The body of the loop of [verify_reducer_invariants]. *)
Definition verify_one_run (kv : string * RunProjection) : core () :=
  let '(rid, run) := kv in
  _ ← require (bool_decide (rid = run_id run)) Validation;
  _ ← verify_lineage run;
  _ ← match run_result run with Some r => ArtifactRef_validate r | None => Ok () end;
  _ ← verify_scope_projection run;
  _ ← verify_effect_projection run;
  _ ← verify_obligation_projection run;
  active_attempts ← verify_attempts run;
  _ ← require (active_attempts <=? 1)%nat Validation;
  verify_status run active_attempts.

(** [Projection::verify_reducer_invariants] *)
Definition verify_reducer_invariants (p : Projection) : core () :=
  _ ← verify_execution_numbers p;
  _ ← verify_world_settlement_invariants p;
  try_each verify_one_run (btree_list (runs p)).

(** [Projection::verify_derived_indexes] *)
Definition verify_derived_indexes (p : Projection) : core () :=
  try_each (λ run,
    if initialized (derived run) then
      rebuilt ← rebuild run;
      require (bool_decide (derived run = rebuilt)) Validation
    else Ok ()) (btree_values (runs p)).
End Verify.
