(* ===== verification/Authority.v ===== *)
(** * Event authority

    Models the part of [crates/cymule-core/src/machine.rs] that decides
    whether an event may enter the machine: the retained plans and artifacts,
    the causal checks, and the checks of the payload against the plan, the
    bindings and the lexical locations of the Run. *)

From S2P Require Import Prelude Identity Canonical Ir Model Events Chain Machine Location.
From S2P Require Import Effects DerivedIndex Reducer Verify.

(** [validate_attempt_numbers] *)
Definition validate_attempt_numbers (epoch fence : N) : core () :=
  if (MAX_EXACT_INTEGER <? epoch)%N || (fence =? 0)%N || (MAX_EXACT_INTEGER <? fence)%N
  then Err Validation else Ok ().

(** [validate_migration_payload] *)
Definition validate_migration_payload (from_plan to_plan from_binding to_binding sp : string)
    (target : N) (digest : string) : core () :=
  if bool_decide (from_plan = to_plan) || negb (is_sha256_id from_plan)
     || negb (is_sha256_id to_plan) || negb (is_sha256_id from_binding)
     || negb (is_sha256_id to_binding) || negb (is_sha256_id sp) || (target =? 0)%N
     || (MAX_EXACT_INTEGER <? target)%N || negb (is_canonical_digest digest)
  then Err Validation else Ok ().

(** [serde_json]'s own serialiser of a [Value]. *)
Class ValueSerialize := { serialize_value : Json → Ser }.

Section Authority.
Context `{Sha256} `{Canonical} `{SchemaCompiler} `{!ValueSerialize}.

(** The decoding that [validate_effect_args] and [validate_run_input] share:
    strict JSON whose canonical form is the bytes themselves. *)
Definition strict_canonical_value (bytes : string) : core Json :=
  value ← decode_json Some bytes;
  canonical ← canonical_bytes (serialize_value value);
  _ ← require (bool_decide (canonical = bytes)) Validation;
  Ok value.

Definition validate_effect_args (m : Machine) (pid op : string) (arguments : ArtifactRef)
    : core () :=
  _ ← ArtifactRef_validate arguments;
  _ ← require (bool_decide (artifact_kind arguments = EFFECT_ARGS_ARTIFACT_KIND)) Validation;
  record ← ok_or (artifact m arguments) NotFound;
  value ← strict_canonical_value (artifact_bytes record);
  contract ← effect_contract m pid op;
  validate_schema_instance (effect_input_schema contract) value.

Definition require_execution_binding (m : Machine) (id : string) : core ArtifactRecord :=
  record ← ok_or (artifacts m !! id) NotFound;
  _ ← require (bool_decide (artifact_kind (reference record) = EXECUTION_BINDING_ARTIFACT_KIND))
        Validation;
  Ok record.

Definition validate_run_input (m : Machine) (plan : SealedPlan) (input : ArtifactRef)
    : core () :=
  _ ← ArtifactRef_validate input;
  _ ← require (bool_decide (artifact_kind input = RUN_INPUT_ARTIFACT_KIND)) Validation;
  record ← ok_or (artifact m input) NotFound;
  value ← strict_canonical_value (artifact_bytes record);
  d ← ok_or (find_definition (candidate plan) (entry (candidate plan))) NotFound;
  validate_schema_instance (def_input_schema d) value.

(** [validate_run_start_authority] *)
Definition validate_run_start_authority (m : Machine) (pid entry_definition binding : string)
    (input : ArtifactRef) : core () :=
  plan ← ok_or (plans m !! pid) NotFound;
  _ ← require (bool_decide (entry (candidate plan) = entry_definition)) Validation;
  _ ← require_execution_binding m binding;
  validate_run_input m plan input.

(** [validate_event_plan_authority] *)
Definition validate_event_plan_authority (m : Machine) (ev : Event) : core () :=
  match payload ev with
  | RunStarted pid entry_definition binding input =>
      validate_run_start_authority m pid entry_definition binding input
  | BindingUpdated previous current =>
      _ ← require_execution_binding m previous;
      _ ← require_execution_binding m current;
      Ok ()
  | RunMigrated from_plan to_plan from_binding to_binding sp target digest =>
      _ ← validate_migration_payload from_plan to_plan from_binding to_binding sp target digest;
      run ← machine_run m (ev_run_id ev);
      _ ← require (bool_decide (checked_add (epoch run) 1 = Some target)) IllegalTransition;
      _ ← require (bool_decide (is_Some (plans m !! from_plan))
                   && bool_decide (is_Some (plans m !! to_plan))) NotFound;
      _ ← require_execution_binding m from_binding;
      _ ← require_execution_binding m to_binding;
      Ok ()
  | _ => Ok ()
  end.

(** [validate_effect_proposal] *)
Definition validate_effect_proposal (m : Machine) (ev : Event) : core () :=
  match payload ev with
  | EffectProposed _ origin sid iid path did rpath site occ _ op prof _ binding _ =>
      run ← machine_run m (ev_run_id ev);
      _ ← require (bool_decide (origin = current_plan run)
                   && bool_decide (artifact_id binding = current_binding_context run)
                   && bool_decide (artifact_kind binding = EXECUTION_BINDING_ARTIFACT_KIND))
            Validation;
      plan ← ok_or (plans m !! origin) NotFound;
      _ ← validate_execution_location (candidate plan) origin run iid path did rpath sid;
      found ← locate_step (candidate plan) did rpath site;
      match step_operation found.1 with
      | OEffect declared _ declared_occurrence _ =>
          _ ← require (bool_decide (declared = op) && bool_decide (declared_occurrence = occ))
                Validation;
          contract ← effect_contract m origin op;
          require (bool_decide (contract_profile contract = prof)) Validation
      | _ => Err Validation
      end
  | _ => Ok ()
  end.

(** [validate_scope_open] *)
Definition validate_scope_open (m : Machine) (ev : Event) : core () :=
  match payload ev with
  | ScopeOpened sid parent iid path did rpath site =>
      run ← machine_run m (ev_run_id ev);
      plan ← ok_or (plans m !! current_plan run) NotFound;
      split ← ok_or (split_last rpath) Validation;
      let '(parent_path, index) := (split : list nat * nat) in
      _ ← validate_execution_location (candidate plan) (current_plan run) run iid path did
            parent_path parent;
      step ← step_at (candidate plan) did parent_path index;
      _ ← require (bool_decide (step_id step = site) && is_scope_operation (step_operation step))
            Validation;
      expected ← plan_scope_id (ev_run_id ev) (current_plan run) iid did rpath;
      require (bool_decide (sid = expected)) Validation
  | _ => Ok ()
  end.

(** The payload match of [validate_event_authority]. *)
Definition validate_payload_material (m : Machine) (p : EventPayload) : core () :=
  match p with
  | EffectProposed _ origin _ _ _ _ _ _ _ _ op _ arguments binding occ_binding =>
      _ ← validate_content_id occ_binding;
      _ ← validate_effect_args m origin op arguments;
      require (bool_decide (is_Some (artifact m binding))) NotFound
  | AttemptStarted aid cid occ _ _ =>
      _ ← validate_content_id aid;
      _ ← validate_content_id cid;
      validate_content_id occ
  | AttemptYielded aid _ _ => validate_content_id aid
  | RunCompleted (Some result) => require (bool_decide (is_Some (artifact m result))) NotFound
  | RunFailed failure _ =>
      require (bool_decide (is_Some (artifact m (failure_detail failure)))) NotFound
  | RunCancelled reason _ => require (bool_decide (is_Some (artifact m reason))) NotFound
  | _ => Ok ()
  end.

(** [validate_event_authority] *)
Definition validate_event_authority (m : Machine) (ev : Event) : core () :=
  _ ← validate_event_plan_authority m ev;
  _ ← validate_payload_material m (payload ev);
  _ ← validate_scope_open m ev;
  validate_effect_proposal m ev.

(** The causal parent checks of [validate_new_event_with_pending]. *)
Definition validate_causality (m : Machine) (ev : Event) (pending : gset string) : core () :=
  _ ← try_each (λ parent,
        if negb (bool_decide (is_Some (events m !! parent)))
           && negb (bool_decide (parent ∈ compacted_event_ids m))
           && negb (bool_decide (parent ∈ pending))
        then Err Causal else Ok ()) (parents ev);
  match payload ev with
  | RunStarted _ _ _ _ => require (bool_decide (parents ev = [])) Causal
  | _ =>
      run ← machine_run m (ev_run_id ev);
      require (bool_decide (last_event run ∈ parents ev)) Causal
  end.

(** [validate_new_event_with_pending] *)
Definition validate_new_event_with_pending (m : Machine) (ev : Event) (pending : gset string)
    : core () :=
  _ ← Event_verify ev;
  _ ← require (bool_decide (event_id ev ∉ compacted_event_ids m)) IdentityMismatch;
  _ ← require (bool_decide (events m !! event_id ev = None)) IdentityMismatch;
  _ ← validate_causality m ev pending;
  validate_event_authority m ev.
(** ** The authority of a whole projection *)

(** [validate_scope_projection_authority]: exactly one plan of the lineage
    explains the scope. *)
Definition validate_scope_projection_authority (m : Machine) (run : RunProjection)
    (scope : ScopeProjection) : core () :=
  matching ← try_fold (λ matching pid,
      if decide (pid ∈ (matching : gset string)) then Ok matching else
      plan ← ok_or (plans m !! pid) NotFound;
      matches ← scope_matches_plan (candidate plan) pid run scope;
      Ok (if matches : bool then {[pid]} ∪ matching else matching)) ∅ (plan_lineage run);
  require (size matching =? 1) Validation.

(** [validate_effect_projection_material] *)
Definition validate_effect_projection_material (m : Machine) (run : RunProjection)
    (e : EffectProjection) : core () :=
  _ ← require (bool_decide (origin_plan_id e ∈ plan_lineage run)) Validation;
  _ ← require (bool_decide (Model.effect_schema_version e = EFFECT_SCHEMA_VERSION)) Validation;
  _ ← validate_effect_args m (origin_plan_id e) (effect_operation e) (args e);
  _ ← require (bool_decide (is_Some (artifact m (execution_binding e)))
               && bool_decide (artifact_kind (execution_binding e)
                               = EXECUTION_BINDING_ARTIFACT_KIND)) NotFound;
  require (bool_decide (artifact_id (execution_binding e) ∈ binding_lineage run)) Validation.

(** [validate_effect_projection_authority] *)
Definition validate_effect_projection_authority (m : Machine) (run : RunProjection)
    (e : EffectProjection) : core () :=
  _ ← validate_effect_projection_material m run e;
  plan ← ok_or (plans m !! origin_plan_id e) NotFound;
  resolved ← resolve_invocation (candidate plan) (origin_plan_id e) run
               (effect_invocation_path e) false;
  _ ← require (bool_decide (resolved.1 = effect_definition_id e)
               && bool_decide (resolved.2 = effect_invocation_id e)) Validation;
  _ ← validate_execution_location_scope_only run (effect_invocation_id e)
        (effect_invocation_path e) (effect_definition_id e) (effect_region_path e)
        (effect_scope_id e) false;
  found ← locate_step (candidate plan) (effect_definition_id e) (effect_region_path e)
            (effect_site_id e);
  match step_operation found.1 with
  | OEffect op _ occ _ =>
      contract ← effect_contract m (origin_plan_id e) op;
      _ ← require (bool_decide (op = effect_operation e)
                   && bool_decide (occ = effect_occurrence e)
                   && bool_decide (contract_profile contract = profile e)) Validation;
      expected ← effect_intent_id (run_id run) (origin_plan_id e) (effect_invocation_id e)
                   (effect_site_id e) (effect_scope_id e) (effect_occurrence e) (args e)
                   (Model.effect_schema_version e);
      require (bool_decide (intent_id e = expected)) IdentityMismatch
  | _ => Err Validation
  end.

(** The lineages, the result and the reason of the status of one Run *)
Definition validate_run_lineage_authority (m : Machine) (run : RunProjection) : core () :=
  _ ← require (bool_decide (head (plan_lineage run) = Some (initial_plan run))
               && bool_decide (last (plan_lineage run) = Some (current_plan run))) Validation;
  _ ← try_each (λ pid, require (bool_decide (is_Some (plans m !! pid))) NotFound)
        (plan_lineage run);
  _ ← require (bool_decide (head (binding_lineage run) = Some (initial_binding_context run))
               && bool_decide (last (binding_lineage run) = Some (current_binding_context run)))
        Validation;
  _ ← try_each (λ binding, _ ← require_execution_binding m binding; Ok ()) (binding_lineage run);
  _ ← match run_result run with
      | Some r => require (bool_decide (is_Some (artifact m r))) NotFound
      | None => Ok ()
      end;
  match execution_status run with
  | Failed failure =>
      _ ← RunFailure_verify failure;
      require (bool_decide (is_Some (artifact m (failure_detail failure)))) NotFound
  | Cancelled reason =>
      _ ← ArtifactRef_validate reason;
      require (bool_decide (is_Some (artifact m reason))) NotFound
  | Active | Completed => Ok ()
  end.
(** The root scope of one Run *)
Definition validate_root_scope_authority (m : Machine) (run : RunProjection) : core () :=
  initial ← ok_or (plans m !! initial_plan run) NotFound;
  root ← ok_or (scopes run !! ROOT_SCOPE_ID) NotFound;
  expected ← plan_invocation_id (run_id run) (initial_plan run) (entry (candidate initial)) [];
  require (bool_decide (scope_invocation_id root = expected)
           && bool_decide (scope_definition_id root = entry (candidate initial))
           && bool_decide (parent_scope root = None)
           && bool_decide (scope_invocation_path root = [])
           && bool_decide (scope_region_path root = [])) Validation.
(** [validate_projection_authority] *)
Definition validate_projection_authority (m : Machine) (p : Projection) : core () :=
  _ ← verify_reducer_invariants p;
  try_each (λ run,
    _ ← validate_run_lineage_authority m run;
    _ ← validate_root_scope_authority m run;
    _ ← try_each (validate_scope_projection_authority m run)
          (filter (λ scope, scope_id scope ≠ ROOT_SCOPE_ID) (btree_values (scopes run)));
    try_each (validate_effect_projection_authority m run) (btree_values (effects run)))
    (btree_values (runs p)).
End Authority.
