(* ===== verification/Archive.v ===== *)
(** * The command archive

    Models the archive of admitted commands of
    [crates/cymule-core/src/machine.rs]: the header of a segment and the
    segment with its entries, batches and index updates, the Merkle tree over
    its entries, inclusion proofs, the proofs of the cumulative index, and the
    objects a store persists. *)

From S2P Require Import Prelude Identity CommandIndex Canonical Ir Model Events Chain IndexUpdate.

Definition MACHINE_COMMAND_ARCHIVE_BATCHES_DOMAIN : string := "cymule.command-archive-batches/1".
Definition MACHINE_COMMAND_ARCHIVE_NODE_DOMAIN : string := "cymule.command-archive-node/1".
Definition SEGMENT_VERSION : string := "cymule.command-archive-segment/4".
Definition SEGMENT_LEAF_DOMAIN : string := "cymule.command-archive-segment-leaf/2".
Definition ARCHIVED_COMMAND_PROOF_VERSION : string := "cymule.archived-command-proof/1".
Definition MAX_MACHINE_COMMAND_ARCHIVE_OBJECT_BYTES : N := 64 * 1024 * 1024.

(** ** Data *)

Record MachineCommandArchiveSegmentHeader := {
  segment_version : string;
  segment_id : string;
  parent_segment : option string;
  parent_count : N;
  parent_event_count : N;
  parent_admission_head : option string;
  parent_command_index_root : string;
  sh_entry_count : N;
  sh_event_count : N;
  sh_batch_count : N;
  batches_root : string;
  entries_root : string;
  result_count : N;
  result_event_count : N;
  result_admission_head : option string;
  result_command_index_root : string;
}.
#[export] Instance MachineCommandArchiveSegmentHeader_eq_dec :
  EqDecision MachineCommandArchiveSegmentHeader.
Proof. solve_decision. Defined.

Record MachineCommandArchiveSegment := {
  header : MachineCommandArchiveSegmentHeader;
  segment_entries : list MachineCommandArchiveEntry;
  segment_batches : list MachineCommandBatchRecord;
  command_index_updates : list MachineCommandIndexProof;
}.

Record MachineCommandArchiveParent := {
  ap_segment : option string;
  ap_count : N;
  ap_event_count : N;
  ap_admission_head : option string;
  ap_command_index_root : string;
}.

Inductive MerkleSiblingSide := SideLeft | SideRight.
#[export] Instance MerkleSiblingSide_eq_dec : EqDecision MerkleSiblingSide.
Proof. solve_decision. Defined.
Record CommandArchiveMerkleSibling := { ms_side : MerkleSiblingSide; ms_digest : string }.
#[export] Instance CommandArchiveMerkleSibling_eq_dec : EqDecision CommandArchiveMerkleSibling.
Proof. solve_decision. Defined.

Record MachineArchivedCommandProof := {
  acp_version : string;
  acp_segment : MachineCommandArchiveSegmentHeader;
  entry_index : N;
  acp_entry : MachineCommandArchiveEntry;
  acp_command_index_update : MachineCommandIndexProof;
  merkle_path : list CommandArchiveMerkleSibling;
}.

Inductive MachineCommandArchiveObject :=
| ObjectSegment (s : MachineCommandArchiveSegment)
| ObjectEntry (e : MachineCommandArchiveEntry)
| ObjectBatch (b : MachineCommandBatchRecord)
| ObjectCommandIndexNode (n : MachineCommandIndexNode).

(** The values of the archive that are hashed or measured; their serialisers
    are derived.  [APSegment] is the preimage of a header: its identity and
    version are those of [segment_preimage]. *)
Inductive ArchivePreimage :=
| APSegment (h : MachineCommandArchiveSegmentHeader)
| APBatches (l : list MachineCommandBatchRecord)
| APMerkleEmpty
| APMerkleParent (l r : string)
| APArchiveLeaf (e : MachineCommandArchiveEntry) (update : MachineCommandIndexProof)
| APObject (o : MachineCommandArchiveObject).
Class ArchiveSerialize := { serialize_archive : ArchivePreimage → Ser }.

Definition set_segment_id (i : string) (h : MachineCommandArchiveSegmentHeader)
    : MachineCommandArchiveSegmentHeader :=
  {| segment_version := segment_version h; segment_id := i; parent_segment := parent_segment h;
     parent_count := parent_count h; parent_event_count := parent_event_count h;
     parent_admission_head := parent_admission_head h;
     parent_command_index_root := parent_command_index_root h; sh_entry_count := sh_entry_count h;
     sh_event_count := sh_event_count h; sh_batch_count := sh_batch_count h;
     batches_root := batches_root h; entries_root := entries_root h;
     result_count := result_count h; result_event_count := result_event_count h;
     result_admission_head := result_admission_head h;
     result_command_index_root := result_command_index_root h |}.
(** [MachineCommandArchiveSegmentPreimage]: all fields but the identity, with
    the current version. *)
Definition segment_preimage (h : MachineCommandArchiveSegmentHeader)
    : MachineCommandArchiveSegmentHeader :=
  {| segment_version := SEGMENT_VERSION; segment_id := EmptyString;
     parent_segment := parent_segment h;
     parent_count := parent_count h; parent_event_count := parent_event_count h;
     parent_admission_head := parent_admission_head h;
     parent_command_index_root := parent_command_index_root h; sh_entry_count := sh_entry_count h;
     sh_event_count := sh_event_count h; sh_batch_count := sh_batch_count h;
     batches_root := batches_root h; entries_root := entries_root h;
     result_count := result_count h; result_event_count := result_event_count h;
     result_admission_head := result_admission_head h;
     result_command_index_root := result_command_index_root h |}.

(** [u64::checked_mul] *)
Definition checked_mul (a b : N) : option N :=
  if (a * b <=? u64_max)%N then Some (a * b)%N else None.
(** [u64::try_from(l.len())] *)
Definition len_u64 {A} (l : list A) : core N :=
  let n := N.of_nat (length l) in
  _ ← require (n <=? u64_max)%N Validation; Ok n.
(** [archive_event_count] *)
Definition archive_event_count (l : list MachineCommandArchiveEntry) : core N :=
  try_fold (λ count e, n ← len_u64 (entry_events e); ok_or (checked_add count n) Validation) 0%N l.

Section Archive.
Context `{Sha256} `{Canonical} `{!MachineSerialize} `{!ArchiveSerialize}.

Definition archive_content_id (domain : string) (v : ArchivePreimage) : core string :=
  content_id_of domain (serialize_archive v).

(** ** The Merkle tree over the entries *)

(** [command_archive_leaf_digest], [command_archive_empty_root] and
    [command_archive_merkle_parent] *)
Definition command_archive_leaf_digest (e : MachineCommandArchiveEntry)
    (update : MachineCommandIndexProof) : core string :=
  archive_content_id SEGMENT_LEAF_DOMAIN (APArchiveLeaf e update).
Definition command_archive_empty_root : core string :=
  archive_content_id MACHINE_COMMAND_ARCHIVE_NODE_DOMAIN APMerkleEmpty.
Definition command_archive_merkle_parent (l r : string) : core string :=
  archive_content_id MACHINE_COMMAND_ARCHIVE_NODE_DOMAIN (APMerkleParent l r).

(** One round of the reduction, over [level.chunks(2)] *)
Fixpoint next_level (level : list string) : core (list string) :=
  match level with
  | a :: b :: level =>
      p ← command_archive_merkle_parent a b; rest ← next_level level; Ok (p :: rest)
  | [a] => p ← command_archive_merkle_parent a a; Ok [p]
  | [] => Ok []
  end.
(** The [while] loop of [command_archive_merkle_reduce] *)
Fixpoint reduce_levels (fuel : nat) (level : list string) : core string :=
  match level with
  | [] => Err Validation
  | [root] => Ok root
  | _ =>
      match fuel with
      | O => Err Panic
      | S fuel => level ← next_level level; reduce_levels fuel level
      end
  end.
Definition command_archive_merkle_reduce (level : list string) : core string :=
  reduce_levels (length level) level.

Definition archive_leaves (entries : list MachineCommandArchiveEntry)
    (updates : list MachineCommandIndexProof) : core (list string) :=
  try_map (λ eu, command_archive_leaf_digest eu.1 eu.2) (zip entries updates).
(** [command_archive_merkle_root] *)
Definition command_archive_merkle_root (entries : list MachineCommandArchiveEntry)
    (updates : list MachineCommandIndexProof) : core string :=
  _ ← require (length entries =? length updates) Validation;
  match entries with
  | [] => command_archive_empty_root
  | _ :: _ => level ← archive_leaves entries updates; command_archive_merkle_reduce level
  end.

(** The [while] loop of [command_archive_merkle_path] *)
Fixpoint path_levels (fuel : nat) (level : list string) (index : nat)
    : core (list CommandArchiveMerkleSibling) :=
  if length level <=? 1 then Ok [] else
  match fuel with
  | O => Err Panic
  | S fuel =>
      let '(sibling_index, side) :=
        if Nat.even index then (Nat.min (S index) (length level - 1), SideRight)
        else (pred index, SideLeft) in
      digest ← ok_or (level !! sibling_index) Panic;
      level ← next_level level;
      path ← path_levels fuel level (index / 2);
      Ok ({| ms_side := side; ms_digest := digest |} :: path)
  end.
(** [command_archive_merkle_path] *)
Definition command_archive_merkle_path (entries : list MachineCommandArchiveEntry)
    (updates : list MachineCommandIndexProof) (index : nat)
    : core (list CommandArchiveMerkleSibling) :=
  _ ← require ((index <? length entries) && (length entries =? length updates)) NotFound;
  level ← archive_leaves entries updates;
  path_levels (length level) level index.

(** ** Segment headers *)

(** [MachineCommandArchiveSegmentHeader::expected_id] *)
Definition header_expected_id (h : MachineCommandArchiveSegmentHeader) : core string :=
  archive_content_id SEGMENT_VERSION (APSegment (segment_preimage h)).

Definition opt_sha256_id (o : option string) : bool :=
  match o with Some v => is_sha256_id v | None => true end.
(** The comparisons of the counts, with their checked arithmetic *)
Definition header_counts_ok (h : MachineCommandArchiveSegmentHeader) : core () :=
  _ ← require (bool_decide (segment_version h = SEGMENT_VERSION)) Validation;
  count ← ok_or (opt_filter (λ v, v <=? MAX_EXACT_INTEGER)%N
                   (checked_add (parent_count h) (sh_entry_count h))) Validation;
  _ ← require (result_count h =? count)%N Validation;
  events ← ok_or (checked_add (parent_event_count h) (sh_event_count h)) Validation;
  _ ← require (result_event_count h =? events)%N Validation;
  bound ← ok_or (checked_mul (sh_entry_count h) 2) Validation;
  _ ← require (sh_event_count h <=? bound)%N Validation;
  _ ← require (negb (sh_batch_count h =? 0)%N && (sh_batch_count h <=? MAX_EXACT_INTEGER)%N)
        Validation;
  bound ← ok_or (checked_mul (parent_count h) 2) Validation;
  _ ← require (parent_event_count h <=? bound)%N Validation;
  bound ← ok_or (checked_mul (result_count h) 2) Validation;
  require (result_event_count h <=? bound)%N Validation.
(** The lineage and the shape of the identities *)
Definition header_lineage_ok (h : MachineCommandArchiveSegmentHeader) : bool :=
  negb ((parent_count h =? 0)%N && negb (parent_event_count h =? 0)%N)
  && negb (bool_decide (parent_segment h = None) && negb (parent_count h =? 0)%N)
  && Bool.eqb (parent_count h =? 0)%N (bool_decide (parent_admission_head h = None))
  && Bool.eqb (result_count h =? 0)%N (bool_decide (result_admission_head h = None))
  && opt_sha256_id (parent_segment h)
  && opt_sha256_id (parent_admission_head h)
  && is_sha256_id (parent_command_index_root h)
  && is_sha256_id (entries_root h)
  && is_sha256_id (batches_root h)
  && opt_sha256_id (result_admission_head h)
  && is_sha256_id (result_command_index_root h).
(** [MachineCommandArchiveSegmentHeader::verify] *)
Definition Header_verify (h : MachineCommandArchiveSegmentHeader) : core () :=
  _ ← header_counts_ok h;
  _ ← require (header_lineage_ok h) Validation;
  _ ← (if (parent_count h =? 0)%N then
         root ← empty_root; require (bool_decide (parent_command_index_root h = root)) Validation
       else Ok ());
  _ ← (if (result_count h =? 0)%N then
         root ← empty_root; require (bool_decide (result_command_index_root h = root)) Validation
       else Ok ());
  _ ← (if (sh_entry_count h =? 0)%N then
         _ ← require (bool_decide (result_admission_head h = parent_admission_head h)
                      && bool_decide (result_command_index_root h = parent_command_index_root h))
               Validation;
         root ← command_archive_empty_root;
         require (bool_decide (entries_root h = root)) Validation
       else Ok ());
  id ← header_expected_id h;
  require (bool_decide (segment_id h = id)) Validation.

(** ** Updates of the command index *)

(** [command_index_entry_value] *)
Definition command_index_entry_value (e : MachineCommandArchiveEntry)
    : core MachineCommandIndexValue :=
  digest ← ArchiveEntry_leaf_digest e;
  Ok {| iv_admission_id := admission_id (entry_admission e); iv_archive_entry_digest := digest |}.

Definition apply_command_index_update (current : string)
    (eu : MachineCommandArchiveEntry * MachineCommandIndexProof) : core string :=
  let '(e, update) := eu in
  _ ← require (bool_decide (ip_command_id update = adm_command_id (entry_admission e))
               && bool_decide (ip_value update = None)) IdentityMismatch;
  _ ← IndexProof_verify update current;
  v ← command_index_entry_value e;
  root_with_value update (Some v).
(** [apply_command_index_updates] *)
Definition apply_command_index_updates (parent_root : string)
    (entries : list MachineCommandArchiveEntry) (updates : list MachineCommandIndexProof)
    : core string :=
  _ ← require ((length entries =? length updates) && is_sha256_id parent_root) Validation;
  try_fold apply_command_index_update parent_root (zip entries updates).

(** One round of [sequential_command_index_updates]; the state is the list of
    updates so far, the recorded nodes and the current root. *)
Definition sequential_update (parent_root : string)
    (st : list MachineCommandIndexProof * CommandIndexNodeUpdates * string)
    (ep : MachineCommandArchiveEntry * MachineCommandIndexProof)
    : core (list MachineCommandIndexProof * CommandIndexNodeUpdates * string) :=
  let '(sequential, nodes, current) := st in
  let '(e, base_proof) := ep in
  _ ← require (bool_decide (ip_command_id base_proof = adm_command_id (entry_admission e))
               && bool_decide (ip_value base_proof = None)) IdentityMismatch;
  update ← rebase_command_index_proof base_proof parent_root current nodes;
  v ← command_index_entry_value e;
  recorded ← record_command_index_member_update update v;
  let '(new_nodes, result) := (recorded : CommandIndexNodeUpdates * string) in
  Ok (sequential ++ [update], new_nodes ∪ nodes, result).
(** [sequential_command_index_updates] *)
Definition sequential_command_index_updates (parent_root : string)
    (entries : list MachineCommandArchiveEntry) (base_proofs : list MachineCommandIndexProof)
    : core (list MachineCommandIndexProof * CommandIndexNodeUpdates * string) :=
  _ ← require (length entries =? length base_proofs) Validation;
  try_fold (sequential_update parent_root) ([], ∅, parent_root) (zip entries base_proofs).

(** ** Segments *)

Definition last_admission (entries : list MachineCommandArchiveEntry) : option string :=
  (λ e, admission_id (entry_admission e)) <$> last entries.
Definition or_else {A} (o p : option A) : option A := match o with Some a => Some a | None => p end.

Definition insert_batch (m : gmap string MachineCommandBatchRecord)
    (b : MachineCommandBatchRecord) : core (gmap string MachineCommandBatchRecord) :=
  _ ← BatchRecord_verify b;
  _ ← require (bool_decide (m !! br_batch_id b = None)) Validation;
  Ok (<[br_batch_id b := b]> m).
(** The admission chain of the entries; the state is the expected sequence and
    the expected parent. *)
Definition verify_archived_admission (st : N * option string) (e : MachineCommandArchiveEntry)
    : core (N * option string) :=
  let '(expected_sequence, expected_parent) := st in
  let a := entry_admission e in
  _ ← ArchiveEntry_verify e;
  _ ← CommandAdmission_verify a ((λ i, (expected_sequence - 1, i)%N) <$> expected_parent);
  _ ← require ((sequence a =? expected_sequence)%N
               && bool_decide (parent_admission a = expected_parent)) Validation;
  next ← ok_or (checked_add expected_sequence 1) Validation;
  Ok (next, Some (admission_id a)).

(** What [MachineCommandArchiveSegment::verify] compares with the header *)
Definition segment_matches_header (s : MachineCommandArchiveSegment) (batch_count : N) : core () :=
  let h := header s in
  count ← len_u64 (segment_entries s);
  _ ← require (count =? sh_entry_count h)%N IdentityMismatch;
  events ← archive_event_count (segment_entries s);
  _ ← require ((events =? sh_event_count h)%N && (batch_count =? sh_batch_count h)%N)
        IdentityMismatch;
  root ← archive_content_id MACHINE_COMMAND_ARCHIVE_BATCHES_DOMAIN (APBatches (segment_batches s));
  _ ← require (bool_decide (root = batches_root h)
               && (length (segment_entries s) =? length (command_index_updates s)))
        IdentityMismatch;
  root ← command_archive_merkle_root (segment_entries s) (command_index_updates s);
  require (bool_decide (root = entries_root h)
           && bool_decide (or_else (last_admission (segment_entries s)) (parent_admission_head h)
                           = result_admission_head h)) IdentityMismatch.
(** [MachineCommandArchiveSegment::verify] *)
Definition Segment_verify (s : MachineCommandArchiveSegment) : core () :=
  let h := header s in
  _ ← Header_verify h;
  batch_count ← len_u64 (segment_batches s);
  batches ← try_fold insert_batch ∅ (segment_batches s);
  _ ← segment_matches_header s batch_count;
  _ ← try_each (λ e,
        b ← ok_or ((batches : gmap string MachineCommandBatchRecord)
                     !! batch_id (entry_command e)) NotFound;
        BatchRecord_verify_entry b e) (segment_entries s);
  _ ← require (bool_decide ((segment_batches s ≫= λ b, member_command_id <$> members b)
                 = (λ e, command_id (envelope (entry_command e))) <$> segment_entries s))
        IdentityMismatch;
  root ← apply_command_index_updates (parent_command_index_root h) (segment_entries s)
           (command_index_updates s);
  _ ← require (bool_decide (root = result_command_index_root h)) IdentityMismatch;
  first ← ok_or (checked_add (parent_count h) 1) Validation;
  _ ← try_fold verify_archived_admission (first, parent_admission_head h) (segment_entries s);
  Ok ().

(** [MachineCommandArchiveSegment::new] *)
Definition Segment_new (parent : MachineCommandArchiveParent)
    (batches : list MachineCommandBatchRecord) (entries : list MachineCommandArchiveEntry)
    (updates : list MachineCommandIndexProof) : core MachineCommandArchiveSegment :=
  _ ← require (negb (bool_decide (batches = []))) Validation;
  entry_count ← len_u64 entries;
  batch_count ← len_u64 batches;
  batches_root ← archive_content_id MACHINE_COMMAND_ARCHIVE_BATCHES_DOMAIN (APBatches batches);
  _ ← require (length entries =? length updates) Validation;
  entries_root ← command_archive_merkle_root entries updates;
  event_count ← archive_event_count entries;
  result_count ← ok_or (checked_add (ap_count parent) entry_count) Validation;
  result_event_count ← ok_or (checked_add (ap_event_count parent) event_count) Validation;
  result_root ← apply_command_index_updates (ap_command_index_root parent) entries updates;
  let h := {| segment_version := SEGMENT_VERSION; segment_id := EmptyString;
              parent_segment := ap_segment parent; parent_count := ap_count parent;
              parent_event_count := ap_event_count parent;
              parent_admission_head := ap_admission_head parent;
              parent_command_index_root := ap_command_index_root parent;
              sh_entry_count := entry_count; sh_event_count := event_count;
              sh_batch_count := batch_count; batches_root := batches_root;
              entries_root := entries_root; result_count := result_count;
              result_event_count := result_event_count;
              result_admission_head := or_else (last_admission entries) (ap_admission_head parent);
              result_command_index_root := result_root |} in
  id ← header_expected_id h;
  let s := {| header := set_segment_id id h; segment_entries := entries;
              segment_batches := batches; command_index_updates := updates |} in
  _ ← Segment_verify s;
  Ok s.

(** ** Inclusion proofs *)

(** [MachineCommandArchiveSegment::command_proof] *)
Definition command_proof (s : MachineCommandArchiveSegment) (index : nat)
    : core MachineArchivedCommandProof :=
  _ ← Segment_verify s;
  e ← ok_or (segment_entries s !! index) NotFound;
  _ ← require (N.of_nat index <=? u64_max)%N Validation;
  update ← ok_or (command_index_updates s !! index) Panic;
  path ← command_archive_merkle_path (segment_entries s) (command_index_updates s) index;
  Ok {| acp_version := ARCHIVED_COMMAND_PROOF_VERSION; acp_segment := header s;
        entry_index := N.of_nat index; acp_entry := e; acp_command_index_update := update;
        merkle_path := path |}.

(** The loop of [verify_entry]; the state is the digest, the index and the
    width of the level. *)
Definition verify_sibling (st : string * nat * nat) (sibling : CommandArchiveMerkleSibling)
    : core (string * nat * nat) :=
  let '(digest, index, width) := st in
  _ ← require (negb (width <=? 1)) Validation;
  _ ← require (is_sha256_id (ms_digest sibling)) Validation;
  let expected_side := if Nat.even index then SideRight else SideLeft in
  _ ← require (bool_decide (ms_side sibling = expected_side)
               && negb (Nat.even index && (S index =? width)
                        && negb (bool_decide (ms_digest sibling = digest)))) Validation;
  digest ← match ms_side sibling with
           | SideLeft => command_archive_merkle_parent (ms_digest sibling) digest
           | SideRight => command_archive_merkle_parent digest (ms_digest sibling)
           end;
  Ok (digest, index / 2, (width + 1) / 2).
(** [MachineArchivedCommandProof::verify_entry] *)
Definition ArchivedCommandProof_verify_entry (p : MachineArchivedCommandProof) : core () :=
  let h := acp_segment p in
  let a := entry_admission (acp_entry p) in
  _ ← require (bool_decide (acp_version p = ARCHIVED_COMMAND_PROOF_VERSION)) Validation;
  _ ← Header_verify h;
  _ ← ArchiveEntry_verify (acp_entry p);
  _ ← require (entry_index p <? sh_entry_count h)%N Validation;
  expected_sequence ← ok_or (opt_filter (λ v, v <=? MAX_EXACT_INTEGER)%N
      (checked_add (parent_count h) (entry_index p) ≫= λ v, checked_add v 1)) Validation;
  _ ← require ((sequence a =? expected_sequence)%N
               && negb ((entry_index p =? 0)%N
                        && negb (bool_decide (parent_admission a = parent_admission_head h))))
        IdentityMismatch;
  digest ← command_archive_leaf_digest (acp_entry p) (acp_command_index_update p);
  st ← try_fold verify_sibling (digest, N.to_nat (entry_index p), N.to_nat (sh_entry_count h))
         (merkle_path p);
  let '(digest, _, width) := (st : string * nat * nat) in
  require ((width =? 1) && bool_decide (digest = entries_root h)) IdentityMismatch.

(** ** Membership in the cumulative index *)

(** The loop of [command_index_proof] over the entries of the segment itself;
    the state is the current root and the membership proof once it exists. *)
Definition membership_step (target : nat)
    (st : string * option MachineCommandIndexProof)
    (ieu : nat * (MachineCommandArchiveEntry * MachineCommandIndexProof))
    : core (string * option MachineCommandIndexProof) :=
  let '(current, membership) := st in
  let '(index, (e, update)) := ieu in
  _ ← IndexProof_verify update current;
  v ← command_index_entry_value e;
  recorded ← record_command_index_member_update update v;
  let '(nodes, result) := (recorded : CommandIndexNodeUpdates * string) in
  membership ←
    (if index =? target then
       m ← materialized update;
       let p := {| proof_version := proof_version m; ip_command_id := ip_command_id m;
                   ip_value := Some v; empty_depth := None; siblings := siblings m |} in
       _ ← IndexProof_verify p result;
       Ok (Some p)
     else
       match membership with
       | Some p => q ← rebase_command_index_proof p current result nodes; Ok (Some q)
       | None => Ok None
       end);
  Ok (result, membership).
(** The loop over the entries of a descendant *)
Definition descendant_step (st : string * option MachineCommandIndexProof)
    (eu : MachineCommandArchiveEntry * MachineCommandIndexProof)
    : core (string * option MachineCommandIndexProof) :=
  let '(current, membership) := st in
  let '(e, update) := eu in
  _ ← IndexProof_verify update current;
  v ← command_index_entry_value e;
  recorded ← record_command_index_member_update update v;
  let '(nodes, result) := (recorded : CommandIndexNodeUpdates * string) in
  p ← ok_or membership IdentityMismatch;
  q ← rebase_command_index_proof p current result nodes;
  Ok (result, Some q).
Definition descendant_segment
    (st : MachineCommandArchiveSegmentHeader * string * option MachineCommandIndexProof)
    (d : MachineCommandArchiveSegment)
    : core (MachineCommandArchiveSegmentHeader * string * option MachineCommandIndexProof) :=
  let '(head, current, membership) := st in
  _ ← Segment_verify d;
  _ ← require (bool_decide (parent_segment (header d) = Some (segment_id head))
               && bool_decide (parent_command_index_root (header d) = current)) Causal;
  r ← try_fold descendant_step (current, membership)
        (zip (segment_entries d) (command_index_updates d));
  let '(current, membership) := (r : string * option MachineCommandIndexProof) in
  Ok (header d, current, membership).
(** [MachineCommandArchiveSegment::command_index_proof] *)
Definition command_index_proof (s : MachineCommandArchiveSegment) (target : nat)
    (descendants : list MachineCommandArchiveSegment) : core MachineCommandIndexProof :=
  _ ← Segment_verify s;
  _ ← require (target <? length (segment_entries s)) NotFound;
  r ← try_fold (membership_step target) (parent_command_index_root (header s), None)
        (imap pair (zip (segment_entries s) (command_index_updates s)));
  let '(current, membership) := (r : string * option MachineCommandIndexProof) in
  _ ← require (bool_decide (current = result_command_index_root (header s))) IdentityMismatch;
  r ← try_fold descendant_segment (header s, current, membership) descendants;
  let '(_, current, membership) :=
    (r : MachineCommandArchiveSegmentHeader * string * option MachineCommandIndexProof) in
  p ← ok_or membership IdentityMismatch;
  _ ← IndexProof_verify p current;
  Ok p.

(** ** Persistence *)

(** [MachineCommandArchiveSegment::command_index_nodes], before the values of
    the map are listed *)
Definition command_index_node_map (s : MachineCommandArchiveSegment)
    : core (gmap string MachineCommandIndexNode) :=
  _ ← Segment_verify s;
  try_fold (λ nodes (eu : MachineCommandArchiveEntry * MachineCommandIndexProof),
      insert_update_nodes nodes eu.2 (command_index_entry_value eu.1)) ∅
    (zip (segment_entries s) (command_index_updates s)).
Definition command_index_nodes (s : MachineCommandArchiveSegment)
    : core (list MachineCommandIndexNode) :=
  nodes ← command_index_node_map s; Ok (btree_values nodes).

(** [MachineCommandArchiveObject::identity] *)
Definition ArchiveObject_identity (o : MachineCommandArchiveObject) : core string :=
  bytes ← canonical_bytes (serialize_archive (APObject o));
  _ ← require (byte_len bytes <=? MAX_MACHINE_COMMAND_ARCHIVE_OBJECT_BYTES)%N Validation;
  match o with
  | ObjectSegment s => _ ← Segment_verify s; Ok (segment_id (header s))
  | ObjectEntry e => ArchiveEntry_identity e
  | ObjectBatch b => _ ← BatchRecord_verify b; Ok (batch_receipt_id b)
  | ObjectCommandIndexNode n => IndexNode_identity n
  end.
(** [MachineCommandArchiveSegment::persistence_objects]; the capacity is the
    sum of four lengths in a [usize]. *)
Definition persistence_objects (s : MachineCommandArchiveSegment)
    : core (list MachineCommandArchiveObject) :=
  _ ← Segment_verify s;
  nodes ← command_index_nodes s;
  _ ← require (1 + N.of_nat (length (segment_entries s)) + N.of_nat (length (segment_batches s))
               + N.of_nat (length nodes) <=? u64_max)%N Validation;
  let objects := ObjectSegment s :: (ObjectBatch <$> segment_batches s)
                   ++ (ObjectEntry <$> segment_entries s)
                   ++ (ObjectCommandIndexNode <$> nodes) in
  _ ← try_each (λ o, _ ← ArchiveObject_identity o; Ok ()) objects;
  Ok objects.
End Archive.
