(* ===== verification/Compaction.v ===== *)
(** * Compaction of the admission history

    Models the compaction of [crates/cymule-core/src/machine.rs]: the base
    snapshot that replaces a causally closed prefix and its anchor, the cut of
    the event history, the archive segment over the admissions of the cut, and
    the two operations that replace a prefix of the machine by a base.  An
    operation that fails has no machine here; [CompactionInv] shows that the
    code returns no error once it has started to change the machine. *)

From S2P Require Import Prelude Identity CommandIndex IndexUpdate Canonical Ir Model Events.
From S2P Require Import Chain Machine Location Effects DerivedIndex Reducer Verify Authority.
From S2P Require Import Archive.

Definition MACHINE_BASE_ID_DOMAIN : string := "cymule.machine-base/4".
Definition MACHINE_PREFIX_VERSION : string := "cymule.machine-prefix/4".
Definition BASE_ANCHOR_VERSION : string := "cymule.machine-base-anchor/2".

(** ** Data *)


Record MachineCompaction := {
  mc_base_id : string;
  compacted_events : N;
  retained_events : N;
  causal_frontier : gset string;
  mc_projection_digest : string;
  archive_segment : MachineCommandArchiveSegment;
}.

Inductive CommandArchiveCut := ThroughAdmission | CompleteEventFreeTail.
#[export] Instance CommandArchiveCut_eq_dec : EqDecision CommandArchiveCut.
Proof. solve_decision. Defined.

Record EventCompactionCut := {
  cut_event_ids : list string;
  cut_projection : Projection;
  cut_projection_root : string;
  admission_index : nat;
}.
Record ArchiveEntryInputs := {
  input_entries : list MachineCommandArchiveEntry;
  index_proofs : list MachineCommandIndexProof;
}.
Record PreparedCommandArchive := {
  prepared_segment : MachineCommandArchiveSegment;
  parent_index_root : string;
  result_index_root : string;
  index_nodes : CommandIndexNodeUpdates;
}.
Record MachineCutAdmissionFrontier := {
  cut_plans : string;
  cut_plan_count : N;
  cut_artifacts : string;
  cut_artifact_count : N;
  cut_batches : string;
  cut_batch_count : N;
}.

(** The values of this component that are hashed; their serialisers are
    derived.  An anchor is hashed without its version and identity. *)
Inductive CompactionPreimage :=
| CPProjection (p : Projection)
| CPPrefix (head : string) (count events : N) (admission_head : option string)
    (index_root digest root : string)
| CPBase (b : MachineBase)
| CPAnchor (a : MachineBaseAnchor).
Class CompactionSerialize := { serialize_compaction : CompactionPreimage → Ser }.

(** [MachineBaseSnapshot::event_ids] *)
Definition base_event_ids (b : MachineBase) : gset string :=
  list_to_set (last_event <$> btree_values (runs (base_projection b))).

Section Compaction.
Context `{Sha256} `{Canonical} `{!MachineSerialize} `{!ArchiveSerialize} `{!CompactionSerialize}
  `{SchemaCompiler} `{PlanCodec} `{!ValueSerialize}.

(** ** The base snapshot *)

(** [Projection::digest] and [machine_prefix_digest] *)
Definition Projection_digest (p : Projection) : core string :=
  canonical_digest_of (serialize_compaction (CPProjection p)).
Definition machine_prefix_digest (head : string) (count events : N)
    (admission_head : option string) (index_root digest root : string) : core string :=
  content_id_of MACHINE_PREFIX_VERSION
    (serialize_compaction (CPPrefix head count events admission_head index_root digest root)).

(** The shape checks of [MachineBaseSnapshot::verify] *)
Definition base_shape_ok (b : MachineBase) : core () :=
  _ ← require (is_sha256_id (prefix_digest b) && is_sha256_id (archive_head b)
               && (archive_count b <=? MAX_EXACT_INTEGER)%N) Validation;
  bound ← ok_or (checked_mul (archive_count b) 2) Validation;
  _ ← require ((Machine.archive_event_count b <=? bound)%N
               && Bool.eqb (archive_count b =? 0)%N (bool_decide (base_admission_head b = None))
               && opt_sha256_id (base_admission_head b)
               && is_sha256_id (base_command_index_root b)
               && is_ok (validate_content_id (base_plan_commitment b))
               && is_ok (validate_content_id (base_artifact_commitment b))
               && (base_plan_count b <=? MAX_EXACT_INTEGER)%N
               && (base_artifact_count b <=? MAX_EXACT_INTEGER)%N
               && is_ok (validate_content_id (base_batch_commitment b))
               && negb (base_batch_count b =? 0)%N
               && (base_batch_count b <=? MAX_EXACT_INTEGER)%N
               && is_canonical_digest (base_projection_root b)) Validation;
  _ ← (if (archive_count b =? 0)%N then
         root ← empty_root; require (bool_decide (base_command_index_root b = root)) Validation
       else Ok ());
  if (Machine.archive_event_count b =? 0)%N then
    _ ← require (bool_decide (runs (base_projection b) = ∅)
                 && bool_decide (facts (base_projection b) = ∅)) Validation;
    root ← canonical_digest PreProjectionGenesis;
    require (bool_decide (base_projection_root b = root)) Validation
  else Ok ().
(** [MachineBaseSnapshot::verify] *)
Definition Base_verify (b : MachineBase) : core () :=
  _ ← base_shape_ok b;
  digest ← Projection_digest (base_projection b);
  _ ← verify_reducer_invariants (base_projection b);
  _ ← require (bool_decide (base_projection_digest b = digest)) IdentityMismatch;
  prefix ← machine_prefix_digest (archive_head b) (archive_count b)
             (Machine.archive_event_count b) (base_admission_head b) (base_command_index_root b)
             digest (base_projection_root b);
  _ ← require (bool_decide (prefix_digest b = prefix)) IdentityMismatch;
  try_each (λ run, require (is_sha256_id (last_event run)) Validation)
    (btree_values (runs (base_projection b))).

Definition base_content_id (b : MachineBase) : core string :=
  content_id_of MACHINE_BASE_ID_DOMAIN (serialize_compaction (CPBase b)).
(** [MachineBaseAnchor::expected_id] *)
Definition anchor_expected_id (a : MachineBaseAnchor) : core string :=
  content_id_of BASE_ANCHOR_VERSION (serialize_compaction (CPAnchor a)).
(** [MachineBaseAnchor::from_verified_base] *)
Definition anchor_of (i base_id : string) (b : MachineBase) : MachineBaseAnchor :=
  {| anchor_version := BASE_ANCHOR_VERSION; anchor_id := i; anchor_base_id := base_id;
     anchor_archive_head := archive_head b; anchor_archive_count := archive_count b;
     anchor_archive_event_count := Machine.archive_event_count b;
     anchor_archive_batch_count := base_batch_count b;
     anchor_admission_head := base_admission_head b;
     anchor_command_index_root := base_command_index_root b;
     anchor_prefix_digest := prefix_digest b; anchor_projection_digest := base_projection_digest b;
     anchor_projection_root := base_projection_root b |}.
Definition from_verified_base (b : MachineBase) : core MachineBaseAnchor :=
  base_id ← base_content_id b;
  i ← anchor_expected_id (anchor_of EmptyString base_id b);
  Ok (anchor_of i base_id b).

(** [MachineBaseAnchor::verify] *)
Definition Anchor_verify (a : MachineBaseAnchor) : core () :=
  _ ← require (bool_decide (anchor_version a = BASE_ANCHOR_VERSION) && is_sha256_id (anchor_id a)
               && is_sha256_id (anchor_base_id a) && is_sha256_id (anchor_archive_head a)
               && (anchor_archive_count a <=? MAX_EXACT_INTEGER)%N
               && negb (anchor_archive_batch_count a =? 0)%N
               && (anchor_archive_batch_count a <=? MAX_EXACT_INTEGER)%N) Validation;
  bound ← ok_or (checked_mul (anchor_archive_count a) 2) Validation;
  _ ← require ((anchor_archive_event_count a <=? bound)%N
               && Bool.eqb (anchor_archive_count a =? 0)%N
                    (bool_decide (anchor_admission_head a = None))
               && opt_sha256_id (anchor_admission_head a)
               && is_sha256_id (anchor_command_index_root a)
               && is_sha256_id (anchor_prefix_digest a)
               && is_canonical_digest (anchor_projection_digest a)
               && is_canonical_digest (anchor_projection_root a)) Validation;
  _ ← (if (anchor_archive_count a =? 0)%N then
         root ← empty_root; require (bool_decide (anchor_command_index_root a = root)) Validation
       else Ok ());
  _ ← (if (anchor_archive_event_count a =? 0)%N then
         digest ← Projection_digest empty_projection;
         _ ← require (bool_decide (anchor_projection_digest a = digest)) Validation;
         root ← canonical_digest PreProjectionGenesis;
         require (bool_decide (anchor_projection_root a = root)) Validation
       else Ok ());
  expected ← anchor_expected_id a;
  require (bool_decide (anchor_id a = expected)) Validation.
(** [MachineBaseAnchor::verify_trusted_base_fields] *)
Definition verify_trusted_base_fields (a : MachineBaseAnchor) (b : MachineBase) : core () :=
  _ ← Anchor_verify a;
  _ ← require (bool_decide (anchor_archive_head a = archive_head b)
               && (anchor_archive_count a =? archive_count b)%N
               && (anchor_archive_event_count a =? Machine.archive_event_count b)%N
               && (anchor_archive_batch_count a =? base_batch_count b)%N
               && bool_decide (anchor_admission_head a = base_admission_head b)
               && bool_decide (anchor_command_index_root a = base_command_index_root b)
               && bool_decide (anchor_prefix_digest a = prefix_digest b)
               && bool_decide (anchor_projection_digest a = base_projection_digest b)
               && bool_decide (anchor_projection_root a = base_projection_root b))
        IdentityMismatch;
  digest ← Projection_digest (base_projection b);
  _ ← require (bool_decide (digest = anchor_projection_digest a)) IdentityMismatch;
  base_id ← base_content_id b;
  _ ← require (bool_decide (base_id = anchor_base_id a)) IdentityMismatch;
  verify_reducer_invariants (base_projection b).

(** ** The cut *)

(** [lightweight_event_authority]: the plans and artifacts of the machine over
    the start of its event history; the genesis digest is [expect]ed. *)
Definition lightweight_event_authority (m : Machine) (p : Projection) : core Machine :=
  root ← match base m with
         | Some b => Ok (base_projection_root b)
         | None => match canonical_digest PreProjectionGenesis with
                   | Ok root => Ok root
                   | Err _ => Err Panic
                   end
         end;
  Ok {| plans := plans m; plan_order := plan_order m; staged_plans := ∅;
        artifacts := artifacts m; artifact_order := artifact_order m; staged_artifacts := ∅;
        batches := ∅; batch_order := []; events := ∅; event_order := []; base := None;
        base_anchor := None; compacted_event_ids := ∅; projection := p; admissions := []; commands := ∅;
        command_index_proofs := ∅; authority := set_projection_root root (authority m) |}.

(** The loop of [event_compaction_cut] *)
Definition compaction_event (a : Machine) (ev : Event) : core Machine :=
  _ ← validate_event_authority a ev;
  p ← apply_event (projection a) ev;
  let a := Machine.set_projection p a in
  root ← canonical_digest (PreProjectionRoot (projection_root (authority a)) (event_id ev));
  Ok (set_authority (set_projection_root root (authority a)) a).

(** [event_compaction_cut] *)
Definition event_compaction_cut (m : Machine) (retain_suffix : nat) : core EventCompactionCut :=
  _ ← require (retain_suffix <? length (event_order m)) Validation;
  let prefix_ids := take (length (event_order m) - retain_suffix) (event_order m) in
  prefix ← try_map (λ i, ok_or (events m !! i) Panic) prefix_ids;
  a ← lightweight_event_authority m
        (match base m with Some b => base_projection b | None => empty_projection end);
  a ← try_fold compaction_event a prefix;
  last_compacted ← ok_or (last prefix) Validation;
  found ← ok_or (list_find (λ a, adm_command_id a = ev_command_id last_compacted) (admissions m))
            NotFound;
  Ok {| cut_event_ids := prefix_ids; cut_projection := projection a;
        cut_projection_root := projection_root (authority a); admission_index := found.1 |}.

(** The entry and the stored proof of one admission *)
Definition archive_input (m : Machine) (a : CommandAdmission) (evs : core (list Event))
    : core (MachineCommandArchiveEntry * MachineCommandIndexProof) :=
  r ← ok_or (commands m !! adm_command_id a) NotFound;
  _ ← verify_admission_record a r;
  evs ← evs;
  proof ← ok_or (command_index_proofs m !! adm_command_id a) NotFound;
  Ok ({| entry_admission := a; entry_command := r; entry_events := evs |}, proof).
(** The events of one archived admission, which the cut must contain *)
Definition archived_events (m : Machine) (prefix : gset string) (a : CommandAdmission)
    : core (list Event) :=
  try_map (λ i,
    ev ← ok_or (events m !! i) NotFound;
    _ ← require (bool_decide (i ∈ prefix)) Causal;
    Ok ev) (adm_event_ids a).
Definition inputs_of (l : list (MachineCommandArchiveEntry * MachineCommandIndexProof))
    : ArchiveEntryInputs := {| input_entries := l.*1; index_proofs := l.*2 |}.

(** [event_compaction_entries] *)
Definition event_compaction_entries (m : Machine) (prefix_ids : list string) (cut : nat)
    : core ArchiveEntryInputs :=
  let prefix : gset string := list_to_set prefix_ids in
  let archived := take (S cut) (admissions m) in
  inputs ← try_map (λ a, archive_input m a (archived_events m prefix a)) archived;
  _ ← require (bool_decide (list_to_set (archived ≫= adm_event_ids) = prefix)) NotFound;
  Ok (inputs_of inputs).
(** [event_free_compaction_entries] *)
Definition event_free_compaction_entries (m : Machine) : core ArchiveEntryInputs :=
  inputs ← try_map (λ a, archive_input m a (Ok [])) (admissions m);
  Ok (inputs_of inputs).

(** ** The archive segment *)

(** The second loop of [archive_batch_records] *)
Fixpoint collect_batches (batches : gmap string MachineCommandBatchRecord)
    (last_batch : option string) (command_ids : gset string) (cut : CommandArchiveCut)
    (order : list string) (seen : gset string) (reached : bool)
    : core (bool * list MachineCommandBatchRecord) :=
  match order with
  | [] => Ok (reached, [])
  | i :: order =>
      b ← ok_or (batches !! i) NotFound;
      if reached && bool_decide (cut = ThroughAdmission) then Ok (reached, []) else
      _ ← require (bool_decide (i ∉ seen)) IdentityMismatch;
      _ ← BatchRecord_verify b;
      _ ← require (forallb (λ x, bool_decide (member_command_id x ∈ command_ids)) (members b))
            Causal;
      let reached := reached || bool_decide (last_batch = Some i) in
      rest ← collect_batches batches last_batch command_ids cut order ({[i]} ∪ seen) reached;
      let '(reached, records) := (rest : bool * list MachineCommandBatchRecord) in
      Ok (reached, b :: records)
  end.
(** [archive_batch_records] *)
Definition archive_batch_records (batches : gmap string MachineCommandBatchRecord)
    (order : list string) (l : list CommandAdmission) (cut : CommandArchiveCut)
    : core (list MachineCommandBatchRecord) :=
  let last_batch := adm_batch_id <$> last l in
  let command_ids : gset string := list_to_set (adm_command_id <$> l) in
  _ ← try_each (λ a, require (bool_decide (is_Some (batches !! adm_batch_id a))) NotFound) l;
  r ← collect_batches batches last_batch command_ids cut order ∅ (bool_decide (last_batch = None));
  let '(reached, records) := (r : bool * list MachineCommandBatchRecord) in
  _ ← require reached NotFound;
  Ok records.

(** The parent of the next segment *)
Definition archive_parent (b : option MachineBase) (root : string) : MachineCommandArchiveParent :=
  {| ap_segment := archive_head <$> b;
     ap_count := match b with Some b => archive_count b | None => 0%N end;
     ap_event_count := match b with Some b => Machine.archive_event_count b | None => 0%N end;
     ap_admission_head := b ≫= base_admission_head; ap_command_index_root := root |}.
(** [prepare_compaction_archive] *)
Definition prepare_compaction_archive (m : Machine) (l : list CommandAdmission)
    (inputs : ArchiveEntryInputs) (cut : CommandArchiveCut) : core PreparedCommandArchive :=
  records ← archive_batch_records (batches m) (batch_order m) l cut;
  parent_root ← current_command_index_root (base m);
  updates ← sequential_command_index_updates parent_root (input_entries inputs)
              (index_proofs inputs);
  let '(sequential, nodes, result_root) :=
    (updates : list MachineCommandIndexProof * CommandIndexNodeUpdates * string) in
  segment ← Segment_new (archive_parent (base m) parent_root) records (input_entries inputs)
              sequential;
  Ok {| prepared_segment := segment; parent_index_root := parent_root;
        result_index_root := result_root; index_nodes := nodes |}.

(** The admission of one material identity by [admission_frontier_at_cut]; the
    state is the set admitted so far, the commitment and the count. *)
Definition cut_admission (domain : string) (order : list string)
    (st : gset string * string * N) (i : string) : core (gset string * string * N) :=
  let '(admitted, root, count) := st in
  if decide (i ∈ admitted) then Ok st else
  _ ← require (bool_decide (order !! size admitted = Some i)) IdentityMismatch;
  root ← commitment_insert domain root i;
  Ok ({[i]} ∪ admitted, root, (count + 1)%N).
(** [MachineCommandBatchRecord::admits_material]: some receipt is applied, or
    the batch has no members *)
Definition admits_material (b : MachineCommandBatchRecord) : bool :=
  bool_decide (members b = [])
  || existsb (λ r, bool_decide (receipt_status r = ReceiptApplied)) (receipts b).
Definition order_prefix (order : list string) (n : N) : core (gset string) :=
  _ ← require (N.to_nat n <=? length order) NotFound;
  Ok (list_to_set (take (N.to_nat n) order)).
(** The admission of one archived batch: the state of its plans, of its
    artifacts, and the commitment and the number of batches. *)
Definition cut_batch (m : Machine)
    (st : (gset string * string * N) * (gset string * string * N) * string * N)
    (b : MachineCommandBatchRecord)
    : core ((gset string * string * N) * (gset string * string * N) * string * N) :=
  let '(ps, arts, bs, count) := st in
  ps ← (if admits_material b
        then try_fold (cut_admission MACHINE_PLAN_ADMISSION_COMMITMENT_DOMAIN (plan_order m))
               ps (br_plan_ids b)
        else Ok ps);
  arts ← (if admits_material b
          then try_fold (cut_admission MACHINE_ARTIFACT_ADMISSION_COMMITMENT_DOMAIN
                           (artifact_order m)) arts (artifact_id <$> br_artifacts b)
          else Ok arts);
  bs ← commitment_insert MACHINE_COMMAND_BATCH_ADMISSION_COMMITMENT_DOMAIN bs (br_batch_id b);
  Ok (ps, arts, bs, (count + 1)%N).
(** [admission_frontier_at_cut] *)
Definition admission_frontier_at_cut (m : Machine) (l : list MachineCommandBatchRecord)
    : core MachineCutAdmissionFrontier :=
  start ← match base m with
          | Some b => Ok {| cut_plans := base_plan_commitment b;
                            cut_plan_count := base_plan_count b;
                            cut_artifacts := base_artifact_commitment b;
                            cut_artifact_count := base_artifact_count b;
                            cut_batches := base_batch_commitment b;
                            cut_batch_count := base_batch_count b |}
          | None =>
              ps ← commitment_genesis MACHINE_PLAN_ADMISSION_COMMITMENT_DOMAIN;
              arts ← commitment_genesis MACHINE_ARTIFACT_ADMISSION_COMMITMENT_DOMAIN;
              bs ← commitment_genesis MACHINE_COMMAND_BATCH_ADMISSION_COMMITMENT_DOMAIN;
              Ok {| cut_plans := ps; cut_plan_count := 0; cut_artifacts := arts;
                    cut_artifact_count := 0; cut_batches := bs; cut_batch_count := 0 |}
          end;
  ps ← order_prefix (plan_order m) (cut_plan_count start);
  arts ← order_prefix (artifact_order m) (cut_artifact_count start);
  st ← try_fold (cut_batch m)
    ((ps, cut_plans start, cut_plan_count start), (arts, cut_artifacts start, cut_artifact_count start),
     cut_batches start, cut_batch_count start) l;
  let '(ps, arts, bs, count) :=
    (st : (gset string * string * N) * (gset string * string * N) * string * N) in
  Ok {| cut_plans := ps.1.2; cut_plan_count := ps.2; cut_artifacts := arts.1.2;
        cut_artifact_count := arts.2; cut_batches := bs; cut_batch_count := count |}.

(** [event_compaction_base] *)
Definition event_compaction_base (m : Machine) (p : Projection) (root : string)
    (s : MachineCommandArchiveSegment) : core MachineBase :=
  let h := header s in
  digest ← Projection_digest p;
  prefix ← machine_prefix_digest (segment_id h) (result_count h) (result_event_count h)
             (result_admission_head h) (result_command_index_root h) digest root;
  frontier ← admission_frontier_at_cut m (segment_batches s);
  let b := {| prefix_digest := prefix; archive_head := segment_id h;
              archive_count := result_count h; Machine.archive_event_count := result_event_count h;
              base_admission_head := result_admission_head h;
              base_command_index_root := result_command_index_root h;
              base_plan_commitment := cut_plans frontier;
              base_plan_count := cut_plan_count frontier;
              base_artifact_commitment := cut_artifacts frontier;
              base_artifact_count := cut_artifact_count frontier;
              base_batch_commitment := cut_batches frontier;
              base_batch_count := cut_batch_count frontier;
              base_projection := p; base_projection_digest := digest;
              base_projection_root := root |} in
  _ ← Base_verify b;
  _ ← validate_projection_authority m (base_projection b);
  Ok b.

(** One retained batch of [verify_compaction_source_cut]; the state is the
    roots known so far and the parent of the next batch. *)
Definition verify_retained_batch (st : gset string * string) (b : MachineCommandBatchRecord)
    : core (gset string * string) :=
  let '(known, parent) := st in
  _ ← BatchRecord_verify b;
  _ ← require (bool_decide (admission_parent_authority_root b = parent)) IdentityMismatch;
  _ ← require (bool_decide (parent_authority_root b ∈ known)) Causal;
  Ok ({[result_authority_root b]} ∪ known, result_authority_root b).
(** [verify_compaction_source_cut] *)
Definition verify_compaction_source_cut (b : MachineBase) (s : MachineCommandArchiveSegment)
    (retained : list MachineCommandBatchRecord) : core () :=
  root ← machine_authority_root
    {| plan_commitment := base_plan_commitment b; plan_count := base_plan_count b;
       artifact_commitment := base_artifact_commitment b; artifact_count := base_artifact_count b;
       batch_commitment := base_batch_commitment b; ar_batch_count := base_batch_count b;
       ar_projection_root := base_projection_root b;
       event_count := Machine.archive_event_count b;
       admission_sequence := if (archive_count b =? 0)%N then None else Some (archive_count b);
       admission_head := base_admission_head b |};
  _ ← require (bool_decide (result_authority_root <$> last (segment_batches s) = Some root))
        IdentityMismatch;
  _ ← try_fold verify_retained_batch ({[root]}, root) retained;
  Ok ().
(** [verify_retained_compaction_sources] *)
Definition verify_retained_compaction_sources (m : Machine) (b : MachineBase)
    (s : MachineCommandArchiveSegment) : core () :=
  retained ← try_map (λ i, ok_or (batches m !! i) NotFound)
               (drop (length (segment_batches s)) (batch_order m));
  verify_compaction_source_cut b s retained.

(** ** Replacing the prefix *)

(** [admissions.drain], with the commands and proofs of the drained admissions *)
Definition drain_admissions (n : nat) (m : Machine) : Machine :=
  let drained := adm_command_id <$> take n (admissions m) in
  set_command_index_proofs (foldl (λ l i, delete i l) (command_index_proofs m) drained)
    (set_commands (foldl (λ l i, delete i l) (commands m) drained)
      (set_admissions (drop n (admissions m)) m)).
(** [events.remove] and [event_order.drain] *)
Definition drain_events (ids : list string) (m : Machine) : Machine :=
  set_event_order (drop (length ids) (event_order m))
    (set_events (foldl (λ l i, delete i l) (events m) ids) m).
(** The removal of the archived batches *)
Definition drain_batches (l : list MachineCommandBatchRecord) (m : Machine) : Machine :=
  let archived : gset string := list_to_set (br_batch_id <$> l) in
  set_batches (foldl (λ l i, delete i l) (batches m) (btree_elements archived))
    (set_batch_order (filter (λ i, i ∉ archived) (batch_order m)) m).

(** The loop over [command_index_proofs.values_mut()] *)
Definition rebase_proofs (parent_root result_root : string) (nodes : CommandIndexNodeUpdates)
    (l : gmap string MachineCommandIndexProof) : core (gmap string MachineCommandIndexProof) :=
  l ← try_map (λ ip : string * MachineCommandIndexProof,
        p ← rebase_command_index_proof ip.2 parent_root result_root nodes;
        Ok (ip.1, p)) (btree_list l);
  Ok (list_to_map l).

(** [reset_projection_root_to_base] *)
Definition reset_projection_root_to_base (m : Machine) (b : MachineBase) : core Machine :=
  root ← try_fold (λ root i,
      ev ← ok_or (events m !! i) NotFound;
      canonical_digest (PreProjectionRoot root (event_id ev)))
    (base_projection_root b) (event_order m);
  Ok (set_authority (set_projection_root root (authority m)) m).

(** The last changes of both operations: the compacted frontier, the
    projection root, the base and its anchor *)
Definition install_base (m : Machine) (b : MachineBase) (anchor : MachineBaseAnchor)
    : core Machine :=
  m ← reset_projection_root_to_base (set_compacted_event_ids (base_event_ids b) m) b;
  Ok (set_base_anchor (Some anchor) (set_base (Some b) m)).

(** [compaction_frontier]; [events()] follows the event order. *)
Definition compaction_frontier (m : Machine) : gset string :=
  list_to_set (filter (λ p, p ∈ compacted_event_ids m)
                 (omap (λ i, events m !! i) (event_order m) ≫= parents))
  ∪ match base m with Some b => base_event_ids b | None => ∅ end.

(** The changes of [compact_event_history], after its last check *)
Definition replace_prefix (m : Machine) (c : EventCompactionCut) (a : PreparedCommandArchive)
    (b : MachineBase) (anchor : MachineBaseAnchor) : core Machine :=
  let m := drain_events (cut_event_ids c) m in
  let m := drain_admissions (S (admission_index c)) m in
  let m := drain_batches (segment_batches (prepared_segment a)) m in
  proofs ← rebase_proofs (parent_index_root a) (result_index_root a) (index_nodes a)
             (command_index_proofs m);
  install_base (set_command_index_proofs proofs m) b anchor.
(** What both operations return *)
Definition compaction_report (m : Machine) (base_id digest : string) (retained : N)
    (s : MachineCommandArchiveSegment) : MachineCompaction :=
  {| mc_base_id := base_id; compacted_events := result_event_count (header s);
     retained_events := retained; causal_frontier := compaction_frontier m;
     mc_projection_digest := digest; archive_segment := s |}.

(** The checks of [compact_event_history], before it changes the machine *)
Definition plan_event_compaction (m : Machine) (retain_suffix : nat)
    : core (EventCompactionCut * PreparedCommandArchive * MachineBase * MachineBaseAnchor) :=
  c ← event_compaction_cut m retain_suffix;
  cut_admission ← ok_or (admissions m !! admission_index c) Panic;
  inputs ← event_compaction_entries m (cut_event_ids c) (admission_index c);
  a ← prepare_compaction_archive m (take (S (admission_index c)) (admissions m)) inputs
        ThroughAdmission;
  let h := header (prepared_segment a) in
  _ ← require ((result_count h =? sequence cut_admission)%N
               && bool_decide (result_admission_head h = Some (admission_id cut_admission))
               && bool_decide (result_command_index_root h = result_index_root a))
        IdentityMismatch;
  b ← event_compaction_base m (cut_projection c) (cut_projection_root c) (prepared_segment a);
  _ ← verify_retained_compaction_sources m b (prepared_segment a);
  anchor ← from_verified_base b;
  Ok (c, a, b, anchor).
(** [compact_event_history] *)
Definition compact_event_history (m : Machine) (retain_suffix : nat)
    : core (Machine * MachineCompaction) :=
  r ← plan_event_compaction m retain_suffix;
  let '(c, a, b, anchor) :=
    (r : EventCompactionCut * PreparedCommandArchive * MachineBase * MachineBaseAnchor) in
  m ← replace_prefix m c a b anchor;
  Ok (m, compaction_report m (anchor_base_id anchor) (base_projection_digest b)
           (N.of_nat (length (event_order m))) (prepared_segment a)).

(** The checks of [compact_event_free_admissions] *)
Definition event_free_tail (m : Machine) : bool :=
  bool_decide (event_order m = [])
  && forallb (λ a, bool_decide (adm_status a = ReceiptConflict)
                   && bool_decide (adm_event_ids a = [])) (admissions m).
Definition plan_event_free_compaction (m : Machine)
    : core (PreparedCommandArchive * MachineBase * MachineBaseAnchor) :=
  _ ← require (negb (bool_decide (admissions m = []) && bool_decide (batches m = ∅))) Validation;
  _ ← require (event_free_tail m) Validation;
  inputs ← event_free_compaction_entries m;
  a ← prepare_compaction_archive m (admissions m) inputs CompleteEventFreeTail;
  let h := header (prepared_segment a) in
  _ ← require (sh_event_count h =? 0)%N IdentityMismatch;
  _ ← validate_projection_authority m (projection m);
  digest ← Projection_digest (projection m);
  let root := projection_root (authority m) in
  prefix ← machine_prefix_digest (segment_id h) (result_count h) (result_event_count h)
             (result_admission_head h) (result_command_index_root h) digest root;
  let b := {| prefix_digest := prefix; archive_head := segment_id h;
              archive_count := result_count h; Machine.archive_event_count := result_event_count h;
              base_admission_head := result_admission_head h;
              base_command_index_root := result_index_root a;
              base_plan_commitment := auth_plans (authority m);
              base_plan_count := N.of_nat (size (plans m));
              base_artifact_commitment := auth_artifacts (authority m);
              base_artifact_count := N.of_nat (size (artifacts m));
              base_batch_commitment := auth_batches (authority m);
              base_batch_count := batch_count (authority m);
              base_projection := projection m; base_projection_digest := digest;
              base_projection_root := root |} in
  _ ← Base_verify b;
  _ ← verify_retained_compaction_sources m b (prepared_segment a);
  anchor ← from_verified_base b;
  Ok (a, b, anchor).
(** [compact_event_free_admissions] *)
Definition compact_event_free_admissions (m : Machine) : core (Machine * MachineCompaction) :=
  r ← plan_event_free_compaction m;
  let '(a, b, anchor) := (r : PreparedCommandArchive * MachineBase * MachineBaseAnchor) in
  let m := drain_admissions (length (admissions m)) m in
  let m := drain_batches (segment_batches (prepared_segment a)) m in
  m ← install_base m b anchor;
  Ok (m, compaction_report m (anchor_base_id anchor) (base_projection_digest b) 0
           (prepared_segment a)).
End Compaction.
