(* ===== verification/Admission.v ===== *)
(** * Command admission

    Models [Machine::admit_command] of [crates/cymule-core/src/machine.rs]: one
    definition per handler, each of which turns a command into the payload of
    its event or refuses it. *)

From S2P Require Import Prelude Identity Canonical Ir Model Events Chain Machine Location.
From S2P Require Import Effects DerivedIndex Reducer Verify Authority.

(** The machine material of [crates/cymule-core/src/machine/pinned.rs] *)
Definition MACHINE_MATERIAL_ADMISSION_DOMAIN : string := "cymule.machine-material-admission/1".
Definition MAX_PINNED_MACHINE_READ_LEAF_BYTES : N := 12 * 1024 * 1024.
Definition MAX_PINNED_MACHINE_READ_SET_BYTES : N := 64 * 1024 * 1024.

Record MachineMaterialAdmission := {
  source_command_id : string;
  material_digest : string;
  material_plans : list SealedPlan;
  material_artifacts : list ArtifactRecord;
}.

Definition record_id (a : ArtifactRecord) : string := artifact_id (reference a).

(** [windows(2).any(|pair| key(pair[0]) == key(pair[1]))] *)
Fixpoint adjacent_equal (l : list string) : bool :=
  match l with
  | a :: ((b :: _) as l') => bool_decide (a = b) || adjacent_equal l'
  | _ => false
  end.

Section Material.
Context `{Sha256} `{Canonical} `{SchemaCompiler} `{PlanCodec}.

(** [account_read_bytes]; the running total is returned. *)
Definition account_read_bytes (value : Preimage) (total : N) : core N :=
  bytes ← canonical_bytes (serialize value);
  _ ← require (byte_len bytes <=? MAX_PINNED_MACHINE_READ_LEAF_BYTES)%N Validation;
  total ← ok_or (checked_add total (byte_len bytes)) Validation;
  _ ← require (total <=? MAX_PINNED_MACHINE_READ_SET_BYTES)%N Validation;
  Ok total.

(** [MachineMaterialAdmission::new] *)
Definition MachineMaterialAdmission_new (source : string) (plans : list SealedPlan)
    (artifacts : list ArtifactRecord) : core MachineMaterialAdmission :=
  _ ← validate_identity source;
  _ ← require (negb ((bool_decide (plans = []) && bool_decide (artifacts = []))
                     || (MAX_MACHINE_MATERIAL_PLANS <? length plans)
                     || (MAX_MACHINE_MATERIAL_ARTIFACTS <? length artifacts))) Validation;
  _ ← try_each SealedPlan_verify plans;
  bytes ← try_fold (λ total plan, account_read_bytes (PrePlan plan) total) 0%N plans;
  _ ← try_fold (λ total a,
        _ ← ArtifactRecord_validate a;
        account_read_bytes (PreArtifact a) total) bytes artifacts;
  let plans := sort_by_key plan_id plans in
  let artifacts := sort_by_key record_id artifacts in
  _ ← require (negb (adjacent_equal (plan_id <$> plans)
                     || adjacent_equal (record_id <$> artifacts))) Validation;
  digest ← content_id MACHINE_MATERIAL_ADMISSION_DOMAIN (PreMaterial source plans artifacts);
  Ok {| source_command_id := source; material_digest := digest; material_plans := plans;
        material_artifacts := artifacts |}.
End Material.

(** [InitialAttemptSpec::verify] *)
Definition InitialAttemptSpec_verify (a : InitialAttemptSpec) (binding : string) : core () :=
  _ ← validate_content_id (ia_attempt_id a);
  _ ← validate_content_id (ia_continuation_id a);
  _ ← validate_content_id (ia_occurrence_binding a);
  require (bool_decide (ia_occurrence_binding a = binding)
           && bool_decide (ia_continuation_epoch a = 0%N)
           && bool_decide (ia_execution_fence a = 1%N)) Validation.

Section Admission.
Context `{Sha256} `{Canonical} `{SchemaCompiler} `{PlanCodec} `{!ValueSerialize}.

(** [admit_run_start_command] *)
Definition admit_run_start_command (m : Machine) (env : CommandEnvelope) : core EventPayload :=
  match command env with
  | StartRun pid binding input digest attempt =>
      _ ← require (bool_decide (runs (projection m) !! env_run_id env = None)) IllegalTransition;
      plan ← ok_or (plans m !! pid) NotFound;
      binding_record ← require_execution_binding m binding;
      _ ← validate_run_input m plan input;
      _ ← InitialAttemptSpec_verify attempt binding;
      input_record ← ok_or (artifact m input) NotFound;
      material ← MachineMaterialAdmission_new (command_id env) [plan]
                   [binding_record; input_record];
      _ ← require (bool_decide (material_digest material = digest)) IdentityMismatch;
      Ok (RunStarted pid (entry (candidate plan)) binding input)
  | _ => Err Validation
  end.

(** [admit_attempt_command] *)
Definition admit_attempt_command (m : Machine) (env : CommandEnvelope) : core EventPayload :=
  match command env with
  | BeginAttempt aid cid occ cepoch fence =>
      _ ← validate_content_id aid;
      _ ← validate_content_id cid;
      _ ← validate_content_id occ;
      _ ← validate_attempt_numbers cepoch fence;
      Ok (AttemptStarted aid cid occ cepoch fence)
  | YieldAttempt aid cepoch fence =>
      _ ← validate_content_id aid;
      _ ← validate_attempt_numbers cepoch fence;
      Ok (AttemptYielded aid cepoch fence)
  | AdvanceEpoch =>
      run ← machine_run m (env_run_id env);
      e ← ok_or (checked_add_exact (epoch run) 1) IllegalTransition;
      Ok (EpochAdvanced e)
  | _ => Err Validation
  end.

(** [admit_scope_open_command] *)
Definition admit_scope_open_command (m : Machine) (env : CommandEnvelope) : core EventPayload :=
  match command env with
  | OpenScope sid parent iid path did rpath site =>
      run ← machine_run m (env_run_id env);
      plan ← ok_or (plans m !! current_plan run) NotFound;
      _ ← validate_execution_location (candidate plan) (current_plan run) run iid path did rpath
            parent;
      found ← locate_step (candidate plan) did rpath site;
      let index := found.2 in
      step ← step_at (candidate plan) did rpath index;
      _ ← require (is_scope_operation (step_operation step)) Validation;
      let body_path := rpath ++ [index] in
      expected ← plan_scope_id (env_run_id env) (current_plan run) iid did body_path;
      _ ← require (bool_decide (sid = expected)) Validation;
      Ok (ScopeOpened sid parent iid path did body_path site)
  | _ => Err Validation
  end.

(** [admit_effect_run] *)
Definition admit_effect_run (m : Machine) (rid : string) (binding : ArtifactRef)
    (occ_binding : string) : core RunProjection :=
  _ ← validate_content_id occ_binding;
  _ ← require (bool_decide (is_Some (artifact m binding))) NotFound;
  run ← machine_run m rid;
  _ ← ArtifactRef_validate binding;
  _ ← require (bool_decide (artifact_kind binding = EXECUTION_BINDING_ARTIFACT_KIND)
               && bool_decide (artifact_id binding = current_binding_context run))
        IllegalTransition;
  Ok run.

(** [admit_effect_proposal_command] *)
Definition admit_effect_proposal_command (m : Machine) (env : CommandEnvelope)
    : core EventPayload :=
  match command env with
  | ProposeEffect sid iid path did rpath site occ op arguments binding occ_binding =>
      run ← admit_effect_run m (env_run_id env) binding occ_binding;
      plan ← ok_or (plans m !! current_plan run) NotFound;
      scope ← ok_or (scopes run !! sid) NotFound;
      _ ← require (bool_decide (scope_status scope = Open)) IllegalTransition;
      _ ← validate_execution_location (candidate plan) (current_plan run) run iid path did rpath
            sid;
      found ← locate_step (candidate plan) did rpath site;
      match step_operation found.1 with
      | OEffect declared _ declared_occurrence _ =>
          _ ← require (bool_decide (declared = op) && bool_decide (declared_occurrence = occ))
                Validation;
          _ ← validate_effect_args m (current_plan run) declared arguments;
          contract ← effect_contract m (current_plan run) declared;
          intent ← effect_intent_id (env_run_id env) (current_plan run) iid site sid occ arguments
                     EFFECT_SCHEMA_VERSION;
          Ok (EffectProposed intent (current_plan run) sid iid path did rpath site occ
                EFFECT_SCHEMA_VERSION op (contract_profile contract) arguments binding occ_binding)
      | _ => Err Validation
      end
  | _ => Err Validation
  end.

(** [RunProjection::scope_mutating_intent_ids] *)
Definition scope_mutating_intent_ids (run : RunProjection) (sid : string)
    : option (list string) :=
  mutating_intent_order <$> open_scope_effects (derived run) !! sid.

(** [admit_scope_close_command] *)
Definition admit_scope_close_command (m : Machine) (env : CommandEnvelope) : core EventPayload :=
  match command env with
  | CommitScope sid =>
      run ← machine_run m (env_run_id env);
      scope ← ok_or (scopes run !! sid) NotFound;
      _ ← require (bool_decide (scope_status scope = Open)) IllegalTransition;
      intents ← ok_or (scope_mutating_intent_ids run sid) Validation;
      obligations ← try_map (λ iid,
        e ← ok_or (effects run !! iid) NotFound;
        obligation_for_effect e) intents;
      summary ← scope_obligation_summary obligations;
      Ok (ScopeCommitted sid summary.1 summary.2)
  | AbortScope sid => Ok (ScopeAborted sid)
  | _ => Err Validation
  end.

(** [admit_migration_command] *)
Definition admit_migration_command (m : Machine) (env : CommandEnvelope) : core EventPayload :=
  match command env with
  | MigrateRun from_plan to_plan from_binding to_binding sp target digest =>
      run ← machine_run m (env_run_id env);
      _ ← validate_migration_payload from_plan to_plan from_binding to_binding sp target digest;
      _ ← require (bool_decide (current_plan run = from_plan)
                   && bool_decide (current_binding_context run = from_binding)) IllegalTransition;
      _ ← require (bool_decide (is_Some (plans m !! to_plan))) NotFound;
      _ ← require_execution_binding m from_binding;
      _ ← require_execution_binding m to_binding;
      _ ← require (bool_decide (active_attempt (derived run) = None)) IllegalTransition;
      _ ← require (bool_decide (checked_add (epoch run) 1 = Some target)) IllegalTransition;
      Ok (RunMigrated from_plan to_plan from_binding to_binding sp target digest)
  | _ => Err Validation
  end.

(** [admit_run_termination_command] *)
Definition admit_run_termination_command (m : Machine) (env : CommandEnvelope)
    : core EventPayload :=
  match command env with
  | CompleteRun result =>
      _ ← match result with
          | Some r => require (bool_decide (is_Some (artifact m r))) NotFound
          | None => Ok ()
          end;
      Ok (RunCompleted result)
  | FailRun failure =>
      _ ← RunFailure_verify failure;
      _ ← require (bool_decide (is_Some (artifact m (failure_detail failure)))) NotFound;
      run ← machine_run m (env_run_id env);
      e ← ok_or (checked_add_exact (epoch run) 1) IllegalTransition;
      Ok (RunFailed failure e)
  | CancelRun reason =>
      _ ← ArtifactRef_validate reason;
      _ ← require (bool_decide (is_Some (artifact m reason))) NotFound;
      run ← machine_run m (env_run_id env);
      e ← ok_or (checked_add_exact (epoch run) 1) IllegalTransition;
      Ok (RunCancelled reason e)
  | _ => Err Validation
  end.

(** [admit_command] *)
Definition admit_command (m : Machine) (env : CommandEnvelope) : core EventPayload :=
  match command env with
  | StartRun _ _ _ _ _ => admit_run_start_command m env
  | BeginAttempt _ _ _ _ _ | YieldAttempt _ _ _ | AdvanceEpoch => admit_attempt_command m env
  | OpenScope _ _ _ _ _ _ _ => admit_scope_open_command m env
  | ProposeEffect _ _ _ _ _ _ _ _ _ _ _ => admit_effect_proposal_command m env
  | CommitScope _ | AbortScope _ => admit_scope_close_command m env
  | MigrateRun _ _ _ _ _ _ _ => admit_migration_command m env
  | CompleteRun _ | FailRun _ | CancelRun _ => admit_run_termination_command m env
  | TransitionEffect iid t => Ok (EffectTransitioned iid t)
  | UpdateBinding binding =>
      run ← machine_run m (env_run_id env);
      _ ← require_execution_binding m binding;
      Ok (BindingUpdated (current_binding_context run) binding)
  | RecordFact key value =>
      _ ← validate_identity key;
      _ ← validate_content_id value;
      Ok (FactRecorded key value)
  end.
End Admission.
