(* ===== verification/Submit.v ===== *)
(** * Command submission

    Models [Machine::submit] of [crates/cymule-core/src/machine.rs] and what it
    calls: the event batch of an admitted command, its application, the
    receipt, the command record, the chained admission and the batch record.
    A failing submission has no machine here; what the code undoes of the
    projection before it returns an error, and what it forgets, is the subject
    of [Rollback]. *)

From S2P Require Import Prelude Identity CommandIndex Canonical Ir Model Events Chain.
From S2P Require Import Machine Location Effects DerivedIndex Reducer Verify Authority.
From S2P Require Import Admission.

(** The answer of the archive to a lookup of a command. *)
Inductive MachineCommandArchiveLookup :=
| NonMember (index_proof : MachineCommandIndexProof)
| ArchiveMember (index_proof : MachineCommandIndexProof) (entry : MachineCommandArchiveEntry).

Section Submit.
Context `{Sha256} `{Canonical} `{!MachineSerialize} `{SchemaCompiler} `{PlanCodec}
  `{!ValueSerialize}.

(** ** Event batches *)

(** The second payload of a Run start. *)
Definition initial_attempt_payload (c : Command) : list EventPayload :=
  match c with
  | StartRun _ _ _ _ a =>
      [AttemptStarted (ia_attempt_id a) (ia_continuation_id a) (ia_occurrence_binding a)
         (ia_continuation_epoch a) (ia_execution_fence a)]
  | _ => []
  end.

(** The event of one payload of the batch. *)
Definition batch_event (env : CommandEnvelope) (hash : string) (ps : list string)
    (p : EventPayload) : core Event :=
  let '(r, w, k) := footprints (env_run_id env) p in
  Event_new {| c_command_id := command_id env; c_command_hash := hash;
               c_run_id := env_run_id env; c_parents := ps; c_reads := r; c_writes := w;
               c_coordination_key := k; c_payload := p |}.

(** The causal frontier of a Run. *)
Definition run_frontier (m : Machine) (rid : string) : list string :=
  match runs (projection m) !! rid with Some run => [last_event run] | None => [] end.

(** [command_event_batch]; the state of the loop is the parents of the next
    event and the events so far. *)
Definition command_event_batch (m : Machine) (env : CommandEnvelope) (hash : string)
    : core (list Event) :=
  first_payload ← admit_command m env;
  let payloads := first_payload :: initial_attempt_payload (command env) in
  st ← try_fold (λ st p,
    let '(ps, evs) := (st : list string * list Event) in
    ev ← batch_event env hash ps p;
    Ok ([event_id ev], evs ++ [ev])) (run_frontier m (env_run_id env), []) payloads;
  Ok st.2.

(** [apply_command_event_batch]: the machine with the new projection, and the
    new projection root, which the caller stores. *)
Definition apply_batch_event (st : Machine * string * gset string) (ev : Event)
    : core (Machine * string * gset string) :=
  let '(m, root, pending) := st in
  _ ← validate_new_event_with_pending m ev pending;
  p ← apply_event (projection m) ev;
  _ ← verify_event_footprint ev;
  root ← canonical_digest (PreProjectionRoot root (event_id ev));
  Ok (Machine.set_projection p m, root, {[event_id ev]} ∪ pending).
Definition apply_command_event_batch (m : Machine) (evs : list Event) : core (Machine * string) :=
  st ← try_fold apply_batch_event (m, projection_root (authority m), ∅) evs;
  Ok st.1.

(** ** Receipts *)

(** [stale_command_receipt] *)
Definition stale_command_receipt (m : Machine) (env : CommandEnvelope)
    : core (option CommandReceipt) :=
  if is_start_run (command env) then Ok None else
  observed ← ok_or (expected_precondition env) Validation;
  let current := precondition_token <$> runs (projection m) !! env_run_id env in
  if decide (Some observed = current) then Ok None else
  Ok (Some {| receipt_command_id := command_id env; receipt_status := ReceiptConflict;
              receipt_event_ids := []; receipt_error_code := Some "stale_action";
              receipt_message := Some "the Run changed after the caller's view";
              observed_precondition := Some observed; current_precondition := current |}).

(** [applied_command_receipt] *)
Definition applied_command_receipt (m : Machine) (env : CommandEnvelope) (evs : list Event)
    : CommandReceipt :=
  {| receipt_command_id := command_id env; receipt_status := ReceiptApplied;
     receipt_event_ids := event_id <$> evs; receipt_error_code := None; receipt_message := None;
     observed_precondition := expected_precondition env;
     current_precondition := precondition_token <$> runs (projection m) !! env_run_id env |}.

(** ** Admission of a new command *)

(** [finalize_single_batch_authority] *)
Definition finalize_single_batch_authority (m : Machine) (parent_root : string)
    (r : CommandRecord) (a : CommandAdmission) : core Machine :=
  let m := set_admissions (admissions m ++ [a]) m in
  next_root ← machine_content_id MACHINE_COMMAND_BATCH_ADMISSION_COMMITMENT_DOMAIN
                (MPAppend (auth_batches (authority m)) (batch_id r));
  next_count ← ok_or (opt_filter (λ v, v <=? MAX_EXACT_INTEGER)%N
                        (checked_add (batch_count (authority m)) 1)) Validation;
  result_root ← authority_root_with_batch m next_root next_count;
  batch ← build_single_command_batch_record parent_root result_root r;
  m ← insert_batch m batch;
  root ← authority_root m;
  _ ← require (bool_decide (root = result_root)) IdentityMismatch;
  Ok m.

(** [self.commands.insert(...)] and [self.command_index_proofs.insert(...)] *)
Definition record_command (m : Machine) (r : CommandRecord) (proof : MachineCommandIndexProof)
    : Machine :=
  set_command_index_proofs
    (<[receipt_command_id (receipt r) := proof]> (command_index_proofs m))
    (set_commands (<[command_id (envelope r) := r]> (commands m)) m).

(** [submit_applied_single_command] *)
Definition submit_applied_single_command (m : Machine) (env : CommandEnvelope)
    (hash bid parent_root : string) (proof : MachineCommandIndexProof)
    : core (Machine * CommandReceipt) :=
  let before := projection_root (authority m) in
  evs ← command_event_batch m env hash;
  applied ← apply_command_event_batch m evs;
  let '(m, after) := (applied : Machine * string) in
  let receipt := applied_command_receipt m env evs in
  let r := {| envelope := env; semantic_hash := hash; receipt := receipt; batch_id := bid;
              batch_position := 0; batch_len := 1 |} in
  a ← CommandAdmission_new (admission_parent m) r before after;
  let m := set_authority (set_projection_root after (authority m)) m in
  let m := foldl append_event m evs in
  m ← finalize_single_batch_authority m parent_root r a;
  Ok (record_command m r proof, receipt).

(** [submit_new_with_index_proof] *)
Definition submit_new_with_index_proof (m : Machine) (env : CommandEnvelope)
    (proof : MachineCommandIndexProof) : core (Machine * CommandReceipt) :=
  _ ← require (bool_decide (commands m !! command_id env = None)
               && bool_decide (command_index_proofs m !! command_id env = None)) IdentityMismatch;
  _ ← require (bool_decide (ip_command_id proof = command_id env)
               && bool_decide (ip_value proof = None)) IdentityMismatch;
  hash ← canonical_digest (PreEnvelope env);
  parent_root ← authority_root m;
  bid ← single_command_batch_metadata parent_root env hash;
  stale ← stale_command_receipt m env;
  match stale with
  | Some receipt =>
      let r := {| envelope := env; semantic_hash := hash; receipt := receipt; batch_id := bid;
                  batch_position := 0; batch_len := 1 |} in
      let root := projection_root (authority m) in
      a ← CommandAdmission_new (admission_parent m) r root root;
      m ← finalize_single_batch_authority m parent_root r a;
      Ok (record_command m r proof, receipt)
  | None =>
      m ← admit_staged_command_material m (command env);
      submit_applied_single_command m env hash bid parent_root proof
  end.

(** The exact replay of a retained command: its receipt, or reuse. *)
Definition replay_retained (m : Machine) (env : CommandEnvelope) (hash : string)
    (r : CommandRecord) : core (Machine * CommandReceipt) :=
  _ ← verify_retained_command_record m (command_id env) r;
  if decide (semantic_hash r = hash) then Ok (m, receipt r) else Err CommandReuse.

(** [Machine::submit] *)
Definition submit (m : Machine) (env : CommandEnvelope) : core (Machine * CommandReceipt) :=
  _ ← validate_envelope env;
  hash ← canonical_digest (PreEnvelope env);
  match commands m !! command_id env with
  | Some r => replay_retained m env hash r
  | None =>
      if decide (is_Some (base m)) then Err ArchivedCommandReplayRequired else
      proof ← empty_nonmembership (command_id env);
      submit_new_with_index_proof m env proof
  end.

(** [Machine::submit_with_archive_lookup] *)
Definition submit_with_archive_lookup (m : Machine) (env : CommandEnvelope)
    (lookup : MachineCommandArchiveLookup) : core (Machine * CommandReceipt) :=
  _ ← validate_envelope env;
  hash ← canonical_digest (PreEnvelope env);
  match commands m !! command_id env with
  | Some r => replay_retained m env hash r
  | None =>
      root ← current_command_index_root (base m);
      match lookup with
      | NonMember proof =>
          _ ← require (bool_decide (ip_command_id proof = command_id env)
                       && bool_decide (ip_value proof = None)) IdentityMismatch;
          _ ← IndexProof_verify proof root;
          submit_new_with_index_proof m env proof
      | ArchiveMember proof entry =>
          _ ← require (bool_decide (ip_command_id proof = command_id env)) IdentityMismatch;
          _ ← IndexProof_verify proof root;
          _ ← ArchiveEntry_verify entry;
          value ← ok_or (ip_value proof) Validation;
          _ ← require (bool_decide (adm_command_id (entry_admission entry) = command_id env)
                       && bool_decide (iv_admission_id value = admission_id (entry_admission entry)))
                IdentityMismatch;
          digest ← ArchiveEntry_leaf_digest entry;
          _ ← require (bool_decide (iv_archive_entry_digest value = digest)) IdentityMismatch;
          _ ← require (bool_decide (semantic_hash (entry_command entry) = hash)
                       && bool_decide (envelope (entry_command entry) = env)) CommandReuse;
          Ok (m, receipt (entry_command entry))
      end
  end.

(** [replay_command] *)
Definition replay_command (m : Machine) (env : CommandEnvelope) : core (option CommandReceipt) :=
  _ ← validate_envelope env;
  match commands m !! command_id env with
  | None => if decide (is_Some (base m)) then Err ArchivedCommandReplayRequired else Ok None
  | Some r =>
      _ ← verify_retained_command_record m (command_id env) r;
      hash ← canonical_digest (PreEnvelope env);
      _ ← require (bool_decide (hash = semantic_hash r)) CommandReuse;
      Ok (Some (receipt r))
  end.

(** [Machine::new] *)
Definition Machine_new : core Machine :=
  ps ← commitment_genesis MACHINE_PLAN_ADMISSION_COMMITMENT_DOMAIN;
  arts ← commitment_genesis MACHINE_ARTIFACT_ADMISSION_COMMITMENT_DOMAIN;
  bs ← commitment_genesis MACHINE_COMMAND_BATCH_ADMISSION_COMMITMENT_DOMAIN;
  root ← canonical_digest PreProjectionGenesis;
  Ok {| plans := ∅; plan_order := []; staged_plans := ∅; artifacts := ∅; artifact_order := [];
        staged_artifacts := ∅; batches := ∅; batch_order := []; events := ∅; event_order := [];
        base := None; base_anchor := None; compacted_event_ids := ∅;
        projection := empty_projection; admissions := []; commands := ∅;
        command_index_proofs := ∅;
        authority := {| auth_plans := ps; auth_artifacts := arts; auth_batches := bs;
                        batch_count := 0; projection_root := root |} |}.
End Submit.
