(* ===== verification/Restore.v ===== *)
(** * Snapshots, restoring and replay

    Models the snapshot of a machine in [crates/cymule-core/src/machine.rs] and
    what turns one back into a machine: the catalog of its material, the replay
    of one recorded batch, the audit of the archive chain below a base, the
    three ways to restore, and the replay of a complete set of entries.  A
    restored machine is computed, never copied: every command is reduced again
    and must reproduce its recorded events, receipt and admission. *)

From S2P Require Import Prelude Identity CommandIndex Canonical Ir Model Events Chain Machine.
From S2P Require Import Location Effects DerivedIndex Reducer Verify Authority Archive.
From S2P Require Import Compaction Admission Submit.

Definition MACHINE_SNAPSHOT_VERSION : string := "cymule.machine-snapshot/11".

(** [MachineSnapshot] *)
Record MachineSnapshot := {
  snapshot_version : string;
  snap_plans : list SealedPlan;
  snap_artifacts : list ArtifactRecord;
  snap_batches : list MachineCommandBatchRecord;
  snap_base : option MachineBase;
  snap_base_anchor : option MachineBaseAnchor;
  snap_events : list Event;
  snap_admissions : list CommandAdmission;
  snap_commands : gmap string CommandRecord;
  snap_command_index_proofs : gmap string MachineCommandIndexProof;
}.
#[export] Instance MachineSnapshot_eq_dec : EqDecision MachineSnapshot.
Proof. solve_decision. Defined.

(** The serialiser of a snapshot is derived. *)
Class SnapshotSerialize := { serialize_snapshot : MachineSnapshot → Ser }.

(** ** Equality of projections

    [RunProjection::eq] leaves the derived index out. *)
Definition without_index (p : Projection) : Projection :=
  {| runs := set_derived initialized_index <$> runs p; facts := facts p |}.
Definition same_projection (p q : Projection) : bool :=
  bool_decide (without_index p = without_index q).
Definition base_without_index (b : MachineBase) : MachineBase :=
  {| prefix_digest := prefix_digest b; archive_head := archive_head b;
     archive_count := archive_count b; Machine.archive_event_count := Machine.archive_event_count b;
     base_admission_head := base_admission_head b;
     base_command_index_root := base_command_index_root b;
     base_plan_commitment := base_plan_commitment b; base_plan_count := base_plan_count b;
     base_artifact_commitment := base_artifact_commitment b;
     base_artifact_count := base_artifact_count b;
     base_batch_commitment := base_batch_commitment b; base_batch_count := base_batch_count b;
     base_projection := without_index (base_projection b);
     base_projection_digest := base_projection_digest b;
     base_projection_root := base_projection_root b |}.
Definition snapshot_without_index (s : MachineSnapshot) : MachineSnapshot :=
  {| snapshot_version := snapshot_version s; snap_plans := snap_plans s;
     snap_artifacts := snap_artifacts s; snap_batches := snap_batches s;
     snap_base := base_without_index <$> snap_base s; snap_base_anchor := snap_base_anchor s;
     snap_events := snap_events s; snap_admissions := snap_admissions s;
     snap_commands := snap_commands s;
     snap_command_index_proofs := snap_command_index_proofs s |}.
Definition same_snapshot (s t : MachineSnapshot) : bool :=
  bool_decide (snapshot_without_index s = snapshot_without_index t).

(** ** Taking a snapshot *)

(** [order.iter().map(|id| map.get(id).expect(...))] *)
Definition lookup_all {A} (l : gmap string A) (order : list string) : core (list A) :=
  try_map (λ i, ok_or (l !! i) Panic) order.
(** [events()] *)
Definition ordered_events (m : Machine) : list Event := omap (λ i, events m !! i) (event_order m).

(** [Machine::snapshot] *)
Definition snapshot (m : Machine) : core MachineSnapshot :=
  ps ← lookup_all (plans m) (plan_order m);
  arts ← lookup_all (artifacts m) (artifact_order m);
  bs ← lookup_all (batches m) (batch_order m);
  Ok {| snapshot_version := MACHINE_SNAPSHOT_VERSION; snap_plans := ps; snap_artifacts := arts;
        snap_batches := bs; snap_base := base m; snap_base_anchor := base_anchor m;
        snap_events := ordered_events m; snap_admissions := admissions m;
        snap_commands := commands m; snap_command_index_proofs := command_index_proofs m |}.

(** [collect::<BTreeMap<_, _>>()]; a later element replaces an earlier one. *)
Definition collect_by {A} (key : A → string) (l : list A) : gmap string A :=
  foldl (λ m x, <[key x := x]> m) ∅ l.

(** [MachineReplayAncestry] *)
Record MachineReplayAncestry := {
  roots : gmap string N;
  run_admissions : gmap string N;
}.
Definition empty_ancestry : MachineReplayAncestry := {| roots := ∅; run_admissions := ∅ |}.

(** [MachineRestoreCatalog] *)
Record MachineRestoreCatalog := {
  catalog_snapshot : MachineSnapshot;
  catalog_plans : gmap string SealedPlan;
  catalog_artifacts : gmap string ArtifactRecord;
}.

Section Restore.
Context `{Sha256} `{Canonical} `{!MachineSerialize} `{!ArchiveSerialize} `{!CompactionSerialize}
  `{!SnapshotSerialize} `{SchemaCompiler} `{PlanCodec} `{!ValueSerialize}.

(** [MachineSnapshot::digest] *)
Definition snapshot_digest (s : MachineSnapshot) : core string :=
  canonical_digest_of (serialize_snapshot s).

(** [MachineRestoreCatalog::new] *)
Definition MachineRestoreCatalog_new (s : MachineSnapshot) : core MachineRestoreCatalog :=
  let ps := collect_by plan_id (snap_plans s) in
  let arts := collect_by record_id (snap_artifacts s) in
  _ ← require ((size ps =? length (snap_plans s)) && (size arts =? length (snap_artifacts s)))
        Validation;
  _ ← try_each SealedPlan_verify (snap_plans s);
  _ ← try_each ArtifactRecord_validate (snap_artifacts s);
  Ok {| catalog_snapshot := s; catalog_plans := ps; catalog_artifacts := arts |}.

(** [verify_restore_archive_authority] *)
Definition verify_restore_archive_authority (s : MachineSnapshot)
    (expected : option MachineBaseAnchor) (segments : list MachineCommandArchiveSegment) : core () :=
  match snap_base s, snap_base_anchor s, expected with
  | None, None, None => require (bool_decide (length segments = 0)) Validation
  | Some b, Some anchor, Some e =>
      _ ← require (bool_decide (anchor = e) && bool_decide (length segments = 0)) Validation;
      verify_trusted_base_fields e b
  | Some b, Some anchor, None =>
      _ ← Base_verify b;
      derived ← from_verified_base b;
      _ ← require (bool_decide (anchor = derived)) IdentityMismatch;
      require (negb (bool_decide (length segments = 0))) ArchivedCommandReplayRequired
  | _, _, _ => Err Validation
  end.

(** ** The replay of one batch *)

(** [MachineReplayAncestry::observe] *)
Definition observe (r : MachineReplayAncestry) (m : Machine)
    : core (MachineReplayAncestry * string) :=
  root ← authority_root m;
  let sequence := match admission_parent m with Some (s, _) => s | None => 0%N end in
  Ok ({| roots := <[root := sequence]> (roots r); run_admissions := run_admissions r |}, root).
(** [MachineReplayAncestry::verify_source] *)
Definition verify_source (r : MachineReplayAncestry) (b : MachineCommandBatchRecord)
    (run_ids : list string) : core () :=
  source ← ok_or (roots r !! parent_authority_root b) Causal;
  require (negb (existsb (λ s, source <? s)%N (omap (λ i, run_admissions r !! i) run_ids))) Causal.

(** [batch_artifact_from_catalog] *)
Definition batch_artifact_from_catalog (m : Machine) (r : ArtifactRef)
    (arts : gmap string ArtifactRecord) : core ArtifactRecord :=
  a ← ok_or (match arts !! artifact_id r with
             | Some a => Some a
             | None => artifacts m !! artifact_id r
             end) NotFound;
  _ ← require (bool_decide (reference a = r)) IdentityMismatch;
  Ok a.

(** [verify_batch_material_source_from_catalog] *)
Definition verify_batch_material_source_from_catalog (m : Machine)
    (b : MachineCommandBatchRecord) (ps : gmap string SealedPlan)
    (arts : gmap string ArtifactRecord) : core () :=
  match material_source b with
  | None => Ok ()
  | Some source =>
      source_plans ← try_map (λ i,
          ok_or (match ps !! i with Some p => Some p | None => plans m !! i end) NotFound)
        (ms_plan_ids source);
      source_artifacts ← try_map (λ r, batch_artifact_from_catalog m r arts) (ms_artifacts source);
      material ← MachineMaterialAdmission_new (ms_source_command_id source) source_plans
                   source_artifacts;
      require (bool_decide (br_material_digest b = Some (material_digest material)))
        IdentityMismatch
  end.

(** [admit_batch_material_from_catalog] *)
Definition admit_catalog_plan (ps : gmap string SealedPlan) (m : Machine) (i : string)
    : core Machine :=
  if decide (is_Some (plans m !! i)) then Ok m else
  p ← ok_or (ps !! i) NotFound;
  retain_plan m p.
Definition admit_catalog_artifact (arts : gmap string ArtifactRecord) (m : Machine)
    (r : ArtifactRef) : core Machine :=
  if decide (is_Some (artifacts m !! artifact_id r)) then Ok m else
  a ← batch_artifact_from_catalog m r arts;
  retain_artifact m a.
Definition admit_batch_material_from_catalog (m : Machine) (b : MachineCommandBatchRecord)
    (ps : gmap string SealedPlan) (arts : gmap string ArtifactRecord) : core Machine :=
  m ← try_fold (admit_catalog_plan ps) m (br_plan_ids b);
  try_fold (admit_catalog_artifact arts) m (br_artifacts b).

(** [replay_batch_entry] *)
Definition replay_batch_entry (m : Machine) (e : MachineCommandArchiveEntry) : core Machine :=
  _ ← ArchiveEntry_verify e;
  _ ← CommandAdmission_verify (entry_admission e) (admission_parent m);
  let r := entry_command e in
  _ ← require (bool_decide (commands m !! command_id (envelope r) = None)) IdentityMismatch;
  let before := projection_root (authority m) in
  conflict ← stale_command_receipt m (envelope r);
  evs ← match conflict with
        | Some _ => Ok []
        | None => command_event_batch m (envelope r) (semantic_hash r)
        end;
  _ ← require (bool_decide (evs = entry_events e)) IdentityMismatch;
  applied ← apply_command_event_batch m evs;
  let '(m, after) := (applied : Machine * string) in
  let expected := match conflict with
                  | Some c => c
                  | None => applied_command_receipt m (envelope r) evs
                  end in
  let admission := CommandAdmission_new (admission_parent m) r before after in
  _ ← require (bool_decide (expected = receipt r)
               && bool_decide (admission = Ok (entry_admission e))) IdentityMismatch;
  let m := set_authority (set_projection_root after (authority m)) m in
  let m := foldl append_event m evs in
  proof ← empty_nonmembership (command_id (envelope r));
  let m := set_command_index_proofs
             (<[command_id (envelope r) := proof]> (command_index_proofs m)) m in
  let m := set_commands (<[command_id (envelope r) := r]> (commands m)) m in
  Ok (set_admissions (admissions m ++ [entry_admission e]) m).

(** The body of the member loop of [replay_archived_batch] *)
Definition replay_member (b : MachineCommandBatchRecord)
    (entries : gmap string MachineCommandArchiveEntry) (st : Machine * MachineReplayAncestry)
    (x : MachineCommandBatchMember) : core (Machine * MachineReplayAncestry) :=
  let '(m, r) := st in
  e ← ok_or (entries !! member_command_id x) NotFound;
  _ ← BatchRecord_verify_entry b e;
  m ← replay_batch_entry m e;
  Ok (m, if decide (adm_status (entry_admission e) = ReceiptApplied) then
           {| roots := roots r;
              run_admissions := <[env_run_id (envelope (entry_command e)) :=
                                   sequence (entry_admission e)]> (run_admissions r) |}
         else r).
(** [replay_archived_batch], with the number of reduced commands *)
Definition replay_archived_batch (m : Machine) (b : MachineCommandBatchRecord)
    (entries : gmap string MachineCommandArchiveEntry) (ps : gmap string SealedPlan)
    (arts : gmap string ArtifactRecord) (r : MachineReplayAncestry)
    : core (Machine * MachineReplayAncestry * N) :=
  _ ← BatchRecord_verify b;
  seen ← observe r m;
  let '(r, parent) := (seen : MachineReplayAncestry * string) in
  _ ← require (bool_decide (parent = admission_parent_authority_root b)) IdentityMismatch;
  _ ← verify_source r b
        ((λ e, env_run_id (envelope (entry_command e)))
           <$> omap (λ x, entries !! member_command_id x) (Chain.members b));
  _ ← verify_batch_material_source_from_catalog m b ps arts;
  m ← (if admits_material b then admit_batch_material_from_catalog m b ps arts else Ok m);
  st ← try_fold (replay_member b entries) (m, r) (Chain.members b);
  let '(m, r) := (st : Machine * MachineReplayAncestry) in
  m ← Machine.insert_batch m b;
  result ← authority_root m;
  _ ← require (bool_decide (result = result_authority_root b)) IdentityMismatch;
  seen ← observe r m;
  let '(r, _) := (seen : MachineReplayAncestry * string) in
  Ok (m, r, N.of_nat (length (Chain.members b))).

(** One turn of the loops over batches; the state is the machine, the ancestry
    and the number of reduced commands. *)
Definition count_batch (entries : gmap string MachineCommandArchiveEntry)
    (ps : gmap string SealedPlan) (arts : gmap string ArtifactRecord)
    (st : Machine * MachineReplayAncestry * N) (b : MachineCommandBatchRecord)
    : core (Machine * MachineReplayAncestry * N) :=
  let '(m, r, count) := st in
  replayed ← replay_archived_batch m b entries ps arts r;
  let '(m, r, n) := (replayed : Machine * MachineReplayAncestry * N) in
  count ← ok_or (checked_add count n) Validation;
  Ok (m, r, count).

(** ** The audit of an archive chain *)

(** [events.clear()], [commands.clear()] and so on, with the new base *)
Definition clear_history (m : Machine) (b : MachineBase) (anchor : option MachineBaseAnchor)
    : Machine :=
  set_events ∅ (set_event_order [] (set_commands ∅ (set_command_index_proofs ∅
    (set_admissions [] (set_batches ∅ (set_batch_order []
      (set_compacted_event_ids (base_event_ids b)
        (set_base (Some b) (set_base_anchor anchor m))))))))).

(** [advance_archive_audit_anchor] *)
Definition advance_archive_audit_anchor (m : Machine) (s : MachineCommandArchiveSegment)
    : core Machine :=
  let h := header s in
  digest ← Projection_digest (projection m);
  let root := projection_root (authority m) in
  prefix ← machine_prefix_digest (segment_id h) (result_count h) (result_event_count h)
             (result_admission_head h) (result_command_index_root h) digest root;
  let b := {| prefix_digest := prefix; archive_head := segment_id h;
              archive_count := result_count h; Machine.archive_event_count := result_event_count h;
              base_admission_head := result_admission_head h;
              base_command_index_root := result_command_index_root h;
              base_plan_commitment := auth_plans (authority m);
              base_plan_count := N.of_nat (size (plans m));
              base_artifact_commitment := auth_artifacts (authority m);
              base_artifact_count := N.of_nat (size (artifacts m));
              base_batch_commitment := auth_batches (authority m);
              base_batch_count := batch_count (authority m);
              base_projection := projection m; base_projection_digest := digest;
              base_projection_root := root |} in
  _ ← Base_verify b;
  anchor ← from_verified_base b;
  Ok (clear_history m b (Some anchor)).

(** The body of the segment loop of [audit_archive_chain]; the first part of
    the state is the parent that the next segment must name. *)
Definition audit_segment (ps : gmap string SealedPlan) (arts : gmap string ArtifactRecord)
    (st : MachineCommandArchiveParent * (Machine * MachineReplayAncestry * N))
    (s : MachineCommandArchiveSegment)
    : core (MachineCommandArchiveParent * (Machine * MachineReplayAncestry * N)) :=
  let '(parent, replayed) := st in
  let h := header s in
  _ ← Segment_verify s;
  _ ← require (bool_decide (parent_segment h = ap_segment parent)
               && (parent_count h =? ap_count parent)%N
               && (parent_event_count h =? ap_event_count parent)%N
               && bool_decide (parent_admission_head h = ap_admission_head parent)
               && bool_decide (parent_command_index_root h = ap_command_index_root parent)) Causal;
  let entries := collect_by (λ e, adm_command_id (entry_admission e)) (segment_entries s) in
  replayed ← try_fold (count_batch entries ps arts) replayed (segment_batches s);
  let '(m, r, count) := (replayed : Machine * MachineReplayAncestry * N) in
  m ← advance_archive_audit_anchor m s;
  Ok ({| ap_segment := Some (segment_id h); ap_count := result_count h;
         ap_event_count := result_event_count h; ap_admission_head := result_admission_head h;
         ap_command_index_root := result_command_index_root h |}, (m, r, count)).

(** [audit_archive_chain] *)
Definition audit_archive_chain (m : Machine) (b : MachineBase)
    (segments : list MachineCommandArchiveSegment) (ps : gmap string SealedPlan)
    (arts : gmap string ArtifactRecord) (r : MachineReplayAncestry)
    : core (Machine * MachineReplayAncestry * N) :=
  root ← empty_root;
  st ← try_fold (audit_segment ps arts)
         ({| ap_segment := None; ap_count := 0; ap_event_count := 0; ap_admission_head := None;
             ap_command_index_root := root |}, (m, r, 0%N)) segments;
  let '(parent, (m, r, count)) :=
    (st : MachineCommandArchiveParent * (Machine * MachineReplayAncestry * N)) in
  _ ← require (bool_decide (ap_segment parent = Some (archive_head b))
               && (ap_count parent =? archive_count b)%N
               && (ap_event_count parent =? Machine.archive_event_count b)%N
               && bool_decide (ap_admission_head parent = base_admission_head b)
               && bool_decide (ap_command_index_root parent = base_command_index_root b)
               && same_projection (projection m) (base_projection b)
               && bool_decide (projection_root (authority m) = base_projection_root b))
        IdentityMismatch;
  Ok (m, r, count).

(** ** Restoring a base *)

(** [Projection::rebuild_derived_indexes] *)
Definition rebuild_derived_indexes (p : Projection) : core Projection :=
  l ← try_map (λ ir : string * RunProjection,
        x ← rebuild ir.2; Ok (ir.1, set_derived x ir.2)) (btree_list (runs p));
  Ok {| runs := list_to_map l; facts := facts p |}.

(** [slice.get(..n)] *)
Definition list_prefix {A} (n : N) (l : list A) : core (list A) :=
  if N.to_nat n <=? length l then Ok (take (N.to_nat n) l) else Err NotFound.

(** The first part of [restore_base_projection]: the material of a trusted base *)
Definition retain_base_material (m : Machine) (s : MachineSnapshot) : core Machine :=
  b ← ok_or (snap_base s) NotFound;
  ps ← list_prefix (base_plan_count b) (snap_plans s);
  m ← try_fold retain_plan m ps;
  arts ← list_prefix (base_artifact_count b) (snap_artifacts s);
  try_fold retain_artifact m arts.

(** The projection of a trusted base *)
Definition adopt_base_projection (m : Machine) (b : MachineBase) : core Machine :=
  _ ← validate_projection_authority m (base_projection b);
  p ← rebuild_derived_indexes (base_projection b);
  Ok (set_authority (set_auth_batches (base_batch_commitment b)
                       (set_batch_count (base_batch_count b) (authority m)))
        (Machine.set_projection p m)).

(** The checks of [restore_base_projection] on the restored material *)
Definition base_matches_material (m : Machine) (b : MachineBase) : bool :=
  bool_decide (auth_plans (authority m) = base_plan_commitment b)
  && (N.of_nat (size (plans m)) =? base_plan_count b)%N
  && bool_decide (auth_artifacts (authority m) = base_artifact_commitment b)
  && (N.of_nat (size (artifacts m)) =? base_artifact_count b)%N
  && bool_decide (auth_batches (authority m) = base_batch_commitment b)
  && (batch_count (authority m) =? base_batch_count b)%N.

(** [restore_base_projection] *)
Definition restore_base_projection (m : Machine) (s : MachineSnapshot)
    (expected : option MachineBaseAnchor) (segments : list MachineCommandArchiveSegment)
    (c : MachineRestoreCatalog) (r : MachineReplayAncestry)
    : core (Machine * MachineReplayAncestry * N) :=
  m ← match expected with Some _ => retain_base_material m s | None => Ok m end;
  match snap_base s with
  | None => Ok (m, r, 0%N)
  | Some b =>
      st ← match expected with
           | None => audit_archive_chain m b segments (catalog_plans c) (catalog_artifacts c) r
           | Some _ => m ← adopt_base_projection m b; Ok (m, r, 0%N)
           end;
      let '(m, r, count) := (st : Machine * MachineReplayAncestry * N) in
      _ ← require (base_matches_material m b) IdentityMismatch;
      m ← reset_projection_root_to_base (clear_history m b (snap_base_anchor s)) b;
      Ok (m, r, count)
  end.

(** ** The hot suffix *)

(** [hot_batch_archive_entries] *)
Definition hot_batch_archive_entries (b : MachineCommandBatchRecord)
    (admissions_by_command : gmap string CommandAdmission) (retained_events : gmap string Event)
    (cmds : gmap string CommandRecord) : core (list MachineCommandArchiveEntry) :=
  try_map (λ x,
    a ← ok_or (admissions_by_command !! member_command_id x) NotFound;
    r ← ok_or (cmds !! member_command_id x) NotFound;
    evs ← try_map (λ i, ok_or (retained_events !! i) NotFound) (adm_event_ids a);
    Ok {| entry_admission := a; entry_command := r; entry_events := evs |}) (Chain.members b).

(** The body of the batch loop of [replay_hot_snapshot] *)
Definition replay_hot_batch (s : MachineSnapshot) (c : MachineRestoreCatalog)
    (expected_batches : gmap string MachineCommandBatchRecord)
    (st : Machine * MachineReplayAncestry * N * gset string) (batch_id : string)
    : core (Machine * MachineReplayAncestry * N * gset string) :=
  let '(replayed, replayed_events) := st in
  b ← ok_or (expected_batches !! batch_id) NotFound;
  entries ← hot_batch_archive_entries b (collect_by adm_command_id (snap_admissions s))
              (collect_by event_id (snap_events s)) (snap_commands s);
  replayed ← count_batch (collect_by (λ e, adm_command_id (entry_admission e)) entries)
               (catalog_plans c) (catalog_artifacts c) replayed b;
  Ok (replayed, replayed_events ∪ list_to_set (br_event_ids b)).

(** [replay_hot_snapshot] *)
Definition replay_hot_snapshot (m : Machine) (s : MachineSnapshot) (c : MachineRestoreCatalog)
    (r : MachineReplayAncestry) (count : N) : core (Machine * N) :=
  let expected_batches := collect_by br_batch_id (snap_batches s) in
  st ← try_fold (replay_hot_batch s c expected_batches) (m, r, count, ∅)
         (br_batch_id <$> snap_batches s);
  let '(m, r, count, replayed_events) :=
    (st : Machine * MachineReplayAncestry * N * gset string) in
  let m := set_command_index_proofs (snap_command_index_proofs s) m in
  root ← current_command_index_root (base m);
  _ ← require (bool_decide (dom (snap_command_index_proofs s) =@{gset string} dom (snap_commands s)))
        IdentityMismatch;
  _ ← try_each (λ ip : string * MachineCommandIndexProof,
        _ ← IndexProof_verify ip.2 root;
        require (bool_decide (ip_command_id ip.2 = ip.1) && bool_decide (ip_value ip.2 = None))
          IdentityMismatch) (btree_list (snap_command_index_proofs s));
  _ ← require ((size replayed_events =? length (snap_events s))
               && bool_decide (commands m = snap_commands s)
               && bool_decide (command_index_proofs m = snap_command_index_proofs s)
               && bool_decide (admissions m = snap_admissions s)
               && bool_decide (batches m = expected_batches)) IdentityMismatch;
  Ok (m, count).

(** ** Restoring *)

(** [restore_hot_internal] *)
Definition restore_hot_internal (s : MachineSnapshot) (expected : option MachineBaseAnchor)
    (segments : list MachineCommandArchiveSegment) : core (Machine * N) :=
  _ ← require (bool_decide (snapshot_version s = MACHINE_SNAPSHOT_VERSION)) Validation;
  _ ← snapshot_digest s;
  _ ← verify_restore_archive_authority s expected segments;
  c ← MachineRestoreCatalog_new s;
  m ← Machine_new;
  st ← restore_base_projection m s expected segments c empty_ancestry;
  let '(m, r, count) := (st : Machine * MachineReplayAncestry * N) in
  st ← replay_hot_snapshot m s c r count;
  let '(m, count) := (st : Machine * N) in
  _ ← validate_projection_authority m (projection m);
  t ← snapshot m;
  _ ← require (same_snapshot t s) IdentityMismatch;
  Ok (m, count).
(** [Machine::restore], [restore_with_archive] and [restore_anchored] *)
Definition restore (s : MachineSnapshot) : core Machine :=
  fst <$> restore_hot_internal s None [].
Definition restore_with_archive (s : MachineSnapshot)
    (segments : list MachineCommandArchiveSegment) : core Machine :=
  fst <$> restore_hot_internal s None segments.
Definition restore_anchored (s : MachineSnapshot) (anchor : MachineBaseAnchor) : core Machine :=
  fst <$> restore_hot_internal s (Some anchor) [].

(** [verify_replay] *)
Definition verify_replay (m : Machine) : core () :=
  _ ← verify_derived_indexes (projection m);
  _ ← verify_reducer_invariants (projection m);
  s ← snapshot m;
  restored ← match base_anchor m with
             | Some anchor => restore_anchored s anchor
             | None => restore s
             end;
  _ ← require (same_projection (projection restored) (projection m)) IdentityMismatch;
  x ← authority_root restored;
  y ← authority_root m;
  require (bool_decide (x = y)) IdentityMismatch.

(** ** The replay of a complete set of entries *)

(** [replay_entries] *)
Definition replay_entries (m : Machine) : core (list MachineCommandArchiveEntry) :=
  _ ← require (bool_decide (base m = None)) Validation;
  try_map (λ a,
    r ← ok_or (commands m !! adm_command_id a) NotFound;
    evs ← try_map (λ i, ok_or (events m !! i) NotFound) (adm_event_ids a);
    let e := {| entry_admission := a; entry_command := r; entry_events := evs |} in
    _ ← ArchiveEntry_verify e;
    Ok e) (admissions m).

(** [entries.sort_by_key(|entry| entry.admission.sequence)] *)
Fixpoint insert_by_sequence (e : MachineCommandArchiveEntry) (l : list MachineCommandArchiveEntry)
    : list MachineCommandArchiveEntry :=
  match l with
  | [] => [e]
  | x :: l' => if (sequence (entry_admission e) <=? sequence (entry_admission x))%N
               then e :: l else x :: insert_by_sequence e l'
  end.
Definition sort_by_sequence (l : list MachineCommandArchiveEntry) : list MachineCommandArchiveEntry :=
  foldr insert_by_sequence [] l.

(** The body of the entry loop of [Machine::replay]; the state is the parent of
    the next admission and the identities seen. *)
Definition replay_entry_check (st : option (N * string) * gset string * gset string)
    (e : MachineCommandArchiveEntry) : core (option (N * string) * gset string * gset string) :=
  let '(previous, command_ids, admission_ids) := st in
  let a := entry_admission e in
  _ ← ArchiveEntry_verify e;
  _ ← CommandAdmission_verify a previous;
  _ ← require (bool_decide (adm_command_id a ∉ command_ids)
               && bool_decide (admission_id a ∉ admission_ids)) IdentityMismatch;
  Ok (Some (sequence a, admission_id a), {[adm_command_id a]} ∪ command_ids,
      {[admission_id a]} ∪ admission_ids).
(** The body of the batch loop of [Machine::replay] *)
Definition replay_batch_check (st : gset string * gmap string MachineCommandBatchRecord)
    (b : MachineCommandBatchRecord) : core (gset string * gmap string MachineCommandBatchRecord) :=
  let '(ids, by_parent) := st in
  _ ← BatchRecord_verify b;
  _ ← require (bool_decide (br_batch_id b ∉ ids)) IdentityMismatch;
  _ ← require (bool_decide (by_parent !! admission_parent_authority_root b = None)) IdentityMismatch;
  Ok ({[br_batch_id b]} ∪ ids, <[admission_parent_authority_root b := b]> by_parent).

(** The [while] loop of [Machine::replay]; each turn removes one batch, so that
    their number is enough fuel. *)
Fixpoint replay_by_parent (fuel : nat) (entries : gmap string MachineCommandArchiveEntry)
    (ps : gmap string SealedPlan) (arts : gmap string ArtifactRecord)
    (by_parent : gmap string MachineCommandBatchRecord) (m : Machine) (r : MachineReplayAncestry)
    : core Machine :=
  if decide (by_parent = ∅) then Ok m else
  match fuel with
  | 0 => Err Panic
  | S fuel =>
      parent ← authority_root m;
      b ← ok_or (by_parent !! parent) IdentityMismatch;
      replayed ← replay_archived_batch m b entries ps arts r;
      let '(m, r, _) := (replayed : Machine * MachineReplayAncestry * N) in
      replay_by_parent fuel entries ps arts (delete parent by_parent) m r
  end.

(** [Machine::replay] *)
Definition replay (plan_list : list SealedPlan) (artifact_list : list ArtifactRecord)
    (batch_list : list MachineCommandBatchRecord) (entry_list : list MachineCommandArchiveEntry)
    : core Projection :=
  m ← Machine_new;
  let ps := collect_by plan_id plan_list in
  let arts := collect_by record_id artifact_list in
  _ ← try_each SealedPlan_verify (btree_values ps);
  _ ← try_each ArtifactRecord_validate (btree_values arts);
  let entry_list := sort_by_sequence entry_list in
  _ ← try_fold replay_entry_check (None, ∅, ∅) entry_list;
  let entries := collect_by (λ e, adm_command_id (entry_admission e)) entry_list in
  st ← try_fold replay_batch_check (∅, ∅) batch_list;
  let by_parent := st.2 in
  m ← replay_by_parent (size by_parent) entries ps arts by_parent m empty_ancestry;
  _ ← require (size (commands m) =? length entry_list) IdentityMismatch;
  _ ← validate_projection_authority m (projection m);
  Ok (projection m).
End Restore.
