(* ===== verification/Rollback.v ===== *)
(** * Rolling back a failed admission

    Models the undo records of [crates/cymule-core/src/machine.rs]: what a
    [ProjectionEntryUndo] captures before the reducer applies one event, and
    what restoring it does to the Run, to its derived index and to the facts.
    A capture holds the entries the event touches, so that undoing one event
    costs as much as applying it. *)

From S2P Require Import Prelude Identity Canonical Ir Model Events Machine Authority Submit.

(** ** Restoring entries *)

(** [restore_projection_entries] *)
Definition restore_projection_entries {A} (target : gmap string A)
    (entries : gmap string (option A)) : gmap string A :=
  foldl (λ target kv, match kv.2 with
                      | Some v => <[kv.1 := v]> target
                      | None => delete kv.1 target
                      end) target (btree_list entries).

(** [restore_one_membership] and [restore_set_membership] *)
Definition restore_one_membership (target : gset string) (i : string) (present : bool)
    : gset string := if present then {[i]} ∪ target else target ∖ {[i]}.
Definition restore_set_membership (target : gset string) (entries : gmap string bool)
    : gset string :=
  foldl (λ target kv, restore_one_membership target kv.1 kv.2) target (btree_list entries).

(** [membership_snapshot] *)
Definition membership_snapshot (source ids : gset string) : gmap string bool :=
  set_to_map (λ i, (i, bool_decide (i ∈ source))) ids.

(** The entries of a map at some keys, absent ones included. *)
Definition entry_snapshot {A} (m : gmap string A) (ids : gset string)
    : gmap string (option A) := set_to_map (λ i, (i, m !! i)) ids.

(** [Result::expect] *)
Definition expect {A} (r : core A) : core A :=
  match r with Ok a => Ok a | Err _ => Err Panic end.

(** ** The entries of a Run *)

Inductive ScopeProjectionUndo :=
| ScopeInserted (scope_id : string)
| ScopeStatusChanged (scope_id : string) (previous : ScopeStatus)
| ScopeIntentMembership (scope_id intent_id : string) (was_present : bool) (order_len : nat).

Record RunProjectionEntriesUndo := {
  undo_scopes : list ScopeProjectionUndo;
  undo_effects : gmap string (option EffectProjection);
  undo_obligations : gmap string (option ObligationProjection);
  undo_attempts : gmap string (option AttemptProjection);
}.

Definition no_entries : RunProjectionEntriesUndo :=
  {| undo_scopes := []; undo_effects := ∅; undo_obligations := ∅; undo_attempts := ∅ |}.

(** [capture_scope_status] *)
Definition capture_scope_status (run : RunProjection) (sid : string) : list ScopeProjectionUndo :=
  match scopes run !! sid with
  | Some scope => [ScopeStatusChanged sid (scope_status scope)]
  | None => []
  end.

(** The obligations that [capture_effect_transition] inserts. *)
Definition obligations_of_intent (run : RunProjection) (iid : string) : gset string :=
  default ∅ (obligation_by_intent (derived run) !! iid).

(** [capture_active_attempt] *)
Definition capture_active_attempt (run : RunProjection) : gmap string (option AttemptProjection) :=
  match active_attempt (derived run) with
  | Some aid => {[aid := attempts run !! aid]}
  | None => ∅
  end.

(** The intents of an open scope that the close of the scope touches. *)
Definition open_scope_intents (run : RunProjection) (sid : string)
    (of_index : OpenScopeEffectIndex → gset string) : gset string :=
  match open_scope_effects (derived run) !! sid with Some x => of_index x | None => ∅ end.

Section Capture.
Context `{Sha256} `{Canonical}.

(** [RunProjectionEntriesUndo::capture] *)
Definition entries_capture (run : RunProjection) (p : EventPayload)
    : core RunProjectionEntriesUndo :=
  match p with
  | AttemptStarted aid _ _ _ _ | AttemptYielded aid _ _ =>
      Ok {| undo_scopes := []; undo_effects := ∅; undo_obligations := ∅;
            undo_attempts := {[aid := attempts run !! aid]} |}
  | EpochAdvanced _ =>
      Ok {| undo_scopes := []; undo_effects := ∅; undo_obligations := ∅;
            undo_attempts := capture_active_attempt run |}
  | ScopeOpened sid _ _ _ _ _ _ =>
      Ok {| undo_scopes := [ScopeInserted sid]; undo_effects := ∅; undo_obligations := ∅;
            undo_attempts := ∅ |}
  | EffectProposed iid _ sid _ _ _ _ _ _ _ _ _ _ _ _ =>
      let scope := scopes run !! sid in
      Ok {| undo_scopes :=
              [ScopeIntentMembership sid iid
                 (match scope with Some s => bool_decide (iid ∈ intents s) | None => false end)
                 (match scope with Some s => length (intent_order s) | None => 0 end)];
            undo_effects := {[iid := effects run !! iid]};
            undo_obligations := ∅; undo_attempts := ∅ |}
  | EffectTransitioned iid _ =>
      Ok {| undo_scopes := []; undo_effects := {[iid := effects run !! iid]};
            undo_obligations := entry_snapshot (obligations run) (obligations_of_intent run iid);
            undo_attempts := ∅ |}
  | ScopeCommitted sid _ _ =>
      (* [expect]: the obligation of a retained effect has an identity *)
      oids ← try_map (λ iid, expect (effect_obligation_id iid))
               (btree_elements (open_scope_intents run sid mutating_intents));
      Ok {| undo_scopes := capture_scope_status run sid; undo_effects := ∅;
            undo_obligations := entry_snapshot (obligations run) (list_to_set oids);
            undo_attempts := ∅ |}
  | ScopeAborted sid =>
      Ok {| undo_scopes := capture_scope_status run sid;
            undo_effects := entry_snapshot (effects run)
                              (open_scope_intents run sid abort_transition_intents);
            undo_obligations := ∅; undo_attempts := ∅ |}
  | RunFailed _ _ | RunCancelled _ _ =>
      let x := derived run in
      Ok {| undo_scopes := btree_elements (open_scope_ids x) ≫= capture_scope_status run;
            undo_effects := entry_snapshot (effects run) (terminal_transition_effects x);
            undo_obligations := entry_snapshot (obligations run)
              (set_bind (obligations_of_intent run) (terminal_transition_effects x));
            undo_attempts := capture_active_attempt run |}
  | _ => Ok no_entries
  end.
End Capture.

(** ** The derived index of a Run *)

Inductive OpenScopeEffectSet := SetAll | SetMutating | SetAbortTransition | SetAbortBlocker.
#[export] Instance OpenScopeEffectSet_eq_dec : EqDecision OpenScopeEffectSet.
Proof. solve_decision. Defined.

Record RunDerivedIndexUndo := {
  was_initialized : bool;
  was_active_attempt : option string;
  was_committed_effect_count : N;
  governance_membership : gmap string bool;
  unknown_membership : gmap string bool;
  pending_membership : gmap string bool;
  terminal_membership : gmap string bool;
  unresolved_obligation_membership : gmap string bool;
  was_obligation_by_intent : gmap string (option (gset string));
  was_open_descendants : gmap string (option N);
  open_scope_membership : gmap string bool;
  open_scope_entries : gmap string (option OpenScopeEffectIndex);
  open_scope_effect_membership : gmap (string * string) (list OpenScopeEffectSet);
  was_effect_count_by_scope : gmap string (option N);
}.

(** [scope_lifecycle_footprint]: the scopes whose children are counted anew,
    and the scopes that open or close. *)
Definition scope_lifecycle_footprint (run : RunProjection) (p : EventPayload)
    : gset string * gset string :=
  match p with
  | ScopeOpened sid parent _ _ _ _ _ => ({[parent]}, {[sid]})
  | ScopeCommitted sid _ _ | ScopeAborted sid =>
      (match scopes run !! sid ≫= parent_scope with Some p => {[p]} | None => ∅ end, {[sid]})
  | RunFailed _ _ | RunCancelled _ _ =>
      (dom (open_descendants (derived run)), open_scope_ids (derived run))
  | _ => (∅, ∅)
  end.

(** [open_scope_effect_membership] *)
Definition open_scope_effect_sets (scope : option OpenScopeEffectIndex) (iid : string)
    : list OpenScopeEffectSet :=
  match scope with
  | Some x =>
      (if bool_decide (iid ∈ all_intents x) then [SetAll] else [])
      ++ (if bool_decide (iid ∈ mutating_intents x) then [SetMutating] else [])
      ++ (if bool_decide (iid ∈ abort_transition_intents x) then [SetAbortTransition] else [])
      ++ (if bool_decide (iid ∈ abort_blockers x) then [SetAbortBlocker] else [])
  | None => []
  end.

(** The intents whose obligations a commit inserts. *)
Definition committed_intents (run : RunProjection) (p : EventPayload) : gset string :=
  match p with
  | ScopeCommitted sid _ _ => open_scope_intents run sid mutating_intents
  | _ => ∅
  end.

(** The pairs of a scope and an intent that the event touches in an open scope,
    and the scopes whose effects it counts. *)
Definition effect_scope_pairs (run : RunProjection) (p : EventPayload)
    : gset (string * string) :=
  match p with
  | EffectProposed iid _ sid _ _ _ _ _ _ _ _ _ _ _ _ => {[(sid, iid)]}
  | EffectTransitioned iid _ =>
      match effects run !! iid with
      | Some e => if decide (effect_scope_id e ∈ open_scope_ids (derived run))
                  then {[(effect_scope_id e, iid)]} else ∅
      | None => ∅
      end
  | _ => ∅
  end.
Definition counted_scopes (p : EventPayload) : gset string :=
  match p with
  | EffectProposed _ _ sid _ _ _ _ _ _ _ _ _ _ _ _ => {[sid]}
  | _ => ∅
  end.

(** [RunDerivedIndexUndo::capture] *)
Definition derived_capture (run : RunProjection) (p : EventPayload) (effect_ids obligation_ids : gset string)
    : RunDerivedIndexUndo :=
  let x := derived run in
  let '(descendant_ids, lifecycle_ids) := scope_lifecycle_footprint run p in
  {| was_initialized := initialized x;
     was_active_attempt := active_attempt x;
     was_committed_effect_count := committed_effect_count x;
     governance_membership := membership_snapshot (governance_effects x) effect_ids;
     unknown_membership := membership_snapshot (unknown_effects x) effect_ids;
     pending_membership := membership_snapshot (pending_effects x) effect_ids;
     terminal_membership := membership_snapshot (terminal_transition_effects x) effect_ids;
     unresolved_obligation_membership :=
       membership_snapshot (unresolved_blocking_obligations x) obligation_ids;
     was_obligation_by_intent := entry_snapshot (obligation_by_intent x) (committed_intents run p);
     was_open_descendants := entry_snapshot (open_descendants x) descendant_ids;
     open_scope_membership := membership_snapshot (open_scope_ids x) lifecycle_ids;
     open_scope_entries := entry_snapshot (open_scope_effects x) lifecycle_ids;
     open_scope_effect_membership :=
       set_to_map (λ si, (si, open_scope_effect_sets (open_scope_effects x !! si.1) si.2))
         (effect_scope_pairs run p);
     was_effect_count_by_scope := entry_snapshot (effect_count_by_scope x) (counted_scopes p) |}.

(** The four sets that the rollback of one pair restores. *)
Definition restore_open_sets (iid : string) (sets : list OpenScopeEffectSet)
    (x : OpenScopeEffectIndex) : OpenScopeEffectIndex :=
  let put c s := restore_one_membership s iid (bool_decide (c ∈ sets)) in
  {| all_intents := put SetAll (all_intents x);
     all_intent_order := all_intent_order x;
     mutating_intents := put SetMutating (mutating_intents x);
     mutating_intent_order := mutating_intent_order x;
     abort_transition_intents := put SetAbortTransition (abort_transition_intents x);
     abort_blockers := put SetAbortBlocker (abort_blockers x) |}.

(** [RunDerivedIndexUndo::rollback] *)
Definition derived_rollback (u : RunDerivedIndexUndo) (x : RunDerivedIndex) : RunDerivedIndex :=
  let entries := restore_projection_entries (open_scope_effects x) (open_scope_entries u) in
  {| initialized := was_initialized u;
     active_attempt := was_active_attempt u;
     governance_effects := restore_set_membership (governance_effects x) (governance_membership u);
     unknown_effects := restore_set_membership (unknown_effects x) (unknown_membership u);
     pending_effects := restore_set_membership (pending_effects x) (pending_membership u);
     terminal_transition_effects :=
       restore_set_membership (terminal_transition_effects x) (terminal_membership u);
     unresolved_blocking_obligations :=
       restore_set_membership (unresolved_blocking_obligations x)
         (unresolved_obligation_membership u);
     obligation_by_intent :=
       restore_projection_entries (obligation_by_intent x) (was_obligation_by_intent u);
     open_descendants := restore_projection_entries (open_descendants x) (was_open_descendants u);
     open_scope_ids := restore_set_membership (open_scope_ids x) (open_scope_membership u);
     open_scope_effects :=
       foldl (λ scs kv, alter (restore_open_sets kv.1.2 kv.2) kv.1.1 scs) entries
         (map_to_list (open_scope_effect_membership u));
     effect_count_by_scope :=
       restore_projection_entries (effect_count_by_scope x) (was_effect_count_by_scope u);
     committed_effect_count := was_committed_effect_count u |}.

(** ** The projection *)

Record RunUndo := {
  was_current_plan : string;
  plan_lineage_len : nat;
  was_current_binding_context : string;
  binding_lineage_len : nat;
  was_epoch : N;
  was_execution_status : RunExecutionStatus;
  was_world_settlement : WorldSettlementStatus;
  was_result : option ArtifactRef;
  was_last_event : string;
  undo_entries : RunProjectionEntriesUndo;
  undo_derived : RunDerivedIndexUndo;
}.

(** [ProjectionEntryUndo]; its fields about the Run are [Some] exactly when the
    Run existed. *)
Record ProjectionEntryUndo := {
  undo_run_id : string;
  undo_run : option RunUndo;
  undo_fact : option (string * option string);
  undo_projection_root : string;
}.

Definition set_scope_intents (v : gset string) (order : list string) (s : ScopeProjection)
    : ScopeProjection :=
  {| scope_id := scope_id s; parent_scope := parent_scope s;
     scope_invocation_id := scope_invocation_id s;
     scope_invocation_path := scope_invocation_path s;
     scope_definition_id := scope_definition_id s; scope_region_path := scope_region_path s;
     scope_site_id := scope_site_id s; scope_status := scope_status s;
     intents := v; intent_order := order |}.

(** The restoration of one scope. *)
Definition scope_rollback (u : ScopeProjectionUndo) (scs : gmap string ScopeProjection)
    : gmap string ScopeProjection :=
  match u with
  | ScopeInserted sid => delete sid scs
  | ScopeStatusChanged sid previous => alter (set_scope_status previous) sid scs
  | ScopeIntentMembership sid iid was_present order_len =>
      alter (λ s, set_scope_intents (restore_one_membership (intents s) iid was_present)
                    (take order_len (intent_order s)) s) sid scs
  end.

Definition run_rollback (u : RunUndo) (run : RunProjection) : RunProjection :=
  let entries := undo_entries u in
  {| run_id := run_id run;
     initial_plan := initial_plan run;
     current_plan := was_current_plan u;
     plan_lineage := take (plan_lineage_len u) (plan_lineage run);
     initial_binding_context := initial_binding_context run;
     current_binding_context := was_current_binding_context u;
     binding_lineage := take (binding_lineage_len u) (binding_lineage run);
     epoch := was_epoch u;
     execution_status := was_execution_status u;
     world_settlement := was_world_settlement u;
     scopes := foldr scope_rollback (scopes run) (undo_scopes entries);
     effects := restore_projection_entries (effects run) (undo_effects entries);
     obligations := restore_projection_entries (obligations run) (undo_obligations entries);
     attempts := restore_projection_entries (attempts run) (undo_attempts entries);
     run_result := was_result u;
     last_event := was_last_event u;
     derived := derived_rollback (undo_derived u) (derived run) |}.

Section UndoCapture.
Context `{Sha256} `{Canonical}.

Definition run_capture (run : RunProjection) (p : EventPayload) : core RunUndo :=
  es ← entries_capture run p;
  Ok {| was_current_plan := current_plan run;
        plan_lineage_len := length (plan_lineage run);
        was_current_binding_context := current_binding_context run;
        binding_lineage_len := length (binding_lineage run);
        was_epoch := epoch run;
        was_execution_status := execution_status run;
        was_world_settlement := world_settlement run;
        was_result := run_result run;
        was_last_event := last_event run;
        undo_entries := es;
        undo_derived := derived_capture run p (dom (undo_effects es)) (dom (undo_obligations es)) |}.

(** [ProjectionEntryUndo::capture] *)
Definition undo_capture (m : Machine) (ev : Event) : core ProjectionEntryUndo :=
  let p := projection m in
  ru ← match runs p !! ev_run_id ev with
       | Some run => u ← run_capture run (payload ev); Ok (Some u)
       | None => Ok None
       end;
  Ok {| undo_run_id := ev_run_id ev; undo_run := ru;
        undo_fact := match payload ev with
                     | FactRecorded key _ => Some (key, facts p !! key)
                     | _ => None
                     end;
        undo_projection_root := projection_root (authority m) |}.
End UndoCapture.

(** [ProjectionEntryUndo::rollback] *)
Definition undo_rollback (u : ProjectionEntryUndo) (m : Machine) : Machine :=
  let p := projection m in
  let rs := match undo_run u with
            | None => delete (undo_run_id u) (runs p)
            | Some ru => alter (run_rollback ru) (undo_run_id u) (runs p)
            end in
  let fs := match undo_fact u with
            | Some (key, Some value) => <[key := value]> (facts p)
            | Some (key, None) => delete key (facts p)
            | None => facts p
            end in
  set_authority (set_projection_root (undo_projection_root u) (authority m))
    (Machine.set_projection {| runs := rs; facts := fs |} m).
(** [rollback_projection_batch] *)
Definition rollback_projection_batch (m : Machine) (undos : list ProjectionEntryUndo) : Machine :=
  foldr undo_rollback m undos.

Section UndoBatch.
Context `{Sha256} `{Canonical} `{SchemaCompiler} `{!ValueSerialize}.

(** The undo records that [apply_command_event_batch] collects next to the
    machine it advances. *)
Definition undo_batch_event (st : (Machine * string * gset string) * list ProjectionEntryUndo)
    (ev : Event) : core ((Machine * string * gset string) * list ProjectionEntryUndo) :=
  u ← undo_capture st.1.1.1 ev;
  st' ← apply_batch_event st.1 ev;
  Ok (st', st.2 ++ [u]).
Definition undo_command_event_batch (m : Machine) (evs : list Event)
    : core (Machine * string * list ProjectionEntryUndo) :=
  st ← try_fold undo_batch_event ((m, projection_root (authority m), ∅), []) evs;
  Ok (st.1.1, st.2).
End UndoBatch.
