(* ===== verification/RunInv.v ===== *)
(** * The invariant of a Run projection

    [run_inv] collects what every reachable Run projection satisfies: a tree
    of scopes, effects owned by their scopes in a legal state, one obligation
    per committed mutating effect, at most one active attempt, a status that
    fits the rest, and a derived index equal to its specification.  The file
    proves that the building blocks of the reducer compute the specified index
    and keep the parts of the invariant that they touch. *)

From S2P Require Import Prelude KeyIndex Identity Ir Model Effects DerivedIndex IndexSpec Reducer.

Section Invariant.
Context `{Sha256} `{Canonical}.

(** ** The parts *)

Record scopes_wf (scs : gmap string ScopeProjection) : Prop := {
  sw_key : ∀ sid s, scs !! sid = Some s → scope_id s = sid;
  sw_intents : ∀ sid s, scs !! sid = Some s → intents s = list_to_set (intent_order s);
  sw_root : ∃ root, scs !! ROOT_SCOPE_ID = Some root ∧ parent_scope root = None
    ∧ scope_site_id root = None ∧ scope_invocation_path root = [] ∧ scope_region_path root = [];
  sw_child : ∀ sid s, scs !! sid = Some s → sid ≠ ROOT_SCOPE_ID →
    scope_site_id s ≠ None ∧ scope_region_path s ≠ []
    ∧ ∃ p ps, parent_scope s = Some p ∧ scs !! p = Some ps
       ∧ (scope_status s = Open → scope_status ps = Open);
  sw_tree : ∃ rank : string → nat, ∀ sid s p,
    scs !! sid = Some s → parent_scope s = Some p → rank p < rank sid;
}.

Record effect_wf (scs : gmap string ScopeProjection) (i : string) (e : EffectProjection) : Prop := {
  ew_id : validate_content_id i = Ok ();
  ew_args : validate_effect_args_reference (args e) = Ok ();
  ew_binding : ArtifactRef_validate (execution_binding e) = Ok ();
  ew_kind : artifact_kind (execution_binding e) = EXECUTION_BINDING_ARTIFACT_KIND;
  ew_legal : effect_state_legal e = true;
  ew_scope : ∀ s, scs !! effect_scope_id e = Some s →
    effect_scope_legal e (scope_status s) = true;
}.
Definition effects_wf (scs : gmap string ScopeProjection) (effs : gmap string EffectProjection)
    : Prop := ∀ i e, effs !! i = Some e → effect_wf scs i e.

(** The effect no longer needs its obligation. *)
Definition effect_done (e : EffectProjection) : bool :=
  bool_decide (phase e = CancelledBeforeRelease) || observed_terminally e.

(** One obligation per committed mutating effect; the resolution flag of the
    obligations of the intents in [D] is not constrained. *)
Record obligations_wf (D : gset string) (scs : gmap string ScopeProjection)
    (effs : gmap string EffectProjection) (obs : gmap string ObligationProjection) : Prop := {
  ow_obligation : ∀ oid o, obs !! oid = Some o →
    obligation_id o = oid ∧ blocking o = true
    ∧ effect_obligation_id (obligation_intent_id o) = Ok oid
    ∧ ∃ e, effs !! obligation_intent_id o = Some e ∧ is_mutating e = true
       ∧ committed_in scs e = true
       ∧ (obligation_intent_id o ∉ D → resolved o = effect_done e);
  ow_effect : ∀ i e, effs !! i = Some e → is_mutating e = true → committed_in scs e = true →
    ∃ oid o, effect_obligation_id i = Ok oid ∧ obs !! oid = Some o ∧ obligation_intent_id o = i;
}.

Record attempt_wf (ep : N) (aid : string) (a : AttemptProjection) : Prop := {
  aw_id : attempt_id a = aid;
  aw_content : validate_content_id aid = Ok ();
  aw_continuation : validate_content_id (continuation_id a) = Ok ();
  aw_occurrence : validate_content_id (occurrence_binding a) = Ok ();
  aw_epoch : (continuation_epoch a ≤ ep)%N;
  aw_current : active a = true → continuation_epoch a = ep;
  aw_number : (continuation_epoch a ≤ MAX_EXACT_INTEGER)%N;
  aw_fence : execution_fence a ≠ 0%N ∧ (execution_fence a ≤ MAX_EXACT_INTEGER)%N;
}.
Record attempts_wf (ep : N) (atts : gmap string AttemptProjection) : Prop := {
  aw_each : ∀ aid a, atts !! aid = Some a → attempt_wf ep aid a;
  aw_one : ∀ aid bid a b, atts !! aid = Some a → atts !! bid = Some b →
    active a = true → active b = true → aid = bid;
}.

Record lineage_wf (r : RunProjection) : Prop := {
  lw_plan_head : head (plan_lineage r) = Some (initial_plan r);
  lw_plan_last : last (plan_lineage r) = Some (current_plan r);
  lw_binding_head : head (binding_lineage r) = Some (initial_binding_context r);
  lw_binding_last : last (binding_lineage r) = Some (current_binding_context r);
  lw_event : last_event r ≠ EmptyString;
  lw_epoch : (epoch r ≤ MAX_EXACT_INTEGER)%N;
  lw_result : ∀ a, run_result r = Some a → ArtifactRef_validate a = Ok ();
}.

Record bounds_wf (scs : gmap string ScopeProjection) (effs : gmap string EffectProjection)
    : Prop := {
  bw_children : ∀ p, (card (group open_parent scs p) ≤ u64_max)%N;
  bw_scope : ∀ sid, (card (group in_scope effs sid) ≤ u64_max)%N;
  bw_committed : (card (having (committed_in scs) effs) ≤ MAX_EXACT_INTEGER)%N;
}.

(** Everything but the status and the settlement, with the obligations of
    the intents in [D] possibly out of date. *)
Record core_inv (D : gset string) (r : RunProjection) : Prop := {
  ci_lineage : lineage_wf r;
  ci_scopes : scopes_wf (scopes r);
  ci_linked : linked (scopes r) (effects r);
  ci_effects : effects_wf (scopes r) (effects r);
  ci_obligations : obligations_wf D (scopes r) (effects r) (obligations r);
  ci_attempts : attempts_wf (epoch r) (attempts r);
  ci_bounds : bounds_wf (scopes r) (effects r);
}.

Definition synced (r : RunProjection) : Prop := derived r = spec_index r.
Definition settled_ok (r : RunProjection) : Prop :=
  world_settlement r = settlement (spec_index r).
Definition no_active (r : RunProjection) : Prop := having active (attempts r) = ∅.
Definition no_open (r : RunProjection) : Prop := having scope_is_open (scopes r) = ∅.

(** What a failed or cancelled Run looks like. *)
Record terminal_wf (r : RunProjection) : Prop := {
  tw_epoch : epoch r ≠ 0%N;
  tw_result : run_result r = None;
  tw_active : no_active r;
  tw_open : no_open r;
  tw_attempts : ∀ aid a, attempts r !! aid = Some a → (continuation_epoch a < epoch r)%N;
  tw_effects : having needs_terminal_transition (effects r) = ∅;
}.
Definition status_wf (r : RunProjection) : Prop :=
  match execution_status r with
  | Active => run_result r = None
  | Completed => no_active r ∧ no_open r ∧ settlement (spec_index r) = Settled
  | Failed failure => RunFailure_verify failure = Ok () ∧ terminal_wf r
  | Cancelled reason => ArtifactRef_validate reason = Ok () ∧ terminal_wf r
  end.

(** The invariant of one Run stored under [rid]. *)
Record run_inv (rid : string) (r : RunProjection) : Prop := {
  ri_id : run_id r = rid;
  ri_core : core_inv ∅ r;
  ri_settled : settled_ok r;
  ri_status : status_wf r;
  ri_synced : initialized (derived r) = true → synced r;
}.
Definition projection_inv (p : Projection) : Prop :=
  ∀ rid r, runs p !! rid = Some r → run_inv rid r.

Lemma core_indexable D r : core_inv D r → indexable r.
Proof.
  intros [Hln Hsc Hlk Hef Hob Hat Hbd]. split.
  - done.
  - apply (sw_key _ Hsc).
  - apply (sw_intents _ Hsc).
  - intros aid a Ha. by apply (aw_id _ _ _ (aw_each _ _ Hat _ _ Ha)).
  - apply (aw_one _ _ Hat).
  - intros oid o Ho. by apply (ow_obligation _ _ _ _ Hob _ _ Ho).
  - apply (bw_children _ _ Hbd).
  - apply (bw_scope _ _ Hbd).
  - apply (bw_committed _ _ Hbd).
Qed.

(** The Run with its index recomputed. *)
Definition resync (r : RunProjection) : RunProjection := set_derived (spec_index r) r.

Lemma resync_synced r : synced (resync r).
Proof. done. Qed.
Lemma resync_id r : synced r → resync r = r.
Proof. unfold synced, resync. intros <-. by destruct r. Qed.

Lemma ensure_derived_spec D r :
  core_inv D r → (initialized (derived r) = true → synced r) → ensure_derived r = Ok (resync r).
Proof.
  intros Hr Hs. unfold ensure_derived. destruct (initialized (derived r)) eqn:Hi.
  - by rewrite resync_id by auto.
  - rewrite rebuild_spec by by eapply core_indexable. done.
Qed.

(** ** Replacing an effect *)
Lemma replace_effect_spec D r i e e' s :
  core_inv D r → synced r → effects r !! i = Some e → scopes r !! effect_scope_id e = Some s →
  intent_id e' = i → effect_scope_id e' = effect_scope_id e → profile e' = profile e →
  replace_effect r i e e' (scope_status s)
  = Ok (resync (set_effects (<[i := e']> (effects r)) r)).
Proof.
  intros Hr Hsy He Hs Hi Hsid Hp. pose proof (ci_linked _ _ Hr) as Hl.
  unfold replace_effect. rewrite Hsy.
  assert (Hx : (remove_effect_state e (scope_status s) (spec_index r)
      ≫= add_effect_state e' (scope_status s))
    = Ok (spec_index (set_effects (<[i := e']> (effects r)) r))).
  { rewrite reindex_effect; [|by eapply spec_effect_indexed| |done].
    - f_equal. symmetry. by eapply spec_put_effect.
    - by rewrite (linked_id _ _ Hl _ _ He). }
  destruct (remove_effect_state e (scope_status s) (spec_index r)) as [x|]; [|done].
  cbn [mbind result_bind] in *. rewrite Hx. done.
Qed.

Lemma linked_replace scs effs i e e' :
  linked scs effs → effs !! i = Some e → intent_id e' = i →
  effect_scope_id e' = effect_scope_id e → linked scs (<[i := e']> effs).
Proof.
  intros [Hid Hsc Hmem Hnd] He Hi Hsid. split; [| | |done].
  - intros j b. destruct (decide (j = i)) as [->|].
    + rewrite lookup_insert_eq. naive_solver.
    + rewrite lookup_insert_ne by done. apply Hid.
  - intros j b. destruct (decide (j = i)) as [->|].
    + rewrite lookup_insert_eq. intros [= <-]. rewrite Hsid. by apply Hsc.
    + rewrite lookup_insert_ne by done. apply Hsc.
  - intros sid s j Hs Hj. destruct (Hmem _ _ _ Hs Hj) as (b & Hb & Hbs).
    destruct (decide (j = i)) as [->|].
    + exists e'. rewrite lookup_insert_eq. naive_solver.
    + exists b. by rewrite lookup_insert_ne.
Qed.

Lemma obligations_replace D scs effs obs i e e' :
  obligations_wf D scs effs obs → effs !! i = Some e →
  effect_scope_id e' = effect_scope_id e → profile e' = profile e →
  obligations_wf ({[i]} ∪ D) scs (<[i := e']> effs) obs.
Proof.
  intros [Ho Hef] He Hsid Hp.
  assert (Hm : is_mutating e' = is_mutating e) by (unfold is_mutating; by rewrite Hp).
  assert (Hc : committed_in scs e' = committed_in scs e) by (unfold committed_in; by rewrite Hsid).
  split.
  - intros oid o Hoid. destruct (Ho _ _ Hoid) as (? & ? & ? & b & Hb & Hbm & Hbc & Hres).
    do 3 (split; [done|]). destruct (decide (obligation_intent_id o = i)) as [Heq|].
    + exists e'. rewrite Heq, lookup_insert_eq. rewrite Heq, He in Hb. injection Hb as <-.
      rewrite Hm, Hc. do 3 (split; [done|]). set_solver.
    + exists b. rewrite lookup_insert_ne by done. do 3 (split; [done|]). set_solver.
  - intros j b. destruct (decide (j = i)) as [->|].
    + rewrite lookup_insert_eq. intros [= <-]. rewrite Hm, Hc. by apply Hef.
    + rewrite lookup_insert_ne by done. apply Hef.
Qed.

Lemma bounds_replace scs effs i e e' :
  bounds_wf scs effs → effs !! i = Some e → effect_scope_id e' = effect_scope_id e →
  bounds_wf scs (<[i := e']> effs).
Proof.
  intros [Hch Hsc Hcm] He Hsid. split; [done| |].
  - intros sid. rewrite (group_insert_same _ _ _ _ e); [apply Hsc|done|].
    unfold in_scope. by rewrite Hsid.
  - rewrite (having_insert_same _ _ _ _ e); [done|done|]. unfold committed_in. by rewrite Hsid.
Qed.

(** The new version of an effect may differ only on the state axes, must be
    legal, and leaves its obligation to be updated. *)
Lemma core_replace D r i e e' :
  core_inv D r → effects r !! i = Some e → intent_id e' = i →
  effect_scope_id e' = effect_scope_id e → profile e' = profile e → args e' = args e →
  execution_binding e' = execution_binding e → effect_state_legal e' = true →
  (∀ s, scopes r !! effect_scope_id e = Some s → effect_scope_legal e' (scope_status s) = true) →
  core_inv ({[i]} ∪ D) (resync (set_effects (<[i := e']> (effects r)) r)).
Proof.
  intros [Hln Hsc Hlk Hef Hob Hat Hbd] He Hi Hsid Hp Ha Hb Hleg Hsl. split; cbn.
  - by destruct Hln; split.
  - done.
  - by eapply linked_replace.
  - intros j b. destruct (decide (j = i)) as [->|].
    + rewrite lookup_insert_eq. intros [= <-]. destruct (Hef _ _ He). split; rewrite ?Ha, ?Hb, ?Hsid; done.
    + rewrite lookup_insert_ne by done. apply Hef.
  - by eapply obligations_replace.
  - done.
  - by eapply bounds_replace.
Qed.

Definition same_effect (e e' : EffectProjection) : Prop :=
  intent_id e' = intent_id e ∧ effect_scope_id e' = effect_scope_id e ∧ profile e' = profile e
  ∧ args e' = args e ∧ execution_binding e' = execution_binding e.

(** A loop that replaces the effects of the list [l] by their images. *)
Lemma replace_loop D r (f : EffectProjection → EffectProjection)
    (g : RunProjection → string → core RunProjection) l :
  core_inv D r → synced r → NoDup l →
  (∀ i, i ∈ l → ∃ e s, effects r !! i = Some e ∧ scopes r !! effect_scope_id e = Some s
    ∧ same_effect e (f e) ∧ effect_state_legal (f e) = true
    ∧ effect_scope_legal (f e) (scope_status s) = true
    ∧ ∀ r1, scopes r1 = scopes r → effects r1 !! i = Some e →
        g r1 i = replace_effect r1 i e (f e) (scope_status s)) →
  try_fold g r l = Ok (resync (set_effects (adjust f l (effects r)) r))
  ∧ core_inv (list_to_set l ∪ D) (resync (set_effects (adjust f l (effects r)) r)).
Proof.
  revert D r. induction l as [|i l IH]; intros D r Hc Hsy Hnd Hl; cbn [try_fold].
  - rewrite adjust_nil.
    assert (resync (set_effects (effects r) r) = r) as ->.
    { transitivity (resync r); [by destruct r|by apply resync_id]. }
    split; [done|]. cbn. by rewrite union_empty_l_L.
  - destruct (Hl i) as (e & s & He & Hs & (Hi & Hsid & Hp & Ha & Hb) & Hleg & Hsl & Hg); [by left|].
    apply NoDup_cons in Hnd as [Hni Hnd].
    pose proof (linked_id _ _ (ci_linked _ _ Hc) _ _ He) as Hid. rewrite Hid in Hi.
    rewrite (Hg r), (replace_effect_spec D r i e (f e) s) by done. cbn [mbind result_bind].
    set (r1 := resync (set_effects (<[i := f e]> (effects r)) r)).
    assert (Hc1 : core_inv ({[i]} ∪ D) r1).
    { apply (core_replace _ _ _ e); try done. intros t Ht. congruence. }
    destruct (IH _ _ Hc1 eq_refl Hnd) as [Hrun Hc2].
    + intros j Hj. destruct (Hl j) as (e' & s' & He' & Hs' & Hframe & Hleg' & Hsl' & Hg'); [by right|].
      exists e', s'. split; [|done].
      cbn. rewrite lookup_insert_ne; [done|]. intros ->. done.
    + cbn [effects r1 resync set_derived set_effects] in Hrun, Hc2.
      rewrite Hrun. unfold r1 in Hc2 |- *. unfold resync in *. cbn in *.
      rewrite (adjust_cons _ _ _ _ e) in * by done. split; [done|].
      assert (list_to_set l ∪ ({[i]} ∪ D) = {[i]} ∪ list_to_set l ∪ D) as <- by set_solver.
      done.
Qed.

(** A replaced effect of a scope that is not committed has no obligation. *)
Lemma obligations_clean D D' scs effs obs :
  obligations_wf (D' ∪ D) scs effs obs →
  (∀ i e, i ∈ D' → effs !! i = Some e → committed_in scs e = false) →
  obligations_wf D scs effs obs.
Proof.
  intros [Ho He] Hc. split; [|done].
  intros oid o Hoid. destruct (Ho _ _ Hoid) as (? & ? & ? & b & Hb & Hbm & Hbc & Hres).
  do 3 (split; [done|]). exists b. do 3 (split; [done|]). intros Hni. apply Hres.
  apply not_elem_of_union. split; [|done]. intros Hin.
  rewrite (Hc _ _ Hin Hb) in Hbc. done.
Qed.

(** ** Updating the obligations of an intent *)
Definition resolve (i : string) (b : bool) (o : ObligationProjection) : ObligationProjection :=
  if decide (obligation_intent_id o = i) then set_resolved b o else o.

Lemma resolve_intent i b o : obligation_intent_id (resolve i b o) = obligation_intent_id o.
Proof. unfold resolve. by case_decide. Qed.

Lemma update_one_spec b r oid o :
  synced r → obligations r !! oid = Some o → blocking o = true →
  update_one_obligation b r oid
  = Ok (resync (set_obligations (<[oid := set_resolved b o]> (obligations r)) r)).
Proof.
  intros Hsy Ho Hbl. unfold update_one_obligation. rewrite Ho, Hbl, Hsy.
  assert (Hspec : spec_index (set_obligations (<[oid:=set_resolved b o]> (obligations r)) r)
    = set_unresolved_blocking_obligations
        (put_flag (negb b) oid (having unresolved_blocking (obligations r))) (spec_index r)).
  { unfold spec_index, set_unresolved_blocking_obligations. cbn. unfold spec_of.
    rewrite having_insert. unfold unresolved_blocking at 1. cbn. rewrite Hbl. cbn. f_equal.
    by apply group_by_insert_same with (b := o). }
  case_decide as Hb.
  - unfold resync. rewrite Hspec.
    assert (Hin : oid ∈ having unresolved_blocking (obligations r) ↔ resolved o = false).
    { rewrite elem_of_having. unfold unresolved_blocking. split.
      - intros (o' & Ho' & Hu). simplify_eq. rewrite Hbl in Hu. by destruct (resolved o).
      - intros Hres. exists o. by rewrite Hbl, Hres. }
    destruct b; cbn -[difference].
    + rewrite bool_decide_eq_true_2 by (apply Hin; by destruct (resolved o)). done.
    + rewrite bool_decide_eq_true_2; [|rewrite Hin; by destruct (resolved o)].
      cbn -[difference]. do 4 f_equal. set_solver.
  - unfold resync. rewrite Hspec.
    assert (set_resolved b o = o) as -> by (destruct o; cbn in *; by subst).
    rewrite insert_id by done.
    assert (put_flag (negb b) oid (having unresolved_blocking (obligations r))
      = having unresolved_blocking (obligations r)) as ->.
    { assert (negb b = unresolved_blocking o) as -> by (unfold unresolved_blocking; by rewrite Hbl, Hb).
      by apply put_flag_id. }
    change (Ok r = Ok (set_derived (spec_index r) (set_obligations (obligations r) r)) :> core _).
    rewrite <-Hsy. by destruct r.
Qed.

Lemma update_loop_spec b l r :
  synced r → (∀ oid, oid ∈ l → ∃ o, obligations r !! oid = Some o ∧ blocking o = true) →
  NoDup l →
  try_fold (update_one_obligation b) r l
  = Ok (resync (set_obligations (adjust (set_resolved b) l (obligations r)) r)).
Proof.
  revert r. induction l as [|oid l IH]; intros r Hsy Hl Hnd; cbn [try_fold].
  - rewrite adjust_nil. f_equal. transitivity (resync r); [by rewrite resync_id|]. by destruct r.
  - destruct (Hl oid) as (o & Ho & Hbl); [by left|].
    rewrite (update_one_spec _ _ _ o) by done. cbn [mbind result_bind].
    apply NoDup_cons in Hnd as [Hni Hnd].
    rewrite IH; [|done| |done].
    + f_equal. unfold resync. cbn. by rewrite (adjust_cons _ _ _ _ o).
    + intros k Hk. cbn. rewrite lookup_insert_ne by (intros ->; done).
      apply Hl. by right.
Qed.

Lemma update_obligation_spec D r i :
  core_inv D r → synced r →
  let b := match effects r !! i with Some e => effect_done e | None => false end in
  update_obligation r i
  = Ok (resync (set_obligations (resolve i b <$> obligations r) r)).
Proof.
  intros Hr Hsy b. unfold update_obligation. fold b. rewrite Hsy. cbn [spec_index spec_of obligation_by_intent].
  unfold entry_set. rewrite group_by_default.
  rewrite update_loop_spec; [|done| |apply btree_elements_NoDup].
  - do 3 f_equal. apply map_eq. intros k. rewrite lookup_adjust, lookup_fmap.
    destruct (obligations r !! k) as [o|] eqn:Hk; [|done]. cbn. f_equal. unfold resolve.
    assert (Hiff : k ∈ btree_elements (group of_intent (obligations r) i)
      ↔ obligation_intent_id o = i).
    { rewrite elem_of_btree_elements, elem_of_group. unfold of_intent. naive_solver. }
    case_decide; case_decide; tauto.
  - intros oid. rewrite elem_of_btree_elements, elem_of_group. intros (o & Ho & _).
    exists o. split; [done|]. by apply (ow_obligation _ _ _ _ (ci_obligations _ _ Hr) _ _ Ho).
Qed.

Lemma core_update_obligation D r i e :
  core_inv D r → effects r !! i = Some e →
  core_inv (D ∖ {[i]}) (resync (set_obligations (resolve i (effect_done e) <$> obligations r) r)).
Proof.
  intros [Hln Hsc Hlk Hef [Ho Hoe] Hat Hbd] He. split; cbn; try done.
  - by destruct Hln; split.
  - split.
    + intros oid o'. rewrite lookup_fmap. intros (o & Hoid & ->)%fmap_Some.
      destruct (Ho _ _ Hoid) as (? & ? & ? & b & Hb & Hbm & Hbc & Hres).
      rewrite resolve_intent. unfold resolve.
      case_decide as Hi; cbn; do 3 (split; [done|]); exists b; do 3 (split; [done|]); [|set_solver].
      intros _. rewrite Hi, He in Hb. by injection Hb as ->.
    + intros j b Hb Hm Hc. destruct (Hoe _ _ Hb Hm Hc) as (oid & o & Hid & Hoid & Hi).
      exists oid. eexists. split; [done|]. rewrite lookup_fmap, Hoid. split; [done|].
      by rewrite resolve_intent.
Qed.
End Invariant.
