(* ===== verification/RunSteps.v ===== *)
(** * Every reducer operation keeps the Run invariant

    One lemma per operation of the reducer: from a Run that satisfies the
    invariant and whose index is in step, a successful operation yields such a
    Run again. *)

From S2P Require Import Prelude KeyIndex Identity Ir Model Effects DerivedIndex IndexSpec Reducer.
From S2P Require Import RunInv.

Section Steps.
Context `{Sha256} `{Canonical}.

(** A Run ready for an operation: its index is in step. *)
Record ready (r : RunProjection) : Prop := {
  rd_core : core_inv ∅ r;
  rd_synced : synced r;
  rd_settled : settled_ok r;
}.

(** The fields that no operation below changes. *)
Definition same_status (r r' : RunProjection) : Prop :=
  run_id r' = run_id r ∧ execution_status r' = execution_status r
  ∧ run_result r' = run_result r ∧ last_event r' = last_event r.

Lemma no_active_spec r : no_active r ↔ active_attempt (spec_index r) = None.
Proof.
  cbn. split; [by intros ->|apply pick_None].
Qed.

(** ** Attempts and epochs *)

Lemma attempt_started_ready r aid cid occ cepoch fence r' :
  ready r → validate_content_id aid = Ok () → validate_content_id cid = Ok () →
  validate_content_id occ = Ok () →
  apply_attempt_started r aid cid occ cepoch fence = Ok r' → ready r' ∧ same_status r r'.
Proof.
  intros [Hc Hsy Hst] Haid Hcid Hocc Hok. unfold apply_attempt_started in Hok.
  inv_ok. to_prop. unfold verify_attempt_numbers in *.
  destruct ((MAX_EXACT_INTEGER <? cepoch)%N || (fence =? 0)%N || (MAX_EXACT_INTEGER <? fence)%N)
    eqn:Hnum; [done|]. inv_ok. to_prop.
  assert (Hno : having active (attempts r) = ∅).
  { apply (no_active_spec r). by rewrite <-Hsy. }
  split; [|done]. destruct Hc as [Hln Hsc Hlk Hef Hob [Hat _] Hbd]. split.
  - split; cbn; try done; [by destruct Hln; split|].
    assert (Hone : ∀ bid b, attempts r !! bid = Some b → active b = false).
    { intros bid b Hb. destruct (active b) eqn:Hact; [|done].
      assert (bid ∈ having active (attempts r)) as Hin by (apply elem_of_having; eauto).
      rewrite Hno in Hin. by apply elem_of_empty in Hin. }
    split.
    + intros bid b. destruct (decide (bid = aid)) as [->|].
      * rewrite lookup_insert_eq. intros [= <-]. split; cbn; try done; lia.
      * rewrite lookup_insert_ne by done. apply Hat.
    + intros b1 b2 a1 a2. destruct (decide (b1 = aid)) as [->|], (decide (b2 = aid)) as [->|];
        rewrite ?lookup_insert_eq, ?lookup_insert_ne by done; [done|..];
        intros Hb1 Hb2 Ha1 Ha2; try (by rewrite (Hone _ _ Hb1) in Ha1);
        by rewrite (Hone _ _ Hb2) in Ha2.
  - unfold synced. cbn. rewrite Hsy. unfold set_active_attempt, spec_index, spec_of. cbn.
    rewrite having_insert, Hno. cbn.
    assert ({[aid]} ∪ (∅ : gset string) ∖ {[aid]} = {[aid]}) as -> by set_solver.
    by rewrite pick_singleton.
  - done.
Qed.

(** Clearing the active attempt. *)
Definition deactivate (r : RunProjection) : RunProjection :=
  match active_attempt (derived r) with
  | Some aid =>
      let r := set_derived (set_active_attempt None (derived r)) r in
      match attempts r !! aid with
      | Some a => set_attempts (<[aid := set_active false a]> (attempts r)) r
      | None => r
      end
  | None => r
  end.

Lemma deactivate_inactive D r :
  core_inv D r → synced r → having active (attempts (deactivate r)) = ∅.
Proof.
  intros Hc Hsy. unfold deactivate. rewrite Hsy. cbn.
  pose proof (aw_one _ _ (ci_attempts _ _ Hc)) as Hone.
  destruct (pick (having active (attempts r))) as [aid|] eqn:Hp; [|by apply pick_None].
  apply pick_Some in Hp as (a & Ha & Hact)%elem_of_having. rewrite Ha. cbn.
  apply set_eq. intros bid. split; [|intros Hb; by apply elem_of_empty in Hb].
  intros (b & Hb & Hbact)%elem_of_having. destruct (decide (bid = aid)) as [->|].
  - rewrite lookup_insert_eq in Hb. injection Hb as <-. done.
  - rewrite lookup_insert_ne in Hb by done. by eelim n; eapply Hone.
Qed.

Lemma deactivate_eq D r :
  core_inv D r → synced r →
  deactivate r = resync (set_attempts (attempts (deactivate r)) r).
Proof.
  intros Hc Hsy. pose proof (deactivate_inactive _ _ Hc Hsy) as Hno.
  assert (spec_index (set_attempts (attempts (deactivate r)) r) = set_active_attempt None (spec_index r)) as Hspec.
  { unfold spec_index, spec_of, set_active_attempt. cbn. by rewrite Hno. }
  unfold resync. rewrite Hspec, <-Hsy. unfold deactivate.
  destruct (active_attempt (derived r)) as [aid|] eqn:Hact.
  - cbn. destruct (attempts r !! aid); by destruct r.
  - assert (set_active_attempt None (derived r) = derived r) as ->.
    { rewrite <-Hact. by destruct (derived r). }
    by destruct r.
Qed.

(** Attempts all inactive fit any later epoch. *)
Lemma deactivate_attempts D r ep :
  core_inv D r → synced r → (epoch r ≤ ep)%N → attempts_wf ep (attempts (deactivate r)).
Proof.
  intros Hc Hsy Hep. pose proof (deactivate_inactive _ _ Hc Hsy) as Hno.
  assert (Hone : ∀ bid b, attempts (deactivate r) !! bid = Some b → active b = false).
  { intros bid b Hb. destruct (active b) eqn:Hact; [|done].
    assert (bid ∈ having active (attempts (deactivate r))) as Hin by (apply elem_of_having; eauto).
    rewrite Hno in Hin. by apply elem_of_empty in Hin. }
  split.
  - intros bid b Hb. pose proof (Hone _ _ Hb) as Hact.
    assert (∃ b0, attempts r !! bid = Some b0 ∧ b = set_active (active b) b0) as (b0 & Hb0 & ->).
    { unfold deactivate in Hb. destruct (active_attempt (derived r)) as [aid|].
      - cbn in Hb. destruct (attempts r !! aid) as [a|] eqn:Ha; [|exists b; by destruct b].
        cbn in Hb. destruct (decide (bid = aid)) as [->|].
        + rewrite lookup_insert_eq in Hb. injection Hb as <-. by exists a.
        + rewrite lookup_insert_ne in Hb by done. exists b. by destruct b.
      - exists b. by destruct b. }
    destruct (aw_each _ _ (ci_attempts _ _ Hc) _ _ Hb0). cbn in Hact. rewrite Hact.
    split; cbn; done || lia.
  - intros b1 b2 a1 a2 Hb1 Hb2 Ha1. by rewrite (Hone _ _ Hb1) in Ha1.
Qed.

Lemma attempt_yielded_ready r aid cepoch fence r' :
  ready r → apply_attempt_yielded r aid cepoch fence = Ok r' → ready r' ∧ same_status r r'.
Proof.
  intros [Hc Hsy Hst] Hok. unfold apply_attempt_yielded in Hok. inv_ok. to_prop.
  match goal with Ha : attempts r !! aid = Some ?a |- _ => rename a into att; rename Ha into Hatt end.
  assert (Hact : active_attempt (derived r) = Some aid).
  { rewrite Hsy. cbn. assert (Hin : aid ∈ having active (attempts r)) by (apply elem_of_having; eauto).
    destruct (pick (having active (attempts r))) as [bid|] eqn:Hp.
    - apply pick_Some in Hp as (b & Hb & Hbact)%elem_of_having.
      f_equal. by eapply (aw_one _ _ (ci_attempts _ _ Hc)).
    - apply pick_None in Hp. rewrite Hp in Hin. by apply elem_of_empty in Hin. }
  assert (Hd : deactivate r = set_derived (set_active_attempt None (derived r))
      (set_attempts (<[aid:=set_active false att]> (attempts r)) r)).
  { unfold deactivate. rewrite Hact. cbn. by rewrite Hatt. }
  change (derived (set_attempts _ r)) with (derived r). rewrite <-Hd.
  split; [|by rewrite Hd]. pose proof (deactivate_eq _ _ Hc Hsy) as Heq. split.
  - pose proof (deactivate_attempts _ _ (epoch r) Hc Hsy ltac:(lia)) as Hat.
    rewrite Heq. destruct Hc as [Hln Hsc Hlk Hef Hob _ Hbd]. split; try done. by destruct Hln; split.
  - by rewrite Heq.
  - by rewrite Heq.
Qed.

Lemma next_epoch_Ok r e : next_epoch r = Ok e ↔ e = (epoch r + 1)%N ∧ (e ≤ MAX_EXACT_INTEGER)%N.
Proof. unfold next_epoch. by rewrite ok_or_Ok, checked_add_exact_Some. Qed.

Lemma epoch_advanced_eq r e r' :
  apply_epoch_advanced r e = Ok r' → r' = set_epoch e (deactivate r)
    ∧ e = (epoch r + 1)%N ∧ (e ≤ MAX_EXACT_INTEGER)%N.
Proof.
  unfold apply_epoch_advanced. intros Hok. inv_ok.
  match goal with Hn : next_epoch r = Ok _ |- _ => apply next_epoch_Ok in Hn as [-> Hmax] end.
  to_prop. subst e. split; [|done]. cbn in Hok. unfold deactivate.
  destruct (active_attempt (derived r)) as [aid|]; [|by inv_ok].
  cbn in Hok |- *. destruct (attempts r !! aid); by inv_ok.
Qed.

Lemma set_epoch_ready r e :
  ready r → (epoch r ≤ e)%N → (e ≤ MAX_EXACT_INTEGER)%N → ready (set_epoch e (deactivate r)).
Proof.
  intros [Hc Hsy Hst] He Hmax. pose proof (deactivate_eq _ _ Hc Hsy) as Heq.
  pose proof (deactivate_attempts _ _ e Hc Hsy He) as Hat. split.
  - rewrite Heq. destruct Hc as [Hln Hsc Hlk Hef Hob _ Hbd]. split; try done. by destruct Hln; split.
  - by rewrite Heq.
  - by rewrite Heq.
Qed.

Lemma same_status_deactivate r : same_status r (deactivate r).
Proof.
  unfold deactivate. destruct (active_attempt (derived r)) as [aid|]; [|done].
  cbn. by destruct (attempts r !! aid).
Qed.

Lemma epoch_advanced_ready r e r' :
  ready r → apply_epoch_advanced r e = Ok r' → ready r' ∧ same_status r r'.
Proof.
  intros Hr (-> & -> & Hmax)%epoch_advanced_eq. split.
  - apply set_epoch_ready; [done|lia|done].
  - apply same_status_deactivate.
Qed.

(** ** Bindings and migration *)

Lemma binding_updated_ready r prev cur r' :
  ready r → apply_binding_updated r prev cur = Ok r' → ready r' ∧ same_status r r'.
Proof.
  intros [Hc Hsy Hst] Hok. unfold apply_binding_updated in Hok. inv_ok. split; [|done].
  split; [|done|done]. destruct Hc as [Hln Hsc Hlk Hef Hob Hat Hbd]. split; try done.
  destruct Hln as [Hph Hpl Hbh Hbl ? ? ?]. split; cbn; try done.
  - by rewrite head_app, Hbh.
  - by rewrite last_snoc.
Qed.

Lemma run_migrated_ready r fp tp fb tb target r' :
  ready r → apply_run_migrated r fp tp fb tb target = Ok r' → ready r' ∧ same_status r r'.
Proof.
  intros [Hc Hsy Hst] Hok. unfold apply_run_migrated in Hok. inv_ok. to_prop.
  match goal with Hn : checked_add _ _ = Some _ |- _ => apply checked_add_Some in Hn as [-> _] end.
  match goal with Hn : active_attempt _ = None |- _ => rename Hn into Hna end.
  assert (Hno : having active (attempts r) = ∅).
  { apply (no_active_spec r). by rewrite <-Hsy. }
  split; [|done]. split; [|done|done]. destruct Hc as [Hln Hsc Hlk Hef Hob Hat Hbd].
  split; try done.
  - destruct Hln as [Hph Hpl Hbh Hbl ? ? ?]. split; cbn; try done.
    + by rewrite head_app, Hph.
    + by rewrite last_snoc.
    + by rewrite head_app, Hbh.
    + by rewrite last_snoc.
  - cbn. destruct Hat as [Hat Hone]. split; [|done]. intros aid a Ha.
    destruct (Hat _ _ Ha). split; try done; [lia|]. intros Hact.
    assert (aid ∈ having active (attempts r)) as Hin by (apply elem_of_having; eauto).
    rewrite Hno in Hin. by apply elem_of_empty in Hin.
Qed.

(** ** Opening a scope *)

Lemma scopes_wf_open scs sid p ps s :
  scopes_wf scs → scs !! sid = None → scs !! p = Some ps → scope_status ps = Open →
  scope_id s = sid → parent_scope s = Some p → scope_site_id s ≠ None →
  scope_region_path s ≠ [] → intents s = list_to_set (intent_order s) →
  scopes_wf (<[sid := s]> scs).
Proof.
  intros [Hkey Hint (root & Hroot & Hr) Hch (rank & Hrank)] Hsid Hp Hop Hid Hpar Hsite Hreg Hi.
  assert (Hparent : ∀ k t q, scs !! k = Some t → parent_scope t = Some q → q ≠ sid).
  { intros k t q Hk Hq ->. destruct (decide (k = ROOT_SCOPE_ID)) as [->|Hne].
    - rewrite Hroot in Hk. injection Hk as <-. destruct Hr as (Hr & _). congruence.
    - destruct (Hch _ _ Hk Hne) as (_ & _ & q & qs & Hq' & Hqs & _). congruence. }
  split.
  - intros k t. destruct (decide (k = sid)) as [->|]; [|by rewrite lookup_insert_ne; eauto].
    rewrite lookup_insert_eq. by intros [= <-].
  - intros k t. destruct (decide (k = sid)) as [->|]; [|by rewrite lookup_insert_ne; eauto].
    rewrite lookup_insert_eq. by intros [= <-].
  - exists root. rewrite lookup_insert_ne by (intros ->; congruence). done.
  - intros k t. destruct (decide (k = sid)) as [->|Hk].
    + rewrite lookup_insert_eq. intros [= <-] _. do 2 (split; [done|]). exists p, ps.
      rewrite lookup_insert_ne by (intros ->; congruence). done.
    + rewrite lookup_insert_ne by done. intros Ht Hne.
      destruct (Hch _ _ Ht Hne) as (? & ? & q & qs & Hq & Hqs & Hop').
      do 2 (split; [done|]). exists q, qs. rewrite lookup_insert_ne; [done|].
      intros Heq. by eapply Hparent; [exact Ht|exact Hq|].
  - exists (λ k, if decide (k = sid) then S (rank p) else rank k). intros k t q.
    destruct (decide (k = sid)) as [->|Hk].
    + rewrite lookup_insert_eq. intros [= <-]. rewrite Hpar. intros [= <-].
      rewrite decide_False by (intros ->; congruence). lia.
    + rewrite lookup_insert_ne by done. intros Ht Hq.
      rewrite (decide_False (P := q = sid)) by (by eapply Hparent). by eapply Hrank.
Qed.

Lemma linked_open scs effs sid s :
  linked scs effs → scs !! sid = None → intent_order s = [] → linked (<[sid := s]> scs) effs.
Proof.
  intros [Hid Hsc Hmem Hnd] Hsid Hnil. split; [done| | |].
  - intros i e He. destruct (Hsc _ _ He) as (t & Ht & Hi). exists t.
    rewrite lookup_insert_ne; [done|]. congruence.
  - intros k t i. destruct (decide (k = sid)) as [->|]; [|by rewrite lookup_insert_ne; eauto].
    rewrite lookup_insert_eq. intros [= <-]. rewrite Hnil. by intros ?%elem_of_nil.
  - intros k t. destruct (decide (k = sid)) as [->|]; [|by rewrite lookup_insert_ne; eauto].
    rewrite lookup_insert_eq. intros [= <-]. rewrite Hnil. constructor.
Qed.

(** The owner of an effect is not the fresh scope. *)
Lemma fresh_not_owner scs effs sid i e :
  linked scs effs → scs !! sid = None → effs !! i = Some e → effect_scope_id e ≠ sid.
Proof. intros Hl Hsid He <-. destruct (linked_scope _ _ Hl _ _ He) as (s & ? & _). congruence. Qed.

Lemma obligations_wf_scopes D scs scs' effs obs :
  obligations_wf D scs effs obs →
  (∀ i e, effs !! i = Some e → committed_in scs' e = committed_in scs e) →
  obligations_wf D scs' effs obs.
Proof.
  intros [Ho He] Hsame. split.
  - intros oid o Hoid. destruct (Ho _ _ Hoid) as (? & ? & ? & e & Hef & Hm & Hc & Hres).
    do 3 (split; [done|]). exists e. rewrite (Hsame _ _ Hef). done.
  - intros i e Hef Hm Hc. rewrite (Hsame _ _ Hef) in Hc. by eapply He.
Qed.

Lemma index_opened_eq r sid s r' :
  core_inv ∅ r → synced r → scopes r !! sid = None → intent_order s = [] →
  scope_status s = Open →
  index_opened_scope (set_scopes (<[sid := s]> (scopes r)) r) sid = Ok r' →
  r' = resync (set_scopes (<[sid := s]> (scopes r)) r)
  ∧ ∀ p, parent_scope s = Some p →
    (card (group open_parent (scopes r) p) + 1 ≤ MAX_EXACT_INTEGER)%N.
Proof.
  intros Hc Hsy Hsid Hnil Hop Hok. unfold index_opened_scope in Hok.
  cbn [set_scopes scopes derived] in Hok. rewrite lookup_insert_eq in Hok. cbn in Hok.
  rewrite Hsy in Hok. inv_ok.
  assert (Hspec : spec_index (set_scopes (<[sid := s]> (scopes r)) r)
    = opened sid (parent_scope s) (spec_index r)).
  { unfold spec_index. cbn. rewrite spec_fresh_scope; [|done|done|].
    - unfold scope_is_open. by rewrite bool_decide_eq_true_2.
    - intros i e He. by eapply fresh_not_owner; [apply Hc|..]. }
  unfold resync. rewrite Hspec. unfold opened. destruct (parent_scope s) as [p|].
  - inv_ok. match goal with Hn : checked_add_exact _ _ = Some _ |- _ =>
      apply checked_add_exact_Some in Hn as [-> Hmax] end.
    split; [done|]. intros q [= <-]. cbn in Hmax. by rewrite entry_count_group in Hmax.
  - inv_ok. by split.
Qed.

Lemma children_bound scs sid s :
  scs !! sid = None → (∀ p, (card (group open_parent scs p) ≤ u64_max)%N) →
  (∀ p, parent_scope s = Some p →
    (card (group open_parent scs p) + 1 ≤ MAX_EXACT_INTEGER)%N) →
  ∀ p, (card (group open_parent (<[sid := s]> scs) p) ≤ u64_max)%N.
Proof.
  intros Hsid Hall Hb p. rewrite group_insert.
  rewrite put_flag_absent by by apply having_notin.
  case_bool_decide as Hp; [|apply Hall].
  rewrite card_insert by by apply having_notin.
  unfold open_parent in Hp. destruct (scope_is_open s); [|done].
  specialize (Hb _ Hp). unfold MAX_EXACT_INTEGER in Hb. unfold u64_max. lia.
Qed.

Definition opened_scope (sid parent iid : string) (path : list InvocationPathSegment)
    (did : string) (rpath : list nat) (site : string) : ScopeProjection :=
  {| scope_id := sid; parent_scope := Some parent; scope_invocation_id := iid;
     scope_invocation_path := path; scope_definition_id := did;
     scope_region_path := rpath; scope_site_id := Some site; scope_status := Open;
     intents := ∅; intent_order := [] |}.

Lemma scope_opened_eq r sid parent iid path did rpath site r' :
  ready r → apply_scope_opened r sid parent iid path did rpath site = Ok r' →
  let s := opened_scope sid parent iid path did rpath site in
  scopes r !! sid = None
  ∧ (∃ ps, scopes r !! parent = Some ps ∧ scope_status ps = Open)
  ∧ r' = resync (set_scopes (<[sid := s]> (scopes r)) r)
  ∧ (card (group open_parent (scopes r) parent) + 1 ≤ MAX_EXACT_INTEGER)%N.
Proof.
  intros [Hc Hsy Hst] Hok s. unfold apply_scope_opened in Hok. inv_ok. to_prop. fold s in Hok.
  destruct (index_opened_eq _ _ s _ Hc Hsy ltac:(done) eq_refl eq_refl Hok) as [-> Hb].
  repeat split; eauto.
Qed.

Lemma scope_opened_ready r sid parent iid path did rpath site r' :
  ready r → rpath ≠ [] →
  apply_scope_opened r sid parent iid path did rpath site = Ok r' → ready r' ∧ same_status r r'.
Proof.
  intros Hr Hreg Hok.
  destruct (scope_opened_eq _ _ _ _ _ _ _ _ _ Hr Hok) as (Hfresh & (ps & Hps & Hop) & -> & Hcard).
  destruct Hr as [Hc Hsy Hst]. set (s := opened_scope _ _ _ _ _ _ _).
  assert (Hb : ∀ p, parent_scope s = Some p →
    (card (group open_parent (scopes r) p) + 1 ≤ MAX_EXACT_INTEGER)%N) by (by intros p [= <-]).
  split; [|done]. split; [|done|].
  - destruct Hc as [Hln Hsc Hlk Hef Hob Hat Hbd]. split; cbn; try done.
    + by destruct Hln; split.
    + by eapply scopes_wf_open.
    + by apply linked_open.
    + intros i e He. destruct (Hef _ _ He). split; try done. intros t Ht.
      rewrite lookup_insert_ne in Ht; [auto|]. apply not_eq_sym. by eapply fresh_not_owner.
    + eapply obligations_wf_scopes; [done|]. intros i e He. unfold committed_in.
      rewrite lookup_insert_ne; [done|]. apply not_eq_sym. by eapply fresh_not_owner.
    + destruct Hbd as [Hch Hco Hcm]. split; [by apply children_bound|done|].
      replace (having (committed_in (<[sid:=s]> (scopes r))) (effects r))
        with (having (committed_in (scopes r)) (effects r)); [done|].
      apply having_ext. intros k. unfold committed_in. split; intros (e & He & Hv); exists e;
        (split; [done|]); rewrite lookup_insert_ne in *; try done; apply not_eq_sym; by eapply fresh_not_owner.
  - unfold settled_ok in *. cbn. done.
Qed.

(** ** Proposing an effect *)

Lemma register_effect_bound e status x y :
  register_effect e status x = Ok y →
  (entry_count (effect_scope_id e) (effect_count_by_scope x) + 1 ≤ u64_max)%N.
Proof.
  unfold register_effect. intros Hok. inv_ok.
  match goal with Hn : checked_add _ _ = Some _ |- _ => by apply checked_add_Some in Hn as [-> ?] end.
Qed.

Lemma effect_intent_id_Ok rid pid inv site sid occ a schema i :
  effect_intent_id rid pid inv site sid occ a schema = Ok i →
  validate_effect_args_reference a = Ok () ∧ validate_content_id i = Ok ().
Proof.
  unfold effect_intent_id. intros Hok. inv_ok. split; [done|]. by eapply content_id_is_valid.
Qed.

Lemma scopes_wf_intent scs sid s i :
  scopes_wf scs → scs !! sid = Some s → scopes_wf (<[sid := add_scope_intent i s]> scs).
Proof.
  intros [Hkey Hint (root & Hroot & Hr) Hch (rank & Hrank)] Hs.
  assert (Hlk : ∀ k t, <[sid := add_scope_intent i s]> scs !! k = Some t →
    ∃ t0, scs !! k = Some t0 ∧ scope_id t = scope_id t0 ∧ parent_scope t = parent_scope t0
      ∧ scope_site_id t = scope_site_id t0 ∧ scope_region_path t = scope_region_path t0
      ∧ scope_invocation_path t = scope_invocation_path t0
      ∧ scope_status t = scope_status t0).
  { intros k t. destruct (decide (k = sid)) as [->|].
    - rewrite lookup_insert_eq. intros [= <-]. by exists s.
    - rewrite lookup_insert_ne by done. intros. by exists t. }
  assert (Hst : ∀ k t0, scs !! k = Some t0 →
    ∃ t, <[sid := add_scope_intent i s]> scs !! k = Some t ∧ scope_status t = scope_status t0).
  { intros k t0 Hk. destruct (decide (k = sid)) as [->|].
    - rewrite lookup_insert_eq. eexists. split; [done|]. cbn. congruence.
    - rewrite lookup_insert_ne by done. eauto. }
  split.
  - intros k t (t0 & Ht0 & -> & _)%Hlk. eauto.
  - intros k t. destruct (decide (k = sid)) as [->|]; [|by rewrite lookup_insert_ne; eauto].
    rewrite lookup_insert_eq. intros [= <-]. cbn. by rewrite list_to_set_snoc_L, (Hint _ _ Hs).
  - destruct (decide (sid = ROOT_SCOPE_ID)) as [->|].
    + eexists. rewrite lookup_insert_eq. split; [done|].
      assert (s = root) as -> by congruence. done.
    + exists root. by rewrite lookup_insert_ne.
  - intros k t (t0 & Ht0 & _ & -> & -> & -> & _ & ->)%Hlk Hne.
    destruct (Hch _ _ Ht0 Hne) as (? & ? & p & ps & ? & Hps & Hop).
    destruct (Hst _ _ Hps) as (ps' & ? & Heq). do 2 (split; [done|]). exists p, ps'.
    by rewrite Heq.
  - exists rank. intros k t p (t0 & Ht0 & _ & -> & _)%Hlk. by apply Hrank.
Qed.

Lemma linked_register scs effs i e s :
  linked scs effs → effs !! i = None → scs !! effect_scope_id e = Some s → intent_id e = i →
  linked (<[effect_scope_id e := add_scope_intent i s]> scs) (<[i := e]> effs).
Proof.
  intros Hl Hn Hs Hi. pose proof (linked_fresh _ _ _ _ _ Hl Hn Hs) as Hf.
  destruct Hl as [Hid Hsc Hmem Hnd]. split.
  - intros j b. destruct (decide (j = i)) as [->|]; [|by rewrite lookup_insert_ne; eauto].
    rewrite lookup_insert_eq. by intros [= <-].
  - intros j b. destruct (decide (j = i)) as [->|].
    + rewrite lookup_insert_eq. intros [= <-]. eexists. rewrite lookup_insert_eq.
      split; [done|]. cbn. set_solver.
    + rewrite lookup_insert_ne by done. intros Hb. destruct (Hsc _ _ Hb) as (t & Ht & Hj).
      destruct (decide (effect_scope_id b = effect_scope_id e)) as [Heq|].
      * eexists. rewrite Heq, lookup_insert_eq. split; [done|]. cbn.
        assert (t = s) as -> by congruence. apply elem_of_app. by left.
      * exists t. by rewrite lookup_insert_ne.
  - intros k t j. destruct (decide (k = effect_scope_id e)) as [->|].
    + rewrite lookup_insert_eq. intros [= <-]. cbn.
      intros [Hj|Hj%list_elem_of_singleton]%elem_of_app; [|subst j].
      * destruct (Hmem _ _ _ Hs Hj) as (b & Hb & ?). exists b.
        rewrite lookup_insert_ne; [done|]. intros <-. done.
      * exists e. by rewrite lookup_insert_eq.
    + rewrite lookup_insert_ne by done. intros Ht Hj. destruct (Hmem _ _ _ Ht Hj) as (b & Hb & ?).
      exists b. rewrite lookup_insert_ne; [done|]. congruence.
  - intros k t. destruct (decide (k = effect_scope_id e)) as [->|]; [|by rewrite lookup_insert_ne; eauto].
    rewrite lookup_insert_eq. intros [= <-]. cbn. apply NoDup_app. split; [by eapply Hnd|].
    split; [|apply NoDup_singleton]. intros j Hj Hk%list_elem_of_singleton. by subst j.
Qed.

Lemma committed_in_status scs sid s s' e :
  scs !! sid = Some s → scope_status s' = scope_status s →
  committed_in (<[sid := s']> scs) e = committed_in scs e.
Proof.
  intros Hs Hst. unfold committed_in. destruct (decide (effect_scope_id e = sid)) as [->|].
  - by rewrite lookup_insert_eq, Hs, Hst.
  - by rewrite lookup_insert_ne.
Qed.

Lemma obligations_wf_add D scs effs obs i e :
  obligations_wf D scs effs obs → effs !! i = None → committed_in scs e = false →
  obligations_wf D scs (<[i := e]> effs) obs.
Proof.
  intros [Ho He] Hn Hc. split.
  - intros oid o Hoid. destruct (Ho _ _ Hoid) as (? & ? & ? & b & Hb & Hm & Hcm & Hres).
    do 3 (split; [done|]). exists b. rewrite lookup_insert_ne; [done|]. congruence.
  - intros j b. destruct (decide (j = i)) as [->|]; [|by rewrite lookup_insert_ne; eauto].
    rewrite lookup_insert_eq. intros [= <-]. congruence.
Qed.

Lemma settlement_update r : settled_ok (update_world_settlement (resync r)).
Proof. done. Qed.

Lemma core_settlement D r : core_inv D r → core_inv D (update_world_settlement r).
Proof. intros [Hln ? ? ? ? ? ?]. split; try done. by destruct Hln; split. Qed.

(** The initial state of a proposed effect is legal in an open scope. *)
Lemma proposed_legal e :
  execution_availability e = Available → phase e = Admitted_ → outcome e = Unobserved →
  reconciliation e = NotRequired →
  (dispatch (profile e) = Eager → mutation (profile e) = Observational) →
  effect_state_legal e = true ∧ effect_scope_legal e Open = true.
Proof.
  intros Ha Hp Ho Hr Hpr. unfold effect_state_legal, effect_scope_legal. rewrite Ha, Hp, Ho, Hr.
  split; [done|]. destruct (dispatch (profile e)) eqn:Hd; try done. by rewrite Hpr.
Qed.

Lemma core_register r i e s :
  core_inv ∅ r → synced r → effects r !! i = None → scopes r !! effect_scope_id e = Some s →
  scope_status s = Open → effect_wf (scopes r) i e → intent_id e = i →
  (card (group in_scope (effects r) (effect_scope_id e)) + 1 ≤ u64_max)%N →
  core_inv ∅ (resync (set_effects (<[i := e]> (effects r))
    (set_scopes (<[effect_scope_id e := add_scope_intent i s]> (scopes r)) r))).
Proof.
  intros [Hln Hsc Hlk Hef Hob Hat Hbd] Hsy Hn Hs Hop [Hwf1 Hwf2 Hwf3 Hwf4 Hwf5 Hwf6] Hi Hcard.
  set (scs' := <[effect_scope_id e := add_scope_intent i s]> (scopes r)).
  assert (Hcs : ∀ b, committed_in scs' b = committed_in (scopes r) b).
  { intros b. by apply committed_in_status with (s := s). }
  assert (Hce : committed_in (scopes r) e = false).
  { unfold committed_in. by rewrite Hs, Hop. }
  assert (Hlegal : ∀ b, (∀ t, scopes r !! effect_scope_id b = Some t →
      effect_scope_legal b (scope_status t) = true) →
    ∀ t, scs' !! effect_scope_id b = Some t → effect_scope_legal b (scope_status t) = true).
  { intros b Hb t. unfold scs'. destruct (decide (effect_scope_id b = effect_scope_id e)) as [Heq|].
    - rewrite Heq, lookup_insert_eq. intros [= <-]. cbn. apply Hb. by rewrite Heq.
    - rewrite lookup_insert_ne by done. apply Hb. }
  split; cbn; try done.
  - by destruct Hln; split.
  - by apply scopes_wf_intent.
  - by apply linked_register.
  - intros j b. destruct (decide (j = i)) as [->|].
    + rewrite lookup_insert_eq. intros [= <-]. split; auto.
    + rewrite lookup_insert_ne by done. intros Hb. destruct (Hef _ _ Hb). split; auto.
  - apply obligations_wf_add; [|done|by rewrite Hcs].
    eapply obligations_wf_scopes; [done|]. intros. apply Hcs.
  - destruct Hbd as [Hch Hco Hcm]. split.
    + intros p. unfold scs'. rewrite (group_insert_same _ _ _ _ s); [apply Hch|done|done].
    + intros sid. rewrite group_insert, put_flag_absent by by apply having_notin.
      case_bool_decide as Heq; [|apply Hco].
      rewrite card_insert by by apply having_notin. unfold in_scope in Heq. by injection Heq as <-.
    + rewrite having_insert, Hcs, Hce, put_flag_absent by by apply having_notin.
      unfold scs'. by rewrite (having_committed_scope _ _ _ s).
Qed.

Definition proposed_effect (iid origin sid inv : string) (path : list InvocationPathSegment)
    (did : string) (rpath : list nat) (site occ schema op : string) (prof : EffectProfile)
    (arguments binding : ArtifactRef) (occ_binding : string) : EffectProjection :=
  {| intent_id := iid; origin_plan_id := origin; effect_scope_id := sid;
     effect_invocation_id := inv; effect_invocation_path := path;
     effect_definition_id := did; effect_region_path := rpath;
     effect_site_id := site; effect_occurrence := occ;
     effect_schema_version := schema; effect_operation := op; profile := prof;
     args := arguments; execution_binding := binding;
     effect_occurrence_binding := occ_binding;
     execution_availability := Available; phase := Admitted_;
     outcome := Unobserved; reconciliation := NotRequired |}.
Definition proposed (r : RunProjection) (i : string) (e : EffectProjection)
    (s : ScopeProjection) : RunProjection :=
  update_world_settlement (resync
    (set_effects (<[i := e]> (effects r))
      (set_scopes (<[effect_scope_id e := add_scope_intent i s]> (scopes r)) r))).

Lemma effect_proposed_eq r rid iid origin sid inv path did rpath site occ schema op prof
    arguments binding occ_binding r' :
  ready r →
  apply_effect_proposed r rid iid origin sid inv path did rpath site occ schema op prof
    arguments binding occ_binding = Ok r' →
  let e := proposed_effect iid origin sid inv path did rpath site occ schema op prof
             arguments binding occ_binding in
  ∃ s, scopes r !! sid = Some s ∧ scope_status s = Open ∧ effects r !! iid = None
    ∧ validate_content_id iid = Ok () ∧ validate_effect_args_reference arguments = Ok ()
    ∧ artifact_kind binding = EXECUTION_BINDING_ARTIFACT_KIND
    ∧ (card (group in_scope (effects r) sid) + 1 ≤ u64_max)%N
    ∧ r' = proposed r iid e s.
Proof.
  intros [Hc Hsy Hst] Hok e. unfold apply_effect_proposed in Hok. inv_ok.
  unfold validate_effect_proposal_header in *. inv_ok. to_prop.
  match goal with Hi : effect_intent_id _ _ _ _ _ _ _ _ = Ok _ |- _ =>
    apply effect_intent_id_Ok in Hi as [Hargs Hid] end.
  match goal with Hr : register_effect ?t Open _ = Ok ?y |- _ =>
    change t with e in *; rename y into x; rename Hr into Hreg end.
  match goal with Hs : scopes r !! sid = Some ?t |- _ => rename t into s; rename Hs into Hscope end.
  cbn [derived set_scopes] in Hreg.
  match goal with Hq : iid = _ |- _ => rewrite <-Hq in Hid end.
  pose proof (register_effect_bound _ _ _ _ Hreg) as Hcard. rewrite Hsy in Hcard, Hreg.
  cbn in Hcard. rewrite entry_count_group in Hcard.
  assert (Hx : register_effect e (scope_status s) (spec_index r)
    = Ok (spec_of (<[sid := add_scope_intent iid s]> (scopes r)) (<[iid := e]> (effects r))
            (obligations r) (attempts r))).
  { unfold spec_index. apply register_effect_spec; try done; [apply Hc|congruence]. }
  match goal with Hs : scope_status s = Open |- _ => rewrite Hs, Hreg in Hx; injection Hx as -> end.
  exists s. by repeat split.
Qed.

Lemma effect_proposed_ready r rid iid origin sid inv path did rpath site occ schema op prof
    arguments binding occ_binding r' :
  ready r → ArtifactRef_validate binding = Ok () →
  (dispatch prof = Eager → mutation prof = Observational) →
  apply_effect_proposed r rid iid origin sid inv path did rpath site occ schema op prof
    arguments binding occ_binding = Ok r' →
  ready r' ∧ same_status r r'.
Proof.
  intros Hr Hbind Hpr Hok.
  destruct (effect_proposed_eq _ _ _ _ _ _ _ _ _ _ _ _ _ _ _ _ _ _ Hr Hok)
    as (s & Hscope & Hopen & Hfresh & Hid & Hargs & Hkind & Hcard & ->).
  destruct Hr as [Hc Hsy Hst]. set (e := proposed_effect _ _ _ _ _ _ _ _ _ _ _ _ _ _ _).
  split; [|done]. split; [|done|done]. apply core_settlement.
  apply (core_register r iid e s); try done.
  destruct (proposed_legal e) as [Hl1 Hl2]; try done.
  split; try done. cbn. intros t Ht. rewrite Hscope in Ht. injection Ht as <-. congruence.
Qed.

(** ** Effect transitions *)

(** A transition replaces the effect and resolves its obligations. *)
Definition transitioned (r : RunProjection) (i : string) (e' : EffectProjection)
    : RunProjection :=
  update_world_settlement (resync
    (set_obligations (resolve i (effect_done e') <$> obligations r)
      (set_effects (<[i := e']> (effects r)) r))).

Lemma replace_and_update D r i e e' s :
  core_inv D r → synced r → effects r !! i = Some e → scopes r !! effect_scope_id e = Some s →
  intent_id e' = i → effect_scope_id e' = effect_scope_id e → profile e' = profile e →
  args e' = args e → execution_binding e' = execution_binding e → effect_state_legal e' = true →
  effect_scope_legal e' (scope_status s) = true →
  (run ← replace_effect r i e e' (scope_status s); update_obligation run i)
  = Ok (resync (set_obligations (resolve i (effect_done e') <$> obligations r)
      (set_effects (<[i := e']> (effects r)) r)))
  ∧ core_inv (D ∖ {[i]}) (resync (set_obligations (resolve i (effect_done e') <$> obligations r)
      (set_effects (<[i := e']> (effects r)) r))).
Proof.
  intros Hc Hsy He Hs Hi Hsid Hp Ha Hb Hleg Hsl.
  rewrite (replace_effect_spec D r i e e' s) by done. cbn [mbind result_bind].
  set (r1 := resync (set_effects (<[i := e']> (effects r)) r)).
  assert (Hc1 : core_inv ({[i]} ∪ D) r1).
  { apply (core_replace _ _ _ e); try done. congruence. }
  assert (He1 : effects r1 !! i = Some e') by apply lookup_insert_eq.
  rewrite (update_obligation_spec _ _ _ Hc1) by done. rewrite He1. split; [done|].
  pose proof (core_update_obligation _ _ _ _ Hc1 He1) as Hc2.
  assert (({[i]} ∪ D) ∖ {[i]} = D ∖ {[i]}) as Heq by set_solver.
  by rewrite Heq in Hc2.
Qed.

Lemma effect_transitioned_eq r i t r' :
  ready r → apply_effect_transitioned r i t = Ok r' →
  ∃ e s e', effects r !! i = Some e ∧ scopes r !! effect_scope_id e = Some s
    ∧ apply_effect_transition e (scope_status s) t = Ok e' ∧ r' = transitioned r i e' ∧ ready r'.
Proof.
  intros [Hc Hsy Hst] Hok. unfold apply_effect_transitioned in Hok. inv_ok.
  match goal with He : effects r !! i = Some ?t |- _ => rename t into e; rename He into Hef end.
  match goal with Hs : scopes r !! _ = Some ?t |- _ => rename t into s; rename Hs into Hscope end.
  match goal with Ht : apply_effect_transition _ _ _ = Ok ?t |- _ =>
    rename t into e'; rename Ht into Htr end.
  exists e, s, e'. do 3 (split; [done|]).
  destruct (transition_frame _ _ _ _ Htr) as (Hi & Hsid & Hp & Ha & Hb & _).
  pose proof (ci_effects _ _ Hc _ _ Hef) as Hwf.
  destruct (replace_and_update ∅ r i e e' s) as [Heq Hc2]; try done.
  - rewrite Hi. by apply (linked_id _ _ (ci_linked _ _ Hc)).
  - eapply transition_legal; [apply Hwf|done].
  - eapply transition_scope_legal; [by apply (ew_scope _ _ _ Hwf)|apply Hwf|done].
  - match goal with Hr : replace_effect _ _ _ _ _ = Ok _, Hu : update_obligation _ _ = Ok _ |- _ =>
      rewrite Hr in Heq; cbn [mbind result_bind] in Heq; rewrite Hu in Heq; injection Heq as -> end.
    split; [done|]. split; [|done|done]. apply core_settlement.
    assert ((∅ : gset string) ∖ {[i]} = ∅) as Hempty by set_solver. by rewrite Hempty in Hc2.
Qed.

Lemma effect_transitioned_ready r i t r' :
  ready r → apply_effect_transitioned r i t = Ok r' → ready r' ∧ same_status r r'.
Proof. intros Hr Hok. destruct (effect_transitioned_eq _ _ _ _ Hr Hok) as (e & s & e' & _ & _ & _ & -> & ?). done. Qed.

Lemma reconcile_terminal e s res e' :
  apply_effect_transition e s (Reconcile res) = Ok e' →
  needs_terminal_transition e = false → needs_terminal_transition e' = false.
Proof.
  cbn. intros Hok Hn. inv_ok. unfold reconcile_allowed in *. to_prop.
  unfold needs_terminal_transition in *.
  destruct e as [? ? ? ? ? ? ? ? ? ? ? ? ? ? ? av ph oc rc]. cbn in *.
  destruct ph, res; done || (destruct oc; done).
Qed.

Lemma reconciled_terminal r i res r' :
  ready r → terminal_wf r → apply_effect_transitioned r i (Reconcile res) = Ok r' →
  terminal_wf r'.
Proof.
  intros Hr [He Hres Hact Hop Hat Hef] Hok.
  destruct (effect_transitioned_eq _ _ _ _ Hr Hok) as (e & s & e' & Hi & _ & Ht & -> & _).
  split; try done. cbn. rewrite having_insert.
  assert (Hn : needs_terminal_transition e = false).
  { destruct (needs_terminal_transition e) eqn:Hn; [|done].
    assert (Hin : i ∈ having needs_terminal_transition (effects r)) by (apply elem_of_having; eauto).
    rewrite Hef in Hin. by apply elem_of_empty in Hin. }
  rewrite (reconcile_terminal _ _ _ _ Ht Hn), Hef. set_solver.
Qed.

(** ** Closing a scope *)

Lemma open_scope_close_index_Ok r sid x :
  synced r → open_scope_close_index r sid = Ok x →
  ∃ s, scopes r !! sid = Some s ∧ scope_status s = Open
    ∧ group open_parent (scopes r) sid = ∅ ∧ x = open_index (effects r) (intent_order s).
Proof.
  intros Hsy Hok. unfold open_scope_close_index in Hok. rewrite Hsy in Hok. inv_ok. to_prop.
  match goal with Hs : scopes r !! sid = Some ?t |- _ => exists t; rename t into s; rename Hs into Hscope end.
  do 2 (split; [done|]). split.
  - match goal with Hn : entry_count _ _ = 0%N |- _ =>
      cbn in Hn; rewrite entry_count_group in Hn; by apply card_0 end.
  - match goal with Hx : open_scope_effects _ !! _ = Some _ |- _ => cbn in Hx;
      rewrite lookup_open_indexes, Hscope in Hx; cbn in Hx; unfold scope_is_open in Hx;
      rewrite bool_decide_eq_true_2 in Hx by done; congruence end.
Qed.

Lemma scopes_wf_close scs sid s status :
  scopes_wf scs → scs !! sid = Some s → status ≠ Open → group open_parent scs sid = ∅ →
  scopes_wf (<[sid := set_scope_status status s]> scs).
Proof.
  intros [Hkey Hint (root & Hroot & Hr) Hch (rank & Hrank)] Hs Hst Hno.
  assert (Hlk : ∀ k t, <[sid := set_scope_status status s]> scs !! k = Some t →
    ∃ t0, scs !! k = Some t0 ∧ scope_id t = scope_id t0 ∧ parent_scope t = parent_scope t0
      ∧ scope_site_id t = scope_site_id t0 ∧ scope_region_path t = scope_region_path t0
      ∧ intents t = intents t0 ∧ intent_order t = intent_order t0
      ∧ (scope_status t = Open → scope_status t0 = Open)).
  { intros k t. destruct (decide (k = sid)) as [->|].
    - rewrite lookup_insert_eq. intros [= <-]. by exists s.
    - rewrite lookup_insert_ne by done. intros. by exists t. }
  split.
  - intros k t (t0 & Ht0 & -> & _)%Hlk. eauto.
  - intros k t (t0 & Ht0 & _ & _ & _ & _ & -> & -> & _)%Hlk. eauto.
  - destruct (decide (sid = ROOT_SCOPE_ID)) as [->|].
    + eexists. rewrite lookup_insert_eq. split; [done|].
      assert (s = root) as -> by congruence. done.
    + exists root. by rewrite lookup_insert_ne.
  - intros k t Ht Hne. destruct (Hlk _ _ Ht) as (t0 & Ht0 & _ & -> & -> & -> & _ & _ & Hop).
    destruct (Hch _ _ Ht0 Hne) as (? & ? & p & ps & Hp & Hps & Hpop).
    do 2 (split; [done|]). destruct (decide (p = sid)) as [->|].
    + exists sid. eexists. rewrite lookup_insert_eq. do 2 (split; [done|]). intros Htop.
      specialize (Hop Htop).
      assert (Hin : k ∈ group open_parent scs sid).
      { apply elem_of_group. exists t0. split; [done|]. unfold open_parent, scope_is_open.
        by rewrite bool_decide_eq_true_2. }
      rewrite Hno in Hin. by apply elem_of_empty in Hin.
    + exists p, ps. rewrite lookup_insert_ne by done. do 2 (split; [done|]). intros Htop.
      by apply Hpop, Hop.
  - exists rank. intros k t p (t0 & Ht0 & _ & -> & _)%Hlk. by apply Hrank.
Qed.

Lemma linked_close scs effs sid s status :
  linked scs effs → scs !! sid = Some s → linked (<[sid := set_scope_status status s]> scs) effs.
Proof.
  intros [Hid Hsc Hmem Hnd] Hs. split; [done| | |].
  - intros i e He. destruct (Hsc _ _ He) as (t & Ht & Hi).
    destruct (decide (effect_scope_id e = sid)) as [Heq|].
    + rewrite Heq, lookup_insert_eq. eexists. split; [done|]. cbn.
      by assert (t = s) as <- by congruence.
    + rewrite lookup_insert_ne by done. eauto.
  - intros k t i. destruct (decide (k = sid)) as [->|]; [|by rewrite lookup_insert_ne; eauto].
    rewrite lookup_insert_eq. intros [= <-]. cbn. by apply Hmem.
  - intros k t. destruct (decide (k = sid)) as [->|]; [|by rewrite lookup_insert_ne; eauto].
    rewrite lookup_insert_eq. intros [= <-]. exact (Hnd _ _ Hs).
Qed.

Lemma effects_wf_close scs effs sid s status :
  effects_wf scs effs → scs !! sid = Some s →
  (∀ i e, effs !! i = Some e → effect_scope_id e = sid → effect_scope_legal e status = true) →
  effects_wf (<[sid := set_scope_status status s]> scs) effs.
Proof.
  intros Hef Hs Hleg i e He. destruct (Hef _ _ He). split; try done. intros t.
  destruct (decide (effect_scope_id e = sid)) as [Heq|].
  - rewrite Heq, lookup_insert_eq. intros [= <-]. cbn. eauto.
  - rewrite lookup_insert_ne by done. eauto.
Qed.

Lemma children_bound_close scs sid s status :
  scs !! sid = Some s → status ≠ Open → (∀ p, (card (group open_parent scs p) ≤ u64_max)%N) →
  ∀ p, (card (group open_parent (<[sid := set_scope_status status s]> scs) p) ≤ u64_max)%N.
Proof.
  intros Hs Hst Hall p. etransitivity; [|apply (Hall p)]. apply card_subseteq.
  rewrite group_insert.
  assert (open_parent (set_scope_status status s) = None) as ->.
  { unfold open_parent, scope_is_open. cbn. by rewrite bool_decide_eq_false_2. }
  rewrite bool_decide_eq_false_2 by done. unfold put_flag. set_solver.
Qed.

(** [index_closed_scope] computes the index of the closed Run, and bounds the
    count of committed effects. *)
Lemma index_closed_eq D r sid s status r' :
  core_inv D r → synced r → scopes r !! sid = Some s → scope_status s = Open → status ≠ Open →
  index_closed_scope (set_scopes (<[sid := set_scope_status status s]> (scopes r)) r) sid
    (bool_decide (status = ClosedCommitted)) = Ok r' →
  r' = resync (set_scopes (<[sid := set_scope_status status s]> (scopes r)) r)
  ∧ (card (having (committed_in (<[sid := set_scope_status status s]> (scopes r))) (effects r))
     ≤ MAX_EXACT_INTEGER)%N.
Proof.
  intros Hc Hsy Hs Hop Hst Hok. pose proof (ci_linked _ _ Hc) as Hl.
  set (scs' := <[sid := set_scope_status status s]> (scopes r)) in *.
  pose proof (spec_close_scope (obligations r) (attempts r) _ _ _ _ status Hl Hs Hop Hst) as Hspec.
  fold scs' in Hspec.
  assert (Hcm : committed_effect_count (spec_of scs' (effects r) (obligations r) (attempts r))
    = card (having (committed_in scs') (effects r))) by done.
  rewrite Hspec in Hcm.
  unfold index_closed_scope in Hok. cbn [set_scopes scopes derived] in Hok.
  unfold scs' in Hok at 1. rewrite lookup_insert_eq in Hok. cbn [mbind option_bind] in Hok.
  rewrite Hsy in Hok. inv_ok. to_prop.
  match goal with Hx : ok_or (open_scope_effects _ !! _) _ = Ok _ |- _ =>
    apply ok_or_Ok in Hx | _ => idtac end.
  match goal with Hx : open_scope_effects _ !! _ = Some ?y |- _ => cbn in Hx;
      rewrite lookup_open_indexes, Hs in Hx; cbn in Hx; unfold scope_is_open in Hx;
      rewrite bool_decide_eq_true_2 in Hx by done; injection Hx as <- end.
  cbn [all_intents open_index] in *.
  assert (Hsize : N.of_nat (size (list_to_set (intent_order s) : gset string))
    = N.of_nat (length (intent_order s))).
  { apply card_list_to_set. by eapply (linked_nodup _ _ Hl). }
  rewrite Hsize in *.
  match goal with Hx : (if bool_decide _ then _ else _) = Ok ?y |- _ =>
    rename y into x1; rename Hx into Hx1 end.
  set (n := if decide (status = ClosedCommitted) then N.of_nat (length (intent_order s)) else 0%N) in *.
  set (y := set_open_scope_effects (delete sid (open_scope_effects (spec_index r)))
              (set_open_scope_ids (open_scope_ids (spec_index r) ∖ {[sid]}) (spec_index r))).
  assert (x1 = set_committed_effect_count (committed_effect_count (spec_index r) + n)%N y
    ∧ (committed_effect_count (spec_index r) + n ≤ MAX_EXACT_INTEGER)%N) as [-> Hmax].
  { unfold n. destruct (decide (status = ClosedCommitted)) as [Heq|Hne].
    - rewrite (bool_decide_eq_true_2 _ Heq) in Hx1. inv_ok.
      match goal with Hn : checked_add_exact _ _ = Some _ |- _ =>
        by apply checked_add_exact_Some in Hn as [-> ?] end.
    - rewrite (bool_decide_eq_false_2 _ Hne) in Hx1. inv_ok.
      rewrite N.add_0_r. split; [done|]. apply (bw_committed _ _ (ci_bounds _ _ Hc)). }
  split.
  - unfold resync. unfold spec_index. cbn [set_scopes scopes effects obligations attempts].
    rewrite Hspec. unfold closed.
    change (parent_scope (set_scope_status status s)) with (parent_scope s) in Hok.
    destruct (parent_scope s) as [p|]; [|by inv_ok]. inv_ok.
    match goal with Hl : open_descendants _ !! p = Some _ |- _ => cbn in Hl; rename Hl into Hlk end.
    match goal with Hn : checked_sub _ _ = Some _ |- _ => apply checked_sub_Some in Hn as [_ ->] end.
    unfold entry_count. cbn. by rewrite Hlk.
  - rewrite <-Hcm. unfold closed. by destruct (parent_scope s).
Qed.

Lemma aborted_legal e :
  effect_state_legal e = true → effect_scope_legal e Open = true →
  needs_scope_abort_transition e = true →
  effect_state_legal (aborted_effect e) = true
  ∧ effect_scope_legal (aborted_effect e) Open = true
  ∧ effect_scope_legal (aborted_effect e) ClosedAborted = true.
Proof. intros Hl Hs Hn. legal_cases e Hl; try discriminate Hs; try discriminate Hn; done. Qed.

Lemma abort_keeps_legal e :
  effect_state_legal e = true → effect_scope_legal e Open = true →
  needs_scope_abort_transition e = false → blocks_scope_abort e = false →
  effect_scope_legal e ClosedAborted = true.
Proof.
  intros Hl Hs Hn Hb. legal_cases e Hl; try discriminate Hs; try discriminate Hn;
    try discriminate Hb; done.
Qed.

Lemma settled_ok_close r scs : settled_ok r → settled_ok (resync (set_scopes scs r)).
Proof. done. Qed.

(** Closing a scope keeps the invariant when its effects fit the new status
    and its obligations are accounted for. *)
Lemma core_close D r sid s status :
  core_inv D r → scopes r !! sid = Some s → status ≠ Open →
  group open_parent (scopes r) sid = ∅ →
  (∀ i e, effects r !! i = Some e → effect_scope_id e = sid → effect_scope_legal e status = true) →
  (card (having (committed_in (<[sid := set_scope_status status s]> (scopes r))) (effects r))
     ≤ MAX_EXACT_INTEGER)%N →
  obligations_wf D (<[sid := set_scope_status status s]> (scopes r)) (effects r) (obligations r) →
  core_inv D (resync (set_scopes (<[sid := set_scope_status status s]> (scopes r)) r)).
Proof.
  intros [Hln Hsc Hlk Hef Hob Hat [Hch Hco Hcm]] Hs Hst Hno Hleg Hmax Hob'. split; cbn; try done.
  - by destruct Hln; split.
  - by apply scopes_wf_close.
  - by apply linked_close.
  - by apply effects_wf_close.
  - split; [|done|done]. by apply children_bound_close.
Qed.

Lemma committed_in_aborted scs sid s e :
  scs !! sid = Some s → scope_status s = Open →
  committed_in (<[sid := set_scope_status ClosedAborted s]> scs) e = committed_in scs e.
Proof.
  intros Hs Hop. unfold committed_in. destruct (decide (effect_scope_id e = sid)) as [->|].
  - by rewrite lookup_insert_eq, Hs, Hop.
  - by rewrite lookup_insert_ne.
Qed.

Lemma close_scope_eq r sid s status :
  scopes r !! sid = Some s →
  close_scope r sid status = Ok (set_scopes (<[sid := set_scope_status status s]> (scopes r)) r).
Proof. intros Hs. unfold close_scope. by rewrite Hs. Qed.

(** The transition loop of an abort. *)
Lemma abort_loop r sid s :
  ready r → scopes r !! sid = Some s → scope_status s = Open →
  let l := btree_elements (set_with needs_scope_abort_transition (effects r) (intent_order s)) in
  let r' := resync (set_effects (adjust aborted_effect l (effects r)) r) in
  try_fold (λ run iid,
    previous ← ok_or (effects run !! iid) NotFound;
    replace_effect run iid previous (aborted_effect previous) Open) r l = Ok r'
  ∧ core_inv ∅ r'.
Proof.
  intros [Hc Hsy Hst] Hs Hop l r'. pose proof (ci_linked _ _ Hc) as Hlk.
  assert (Hl : ∀ i, i ∈ l → ∃ e, effects r !! i = Some e ∧ effect_scope_id e = sid
    ∧ needs_scope_abort_transition e = true).
  { intros i. unfold l. rewrite elem_of_btree_elements, elem_of_set_with.
    intros (Hi & e & He & Hn). destruct (linked_member _ _ Hlk _ _ _ Hs Hi) as (e' & He' & Hsid).
    exists e. split; [done|]. split; [congruence|done]. }
  destruct (replace_loop ∅ r aborted_effect (λ run iid,
    previous ← ok_or (effects run !! iid) NotFound;
    replace_effect run iid previous (aborted_effect previous) Open) l) as [Hrun Hc'];
    [done|done|apply btree_elements_NoDup| |].
  - intros i Hi. destruct (Hl _ Hi) as (e & He & Hsid & Hn). exists e, s.
    pose proof (ci_effects _ _ Hc _ _ He) as Hwf.
    destruct (aborted_legal e) as (Hl1 & Hl2 & _); [apply Hwf| |done|].
    { rewrite <-Hop. apply (ew_scope _ _ _ Hwf). by rewrite Hsid. }
    split; [done|]. split; [by rewrite Hsid|]. split; [done|]. rewrite Hop.
    do 2 (split; [done|]). intros r1 _ He1. by rewrite He1.
  - split; [exact Hrun|]. fold r' in Hc'. destruct Hc' as [? ? ? ? Hob ? ?]. split; try done.
    apply (obligations_clean ∅ (list_to_set l)); [done|].
    intros i e Hi He. apply elem_of_list_to_set in Hi. destruct (Hl _ Hi) as (e0 & He0 & Hsid & _).
    cbn in He. rewrite lookup_adjust, He0 in He. cbn in He. rewrite decide_True in He by done.
    injection He as <-. cbn. unfold committed_in. cbn. by rewrite Hsid, Hs, Hop.
Qed.

(** The effects a scope abort leaves, and the Run after it. *)
Definition aborting (r : RunProjection) (s : ScopeProjection) : list string :=
  btree_elements (set_with needs_scope_abort_transition (effects r) (intent_order s)).
Definition scope_aborted (r : RunProjection) (sid : string) (s : ScopeProjection) : RunProjection :=
  let r1 := resync (set_effects (adjust aborted_effect (aborting r s) (effects r)) r) in
  update_world_settlement
    (resync (set_scopes (<[sid := set_scope_status ClosedAborted s]> (scopes r1)) r1)).

Lemma scope_aborted_eq r sid r' :
  ready r → apply_scope_aborted r sid = Ok r' →
  ∃ s, scopes r !! sid = Some s ∧ scope_status s = Open ∧ group open_parent (scopes r) sid = ∅
    ∧ set_with blocks_scope_abort (effects r) (intent_order s) = ∅
    ∧ core_inv ∅ (resync (set_effects (adjust aborted_effect (aborting r s) (effects r)) r))
    ∧ (card (having (committed_in (<[sid := set_scope_status ClosedAborted s]> (scopes r)))
         (adjust aborted_effect (aborting r s) (effects r))) ≤ MAX_EXACT_INTEGER)%N
    ∧ r' = scope_aborted r sid s.
Proof.
  intros Hr Hok. pose proof Hr as [Hc Hsy Hst]. unfold apply_scope_aborted in Hok.
  apply bind_Ok in Hok as (x & Hx & Hok).
  apply open_scope_close_index_Ok in Hx as (s & Hs & Hop & Hno & ->); [|done].
  apply bind_Ok in Hok as ([] & Hbl & Hok). apply require_Ok, bool_decide_eq_true in Hbl.
  cbn [open_index abort_blockers abort_transition_intents] in *.
  destruct (abort_loop _ _ _ Hr Hs Hop) as [Hloop Hc1]. rewrite Hloop in Hok.
  cbn [mbind result_bind] in Hok. fold (aborting r s) in Hok, Hc1.
  set (r1 := resync (set_effects (adjust aborted_effect (aborting r s) (effects r)) r)) in *.
  rewrite (close_scope_eq r1 sid s) in Hok by done. cbn [mbind result_bind] in Hok.
  apply bind_Ok in Hok as (r2 & Hidx & Hok).
  destruct (index_closed_eq ∅ r1 sid s ClosedAborted r2) as [-> Hmax]; try done.
  inv_ok. by exists s.
Qed.

Lemma scope_aborted_ready r sid r' :
  ready r → apply_scope_aborted r sid = Ok r' → ready r' ∧ same_status r r'.
Proof.
  intros Hr Hok.
  destruct (scope_aborted_eq _ _ _ Hr Hok) as (s & Hs & Hop & Hno & Hbl & Hc1 & Hmax & ->).
  destruct Hr as [Hc Hsy Hst]. set (l := aborting r s) in *.
  set (r1 := resync (set_effects (adjust aborted_effect l (effects r)) r)) in *.
  split; [|done]. split; [|done|done]. apply core_settlement, (core_close ∅ r1 sid s); try done.
  - intros i e He Hsid. cbn in He. rewrite lookup_adjust in He.
    apply fmap_Some in He as (e0 & He0 & ->).
    pose proof (ci_effects _ _ Hc _ _ He0) as Hwf.
    assert (Hsid0 : effect_scope_id e0 = sid) by (by destruct (decide (i ∈ l))).
    assert (Hso : effect_scope_legal e0 Open = true).
    { rewrite <-Hop. apply (ew_scope _ _ _ Hwf). by rewrite Hsid0. }
    assert (Hin : i ∈ intent_order s).
    { eapply linked_in_scope; [apply Hc|done|by rewrite Hsid0]. }
    case_decide as Hi.
    + unfold l, aborting in Hi. rewrite elem_of_btree_elements, elem_of_set_with in Hi.
      destruct Hi as (_ & e1 & He1 & Hn). apply aborted_legal; [apply Hwf|done|congruence].
    + apply abort_keeps_legal; [apply Hwf|done| |].
      * destruct (needs_scope_abort_transition e0) eqn:Hn; [|done]. destruct Hi.
        unfold l, aborting. rewrite elem_of_btree_elements, elem_of_set_with. eauto.
      * destruct (blocks_scope_abort e0) eqn:Hn; [|done].
        assert (Hi' : i ∈ set_with blocks_scope_abort (effects r) (intent_order s)).
        { rewrite elem_of_set_with. eauto. }
        rewrite Hbl in Hi'. by apply elem_of_empty in Hi'.
  - eapply obligations_wf_scopes; [apply (ci_obligations _ _ Hc1)|]. intros i e _. by apply committed_in_aborted.
Qed.

(** ** Committing a scope *)

Lemma obligation_for_effect_Ok e o :
  obligation_for_effect e = Ok o →
  is_mutating e = true ∧ effect_obligation_id (intent_id e) = Ok (obligation_id o)
  ∧ obligation_intent_id o = intent_id e ∧ blocking o = true ∧ resolved o = observed_terminally e.
Proof. unfold obligation_for_effect, is_mutating. intros Hok. inv_ok. done. Qed.

Lemma legal_effect_done e :
  effect_state_legal e = true → effect_done e = observed_terminally e.
Proof. intros Hl. by legal_cases e Hl. Qed.

(** The obligations computed for the mutating intents [l]. *)
Lemma derived_scope_obligations_Ok r x m :
  derived_scope_obligations r x = Ok m →
  (∀ oid o, m !! oid = Some o → ∃ i e, i ∈ mutating_intent_order x ∧ effects r !! i = Some e
     ∧ obligation_for_effect e = Ok o ∧ obligation_id o = oid)
  ∧ (∀ i, i ∈ mutating_intent_order x → ∃ e o, effects r !! i = Some e
     ∧ obligation_for_effect e = Ok o ∧ m !! obligation_id o = Some o).
Proof.
  unfold derived_scope_obligations. generalize (mutating_intent_order x). intros l Hok.
  refine (try_fold_inv _ (λ l (m : gmap string ObligationProjection),
    (∀ oid o, m !! oid = Some o → ∃ i e, i ∈ l ∧ effects r !! i = Some e
       ∧ obligation_for_effect e = Ok o ∧ obligation_id o = oid)
    ∧ (∀ i, i ∈ l → ∃ e o, effects r !! i = Some e
       ∧ obligation_for_effect e = Ok o ∧ m !! obligation_id o = Some o)) l ∅ m _ _ Hok).
  - split; [intros ? ?; by rewrite lookup_empty|by intros ? ?%elem_of_nil].
  - clear Hok. intros k i rest m1 m2 _ [Hm Hl] Hok. inv_ok. to_prop.
    match goal with He : effects r !! i = Some ?t, Ho : obligation_for_effect _ = Ok ?u |- _ =>
      rename t into e; rename u into o; rename He into Hef; rename Ho into Hob end.
    split.
    + intros oid o'. destruct (decide (oid = obligation_id o)) as [->|].
      * rewrite lookup_insert_eq. intros [= <-]. exists i, e. split; [set_solver|done].
      * rewrite lookup_insert_ne by done. intros Ho'.
        destruct (Hm _ _ Ho') as (j & e' & Hj & ?). exists j, e'. split; [set_solver|done].
    + intros j [Hj|Hj%list_elem_of_singleton]%elem_of_app.
      * destruct (Hl _ Hj) as (e' & o' & He' & Ho' & Hlk). exists e', o'.
        rewrite lookup_insert_ne; [done|]. intros Heq. congruence.
      * subst j. exists e, o. by rewrite lookup_insert_eq.
Qed.

Lemma insert_one_spec x r o r' :
  synced r → insert_one_obligation x r o = Ok r' →
  obligations r !! obligation_id o = None
  ∧ r' = resync (set_obligations (<[obligation_id o := o]> (obligations r)) r).
Proof.
  intros Hsy Hok. unfold insert_one_obligation in Hok. inv_ok. to_prop.
  match goal with Hn : obligations r !! _ = None |- _ => rename Hn into Hnone end.
  split; [done|]. unfold resync, spec_index. cbn [set_obligations scopes effects obligations attempts].
  rewrite (spec_put_obligation _ _ _ _ (obligation_id o)) by done.
  cbn [derived set_obligations] in *. rewrite Hsy in *.
  match goal with Hy : (if blocking o && _ then _ else _) = Ok _ |- _ => rename Hy into Hb end.
  unfold unresolved_blocking. destruct (blocking o && negb (resolved o)); inv_ok; done.
Qed.

Lemma insert_scope_obligations_Ok r x m r' :
  synced r → (∀ oid o, m !! oid = Some o → obligation_id o = oid) →
  insert_scope_obligations r x m = Ok r' →
  r' = resync (set_obligations (m ∪ obligations r) r)
  ∧ ∀ oid, is_Some (m !! oid) → obligations r !! oid = None.
Proof.
  intros Hsy Hkey Hok. unfold insert_scope_obligations in Hok.
  refine (btree_values_inv obligation_id _ (λ m t,
    t = resync (set_obligations (m ∪ obligations r) r)
    ∧ ∀ oid, is_Some (m !! oid) → obligations r !! oid = None) m r r' Hkey _ _ Hok).
  - rewrite map_empty_union. split; [|intros oid; rewrite lookup_empty; by intros [? [=]]].
    transitivity (resync r); [by rewrite resync_id|by destruct r].
  - clear Hok. intros m' o t t' Hsub Hni Hin [-> Hdis] Hstep.
    apply insert_one_spec in Hstep as [Hnone ->]; [|done]. cbn in *.
    apply lookup_union_None in Hnone as [_ Hnone]. split.
    + unfold resync. cbn. by rewrite insert_union_l.
    + intros oid. destruct (decide (oid = obligation_id o)) as [->|]; [done|].
      rewrite lookup_insert_ne by done. apply Hdis.
Qed.

Lemma obligations_wf_commit scs effs obs sid s m :
  obligations_wf ∅ scs effs obs → linked scs effs → effects_wf scs effs →
  scs !! sid = Some s → scope_status s = Open →
  (∀ oid o, m !! oid = Some o → ∃ i e, i ∈ keys_with is_mutating effs (intent_order s)
     ∧ effs !! i = Some e ∧ obligation_for_effect e = Ok o ∧ obligation_id o = oid) →
  (∀ i, i ∈ keys_with is_mutating effs (intent_order s) → ∃ e o, effs !! i = Some e
     ∧ obligation_for_effect e = Ok o ∧ m !! obligation_id o = Some o) →
  (∀ oid, is_Some (m !! oid) → obs !! oid = None) →
  obligations_wf ∅ (<[sid := set_scope_status ClosedCommitted s]> scs) effs (m ∪ obs).
Proof.
  intros [Ho He] Hlk Hef Hs Hop Hm Hl Hdis.
  set (scs' := <[sid := set_scope_status ClosedCommitted s]> scs).
  assert (Hold : ∀ e, committed_in scs e = true → committed_in scs' e = true).
  { intros e. unfold committed_in, scs'. destruct (decide (effect_scope_id e = sid)) as [->|].
    - by rewrite Hs, Hop.
    - by rewrite lookup_insert_ne. }
  assert (Hnew : ∀ e, effect_scope_id e = sid → committed_in scs' e = true).
  { intros e Hsid. unfold committed_in, scs'. by rewrite Hsid, lookup_insert_eq. }
  split.
  - intros oid o [Hoid|[Hnone Hoid]]%lookup_union_Some_raw.
    + destruct (Hm _ _ Hoid) as (i & e & Hi & Hei & Hob & <-).
      apply obligation_for_effect_Ok in Hob as (Hmut & Hid & Hint & Hbl & Hres).
      do 2 (split; [done|]). rewrite Hint. split; [done|].
      rewrite (linked_id _ _ Hlk _ _ Hei). exists e. do 2 (split; [done|]). split.
      * apply elem_of_keys_with in Hi as [Hi _].
        destruct (linked_member _ _ Hlk _ _ _ Hs Hi) as (e' & He' & Hsid). apply Hnew. congruence.
      * intros _. rewrite Hres. symmetry. apply legal_effect_done. by apply (Hef _ _ Hei).
    + destruct (Ho _ _ Hoid) as (? & ? & ? & e & Hei & Hmut & Hc & Hres).
      do 3 (split; [done|]). exists e. do 2 (split; [done|]). split; [by apply Hold|done].
  - intros i e Hei Hmut Hc. destruct (decide (effect_scope_id e = sid)) as [Hsid|Hsid].
    + destruct (Hl i) as (e' & o & He' & Hob & Hlookup).
      { apply elem_of_keys_with. split; [|eauto]. eapply linked_in_scope; [done|done|by rewrite Hsid]. }
      apply obligation_for_effect_Ok in Hob as (_ & Hid & Hint & _).
      assert (e' = e) as -> by congruence. rewrite (linked_id _ _ Hlk _ _ Hei) in *.
      exists (obligation_id o), o. split; [done|]. split; [|done].
      by apply lookup_union_Some_l.
    + destruct (He i e) as (oid & o & Hid & Hoid & Hint); [done|done| |].
      { unfold committed_in, scs' in Hc |- *. by rewrite lookup_insert_ne in Hc. }
      exists oid, o. split; [done|]. split; [|done].
      apply lookup_union_Some_raw. right. split; [|done].
      destruct (m !! oid) eqn:Hmo; [|done]. specialize (Hdis oid). rewrite Hmo in Hdis.
      by rewrite Hdis in Hoid.
Qed.

(** Release that was legal in the open scope stays legal once it commits. *)
Lemma commit_keeps_legal e :
  effect_scope_legal e Open = true → effect_scope_legal e ClosedCommitted = true.
Proof.
  unfold effect_scope_legal. destruct (dispatch (profile e)), (mutation (profile e)), (phase e); done.
Qed.

Definition scope_committed (r : RunProjection) (sid : string) (s : ScopeProjection)
    (m : gmap string ObligationProjection) : RunProjection :=
  let r1 := resync (set_scopes (<[sid := set_scope_status ClosedCommitted s]> (scopes r)) r) in
  resync (set_obligations (m ∪ obligations r1) r1).

Lemma scope_committed_eq r sid count commitment r' :
  ready r → apply_scope_committed r sid count commitment = Ok r' →
  ∃ s m, scopes r !! sid = Some s ∧ scope_status s = Open ∧ group open_parent (scopes r) sid = ∅
    ∧ (∀ oid o, m !! oid = Some o → ∃ i e, i ∈ keys_with is_mutating (effects r) (intent_order s)
         ∧ effects r !! i = Some e ∧ obligation_for_effect e = Ok o ∧ obligation_id o = oid)
    ∧ (∀ i, i ∈ keys_with is_mutating (effects r) (intent_order s) → ∃ e o, effects r !! i = Some e
         ∧ obligation_for_effect e = Ok o ∧ m !! obligation_id o = Some o)
    ∧ (∀ oid, is_Some (m !! oid) → obligations r !! oid = None)
    ∧ (card (having (committed_in (<[sid := set_scope_status ClosedCommitted s]> (scopes r)))
         (effects r)) ≤ MAX_EXACT_INTEGER)%N
    ∧ r' = scope_committed r sid s m.
Proof.
  intros Hr Hok. pose proof Hr as [Hc Hsy Hst]. unfold apply_scope_committed in Hok.
  apply bind_Ok in Hok as (x & Hx & Hok).
  apply open_scope_close_index_Ok in Hx as (s & Hs & Hop & Hno & ->); [|done].
  apply bind_Ok in Hok as (m & Hm & Hok).
  apply derived_scope_obligations_Ok in Hm as [Hm Hl]. cbn [open_index mutating_intent_order] in *.
  apply bind_Ok in Hok as (order & _ & Hok). apply bind_Ok in Hok as (summary & _ & Hok).
  apply bind_Ok in Hok as ([] & _ & Hok).
  rewrite (close_scope_eq r sid s) in Hok by done. cbn [mbind result_bind] in Hok.
  apply bind_Ok in Hok as (r2 & Hidx & Hok).
  destruct (index_closed_eq ∅ r sid s ClosedCommitted r2) as [-> Hmax]; try done.
  apply insert_scope_obligations_Ok in Hok as [-> Hdis]; [|done|].
  2: { intros oid o Hoid. by destruct (Hm _ _ Hoid) as (? & ? & ? & ? & ? & ?). }
  by exists s, m.
Qed.

Lemma scope_committed_ready r sid count commitment r' :
  ready r → apply_scope_committed r sid count commitment = Ok r' → ready r' ∧ same_status r r'.
Proof.
  intros Hr Hok.
  destruct (scope_committed_eq _ _ _ _ _ Hr Hok)
    as (s & m & Hs & Hop & Hno & Hm & Hl & Hdis & Hmax & ->).
  destruct Hr as [Hc Hsy Hst].
  split; [|done]. split; [|done|done].
  destruct Hc as [Hln Hsc Hlk Hef Hob Hat [Hch Hco Hcm]]. split; cbn; try done.
  - by destruct Hln; split.
  - by apply scopes_wf_close.
  - by apply linked_close.
  - apply effects_wf_close; [done|done|]. intros i e He Hsid. apply commit_keeps_legal.
    rewrite <-Hop. apply (ew_scope _ _ _ (Hef _ _ He)). by rewrite Hsid.
  - by apply obligations_wf_commit.
  - split; [|done|done]. by apply children_bound_close.
Qed.
End Steps.
