(* ===== verification/Terminate.v ===== *)
(** * Completion and termination of a Run

    A completed Run has settled every effect; a failed or cancelled Run has
    terminalised its effects, closed its scopes and fenced its attempts. *)

From S2P Require Import Prelude KeyIndex Identity Ir Model Effects DerivedIndex IndexSpec Reducer.
From S2P Require Import RunInv RunSteps.

Section Terminate.
Context `{Sha256} `{Canonical}.

Lemma run_completed_ready r result r' :
  ready r → (∀ a, result = Some a → ArtifactRef_validate a = Ok ()) →
  apply_run_completed r result = Ok r' →
  ready r' ∧ run_id r' = run_id r ∧ last_event r' = last_event r
  ∧ execution_status r' = Completed ∧ status_wf r'.
Proof.
  intros [Hc Hsy Hst] Hres Hok. unfold apply_run_completed in Hok. rewrite Hsy in Hok.
  inv_ok. to_prop.
  split; [|split; [done|split; [done|split; [done|]]]].
  - split; [|exact Hsy|done]. destruct Hc as [[] ? ? ? ? ? ?]. split; done.
  - cbn. split; [|split]; [by apply (no_active_spec r)|done|done].
Qed.

(** ** Termination *)

Lemma terminalized_scope_legal e s :
  effect_state_legal e = true → effect_scope_legal e s = true →
  effect_scope_legal (terminalized_effect e) s = true.
Proof.
  intros Hl Hs. legal_cases e Hl; destruct s; try discriminate Hs; done.
Qed.

Lemma terminal_abort_legal e :
  effect_state_legal e = true → effect_scope_legal e Open = true →
  needs_terminal_transition e = false → effect_scope_legal e ClosedAborted = true.
Proof.
  intros Hl Hs Hn. legal_cases e Hl; try discriminate Hs; try discriminate Hn; done.
Qed.

Lemma terminalized_same e : same_effect e (terminalized_effect e).
Proof. unfold terminalized_effect. destruct (phase e), (outcome e); done. Qed.

Lemma terminal_loop r :
  ready r →
  let l := btree_elements (having needs_terminal_transition (effects r)) in
  let r' := resync (set_effects (adjust terminalized_effect l (effects r)) r) in
  try_fold terminalize_one r l = Ok r' ∧ core_inv (list_to_set l) r'
  ∧ having needs_terminal_transition (effects r') = ∅
  ∧ (∀ i, i ∈ l → is_Some (effects r' !! i)).
Proof.
  intros [Hc Hsy Hst] l r'.
  assert (Hl : ∀ i, i ∈ l ↔ ∃ e, effects r !! i = Some e ∧ needs_terminal_transition e = true).
  { intros i. unfold l. by rewrite elem_of_btree_elements, elem_of_having. }
  destruct (replace_loop ∅ r terminalized_effect terminalize_one l) as [Hrun Hc'];
    [done|done|apply btree_elements_NoDup| |].
  - intros i (e & He & Hn)%Hl.
    destruct (linked_scope _ _ (ci_linked _ _ Hc) _ _ He) as (s & Hs & _).
    pose proof (ci_effects _ _ Hc _ _ He) as Hwf.
    exists e, s. do 2 (split; [done|]). split; [apply terminalized_same|].
    split; [apply terminalized_legal, Hwf|]. split.
    { apply terminalized_scope_legal; [apply Hwf|by apply (ew_scope _ _ _ Hwf)]. }
    intros r1 Hsc He1. unfold terminalize_one. rewrite He1. cbn. by rewrite Hsc, Hs.
  - split; [exact Hrun|]. rewrite union_empty_r_L in Hc'. split; [exact Hc'|]. split.
    + apply set_eq. intros i. split; [|intros Hi; by apply elem_of_empty in Hi].
      intros (e' & He' & Hn)%elem_of_having. cbn in He'. rewrite lookup_adjust in He'.
      apply fmap_Some in He' as (e & He & ->). case_decide as Hi.
      * rewrite terminalized_done in Hn; [done|]. apply (ci_effects _ _ Hc _ _ He).
      * destruct Hi. apply Hl. eauto.
    + intros i (e & He & _)%Hl. cbn. rewrite lookup_adjust, He. eauto.
Qed.

(** Only the obligations of the given intents change, and no intent does. *)
Definition resolves (l : list string) (obs obs' : gmap string ObligationProjection) : Prop :=
  (∀ o, obligation_intent_id <$> obs' !! o = obligation_intent_id <$> obs !! o)
  ∧ ∀ o ob, obs !! o = Some ob → obligation_intent_id ob ∉ l → obs' !! o = Some ob.

Lemma resolves_cons i l obs b obs' :
  resolves l (resolve i b <$> obs) obs' → resolves (i :: l) obs obs'.
Proof.
  intros [Hi Ho]. split.
  - intros o. rewrite Hi, lookup_fmap. destruct (obs !! o); [|done]. cbn. by rewrite resolve_intent.
  - intros o ob Hob Hn. rewrite elem_of_cons in Hn. apply Ho; [|naive_solver].
    rewrite lookup_fmap, Hob. cbn. unfold resolve. rewrite decide_False; [done|naive_solver].
Qed.

Lemma update_all D r l :
  core_inv D r → synced r → (∀ i, i ∈ l → is_Some (effects r !! i)) →
  ∃ obs, try_fold update_obligation r l = Ok (resync (set_obligations obs r))
    ∧ core_inv (D ∖ list_to_set l) (resync (set_obligations obs r))
    ∧ resolves l (obligations r) obs.
Proof.
  revert D r. induction l as [|i l IH]; intros D r Hc Hsy Hl; cbn [try_fold].
  - exists (obligations r). assert (resync (set_obligations (obligations r) r) = r) as ->.
    { transitivity (resync r); [by destruct r|by apply resync_id]. }
    split; [done|]. cbn. rewrite difference_empty_L. by split.
  - destruct (Hl i) as [e He]; [by left|].
    rewrite (update_obligation_spec _ _ _ Hc Hsy), He. cbn [mbind result_bind].
    pose proof (core_update_obligation _ _ _ _ Hc He) as Hc1.
    destruct (IH _ _ Hc1 eq_refl) as (obs & Hrun & Hc2 & Hres).
    + intros j Hj. apply Hl. by right.
    + exists obs. rewrite Hrun. split; [done|].
      assert (D ∖ {[i]} ∖ list_to_set l = D ∖ list_to_set (i :: l)) as <- by (cbn; set_solver).
      split; [exact Hc2|exact (resolves_cons _ _ _ _ _ Hres)].
Qed.

(** Aborting every open scope. *)
Definition close_all (s : ScopeProjection) : ScopeProjection :=
  if scope_is_open s then set_scope_status ClosedAborted s else s.

Lemma abort_open_loop l r :
  NoDup l → (∀ sid, sid ∈ l → is_Some (scopes r !! sid)) →
  try_fold abort_open_scope r l
  = Ok (set_scopes (adjust (set_scope_status ClosedAborted) l (scopes r)) r).
Proof.
  revert r. induction l as [|sid l IH]; intros r Hnd Hl; cbn [try_fold].
  - rewrite adjust_nil. by destruct r.
  - destruct (Hl sid) as [s Hs]; [by left|]. apply NoDup_cons in Hnd as [Hni Hnd].
    assert (abort_open_scope r sid
      = Ok (set_scopes (<[sid := set_scope_status ClosedAborted s]> (scopes r)) r)) as ->.
    { unfold abort_open_scope. by rewrite Hs. }
    cbn [mbind result_bind]. rewrite IH; [|done|].
    + cbn. by rewrite (adjust_cons _ _ _ _ s).
    + intros k Hk. cbn. rewrite lookup_insert_ne by (intros ->; done). apply Hl. by right.
Qed.

Lemma close_all_adjust (scs : gmap string ScopeProjection) :
  adjust (set_scope_status ClosedAborted) (btree_elements (having scope_is_open scs)) scs
  = close_all <$> scs.
Proof.
  apply map_eq. intros sid. rewrite lookup_adjust, lookup_fmap.
  destruct (scs !! sid) as [s|] eqn:Hs; [|done]. cbn. f_equal. unfold close_all.
  assert (Hiff : sid ∈ btree_elements (having scope_is_open scs) ↔ scope_is_open s = true).
  { rewrite elem_of_btree_elements, elem_of_having. naive_solver. }
  destruct (scope_is_open s); case_decide; naive_solver.
Qed.

Lemma close_all_open s : scope_is_open (close_all s) = false.
Proof. unfold close_all. by destruct (scope_is_open s) eqn:Ho. Qed.
Lemma close_all_frame s :
  scope_id (close_all s) = scope_id s ∧ parent_scope (close_all s) = parent_scope s
  ∧ scope_site_id (close_all s) = scope_site_id s
  ∧ scope_region_path (close_all s) = scope_region_path s
  ∧ scope_invocation_path (close_all s) = scope_invocation_path s
  ∧ intents (close_all s) = intents s ∧ intent_order (close_all s) = intent_order s.
Proof. unfold close_all. by destruct (scope_is_open s). Qed.

Lemma no_open_close_all scs : having scope_is_open (close_all <$> scs) = ∅.
Proof.
  rewrite having_fmap. apply set_eq. intros k. rewrite elem_of_having. split.
  - intros (s & _ & Hs). cbn in Hs. by rewrite close_all_open in Hs.
  - intros Hk. by apply elem_of_empty in Hk.
Qed.
Lemma no_children_close_all scs p : group open_parent (close_all <$> scs) p = ∅.
Proof.
  apply set_eq. intros k. rewrite elem_of_group. split; [|intros Hk; by apply elem_of_empty in Hk].
  intros (s & Hs & Hp). rewrite lookup_fmap in Hs. apply fmap_Some in Hs as (s0 & _ & ->).
  unfold open_parent in Hp. by rewrite close_all_open in Hp.
Qed.

Lemma committed_in_close_all scs e : committed_in (close_all <$> scs) e = committed_in scs e.
Proof.
  unfold committed_in. rewrite lookup_fmap. destruct (scs !! effect_scope_id e) as [s|]; [|done].
  cbn. unfold close_all, scope_is_open. destruct (decide (scope_status s = Open)) as [Ho|Ho].
  - rewrite (bool_decide_eq_true_2 _ Ho). cbn. by rewrite Ho.
  - by rewrite (bool_decide_eq_false_2 _ Ho).
Qed.
Lemma having_committed_close_all scs effs :
  having (committed_in (close_all <$> scs)) effs = having (committed_in scs) effs.
Proof.
  apply having_ext. intros k. split; intros (e & He & Hv); exists e;
    by rewrite committed_in_close_all in *.
Qed.

Lemma spec_close_all scs effs obs atts :
  spec_of (close_all <$> scs) effs obs atts
  = set_open_scope_ids ∅ (set_open_descendants ∅ (set_open_scope_effects ∅
      (spec_of scs effs obs atts))).
Proof.
  unfold spec_of. rewrite no_open_close_all, having_committed_close_all.
  assert (group_by open_parent (close_all <$> scs) = ∅) as ->.
  { apply map_eq. intros p. by rewrite lookup_group_by, no_children_close_all, decide_True. }
  assert (open_indexes effs (close_all <$> scs) = ∅) as ->.
  { apply map_eq. intros k. rewrite lookup_open_indexes, lookup_fmap.
    destruct (scs !! k) as [s|]; [|done]. cbn. by rewrite close_all_open. }
  by rewrite fmap_empty.
Qed.

Lemma core_close_all r :
  core_inv ∅ r → having needs_terminal_transition (effects r) = ∅ →
  core_inv ∅ (resync (set_scopes (close_all <$> scopes r) r)).
Proof.
  intros [Hln [Hkey Hint (root & Hroot & Hr) Hch (rank & Hrank)] [Hid Hsc Hmem Hnd] Hef Hob Hat
    [Hbc Hbs Hbm]] Hno.
  assert (Hlk : ∀ k t, (close_all <$> scopes r) !! k = Some t →
    ∃ s, scopes r !! k = Some s ∧ t = close_all s).
  { intros k t Ht. rewrite lookup_fmap in Ht. by apply fmap_Some in Ht as (s & ? & ->); eauto. }
  assert (Hex : ∀ k s, scopes r !! k = Some s →
    (close_all <$> scopes r) !! k = Some (close_all s)).
  { intros k s Hs. by rewrite lookup_fmap, Hs. }
  split; cbn; try done.
  - by destruct Hln; split.
  - split.
    + intros k t (s & Hs & ->)%Hlk. destruct (close_all_frame s) as (-> & _). eauto.
    + intros k t (s & Hs & ->)%Hlk. destruct (close_all_frame s) as (_ & _ & _ & _ & _ & -> & ->). eauto.
    + exists (close_all root). destruct (close_all_frame root) as (_ & -> & -> & -> & -> & _).
      split; [by apply Hex|]. tauto.
    + intros k t (s & Hs & ->)%Hlk Hne. destruct (close_all_frame s) as (_ & -> & -> & -> & _).
      destruct (Hch _ _ Hs Hne) as (? & ? & p & ps & Hp & Hps & _).
      do 2 (split; [done|]). exists p, (close_all ps). split; [done|]. split; [by apply Hex|].
      intros Ho. exfalso. pose proof (close_all_open s) as Hf. unfold scope_is_open in Hf.
      by rewrite bool_decide_eq_false in Hf.
    + exists rank. intros k t p (s & Hs & ->)%Hlk.
      destruct (close_all_frame s) as (_ & -> & _). by apply Hrank.
  - split; [done| | |].
    + intros i e He. destruct (Hsc _ _ He) as (s & Hs & Hi). exists (close_all s).
      destruct (close_all_frame s) as (_ & _ & _ & _ & _ & _ & ->). split; [by apply Hex|done].
    + intros k t i (s & Hs & ->)%Hlk. destruct (close_all_frame s) as (_ & _ & _ & _ & _ & _ & ->).
      by apply Hmem.
    + intros k t (s & Hs & ->)%Hlk. destruct (close_all_frame s) as (_ & _ & _ & _ & _ & _ & ->).
      exact (Hnd _ _ Hs).
  - intros i e He. destruct (Hef _ _ He) as [? ? ? ? Hleg Hsl]. split; try done.
    intros t (s & Hs & ->)%Hlk. specialize (Hsl _ Hs). unfold close_all, scope_is_open.
    case_bool_decide as Ho; [|done]. cbn. rewrite Ho in Hsl.
    apply terminal_abort_legal; [done|done|].
    destruct (needs_terminal_transition e) eqn:Hn; [|done].
    assert (Hin : i ∈ having needs_terminal_transition (effects r)) by (apply elem_of_having; eauto).
    rewrite Hno in Hin. by apply elem_of_empty in Hin.
  - eapply RunSteps.obligations_wf_scopes; [done|]. intros. apply committed_in_close_all.
  - split; [|done|by rewrite having_committed_close_all].
    intros p. rewrite no_children_close_all, card_empty. unfold u64_max. lia.
Qed.

(** The Run after [terminate_run_execution]: the epoch advanced, no attempt
    active, the unfinished effects terminalised, the open scopes aborted. *)
Definition advanced_epoch (r : RunProjection) : RunProjection :=
  set_epoch (epoch r + 1) (deactivate r).
Definition terminated (r : RunProjection) (obs : gmap string ObligationProjection)
    : RunProjection :=
  let r1 := advanced_epoch r in
  let l := btree_elements (having needs_terminal_transition (effects r1)) in
  resync (set_obligations obs (resync (set_effects (adjust terminalized_effect l (effects r1)) r1))).

Lemma terminate_eq r e r' :
  ready r → terminate_run_execution r e = Ok r' →
  e = (epoch r + 1)%N ∧ (epoch r + 1 ≤ MAX_EXACT_INTEGER)%N
  ∧ ∃ obs, core_inv ∅ (terminated r obs)
      ∧ having needs_terminal_transition (effects (terminated r obs)) = ∅
      ∧ resolves (btree_elements (having needs_terminal_transition (effects r))) (obligations r) obs
      ∧ r' = update_world_settlement
               (resync (set_scopes (close_all <$> scopes r) (terminated r obs))).
Proof.
  intros Hr Hok. pose proof Hr as [Hc Hsy Hst]. unfold terminate_run_execution in Hok.
  apply bind_Ok in Hok as (expected & [-> Hmax]%next_epoch_Ok & Hok).
  apply bind_Ok in Hok as ([] & He & Hok). apply require_Ok, bool_decide_eq_true in He. subst e.
  split; [done|]. split; [done|]. apply bind_Ok in Hok as (r1 & Hr1 & Hok).
  assert (r1 = advanced_epoch r) as ->.
  { unfold advanced_epoch, deactivate. cbn in Hr1. destruct (active_attempt (derived r)) as [aid|].
    - cbn in Hr1 |- *. destruct (attempts r !! aid); cbn in Hr1; by inv_ok.
    - by inv_ok. }
  clear Hr1. pose proof (set_epoch_ready r (epoch r + 1) Hr ltac:(lia) Hmax) as Hready1.
  change (set_epoch (epoch r + 1) (deactivate r)) with (advanced_epoch r) in Hready1.
  unfold terminated.
  assert (Hscs : scopes (advanced_epoch r) = scopes r).
  { unfold advanced_epoch, deactivate. destruct (active_attempt (derived r)) as [aid|]; [|done].
    cbn. by destruct (attempts r !! aid). }
  assert (effects (advanced_epoch r) = effects r ∧ obligations (advanced_epoch r) = obligations r)
    as [Heffs Hobs].
  { unfold advanced_epoch, deactivate. destruct (active_attempt (derived r)) as [aid|]; [|done].
    cbn. by destruct (attempts r !! aid). }
  set (r1 := advanced_epoch r) in *.
  pose proof Hready1 as [Hc1 Hsy1 Hst1]. rewrite Hsy1 in Hok.
  cbn [spec_index spec_of terminal_transition_effects] in Hok.
  destruct (terminal_loop r1 Hready1) as (Hloop & Hc2 & Hnt & Hsome).
  set (l := btree_elements (having needs_terminal_transition (effects r1))) in *.
  rewrite Hloop in Hok. cbn [mbind result_bind] in Hok. clear Hloop.
  destruct (update_all _ _ l Hc2 eq_refl Hsome) as (obs & Hupd & Hc3 & Hres).
  rewrite Hupd in Hok. cbn [mbind result_bind] in Hok. clear Hupd.
  rewrite difference_diag_L in Hc3. exists obs. split; [exact Hc3|]. split; [exact Hnt|].
  split; [by rewrite <-Heffs, <-Hobs|].
  set (r3 := resync (set_obligations obs
    (resync (set_effects (adjust terminalized_effect l (effects r1)) r1)))) in *.
  change (open_scope_ids (derived r3)) with (having scope_is_open (scopes r3)) in Hok.
  rewrite abort_open_loop in Hok; [|apply btree_elements_NoDup|].
  2: { intros sid. rewrite elem_of_btree_elements, elem_of_having. cbn. naive_solver. }
  cbn [mbind result_bind] in Hok. cbn [set_derived scopes] in Hok.
  rewrite close_all_adjust in Hok. rewrite <-Hscs. change (scopes r1) with (scopes r3).
  inv_ok. unfold resync. unfold spec_index.
  cbn [set_scopes scopes effects obligations attempts]. by rewrite spec_close_all.
Qed.

Lemma terminate_ready r e r' :
  ready r → run_result r = None → terminate_run_execution r e = Ok r' →
  ready r' ∧ same_status r r' ∧ terminal_wf r'.
Proof.
  intros Hr Hres Hok. pose proof Hr as [Hc Hsy Hst].
  destruct (terminate_eq _ _ _ Hr Hok) as (-> & Hmax & obs & Hc3 & Hnt & _ & ->).
  assert (Hscs : scopes r = scopes (terminated r obs)).
  { unfold terminated, advanced_epoch, deactivate. destruct (active_attempt (derived r)) as [aid|]; [|done].
    cbn. by destruct (attempts r !! aid). }
  rewrite Hscs. pose proof (same_status_deactivate r) as Hsame.
  pose proof (deactivate_inactive _ _ Hc Hsy) as Hno.
  pose proof (deactivate_attempts _ _ (epoch r) Hc Hsy ltac:(lia)) as Hat. split; [|split].
  - split; [|done|done]. by apply core_settlement, core_close_all.
  - exact Hsame.
  - split.
    + cbn. lia.
    + cbn. destruct Hsame as (_ & _ & Hrr & _). congruence.
    + exact Hno.
    + apply no_open_close_all.
    + intros aid a Ha. destruct (aw_each _ _ Hat _ _ Ha). cbn. lia.
    + exact Hnt.
Qed.
End Terminate.
