(* ===== verification/ReducerInv.v ===== *)
(** * The projection invariant under events and checks

    Every event that carries the material the machine checks before admission
    takes a projection that satisfies the invariant to another one, and such a
    projection passes [verify_reducer_invariants] and [verify_derived_indexes]:
    the checks the machine runs on snapshots never reject a state the reducer has
    produced. *)

From S2P Require Import Prelude KeyIndex Identity Ir Model Effects DerivedIndex IndexSpec Reducer.
From S2P Require Import Verify RunInv RunSteps Terminate.

Section ReducerInv.
Context `{Sha256} `{Canonical}.

(** What [Event::verify] and the machine's authority checks establish about a
    payload before the reducer sees it. *)
Definition payload_material (p : EventPayload) : Prop :=
  match p with
  | AttemptStarted aid cid occ _ _ =>
      validate_content_id aid = Ok () ∧ validate_content_id cid = Ok ()
      ∧ validate_content_id occ = Ok ()
  | EffectProposed _ _ _ _ _ _ _ _ _ _ _ prof _ binding _ =>
      ArtifactRef_validate binding = Ok ()
      ∧ (dispatch prof = Eager → mutation prof = Observational)
  | ScopeOpened _ _ _ _ _ rpath _ => rpath ≠ []
  | RunCompleted (Some result) => ArtifactRef_validate result = Ok ()
  | RunFailed failure _ => RunFailure_verify failure = Ok ()
  | RunCancelled reason _ => ArtifactRef_validate reason = Ok ()
  | _ => True
  end.
Definition event_material (ev : Event) : Prop :=
  event_id ev ≠ EmptyString ∧ payload_material (payload ev).

Lemma run_inv_ready rid r : run_inv rid r → synced r → ready r.
Proof. intros [? ? ? ? ?] ?. by split. Qed.

Lemma ready_last_event r eid :
  ready r → eid ≠ EmptyString → ready (set_last_event eid r).
Proof.
  intros [[[] ? ? ? ? ? ?] Hsy Hst] Hne. by split.
Qed.

Lemma terminal_last_event r eid : terminal_wf r → terminal_wf (set_last_event eid r).
Proof. by intros []. Qed.

(** An event leaves the Run in a state that fits its new status. *)
Definition run_step_ok (rid : string) (r' : RunProjection) : Prop :=
  ready r' ∧ run_id r' = rid ∧ status_wf r'.

Lemma same_status_active r r' :
  ready r' → same_status r r' → execution_status r = Active → run_result r = None →
  run_step_ok (run_id r) r'.
Proof.
  intros Hr (Hid & Hes & Hres & _) Ha Hn. split; [done|]. split; [done|].
  unfold status_wf. rewrite Hes, Ha. congruence.
Qed.

Lemma apply_run_event_active r ev r' :
  ready r → execution_status r = Active → run_result r = None → payload_material (payload ev) →
  apply_run_event r ev = Ok r' → run_step_ok (run_id r) r'.
Proof.
  intros Hr Ha Hn Hm Hok. unfold apply_run_event in Hok. destruct (payload ev); cbn in Hm.
  - inv_ok. split; [done|]. split; [done|]. unfold status_wf. by rewrite Ha.
  - destruct Hm as (? & ? & ?).
    eapply attempt_started_ready in Hok as [? ?]; [by apply same_status_active|done..].
  - apply attempt_yielded_ready in Hok as [? ?]; [by apply same_status_active|done].
  - apply epoch_advanced_ready in Hok as [? ?]; [by apply same_status_active|done].
  - apply scope_opened_ready in Hok as [? ?]; [by apply same_status_active|done..].
  - destruct Hm. apply effect_proposed_ready in Hok as [? ?]; [by apply same_status_active|done..].
  - apply effect_transitioned_ready in Hok as [? ?]; [by apply same_status_active|done].
  - apply scope_committed_ready in Hok as [? ?]; [by apply same_status_active|done].
  - apply scope_aborted_ready in Hok as [? ?]; [by apply same_status_active|done].
  - apply binding_updated_ready in Hok as [? ?]; [by apply same_status_active|done].
  - apply run_migrated_ready in Hok as [? ?]; [by apply same_status_active|done].
  - inv_ok. split; [done|]. split; [done|]. unfold status_wf. by rewrite Ha.
  - apply run_completed_ready in Hok as (? & ? & _ & _ & ?); [by split|done|].
    intros a Heq. by subst.
  - inv_ok. match goal with Ht : terminate_run_execution _ _ = Ok _ |- _ =>
      apply terminate_ready in Ht as (Hr' & (Hid & _) & Hw); [|done..] end.
    split; [|split; [done|]]; [destruct Hr' as [[[] ? ? ? ? ? ?] ? ?]; by split|].
    split; [done|]. by destruct Hw.
  - inv_ok. match goal with Ht : terminate_run_execution _ _ = Ok _ |- _ =>
      apply terminate_ready in Ht as (Hr' & (Hid & _) & Hw); [|done..] end.
    split; [|split; [done|]]; [destruct Hr' as [[[] ? ? ? ? ? ?] ? ?]; by split|].
    split; [done|]. by destruct Hw.
Qed.

Lemma apply_run_event_ok r ev r' :
  ready r → status_wf r → payload_material (payload ev) →
  verify_run_event_gate (execution_status r) (payload ev) = Ok () →
  apply_run_event r ev = Ok r' → run_step_ok (run_id r) r'.
Proof.
  intros Hr Hw Hm Hgate Hok. unfold verify_run_event_gate in Hgate.
  apply require_Ok, orb_true_iff in Hgate as [Ha|Hrec].
  - apply bool_decide_eq_true in Ha. unfold status_wf in Hw. rewrite Ha in Hw.
    by eapply apply_run_event_active.
  - apply andb_true_iff in Hrec as [Hfc Hrec]. unfold is_reconcile in Hrec.
    destruct (payload ev) as [| | | | | |i t| | | | | | | |] eqn:Hp; try done.
    destruct t as [| | | |res|]; try done.
    unfold apply_run_event in Hok. rewrite Hp in Hok.
    destruct (effect_transitioned_ready _ _ _ _ Hr Hok) as [Hr' (Hid & Hes & Hres & _)].
    split; [done|]. split; [done|]. unfold status_wf in *. rewrite Hes.
    destruct (execution_status r); try done; destruct Hw as [? Hw]; (split; [done|]);
      exact (reconciled_terminal _ _ _ _ Hr Hw Hok).
Qed.

Lemma step_run_inv rid r' eid :
  run_step_ok rid r' → eid ≠ EmptyString → run_inv rid (set_last_event eid r').
Proof.
  intros (Hr & Hid & Hw) Hne. pose proof (ready_last_event _ _ Hr Hne) as [Hc Hsy Hst].
  split; try done. unfold status_wf in *. cbn. destruct (execution_status r'); try done;
    destruct Hw; (split; [done|]); by apply terminal_last_event.
Qed.

Lemma ensure_inv rid r r' :
  run_inv rid r → ensure_derived r = Ok r' → run_inv rid r' ∧ synced r'.
Proof.
  intros [Hid Hc Hst Hw Hsy] Hok. rewrite (ensure_derived_spec _ _ Hc Hsy) in Hok. inv_ok.
  split; [|done]. split; try done.
  - destruct Hc as [[] ? ? ? ? ? ?]. by split.
  - unfold status_wf in *. cbn. destruct (execution_status r); try done;
      destruct Hw as [? []]; by split.
Qed.

Lemma projection_inv_insert p rid r fs :
  projection_inv p → run_inv rid r → projection_inv {| runs := <[rid := r]> (runs p); facts := fs |}.
Proof.
  intros Hp Hr k t. cbn. destruct (decide (k = rid)) as [->|].
  - rewrite lookup_insert_eq. by intros [= <-].
  - rewrite lookup_insert_ne by done. apply Hp.
Qed.

(** A fresh Run satisfies the invariant. *)
Lemma started_run_inv ev plan entry binding invocation :
  event_id ev ≠ EmptyString → run_inv (ev_run_id ev) (started_run ev plan entry binding invocation).
Proof.
  intros Hne. set (r := started_run ev plan entry binding invocation).
  assert (Hlk : ∀ k s, scopes r !! k = Some s → k = ROOT_SCOPE_ID ∧ scope_id s = ROOT_SCOPE_ID
    ∧ intents s = ∅ ∧ intent_order s = [] ∧ parent_scope s = None).
  { intros k s Hs. unfold r, started_run in Hs. cbn [scopes] in Hs.
    apply lookup_singleton_Some in Hs as [<- <-]. done. }
  assert (Hspec : derived r = spec_index r).
  { unfold spec_index, spec_of. cbn. rewrite !having_empty. unfold set_open_scope_effects. cbn.
    f_equal; try by vm_compute. }
  split; [done| |unfold settled_ok; by rewrite <-Hspec|done|intros _; exact Hspec].
  clear Hspec.
  assert (Hroot : ∃ s, scopes r !! ROOT_SCOPE_ID = Some s ∧ scope_site_id s = None
    ∧ scope_invocation_path s = [] ∧ scope_region_path s = [] ∧ parent_scope s = None).
  { eexists. unfold r, started_run. cbn [scopes]. by rewrite lookup_singleton_eq. }
  assert (He : effects r = ∅) by done. assert (Ho : obligations r = ∅) by done.
  assert (Ha : attempts r = ∅) by done.
  assert (Hln : lineage_wf r) by by split.
  clearbody r. split; rewrite ?He, ?Ho, ?Ha.
  - done.
  - split.
    + intros k s Hs. destruct (Hlk _ _ Hs) as (-> & ? & _). done.
    + intros k s Hs. destruct (Hlk _ _ Hs) as (_ & _ & -> & -> & _). done.
    + destruct Hroot as (s & ? & ? & ? & ? & ?). by exists s.
    + intros k s Hs. by destruct (Hlk _ _ Hs) as (-> & _).
    + exists (λ _, 0). intros k s p Hs. destruct (Hlk _ _ Hs) as (_ & _ & _ & _ & ->). done.
  - split; try (intros ? ?; by rewrite lookup_empty).
    + intros k s i Hs. destruct (Hlk _ _ Hs) as (_ & _ & _ & -> & _). by intros ?%elem_of_nil.
    + intros k s Hs. destruct (Hlk _ _ Hs) as (_ & _ & _ & -> & _). constructor.
  - intros ? ?. by rewrite lookup_empty.
  - split; intros ? ?; by rewrite lookup_empty.
  - split; intros ? ?; intros *; by rewrite lookup_empty.
  - split.
    + intros p. assert (group open_parent (scopes r) p = ∅) as Hg.
      { apply set_eq. intros k. rewrite elem_of_group. split; [|intros Hk; by apply elem_of_empty in Hk].
        intros (s & Hs & Hp). destruct (Hlk _ _ Hs) as (_ & _ & _ & _ & Hn). unfold open_parent in Hp.
        rewrite Hn in Hp. by destruct (scope_is_open s). }
      rewrite Hg, card_empty. unfold u64_max. lia.
    + intros sid. unfold group. rewrite having_empty, card_empty. unfold u64_max. lia.
    + rewrite having_empty, card_empty. unfold MAX_EXACT_INTEGER. lia.
Qed.

(** The reducer keeps the invariant. *)
Lemma apply_event_inv p ev p' :
  projection_inv p → event_material ev → apply_event p ev = Ok p' → projection_inv p'.
Proof.
  intros Hp [Hne Hm] Hok. unfold apply_event in Hok.
  apply bind_Ok in Hok as (p1 & Hens & Hok).
  assert (Hp1 : projection_inv p1 ∧ ∀ r, runs p1 !! ev_run_id ev = Some r → synced r).
  { unfold ensure_projection_derived_index in Hens.
    destruct (runs p !! ev_run_id ev) as [r|] eqn:Hr.
    - apply bind_Ok in Hens as (r' & Hr' & Hens). inv_ok.
      destruct (ensure_inv _ _ _ (Hp _ _ Hr) Hr') as [Hinv Hsy]. split.
      + by apply projection_inv_insert.
      + intros t. cbn. rewrite lookup_insert_eq. by intros [= <-].
    - inv_ok. split; [done|]. intros r. by rewrite Hr. }
  clear Hens Hp p. destruct Hp1 as [Hp Hsy].
  apply bind_Ok in Hok as ([p2 finished] & Hglob & Hok). cbn in Hok.
  assert (Hp2 : projection_inv p2 ∧ (finished = false → runs p2 = runs p1)).
  { unfold apply_projection_global_event in Hglob. destruct (payload ev); inv_ok; try done.
    - unfold apply_run_started in *. inv_ok. split; [|done].
      apply projection_inv_insert; [done|by apply started_run_inv].
    - destruct (facts p1 !! key); inv_ok; [done|]. by split. }
  clear Hglob. destruct Hp2 as [Hp2 Hruns]. destruct finished; [by inv_ok|].
  apply bind_Ok in Hok as (r & Hr & Hok). apply ok_or_Ok in Hr.
  apply bind_Ok in Hok as ([] & Hgate & Hok). apply bind_Ok in Hok as (r' & Hr' & Hok).
  inv_ok. apply projection_inv_insert; [done|]. pose proof (Hp2 _ _ Hr) as Hinv.
  assert (Hsr : synced r) by (apply Hsy; by rewrite <-Hruns).
  apply step_run_inv; [|done]. rewrite <-(ri_id _ _ Hinv).
  eapply apply_run_event_ok; [by eapply run_inv_ready|apply Hinv|done..].
Qed.

Lemma projection_inv_empty : projection_inv empty_projection.
Proof. intros rid r. cbn. by rewrite lookup_empty. Qed.

Lemma try_fold_apply_inv evs p p' :
  projection_inv p → (∀ ev, ev ∈ evs → event_material ev) →
  try_fold apply_event p evs = Ok p' → projection_inv p'.
Proof.
  intros Hp Hev Hok. refine (try_fold_inv apply_event (λ _ p, projection_inv p) evs p p' Hp _ Hok).
  intros l ev rest t t' Hl Ht Hstep. eapply apply_event_inv; [done| |done].
  apply Hev. rewrite Hl. set_solver.
Qed.
End ReducerInv.

Section InvVerify.
Context `{Sha256} `{Canonical}.

Lemma any_effect_true p r :
  any_effect p r = true ↔ ∃ i e, effects r !! i = Some e ∧ p e = true.
Proof.
  unfold any_effect. rewrite existsb_exists. setoid_rewrite <-list_elem_of_In.
  setoid_rewrite elem_of_btree_values. naive_solver.
Qed.

Lemma having_nonempty {A} (p : A → bool) m :
  having p m ≠ ∅ ↔ ∃ k a, m !! k = Some a ∧ p a = true.
Proof.
  split.
  - intros (k & Hk)%set_choose_L. apply elem_of_having in Hk. eauto.
  - intros (k & a & Ha & Hp) He. assert (Hin : k ∈ having p m) by (apply elem_of_having; eauto).
    rewrite He in Hin. by apply elem_of_empty in Hin.
Qed.

Lemma class_governance e :
  in_class ClassGovernance e = bool_decide (reconciliation e = GovernanceRequired).
Proof.
  unfold in_class, effect_settlement_class.
  destruct e as [? ? ? ? ? ? ? ? ? ? ? ? ? ? ? ? ph oc rc]. cbn. by destruct rc, oc, ph.
Qed.
Lemma class_unknown e :
  reconciliation e ≠ GovernanceRequired →
  in_class ClassUnknown e = bool_decide (outcome e = Unknown).
Proof.
  unfold in_class, effect_settlement_class.
  destruct e as [? ? ? ? ? ? ? ? ? ? ? ? ? ? ? ? ph oc rc]. cbn. by destruct rc, oc, ph.
Qed.
Lemma class_pending e :
  reconciliation e ≠ GovernanceRequired → outcome e ≠ Unknown →
  in_class ClassPending e
  = bool_decide (phase e ≠ CancelledBeforeRelease) && bool_decide (outcome e = Unobserved).
Proof.
  unfold in_class, effect_settlement_class.
  destruct e as [? ? ? ? ? ? ? ? ? ? ? ? ? ? ? ? ph oc rc]. cbn. by destruct rc, oc, ph.
Qed.

(** The settlement kept by the index is the one derived from the effects. *)
Lemma settlement_spec r : settlement (spec_index r) = derive_world_settlement r.
Proof.
  unfold settlement, derive_world_settlement. cbn [spec_index spec_of governance_effects
    unknown_effects pending_effects].
  assert (Hg : having (in_class ClassGovernance) (effects r) ≠ ∅
    ↔ any_effect (λ e, bool_decide (reconciliation e = GovernanceRequired)) r = true).
  { rewrite having_nonempty, any_effect_true. by setoid_rewrite class_governance. }
  case_decide as Hgov.
  { by rewrite (proj1 Hg Hgov). }
  destruct (any_effect (λ e, bool_decide (reconciliation e = GovernanceRequired)) r) eqn:Hgb;
    [exfalso; exact (proj2 Hg eq_refl Hgov)|].
  assert (Hnog : ∀ i e, effects r !! i = Some e → reconciliation e ≠ GovernanceRequired).
  { intros i e He Hr. rewrite <-not_true_iff_false in Hgb. apply Hgb, any_effect_true.
    exists i, e. split; [done|]. by apply bool_decide_eq_true_2. }
  assert (Hu : having (in_class ClassUnknown) (effects r) ≠ ∅
    ↔ any_effect (λ e, bool_decide (outcome e = Unknown)) r = true).
  { rewrite having_nonempty, any_effect_true.
    split; intros (i & e & He & Hv); exists i, e; (split; [done|]);
      by rewrite class_unknown in * by eauto. }
  case_decide as Hunk.
  { by rewrite (proj1 Hu Hunk). }
  destruct (any_effect (λ e, bool_decide (outcome e = Unknown)) r) eqn:Hub;
    [exfalso; exact (proj2 Hu eq_refl Hunk)|].
  assert (Hnou : ∀ i e, effects r !! i = Some e → outcome e ≠ Unknown).
  { intros i e He Hr. rewrite <-not_true_iff_false in Hub. apply Hub, any_effect_true.
    exists i, e. split; [done|]. by apply bool_decide_eq_true_2. }
  set (pend := λ e : EffectProjection, bool_decide (phase e ≠ CancelledBeforeRelease)
                                       && bool_decide (outcome e = Unobserved)).
  assert (Hp : having (in_class ClassPending) (effects r) ≠ ∅ ↔ any_effect pend r = true).
  { rewrite having_nonempty, any_effect_true. unfold pend.
    split; intros (i & e & He & Hv); exists i, e; (split; [done|]);
      by rewrite class_pending in * by eauto. }
  case_decide as Hpen; [by rewrite (proj1 Hp Hpen)|].
  destruct (any_effect pend r) eqn:Hpb; [exfalso; exact (proj2 Hp eq_refl Hpen)|done].
Qed.

(** ** Loops of the checks *)

Lemma require_true {E} (b : bool) (e : E) : b = true → require b e = Ok ().
Proof. by intros ->. Qed.

Lemma bind_require {E A} (b : bool) (e : E) (f : () → result E A) :
  b = true → (require b e ≫= f) = f ().
Proof. by intros ->. Qed.
Lemma bind_ok {E A B} (m : result E A) (a : A) (f : A → result E B) :
  m = Ok a → (m ≫= f) = f a.
Proof. by intros ->. Qed.

Lemma try_each_all {A} (f : A → core ()) l : (∀ a, a ∈ l → f a = Ok ()) → try_each f l = Ok ().
Proof. by rewrite try_each_Ok. Qed.

Lemma verify_run_numbers_inv D r : core_inv D r → verify_run_numbers r = Ok ().
Proof.
  intros Hc. unfold verify_run_numbers.
  rewrite bind_require by (apply N.leb_le, (lw_epoch _ (ci_lineage _ _ Hc))). cbn.
  apply try_each_all. intros a (aid & Ha)%elem_of_btree_values.
  destruct (aw_each _ _ (ci_attempts _ _ Hc) _ _ Ha) as [_ _ _ _ _ _ Hn [Hf1 Hf2]].
  apply N.ltb_ge in Hn, Hf2. apply N.eqb_neq in Hf1. by rewrite Hn, Hf1, Hf2.
Qed.

Lemma verify_run_settlement_inv rid r : run_inv rid r → verify_run_settlement r = Ok ().
Proof.
  intros [_ _ Hst Hw _]. unfold verify_run_settlement. unfold settled_ok in Hst.
  rewrite settlement_spec in Hst. rewrite Hst, (bool_decide_eq_true_2 (_ = _) eq_refl).
  cbn [require mbind result_bind]. apply require_true. unfold status_wf in Hw. rewrite settlement_spec in Hw.
  destruct (execution_status r); try done. destruct Hw as (_ & _ & ->). done.
Qed.

Lemma walk_ancestors_inv r (rank : string → nat) status fuel seen anc :
  scopes_wf (scopes r) →
  (∀ sid s p, scopes r !! sid = Some s → parent_scope s = Some p → rank p < rank sid) →
  (∀ a, anc = Some a → ∃ s, scopes r !! a = Some s
     ∧ (status = Open → scope_status s = Open) ∧ ∀ k, k ∈ seen → rank a < rank k) →
  seen ⊆ dom (scopes r) → size (scopes r) < fuel + size seen →
  walk_ancestors fuel r status seen anc = Some (Ok ()).
Proof.
  intros Hw Hrank. revert seen anc. induction fuel as [|fuel IH]; intros seen anc Hanc Hsub Hsize.
  { apply subseteq_size in Hsub. rewrite size_dom in Hsub. lia. }
  destruct anc as [a|]; [|done]. cbn.
  destruct (Hanc a eq_refl) as (s & Hs & Hop & Hlt).
  rewrite decide_False by (intros Hin; specialize (Hlt _ Hin); lia). rewrite Hs.
  assert (bool_decide (status = Open) && bool_decide (scope_status s ≠ Open) = false) as ->.
  { case_bool_decide as Ho; [|done]. cbn. apply bool_decide_eq_false_2. intros Hn. by apply Hn, Hop. }
  assert (Hni : a ∉ seen) by (intros Hin; specialize (Hlt _ Hin); lia).
  apply IH.
  - intros p Hp. assert (Hne : a ≠ ROOT_SCOPE_ID).
    { intros ->. destruct (sw_root _ Hw) as (root & Hroot & Hr & _). congruence. }
    destruct (sw_child _ Hw _ _ Hs Hne) as (_ & _ & q & qs & Hq & Hqs & Hqo).
    assert (q = p) as -> by congruence. exists qs. split; [done|]. split; [auto|].
    pose proof (Hrank _ _ _ Hs Hp).
    intros k [->%elem_of_singleton|Hk]%elem_of_union; [done|]. specialize (Hlt _ Hk). lia.
  - intros k [->%elem_of_singleton|Hk]%elem_of_union; [|by apply Hsub]. by apply elem_of_dom.
  - rewrite size_union, size_singleton by set_solver. lia.
Qed.

Lemma verify_one_scope_inv D r sid s :
  core_inv D r → scopes r !! sid = Some s → verify_one_scope r (sid, s) = Ok ().
Proof.
  intros Hc Hs. pose proof (ci_scopes _ _ Hc) as Hw. pose proof (ci_linked _ _ Hc) as Hl.
  pose proof (linked_nodup _ _ Hl _ _ Hs) as Hnd.
  unfold verify_one_scope. rewrite bind_require by (by rewrite (sw_key _ Hw _ _ Hs), bool_decide_eq_true_2).
  cbn beta.
  rewrite bind_require; [|rewrite size_list_to_set, (sw_intents _ Hw _ _ Hs) by done;
    by rewrite !bool_decide_eq_true_2]. cbn beta.
  rewrite try_each_all; cbn beta.
  2: { intros i Hi. destruct (linked_member _ _ Hl _ _ _ Hs Hi) as (e & He & _).
       apply (ew_id _ _ _ (ci_effects _ _ Hc _ _ He)). }
  case_decide as Hne; [done|].
  destruct (sw_child _ Hw _ _ Hs Hne) as (Hsite & Hreg & p & ps & Hp & Hps & Hop).
  destruct (sw_tree _ Hw) as (rank & Hrank). pose proof (Hrank _ _ _ Hs Hp) as Hlt.
  rewrite bind_require by (by rewrite !bool_decide_eq_true_2). cbn beta.
  rewrite Hp. cbn [ok_or mbind result_bind].
  rewrite bind_require; [|rewrite !bool_decide_eq_true_2; [done|by eexists|intros ->; lia]].
  cbn beta.
  rewrite (walk_ancestors_inv _ rank); [done|done|done| | |].
  - intros a [= <-]. exists ps. split; [done|]. split; [done|]. by intros k ->%elem_of_singleton.
  - intros k ->%elem_of_singleton. by apply elem_of_dom.
  - lia.
Qed.

Lemma verify_scope_projection_inv D r : core_inv D r → verify_scope_projection r = Ok ().
Proof.
  intros Hc. pose proof (ci_scopes _ _ Hc) as Hw.
  destruct (sw_root _ Hw) as (root & Hroot & Hp & Hsite & Hpath & Hreg).
  unfold verify_scope_projection. rewrite Hroot. cbn [ok_or mbind result_bind].
  rewrite bind_require; [|by rewrite (sw_key _ Hw _ _ Hroot), Hp, Hsite, Hpath, Hreg].
  cbn beta. apply try_each_all. intros [sid s] Hs%elem_of_btree_list.
  by eapply verify_one_scope_inv.
Qed.

Lemma verify_effect_projection_inv D r : core_inv D r → verify_effect_projection r = Ok ().
Proof.
  intros Hc. pose proof (ci_scopes _ _ Hc) as Hw. pose proof (ci_linked _ _ Hc) as Hl.
  unfold verify_effect_projection.
  rewrite (bind_ok (try_each (verify_one_effect r) _) ()).
  - apply try_each_all. intros s (sid & Hs)%elem_of_btree_values.
    apply try_each_all. intros i. rewrite elem_of_btree_elements, (sw_intents _ Hw _ _ Hs).
    intros Hi%elem_of_list_to_set. destruct (linked_member _ _ Hl _ _ _ Hs Hi) as (e & He & Hsid).
    rewrite He. cbn. by rewrite Hsid, (sw_key _ Hw _ _ Hs), require_true by by apply bool_decide_eq_true_2.
  - apply try_each_all. intros [i e] He%elem_of_btree_list. destruct (ci_effects _ _ Hc _ _ He) as [_ Ha Hb Hk Hleg Hsl].
    destruct (linked_scope _ _ Hl _ _ He) as (s & Hs & Hi).
    unfold verify_one_effect. rewrite (linked_id _ _ Hl _ _ He), bind_require by by apply bool_decide_eq_true_2.
    cbn beta. rewrite Hs. cbn [ok_or mbind result_bind].
    rewrite bind_require.
    2: { rewrite (sw_intents _ Hw _ _ Hs). by apply bool_decide_eq_true_2, elem_of_list_to_set. }
    cbn beta. rewrite (bind_ok _ () _ Ha), (bind_ok _ () _ Hb).
    rewrite bind_require by by apply bool_decide_eq_true_2. cbn beta.
    unfold verify_effect_reducer_state. rewrite bind_require by done. cbn beta.
    apply require_true. by apply Hsl.
Qed.

(** The obligations recomputed from the effects are the recorded ones. *)
Lemma verify_obligation_projection_inv r : core_inv ∅ r → verify_obligation_projection r = Ok ().
Proof.
  intros Hc. pose proof (ci_linked _ _ Hc) as Hl.
  destruct (ci_obligations _ _ Hc) as [Ho Hoe].
  assert (Hexact : ∀ i e oid, effects r !! i = Some e → is_mutating e = true →
    committed_in (scopes r) e = true → effect_obligation_id i = Ok oid →
    obligations r !! oid = Some {| obligation_id := oid; obligation_intent_id := i;
                                   blocking := true; resolved := effect_done e |}).
  { intros i e oid He Hm Hcm Hid. destruct (Hoe _ _ He Hm Hcm) as (oid' & o & Hid' & Hoid & Hint).
    assert (oid' = oid) as -> by congruence. rewrite Hoid. f_equal.
    destruct (Ho _ _ Hoid) as (Hkey & Hbl & _ & e' & He' & _ & _ & Hres).
    rewrite Hint in He'. assert (e' = e) as -> by congruence.
    rewrite Hint in Hres. specialize (Hres ltac:(set_solver)). destruct o. cbn in *. congruence. }
  unfold verify_obligation_projection.
  destruct (btree_values_total intent_id (expected_obligation r)
    (λ m t, t ⊆ obligations r ∧ ∀ i e oid, m !! i = Some e → is_mutating e = true →
       committed_in (scopes r) e = true → effect_obligation_id i = Ok oid → is_Some (t !! oid))
    (effects r) ∅) as (t & Ht & Hsub & Hall).
  - intros i e He. by apply (linked_id _ _ Hl).
  - split; [apply map_empty_subseteq|]. intros ? ? ? Hn. by rewrite lookup_empty in Hn.
  - intros m e t Hm Hni He [Hsub Hall].
    destruct (linked_scope _ _ Hl _ _ He) as (s & Hs & _).
    unfold expected_obligation. rewrite Hs. cbn [ok_or mbind result_bind].
    fold (is_mutating e).
    assert (Hcm : bool_decide (scope_status s = ClosedCommitted) = committed_in (scopes r) e).
    { unfold committed_in. by rewrite Hs. }
    rewrite Hcm. destruct (is_mutating e && committed_in (scopes r) e) eqn:Hb.
    + apply andb_true_iff in Hb as [Hmut Hc']. destruct (Hoe _ _ He Hmut Hc') as (oid & o & Hid & Hoid & Hint).
      rewrite Hid. cbn beta. eexists. split; [done|]. split.
      * apply insert_subseteq_l; [|done]. by apply Hexact.
      * intros j b oid'. destruct (decide (j = intent_id e)) as [->|].
        -- rewrite lookup_insert_eq. intros [= <-] _ _ Hid'. assert (oid' = oid) as -> by congruence.
           rewrite lookup_insert_eq. eauto.
        -- rewrite lookup_insert_ne by done. intros Hj Hjm Hjc Hjd.
           apply lookup_insert_is_Some'. right. by eapply Hall.
    + eexists. split; [done|]. split; [done|]. intros j b oid.
      destruct (decide (j = intent_id e)) as [->|]; [|by rewrite lookup_insert_ne; eauto].
      rewrite lookup_insert_eq. intros [= <-] Hm' Hc'. by rewrite Hm', Hc' in Hb.
  - rewrite Ht. cbn beta. apply require_true, bool_decide_eq_true_2.
    apply map_eq. intros oid. destruct (obligations r !! oid) as [o|] eqn:Hoid.
    + destruct (Ho _ _ Hoid) as (_ & _ & Hid & e & He & Hm & Hcm & _).
      destruct (Hall _ _ _ He Hm Hcm Hid) as [o' Ho']. rewrite Ho'.
      pose proof (lookup_weaken _ _ _ _ Ho' Hsub). congruence.
    + destruct (t !! oid) as [o'|] eqn:Ho'; [|done].
      pose proof (lookup_weaken _ _ _ _ Ho' Hsub). congruence.
Qed.

Lemma verify_lineage_inv D r : core_inv D r → verify_lineage r = Ok ().
Proof.
  intros Hc. destruct (ci_lineage _ _ Hc) as [Hph Hpl Hbh Hbl Hev _ _].
  unfold verify_lineage. apply require_true. rewrite Hph, Hpl, Hbh, Hbl.
  rewrite !bool_decide_eq_true_2; try done; intros Hn.
  - by rewrite Hn in Hbh.
  - by rewrite Hn in Hph.
Qed.

(** The attempt loop counts the active attempts: at most one. *)
Lemma verify_attempts_inv D r :
  core_inv D r →
  ∃ n, verify_attempts r = Ok n ∧ n ≤ 1 ∧ (n = 1 → having active (attempts r) ≠ ∅).
Proof.
  intros Hc. destruct (ci_attempts _ _ Hc) as [Hat Hone]. unfold verify_attempts.
  pose proof (btree_list_NoDup_keys (attempts r)) as Hnd.
  destruct (try_fold_total (λ n kv,
    let '(aid, a) := (kv : string * AttemptProjection) in
    _ ← validate_content_id aid;
    _ ← validate_content_id (continuation_id a);
    _ ← validate_content_id (occurrence_binding a);
    _ ← require (bool_decide (aid = attempt_id a)
                 && (continuation_epoch a <=? epoch r)%N
                 && negb (active a && bool_decide (continuation_epoch a ≠ epoch r))) Validation;
    Ok (n + if active a then 1 else 0))
    (λ l n, (n = 0 ∧ ∀ kv, kv ∈ l → active kv.2 = false)
            ∨ (n = 1 ∧ ∃ kv, kv ∈ l ∧ active kv.2 = true))
    (btree_list (attempts r)) 0) as (n & Hn & Hcount).
  - left. split; [done|]. by intros ? ?%elem_of_nil.
  - intros l [aid a] rest n Hl Hcount.
    assert (Hmem : ∀ k b, (k, b) ∈ l ++ (aid, a) :: rest → attempts r !! k = Some b).
    { intros k b Hk. rewrite <-Hl in Hk. by apply elem_of_btree_list. }
    assert (Ha : attempts r !! aid = Some a) by (apply Hmem; set_solver).
    destruct (Hat _ _ Ha) as [Hid Hc1 Hc2 Hc3 Hep Hcur _ _].
    rewrite (bind_ok _ () _ Hc1), (bind_ok _ () _ Hc2), (bind_ok _ () _ Hc3).
    rewrite bind_require.
    2: { rewrite Hid, (bool_decide_eq_true_2 (_ = _) eq_refl), (proj2 (N.leb_le _ _) Hep). cbn.
         destruct (active a) eqn:Hact; [|done]. cbn. rewrite bool_decide_eq_false_2; [done|].
         intros Hne. by apply Hne, Hcur. }
    eexists. split; [done|]. destruct (active a) eqn:Hact.
    + right. destruct Hcount as [[-> _]|[_ ([k b] & Hk & Hb)]].
      * split; [done|]. exists (aid, a). split; [set_solver|done].
      * exfalso. cbn in Hb. assert (k = aid) as ->.
        { eapply Hone; [|exact Ha|exact Hb|exact Hact]. apply Hmem. set_solver. }
        rewrite Hl, fmap_app in Hnd. apply NoDup_app in Hnd as (_ & Hdis & _).
        apply (Hdis aid); [|by left]. apply list_elem_of_fmap. by exists (aid, b).
    + rewrite Nat.add_0_r. destruct Hcount as [[-> Hno]|[-> (kv & Hk & Hb)]].
      * left. split; [done|]. intros kv [Hk|Hk%list_elem_of_singleton]%elem_of_app; [auto|by subst].
      * right. split; [done|]. exists kv. split; [set_solver|done].
  - exists n. split; [exact Hn|]. destruct Hcount as [[-> _]|[-> ([k a] & Hk & Ha)]].
    + split; [lia|]. done.
    + split; [lia|]. intros _. apply having_nonempty. exists k, a.
      by rewrite <-elem_of_btree_list.
Qed.

Lemma no_open_existsb r :
  no_open r → existsb (λ s, bool_decide (scope_status s = Open)) (btree_values (scopes r)) = false.
Proof.
  intros Hno. apply not_true_iff_false. rewrite existsb_exists. intros (s & Hs & Ho).
  apply list_elem_of_In, elem_of_btree_values in Hs as [sid Hs].
  assert (Hin : sid ∈ having scope_is_open (scopes r)) by (apply elem_of_having; eauto).
  rewrite Hno in Hin. by apply elem_of_empty in Hin.
Qed.

Lemma verify_terminal_run_inv r :
  core_inv ∅ r → settled_ok r → terminal_wf r → verify_terminal_run r false false = Ok ().
Proof.
  intros Hc Hst [He Hres Hact Hop Hat Hef]. unfold verify_terminal_run.
  apply N.eqb_neq in He. rewrite He, Hres.
  assert (Hnt : ∀ i e, effects r !! i = Some e → needs_terminal_transition e = false).
  { intros i e Hi. destruct (needs_terminal_transition e) eqn:Hn; [|done].
    assert (Hin : i ∈ having needs_terminal_transition (effects r)) by (apply elem_of_having; eauto).
    rewrite Hef in Hin. by apply elem_of_empty in Hin. }
  assert (bool_decide (world_settlement r = SettlementPending) = false) as ->.
  { apply bool_decide_eq_false_2. rewrite Hst, settlement_spec. unfold derive_world_settlement.
    destruct (any_effect _ r); [done|]. destruct (any_effect _ r); [done|].
    destruct (any_effect _ r) eqn:Hp; [|done]. exfalso.
    apply any_effect_true in Hp as (i & e & Hi & Hp). specialize (Hnt _ _ Hi). to_prop.
    unfold needs_terminal_transition in Hnt. to_prop.
    destruct (phase e), (outcome e); naive_solver. }
  assert (existsb (λ a, (epoch r <=? continuation_epoch a)%N) (btree_values (attempts r)) = false) as ->.
  { apply not_true_iff_false. rewrite existsb_exists. intros (a & Ha & Hle).
    apply list_elem_of_In, elem_of_btree_values in Ha as [aid Ha]. apply N.leb_le in Hle.
    specialize (Hat _ _ Ha). lia. }
  assert (any_effect (λ e, negb (terminal_effect_state e)) r = false) as ->; [|done].
  apply not_true_iff_false. rewrite any_effect_true. intros (i & e & Hi & Hn).
  specialize (Hnt _ _ Hi). pose proof (ew_legal _ _ _ (ci_effects _ _ Hc _ _ Hi)) as Hl.
  by legal_cases e Hl.
Qed.

Lemma verify_one_run_inv rid r : run_inv rid r → verify_one_run (rid, r) = Ok ().
Proof.
  intros [Hid Hc Hst Hw _]. unfold verify_one_run.
  rewrite bind_require by (by rewrite Hid, bool_decide_eq_true_2).
  rewrite (bind_ok _ () _ (verify_lineage_inv _ _ Hc)).
  rewrite (bind_ok (match run_result r with _ => _ end) ()).
  2: { destruct (run_result r) as [a|] eqn:Hr; [|done]. by apply (lw_result _ (ci_lineage _ _ Hc)). }
  rewrite (bind_ok _ () _ (verify_scope_projection_inv _ _ Hc)).
  rewrite (bind_ok _ () _ (verify_effect_projection_inv _ _ Hc)).
  rewrite (bind_ok _ () _ (verify_obligation_projection_inv _ Hc)).
  destruct (verify_attempts_inv _ _ Hc) as (n & Hn & Hle & Hone).
  rewrite (bind_ok _ n _ Hn), bind_require by by apply Nat.leb_le.
  unfold verify_status. unfold status_wf in Hw.
  assert (Hzero : no_active r → bool_decide (n = 1) = false).
  { intros Hna. apply bool_decide_eq_false_2. intros ->. by apply Hone. }
  destruct (execution_status r) as [| |f|reason].
  - rewrite Hw. by apply require_true, bool_decide_eq_true_2.
  - destruct Hw as (Hna & Hno & _). by rewrite Hzero, no_open_existsb.
  - destruct Hw as [Hf Ht]. rewrite (bind_ok _ () _ Hf), Hzero, no_open_existsb by apply Ht.
    by apply verify_terminal_run_inv.
  - destruct Hw as [Hf Ht]. rewrite (bind_ok _ () _ Hf), Hzero, no_open_existsb by apply Ht.
    by apply verify_terminal_run_inv.
Qed.

Lemma projection_inv_verified p : projection_inv p → verify_reducer_invariants p = Ok ().
Proof.
  intros Hp. unfold verify_reducer_invariants.
  rewrite (bind_ok (verify_execution_numbers p) ()).
  2: { apply try_each_all. intros r (rid & Hr)%elem_of_btree_values.
       eapply verify_run_numbers_inv, Hp, Hr. }
  rewrite (bind_ok (verify_world_settlement_invariants p) ()).
  2: { apply try_each_all. intros r (rid & Hr)%elem_of_btree_values.
       eapply verify_run_settlement_inv, Hp, Hr. }
  apply try_each_all. intros [rid r] Hr%elem_of_btree_list. by apply verify_one_run_inv, Hp.
Qed.

Lemma projection_inv_indexed p : projection_inv p → verify_derived_indexes p = Ok ().
Proof.
  intros Hp. apply try_each_all. intros r (rid & Hr)%elem_of_btree_values.
  destruct (Hp _ _ Hr) as [_ Hc _ _ Hsy]. destruct (initialized (derived r)) eqn:Hi; [|done].
  rewrite rebuild_spec by by eapply core_indexable. cbn.
  apply require_true, bool_decide_eq_true_2. by apply Hsy.
Qed.
End InvVerify.
