(* ===== verification/MachineInv.v ===== *)
(** * The machine invariant

    What every submission preserves: the projection satisfies its invariant
    and is the replay of the whole history, compacted and retained, the
    retained plans are verified, and the projection root is the hash chain over
    the history. *)

From S2P Require Import Prelude KeyIndex Identity CommandIndex Canonical Graph Ir IrFacts Model.
From S2P Require Import Events Chain Machine Location Effects DerivedIndex IndexSpec Reducer.
From S2P Require Import Verify Authority Admission Submit RunInv RunSteps Terminate ReducerInv.

Section MachineInv.
Context `{Sha256} `{Canonical} `{!MachineSerialize} `{SchemaCompiler} `{PlanCodec}
  `{!ValueSerialize}.

(** ** Verified plans *)

Definition plans_verified (m : Machine) : Prop :=
  ∀ pid p, plans m !! pid = Some p → SealedPlan_verify p = Ok () ∧ plan_id p = pid.

Lemma sealed_plan_admitted p : SealedPlan_verify p = Ok () → admitted (candidate p).
Proof. unfold SealedPlan_verify. intros Hv. inv_ok. by apply validate_admitted. Qed.

Lemma plan_contract_dispatch m pid op c :
  plans_verified m → effect_contract m pid op = Ok c →
  dispatch (contract_profile c) = Eager → mutation (contract_profile c) = Observational.
Proof.
  intros Hp Hc Hd. unfold effect_contract in Hc. apply ok_or_Ok in Hc.
  destruct (plans m !! pid) as [p|] eqn:Hpid; [|done]. cbn in Hc.
  apply fmap_Some in Hc as ([i c'] & Hf & ->). apply list_find_Some in Hf as (Hl & _ & _).
  destruct (Hp _ _ Hpid) as [Hv _]. apply sealed_plan_admitted in Hv.
  pose proof (admitted_effects _ Hv c' (list_elem_of_lookup_2 _ _ _ Hl)) as He.
  unfold validate_effect_contract in He. inv_ok. to_prop.
  cbn in Hd. destruct (mutation (contract_profile c')) eqn:Hm; [done|]. naive_solver.
Qed.

(** An authorised event carries the material the reducer relies on. *)
Lemma Event_verify_id ev : Event_verify ev = Ok () → event_id ev ≠ EmptyString.
Proof.
  unfold Event_verify. intros Hv. inv_ok. to_prop. intros He.
  match goal with Hid : event_preimage_id _ _ _ _ _ _ _ _ _ = Ok ?x |- _ =>
    unfold event_preimage_id in Hid; apply content_id_is_valid in Hid; subst end.
  by rewrite He in *.
Qed.

Lemma authorised_material m ev pending :
  plans_verified m → validate_new_event_with_pending m ev pending = Ok () → event_material ev.
Proof.
  intros Hp Hv. unfold validate_new_event_with_pending in Hv. inv_ok.
  split; [by apply Event_verify_id|].
  match goal with Hev : Event_verify ev = Ok () |- _ =>
    unfold Event_verify in Hev; inv_ok; clear Hev || idtac end.
  unfold validate_event_authority in *. inv_ok.
  unfold payload_material, verify_payload, validate_payload_material, validate_scope_open,
    validate_effect_proposal in *.
  destruct (payload ev) as [| | | | | | | | | | | |res| |]; try done; inv_ok.
  - by split_and!.
  - intros ->. done.
  - split; [done|]. destruct (step_operation _); try done. inv_ok. to_prop. subst.
    by eapply plan_contract_dispatch.
  - by destruct res.
Qed.
(** ** The event log *)

Definition event_ok (ev : Event) : Prop :=
  Event_verify ev = Ok () ∧ verify_event_footprint ev = Ok () ∧ event_material ev.

(** Every parent of an event is an earlier event. *)
Definition causally_ordered (evs : list Event) : Prop :=
  ∀ pre ev post parent, evs = pre ++ ev :: post → parent ∈ parents ev →
    parent ∈ event_id <$> pre.

Definition root_step (root : string) (ev : Event) : core string :=
  canonical_digest (PreProjectionRoot root (event_id ev)).
Definition root_of (evs : list Event) : core string :=
  root ← canonical_digest PreProjectionGenesis; try_fold root_step root evs.

(** The base of a machine is the state after the compacted events. *)
Definition base_of (b : option MachineBase) (pre : list Event) : Prop :=
  match b with
  | None => pre = []
  | Some b =>
      replay_events pre = Ok (base_projection b) ∧ root_of pre = Ok (base_projection_root b)
      ∧ Machine.archive_event_count b = N.of_nat (length pre)
  end.

(** The history is the compacted events [pre] and the retained events [evs]:
    the projection is its replay and the root is the hash chain over it. *)
Record log_of (m : Machine) (pre evs : list Event) : Prop := {
  lo_order : event_order m = event_id <$> evs;
  lo_replay : replay_events (pre ++ evs) = Ok (projection m);
  lo_root : root_of (pre ++ evs) = Ok (projection_root (authority m));
  lo_events : Forall event_ok (pre ++ evs);
  lo_causal : causally_ordered (pre ++ evs);
  lo_domain : ∀ i, is_Some (events m !! i) ↔ i ∈ event_order m;
  lo_lookup : NoDup (event_order m) → ∀ ev, ev ∈ evs → events m !! event_id ev = Some ev;
  lo_base : base_of (base m) pre;
  lo_compacted : ∀ i, i ∈ compacted_event_ids m → i ∈ event_id <$> pre;
}.
Record machine_inv (m : Machine) : Prop := {
  mi_plans : plans_verified m;
  mi_projection : projection_inv (projection m);
  mi_log : ∃ pre evs, log_of m pre evs;
}.

(** ** Applying a batch *)

Lemma set_projection_id m : Machine.set_projection (projection m) m = m.
Proof. by destruct m. Qed.

Lemma causality_parents m ev pending parent :
  validate_causality m ev pending = Ok () → parent ∈ parents ev →
  is_Some (events m !! parent) ∨ parent ∈ compacted_event_ids m ∨ parent ∈ pending.
Proof.
  unfold validate_causality. intros Hc Hp. apply bind_Ok in Hc as ([] & Hc & _).
  rewrite try_each_Ok in Hc. specialize (Hc _ Hp). cbn in Hc.
  destruct (decide (is_Some (events m !! parent))); [by left|right].
  destruct (decide (parent ∈ compacted_event_ids m)); [by left|right].
  rewrite !bool_decide_eq_false_2 in Hc by done. cbn in Hc.
  destruct (decide (parent ∈ pending)) as [|Hn]; [done|].
  by rewrite bool_decide_eq_false_2 in Hc by done.
Qed.

(** What the processed prefix of a batch has established. *)
Record batch_prefix (m : Machine) (done : list Event) (st : Machine * string * gset string)
    : Prop := {
  bp_machine : st.1.1 = Machine.set_projection (projection st.1.1) m;
  bp_projection : projection_inv (projection st.1.1);
  bp_replay : try_fold apply_event (projection m) done = Ok (projection st.1.1);
  bp_root : try_fold root_step (projection_root (authority m)) done = Ok st.1.2;
  bp_pending : st.2 = list_to_set (event_id <$> done);
  bp_events : Forall event_ok done;
  bp_new : ∀ ev, ev ∈ done → events m !! event_id ev = None;
  bp_causal : ∀ pre ev post parent, done = pre ++ ev :: post → parent ∈ parents ev →
    is_Some (events m !! parent) ∨ parent ∈ compacted_event_ids m ∨ parent ∈ event_id <$> pre;
}.

Lemma batch_prefix_step m don st ev st' :
  plans_verified m → batch_prefix m don st → apply_batch_event st ev = Ok st' →
  batch_prefix m (don ++ [ev]) st'.
Proof.
  intros Hp [Hm Hpi Hre Hro Hpe Hev Hnew Hca] Hstep. destruct st as [[mc root] pending]. cbn in *.
  apply bind_Ok in Hstep as ([] & Hv & Hstep). apply bind_Ok in Hstep as (p' & Hap & Hstep).
  apply bind_Ok in Hstep as ([] & Hfoot & Hstep). apply bind_Ok in Hstep as (root' & Hroot & Hstep).
  injection Hstep as <-. set (pm := projection mc) in *. clearbody pm. subst mc.
  assert (Hmat : event_material ev)
    by exact (authorised_material (Machine.set_projection pm m) ev pending Hp Hv).
  unfold validate_new_event_with_pending in Hv. apply bind_Ok in Hv as ([] & Hver & Hv).
  apply bind_Ok in Hv as ([] & _ & Hv). apply bind_Ok in Hv as ([] & Hfresh & Hv).
  apply bind_Ok in Hv as ([] & Hcaus & _). split; cbn.
  - done.
  - by eapply apply_event_inv.
  - rewrite try_fold_app, Hre. cbn. by rewrite Hap.
  - rewrite try_fold_app, Hro. cbn. unfold root_step. by rewrite Hroot.
  - rewrite fmap_app, list_to_set_app_L. cbn. rewrite Hpe. set_solver.
  - apply Forall_app. split; [done|]. constructor; [by split_and!|constructor].
  - intros e [He| ->%list_elem_of_singleton]%elem_of_app; [by apply Hnew|].
    apply require_Ok, bool_decide_eq_true in Hfresh. exact Hfresh.
  - intros pre e post parent Heq Hpar. destruct post as [|x post _] using rev_ind.
    + apply app_inj_tail in Heq as [-> ->].
      destruct (causality_parents _ _ _ _ Hcaus Hpar) as [?|[?|Hin]]; [by left|right; by left|].
      right. right. subst pending. by apply elem_of_list_to_set in Hin.
    + rewrite app_comm_cons, app_assoc in Heq. apply app_inj_tail in Heq as [Heq _].
      by eapply Hca.
Qed.

Lemma apply_batch_spec m evs m' root :
  plans_verified m → projection_inv (projection m) →
  apply_command_event_batch m evs = Ok (m', root) → ∃ pending, batch_prefix m evs (m', root, pending).
Proof.
  intros Hp Hpi Hok. unfold apply_command_event_batch in Hok.
  apply bind_Ok in Hok as ([mr pending] & Hf & Hok). injection Hok as Hmr. cbn in Hmr. subst mr.
  exists pending. refine (try_fold_inv _ (batch_prefix m) _ _ _ _ _ Hf).
  - split; cbn; try done; [by rewrite set_projection_id|intros ? ?%elem_of_nil; done|].
    intros pre e post parent Heq. by destruct pre.
  - intros don ev rest t t' _ Ht Hs. by eapply batch_prefix_step.
Qed.
(** ** Operations that leave the log alone *)

Record same_log (m m' : Machine) : Prop := {
  sl_projection : projection m' = projection m;
  sl_events : events m' = events m;
  sl_order : event_order m' = event_order m;
  sl_compacted : compacted_event_ids m' = compacted_event_ids m;
  sl_base : base m' = base m;
  sl_root : projection_root (authority m') = projection_root (authority m);
}.
#[export] Instance same_log_preorder : PreOrder same_log.
Proof. split; [by split|]. intros a b c [] []. split; congruence. Qed.

Lemma log_of_same m m' pre evs : same_log m m' → log_of m pre evs → log_of m' pre evs.
Proof. intros [He1 He2 He3 He4 He5 He6] []. split; rewrite ?He1, ?He2, ?He3, ?He4, ?He5, ?He6; done. Qed.

(** [m'] retains the log of [m], and verified plans if [m] does. *)
Definition material_step (m m' : Machine) : Prop :=
  same_log m m' ∧ (plans_verified m → plans_verified m').
#[export] Instance material_step_preorder : PreOrder material_step.
Proof.
  split; [by split|]. intros a b c [? ?] [? ?]. split; [by etrans|]. auto.
Qed.

Lemma retain_plan_step m p m' : retain_plan m p = Ok m' → material_step m m'.
Proof.
  unfold retain_plan. intros Hr. apply bind_Ok in Hr as ([] & Hv & Hr).
  destruct (plans m !! plan_id p) eqn:Hl; inv_ok; [done|]. split; [by split|].
  intros Hp pid q. cbn. destruct (decide (pid = plan_id p)) as [->|].
  - rewrite lookup_insert_eq. by intros [= <-].
  - rewrite lookup_insert_ne by done. apply Hp.
Qed.
Lemma retain_artifact_step m a m' : retain_artifact m a = Ok m' → material_step m m'.
Proof.
  unfold retain_artifact. intros Hr. apply bind_Ok in Hr as ([] & Hv & Hr).
  destruct (artifacts m !! artifact_id (reference a)) eqn:Hl; inv_ok; [done|]. by split; [split|].
Qed.
Lemma try_fold_step {A} (f : Machine → A → core Machine) l m m' :
  (∀ m a m', f m a = Ok m' → material_step m m') → try_fold f m l = Ok m' → material_step m m'.
Proof.
  intros Hf Hok. refine (try_fold_inv f (λ _ m', material_step m m') l m m' _ _ Hok); [done|].
  intros ? ? ? t t' _ Ht Hs. etrans; [exact Ht|]. by eapply Hf.
Qed.
Lemma foldl_step {A} (f : Machine → A → Machine) l m :
  (∀ m a, material_step m (f m a)) → material_step m (foldl f m l).
Proof.
  intros Hf. revert m. induction l as [|a l IH]; intros m; [done|]. cbn. etrans; [apply Hf|apply IH].
Qed.

Lemma admit_staged_step m c m' : admit_staged_command_material m c = Ok m' → material_step m m'.
Proof.
  unfold admit_staged_command_material. intros Ha. apply bind_Ok in Ha as ([pids refs] & _ & Ha).
  apply bind_Ok in Ha as ([] & _ & Ha). apply bind_Ok in Ha as (records & _ & Ha).
  apply bind_Ok in Ha as (m1 & H1' & Ha). apply bind_Ok in Ha as (m2 & H2' & Ha).
  injection Ha as <-. etrans; [by eapply try_fold_step, H1'; apply retain_plan_step|].
  etrans; [by eapply try_fold_step, H2'; apply retain_artifact_step|].
  etrans; (eapply foldl_step; intros; by split; [split|]).
Qed.

Lemma insert_batch_step m b m' : insert_batch m b = Ok m' → material_step m m'.
Proof.
  unfold insert_batch. intros Hi. apply bind_Ok in Hi as ([] & _ & Hi).
  destruct (batches m !! br_batch_id b); inv_ok; [done|]. by split; [split|].
Qed.
Lemma finalize_step m root r a m' :
  finalize_single_batch_authority m root r a = Ok m' → material_step m m'.
Proof.
  unfold finalize_single_batch_authority. intros Hf. inv_ok.
  etrans; [|by eapply insert_batch_step]. by split; [split|].
Qed.
Lemma record_command_step m r proof : material_step m (record_command m r proof).
Proof. by split; [split|]. Qed.

Lemma machine_inv_step m m' : material_step m m' → machine_inv m → machine_inv m'.
Proof.
  intros [Hs Hp] [? ? (pre & evs & Hl)]. split; [by apply Hp|by rewrite (sl_projection _ _ Hs)|].
  exists pre, evs. by eapply log_of_same.
Qed.

(** ** The log after an applied batch *)

Lemma foldl_append_fields m evs :
  let m' := foldl append_event m evs in
  event_order m' = event_order m ++ (event_id <$> evs) ∧ projection m' = projection m
  ∧ authority m' = authority m ∧ plans m' = plans m ∧ base m' = base m
  ∧ compacted_event_ids m' = compacted_event_ids m
  ∧ events m' = foldl (λ es ev, <[event_id ev := ev]> es) (events m) evs.
Proof.
  revert m. induction evs as [|ev evs IH]; intros m; cbn; [by rewrite app_nil_r|].
  destruct (IH (append_event m ev)) as (-> & -> & -> & -> & -> & -> & ->). cbn.
  by rewrite <-app_assoc.
Qed.
Lemma foldl_insert_domain (evs : list Event) (es : gmap string Event) i :
  is_Some (foldl (λ es ev, <[event_id ev := ev]> es) es evs !! i) ↔
  is_Some (es !! i) ∨ i ∈ event_id <$> evs.
Proof.
  revert es. induction evs as [|ev evs IH]; intros es; cbn.
  - split; [by left|]. by intros [?|?%elem_of_nil].
  - rewrite IH, lookup_insert_is_Some', elem_of_cons. naive_solver.
Qed.
Lemma foldl_insert_other (evs : list Event) (es : gmap string Event) i :
  i ∉ event_id <$> evs → foldl (λ es ev, <[event_id ev := ev]> es) es evs !! i = es !! i.
Proof.
  revert es. induction evs as [|ev evs IH]; intros es; cbn; [done|].
  rewrite not_elem_of_cons. intros [? ?]. by rewrite IH, lookup_insert_ne.
Qed.
Lemma foldl_insert_lookup (evs : list Event) (es : gmap string Event) ev :
  NoDup (event_id <$> evs) → ev ∈ evs →
  foldl (λ es ev, <[event_id ev := ev]> es) es evs !! event_id ev = Some ev.
Proof.
  revert es. induction evs as [|x evs IH]; intros es Hnd Hin; [by apply elem_of_nil in Hin|].
  cbn in *. apply NoDup_cons in Hnd as [Hx Hnd]. apply elem_of_cons in Hin as [->|Hin]; [|by apply IH].
  by rewrite foldl_insert_other, lookup_insert_eq.
Qed.

Lemma causal_extend m old evs new :
  log_of m old evs →
  (∀ pre ev post parent, new = pre ++ ev :: post → parent ∈ parents ev →
    is_Some (events m !! parent) ∨ parent ∈ compacted_event_ids m ∨ parent ∈ event_id <$> pre) →
  causally_ordered ((old ++ evs) ++ new).
Proof.
  intros Hl Hnew pre ev post parent Heq Hpar.
  assert (Hn : ∀ k, new = k ++ ev :: post → parent ∈ event_id <$> ((old ++ evs) ++ k)).
  { intros k Hk. rewrite !fmap_app, !elem_of_app. destruct (Hnew _ _ _ _ Hk Hpar) as [Hs|[Hs|Hs]].
    - left. right. apply (lo_domain _ _ _ Hl) in Hs. by rewrite <-(lo_order _ _ _ Hl).
    - left. left. by apply (lo_compacted _ _ _ Hl).
    - by right. }
  apply app_eq_inv in Heq as [(k & Hk & Hpost)|(k & -> & Hpost)]; [|by apply Hn].
  destruct k as [|e k]; cbn in Hpost.
  - rewrite app_nil_r in Hk. subst pre. rewrite <-(app_nil_r (old ++ evs)). by apply Hn.
  - injection Hpost as <- _. eapply (lo_causal _ _ _ Hl); [exact Hk|exact Hpar].
Qed.

(** Recording an applied batch appends it to the log. *)
Lemma log_extend m old evs m2 after pending new :
  log_of m old evs → batch_prefix m new (m2, after, pending) →
  log_of (foldl append_event (set_authority (set_projection_root after (authority m2)) m2) new)
    old (evs ++ new).
Proof.
  intros Hl [Hm Hpi Hre Hro Hpe Hev Hnew Hca]. cbn in *.
  set (m3 := set_authority _ m2).
  destruct (foldl_append_fields m3 new) as (Ho & Hp & Ha & _ & Hb & Hc & He). cbn in *.
  rewrite Hm in Ho, Hb, Hc, He. cbn in Ho, Hb, Hc, He. split; rewrite ?(assoc_L (++)).
  - by rewrite Ho, (lo_order _ _ _ Hl), fmap_app.
  - rewrite Hp. unfold replay_events. rewrite try_fold_app.
    pose proof (lo_replay _ _ _ Hl) as Hr. unfold replay_events in Hr. by rewrite Hr.
  - rewrite Ha. cbn. pose proof (lo_root _ _ _ Hl) as Hr. unfold root_of in *.
    destruct (canonical_digest PreProjectionGenesis); [|done]. cbn [mbind result_bind] in *.
    by rewrite try_fold_app, Hr.
  - apply Forall_app. by split; [apply (lo_events _ _ _ Hl)|].
  - eapply causal_extend; [done|]. exact Hca.
  - intros i. rewrite He, foldl_insert_domain, Ho, elem_of_app. by rewrite (lo_domain _ _ _ Hl).
  - rewrite Ho. intros (Hnd1 & Hdis & Hnd2)%NoDup_app ev [Hin|Hin]%elem_of_app; rewrite He.
    + rewrite foldl_insert_other; [by apply (lo_lookup _ _ _ Hl)|]. apply Hdis.
      rewrite (lo_order _ _ _ Hl). by apply list_elem_of_fmap_2.
    + by apply foldl_insert_lookup.
  - rewrite Hb. apply Hl.
  - rewrite Hc. apply Hl.
Qed.

Lemma submit_applied_inv m env hash bid parent proof m' r :
  machine_inv m → submit_applied_single_command m env hash bid parent proof = Ok (m', r) →
  machine_inv m'.
Proof.
  intros [Hp Hpi (old & evs & Hl)] Hs. unfold submit_applied_single_command in Hs.
  apply bind_Ok in Hs as (new & _ & Hs). apply bind_Ok in Hs as ([m2 after] & Hap & Hs).
  apply bind_Ok in Hs as (a & _ & Hs). apply bind_Ok in Hs as (m4 & Hf & Hs). injection Hs as <- _.
  destruct (apply_batch_spec _ _ _ _ Hp Hpi Hap) as (pending & Hb).
  eapply machine_inv_step; [apply record_command_step|].
  eapply machine_inv_step; [by eapply finalize_step|].
  pose proof (log_extend _ _ _ _ _ _ _ Hl Hb) as Hlog. split; [| |by eauto].
  - match goal with |- plans_verified (foldl append_event ?m3 new) =>
      destruct (foldl_append_fields m3 new) as (_ & _ & _ & Hpl & _) end.
    unfold plans_verified. rewrite Hpl. cbn. pose proof (bp_machine _ _ _ Hb) as Hm. cbn in Hm.
    rewrite Hm. exact Hp.
  - match goal with |- projection_inv (projection (foldl append_event ?m3 new)) =>
      destruct (foldl_append_fields m3 new) as (_ & Hpr & _) end.
    rewrite Hpr. exact (bp_projection _ _ _ Hb).
Qed.

(** A new admission keeps the invariant. *)
Lemma submit_new_inv m env proof m' r :
  machine_inv m → submit_new_with_index_proof m env proof = Ok (m', r) → machine_inv m'.
Proof.
  intros Hm Hs. unfold submit_new_with_index_proof in Hs. apply bind_Ok in Hs as ([] & _ & Hs).
  apply bind_Ok in Hs as ([] & _ & Hs). apply bind_Ok in Hs as (h & _ & Hs).
  apply bind_Ok in Hs as (pr & _ & Hs). apply bind_Ok in Hs as (bid & _ & Hs).
  apply bind_Ok in Hs as (stale & _ & Hs). destruct stale as [rc|].
  - apply bind_Ok in Hs as (a & _ & Hs). apply bind_Ok in Hs as (m1 & Hf & Hs). injection Hs as <- _.
    eapply machine_inv_step; [|exact Hm]. etrans; [by eapply finalize_step|apply record_command_step].
  - apply bind_Ok in Hs as (m1 & Ha & Hs). eapply submit_applied_inv; [|exact Hs].
    eapply machine_inv_step; [by eapply admit_staged_step|done].
Qed.

(** A submission is an exact replay or the admission of a new command. *)
Lemma submit_cases m env m' r :
  submit m env = Ok (m', r) →
  validate_envelope env = Ok () ∧ ∃ hash, canonical_digest (PreEnvelope env) = Ok hash ∧
  ((∃ c, commands m !! command_id env = Some c ∧ semantic_hash c = hash ∧ m' = m ∧ r = receipt c
      ∧ verify_retained_command_record m (command_id env) c = Ok ())
   ∨ (base m = None ∧ commands m !! command_id env = None
      ∧ ∃ proof, empty_nonmembership (command_id env) = Ok proof
        ∧ submit_new_with_index_proof m env proof = Ok (m', r))).
Proof.
  unfold submit. intros Hs. apply bind_Ok in Hs as ([] & Hv & Hs). split; [done|].
  apply bind_Ok in Hs as (hash & Hh & Hs). exists hash. split; [done|].
  destruct (commands m !! command_id env) as [c|].
  - left. unfold replay_retained in Hs. apply bind_Ok in Hs as ([] & Hr & Hs).
    case_decide; [|done]. injection Hs as <- <-. eauto 10.
  - right. case_decide as Hb; [done|]. apply eq_None_not_Some in Hb.
    apply bind_Ok in Hs as (proof & Hp & Hs). eauto 10.
Qed.

Lemma submit_inv m env m' r : machine_inv m → submit m env = Ok (m', r) → machine_inv m'.
Proof.
  intros Hm Hs. apply submit_cases in Hs
    as (_ & hash & _ & [(c & _ & _ & -> & _)|(_ & _ & proof & _ & Hs)]); [done|].
  by eapply submit_new_inv.
Qed.

Lemma submit_lookup_inv m env lookup m' r :
  machine_inv m → submit_with_archive_lookup m env lookup = Ok (m', r) → machine_inv m'.
Proof.
  intros Hm Hs. unfold submit_with_archive_lookup in Hs. apply bind_Ok in Hs as ([] & _ & Hs).
  apply bind_Ok in Hs as (hash & _ & Hs). destruct (commands m !! command_id env) as [c|].
  - unfold replay_retained in Hs. inv_ok. case_decide; by inv_ok.
  - apply bind_Ok in Hs as (root & _ & Hs). destruct lookup as [proof|proof entry].
    + apply bind_Ok in Hs as ([] & _ & Hs). apply bind_Ok in Hs as ([] & _ & Hs).
      by eapply submit_new_inv.
    + by inv_ok.
Qed.

Lemma new_machine_inv m : Machine_new = Ok m → machine_inv m.
Proof.
  unfold Machine_new. intros Hn. inv_ok. split.
  - intros pid p. cbn. by rewrite lookup_empty.
  - apply projection_inv_empty.
  - exists [], []. split; cbn; try done.
    + unfold root_of. match goal with Hr : canonical_digest PreProjectionGenesis = Ok _ |- _ =>
        by rewrite Hr end.
    + intros pre ev post parent Heq. by destruct pre.
    + intros i. rewrite lookup_empty. split; [by intros []|by intros ?%elem_of_nil].
    + intros _ ev ?%elem_of_nil. done.
Qed.

(** Staging material keeps the invariant too. *)
Lemma insert_plan_step m p m' : insert_plan m p = Ok m' → material_step m m'.
Proof.
  unfold insert_plan. intros Hi. apply bind_Ok in Hi as ([] & _ & Hi).
  destruct (plans m !! plan_id p); [by inv_ok|].
  destruct (staged_plans m !! plan_id p); inv_ok; [done|]. by split; [split|].
Qed.
Lemma put_artifact_step m kind bytes m' r :
  put_artifact m kind bytes = Ok (m', r) → material_step m m'.
Proof.
  unfold put_artifact. intros Hi. apply bind_Ok in Hi as (ref & _ & Hi).
  destruct (artifacts m !! artifact_id ref); [by inv_ok|].
  destruct (staged_artifacts m !! artifact_id ref); inv_ok; [done|]. by split; [split|].
Qed.

(** ** Steps *)

(** One call of a public operation. *)
Inductive machine_step : Machine → Machine → Prop :=
| step_plan m p m' : insert_plan m p = Ok m' → machine_step m m'
| step_artifact m kind bytes m' r : put_artifact m kind bytes = Ok (m', r) → machine_step m m'
| step_submit m env m' r : submit m env = Ok (m', r) → machine_step m m'
| step_lookup m env lookup m' r :
    submit_with_archive_lookup m env lookup = Ok (m', r) → machine_step m m'.

Lemma machine_step_inv m m' : machine_step m m' → machine_inv m → machine_inv m'.
Proof.
  intros [m0 p m1 Hs|m0 k b m1 r Hs|m0 env m1 r Hs|m0 env l m1 r Hs] Hm.
  - eapply machine_inv_step; [by eapply insert_plan_step|done].
  - eapply machine_inv_step; [by eapply put_artifact_step|done].
  - by eapply submit_inv.
  - by eapply submit_lookup_inv.
Qed.
End MachineInv.
