(* ===== verification/ChainInv.v ===== *)
(** * The command chain

    What every submission preserves about the retained commands: each one has
    a verified record, a verified place in the admission chain and a verified
    proof of absence from the archive, and the events of the log correspond
    one to one to the receipts. *)

From S2P Require Import Prelude KeyIndex Identity CommandIndex IndexSound Canonical Graph Ir.
From S2P Require Import IrFacts Model Events Chain Machine Location Effects DerivedIndex.
From S2P Require Import IndexSpec Reducer Verify Authority Admission Submit RunInv RunSteps.
From S2P Require Import Terminate ReducerInv MachineInv.

Section ChainInv.
Context `{Sha256} `{Canonical} `{!MachineSerialize} `{SchemaCompiler} `{PlanCodec}
  `{!ValueSerialize}.

(** ** What a batch consists of *)

Lemma batch_event_fields env hash ps p ev :
  batch_event env hash ps p = Ok ev →
  ev_command_id ev = command_id env ∧ ev_command_hash ev = hash ∧ ev_run_id ev = env_run_id env
  ∧ payload ev = p ∧ is_sha256_id (event_id ev) = true.
Proof.
  unfold batch_event. destruct (footprints (env_run_id env) p) as [[rd w] k].
  unfold Event_new. intros Hb. inv_ok. cbn. split_and!; try done.
  apply is_sha256_id_valid. by eapply content_id_is_valid.
Qed.

(** The payloads of a batch, in order. *)
Definition batch_payloads (p : EventPayload) (c : Command) : list EventPayload :=
  p :: initial_attempt_payload c.

Lemma command_event_batch_Ok m env hash evs :
  command_event_batch m env hash = Ok evs →
  ∃ p, admit_command m env = Ok p ∧ payload <$> evs = batch_payloads p (command env)
    ∧ Forall (λ ev, ev_command_id ev = command_id env ∧ ev_command_hash ev = hash
                    ∧ ev_run_id ev = env_run_id env ∧ is_sha256_id (event_id ev) = true) evs.
Proof.
  unfold command_event_batch. intros Hb. apply bind_Ok in Hb as (p & Hp & Hb).
  apply bind_Ok in Hb as ([ps evs'] & Hf & Hb). injection Hb as <-. cbn. exists p. split; [done|].
  refine (try_fold_inv _ (λ done st, payload <$> st.2 = done ∧ Forall (λ ev,
    ev_command_id ev = command_id env ∧ ev_command_hash ev = hash ∧ ev_run_id ev = env_run_id env
    ∧ is_sha256_id (event_id ev) = true) st.2) _ _ _ _ _ Hf).
  - split; [done|constructor].
  - intros don x rest [ps1 e1] st' _ [Hpay Hall] Hs. cbn in *. apply bind_Ok in Hs as (ev & He & Hs).
    injection Hs as <-. cbn. destruct (batch_event_fields _ _ _ _ _ He) as (? & ? & ? & Hx & ?).
    rewrite fmap_app, Hpay. cbn. rewrite Hx. split; [done|]. apply Forall_app. split; [done|].
    by repeat constructor.
Qed.

(** An admitted payload is the one the command asks for. *)
Lemma admit_matches m env p :
  admit_command m env = Ok p → command_matches_event (command env) p = true.
Proof.
  intros Ha. unfold admit_command in Ha. destruct (command env) eqn:Hc;
    try (injection Ha as <-; cbn; by rewrite !bool_decide_eq_true_2);
    unfold admit_run_start_command, admit_attempt_command, admit_scope_open_command,
      admit_effect_proposal_command, admit_scope_close_command, admit_migration_command,
      admit_run_termination_command in Ha; rewrite ?Hc in Ha; inv_ok; cbn;
    rewrite ?bool_decide_eq_true_2 by done; try done.
  - rewrite (bool_decide_eq_true_2 (length _ = _)) by (by rewrite length_app).
    rewrite (bool_decide_eq_true_2 (take _ _ = _)) by (by rewrite take_app_length).
    by rewrite bool_decide_eq_true_2.
  - destruct (step_operation _); try done. inv_ok. cbn. by rewrite !bool_decide_eq_true_2.
Qed.
Lemma batch_payload_matches m env p q :
  admit_command m env = Ok p → q ∈ batch_payloads p (command env) →
  command_matches_event (command env) q = true.
Proof.
  intros Ha [->|Hq]%elem_of_cons; [by eapply admit_matches|].
  destruct (command env); cbn in Hq; try by apply elem_of_nil in Hq.
  apply list_elem_of_singleton in Hq as ->. cbn. by rewrite !bool_decide_eq_true_2.
Qed.

(** ** A new admission, taken apart *)

Record same_chain (m m' : Machine) : Prop := {
  sc_admissions : admissions m' = admissions m;
  sc_commands : commands m' = commands m;
  sc_proofs : command_index_proofs m' = command_index_proofs m;
  sc_base : base m' = base m;
}.
#[export] Instance same_chain_preorder : PreOrder same_chain.
Proof. split; [by split|]. intros a b c [] []. split; congruence. Qed.

Lemma try_fold_chain {A} (f : Machine → A → core Machine) l m m' :
  (∀ m a m', f m a = Ok m' → same_chain m m') → try_fold f m l = Ok m' → same_chain m m'.
Proof.
  intros Hf Hok. refine (try_fold_inv f (λ _ m', same_chain m m') l m m' _ _ Hok); [done|].
  intros ? ? ? t t' _ Ht Hs. etrans; [exact Ht|]. by eapply Hf.
Qed.
Lemma foldl_chain {A} (f : Machine → A → Machine) l m :
  (∀ m a, same_chain m (f m a)) → same_chain m (foldl f m l).
Proof.
  intros Hf. revert m. induction l as [|a l IH]; intros m; [done|]. cbn. etrans; [apply Hf|apply IH].
Qed.
Lemma retain_plan_chain m p m' : retain_plan m p = Ok m' → same_chain m m'.
Proof.
  unfold retain_plan. intros Hr. apply bind_Ok in Hr as ([] & _ & Hr).
  destruct (plans m !! plan_id p); inv_ok; [done|by split].
Qed.
Lemma retain_artifact_chain m a m' : retain_artifact m a = Ok m' → same_chain m m'.
Proof.
  unfold retain_artifact. intros Hr. apply bind_Ok in Hr as ([] & _ & Hr).
  destruct (artifacts m !! artifact_id (reference a)); inv_ok; [done|by split].
Qed.
Lemma admit_staged_chain m c m' : admit_staged_command_material m c = Ok m' → same_chain m m'.
Proof.
  unfold admit_staged_command_material. intros Ha. apply bind_Ok in Ha as ([pids refs] & _ & Ha).
  apply bind_Ok in Ha as ([] & _ & Ha). apply bind_Ok in Ha as (records & _ & Ha).
  apply bind_Ok in Ha as (m1 & H1' & Ha). apply bind_Ok in Ha as (m2 & H2' & Ha).
  injection Ha as <-. etrans; [by eapply try_fold_chain, H1'; apply retain_plan_chain|].
  etrans; [by eapply try_fold_chain, H2'; apply retain_artifact_chain|].
  etrans; (eapply foldl_chain; by split).
Qed.
Lemma append_events_chain m evs : same_chain m (foldl append_event m evs).
Proof. apply foldl_chain. by split. Qed.

Lemma finalize_chain m root r a m' :
  finalize_single_batch_authority m root r a = Ok m' →
  admissions m' = admissions m ++ [a] ∧ commands m' = commands m
  ∧ command_index_proofs m' = command_index_proofs m ∧ base m' = base m.
Proof.
  unfold finalize_single_batch_authority. intros Hf. inv_ok.
  match goal with Hi : insert_batch _ _ = Ok _ |- _ => unfold insert_batch in Hi;
    apply bind_Ok in Hi as ([] & _ & Hi); destruct (batches _ !! _); inv_ok; done end.
Qed.

(** The record of a new command, its log extension and the resulting machine. *)
Record admission_of (m : Machine) (env : CommandEnvelope) (proof : MachineCommandIndexProof)
    (m' : Machine) (hash : string) (rec : CommandRecord) (new : list Event) (a : CommandAdmission)
    (m1 m2 m4 : Machine) (after parent_root : string) : Prop := {
  ao_hash : canonical_digest (PreEnvelope env) = Ok hash;
  ao_fresh : commands m !! command_id env = None;
  ao_proof : ip_command_id proof = command_id env ∧ ip_value proof = None;
  ao_record : envelope rec = env ∧ semantic_hash rec = hash ∧ batch_position rec = 0%N
    ∧ batch_len rec = 1%N ∧ is_sha256_id (batch_id rec) = true
    ∧ receipt_command_id (receipt rec) = command_id env
    ∧ observed_precondition (receipt rec) = expected_precondition env;
  ao_material : material_step m m1 ∧ same_chain m m1;
  ao_batch :
    (receipt_status (receipt rec) = ReceiptConflict ∧ new = [] ∧ m2 = m1
     ∧ after = projection_root (authority m1) ∧ receipt_shape_ok rec = true)
    ∨ (receipt rec = applied_command_receipt m2 env new
       ∧ command_event_batch m1 env hash = Ok new
       ∧ apply_command_event_batch m1 new = Ok (m2, after));
  ao_admission : CommandAdmission_new (admission_parent m) rec
    (projection_root (authority m1)) after = Ok a;
  ao_final : finalize_single_batch_authority
    (foldl append_event (set_authority (set_projection_root after (authority m2)) m2) new)
    parent_root rec a = Ok m4;
  ao_parent : authority_root m = Ok parent_root;
  ao_path :
    (stale_command_receipt m env = Ok (Some (receipt rec)) ∧ receipt_status (receipt rec) = ReceiptConflict
     ∧ new = [] ∧ m1 = m ∧ m2 = m ∧ after = projection_root (authority m))
    ∨ (stale_command_receipt m env = Ok None
       ∧ admit_staged_command_material m (command env) = Ok m1
       ∧ receipt rec = applied_command_receipt m2 env new
       ∧ command_event_batch m1 env hash = Ok new
       ∧ apply_command_event_batch m1 new = Ok (m2, after));
  ao_result : m' = record_command m4 rec proof;
}.

Lemma set_root_id m : set_authority (set_projection_root (projection_root (authority m)) (authority m)) m = m.
Proof. destruct m as [? ? ? ? ? ? ? ? ? ? ? ? ? ? ? ? ? []]. done. Qed.

Lemma stale_receipt_shape m env r :
  stale_command_receipt m env = Ok (Some r) →
  receipt_status r = ReceiptConflict ∧ receipt_command_id r = command_id env
  ∧ observed_precondition r = expected_precondition env
  ∧ ∀ rec, receipt rec = r → envelope rec = env → receipt_shape_ok rec = true.
Proof.
  unfold stale_command_receipt. intros Hs. destruct (is_start_run (command env)); [done|].
  inv_ok. case_decide as Hd; [done|]. injection Hs as <-. cbn. split_and!; try done.
  intros rec Hr He. unfold receipt_shape_ok. rewrite Hr. cbn [receipt_status receipt_event_ids
    receipt_error_code receipt_message observed_precondition current_precondition].
  by rewrite !bool_decide_eq_true_2.
Qed.

Lemma admission_parent_chain m m' : same_chain m m' → admission_parent m' = admission_parent m.
Proof. intros [Ha _ _ Hb]. unfold admission_parent. by rewrite Ha, Hb. Qed.
Lemma apply_batch_machine m evs m' root :
  apply_command_event_batch m evs = Ok (m', root) →
  ∃ p, m' = Machine.set_projection p m.
Proof.
  unfold apply_command_event_batch. intros Hb. apply bind_Ok in Hb as ([[m1 rt] pend] & Hf & Hb).
  injection Hb as <- <-. cbn.
  assert (∃ p, (m1, rt, pend).1.1 = Machine.set_projection p m) as Hp; [|exact Hp].
  refine (try_fold_inv _ (λ _ st, ∃ p, st.1.1 = Machine.set_projection p m) _ _ _ _ _ Hf).
  - exists (projection m). by destruct m.
  - intros don ev rest [[mc rc] pc] st' _ [p Hp] Hs. cbn in *. inv_ok. cbn. by exists x0.
Qed.

Lemma submit_new_admission m env proof m' r :
  submit_new_with_index_proof m env proof = Ok (m', r) →
  ∃ hash rec new a m1 m2 m4 after parent_root,
    admission_of m env proof m' hash rec new a m1 m2 m4 after parent_root ∧ r = receipt rec.
Proof.
  intros Hs. unfold submit_new_with_index_proof in Hs. apply bind_Ok in Hs as ([] & Hfr & Hs).
  apply bind_Ok in Hs as ([] & Hpr & Hs). apply bind_Ok in Hs as (hash & Hh & Hs).
  apply bind_Ok in Hs as (parent_root & Hroot & Hs). apply bind_Ok in Hs as (bid & Hbid & Hs).
  apply require_Ok in Hfr, Hpr. to_prop.
  assert (Hb : is_sha256_id bid = true).
  { unfold single_command_batch_metadata in Hbid. apply bind_Ok in Hbid as (intent & _ & Hbid).
    apply bind_Ok in Hbid as ([pids refs] & _ & Hbid).
    unfold machine_command_batch_id, machine_content_id, content_id_of in *. inv_ok.
    apply is_sha256_id_valid, content_id_valid. }
  apply bind_Ok in Hs as (stale & Hst & Hs). destruct stale as [rc|].
  - apply bind_Ok in Hs as (a & Ha & Hs). apply bind_Ok in Hs as (m4 & Hf & Hs). injection Hs as <- <-.
    destruct (stale_receipt_shape _ _ _ Hst) as (Hc1 & Hc2 & Hc3 & Hc4).
    match type of Ha with CommandAdmission_new _ ?rec _ ?after = _ =>
      exists hash, rec, [], a, m, m, m4, after, parent_root end.
    split; [|done]. split; [..|reflexivity].
    + done.
    + done.
    + done.
    + cbn. by split_and!.
    + split; reflexivity.
    + left. split_and!; [done..|by apply Hc4].
    + exact Ha.
    + cbn. by rewrite set_root_id.
    + exact Hroot.
    + left. by split_and!.
  - apply bind_Ok in Hs as (m1 & Hm & Hs). unfold submit_applied_single_command in Hs.
    apply bind_Ok in Hs as (new & Hn & Hs). apply bind_Ok in Hs as ([m2 after] & Hap & Hs).
    apply bind_Ok in Hs as (a & Ha & Hs). apply bind_Ok in Hs as (m4 & Hf & Hs). injection Hs as <- <-.
    pose proof (admit_staged_chain _ _ _ Hm) as Hch.
    destruct (apply_batch_machine _ _ _ _ Hap) as (p & Hp).
    match type of Ha with CommandAdmission_new _ ?rec _ _ = _ =>
      exists hash, rec, new, a, m1, m2, m4, after, parent_root end.
    split; [|done]. split; [..|reflexivity].
    + done.
    + done.
    + done.
    + cbn. by split_and!.
    + split; [by eapply admit_staged_step|done].
    + right. by split_and!.
    + rewrite <-(admission_parent_chain _ _ Hch). subst m2. exact Ha.
    + exact Hf.
    + exact Hroot.
    + right. by split_and!.
Qed.

(** ** The record of a new command is well-formed *)

Lemma apply_event_runs p ev p' :
  apply_event p ev = Ok p' →
  is_Some (runs p' !! ev_run_id ev) ∧ ∀ rid, is_Some (runs p !! rid) → is_Some (runs p' !! rid).
Proof.
  intros Ha. unfold apply_event in Ha. apply bind_Ok in Ha as (p1 & Hens & Ha).
  assert (H1' : ∀ rid, is_Some (runs p !! rid) → is_Some (runs p1 !! rid)).
  { unfold ensure_projection_derived_index in Hens. destruct (runs p !! ev_run_id ev); inv_ok; [|done].
    intros rid. cbn. rewrite lookup_insert_is_Some'. by right. }
  apply bind_Ok in Ha as ([p2 fin] & Hg & Ha). cbn in Ha.
  assert (H2' : (∀ rid, is_Some (runs p1 !! rid) → is_Some (runs p2 !! rid))
    ∧ (fin = true → is_Some (runs p2 !! ev_run_id ev))).
  { unfold apply_projection_global_event in Hg. destruct (payload ev); inv_ok; try done.
    - unfold apply_run_started in *. inv_ok. cbn. split; intros; rewrite lookup_insert_is_Some'; auto.
    - destruct (facts p1 !! key); inv_ok; by split. }
  destruct H2' as [H2' H3']. destruct fin; [inv_ok; split; auto|].
  apply bind_Ok in Ha as (r & _ & Ha). apply bind_Ok in Ha as ([] & _ & Ha).
  apply bind_Ok in Ha as (r' & _ & Ha). injection Ha as <-. cbn.
  split; [rewrite lookup_insert_is_Some'; auto|]. intros rid Hr. rewrite lookup_insert_is_Some'. auto.
Qed.

Lemma apply_batch_runs m evs m' root ev :
  apply_command_event_batch m evs = Ok (m', root) → ev ∈ evs →
  is_Some (runs (projection m') !! ev_run_id ev).
Proof.
  unfold apply_command_event_batch. intros Hb Hin.
  apply bind_Ok in Hb as ([[m1 rt] pend] & Hf & Hb). injection Hb as <- <-.
  revert Hin. refine (try_fold_inv _ (λ done st, ev ∈ done →
    is_Some (runs (projection st.1.1) !! ev_run_id ev)) _ _ _ _ _ Hf).
  - by intros ?%elem_of_nil.
  - intros don e rest [[mc rc] pc] st' _ IH Hs Hin. cbn in *. inv_ok. cbn.
    match goal with Ha : apply_event _ _ = Ok _ |- _ => apply apply_event_runs in Ha as [Ha Hmono] end.
    apply elem_of_app in Hin as [Hin| ->%list_elem_of_singleton]; auto.
Qed.

Section NewRecord.
Context {m env proof m' hash rec new a m1 m2 m4 after parent_root}
  (Hao : admission_of m env proof m' hash rec new a m1 m2 m4 after parent_root).

Lemma applied_shape :
  receipt rec = applied_command_receipt m2 env new → command_event_batch m1 env hash = Ok new →
  apply_command_event_batch m1 new = Ok (m2, after) → receipt_shape_ok rec = true.
Proof.
  intros Hr Hn Hap. destruct (ao_record _ _ _ _ _ _ _ _ _ _ _ _ _ Hao) as (He & _).
  destruct (command_event_batch_Ok _ _ _ _ Hn) as (p & _ & Hpay & Hall).
  assert (Hlen : length new = (if is_start_run (command env) then 1 else 0) + 1).
  { rewrite <-(length_fmap payload), Hpay. by destruct (command env). }
  assert (Hids : forallb is_sha256_id (event_id <$> new) = true).
  { apply forallb_Forall. apply Forall_fmap. eapply Forall_impl; [exact Hall|]. by intros ev (_ & _ & _ & ?). }
  assert (Hrun : is_Some (runs (projection m2) !! env_run_id env)).
  { destruct new as [|ev new']; [cbn in Hlen; lia|].
    apply Forall_cons in Hall as [(_ & _ & Hrid & _) _]. rewrite <-Hrid.
    eapply apply_batch_runs; [exact Hap|by left]. }
  unfold receipt_shape_ok. rewrite He, Hr. cbn [applied_command_receipt receipt_status
    receipt_event_ids receipt_error_code receipt_message current_precondition].
  rewrite length_fmap, Hlen, Nat.eqb_refl, Hids. rewrite !bool_decide_eq_true_2; try done.
  destruct Hrun as [run ->]. done.
Qed.

Lemma new_receipt_shape : receipt_shape_ok rec = true.
Proof.
  destruct (ao_batch _ _ _ _ _ _ _ _ _ _ _ _ _ Hao) as [(_ & _ & _ & _ & ?)|(? & ? & ?)];
    [done|by apply applied_shape].
Qed.

Lemma new_record_verified : validate_envelope env = Ok () → verify_command_record rec = Ok ().
Proof.
  intros Hv. destruct (ao_record _ _ _ _ _ _ _ _ _ _ _ _ _ Hao) as (He & Hh & Hp & Hl & Hb & Hc & Ho).
  unfold verify_command_record. rewrite He, Hv. cbn [mbind result_bind].
  rewrite (ao_hash _ _ _ _ _ _ _ _ _ _ _ _ _ Hao). cbn [mbind result_bind].
  rewrite Hh, Hp, Hl, Hb, Hc, Ho, new_receipt_shape.
  by rewrite !bool_decide_eq_true_2.
Qed.
End NewRecord.

Lemma new_admission_spec parent rec before after a :
  CommandAdmission_new parent rec before after = Ok a →
  CommandAdmission_verify a parent = Ok () ∧ adm_command_id a = command_id (envelope rec)
  ∧ (verify_command_record rec = Ok () → verify_admission_record a rec = Ok ()).
Proof.
  unfold CommandAdmission_new. intros Ha. apply bind_Ok in Ha as (sq & _ & Ha).
  apply bind_Ok in Ha as (dg & Hd & Ha). apply bind_Ok in Ha as (i & _ & Ha).
  apply bind_Ok in Ha as ([] & Hv & Ha). injection Ha as <-. split; [done|]. split; [done|].
  intros Hr. unfold verify_admission_record. rewrite Hr. cbn [mbind result_bind set_admission_id
    adm_command_id adm_semantic_hash command_record_digest adm_status adm_event_ids adm_batch_id
    adm_batch_position adm_batch_len]. rewrite !(bool_decide_eq_true_2 (_ = _)) by done.
  cbn [require andb mbind result_bind]. rewrite Hd. cbn [mbind result_bind].
  by rewrite bool_decide_eq_true_2, !N.eqb_refl.
Qed.

(** ** The chain invariant *)

(** The event belongs to the command. *)
Definition event_of_command (r : CommandRecord) (ev : Event) : Prop :=
  ev_command_id ev = command_id (envelope r) ∧ ev_command_hash ev = semantic_hash r
  ∧ ev_run_id ev = env_run_id (envelope r)
  ∧ command_matches_event (command (envelope r)) (payload ev) = true.

Record retained_ok (m : Machine) (cid : string) (r : CommandRecord) : Prop := {
  ro_id : command_id (envelope r) = cid;
  ro_envelope : validate_envelope (envelope r) = Ok ();
  ro_hash : canonical_digest (PreEnvelope (envelope r)) = Ok (semantic_hash r);
  ro_admission : ∃ a, a ∈ admissions m ∧ adm_command_id a = cid ∧ verify_admission_record a r = Ok ();
  ro_proof : ∃ proof root, command_index_proofs m !! cid = Some proof ∧ ip_command_id proof = cid
    ∧ ip_value proof = None ∧ current_command_index_root (base m) = Ok root
    ∧ IndexProof_verify proof root = Ok ();
}.
Record chain_inv (m : Machine) : Prop := {
  ch_admissions : ∀ pre a post, admissions m = pre ++ a :: post →
    CommandAdmission_verify a (command_admission_parent pre (base m)) = Ok ();
  ch_unique : NoDup (adm_command_id <$> admissions m);
  ch_admitted : ∀ a, a ∈ admissions m → is_Some (commands m !! adm_command_id a);
  ch_command : ∀ cid r, commands m !! cid = Some r → retained_ok m cid r;
  ch_proofs : ∀ cid, is_Some (command_index_proofs m !! cid) → is_Some (commands m !! cid);
}.
(** The receipts and the log name the same events. *)
Record closure_inv (m : Machine) (evs : list Event) : Prop := {
  cl_receipt : ∀ cid r i, commands m !! cid = Some r → i ∈ receipt_event_ids (receipt r) →
    ∃ ev, ev ∈ evs ∧ event_id ev = i ∧ event_of_command r ev;
  cl_event : ∀ ev, ev ∈ evs → ∃ r, commands m !! ev_command_id ev = Some r
    ∧ event_id ev ∈ receipt_event_ids (receipt r);
}.

Lemma chain_inv_same m m' : same_chain m m' → chain_inv m → chain_inv m'.
Proof.
  intros [Ha Hc Hp Hb] [H1' H2' H3' H4' H5']. split; rewrite ?Ha, ?Hc, ?Hp, ?Hb; try done.
  intros cid r Hr. destruct (H4' cid r Hr) as [? ? ? ? ?]. by split; rewrite ?Ha, ?Hp, ?Hb.
Qed.
Lemma closure_inv_same m m' evs : same_chain m m' → closure_inv m evs → closure_inv m' evs.
Proof. intros [_ Hc _ _] [H1' H2']. by split; rewrite Hc. Qed.

Lemma admission_position_split cid l :
  (∃ a, a ∈ l ∧ adm_command_id a = cid) →
  ∃ pre a post, admission_position cid l = Some (pre, a) ∧ l = pre ++ a :: post
    ∧ adm_command_id a = cid.
Proof.
  induction l as [|x l IH]; intros (a & Hin & Ha); [by apply elem_of_nil in Hin|]. cbn.
  case_decide as Hx; [by exists [], x, l|].
  apply elem_of_cons in Hin as [->|Hin]; [done|].
  destruct IH as (pre & b & post & Hb & -> & Hid); [by exists a|].
  exists (x :: pre), b, post. by rewrite Hb.
Qed.

Lemma retained_verified m cid r :
  chain_inv m → commands m !! cid = Some r → verify_retained_command_record m cid r = Ok ().
Proof.
  intros Hm Hr. destruct (ch_command _ Hm _ _ Hr) as [Hid _ _ (a & Hin & Ha & Hver) Hproof].
  destruct Hproof as (proof & root & Hl & Hpid & Hpv & Hroot & Hv).
  destruct (admission_position_split cid (admissions m)) as (pre & b & post & Hpos & Hsp & Hb);
    [by exists a|].
  assert (b = a) as ->.
  { pose proof (ch_unique _ Hm) as Hnd. apply list_elem_of_lookup in Hin as [i Hi].
    assert (Hj : admissions m !! length pre = Some b) by (rewrite Hsp; by rewrite list_lookup_middle).
    assert (length pre = i) as <-; [|congruence].
    eapply (NoDup_lookup (adm_command_id <$> admissions m)); [done| |].
    - rewrite list_lookup_fmap, Hj. cbn. by rewrite Hb.
    - rewrite list_lookup_fmap, Hi. cbn. by rewrite Ha. }
  unfold verify_retained_command_record. rewrite Hl. cbn [ok_or mbind result_bind].
  rewrite Hpid, Hpv, !bool_decide_eq_true_2 by done. cbn [require andb mbind result_bind].
  rewrite Hroot. cbn [mbind result_bind]. rewrite Hv. cbn [mbind result_bind]. rewrite Hpos.
  cbn [ok_or mbind result_bind]. rewrite Hver.
  pose proof (ch_admissions _ Hm _ _ _ Hsp) as Hadm. unfold command_admission_parent in *.
  cbn [last]. destruct (last pre); by rewrite Hadm.
Qed.

(** The proof that a fresh submission stores. *)
Lemma empty_nonmembership_verifies cid proof :
  empty_nonmembership cid = Ok proof →
  ∃ root, empty_root = Ok root ∧ IndexProof_verify proof root = Ok ().
Proof.
  unfold empty_nonmembership. intros Hp. apply bind_Ok in Hp as ([] & Hid & Hp). injection Hp as <-.
  destruct (empty_hash_Ok COMMAND_INDEX_DEPTH) as (e & He & _); [done|]. exists e.
  unfold empty_root, command_index_empty_hash. rewrite Nat.sub_0_r. split; [done|].
  unfold IndexProof_verify, validate_shape, validate_shape_syntax, is_canonical_empty_nonmembership.
  cbn [proof_version ip_command_id ip_value empty_depth siblings].
  rewrite (bool_decide_eq_true_2 (COMMAND_INDEX_PROOF_VERSION = _)) by done. rewrite Hid.
  unfold empty_root, command_index_empty_hash. rewrite Nat.sub_0_r, He. cbn.
  by rewrite (bool_decide_eq_true_2 (e = e)).
Qed.

(** ** Preservation *)

(** The chain fields of the machine after a new admission. *)
Lemma admission_fields m env proof m' hash rec new a m1 m2 m4 after parent_root :
  admission_of m env proof m' hash rec new a m1 m2 m4 after parent_root →
  admissions m' = admissions m ++ [a] ∧ commands m' = <[command_id env := rec]> (commands m)
  ∧ command_index_proofs m' = <[command_id env := proof]> (command_index_proofs m)
  ∧ base m' = base m.
Proof.
  intros Hao. destruct (finalize_chain _ _ _ _ _ (ao_final _ _ _ _ _ _ _ _ _ _ _ _ _ Hao))
    as (Ha & Hc & Hp & Hb).
  rewrite (ao_result _ _ _ _ _ _ _ _ _ _ _ _ _ Hao). cbn. rewrite Ha, Hc, Hp, Hb.
  match goal with |- context [foldl append_event ?m3 new] =>
    destruct (append_events_chain m3 new) as [-> -> -> ->] end. cbn.
  destruct (ao_record _ _ _ _ _ _ _ _ _ _ _ _ _ Hao) as (-> & _ & _ & _ & _ & -> & _).
  assert (Hm2 : same_chain m1 m2).
  { destruct (ao_batch _ _ _ _ _ _ _ _ _ _ _ _ _ Hao) as [(_ & _ & -> & _)|(_ & _ & Hap)]; [done|].
    destruct (apply_batch_machine _ _ _ _ Hap) as (p & ->). by split. }
  destruct (ao_material _ _ _ _ _ _ _ _ _ _ _ _ _ Hao) as [_ Hm1].
  destruct (transitivity Hm1 Hm2) as [-> -> -> ->]. done.
Qed.

(** The new admission names the new events. *)
Lemma record_event_ids {m env proof m' hash rec new a m1 m2 m4 after parent_root} :
  admission_of m env proof m' hash rec new a m1 m2 m4 after parent_root →
  receipt_event_ids (receipt rec) = event_id <$> new.
Proof.
  intros Hao.
  destruct (ao_batch _ _ _ _ _ _ _ _ _ _ _ _ _ Hao) as [(Hst & -> & _ & _ & Hsh)|(-> & _)]; [|done].
  unfold receipt_shape_ok in Hsh. rewrite Hst in Hsh. to_prop. done.
Qed.
Lemma admission_event_ids {m env proof m' hash rec new a m1 m2 m4 after parent_root} :
  admission_of m env proof m' hash rec new a m1 m2 m4 after parent_root →
  adm_event_ids a = event_id <$> new.
Proof.
  intros Hao. rewrite <-(record_event_ids Hao). pose proof (ao_admission _ _ _ _ _ _ _ _ _ _ _ _ _ Hao) as Ha.
  unfold CommandAdmission_new in Ha. by inv_ok.
Qed.

Lemma admission_chain m env proof m' hash rec new a m1 m2 m4 after parent_root root :
  chain_inv m → validate_envelope env = Ok () →
  current_command_index_root (base m) = Ok root → IndexProof_verify proof root = Ok () →
  admission_of m env proof m' hash rec new a m1 m2 m4 after parent_root → chain_inv m'.
Proof.
  intros [Had Hun Hdom Hcmd Hdomp] Henv Hroot Hver Hao.
  destruct (admission_fields _ _ _ _ _ _ _ _ _ _ _ _ _ Hao) as (Fa & Fc & Fp & Fb).
  destruct (new_admission_spec _ _ _ _ _ (ao_admission _ _ _ _ _ _ _ _ _ _ _ _ _ Hao))
    as (Hav & Hac & Har).
  destruct (ao_record _ _ _ _ _ _ _ _ _ _ _ _ _ Hao) as (He & Hh & _).
  specialize (Har (new_record_verified Hao Henv)). rewrite He in Hac.
  pose proof (ao_fresh _ _ _ _ _ _ _ _ _ _ _ _ _ Hao) as Hfr.
  destruct (ao_proof _ _ _ _ _ _ _ _ _ _ _ _ _ Hao) as [Hpid Hpv].
  split; rewrite ?Fa, ?Fc, ?Fb, ?Fp.
  - intros pre b post Heq. destruct post as [|x post _] using rev_ind.
    + apply app_inj_tail in Heq as [<- <-]. exact Hav.
    + rewrite app_comm_cons, app_assoc in Heq. apply app_inj_tail in Heq as [Heq _]. by eapply Had.
  - rewrite fmap_app. cbn. apply NoDup_app. split; [done|]. split; [|apply NoDup_singleton].
    intros cid Hc ->%list_elem_of_singleton. apply list_elem_of_fmap in Hc as (b & Hb & Hin).
    destruct (Hdom _ Hin) as [r Hr]. rewrite <-Hb, Hac in Hr. congruence.
  - intros b [Hin| ->%list_elem_of_singleton]%elem_of_app; rewrite lookup_insert_is_Some'; auto.
  - intros cid r. destruct (decide (cid = command_id env)) as [->|Hne].
    + rewrite lookup_insert_eq. intros [= <-]. split.
      * by rewrite He.
      * by rewrite He.
      * rewrite He, Hh. apply (ao_hash _ _ _ _ _ _ _ _ _ _ _ _ _ Hao).
      * exists a. rewrite Fa. split; [|done]. apply elem_of_app. right. by left.
      * exists proof, root. by rewrite Fp, Fb, lookup_insert_eq.
    + rewrite lookup_insert_ne by done. intros Hr. destruct (Hcmd _ _ Hr) as [? ? ? (b & ? & ? & ?) Hp].
      split; [done..| |].
      * exists b. rewrite Fa, elem_of_app. by split; [left|].
      * rewrite Fp, Fb, lookup_insert_ne by done. exact Hp.
  - intros cid. rewrite !lookup_insert_is_Some'. intros [?|?]; auto.
Qed.

Lemma admission_closure m evs env proof m' hash rec new a m1 m2 m4 after parent_root :
  closure_inv m evs → admission_of m env proof m' hash rec new a m1 m2 m4 after parent_root →
  closure_inv m' (evs ++ new).
Proof.
  intros [Hrc Hev] Hao. destruct (admission_fields _ _ _ _ _ _ _ _ _ _ _ _ _ Hao) as (_ & Fc & _).
  pose proof (ao_fresh _ _ _ _ _ _ _ _ _ _ _ _ _ Hao) as Hfr.
  destruct (ao_record _ _ _ _ _ _ _ _ _ _ _ _ _ Hao) as (He & Hh & _).
  assert (Hnew : receipt_event_ids (receipt rec) = event_id <$> new
    ∧ ∀ ev, ev ∈ new → event_of_command rec ev).
  { destruct (ao_batch _ _ _ _ _ _ _ _ _ _ _ _ _ Hao) as [(Hst & -> & _ & _ & Hsh)|(Hr & Hn & _)].
    - split; [|by intros ? ?%elem_of_nil]. unfold receipt_shape_ok in Hsh. rewrite Hst in Hsh.
      to_prop. cbn. done.
    - rewrite Hr. split; [done|]. intros ev Hin.
      destruct (command_event_batch_Ok _ _ _ _ Hn) as (p & Hp & Hpay & Hall).
      rewrite Forall_forall in Hall. destruct (Hall _ Hin) as (? & ? & ? & _).
      unfold event_of_command. rewrite He, Hh. split_and!; [done..|].
      eapply batch_payload_matches; [exact Hp|]. rewrite <-Hpay. by apply list_elem_of_fmap_2. }
  destruct Hnew as [Hids Hof]. split; rewrite Fc.
  - intros cid r i. destruct (decide (cid = command_id env)) as [->|Hne].
    + rewrite lookup_insert_eq. intros [= <-]. rewrite Hids. intros (ev & -> & Hin)%list_elem_of_fmap.
      exists ev. rewrite elem_of_app. split_and!; [by right|done|by apply Hof].
    + rewrite lookup_insert_ne by done. intros Hr Hi. destruct (Hrc _ _ _ Hr Hi) as (ev & ? & ? & ?).
      exists ev. rewrite elem_of_app. by split; [left|].
  - intros ev [Hin|Hin]%elem_of_app.
    + destruct (Hev _ Hin) as (r & Hr & Hi). exists r. rewrite lookup_insert_ne; [done|].
      intros Heq. rewrite <-Heq in Hr. congruence.
    + exists rec. destruct (Hof _ Hin) as (Hc & _). rewrite Hc, He, lookup_insert_eq.
      split; [done|]. rewrite Hids. by apply list_elem_of_fmap_2.
Qed.

Lemma admission_log m old evs env proof m' hash rec new a m1 m2 m4 after parent_root :
  machine_inv m → log_of m old evs →
  admission_of m env proof m' hash rec new a m1 m2 m4 after parent_root →
  log_of m' old (evs ++ new).
Proof.
  intros Hm Hl Hao. destruct (ao_material _ _ _ _ _ _ _ _ _ _ _ _ _ Hao) as [Hms _].
  pose proof (machine_inv_step _ _ Hms Hm) as [Hp1 Hpi1 _].
  pose proof (log_of_same _ _ _ _ (proj1 Hms) Hl) as Hl1.
  rewrite (ao_result _ _ _ _ _ _ _ _ _ _ _ _ _ Hao).
  eapply log_of_same; [apply (record_command_step m4 rec proof)|].
  eapply log_of_same; [by eapply finalize_step, (ao_final _ _ _ _ _ _ _ _ _ _ _ _ _ Hao)|].
  destruct (ao_batch _ _ _ _ _ _ _ _ _ _ _ _ _ Hao) as [(_ & -> & -> & -> & _)|(_ & _ & Hap)].
  - cbn. by rewrite set_root_id, app_nil_r.
  - destruct (apply_batch_spec _ _ _ _ Hp1 Hpi1 Hap) as (pending & Hb). by eapply log_extend.
Qed.

(** The events of a batch differ, as its record was verified. *)
Lemma batch_events_distinct seen l seen' :
  try_fold verify_batch_event seen l = Ok seen' → NoDup l ∧ ∀ i, i ∈ l → i ∉ seen.
Proof.
  revert seen. induction l as [|i l IH]; intros seen Hf; [split; [constructor|by intros ? ?%elem_of_nil]|].
  cbn [try_fold] in Hf. apply bind_Ok in Hf as (s1 & Hs & Hf). unfold verify_batch_event in Hs.
  apply bind_Ok in Hs as ([] & _ & Hs). apply bind_Ok in Hs as ([] & Hn & [= <-]).
  apply require_Ok, bool_decide_eq_true in Hn. destruct (IH _ Hf) as [Hd Hall]. split.
  - constructor; [|done]. intros Hin. specialize (Hall _ Hin). set_solver.
  - intros j [->|Hj]%elem_of_cons; [done|]. specialize (Hall _ Hj). set_solver.
Qed.
Lemma built_batch parent result r b :
  build_single_command_batch_record parent result r = Ok b →
  BatchRecord_verify b = Ok () ∧ receipts b = [receipt r] ∧ br_batch_id b = batch_id r
  ∧ br_event_ids b = receipt_event_ids (receipt r) ∧ result_authority_root b = result
  ∧ parent_authority_root b = parent ∧ admission_parent_authority_root b = parent
  ∧ ∃ intent, command_intent_hash (envelope r) = Ok intent
    ∧ Chain.members b = [{| position := 0; member_command_id := command_id (envelope r);
                      intent_hash := intent; member_semantic_hash := semantic_hash r |}].
Proof.
  unfold build_single_command_batch_record. intros Hb. apply bind_Ok in Hb as (intent & Hi & Hb).
  apply bind_Ok in Hb as ([pids refs] & _ & Hb). apply bind_Ok in Hb as ([] & _ & Hb).
  apply bind_Ok in Hb as (bid & _ & Hb). apply bind_Ok in Hb as ([] & _ & Hb).
  apply bind_Ok in Hb as (rid & _ & Hb). apply bind_Ok in Hb as ([] & Hv & [= <-]).
  split; [done|]. cbn. by split_and!; eauto.
Qed.
Lemma new_events_distinct {m env proof m' hash rec new a m1 m2 m4 after parent_root} :
  admission_of m env proof m' hash rec new a m1 m2 m4 after parent_root →
  NoDup (event_id <$> new) ∧ ∀ ev, ev ∈ new → events m1 !! event_id ev = None.
Proof.
  intros Hao. split.
  - rewrite <-(record_event_ids Hao).
    pose proof (ao_final _ _ _ _ _ _ _ _ _ _ _ _ _ Hao) as Hf. unfold finalize_single_batch_authority in Hf.
    apply bind_Ok in Hf as (r1 & _ & Hf). apply bind_Ok in Hf as (c1 & _ & Hf).
    apply bind_Ok in Hf as (r2 & _ & Hf). apply bind_Ok in Hf as (b & Hb & _).
    destruct (built_batch _ _ _ _ Hb) as (Hv & Hr & _). unfold BatchRecord_verify in Hv.
    apply bind_Ok in Hv as ([] & _ & Hv). apply bind_Ok in Hv as ([] & _ & Hv).
    apply bind_Ok in Hv as (st & _ & Hv). apply bind_Ok in Hv as (seen & Hseen & _).
    rewrite Hr, bind_singleton in Hseen. by destruct (batch_events_distinct _ _ _ Hseen).
  - destruct (ao_batch _ _ _ _ _ _ _ _ _ _ _ _ _ Hao) as [(_ & -> & _)|(_ & _ & Hap)];
      [by intros ? ?%elem_of_nil|].
    unfold apply_command_event_batch in Hap. apply bind_Ok in Hap as ([[mr rt] pd] & Hf & [= -> ->]).
    cut ((∃ p, m2 = Machine.set_projection p m1) ∧ ∀ ev, ev ∈ new → events m1 !! event_id ev = None);
      [by intros [_ ?]|].
    refine (try_fold_inv _ (λ don (st : Machine * string * gset string),
      (∃ p, st.1.1 = Machine.set_projection p m1)
      ∧ ∀ ev, ev ∈ don → events m1 !! event_id ev = None) _ _ _ _ _ Hf).
    + split; [by exists (projection m1); destruct m1|by intros ? ?%elem_of_nil].
    + intros don ev rest [[mc rc] pc] st' _ [[p Hp] Hall] Hs. cbn in Hp. subst mc.
      unfold apply_batch_event in Hs. apply bind_Ok in Hs as ([] & Hv & Hs).
      apply bind_Ok in Hs as (p' & _ & Hs). apply bind_Ok in Hs as ([] & _ & Hs).
      apply bind_Ok in Hs as (rt' & _ & [= <-]). split; [by exists p'|].
      intros e [He| ->%list_elem_of_singleton]%elem_of_app; [by apply Hall|].
      unfold validate_new_event_with_pending in Hv. apply bind_Ok in Hv as ([] & _ & Hv).
      apply bind_Ok in Hv as ([] & _ & Hv). apply bind_Ok in Hv as ([] & Hv & _).
      by apply require_Ok, bool_decide_eq_true in Hv.
Qed.

Lemma submit_new_base m env proof m' r :
  submit_new_with_index_proof m env proof = Ok (m', r) → base m' = base m.
Proof.
  intros Hs. destruct (submit_new_admission _ _ _ _ _ Hs)
    as (hash & rec & new & a & m1 & m2 & m4 & after & pr & Hao & _).
  by destruct (admission_fields _ _ _ _ _ _ _ _ _ _ _ _ _ Hao) as (_ & _ & _ & ?).
Qed.
Lemma machine_step_base m m' : machine_step m m' → base m' = base m.
Proof.
  intros [m0 p m1 Hs|m0 k b m1 r Hs|m0 env m1 r Hs|m0 env lk m1 r Hs].
  - apply insert_plan_step in Hs as [Hs _]. apply Hs.
  - apply put_artifact_step in Hs as [Hs _]. apply Hs.
  - apply submit_cases in Hs as (_ & hash & _ & [(c & _ & _ & -> & _)|(_ & _ & proof & _ & Hs)]); [done|].
    by eapply submit_new_base.
  - unfold submit_with_archive_lookup in Hs. apply bind_Ok in Hs as ([] & _ & Hs).
    apply bind_Ok in Hs as (hash & _ & Hs). destruct (commands m0 !! command_id env) as [c|].
    + unfold replay_retained in Hs. apply bind_Ok in Hs as ([] & _ & Hs). case_decide; [|done].
      by injection Hs as <- _.
    + apply bind_Ok in Hs as (root & _ & Hs). destruct lk as [proof|proof entry]; [|by inv_ok].
      apply bind_Ok in Hs as ([] & _ & Hs). apply bind_Ok in Hs as ([] & _ & Hs). by eapply submit_new_base.
Qed.

(** ** The whole invariant *)

Record full_inv (m : Machine) : Prop := {
  fi_machine : machine_inv m;
  fi_chain : chain_inv m;
  fi_closure : ∃ old evs, log_of m old evs ∧ closure_inv m evs;
  fi_order : event_order m = admissions m ≫= adm_event_ids;
  fi_nodup : NoDup (event_order m);
}.

(** An operation either leaves the commands and the log alone or admits one
    new command. *)
Lemma submit_new_full m env proof root m' r :
  full_inv m → validate_envelope env = Ok () → current_command_index_root (base m) = Ok root →
  IndexProof_verify proof root = Ok () → submit_new_with_index_proof m env proof = Ok (m', r) →
  full_inv m' ∧ commands m ⊆ commands m'
  ∧ ∃ rec, commands m' !! command_id env = Some rec ∧ envelope rec = env ∧ r = receipt rec.
Proof.
  intros [Hm Hc (old & evs & Hl & Hcl) Ho Hnd] Henv Hroot Hver Hs.
  pose proof (submit_new_inv _ _ _ _ _ Hm Hs) as Hm'.
  destruct (submit_new_admission _ _ _ _ _ Hs)
    as (hash & rec & new & a & m1 & m2 & m4 & after & pr & Hao & ->).
  destruct (admission_fields _ _ _ _ _ _ _ _ _ _ _ _ _ Hao) as (Fa & Fc & _).
  pose proof (admission_log _ _ _ _ _ _ _ _ _ _ _ _ _ _ _ Hm Hl Hao) as Hl'.
  split; [split; [done| | | |]|split].
  - by eapply admission_chain.
  - exists old, (evs ++ new). split; [exact Hl'|].
    exact (admission_closure _ _ _ _ _ _ _ _ _ _ _ _ _ _ Hcl Hao).
  - rewrite Fa, bind_app, (lo_order _ _ _ Hl'), fmap_app, <-(lo_order _ _ _ Hl), Ho.
    by rewrite bind_singleton, (admission_event_ids Hao).
  - rewrite (lo_order _ _ _ Hl'), fmap_app, <-(lo_order _ _ _ Hl).
    destruct (new_events_distinct Hao) as [Hdis Hfr]. apply NoDup_app. split; [done|]. split; [|done].
    intros i Hi (ev & -> & Hev)%list_elem_of_fmap. apply (lo_domain _ _ _ Hl) in Hi as [x Hx].
    destruct (ao_material _ _ _ _ _ _ _ _ _ _ _ _ _ Hao) as [[Hsl _] _].
    specialize (Hfr _ Hev). rewrite (sl_events _ _ Hsl) in Hfr. congruence.
  - rewrite Fc. apply insert_subseteq. apply (ao_fresh _ _ _ _ _ _ _ _ _ _ _ _ _ Hao).
  - exists rec. rewrite Fc, lookup_insert_eq. split; [done|]. split; [|done].
    apply (ao_record _ _ _ _ _ _ _ _ _ _ _ _ _ Hao).
Qed.

Lemma submit_full m env m' r :
  full_inv m → submit m env = Ok (m', r) →
  full_inv m' ∧ commands m ⊆ commands m'
  ∧ ∃ rec, commands m' !! command_id env = Some rec ∧ r = receipt rec
    ∧ canonical_digest (PreEnvelope env) = Ok (semantic_hash rec).
Proof.
  intros Hf Hs. apply submit_cases in Hs
    as (Henv & hash & Hh & [(c & Hc & <- & -> & -> & _)|(Hb & Hn & proof & Hp & Hs)]).
  - split; [done|]. split; [done|]. by exists c.
  - destruct (empty_nonmembership_verifies _ _ Hp) as (root & Hroot & Hver).
    destruct (submit_new_full m env proof root m' r) as (Hf' & Hsub & rec & Hrec & He & Hr);
      [done|done|by rewrite Hb|done|done|].
    split; [done|]. split; [done|]. exists rec. split; [done|]. split; [done|].
    rewrite <-He. by apply (ro_hash _ _ _ (ch_command _ (fi_chain _ Hf') _ _ Hrec)).
Qed.

Lemma submit_lookup_full m env lookup m' r :
  full_inv m → submit_with_archive_lookup m env lookup = Ok (m', r) →
  full_inv m' ∧ commands m ⊆ commands m'.
Proof.
  intros Hf Hs. unfold submit_with_archive_lookup in Hs. apply bind_Ok in Hs as ([] & Henv & Hs).
  apply bind_Ok in Hs as (hash & _ & Hs). destruct (commands m !! command_id env) as [c|].
  - unfold replay_retained in Hs. apply bind_Ok in Hs as ([] & _ & Hs). case_decide; [|done].
    by injection Hs as <- _.
  - apply bind_Ok in Hs as (root & Hroot & Hs). destruct lookup as [proof|proof entry].
    + apply bind_Ok in Hs as ([] & _ & Hs). apply bind_Ok in Hs as ([] & Hver & Hs).
      destruct (submit_new_full m env proof root m' r) as (? & ? & _); by try done.
    + by inv_ok.
Qed.

Lemma machine_step_full m m' :
  machine_step m m' → full_inv m → full_inv m' ∧ commands m ⊆ commands m'.
Proof.
  intros Hs Hf. pose proof (machine_step_inv _ _ Hs (fi_machine _ Hf)) as Hm'.
  destruct Hs as [m0 p m1 Hs|m0 k b m1 r Hs|m0 env m1 r Hs|m0 env l m1 r Hs].
  - pose proof (insert_plan_step _ _ _ Hs) as [Hsl _]. assert (Hsc : same_chain m0 m1).
    { unfold insert_plan in Hs. apply bind_Ok in Hs as ([] & _ & Hs).
      destruct (plans m0 !! plan_id p); [by inv_ok|].
      destruct (staged_plans m0 !! plan_id p); inv_ok; by split. }
    destruct Hf as [_ Hc (old & evs & Hl & Hcl) Ho Hnd]. rewrite (sc_commands _ _ Hsc).
    split; [|done]. split; [done|by eapply chain_inv_same| |by rewrite (sl_order _ _ Hsl), (sc_admissions _ _ Hsc)|
      by rewrite (sl_order _ _ Hsl)].
    exists old, evs. split; [by eapply log_of_same|by eapply closure_inv_same].
  - pose proof (put_artifact_step _ _ _ _ _ Hs) as [Hsl _]. assert (Hsc : same_chain m0 m1).
    { unfold put_artifact in Hs. apply bind_Ok in Hs as (ref & _ & Hs).
      destruct (artifacts m0 !! artifact_id ref); [by inv_ok|].
      destruct (staged_artifacts m0 !! artifact_id ref); inv_ok; by split. }
    destruct Hf as [_ Hc (old & evs & Hl & Hcl) Ho Hnd]. rewrite (sc_commands _ _ Hsc).
    split; [|done]. split; [done|by eapply chain_inv_same| |by rewrite (sl_order _ _ Hsl), (sc_admissions _ _ Hsc)|
      by rewrite (sl_order _ _ Hsl)].
    exists old, evs. split; [by eapply log_of_same|by eapply closure_inv_same].
  - by destruct (submit_full _ _ _ _ Hf Hs) as (? & ? & _).
  - by eapply submit_lookup_full.
Qed.

Lemma new_full m : Machine_new = Ok m → full_inv m.
Proof.
  intros Hn. pose proof (new_machine_inv _ Hn) as Hm. pose proof Hn as Hn'. unfold Machine_new in Hn'.
  inv_ok. split; [done| | |done|constructor].
  - split; cbn.
    + intros pre a post Heq. by destruct pre.
    + constructor.
    + intros a ?%elem_of_nil. done.
    + intros cid r. by rewrite lookup_empty.
    + intros cid. rewrite lookup_empty. by intros [].
  - destruct (mi_log _ Hm) as (old & evs & Hl). exists old, evs. split; [done|].
    pose proof (lo_order _ _ _ Hl) as Ho. cbn in Ho. destruct evs; [|done].
    split; [intros cid r i; cbn; by rewrite lookup_empty|by intros ev ?%elem_of_nil].
Qed.

Lemma steps_full m m' :
  rtc machine_step m m' → full_inv m → full_inv m' ∧ commands m ⊆ commands m'.
Proof.
  induction 1 as [|x y z Hxy _ IH]; intros Hf; [done|].
  destruct (machine_step_full _ _ Hxy Hf) as [Hy Hsub]. destruct (IH Hy) as [Hz Hsub'].
  split; [done|]. by etrans.
Qed.

(** A retained command answers every later submission of its envelope. *)
Lemma retained_replay m env rec :
  full_inv m → commands m !! command_id env = Some rec →
  validate_envelope env = Ok () → canonical_digest (PreEnvelope env) = Ok (semantic_hash rec) →
  submit m env = Ok (m, receipt rec).
Proof.
  intros Hf Hr Henv Hh. unfold submit. rewrite Henv. cbn [mbind result_bind]. rewrite Hh.
  cbn [mbind result_bind]. rewrite Hr. unfold replay_retained.
  rewrite (retained_verified _ _ _ (fi_chain _ Hf) Hr). cbn [mbind result_bind].
  by rewrite decide_True.
Qed.
End ChainInv.
