(* ===== verification/RestoreInv.v ===== *)
(** * Replaying what was submitted

    A submission and the replay of its record compute the same machine.  The
    replay starts from a machine without staged material and finds the material
    of the batch in a catalog; [twin] relates it to the machine of the
    submission.  [replay_trace] is the sequence of replays that leads from the
    base of a machine to its present state; every operation extends it. *)

From S2P Require Import Prelude KeyIndex Identity CommandIndex IndexSound Canonical Ir Model.
From S2P Require Import Events Chain Machine Location Effects DerivedIndex Reducer Verify.
From S2P Require Import Authority Archive Compaction Admission Submit Restore MachineInv ChainInv.

(** ** Maps collected from lists *)

Lemma collect_by_snoc {A} (key : A → string) l x :
  collect_by key (l ++ [x]) = <[key x := x]> (collect_by key l).
Proof. unfold collect_by. by rewrite foldl_snoc. Qed.
Lemma collect_by_dom {A} (key : A → string) l i :
  is_Some (collect_by key l !! i) ↔ i ∈ key <$> l.
Proof.
  induction l as [|x l IH] using rev_ind.
  - cbn. rewrite lookup_empty. split; [by intros []|by intros ?%elem_of_nil].
  - rewrite collect_by_snoc, fmap_app, elem_of_app, lookup_insert_is_Some', IH. cbn.
    rewrite list_elem_of_singleton. naive_solver.
Qed.
Lemma collect_by_lookup {A} (key : A → string) l x :
  NoDup (key <$> l) → x ∈ l → collect_by key l !! key x = Some x.
Proof.
  induction l as [|y l IH] using rev_ind; intros Hnd Hx; [by apply elem_of_nil in Hx|].
  rewrite fmap_app in Hnd. apply NoDup_app in Hnd as (Hnd & Hdis & _). rewrite collect_by_snoc.
  apply elem_of_app in Hx as [Hx| ->%list_elem_of_singleton]; [|by rewrite lookup_insert_eq].
  rewrite lookup_insert_ne; [by apply IH|]. intros Heq. apply (Hdis (key x)).
  - by apply list_elem_of_fmap_2.
  - rewrite <-Heq. by left.
Qed.
Lemma collect_by_key {A} (key : A → string) l i x : collect_by key l !! i = Some x → x ∈ l ∧ key x = i.
Proof.
  induction l as [|y l IH] using rev_ind; [cbn; by rewrite lookup_empty|].
  rewrite collect_by_snoc, elem_of_app. destruct (decide (key y = i)) as [<-|Hne].
  - rewrite lookup_insert_eq. intros [= ->]. split; [right; by left|done].
  - rewrite lookup_insert_ne by done. intros Hx. destruct (IH Hx). by split; [left|].
Qed.
Lemma collect_by_size {A} (key : A → string) l :
  NoDup (key <$> l) → size (collect_by key l) = length l.
Proof.
  induction l as [|y l IH] using rev_ind; [done|]. rewrite fmap_app. intros (Hnd & Hdis & _)%NoDup_app.
  rewrite collect_by_snoc, map_size_insert_None, IH by
    (done || (apply eq_None_not_Some; rewrite collect_by_dom; intros Hy; apply (Hdis _ Hy); by left)).
  rewrite length_app. cbn. lia.
Qed.
Lemma collect_by_id {A} (key : A → string) (l : list A) (m : gmap string A) :
  NoDup (key <$> l) → (∀ i x, m !! i = Some x ↔ x ∈ l ∧ key x = i) → collect_by key l = m.
Proof.
  intros Hnd Hm. apply map_eq. intros i. apply option_eq. intros x. rewrite Hm. split.
  - apply collect_by_key.
  - intros [Hx <-]. by apply collect_by_lookup.
Qed.

Section RestoreInv.
Context `{Sha256} `{Canonical} `{!MachineSerialize} `{!ArchiveSerialize} `{!CompactionSerialize}
  `{!SnapshotSerialize} `{SchemaCompiler} `{PlanCodec} `{!ValueSerialize}.

(** ** What admission and authority read *)

(** [m] and [r] agree on what the admission of a command reads, if it reads the
    artifacts [refs]. *)
Record same_view (refs : list ArtifactRef) (m r : Machine) : Prop := {
  sv_plans : plans r = plans m;
  sv_artifacts : artifacts r = artifacts m;
  sv_projection : projection r = projection m;
  sv_artifact : ∀ x, x ∈ refs → artifact r x = artifact m x;
}.
Lemma same_view_sub refs refs' m r :
  (∀ x, x ∈ refs' → x ∈ refs) → same_view refs m r → same_view refs' m r.
Proof. intros Hs [? ? ? Ha]. split; [done..|]. intros x Hx. by apply Ha, Hs. Qed.

Definition named_refs (c : Command) : list ArtifactRef := (named_material c).2.
(** The artifacts whose bytes or presence an event needs *)
Definition payload_refs (p : EventPayload) : list ArtifactRef :=
  match p with
  | RunStarted _ _ _ input => [input]
  | EffectProposed _ _ _ _ _ _ _ _ _ _ _ _ arguments binding _ => [arguments; binding]
  | RunCompleted (Some result) => [result]
  | RunFailed failure _ => [failure_detail failure]
  | RunCancelled reason _ => [reason]
  | _ => []
  end.
Lemma effect_contract_view m r pid op :
  plans r = plans m → effect_contract r pid op = effect_contract m pid op.
Proof. intros Hp. unfold effect_contract. by rewrite Hp. Qed.
(** Artifacts on which two machines agree *)
Ltac agree_refs r Hr := repeat match goal with
  | |- context [artifact r ?x] => rewrite (Hr x) by set_solver
  end.
(** Two binds with the same first computation *)
Ltac same_bind := repeat match goal with
  | |- ?x = ?x => reflexivity
  | |- (?x ≫= _) = (?x ≫= _) => destruct x; cbn [mbind result_bind]; [|reflexivity]
  | |- (match ?x with _ => _ end) = (match ?x with _ => _ end) => destruct x; [..|reflexivity] || destruct x
  end.

Lemma effect_args_view m r pid op a :
  plans r = plans m → artifact r a = artifact m a →
  validate_effect_args r pid op a = validate_effect_args m pid op a.
Proof.
  intros Hp Ha. unfold validate_effect_args. rewrite Ha. same_bind.
  by rewrite (effect_contract_view m r) by done.
Qed.

Lemma admit_view m r env :
  same_view (named_refs (command env)) m r → admit_command r env = admit_command m env.
Proof.
  intros [Hp Ha Hpr Hr]. unfold admit_command, admit_run_start_command, admit_attempt_command,
    admit_scope_open_command, admit_effect_proposal_command, admit_effect_run,
    admit_scope_close_command, admit_migration_command, admit_run_termination_command,
    machine_run, require_execution_binding, validate_run_input.
  destruct (command env) eqn:Hc; unfold named_refs in Hr; cbn [named_material snd] in Hr;
    rewrite ?Hp, ?Ha, ?Hpr; try done.
  - by agree_refs r Hr.
  - agree_refs r Hr. same_bind.
    rewrite (effect_args_view m r) by (done || apply Hr; set_solver). same_bind.
    by rewrite (effect_contract_view m r).
  - destruct result; [|done]. by agree_refs r Hr.
  - by agree_refs r Hr.
  - by agree_refs r Hr.
Qed.

(** The events of a batch are those of a machine with the same view. *)
Lemma batch_view m r env hash :
  same_view (named_refs (command env)) m r →
  command_event_batch r env hash = command_event_batch m env hash.
Proof.
  intros Hv. unfold command_event_batch, run_frontier. by rewrite (admit_view m r), (sv_projection _ _ _ Hv).
Qed.

Lemma event_authority_view m r ev :
  same_view (payload_refs (payload ev)) m r → validate_event_authority r ev = validate_event_authority m ev.
Proof.
  intros [Hp Ha Hpr Hr]. unfold validate_event_authority, validate_event_plan_authority,
    validate_payload_material, validate_scope_open, validate_effect_proposal,
    validate_run_start_authority, validate_run_input, require_execution_binding, machine_run.
  destruct (payload ev) as [| | | | | | | | | | | |res| |]; cbn [payload_refs] in Hr;
    rewrite ?Hp, ?Ha, ?Hpr; try done.
  - by agree_refs r Hr.
  - cbn [mbind result_bind]. agree_refs r Hr. rewrite (effect_args_view m r) by (done || apply Hr; set_solver).
    same_bind. by rewrite (effect_contract_view m r).
  - destruct res; [|done]. by agree_refs r Hr.
  - by agree_refs r Hr.
  - by agree_refs r Hr.
Qed.

(** ** Applying a batch in another machine *)

(** What counts as history for a causal parent *)
Definition knows (m : Machine) (i : string) : Prop :=
  is_Some (events m !! i) ∨ i ∈ compacted_event_ids m.

Lemma new_event_view m r ev pending :
  same_view (payload_refs (payload ev)) m r → (∀ i, knows r i → knows m i) →
  (∀ i, i ∈ parents ev → knows m i → knows r i) →
  validate_new_event_with_pending m ev pending = Ok () →
  validate_new_event_with_pending r ev pending = Ok ().
Proof.
  intros Hv Hk Hpar. unfold validate_new_event_with_pending.
  rewrite (event_authority_view m r ev Hv). intros Hok. apply bind_Ok in Hok as ([] & -> & Hok).
  apply bind_Ok in Hok as ([] & Hc & Hok). apply bind_Ok in Hok as ([] & He & Hok).
  apply bind_Ok in Hok as ([] & Hca & Hok). apply require_Ok in Hc, He. to_prop.
  assert (¬ knows r (event_id ev)) as Hn.
  { intros [[x Hx]|Hx]%Hk; [congruence|done]. }
  cbn [mbind result_bind]. rewrite (bool_decide_eq_true_2 (event_id ev ∉ _)) by (intros Hin; apply Hn; by right).
  rewrite (bool_decide_eq_true_2 (events r !! _ = None)) by
    (apply eq_None_not_Some; intros Hin; apply Hn; by left).
  cbn [mbind result_bind require]. revert Hca. unfold validate_causality.
  intros (u & Hall & Hca)%bind_Ok. unfold machine_run in *. rewrite (sv_projection _ _ _ Hv), Hca.
  assert (try_each (λ parent : string,
      if negb (bool_decide (is_Some (events r !! parent)))
         && negb (bool_decide (parent ∈ compacted_event_ids r))
         && negb (bool_decide (parent ∈ pending))
      then Err Causal else Ok ()) (parents ev) = Ok ()) as ->; [|done].
  destruct u. rewrite try_each_Ok in *. intros i Hi. specialize (Hall i Hi). cbn in *.
  specialize (Hpar i Hi). unfold knows in Hpar. repeat case_bool_decide; cbn in *; try done; naive_solver.
Qed.

(** A batch that applies in [m] applies in [r] with the same result. *)
Lemma apply_batch_view m r evs m2 root :
  plans r = plans m → artifacts r = artifacts m → projection r = projection m →
  projection_root (authority r) = projection_root (authority m) →
  (∀ ev x, ev ∈ evs → x ∈ payload_refs (payload ev) → artifact r x = artifact m x) →
  (∀ i, knows r i → knows m i) → (∀ ev i, ev ∈ evs → i ∈ parents ev → knows m i → knows r i) →
  apply_command_event_batch m evs = Ok (m2, root) →
  apply_command_event_batch r evs = Ok (Machine.set_projection (projection m2) r, root).
Proof.
  intros Hp Ha Hpr Hroot Hr Hk Hpar Hap. unfold apply_command_event_batch in *.
  apply bind_Ok in Hap as ([[mr rt] pend] & Hf & [= -> ->]). rewrite Hroot.
  assert (∃ p, m = Machine.set_projection p m) as Hm by (exists (projection m); by destruct m).
  assert (r = Machine.set_projection (projection m) r) as Hr0 by (rewrite <-Hpr; by destruct r).
  rewrite Hr0 at 1. revert Hf. generalize (∅ : gset string). generalize (projection_root (authority m)).
  destruct Hm as [p0 Hm].
  cut (∀ p evs' rt0 pend0, (∀ ev, ev ∈ evs' → ev ∈ evs) →
    try_fold apply_batch_event (Machine.set_projection p m, rt0, pend0) evs' = Ok (m2, root, pend) →
    (st ← try_fold apply_batch_event (Machine.set_projection p r, rt0, pend0) evs'; Ok st.1)
    = Ok (Machine.set_projection (projection m2) r, root)).
  { intros Hcut rt0 pend0 Hf. apply (Hcut (projection m) evs); [done|].
    by rewrite set_projection_id. }
  clear Hm p0 Hr0. intros p evs'. revert p. induction evs' as [|ev evs' IH]; intros p rt0 pend0 Hin Hf.
  - cbn in *. injection Hf as <- <- <-. done.
  - cbn [try_fold] in *. apply bind_Ok in Hf as ([[m1 rt1] pend1] & Hs & Hf).
    unfold apply_batch_event in Hs. apply bind_Ok in Hs as ([] & Hv & Hs).
    apply bind_Ok in Hs as (p1 & Hap & Hs). apply bind_Ok in Hs as ([] & Hfoot & Hs).
    apply bind_Ok in Hs as (rt' & Hrt & [= <- <- <-]). cbn in Hap, Hf.
    assert (apply_batch_event (Machine.set_projection p r, rt0, pend0) ev
      = Ok (Machine.set_projection p1 r, rt', {[event_id ev]} ∪ pend0)) as ->.
    2: { cbn [mbind result_bind]. apply IH; [set_solver|exact Hf]. }
    unfold apply_batch_event.
    rewrite (new_event_view (Machine.set_projection p m) (Machine.set_projection p r) ev pend0).
    + cbn. rewrite Hap. cbn. rewrite Hfoot. cbn. by rewrite Hrt.
    + split; cbn; [done..|]. intros x Hx. apply (Hr ev); [set_solver|done].
    + exact Hk.
    + intros i Hi. apply (Hpar ev); [set_solver|done].
    + exact Hv.
Qed.

(** ** Machines without staged material *)

(** [m] without its staged material, and with other stored proofs *)
Definition twin (Q : gmap string MachineCommandIndexProof) (m : Machine) : Machine :=
  set_command_index_proofs Q (set_staged_plans ∅ (set_staged_artifacts ∅ m)).

Lemma retain_plan_twin Q m p : retain_plan (twin Q m) p = twin Q <$> retain_plan m p.
Proof.
  unfold retain_plan. destruct (SealedPlan_verify p); cbn; [|done].
  destruct (plans m !! plan_id p); cbn; [by case_bool_decide|]. by destruct (commitment_insert _ _ _).
Qed.
Lemma retain_artifact_twin Q m a : retain_artifact (twin Q m) a = twin Q <$> retain_artifact m a.
Proof.
  unfold retain_artifact. destruct (ArtifactRecord_validate a); cbn; [|done].
  destruct (artifacts m !! artifact_id (reference a)); cbn; [by case_bool_decide|].
  by destruct (commitment_insert _ _ _).
Qed.
Lemma insert_batch_twin Q m b : Machine.insert_batch (twin Q m) b = twin Q <$> Machine.insert_batch m b.
Proof.
  unfold Machine.insert_batch. destruct (BatchRecord_verify b); cbn; [|done].
  destruct (batches m !! br_batch_id b); cbn; [by case_bool_decide|].
  destruct (commitment_insert _ _ _); cbn; [|done]. by destruct (ok_or _ _).
Qed.
Lemma authority_root_twin Q m : authority_root (twin Q m) = authority_root m.
Proof. done. Qed.
Lemma foldl_twin {A} Q (f : Machine → A → Machine) l m :
  (∀ m a, twin Q (f m a) = twin Q m) → twin Q (foldl f m l) = twin Q m.
Proof. intros Hf. revert m. induction l as [|a l IH]; intros m; [done|]. cbn. by rewrite IH, Hf. Qed.

(** ** Retained material *)

(** The commitment over a list of identities *)
Definition commitment_of (domain : string) (l : list string) : core string :=
  root ← commitment_genesis domain; try_fold (commitment_insert domain) root l.
Lemma commitment_snoc domain l root i root' :
  commitment_of domain l = Ok root → commitment_insert domain root i = Ok root' →
  commitment_of domain (l ++ [i]) = Ok root'.
Proof.
  unfold commitment_of. intros (g & -> & Hl)%bind_Ok Hi. cbn [mbind result_bind].
  rewrite try_fold_app, Hl. cbn. by rewrite Hi.
Qed.

(** The retained material is valid, listed in its order and committed to. *)
Record stored (m : Machine) : Prop := {
  st_plans : plans_verified m;
  st_plan_order : NoDup (plan_order m);
  st_plan_dom : ∀ i, is_Some (plans m !! i) ↔ i ∈ plan_order m;
  st_plan_root : commitment_of MACHINE_PLAN_ADMISSION_COMMITMENT_DOMAIN (plan_order m)
    = Ok (auth_plans (authority m));
  st_artifacts : ∀ i a, artifacts m !! i = Some a →
    ArtifactRecord_validate a = Ok () ∧ record_id a = i;
  st_artifact_order : NoDup (artifact_order m);
  st_artifact_dom : ∀ i, is_Some (artifacts m !! i) ↔ i ∈ artifact_order m;
  st_artifact_root : commitment_of MACHINE_ARTIFACT_ADMISSION_COMMITMENT_DOMAIN (artifact_order m)
    = Ok (auth_artifacts (authority m));
}.
(** [m'] has the material of [m] and more, in the same order. *)
Record grows (m m' : Machine) : Prop := {
  gr_plans : plans m ⊆ plans m';
  gr_plan_order : plan_order m `prefix_of` plan_order m';
  gr_artifacts : artifacts m ⊆ artifacts m';
  gr_artifact_order : artifact_order m `prefix_of` artifact_order m';
}.
#[export] Instance grows_preorder : PreOrder grows.
Proof. split; [by split|]. intros a b c [] []. split; by etrans. Qed.

Lemma retain_plan_stored m p m' :
  retain_plan m p = Ok m' → stored m → stored m' ∧ grows m m' ∧ plans m' !! plan_id p = Some p.
Proof.
  unfold retain_plan. intros Hr Hs. apply bind_Ok in Hr as ([] & Hv & Hr).
  destruct (plans m !! plan_id p) as [q|] eqn:Hl.
  - apply bind_Ok in Hr as ([] & Hq & [= <-]). apply require_Ok in Hq. to_prop. by subst q.
  - apply bind_Ok in Hr as (root & Hi & [= <-]). cbn. rewrite lookup_insert_eq.
    split; [|split; [split; cbn; try done; [by apply insert_subseteq|by eexists]|done]].
    destruct Hs as [Hp Ho Hd Hro Ha Hao Had Har]. split; cbn; try done.
    + intros i q. cbn. destruct (decide (i = plan_id p)) as [->|].
      * rewrite lookup_insert_eq. by intros [= <-].
      * rewrite lookup_insert_ne by done. apply Hp.
    + apply NoDup_app. split; [done|]. split; [|apply NoDup_singleton].
      intros i Hx ->%list_elem_of_singleton. apply Hd in Hx as [? ?]. congruence.
    + intros i. rewrite lookup_insert_is_Some', elem_of_app, list_elem_of_singleton, <-Hd. naive_solver.
    + by eapply commitment_snoc.
Qed.
Lemma retain_artifact_stored m a m' :
  retain_artifact m a = Ok m' → stored m → stored m' ∧ grows m m' ∧ artifacts m' !! record_id a = Some a.
Proof.
  unfold retain_artifact, record_id. intros Hr Hs. apply bind_Ok in Hr as ([] & Hv & Hr).
  destruct (artifacts m !! artifact_id (reference a)) as [q|] eqn:Hl.
  - apply bind_Ok in Hr as ([] & Hq & [= <-]). apply require_Ok in Hq. to_prop. by subst q.
  - apply bind_Ok in Hr as (root & Hi & [= <-]). cbn. rewrite lookup_insert_eq.
    split; [|split; [split; cbn; try done; [by apply insert_subseteq|by eexists]|done]].
    destruct Hs as [Hp Ho Hd Hro Ha Hao Had Har]. split; cbn; try done.
    + intros i q. destruct (decide (i = artifact_id (reference a))) as [->|].
      * rewrite lookup_insert_eq. by intros [= <-].
      * rewrite lookup_insert_ne by done. apply Ha.
    + apply NoDup_app. split; [done|]. split; [|apply NoDup_singleton].
      intros i Hi' ->%list_elem_of_singleton. apply Had in Hi' as [? ?]. congruence.
    + intros i. rewrite lookup_insert_is_Some', elem_of_app, list_elem_of_singleton, <-Had. naive_solver.
    + by eapply commitment_snoc.
Qed.
Lemma retain_plans_stored l m m' :
  try_fold retain_plan m l = Ok m' → stored m →
  stored m' ∧ grows m m' ∧ ∀ p, p ∈ l → plans m' !! plan_id p = Some p.
Proof.
  revert m. induction l as [|p l IH]; intros m Hl Hs.
  - injection Hl as <-. split; [done|]. split; [done|]. by intros ? ?%elem_of_nil.
  - cbn [try_fold] in Hl. apply bind_Ok in Hl as (m1 & Hp & Hl).
    destruct (retain_plan_stored _ _ _ Hp Hs) as (Hs1 & Hg & Hlk).
    destruct (IH _ Hl Hs1) as (Hs' & Hg' & Hall). split; [done|]. split; [by etrans|].
    intros q [->|Hq]%elem_of_cons; [|by apply Hall]. eapply lookup_weaken; [exact Hlk|apply Hg'].
Qed.
Lemma retain_artifacts_stored l m m' :
  try_fold retain_artifact m l = Ok m' → stored m →
  stored m' ∧ grows m m' ∧ ∀ a, a ∈ l → artifacts m' !! record_id a = Some a.
Proof.
  revert m. induction l as [|p l IH]; intros m Hl Hs.
  - injection Hl as <-. split; [done|]. split; [done|]. by intros ? ?%elem_of_nil.
  - cbn [try_fold] in Hl. apply bind_Ok in Hl as (m1 & Hp & Hl).
    destruct (retain_artifact_stored _ _ _ Hp Hs) as (Hs1 & Hg & Hlk).
    destruct (IH _ Hl Hs1) as (Hs' & Hg' & Hall). split; [done|]. split; [by etrans|].
    intros q [->|Hq]%elem_of_cons; [|by apply Hall]. eapply lookup_weaken; [exact Hlk|apply Hg'].
Qed.

(** What staging found, the catalog finds. *)
Lemma admit_plans_view Q (f : string → option SealedPlan) pids m m' ps :
  try_fold retain_plan m (omap f pids) = Ok m' → stored m → (∀ i p, f i = Some p → plan_id p = i) →
  (∀ i, i ∈ pids → is_Some (f i) ∨ is_Some (plans m !! i)) → plans m' ⊆ ps →
  try_fold (admit_catalog_plan ps) (twin Q m) pids = Ok (twin Q m').
Proof.
  revert m. induction pids as [|i pids IH]; intros m Hf Hs Hkey Hall Hsub; [by injection Hf as <-|].
  assert (∀ m1, admit_catalog_plan ps (twin Q m) i = Ok (twin Q m1) → stored m1 → plans m ⊆ plans m1 →
    try_fold retain_plan m1 (omap f pids) = Ok m' →
    try_fold (admit_catalog_plan ps) (twin Q m) (i :: pids) = Ok (twin Q m')) as Hnext.
  { intros m1 Hstep Hs1 Hm1 Hf1. cbn [try_fold]. rewrite Hstep. cbn [mbind result_bind].
    apply IH; try done. intros j Hj. destruct (Hall j) as [?|[p Hp]]; [by right|by left|].
    right. exists p. by eapply lookup_weaken. }
  unfold admit_catalog_plan in Hnext at 1. cbn [plans twin set_command_index_proofs
    set_staged_plans set_staged_artifacts] in Hnext. cbn [omap list_omap] in Hf. destruct (f i) as [p|] eqn:Hp.
  - pose proof (Hkey _ _ Hp) as Hi. cbn [try_fold] in Hf. apply bind_Ok in Hf as (m1 & Hr & Hf).
    destruct (retain_plan_stored _ _ _ Hr Hs) as (Hs1 & Hg & Hl). case_decide as Hd.
    + assert (m1 = m) as ->; [|by apply (Hnext m)].
      unfold retain_plan in Hr. apply bind_Ok in Hr as ([] & _ & Hr). rewrite Hi in Hr.
      destruct Hd as [q Hq]. rewrite Hq in Hr. by apply bind_Ok in Hr as ([] & _ & [= ->]).
    + destruct (retain_plans_stored _ _ _ Hf Hs1) as (_ & Hg' & _).
      assert (ps !! i = Some p) as Hp'
        by (eapply lookup_weaken; [rewrite <-Hi; exact Hl|etrans; [apply Hg'|exact Hsub]]).
      rewrite Hp' in Hnext. apply (Hnext m1); [|done|apply Hg|done]. cbn [ok_or mbind result_bind].
      by rewrite retain_plan_twin, Hr.
  - destruct (Hall i) as [[? ?]|Hd]; [by left|congruence|]. rewrite decide_True in Hnext by done.
    by apply (Hnext m).
Qed.
Lemma admit_artifacts_view Q (f : ArtifactRef → option ArtifactRecord) refs m m' arts :
  try_fold retain_artifact m (omap f refs) = Ok m' → stored m →
  (∀ r a, r ∈ refs → f r = Some a → reference a = r) →
  (∀ r, r ∈ refs → is_Some (f r) ∨ is_Some (artifacts m !! artifact_id r)) → artifacts m' ⊆ arts →
  try_fold (admit_catalog_artifact arts) (twin Q m) refs = Ok (twin Q m').
Proof.
  revert m. induction refs as [|r refs IH]; intros m Hf Hs Hkey Hall Hsub; [by injection Hf as <-|].
  assert (∀ m1, admit_catalog_artifact arts (twin Q m) r = Ok (twin Q m1) → stored m1 →
    artifacts m ⊆ artifacts m1 → try_fold retain_artifact m1 (omap f refs) = Ok m' →
    try_fold (admit_catalog_artifact arts) (twin Q m) (r :: refs) = Ok (twin Q m')) as Hnext.
  { intros m1 Hstep Hs1 Hm1 Hf1. cbn [try_fold]. rewrite Hstep. cbn [mbind result_bind].
    apply IH; try done; [intros x a Hx; apply Hkey; by right|].
    intros j Hj. destruct (Hall j) as [?|[p Hp]]; [by right|by left|].
    right. exists p. by eapply lookup_weaken. }
  unfold admit_catalog_artifact in Hnext at 1. cbn [artifacts twin set_command_index_proofs
    set_staged_plans set_staged_artifacts] in Hnext. cbn [omap list_omap] in Hf. destruct (f r) as [a|] eqn:Ha.
  - assert (reference a = r) as Hi by (apply Hkey; [by left|done]). cbn [try_fold] in Hf.
    apply bind_Ok in Hf as (m1 & Hr & Hf).
    destruct (retain_artifact_stored _ _ _ Hr Hs) as (Hs1 & Hg & Hl). case_decide as Hd.
    + assert (m1 = m) as ->; [|by apply (Hnext m)].
      unfold retain_artifact in Hr. apply bind_Ok in Hr as ([] & _ & Hr). rewrite Hi in Hr.
      destruct Hd as [q Hq]. rewrite Hq in Hr. by apply bind_Ok in Hr as ([] & _ & [= ->]).
    + destruct (retain_artifacts_stored _ _ _ Hf Hs1) as (_ & Hg' & _).
      unfold batch_artifact_from_catalog in Hnext.
      assert (arts !! artifact_id r = Some a) as Ha'
        by (eapply lookup_weaken; [rewrite <-Hi; exact Hl|etrans; [apply Hg'|exact Hsub]]).
      rewrite Ha' in Hnext. apply (Hnext m1); [|done|apply Hg|done]. cbn [ok_or mbind result_bind].
      rewrite (bool_decide_eq_true_2 (reference a = r)) by done. cbn [require mbind result_bind].
      by rewrite retain_artifact_twin, Hr.
  - destruct (Hall r) as [[? ?]|Hd]; [by left|congruence|]. rewrite decide_True in Hnext by done.
    by apply (Hnext m).
Qed.

(** Staged material is keyed by its identity. *)
Record staged_keyed (m : Machine) : Prop := {
  sk_plans : ∀ i p, staged_plans m !! i = Some p → plan_id p = i;
  sk_artifacts : ∀ i a, staged_artifacts m !! i = Some a → record_id a = i;
}.
Lemma staged_keyed_sub m m' :
  staged_plans m' ⊆ staged_plans m → staged_artifacts m' ⊆ staged_artifacts m →
  staged_keyed m → staged_keyed m'.
Proof. intros Hp Ha [Hkp Hka]. split; intros i x Hx; [apply Hkp|apply Hka]; by eapply lookup_weaken. Qed.

(** Nothing but material differs. *)
Record same_history (m m' : Machine) : Prop := {
  sh_log : same_log m m';
  sh_chain : same_chain m m';
  sh_batches : batches m' = batches m ∧ batch_order m' = batch_order m;
  sh_counts : auth_batches (authority m') = auth_batches (authority m)
    ∧ batch_count (authority m') = batch_count (authority m);
  sh_anchor : base_anchor m' = base_anchor m;
}.
#[export] Instance same_history_preorder : PreOrder same_history.
Proof.
  split; [by split|]. intros a b c [? ? [] [] ?] [? ? [] [] ?].
  split; [by etrans|by etrans|split; by etrans|split; by etrans|by etrans].
Qed.
Lemma retain_plan_history m p m' :
  retain_plan m p = Ok m' → same_history m m' ∧ staged_plans m' = staged_plans m
  ∧ staged_artifacts m' = staged_artifacts m.
Proof.
  intros Hr. pose proof (retain_plan_chain _ _ _ Hr). destruct (retain_plan_step _ _ _ Hr) as [? _].
  unfold retain_plan in Hr. apply bind_Ok in Hr as ([] & _ & Hr). destruct (plans m !! plan_id p); by inv_ok.
Qed.
Lemma retain_artifact_history m a m' :
  retain_artifact m a = Ok m' → same_history m m' ∧ staged_plans m' = staged_plans m
  ∧ staged_artifacts m' = staged_artifacts m.
Proof.
  intros Hr. pose proof (retain_artifact_chain _ _ _ Hr). destruct (retain_artifact_step _ _ _ Hr) as [? _].
  unfold retain_artifact in Hr. apply bind_Ok in Hr as ([] & _ & Hr). destruct (artifacts m !! _); by inv_ok.
Qed.
Lemma retains_history {A} (f : Machine → A → core Machine) l m m' :
  (∀ m a m', f m a = Ok m' → same_history m m' ∧ staged_plans m' = staged_plans m
    ∧ staged_artifacts m' = staged_artifacts m) →
  try_fold f m l = Ok m' → same_history m m' ∧ staged_plans m' = staged_plans m
    ∧ staged_artifacts m' = staged_artifacts m.
Proof.
  intros Hf. revert m. induction l as [|a l IH]; intros m Hl; [by injection Hl as <-|].
  cbn [try_fold] in Hl. apply bind_Ok in Hl as (m1 & Ha & Hl). destruct (Hf _ _ _ Ha) as (? & ? & ?).
  destruct (IH _ Hl) as (? & ? & ?). split; [by etrans|]. split; congruence.
Qed.

(** Removing staged material *)
Lemma unstage_plans l m :
  let m' := foldl (λ m p, set_staged_plans (delete (plan_id p) (staged_plans m)) m) m l in
  ∃ s, m' = set_staged_plans s m ∧ s ⊆ staged_plans m.
Proof.
  revert m. induction l as [|p l IH]; intros m; cbn; [exists (staged_plans m); by destruct m|].
  destruct (IH (set_staged_plans (delete (plan_id p) (staged_plans m)) m)) as (s & -> & Hs).
  exists s. split; [done|]. etrans; [exact Hs|]. apply delete_subseteq.
Qed.
Lemma unstage_artifacts l m :
  let m' := foldl (λ m a, set_staged_artifacts
              (delete (artifact_id (reference a)) (staged_artifacts m)) m) m l in
  ∃ s, m' = set_staged_artifacts s m ∧ s ⊆ staged_artifacts m.
Proof.
  revert m. induction l as [|p l IH]; intros m; cbn; [exists (staged_artifacts m); by destruct m|].
  match goal with |- context [foldl _ (set_staged_artifacts ?x m) l] =>
    destruct (IH (set_staged_artifacts x m)) as (s & -> & Hs) end.
  exists s. split; [done|]. etrans; [exact Hs|]. apply delete_subseteq.
Qed.

(** The records that the staging check lets pass *)
Lemma staged_records_Ok (f : ArtifactRef → option ArtifactRecord) refs records :
  try_map (λ ra : ArtifactRef * ArtifactRecord,
      let '(r, a) := ra in if decide (reference a = r) then Ok a else Err IdentityMismatch)
    (omap (λ r, a ← f r; Some (r, a)) refs) = Ok records →
  records = omap f refs ∧ ∀ r a, r ∈ refs → f r = Some a → reference a = r.
Proof.
  revert records. induction refs as [|r refs IH]; intros records Hm.
  - injection Hm as <-. split; [done|]. by intros ? ? ?%elem_of_nil.
  - cbn in Hm. destruct (f r) as [a|] eqn:Ha; cbn in Hm.
    + apply bind_Ok in Hm as (a' & Hd & Hm). apply bind_Ok in Hm as (l & Hl & [= <-]).
      case_decide as Hr; [|done]. injection Hd as <-. destruct (IH _ Hl) as [-> Hall]. cbn. rewrite Ha.
      split; [done|]. intros x b [->|Hx]%elem_of_cons Hb; [congruence|by apply Hall].
    + destruct (IH _ Hm) as [-> Hall]. cbn. rewrite Ha. split; [done|].
      intros x b [->|Hx]%elem_of_cons Hb; [congruence|by apply Hall].
Qed.

(** Staged material that a command admits, and the same from a catalog *)
Lemma admit_staged_replays m c m' :
  admit_staged_command_material m c = Ok m' → stored m → staged_keyed m →
  ∃ pids refs, command_material_membership c = Ok (pids, refs)
    ∧ stored m' ∧ grows m m' ∧ staged_keyed m' ∧ same_history m m'
    ∧ (∀ i, i ∈ pids → is_Some (plans m' !! i)) ∧ (∀ x, x ∈ refs → is_Some (artifacts m' !! artifact_id x))
    ∧ ∀ Q ps arts, plans m' ⊆ ps → artifacts m' ⊆ arts → ∃ m1,
        try_fold (admit_catalog_plan ps) (twin Q m) pids = Ok m1
        ∧ try_fold (admit_catalog_artifact arts) m1 refs = Ok (twin Q m').
Proof.
  unfold admit_staged_command_material. intros Ha Hs Hk.
  apply bind_Ok in Ha as ([pids refs] & Hmem & Ha). exists pids, refs. split; [done|].
  apply bind_Ok in Ha as ([] & Hmiss & Ha). apply bind_Ok in Ha as (records & Hrec & Ha).
  apply staged_records_Ok in Hrec as [-> Href].
  apply bind_Ok in Ha as (m1 & H1' & Ha). apply bind_Ok in Ha as (m2 & H2' & Ha). injection Ha as <-.
  apply require_Ok, negb_true_iff, orb_false_iff in Hmiss as [Hmp Hma].
  assert (∀ i, i ∈ pids → is_Some (staged_plans m !! i) ∨ is_Some (plans m !! i)) as Hpids.
  { intros i Hi. destruct (plans m !! i) eqn:Hp; [by right; eauto|]. left.
    destruct (staged_plans m !! i) eqn:Hsp; [by eauto|]. exfalso. rewrite <-not_true_iff_false in Hmp.
    apply Hmp, existsb_exists. exists i. rewrite <-list_elem_of_In, Hp, Hsp. done. }
  assert (∀ x, x ∈ refs → is_Some (staged_artifacts m !! artifact_id x)
    ∨ is_Some (artifacts m !! artifact_id x)) as Hrefs.
  { intros i Hi. destruct (artifacts m !! artifact_id i) eqn:Hp; [by right; eauto|]. left.
    destruct (staged_artifacts m !! artifact_id i) eqn:Hsp; [by eauto|]. exfalso.
    rewrite <-not_true_iff_false in Hma. apply Hma, existsb_exists. exists i.
    rewrite <-list_elem_of_In, Hp, Hsp. done. }
  destruct (retain_plans_stored _ _ _ H1' Hs) as (Hs1 & Hg1 & Hin1).
  destruct (retain_artifacts_stored _ _ _ H2' Hs1) as (Hs2 & Hg2 & Hin2).
  destruct (retains_history retain_plan _ _ _ retain_plan_history H1') as (Hh1 & Hsp1 & Hsa1).
  destruct (retains_history retain_artifact _ _ _ retain_artifact_history H2') as (Hh2 & Hsp2 & Hsa2).
  set (mp := foldl _ m2 _). destruct (unstage_plans (omap (λ i, staged_plans m !! i) pids) m2) as (sp & Hmp' & Hsp).
  fold mp in Hmp'. set (ma := foldl _ mp _).
  destruct (unstage_artifacts (omap (λ x, staged_artifacts m !! artifact_id x) refs) mp) as (sa & Hma' & Hsa).
  fold ma in Hma'. rewrite Hmp' in Hma', Hsa. clearbody mp ma. subst ma mp.
  split; [by destruct Hs2|]. split; [by destruct (transitivity Hg1 Hg2)|].
  split.
  { apply (staged_keyed_sub m); [| |exact Hk]; cbn in *.
    - by rewrite <-Hsp1, <-Hsp2.
    - by rewrite <-Hsa1, <-Hsa2. }
  split. { by destruct (transitivity Hh1 Hh2) as [[] [] [] [] ?]. }
  assert (∀ x, x ∈ refs → is_Some (staged_artifacts m !! artifact_id x)
    ∨ is_Some (artifacts m1 !! artifact_id x)) as Hrefs1.
  { intros x Hx. destruct (Hrefs x Hx) as [?|[a Ha]]; [by left|right]. exists a.
    eapply lookup_weaken; [exact Ha|apply Hg1]. }
  split_and!; cbn.
  - intros i Hi. destruct (Hpids i Hi) as [[p Hp]|[p Hp]]; exists p.
    + eapply lookup_weaken; [|apply Hg2]. rewrite <-(sk_plans _ Hk _ _ Hp). apply Hin1.
      apply list_elem_of_omap. by exists i.
    + eapply lookup_weaken; [exact Hp|]. etrans; [apply Hg1|apply Hg2].
  - intros x Hx. destruct (Hrefs1 x Hx) as [[a Ha]|[a Ha]]; exists a.
    + rewrite <-(sk_artifacts _ Hk _ _ Ha). apply Hin2. apply list_elem_of_omap. by exists x.
    + eapply lookup_weaken; [exact Ha|apply Hg2].
  - intros Q ps arts Hps Harts. exists (twin Q m1). split.
    + eapply admit_plans_view; [exact H1'|done|by apply Hk|exact Hpids|]. etrans; [apply Hg2|exact Hps].
    + change (twin Q _) with (twin Q m2) at 2.
      eapply admit_artifacts_view; [exact H2'|done|exact Href|exact Hrefs1|exact Harts].
Qed.

(** ** The material of a Run start *)

Lemma account_swap a b t t1 t2 :
  account_read_bytes a t = Ok t1 → account_read_bytes b t1 = Ok t2 →
  ∃ u, account_read_bytes b t = Ok u ∧ account_read_bytes a u = Ok t2.
Proof.
  unfold account_read_bytes. intros Ha Hb.
  apply bind_Ok in Ha as (ba & Hba & Ha). apply bind_Ok in Ha as ([] & Hla & Ha).
  apply bind_Ok in Ha as (ta & Hta & Ha). apply bind_Ok in Ha as ([] & Hma & [= <-]).
  apply bind_Ok in Hb as (bb & Hbb & Hb). apply bind_Ok in Hb as ([] & Hlb & Hb).
  apply bind_Ok in Hb as (tb & Htb & Hb). apply bind_Ok in Hb as ([] & Hmb & [= <-]).
  rewrite Hba, Hbb. cbn [mbind result_bind]. rewrite Hla, Hlb. cbn [mbind result_bind].
  apply ok_or_Ok, checked_add_Some in Hta as [-> Hta]. apply ok_or_Ok, checked_add_Some in Htb as [-> Htb].
  apply require_Ok in Hma, Hmb. exists (t + byte_len bb)%N.
  rewrite !checked_add_fits by lia. cbn [ok_or mbind result_bind].
  assert ((t + byte_len bb <=? MAX_PINNED_MACHINE_READ_SET_BYTES)%N = true) as ->
    by (apply N.leb_le; apply N.leb_le in Hmb; lia).
  cbn [require mbind result_bind]. rewrite (N.add_comm (t + byte_len bb)), N.add_assoc,
    (N.add_comm (byte_len ba)), Hmb. done.
Qed.
Lemma leb_flip a b : String.leb a b = false → String.leb b a = true.
Proof.
  unfold String.leb. rewrite (String.compare_antisym a b). by destruct (String.compare b a).
Qed.
Lemma sort_two {A} (key : A → string) x y :
  sort_by_key key [x; y] = if String.leb (key x) (key y) then [x; y] else [y; x].
Proof. done. Qed.

(** The digest of material does not depend on the order of two artifacts. *)
Lemma material_swap cid p a b w :
  MachineMaterialAdmission_new cid [p] [a; b] = Ok w → record_id a ≠ record_id b
  ∧ MachineMaterialAdmission_new cid [p] [b; a] = Ok w.
Proof.
  unfold MachineMaterialAdmission_new. intros Hw. apply bind_Ok in Hw as ([] & Hi & Hw).
  apply bind_Ok in Hw as ([] & Hl & Hw). apply bind_Ok in Hw as ([] & Hp & Hw).
  apply bind_Ok in Hw as (t & Ht & Hw). apply bind_Ok in Hw as (u & Hu & Hw).
  apply bind_Ok in Hw as ([] & Had & Hw). apply bind_Ok in Hw as (digest & Hd & [= <-]).
  assert (record_id a ≠ record_id b) as Hne.
  { intros Heq. rewrite sort_two, Heq in Had. apply require_Ok, negb_true_iff, orb_false_iff in Had as [_ Had].
    destruct (String.leb _ _); cbn in Had; rewrite Heq in Had; by rewrite bool_decide_eq_true_2 in Had. }
  split; [done|]. rewrite Hi. cbn [mbind result_bind].
  assert (sort_by_key record_id [b; a] = sort_by_key record_id [a; b]) as Hsort.
  { rewrite !sort_two. destruct (String.leb (record_id a) (record_id b)) eqn:Hab.
    - destruct (String.leb (record_id b) (record_id a)) eqn:Hba; [|done].
      destruct Hne. by apply str_le_antisym.
    - by rewrite (leb_flip _ _ Hab). }
  rewrite Hsort. match goal with |- (require ?c _ ≫= _) = _ => assert (c = true) as -> by reflexivity end.
  cbn [require mbind result_bind]. rewrite Hp. cbn [mbind result_bind]. rewrite Ht. cbn [mbind result_bind].
  cbn [try_fold] in Hu. apply bind_Ok in Hu as (t1 & H1' & Hu). apply bind_Ok in Hu as (t2 & H2' & [= <-]).
  apply bind_Ok in H1' as ([] & Hva & H1'). apply bind_Ok in H2' as ([] & Hvb & H2').
  destruct (account_swap _ _ _ _ _ H1' H2') as (x & Hx1 & Hx2).
  cbn [try_fold]. rewrite Hvb. cbn [mbind result_bind]. rewrite Hx1. cbn [mbind result_bind]. rewrite Hva.
  cbn [mbind result_bind]. rewrite Hx2. cbn [mbind result_bind]. rewrite Had. cbn [mbind result_bind].
  by rewrite Hd.
Qed.

(** A Run start names its plan, its binding and its input. *)
Lemma start_membership pid binding input digest attempt pids refs :
  command_material_membership (StartRun pid binding input digest attempt) = Ok (pids, refs) →
  binding ≠ artifact_id input →
  pids = [pid] ∧ (refs = [binding_reference binding; input] ∨ refs = [input; binding_reference binding]).
Proof.
  unfold command_material_membership. cbn [named_material]. intros Hm Hne.
  apply bind_Ok in Hm as ([] & _ & Hm). apply bind_Ok in Hm as ([] & _ & [= <- <-]).
  split; [done|]. destruct (String.leb _ _); cbn [dedup_by_key dedup_after].
  - rewrite decide_False; [by left|]. intros Heq. by apply Hne.
  - rewrite decide_False; [by right|]. intros Heq. by apply Hne.
Qed.

Lemma start_material m env s b ps arts pid binding input digest attempt p :
  stored m → admit_run_start_command m env = Ok p →
  command env = StartRun pid binding input digest attempt →
  (∀ pids refs, command_material_membership (command env) = Ok (pids, refs) →
    material_source b = single_command_material_source env pids refs) →
  is_ok (command_material_membership (command env)) = true → is_Some (artifacts m !! artifact_id input) →
  br_material_digest b = Some digest → plans m ⊆ ps → artifacts m ⊆ arts →
  verify_batch_material_source_from_catalog s b ps arts = Ok ().
Proof.
  intros Hs Ha Hc Hsrc Hmem Hin Hdig Hps Harts. unfold admit_run_start_command in Ha. rewrite Hc in Ha.
  apply bind_Ok in Ha as ([] & _ & Ha). apply bind_Ok in Ha as (plan & Hplan & Ha).
  apply bind_Ok in Ha as (br & Hbr & Ha). apply bind_Ok in Ha as ([] & _ & Ha).
  apply bind_Ok in Ha as ([] & _ & Ha). apply bind_Ok in Ha as (ir & Hir & Ha).
  apply bind_Ok in Ha as (w & Hw & Ha). apply bind_Ok in Ha as ([] & Hwd & _).
  apply ok_or_Ok in Hplan, Hir. apply require_Ok, bool_decide_eq_true in Hwd.
  unfold require_execution_binding in Hbr. apply bind_Ok in Hbr as (br' & Hbl & Hbr).
  apply bind_Ok in Hbr as ([] & Hkind & [= ->]). apply ok_or_Ok in Hbl. apply require_Ok, bool_decide_eq_true in Hkind.
  destruct (st_artifacts _ Hs _ _ Hbl) as [Hbv Hbid].
  assert (reference br = binding_reference binding) as Hbref.
  { unfold ArtifactRecord_validate in Hbv. apply bind_Ok in Hbv as ([] & Hbv & _).
    unfold ArtifactRef_validate in Hbv. apply bind_Ok in Hbv as ([] & Hver & _).
    apply require_Ok, bool_decide_eq_true in Hver. unfold record_id in Hbid.
    destruct (reference br). cbn in *. by subst. }
  unfold artifact in Hir. destruct Hin as [ir' Hil]. rewrite Hil in Hir. cbn in Hir.
  destruct (bool_decide (reference ir' = input)) eqn:Href; [|done]. injection Hir as ->.
  apply bool_decide_eq_true in Href. destruct (material_swap _ _ _ _ _ Hw) as [Hne Hsw].
  unfold record_id in Hbid, Hne. rewrite Hbid, Href in Hne.
  destruct (command_material_membership (command env)) as [[pids refs]|] eqn:Hmm; [|done].
  unfold verify_batch_material_source_from_catalog. rewrite (Hsrc _ _ eq_refl).
  unfold single_command_material_source. rewrite Hc. cbn [is_start_run ms_plan_ids ms_artifacts ms_source_command_id].
  rewrite Hc in Hmm. destruct (start_membership _ _ _ _ _ _ _ Hmm Hne) as [-> Hrefs].
  cbn [try_map]. rewrite (lookup_weaken _ _ _ _ Hplan Hps). cbn [ok_or mbind result_bind].
  assert (∀ x a, artifacts m !! artifact_id x = Some a → reference a = x →
    batch_artifact_from_catalog s x arts = Ok a) as Hcat.
  { intros x a Hx Hax. unfold batch_artifact_from_catalog. rewrite (lookup_weaken _ _ _ _ Hx Harts).
    cbn [ok_or mbind result_bind]. by rewrite bool_decide_eq_true_2. }
  assert (batch_artifact_from_catalog s (binding_reference binding) arts = Ok br) as Hcb by by apply Hcat.
  pose proof (Hcat input ir Hil Href) as Hci.
  destruct Hrefs as [-> | ->]; cbn [try_map]; rewrite Hcb, Hci; cbn [mbind result_bind];
    rewrite ?Hw, ?Hsw; cbn [mbind result_bind]; by rewrite Hdig, Hwd, bool_decide_eq_true_2.
Qed.

(** ** The entry of a submission *)

Section NewEntry.
Context {m env proof m' hash rec new a m1 m2 m4 after parent_root}
  (Hm : machine_inv m) (Henv : validate_envelope env = Ok ())
  (Hao : admission_of m env proof m' hash rec new a m1 m2 m4 after parent_root).

Definition entry_of_submission : MachineCommandArchiveEntry :=
  {| entry_admission := a; entry_command := rec; entry_events := new |}.

Lemma new_entry_verified : ArchiveEntry_verify entry_of_submission = Ok ().
Proof using All.
  unfold ArchiveEntry_verify. cbn [entry_of_submission entry_admission entry_command entry_events].
  pose proof (ao_admission _ _ _ _ _ _ _ _ _ _ _ _ _ Hao) as Ha.
  destruct (new_admission_spec _ _ _ _ _ Ha) as (_ & Hcid & Har).
  rewrite (Har (new_record_verified Hao Henv)). cbn [mbind result_bind].
  destruct (ao_record _ _ _ _ _ _ _ _ _ _ _ _ _ Hao) as (He & Hh & _).
  pose proof (admission_event_ids Hao) as Hids. pose proof (new_receipt_shape Hao) as Hshape.
  assert (adm_status a = receipt_status (receipt rec)) as Hst.
  { specialize (Har (new_record_verified Hao Henv)). unfold verify_admission_record in Har.
    inv_ok. by to_prop. }
  assert (adm_semantic_hash a = hash) as Hah.
  { specialize (Har (new_record_verified Hao Henv)). unfold verify_admission_record in Har.
    inv_ok. to_prop. congruence. }
  rewrite Hids, bool_decide_eq_true_2 by done.
  assert (negb (bool_decide (adm_status a = ReceiptApplied) && bool_decide (new = []))
    && negb (bool_decide (adm_status a = ReceiptConflict) && negb (bool_decide (new = []))) = true) as Hneg.
  { rewrite Hst. unfold receipt_shape_ok in Hshape. rewrite (record_event_ids Hao) in Hshape.
    destruct (receipt_status (receipt rec)); destruct new; cbn in *; try done.
    rewrite Nat.add_1_r in Hshape. done. }
  cbn [andb]. rewrite Hneg. cbn [require mbind result_bind].
  apply try_each_Ok. intros ev Hev.
  assert (event_of_command rec ev ∧ event_ok ev) as [(Hc & Hch & _ & Hmatch) (Hv & Hf & _)].
  { destruct (ao_batch _ _ _ _ _ _ _ _ _ _ _ _ _ Hao) as [(_ & Hn & _)|(_ & Hn & Hap)];
      [rewrite Hn in Hev; by apply elem_of_nil in Hev|].
    destruct (ao_material _ _ _ _ _ _ _ _ _ _ _ _ _ Hao) as [Hms _].
    pose proof (machine_inv_step _ _ Hms Hm) as [Hp1 Hpi1 _].
    destruct (apply_batch_spec _ _ _ _ Hp1 Hpi1 Hap) as (pending & Hbp).
    destruct (command_event_batch_Ok _ _ _ _ Hn) as (p & Hp & Hpay & Hall).
    rewrite Forall_forall in Hall. destruct (Hall _ Hev) as (? & ? & ? & _). split.
    - unfold event_of_command. rewrite He, Hh. split_and!; [done..|].
      eapply batch_payload_matches; [exact Hp|]. rewrite <-Hpay. by apply list_elem_of_fmap_2.
    - pose proof (bp_events _ _ _ Hbp) as Hev'. rewrite Forall_forall in Hev'. by apply Hev'. }
  rewrite Hcid, Hah, Hc, Hch, Hh, !(bool_decide_eq_true_2 (_ = _)) by done. cbn [andb require mbind result_bind].
  rewrite Hv. cbn [mbind result_bind]. rewrite Hf. cbn [mbind result_bind].
  unfold verify_command_event_correspondence. by rewrite Hmatch.
Qed.

Lemma new_entry_in_batch b :
  build_single_command_batch_record parent_root (result_authority_root b) rec = Ok b →
  BatchRecord_verify_entry b entry_of_submission = Ok ().
Proof using All.
  intros Hb. destruct (built_batch _ _ _ _ Hb)
    as (Hv & Hrec & Hid & _ & _ & Hpar & Hapar & intent & Hint & Hmem).
  unfold BatchRecord_verify_entry. rewrite Hv. cbn [mbind result_bind].
  rewrite new_entry_verified. cbn [mbind result_bind entry_of_submission entry_command].
  destruct (ao_record _ _ _ _ _ _ _ _ _ _ _ _ _ Hao) as (He & Hh & Hp & Hl & _).
  match type of Hmem with _ = [?x] =>
    assert (Chain.members b !! N.to_nat (batch_position rec) = Some x) as -> by (by rewrite Hmem, Hp) end.
  assert (receipts b !! N.to_nat (batch_position rec) = Some (receipt rec)) as -> by (by rewrite Hrec, Hp).
  rewrite Hp, Hmem, Hl, Hid, Hpar, Hapar.
  cbn [ok_or mbind result_bind member_command_id member_semantic_hash position intent_hash length].
  rewrite !(bool_decide_eq_true_2 (_ = _)) by done. cbn [Nat.eqb andb N.eqb require mbind result_bind].
  rewrite Hint. cbn [mbind result_bind]. by rewrite !(bool_decide_eq_true_2 (_ = _)) by done.
Qed.
End NewEntry.

(** ** Recording a batch *)

(** [m] with one more batch *)
Definition with_batch (b : MachineCommandBatchRecord) (root : string) (count : N) (m : Machine) : Machine :=
  set_authority (set_batch_count count (set_auth_batches root (authority m)))
    (set_batch_order (batch_order m ++ [br_batch_id b])
      (set_batches (<[br_batch_id b := b]> (batches m)) m)).

Lemma insert_fresh_batch m b m' :
  Machine.insert_batch m b = Ok m' → batches m !! br_batch_id b = None →
  ∃ root, BatchRecord_verify b = Ok ()
    ∧ commitment_insert MACHINE_COMMAND_BATCH_ADMISSION_COMMITMENT_DOMAIN
        (auth_batches (authority m)) (br_batch_id b) = Ok root
    ∧ (batch_count (authority m) + 1 <= MAX_EXACT_INTEGER)%N
    ∧ m' = with_batch b root (batch_count (authority m) + 1) m.
Proof.
  unfold Machine.insert_batch. intros Hi Hn. apply bind_Ok in Hi as ([] & Hv & Hi). rewrite Hn in Hi.
  apply bind_Ok in Hi as (root & Hr & Hi). apply bind_Ok in Hi as (count & Hc & [= <-]).
  apply ok_or_Ok, opt_filter_Some in Hc as [Hc Hle]. apply checked_add_Some in Hc as [-> _].
  exists root. split_and!; [done..|by apply N.leb_le in Hle|done].
Qed.
Lemma insert_batch_fresh m b root :
  batches m !! br_batch_id b = None → BatchRecord_verify b = Ok () →
  commitment_insert MACHINE_COMMAND_BATCH_ADMISSION_COMMITMENT_DOMAIN
    (auth_batches (authority m)) (br_batch_id b) = Ok root →
  (batch_count (authority m) + 1 <= MAX_EXACT_INTEGER)%N →
  Machine.insert_batch m b = Ok (with_batch b root (batch_count (authority m) + 1) m).
Proof.
  intros Hn Hv Hr Hc. unfold Machine.insert_batch. rewrite Hv. cbn [mbind result_bind]. rewrite Hn, Hr.
  cbn [mbind result_bind]. rewrite checked_add_fits by (unfold MAX_EXACT_INTEGER, u64_max in *; lia).
  cbn [opt_filter]. by rewrite (proj2 (N.leb_le _ _) Hc).
Qed.

(** The members of a retained batch are retained commands. *)
Definition batches_closed (m : Machine) : Prop :=
  ∀ i b x, batches m !! i = Some b → x ∈ Chain.members b → is_Some (commands m !! member_command_id x).

Lemma finalize_fresh m parent r a m' :
  finalize_single_batch_authority m parent r a = Ok m' → batches_closed m →
  commands m !! command_id (envelope r) = None →
  ∃ b root, build_single_command_batch_record parent (result_authority_root b) r = Ok b
    ∧ batches m !! br_batch_id b = None
    ∧ commitment_insert MACHINE_COMMAND_BATCH_ADMISSION_COMMITMENT_DOMAIN
        (auth_batches (authority m)) (br_batch_id b) = Ok root
    ∧ (batch_count (authority m) + 1 <= MAX_EXACT_INTEGER)%N
    ∧ m' = with_batch b root (batch_count (authority m) + 1) (set_admissions (admissions m ++ [a]) m)
    ∧ authority_root m' = Ok (result_authority_root b).
Proof.
  intros Hf Hcl Hn. unfold finalize_single_batch_authority in Hf.
  apply bind_Ok in Hf as (next & _ & Hf). apply bind_Ok in Hf as (count & _ & Hf).
  apply bind_Ok in Hf as (res & _ & Hf). apply bind_Ok in Hf as (b & Hb & Hf).
  apply bind_Ok in Hf as (m1 & Hi & Hf). apply bind_Ok in Hf as (root & Hr & Hf).
  apply bind_Ok in Hf as ([] & Heq & [= ->]). apply require_Ok, bool_decide_eq_true in Heq as ->.
  destruct (built_batch _ _ _ _ Hb) as (Hv & _ & _ & _ & Hres & _ & _ & intent & _ & Hmem). subst res.
  assert (batches m !! br_batch_id b = None) as Hfr.
  { destruct (batches m !! br_batch_id b) as [b'|] eqn:Hb'; [|done]. exfalso.
    unfold Machine.insert_batch in Hi. rewrite Hv in Hi. cbn [mbind result_bind] in Hi.
    change (batches (set_admissions (admissions m ++ [a]) m)) with (batches m) in Hi. rewrite Hb' in Hi.
    apply bind_Ok in Hi as ([] & He & _). apply require_Ok, bool_decide_eq_true in He as ->.
    destruct (Hcl _ _ {| position := 0; member_command_id := command_id (envelope r);
      intent_hash := intent; member_semantic_hash := semantic_hash r |} Hb') as [x Hx];
      [rewrite Hmem; by left|]. cbn in Hx. congruence. }
  destruct (insert_fresh_batch _ _ _ Hi Hfr) as (rt & _ & Hrt & Hc & ->). exists b, rt. by split_and!.
Qed.

(** The material that a built batch names *)
Lemma built_material parent result r b :
  build_single_command_batch_record parent result r = Ok b →
  ∃ pids refs, command_material_membership (command (envelope r)) = Ok (pids, refs)
    ∧ material_source b = single_command_material_source (envelope r) pids refs
    ∧ br_plan_ids b = pids ∧ br_artifacts b = refs
    ∧ br_material_digest b = material_digest_of (command (envelope r)).
Proof.
  unfold build_single_command_batch_record. intros Hb. apply bind_Ok in Hb as (intent & _ & Hb).
  apply bind_Ok in Hb as ([pids refs] & Hm & Hb). apply bind_Ok in Hb as ([] & _ & Hb).
  apply bind_Ok in Hb as (bid & _ & Hb). apply bind_Ok in Hb as ([] & _ & Hb).
  apply bind_Ok in Hb as (rid & _ & Hb). apply bind_Ok in Hb as ([] & _ & [= <-]).
  exists pids, refs. by rewrite Hm.
Qed.

(** ** One replayed batch *)

Record replay_step (s : Machine) (b : MachineCommandBatchRecord) (e : MachineCommandArchiveEntry)
    (s' : Machine) : Prop := {
  rs_member : ∃ x, Chain.members b = [x] ∧ member_command_id x = adm_command_id (entry_admission e);
  rs_batch : BatchRecord_verify b = Ok ();
  rs_entry : BatchRecord_verify_entry b e = Ok ();
  rs_fresh : batches s !! br_batch_id b = None;
  rs_parent : authority_root s = Ok (admission_parent_authority_root b);
  rs_source : parent_authority_root b = admission_parent_authority_root b;
  rs_material : ∀ ps arts, plans s' ⊆ ps → artifacts s' ⊆ arts →
    verify_batch_material_source_from_catalog s b ps arts = Ok ();
  rs_replay : ∃ s1 s2, (∀ ps arts, plans s' ⊆ ps → artifacts s' ⊆ arts →
      (if admits_material b then admit_batch_material_from_catalog s b ps arts else Ok s) = Ok s1)
    ∧ replay_batch_entry s1 e = Ok s2 ∧ Machine.insert_batch s2 b = Ok s';
  rs_result : authority_root s' = Ok (result_authority_root b);
}.

Lemma append_events_twin Q m evs :
  foldl append_event (twin Q m) evs = twin Q (foldl append_event m evs).
Proof. revert m. induction evs as [|ev evs IH]; intros m; [done|]. cbn. by rewrite <-IH. Qed.

(** What an event needs was named by its command. *)
Lemma payload_refs_named c p x :
  command_matches_event c p = true → x ∈ payload_refs p → x ∈ named_refs c.
Proof.
  unfold named_refs. intros Hm Hx. destruct c, p; cbn in Hm; try discriminate Hm;
    cbn in Hx; try by apply elem_of_nil in Hx.
  all: to_prop; subst; cbn [named_material snd]; try set_solver.
  all: match goal with r : option ArtifactRef |- _ => destruct r end; cbn in *; set_solver.
Qed.

Lemma dedup_after_keys {A} (key : A → string) prev l x :
  x ∈ l → key x = key prev ∨ key x ∈ key <$> dedup_after key prev l.
Proof.
  revert prev. induction l as [|y l IH]; intros prev Hx; [by apply elem_of_nil in Hx|].
  cbn [dedup_after]. apply elem_of_cons in Hx as [->|Hx].
  - case_decide; [by left|right; by left].
  - case_decide as Hy; [by apply IH|]. destruct (IH y Hx) as [->|Hin]; right; [by left|by right].
Qed.
Lemma dedup_by_key_keys {A} (key : A → string) l x : x ∈ l → key x ∈ key <$> dedup_by_key key l.
Proof.
  destruct l as [|y l]; [by intros ?%elem_of_nil|]. intros [->|Hx]%elem_of_cons; [by left|]. cbn.
  destruct (dedup_after_keys key y l x Hx) as [->|Hin]; [by left|by right].
Qed.
Lemma named_refs_listed c pids refs x :
  command_material_membership c = Ok (pids, refs) → x ∈ named_refs c →
  ∃ y, y ∈ refs ∧ artifact_id y = artifact_id x.
Proof.
  unfold command_material_membership, named_refs. destruct (named_material c) as [ps rs]. intros Hm Hx.
  apply bind_Ok in Hm as ([] & _ & Hm). apply bind_Ok in Hm as ([] & _ & [= <- <-]). cbn in Hx.
  assert (x ∈ sort_by_key artifact_id rs) as Hs by by rewrite sort_by_key_perm.
  apply (dedup_by_key_keys artifact_id) in Hs. apply list_elem_of_fmap in Hs as (y & Hy & Hin). by exists y.
Qed.
Lemma twin_view Q m refs :
  (∀ x, x ∈ refs → is_Some (artifacts m !! artifact_id x)) → same_view refs m (twin Q m).
Proof.
  intros Hr. split; [done..|]. intros x Hx. unfold artifact. cbn. by destruct (Hr x Hx) as [a ->].
Qed.

(** [m] after the record of a replayed command *)
Definition with_command (r : CommandRecord) (a : CommandAdmission) (proof : MachineCommandIndexProof)
    (m : Machine) : Machine :=
  set_admissions (admissions m ++ [a])
    (set_commands (<[command_id (envelope r) := r]> (commands m))
      (set_command_index_proofs (<[command_id (envelope r) := proof]> (command_index_proofs m)) m)).

Lemma replay_entry_Ok s rec a new stale s2 after :
  let e := {| entry_admission := a; entry_command := rec; entry_events := new |} in
  ArchiveEntry_verify e = Ok () → CommandAdmission_verify a (admission_parent s) = Ok () →
  commands s !! command_id (envelope rec) = None → validate_identity (command_id (envelope rec)) = Ok () →
  stale_command_receipt s (envelope rec) = Ok stale →
  match stale with
  | Some _ => new = []
  | None => command_event_batch s (envelope rec) (semantic_hash rec) = Ok new
  end →
  apply_command_event_batch s new = Ok (s2, after) →
  receipt rec = match stale with Some c => c | None => applied_command_receipt s2 (envelope rec) new end →
  CommandAdmission_new (admission_parent s2) rec (projection_root (authority s)) after = Ok a →
  ∃ proof, replay_batch_entry s e = Ok (with_command rec a proof
    (foldl append_event (set_authority (set_projection_root after (authority s2)) s2) new)).
Proof.
  intros e He Ha Hc Hid Hst Hnew Hap Hr Hadm. unfold replay_batch_entry. rewrite He. cbn [mbind result_bind].
  cbn [entry_admission entry_command entry_events e]. rewrite Ha. cbn [mbind result_bind].
  rewrite Hc, bool_decide_eq_true_2 by done. cbn [require mbind result_bind]. rewrite Hst.
  cbn [mbind result_bind].
  assert (match stale with Some _ => Ok [] | None => command_event_batch s (envelope rec) (semantic_hash rec) end
    = Ok new) as -> by (destruct stale; congruence).
  cbn [mbind result_bind]. rewrite bool_decide_eq_true_2 by done. cbn [require mbind result_bind].
  rewrite Hap. cbn [mbind result_bind]. rewrite Hadm, <-Hr, !bool_decide_eq_true_2 by done.
  cbn [andb require mbind result_bind]. unfold empty_nonmembership. rewrite Hid. cbn [mbind result_bind].
  eexists. reflexivity.
Qed.

Section Replays.
Context {m env proof m' hash rec new a m1 m2 m4 after parent_root}
  (Hm : machine_inv m) (Henv : validate_envelope env = Ok ()) (Hs : stored m) (Hk : staged_keyed m)
  (Hcl : batches_closed m)
  (Hao : admission_of m env proof m' hash rec new a m1 m2 m4 after parent_root).

(** The machine of the submission before the batch is recorded *)
Definition applied_machine : Machine :=
  foldl append_event (set_authority (set_projection_root after (authority m2)) m2) new.

Lemma applied_fields :
  plans applied_machine = plans m1 ∧ artifacts applied_machine = artifacts m1
  ∧ batches applied_machine = batches m ∧ commands applied_machine = commands m
  ∧ auth_batches (authority applied_machine) = auth_batches (authority m)
  ∧ batch_count (authority applied_machine) = batch_count (authority m).
Proof using All.
  unfold applied_machine. set (m3 := set_authority _ m2).
  assert (∃ p, m2 = Machine.set_projection p m1) as [p Hp].
  { destruct (ao_path _ _ _ _ _ _ _ _ _ _ _ _ _ Hao) as [(_ & _ & _ & -> & -> & _)|(_ & _ & _ & _ & Hap)].
    - exists (projection m). by destruct m.
    - by eapply apply_batch_machine. }
  assert (same_history m m1) as [_ [_ Hc _ _] [Hb _] [Ha1 Ha2] _].
  { destruct (ao_path _ _ _ _ _ _ _ _ _ _ _ _ _ Hao) as [(_ & _ & _ & -> & _)|(_ & Hst & _)]; [reflexivity|].
    by destruct (admit_staged_replays _ _ _ Hst Hs Hk) as (? & ? & _ & _ & _ & _ & ? & _). }
  assert (∀ mx, let my := foldl append_event mx new in plans my = plans mx ∧ artifacts my = artifacts mx
    ∧ batches my = batches mx ∧ commands my = commands mx ∧ authority my = authority mx) as Hfold.
  { clear. induction new as [|ev evs IH]; intros mx; [done|]. cbn.
    destruct (IH (append_event mx ev)) as (-> & -> & -> & -> & ->). done. }
  destruct (Hfold m3) as (-> & -> & -> & -> & ->). subst m3 m2. cbn. by split_and!.
Qed.

(** What follows the replay of the entry *)
Lemma recorded_replays Q s1 pf :
  stored m1 → grows m m1 →
  replay_batch_entry s1 (entry_of_submission (new := new) (rec := rec) (a := a))
    = Ok (with_command rec a pf (twin Q applied_machine)) →
  (∀ b ps arts, build_single_command_batch_record parent_root (result_authority_root b) rec = Ok b →
    plans m1 ⊆ ps → artifacts m1 ⊆ arts →
    verify_batch_material_source_from_catalog (twin Q m) b ps arts = Ok ()
    ∧ (if admits_material b then admit_batch_material_from_catalog (twin Q m) b ps arts else Ok (twin Q m))
      = Ok s1) →
  ∃ b, replay_step (twin Q m) b (entry_of_submission (new := new) (rec := rec) (a := a))
    (twin (<[command_id env := pf]> Q) m').
Proof using All.
  intros Hs1 Hg Hentry Hmat. destruct applied_fields as (Fp & Fa & Fb & Fc & Fr & Fn).
  destruct (ao_record _ _ _ _ _ _ _ _ _ _ _ _ _ Hao) as (He & _).
  destruct (finalize_fresh applied_machine parent_root rec a m4) as (b & root & Hb & Hfr & Hroot & Hcnt & Hm4 & Hres).
  - exact (ao_final _ _ _ _ _ _ _ _ _ _ _ _ _ Hao).
  - unfold batches_closed. rewrite Fb, Fc. exact Hcl.
  - rewrite Fc, He. apply (ao_fresh _ _ _ _ _ _ _ _ _ _ _ _ _ Hao).
  - exists b. destruct (built_batch _ _ _ _ Hb) as (Hv & _ & _ & _ & _ & Hpar & Hapar & intent & _ & Hmem).
    assert (plans (twin (<[command_id env := pf]> Q) m') = plans m1
      ∧ artifacts (twin (<[command_id env := pf]> Q) m') = artifacts m1) as [Hpl Har].
    { rewrite (ao_result _ _ _ _ _ _ _ _ _ _ _ _ _ Hao), Hm4. cbn. by rewrite Fp, Fa. }
    split; rewrite ?Hpl, ?Har.
    + eexists. split; [exact Hmem|]. cbn.
      destruct (new_admission_spec _ _ _ _ _ (ao_admission _ _ _ _ _ _ _ _ _ _ _ _ _ Hao)) as (_ & -> & _). done.
    + done.
    + exact (new_entry_in_batch Hm Henv Hao b Hb).
    + cbn. by rewrite <-Fb.
    + rewrite authority_root_twin, Hapar. apply (ao_parent _ _ _ _ _ _ _ _ _ _ _ _ _ Hao).
    + congruence.
    + intros ps arts Hps Harts. by apply (Hmat b ps arts Hb).
    + exists s1. eexists. split; [intros ps arts Hps Harts; by apply (Hmat b ps arts Hb)|].
      split; [exact Hentry|]. rewrite (insert_batch_fresh _ _ root); [|exact Hfr|exact Hv|exact Hroot|exact Hcnt].
      rewrite (ao_result _ _ _ _ _ _ _ _ _ _ _ _ _ Hao), Hm4, <-He. reflexivity.
    + rewrite (ao_result _ _ _ _ _ _ _ _ _ _ _ _ _ Hao). exact Hres.
Qed.

(** A refused command: the replay finds the same conflict. *)
Lemma conflict_replays Q :
  stale_command_receipt m env = Ok (Some (receipt rec)) → receipt_status (receipt rec) = ReceiptConflict →
  new = [] → m1 = m → m2 = m → after = projection_root (authority m) →
  ∃ b pf, replay_step (twin Q m) b (entry_of_submission (new := new) (rec := rec) (a := a))
    (twin (<[command_id env := pf]> Q) m').
Proof using All.
  intros Hst Hconf Hnew Hm1 Hm2 Haft. destruct (ao_record _ _ _ _ _ _ _ _ _ _ _ _ _ Hao) as (He & Hh & _).
  pose proof (ao_admission _ _ _ _ _ _ _ _ _ _ _ _ _ Hao) as Hadm.
  destruct (new_admission_spec _ _ _ _ _ Hadm) as (Hav & _).
  pose proof (new_entry_verified Hm Henv Hao) as Hver. unfold entry_of_submission in *.
  assert (validate_identity (command_id env) = Ok ()) as Hid.
  { unfold validate_envelope in Henv. by inv_ok. }
  destruct (replay_entry_Ok (twin Q m) rec a new (Some (receipt rec)) (twin Q m) after Hver Hav)
    as [pf Hpf]; rewrite ?He; try done.
  - apply (ao_fresh _ _ _ _ _ _ _ _ _ _ _ _ _ Hao).
  - by rewrite Hnew, Haft.
  - by rewrite Hm1 in Hadm.
  - assert (stale_command_receipt m env = Ok (Some (receipt rec)) ∧ stored m1 ∧ grows m m1) as (_ & Hs1 & Hg)
      by (rewrite Hm1; by split_and!).
    destruct (recorded_replays Q (twin Q m) pf Hs1 Hg) as [b Hb].
    + unfold entry_of_submission. rewrite Hpf. unfold applied_machine. by rewrite <-append_events_twin, Hm2.
    + intros b ps arts Hb Hps Harts. unfold verify_batch_material_source_from_catalog, admits_material.
      destruct (built_batch _ _ _ _ Hb) as (_ & Hrec & _ & _ & _ & _ & _ & intent & _ & Hmem).
      rewrite Hrec, Hmem. cbn [existsb orb]. rewrite Hconf, !bool_decide_eq_false_2 by done.
      split; [|done]. destruct (built_material _ _ _ _ Hb) as (pids & refs & _ & -> & _).
      unfold single_command_material_source. rewrite He.
      assert (is_start_run (command env) = false) as ->; [|done].
      unfold stale_command_receipt in Hst. by destruct (is_start_run (command env)).
    + by exists b, pf.
Qed.

(** An applied command: the replay admits the same material, and computes the
    same events from it. *)
Lemma applied_replays Q :
  stale_command_receipt m env = Ok None → admit_staged_command_material m (command env) = Ok m1 →
  receipt rec = applied_command_receipt m2 env new → command_event_batch m1 env hash = Ok new →
  apply_command_event_batch m1 new = Ok (m2, after) →
  stored m1 ∧ staged_keyed m1 ∧ ∃ b pf,
    replay_step (twin Q m) b (entry_of_submission (new := new) (rec := rec) (a := a))
      (twin (<[command_id env := pf]> Q) m').
Proof using All.
  intros Hst Hadmit Hr Hnew Hap.
  destruct (ao_record _ _ _ _ _ _ _ _ _ _ _ _ _ Hao) as (He & Hh & _).
  destruct (admit_staged_replays _ _ _ Hadmit Hs Hk)
    as (pids & refs & Hmem & Hs1 & Hg & Hk1 & Hsame & Hpids & Hrefs & Hcat).
  split; [done|]. split; [done|].
  pose proof (ao_admission _ _ _ _ _ _ _ _ _ _ _ _ _ Hao) as Hadm.
  destruct (new_admission_spec _ _ _ _ _ Hadm) as (Hav & _).
  pose proof (new_entry_verified Hm Henv Hao) as Hver. unfold entry_of_submission in *.
  assert (validate_identity (command_id env) = Ok ()) as Hid.
  { unfold validate_envelope in Henv. by inv_ok. }
  assert (∀ x, x ∈ named_refs (command env) → is_Some (artifacts m1 !! artifact_id x)) as Hnamed.
  { intros x Hx. destruct (named_refs_listed _ _ _ _ Hmem Hx) as (y & Hy & <-). by apply Hrefs. }
  assert (admission_parent (twin Q m1) = admission_parent m) as Hpar
    by (change (admission_parent (twin Q m1)) with (admission_parent m1); by apply admission_parent_chain, Hsame).
  assert (stale_command_receipt (twin Q m1) env = Ok None) as Hst1.
  { rewrite <-Hst. unfold stale_command_receipt. cbn. by rewrite (sl_projection _ _ (sh_log _ _ Hsame)). }
  assert (apply_command_event_batch (twin Q m1) new = Ok (Machine.set_projection (projection m2) (twin Q m1), after))
    as Hap1.
  { apply (apply_batch_view m1); try done. intros ev x Hev Hx.
    destruct (command_event_batch_Ok _ _ _ _ Hnew) as (p & Hp & Hpay & _).
    apply (sv_artifact _ _ _ (twin_view Q m1 _ Hnamed)). eapply payload_refs_named; [|exact Hx].
    eapply batch_payload_matches; [exact Hp|]. rewrite <-Hpay. by apply list_elem_of_fmap_2. }
  assert (m2 = Machine.set_projection (projection m2) m1) as Hm2.
  { destruct (apply_batch_machine _ _ _ _ Hap) as (p & ->). done. }
  destruct (replay_entry_Ok (twin Q m1) rec a new None (Machine.set_projection (projection m2) (twin Q m1)) after
    Hver) as [pf Hpf]; rewrite ?He, ?Hh; try done.
  - by rewrite Hpar.
  - cbn. rewrite (sc_commands _ _ (sh_chain _ _ Hsame)).
    apply (ao_fresh _ _ _ _ _ _ _ _ _ _ _ _ _ Hao).
  - rewrite (batch_view m1); [done|]. by apply twin_view.
  - etrans; [|exact Hadm]. f_equal. exact Hpar.
  - destruct (recorded_replays Q (twin Q m1) pf Hs1 Hg) as [b Hb]; [| |by exists b, pf].
    + unfold entry_of_submission. rewrite Hpf, Hm2. unfold applied_machine. rewrite <-append_events_twin.
      by rewrite Hm2.
    + intros b ps arts Hb Hps Harts. destruct (built_batch _ _ _ _ Hb) as (_ & Hrec & _ & _ & _ & _ & _ & _).
      destruct (built_material _ _ _ _ Hb) as (pids' & refs' & Hmem' & Hsrc & Hbp & Hba & Hdig).
      rewrite He, Hmem in Hmem'. injection Hmem' as <- <-. split.
      * rewrite He in Hsrc, Hdig. destruct (command env) as [pid binding input digest attempt| | | | | | | | | | | | | |] eqn:Hc;
          try (unfold single_command_material_source in Hsrc; rewrite Hc in Hsrc;
               unfold verify_batch_material_source_from_catalog; by rewrite Hsrc).
        unfold command_event_batch in Hnew. apply bind_Ok in Hnew as (p & Hp & _).
        unfold admit_command in Hp. rewrite Hc in Hp.
        eapply (start_material m1 env); try done.
        -- intros ps' rs'. rewrite Hc, Hmem. by intros [= <- <-].
        -- by rewrite Hc, Hmem.
        -- apply Hnamed. set_solver.
      * unfold admits_material. rewrite Hrec, Hr. cbn [existsb applied_command_receipt receipt_status].
        rewrite (bool_decide_eq_true_2 (ReceiptApplied = _)), orb_true_r by done.
        unfold admit_batch_material_from_catalog. rewrite Hbp, Hba.
        destruct (Hcat Q ps arts Hps Harts) as (mx & Hx1 & Hx2). rewrite Hx1. exact Hx2.
Qed.
End Replays.
End RestoreInv.
