(* ===== verification/RestoreTrace.v ===== *)
(** * Histories as sequences of replayed batches

    [replay_trace] leads from the base of a machine to its present state, one
    retained batch at a time.  What the machine retains is what the batches of
    the trace carry, and every public operation extends the trace. *)

From S2P Require Import Prelude KeyIndex Identity CommandIndex IndexSound Canonical Ir Model.
From S2P Require Import Events Chain Machine Location Effects DerivedIndex Reducer Verify.
From S2P Require Import Authority Archive Compaction Admission Submit Restore MachineInv ChainInv.
From S2P Require Import RestoreInv.

Section RestoreTrace.
Context `{Sha256} `{Canonical} `{!MachineSerialize} `{!ArchiveSerialize} `{!CompactionSerialize}
  `{!SnapshotSerialize} `{SchemaCompiler} `{PlanCodec} `{!ValueSerialize}.

(** ** What one replayed batch changes *)

Lemma replayed_entry_fields m e m' :
  replay_batch_entry m e = Ok m' →
  ArchiveEntry_verify e = Ok () ∧ CommandAdmission_verify (entry_admission e) (admission_parent m) = Ok ()
  ∧ commands m !! command_id (envelope (entry_command e)) = None
  ∧ (∀ ev, ev ∈ entry_events e → events m !! event_id ev = None ∧ event_id ev ∉ compacted_event_ids m)
  ∧ ∃ p after proof, m' = with_command (entry_command e) (entry_admission e) proof
      (foldl append_event (set_authority (set_projection_root after (authority m))
        (Machine.set_projection p m)) (entry_events e)).
Proof.
  unfold replay_batch_entry. intros Hr. apply bind_Ok in Hr as ([] & He & Hr).
  apply bind_Ok in Hr as ([] & Ha & Hr). apply bind_Ok in Hr as ([] & Hc & Hr).
  apply bind_Ok in Hr as (conflict & _ & Hr). apply bind_Ok in Hr as (evs & _ & Hr).
  apply bind_Ok in Hr as ([] & Hev & Hr). apply require_Ok, bool_decide_eq_true in Hev as ->.
  apply bind_Ok in Hr as ([m1 after] & Hap & Hr). apply bind_Ok in Hr as ([] & _ & Hr).
  apply bind_Ok in Hr as (proof & _ & [= <-]). apply require_Ok, bool_decide_eq_true in Hc.
  split; [done|]. split; [done|]. split; [done|]. split.
  - unfold apply_command_event_batch in Hap. apply bind_Ok in Hap as ([[mr rt] pd] & Hf & _).
    cut ((∃ p, (mr, rt, pd).1.1 = Machine.set_projection p m) ∧ ∀ ev, ev ∈ entry_events e →
      events m !! event_id ev = None ∧ event_id ev ∉ compacted_event_ids m); [by intros [_ ?]|].
    refine (try_fold_inv _ (λ don (st : Machine * string * gset string),
      (∃ p, st.1.1 = Machine.set_projection p m)
      ∧ ∀ ev, ev ∈ don → events m !! event_id ev = None ∧ event_id ev ∉ compacted_event_ids m) _ _ _ _ _ Hf).
    + split; [by exists (projection m); destruct m|by intros ? ?%elem_of_nil].
    + intros don ev rest [[mc rc] pc] st' _ [[p Hp] Hall] Hs. cbn in Hp. subst mc.
      unfold apply_batch_event in Hs. apply bind_Ok in Hs as ([] & Hv & Hs).
      apply bind_Ok in Hs as (p' & _ & Hs). apply bind_Ok in Hs as ([] & _ & Hs).
      apply bind_Ok in Hs as (rt' & _ & [= <-]). split; [by exists p'|].
      intros x [Hx| ->%list_elem_of_singleton]%elem_of_app; [by apply Hall|].
      unfold validate_new_event_with_pending in Hv. apply bind_Ok in Hv as ([] & _ & Hv).
      apply bind_Ok in Hv as ([] & Hv1 & Hv). apply bind_Ok in Hv as ([] & Hv2 & _).
      apply require_Ok, bool_decide_eq_true in Hv1, Hv2. done.
  - destruct (apply_batch_machine _ _ _ _ Hap) as (p & ->). exists p, after, proof. reflexivity.
Qed.

Lemma admit_material_stored m b ps arts m' :
  admit_batch_material_from_catalog m b ps arts = Ok m' → stored m →
  stored m' ∧ grows m m' ∧ same_history m m' ∧ staged_plans m' = staged_plans m
  ∧ staged_artifacts m' = staged_artifacts m.
Proof.
  unfold admit_batch_material_from_catalog. intros (m1 & Hp & Ha)%bind_Ok Hs.
  assert (∀ A (f : Machine → A → core Machine), (∀ m a m', f m a = Ok m' → stored m → stored m' ∧ grows m m'
    ∧ same_history m m' ∧ staged_plans m' = staged_plans m ∧ staged_artifacts m' = staged_artifacts m) →
    ∀ l m m', try_fold f m l = Ok m' → stored m → stored m' ∧ grows m m' ∧ same_history m m'
      ∧ staged_plans m' = staged_plans m ∧ staged_artifacts m' = staged_artifacts m) as Hfold.
  { clear. intros A f Hf l. induction l as [|a l IH]; intros m m' Hl Hs; [by injection Hl as <-|].
    cbn [try_fold] in Hl. apply bind_Ok in Hl as (m1 & Ha & Hl).
    destruct (Hf _ _ _ Ha Hs) as (Hs1 & ? & ? & ? & ?). destruct (IH _ _ Hl Hs1) as (? & ? & ? & ? & ?).
    split; [done|]. split; [by etrans|]. split; [by etrans|]. split; congruence. }
  destruct (Hfold _ (admit_catalog_plan ps)) with (l := br_plan_ids b) (m := m) (m' := m1)
    as (Hs1 & ? & ? & ? & ?); [|done|done|].
  { intros mx i my Hx Hsx. unfold admit_catalog_plan in Hx. case_decide; [by injection Hx as <-|].
    apply bind_Ok in Hx as (p & _ & Hx). destruct (retain_plan_stored _ _ _ Hx Hsx) as (? & ? & _).
    destruct (retain_plan_history _ _ _ Hx) as (? & ? & ?). done. }
  destruct (Hfold _ (admit_catalog_artifact arts)) with (l := br_artifacts b) (m := m1) (m' := m')
    as (Hs2 & ? & ? & ? & ?); [|done|done|].
  { intros mx i my Hx Hsx. unfold admit_catalog_artifact in Hx. case_decide; [by injection Hx as <-|].
    apply bind_Ok in Hx as (p & _ & Hx). destruct (retain_artifact_stored _ _ _ Hx Hsx) as (? & ? & _).
    destruct (retain_artifact_history _ _ _ Hx) as (? & ? & ?). done. }
  split; [done|]. split; [by etrans|]. split; [by etrans|]. split; congruence.
Qed.

(** The fields of the machine after a replayed batch *)
Record step_fields (s : Machine) (b : MachineCommandBatchRecord) (e : MachineCommandArchiveEntry)
    (s' : Machine) : Prop := {
  sf_stored : stored s';
  sf_grows : grows s s';
  sf_batches : batches s' = <[br_batch_id b := b]> (batches s);
  sf_batch_order : batch_order s' = batch_order s ++ [br_batch_id b];
  sf_admissions : admissions s' = admissions s ++ [entry_admission e];
  sf_commands : commands s' = <[adm_command_id (entry_admission e) := entry_command e]> (commands s);
  sf_events : events s' = foldl (λ es ev, <[event_id ev := ev]> es) (events s) (entry_events e);
  sf_event_order : event_order s' = event_order s ++ (event_id <$> entry_events e);
  sf_base : base s' = base s ∧ base_anchor s' = base_anchor s
    ∧ compacted_event_ids s' = compacted_event_ids s;
  sf_staged : staged_plans s' = staged_plans s ∧ staged_artifacts s' = staged_artifacts s;
  sf_count : batch_count (authority s') = (batch_count (authority s) + 1)%N
    ∧ (batch_count (authority s') ≤ MAX_EXACT_INTEGER)%N;
  sf_batch_root : commitment_insert MACHINE_COMMAND_BATCH_ADMISSION_COMMITMENT_DOMAIN
    (auth_batches (authority s)) (br_batch_id b) = Ok (auth_batches (authority s'));
  sf_command_new : commands s !! adm_command_id (entry_admission e) = None;
  sf_command_id : command_id (envelope (entry_command e)) = adm_command_id (entry_admission e);
  sf_event_new : ∀ ev, ev ∈ entry_events e →
    events s !! event_id ev = None ∧ event_id ev ∉ compacted_event_ids s;
  sf_event_ids : br_event_ids b = event_id <$> entry_events e ∧ NoDup (event_id <$> entry_events e)
    ∧ adm_event_ids (entry_admission e) = event_id <$> entry_events e;
  sf_verified : CommandAdmission_verify (entry_admission e) (admission_parent s) = Ok ();
}.

Lemma entry_event_ids b e x :
  BatchRecord_verify_entry b e = Ok () → Chain.members b = [x] →
  br_event_ids b = event_id <$> entry_events e ∧ NoDup (event_id <$> entry_events e)
  ∧ adm_event_ids (entry_admission e) = event_id <$> entry_events e
  ∧ command_id (envelope (entry_command e)) = adm_command_id (entry_admission e).
Proof.
  unfold BatchRecord_verify_entry. intros Hv Hx. apply bind_Ok in Hv as ([] & Hb & Hv).
  apply bind_Ok in Hv as ([] & He & Hv). apply bind_Ok in Hv as (y & Hy & Hv).
  apply bind_Ok in Hv as ([] & _ & Hv). apply bind_Ok in Hv as (intent & _ & Hv).
  apply require_Ok in Hv. apply ok_or_Ok in Hy. to_prop.
  unfold BatchRecord_verify in Hb. apply bind_Ok in Hb as ([] & Hfix & Hb).
  apply bind_Ok in Hb as ([] & _ & Hb). apply bind_Ok in Hb as (st & _ & Hb).
  apply bind_Ok in Hb as (seen & Hseen & Hb). apply bind_Ok in Hb as ([] & _ & Hb).
  apply bind_Ok in Hb as ([] & _ & Hb). apply bind_Ok in Hb as ([] & Hids & _).
  apply require_Ok, bool_decide_eq_true in Hids. apply require_Ok in Hfix. unfold batch_fixed_ok in Hfix.
  assert (length (receipts b) = 1) as Hlen.
  { rewrite !andb_true_iff in Hfix. destruct Hfix as [[[[[[[_ Hlen] _] _] _] _] _] _].
    apply Nat.eqb_eq in Hlen. by rewrite Hx in Hlen. }
  destruct (receipts b) as [|rc [|]] eqn:Hrec; try done.
  assert (rc = receipt (entry_command e)) as ->.
  { match goal with Hl : [rc] !! ?i = Some _ |- _ => destruct i; cbn in Hl; [by injection Hl|done] end. }
  rewrite bind_singleton in Hids, Hseen. destruct (batch_events_distinct _ _ _ Hseen) as [Hnd _].
  unfold ArchiveEntry_verify in He. apply bind_Ok in He as ([] & Hadm & He).
  apply bind_Ok in He as ([] & Hids' & _). apply require_Ok in Hids'. to_prop.
  unfold verify_admission_record in Hadm. apply bind_Ok in Hadm as ([] & _ & Hadm).
  apply bind_Ok in Hadm as ([] & Hc & Hadm). apply bind_Ok in Hadm as (d & _ & Hadm).
  apply require_Ok in Hc, Hadm. to_prop. split_and!; congruence.
Qed.

Lemma replay_step_fields s b e s' : replay_step s b e s' → stored s → step_fields s b e s'.
Proof.
  intros [(x & Hx & Hxc) Hb He Hfr _ _ _ (s1 & s2 & Hmat & Hent & Hins) _] Hs.
  destruct (entry_event_ids _ _ _ He Hx) as (Hids & Hnd & Haid & Hcid).
  specialize (Hmat (plans s') (artifacts s') (reflexivity _) (reflexivity _)).
  assert (stored s1 ∧ grows s s1 ∧ same_history s s1 ∧ staged_plans s1 = staged_plans s
    ∧ staged_artifacts s1 = staged_artifacts s) as (Hs1 & Hg & [Hl Hch [Hb1 Hb2] [Hc1 Hc2] Han] & Hsp & Hsa).
  { destruct (admits_material b); [by eapply admit_material_stored|]. by injection Hmat as <-. }
  destruct (replayed_entry_fields _ _ _ Hent) as (_ & Hv & Hcn & Hen & p & after & proof & ->).
  set (s3 := foldl append_event _ _) in *.
  assert (∀ mx evs, let my := foldl append_event mx evs in plans my = plans mx ∧ plan_order my = plan_order mx
    ∧ artifacts my = artifacts mx ∧ artifact_order my = artifact_order mx ∧ batches my = batches mx
    ∧ batch_order my = batch_order mx ∧ commands my = commands mx ∧ admissions my = admissions mx
    ∧ authority my = authority mx ∧ base my = base mx ∧ base_anchor my = base_anchor mx
    ∧ compacted_event_ids my = compacted_event_ids mx ∧ staged_plans my = staged_plans mx
    ∧ staged_artifacts my = staged_artifacts mx
    ∧ events my = foldl (λ es ev, <[event_id ev := ev]> es) (events mx) evs
    ∧ event_order my = event_order mx ++ (event_id <$> evs)) as Hfold.
  { clear. intros mx evs. revert mx. induction evs as [|ev evs IH]; intros mx; [cbn; by rewrite app_nil_r|].
    cbn. destruct (IH (append_event mx ev)) as (-> & -> & -> & -> & -> & -> & -> & -> & -> & -> & -> & -> & -> & -> & -> & ->).
    cbn. by rewrite <-app_assoc. }
  destruct (Hfold (set_authority (set_projection_root after (authority s1)) (Machine.set_projection p s1))
    (entry_events e)) as (F1 & F2 & F3 & F4 & F5 & F6 & F7 & F8 & F9 & F10 & F11 & F12 & F13 & F14 & F15 & F16).
  fold s3 in F1, F2, F3, F4, F5, F6, F7, F8, F9, F10, F11, F12, F13, F14, F15, F16. clearbody s3. cbn in *.
  destruct (insert_fresh_batch _ _ _ Hins) as (root & _ & Hroot & Hcnt & ->).
  { cbn. by rewrite F5, Hb1. }
  cbn in *. rewrite F9 in Hroot, Hcnt. cbn in Hroot, Hcnt. destruct Hl as [L1 L2 L3 L4 L5 L6], Hch as [C1 C2 C3 C4].
  split; cbn; rewrite ?F1, ?F2, ?F3, ?F4, ?F5, ?F6, ?F7, ?F8, ?F9, ?F10, ?F11, ?F12, ?F13, ?F14, ?F15, ?F16; cbn;
    rewrite ?Hb1, ?Hb2, ?C1, ?C2, ?L2, ?L3, ?L4, ?L5, ?Han, ?Hcid, ?Hc2; try done.
  - destruct Hs1 as [Sp ? ? ? ? ? ? ?]. split; cbn; rewrite ?F1, ?F2, ?F3, ?F4, ?F9; cbn; try done.
    intros pid q. cbn. rewrite F1. by apply Sp.
  - destruct Hg. by split; cbn; rewrite ?F1, ?F2, ?F3, ?F4.
  - split; [done|]. by rewrite Hc2 in Hcnt.
  - by rewrite <-Hc1.
  - rewrite <-Hcid, <-C2. exact Hcn.
  - intros ev Hev. rewrite <-L2, <-L4. by apply Hen.
  - by rewrite <-(admission_parent_chain s s1).
Qed.

(** ** Traces *)

Inductive replay_trace (s0 : Machine)
    : list (MachineCommandBatchRecord * MachineCommandArchiveEntry) → Machine → Prop :=
| trace_nil : replay_trace s0 [] s0
| trace_snoc l s b e s' :
    replay_trace s0 l s → replay_step s b e s' → replay_trace s0 (l ++ [(b, e)]) s'.

(** A machine over a base: material, and no history of its own *)
Record blank (s : Machine) : Prop := {
  bl_stored : stored s;
  bl_batches : batches s = ∅ ∧ batch_order s = [];
  bl_events : events s = ∅ ∧ event_order s = [];
  bl_commands : admissions s = [] ∧ commands s = ∅;
  bl_staged : staged_plans s = ∅ ∧ staged_artifacts s = ∅;
  bl_count : (batch_count (authority s) ≤ MAX_EXACT_INTEGER)%N;
}.

(** The machine at the end of a trace retains what the trace carries. *)
Record trace_facts (s0 : Machine) (l : list (MachineCommandBatchRecord * MachineCommandArchiveEntry))
    (s : Machine) : Prop := {
  tf_stored : stored s;
  tf_grows : grows s0 s;
  tf_batches : batches s = collect_by br_batch_id l.*1;
  tf_batch_order : batch_order s = br_batch_id <$> l.*1;
  tf_batch_nodup : NoDup (br_batch_id <$> l.*1);
  tf_admissions : admissions s = entry_admission <$> l.*2;
  tf_admission_nodup : NoDup (adm_command_id <$> (entry_admission <$> l.*2));
  tf_commands : ∀ e, e ∈ l.*2 → commands s !! adm_command_id (entry_admission e) = Some (entry_command e);
  tf_command_dom : ∀ i, is_Some (commands s !! i) → i ∈ adm_command_id <$> (entry_admission <$> l.*2);
  tf_event_order : event_order s = event_id <$> (l.*2 ≫= entry_events);
  tf_event_nodup : NoDup (event_order s);
  tf_events : ∀ ev, ev ∈ l.*2 ≫= entry_events → events s !! event_id ev = Some ev;
  tf_event_dom : ∀ i, is_Some (events s !! i) → i ∈ event_order s;
  tf_each : ∀ b e, (b, e) ∈ l → br_event_ids b = event_id <$> entry_events e
    ∧ adm_event_ids (entry_admission e) = event_id <$> entry_events e
    ∧ ∃ x, Chain.members b = [x] ∧ member_command_id x = adm_command_id (entry_admission e);
  tf_base : base s = base s0 ∧ base_anchor s = base_anchor s0
    ∧ compacted_event_ids s = compacted_event_ids s0;
  tf_staged : staged_plans s = ∅ ∧ staged_artifacts s = ∅;
  tf_count : batch_count (authority s) = (batch_count (authority s0) + N.of_nat (length l))%N
    ∧ (batch_count (authority s) ≤ MAX_EXACT_INTEGER)%N;
}.

Lemma foldl_insert_new (evs : list Event) (es : gmap string Event) i x :
  es !! i = Some x → (∀ ev, ev ∈ evs → es !! event_id ev = None) →
  foldl (λ es ev, <[event_id ev := ev]> es) es evs !! i = Some x.
Proof.
  intros Hx Hn. rewrite foldl_insert_other; [done|]. intros (ev & -> & Hev)%list_elem_of_fmap.
  rewrite (Hn _ Hev) in Hx. done.
Qed.

Lemma trace_facts_hold s0 l s : blank s0 → replay_trace s0 l s → trace_facts s0 l s.
Proof.
  intros [Hs [Hb1 Hb2] [He1 He2] [Hc1 Hc2] Hst Hcnt]. induction 1 as [|l s b e s' _ IH Hstep].
  - split; rewrite ?Hb1, ?Hb2, ?He1, ?He2, ?Hc1, ?Hc2; try done; try (by constructor);
      try (by intros ? ?%elem_of_nil).
    + intros i. rewrite lookup_empty. by intros [].
    + intros i. rewrite lookup_empty. by intros [].
    + by intros ? ? ?%elem_of_nil.
    + cbn. split; [lia|done].
  - destruct IH as [T1 T2 T3 T4 T5 T6 T7 T8 T9 T10 T11 T12 T13 T14 (T15a & T15b & T15c) (T16a & T16b) (T17a & T17b)].
    pose proof (rs_fresh _ _ _ _ Hstep) as Hbf. pose proof (rs_member _ _ _ _ Hstep) as Hmem.
    destruct (replay_step_fields _ _ _ _ Hstep T1)
      as [F1 F2 F3 F4 F5 F6 F7 F8 (F9a & F9b & F9c) (F10a & F10b) (F11a & F11b) _ F12 F13 F14 (F15a & F15b & F15c) _].
    assert (∀ ev, ev ∈ entry_events e → event_id ev ∉ event_order s) as Hnew.
    { intros ev Hev Hin. rewrite T10 in Hin. apply list_elem_of_fmap in Hin as (x & Hx & Hin).
      specialize (T12 _ Hin). destruct (F14 _ Hev) as [Hn _]. rewrite <-Hx in T12. congruence. }
    assert ((l ++ [(b, e)]).*1 = l.*1 ++ [b]) as Hl1 by by rewrite fmap_app.
    assert ((l ++ [(b, e)]).*2 = l.*2 ++ [e]) as Hl2 by by rewrite fmap_app.
    assert (event_order s' = event_id <$> ((l.*2 ++ [e]) ≫= entry_events)) as Horder
      by by rewrite F8, T10, bind_app, fmap_app, bind_singleton.
    split; rewrite ?Hl1, ?Hl2.
    + done.
    + by etrans.
    + by rewrite F3, T3, collect_by_snoc.
    + by rewrite F4, T4, fmap_app.
    + rewrite fmap_app. apply NoDup_app. split; [done|]. split; [|apply NoDup_singleton].
      intros i Hi Hi'%list_elem_of_singleton. subst i. apply (collect_by_dom br_batch_id) in Hi.
      rewrite <-T3, Hbf in Hi. by destruct Hi.
    + by rewrite F5, T6, fmap_app.
    + rewrite !fmap_app. apply NoDup_app. split; [done|]. split; [|apply NoDup_singleton].
      intros i Hi Hi'%list_elem_of_singleton. subst i. apply list_elem_of_fmap in Hi as (x & Hx & Hi).
      apply list_elem_of_fmap in Hi as (y & -> & Hi). specialize (T8 _ Hi). rewrite <-Hx in T8. congruence.
    + intros x [Hx| ->%list_elem_of_singleton]%elem_of_app; rewrite F6; [|by rewrite lookup_insert_eq].
      specialize (T8 _ Hx). rewrite lookup_insert_ne; [done|]. intros Heq. rewrite Heq in F12. congruence.
    + intros i. rewrite F6, lookup_insert_is_Some', !fmap_app, elem_of_app. intros [<-|Hi]; [right; by left|].
      left. by apply T9.
    + exact Horder.
    + rewrite F8. apply NoDup_app. split; [done|]. split; [|done].
      intros i Hi (ev & -> & Hev)%list_elem_of_fmap. by apply (Hnew ev).
    + intros ev. rewrite bind_app, bind_singleton, F7. intros [Hev|Hev]%elem_of_app.
      * apply foldl_insert_new; [by apply T12|]. intros x Hx. by apply F14.
      * by apply foldl_insert_lookup.
    + intros i. rewrite F7, F8, foldl_insert_domain, elem_of_app. intros [Hi|Hi]; [left; by apply T13|by right].
    + intros b' e' [Hin|[= -> ->]%list_elem_of_singleton]%elem_of_app; [by apply T14|].
      destruct Hmem as (x & Hx & Hid). by eauto.
    + split_and!; congruence.
    + split; congruence.
    + split; [|done]. rewrite F11a, T17a, length_app. cbn. lia.
Qed.

Lemma facts_closed s0 l s : trace_facts s0 l s → batches_closed s.
Proof.
  intros Hf i b x Hb Hx. rewrite (tf_batches _ _ _ Hf) in Hb. apply collect_by_key in Hb as [Hb _].
  apply list_elem_of_fmap in Hb as ([b' e] & -> & Hin). cbn in Hx.
  destruct (tf_each _ _ _ Hf _ _ Hin) as (_ & _ & y & Hy & Hid). rewrite Hy in Hx.
  apply list_elem_of_singleton in Hx as ->. rewrite Hid. exists (entry_command e).
  apply (tf_commands _ _ _ Hf). apply list_elem_of_fmap. by exists (b', e).
Qed.

(** ** The code replays a step *)

(** The sequence that [observe] records *)
Definition last_sequence (m : Machine) : N :=
  match admission_parent m with Some (q, _) => q | None => 0%N end.
(** No Run was admitted after the last admission. *)
Definition bounded (r : MachineReplayAncestry) (m : Machine) : Prop :=
  ∀ i q, run_admissions r !! i = Some q → (q ≤ last_sequence m)%N.

Lemma observe_Ok r m root :
  authority_root m = Ok root →
  observe r m = Ok ({| roots := <[root := last_sequence m]> (roots r);
                       run_admissions := run_admissions r |}, root).
Proof. intros Hr. unfold observe. by rewrite Hr. Qed.

Lemma next_sequence a parent :
  CommandAdmission_verify a parent = Ok () →
  sequence a = (match parent with Some (q, _) => q | None => 0 end + 1)%N.
Proof.
  unfold CommandAdmission_verify. intros Hv. apply bind_Ok in Hv as (n & Hn & Hv).
  apply bind_Ok in Hv as ([] & Hs & _). apply require_Ok in Hs. unfold admission_shape_ok in Hs.
  rewrite !andb_true_iff in Hs. destruct Hs as [[[[[[[[[[[[[_ Hs] _] _] _] _] _] _] _] _] _] _] _] _].
  apply N.eqb_eq in Hs. rewrite Hs. unfold next_command_admission_sequence in Hn.
  destruct parent as [[q i]|]; [|by injection Hn as <-].
  apply ok_or_Ok, opt_filter_Some in Hn as [Hn _]. by apply checked_add_Some in Hn as [-> _].
Qed.

Lemma step_sequence s b e s' :
  step_fields s b e s' →
  last_sequence s' = sequence (entry_admission e) ∧ (last_sequence s < last_sequence s')%N.
Proof.
  intros Hf. assert (last_sequence s' = sequence (entry_admission e)) as Heq.
  { unfold last_sequence, admission_parent, command_admission_parent.
    by rewrite (sf_admissions _ _ _ _ Hf), last_snoc. }
  split; [done|]. rewrite Heq, (next_sequence _ _ (sf_verified _ _ _ _ Hf)). unfold last_sequence. lia.
Qed.

Lemma step_replayed s b e s' entries ps arts r :
  replay_step s b e s' → stored s → bounded r s →
  entries !! adm_command_id (entry_admission e) = Some e → plans s' ⊆ ps → artifacts s' ⊆ arts →
  ∃ r', replay_archived_batch s b entries ps arts r = Ok (s', r', 1%N) ∧ bounded r' s'.
Proof.
  intros Hstep Hs Hbd Hent Hps Harts. pose proof (replay_step_fields _ _ _ _ Hstep Hs) as Hf.
  destruct Hstep as [(x & Hx & Hid) Hb He _ Hpar Hsrc Hmat (s1 & s2 & Hadm & Hrep & Hins) Hres].
  destruct (step_sequence _ _ _ _ Hf) as [Hseq Hlt].
  unfold replay_archived_batch. rewrite Hb. cbn [mbind result_bind]. rewrite (observe_Ok r s _ Hpar).
  cbn [mbind result_bind]. rewrite bool_decide_eq_true_2 by done. cbn [require mbind result_bind].
  rewrite Hx. cbn [omap list_omap]. rewrite Hid, Hent. cbn [fmap list_fmap].
  assert (verify_source {| roots := <[admission_parent_authority_root b := last_sequence s]> (roots r);
    run_admissions := run_admissions r |} b [env_run_id (envelope (entry_command e))] = Ok ()) as ->.
  { unfold verify_source. cbn. rewrite Hsrc, lookup_insert_eq. cbn [ok_or mbind result_bind].
    destruct (run_admissions r !! _) as [q|] eqn:Hq; [|done]. cbn. specialize (Hbd _ _ Hq).
    assert ((last_sequence s <? q)%N = false) as -> by (apply N.ltb_ge; lia). done. }
  cbn [mbind result_bind]. rewrite (Hmat ps arts Hps Harts). cbn [mbind result_bind].
  rewrite (Hadm ps arts Hps Harts). cbn [mbind result_bind try_fold]. unfold replay_member.
  rewrite Hid, Hent. cbn [ok_or mbind result_bind]. rewrite He. cbn [mbind result_bind].
  rewrite Hrep. cbn [mbind result_bind]. rewrite Hins. cbn [mbind result_bind]. rewrite Hres.
  cbn [mbind result_bind]. rewrite bool_decide_eq_true_2 by done. cbn [require mbind result_bind].
  rewrite (observe_Ok _ s' _ Hres). cbn [mbind result_bind length]. eexists. split; [reflexivity|].
  intros i q. cbn. case_decide; cbn.
  - destruct (decide (i = env_run_id (envelope (entry_command e)))) as [->|Hne].
    + rewrite lookup_insert_eq. intros [= <-]. lia.
    + rewrite lookup_insert_ne by done. intros Hq. specialize (Hbd _ _ Hq). lia.
  - intros Hq. specialize (Hbd _ _ Hq). lia.
Qed.

(** The snapshot holds a batch with its entry. *)
Definition available (s : MachineSnapshot) (b : MachineCommandBatchRecord)
    (e : MachineCommandArchiveEntry) : Prop :=
  collect_by br_batch_id (snap_batches s) !! br_batch_id b = Some b
  ∧ hot_batch_archive_entries b (collect_by adm_command_id (snap_admissions s))
      (collect_by event_id (snap_events s)) (snap_commands s) = Ok [e].

Lemma hot_loop t c s0 l s r0 count :
  blank s0 → replay_trace s0 l s → bounded r0 s0 → (∀ b e, (b, e) ∈ l → available t b e) →
  plans s ⊆ catalog_plans c → artifacts s ⊆ catalog_artifacts c →
  (count + N.of_nat (length l) ≤ u64_max)%N →
  ∃ r, try_fold (replay_hot_batch t c (collect_by br_batch_id (snap_batches t))) (s0, r0, count, ∅)
         (br_batch_id <$> l.*1)
       = Ok (s, r, (count + N.of_nat (length l))%N, list_to_set (l.*1 ≫= br_event_ids)) ∧ bounded r s.
Proof.
  intros Hbl Htr Hbd. revert count. induction Htr as [|l s b e s' Htr IH Hstep]; intros count Hav Hps Harts Hle.
  - exists r0. cbn. by rewrite N.add_0_r.
  - pose proof (trace_facts_hold _ _ _ Hbl Htr) as Hf.
    pose proof (replay_step_fields _ _ _ _ Hstep (tf_stored _ _ _ Hf)) as Hsf.
    rewrite length_app in Hle. cbn in Hle.
    destruct (IH count) as (r & Hfold & Hbr).
    + intros b' e' Hin. apply Hav. apply elem_of_app. by left.
    + etrans; [apply (sf_grows _ _ _ _ Hsf)|done].
    + etrans; [apply (sf_grows _ _ _ _ Hsf)|done].
    + lia.
    + destruct (Hav b e) as [Hb He]; [apply elem_of_app; right; by left|].
      destruct (step_replayed s b e s' (collect_by (λ e, adm_command_id (entry_admission e)) [e])
        (catalog_plans c) (catalog_artifacts c) r Hstep (tf_stored _ _ _ Hf) Hbr) as (r' & Hrep & Hbr');
        [apply lookup_insert_eq|done|done|].
      exists r'. split; [|done]. rewrite fmap_app, fmap_app, try_fold_app, Hfold. cbn [fmap list_fmap fst].
      cbn [mbind result_bind try_fold]. unfold replay_hot_batch. rewrite Hb. cbn [ok_or mbind result_bind].
      rewrite He. cbn [mbind result_bind]. unfold count_batch. rewrite Hrep. cbn [mbind result_bind].
      rewrite checked_add_fits by lia. cbn [ok_or mbind result_bind]. do 2 f_equal.
      * f_equal. rewrite length_app. cbn. lia.
      * rewrite bind_app, list_to_set_app_L. by rewrite bind_singleton.
Qed.

(** ** The snapshot of a machine *)

Lemma lookup_all_Ok {A} (key : A → string) (l : gmap string A) order :
  (∀ i, i ∈ order → ∃ x, l !! i = Some x ∧ key x = i) →
  ∃ xs, lookup_all l order = Ok xs ∧ key <$> xs = order ∧ (∀ x, x ∈ xs → l !! key x = Some x).
Proof.
  unfold lookup_all. induction order as [|i order IH]; intros Hall.
  - exists []. split; [done|]. split; [done|]. by intros ? ?%elem_of_nil.
  - destruct (Hall i) as (x & Hx & Hk); [by left|]. destruct IH as (xs & Hxs & Hkeys & Hin).
    { intros j Hj. apply Hall. by right. }
    exists (x :: xs). cbn [try_map]. rewrite Hx. cbn [ok_or mbind result_bind]. rewrite Hxs.
    split; [done|]. split; [cbn; by rewrite Hk, Hkeys|].
    intros y [->|Hy]%elem_of_cons; [by rewrite Hk|by apply Hin].
Qed.
Lemma listed_collect {A} (key : A → string) (l : gmap string A) xs order :
  key <$> xs = order → NoDup order → (∀ i, is_Some (l !! i) → i ∈ order) →
  (∀ x, x ∈ xs → l !! key x = Some x) → collect_by key xs = l.
Proof.
  intros Hk Hnd Hdom Hin. apply collect_by_id; [by rewrite Hk|]. intros i x. split.
  - intros Hx. assert (i ∈ order) as Hi by (apply Hdom; by exists x). rewrite <-Hk in Hi.
    apply list_elem_of_fmap in Hi as (y & -> & Hy). rewrite (Hin y Hy) in Hx. by injection Hx as <-.
  - intros [Hx <-]. by apply Hin.
Qed.
Lemma omap_all {A} (l : gmap string A) order xs :
  Forall2 (λ i x, l !! i = Some x) order xs → omap (λ i, l !! i) order = xs.
Proof. induction 1 as [|i x order xs Hx _ IH]; [done|]. cbn. by rewrite Hx, IH. Qed.

(** What the snapshot of a machine at the end of a trace holds *)
Record snapshot_of (m : Machine) (l : list (MachineCommandBatchRecord * MachineCommandArchiveEntry))
    (s : MachineSnapshot) : Prop := {
  so_version : snapshot_version s = MACHINE_SNAPSHOT_VERSION;
  so_plans : collect_by plan_id (snap_plans s) = plans m ∧ plan_id <$> snap_plans s = plan_order m;
  so_artifacts : collect_by record_id (snap_artifacts s) = artifacts m
    ∧ record_id <$> snap_artifacts s = artifact_order m;
  so_batches : snap_batches s = l.*1;
  so_base : snap_base s = base m ∧ snap_base_anchor s = base_anchor m;
  so_events : snap_events s = l.*2 ≫= entry_events;
  so_admissions : snap_admissions s = entry_admission <$> l.*2;
  so_commands : snap_commands s = commands m;
  so_proofs : snap_command_index_proofs s = command_index_proofs m;
}.

Lemma snapshot_taken s0 l Q m :
  trace_facts s0 l (twin Q m) → ∃ s, snapshot m = Ok s ∧ snapshot_of m l s.
Proof.
  intros Hf. destruct (tf_stored _ _ _ Hf) as [Hp Hpo Hpd _ Ha Hao Had _]. cbn in *.
  destruct (lookup_all_Ok plan_id (plans m) (plan_order m)) as (ps & Hps & Hpk & Hpin).
  { intros i Hi. apply Hpd in Hi as [p Hi]. exists p. split; [done|]. by apply (Hp _ _ Hi). }
  destruct (lookup_all_Ok record_id (artifacts m) (artifact_order m)) as (arts & Harts & Hak & Hain).
  { intros i Hi. apply Had in Hi as [p Hi]. exists p. split; [done|]. by apply (Ha _ _ Hi). }
  pose proof (tf_batches _ _ _ Hf) as Hb. pose proof (tf_batch_order _ _ _ Hf) as Hbo. cbn in Hb, Hbo.
  assert (lookup_all (batches m) (batch_order m) = Ok l.*1) as Hbs.
  { unfold lookup_all. rewrite Hbo, Hb. pose proof (tf_batch_nodup _ _ _ Hf) as Hnd.
    assert (∀ b, b ∈ l.*1 → collect_by br_batch_id l.*1 !! br_batch_id b = Some b) as Hall
      by (intros b Hin; by apply collect_by_lookup).
    revert Hall. generalize (collect_by br_batch_id l.*1). clear. intros c. induction l.*1 as [|b bs IH]; [done|].
    intros Hall. cbn [fmap list_fmap try_map]. rewrite (Hall b) by by left. cbn [ok_or mbind result_bind].
    rewrite IH; [done|]. intros x Hx. apply Hall. by right. }
  unfold snapshot. rewrite Hps, Harts, Hbs. cbn [mbind result_bind]. eexists. split; [reflexivity|].
  split; cbn; try done.
  - split; [|done]. eapply listed_collect; [exact Hpk|done| |done]. intros i Hi. by apply Hpd.
  - split; [|done]. eapply listed_collect; [exact Hak|done| |done]. intros i Hi. by apply Had.
  - unfold ordered_events. pose proof (tf_event_order _ _ _ Hf) as Heo. cbn in Heo. rewrite Heo.
    apply omap_all. pose proof (tf_events _ _ _ Hf) as Hev. cbn in Hev. revert Hev.
    generalize (l.*2 ≫= entry_events). clear. intros evs. induction evs as [|ev evs IH]; intros Hev; [constructor|].
    cbn. constructor; [apply Hev; by left|]. apply IH. intros x Hx. apply Hev. by right.
  - exact (tf_admissions _ _ _ Hf).
Qed.

Lemma snapshot_available s0 l Q m s b e :
  trace_facts s0 l (twin Q m) → snapshot_of m l s → (b, e) ∈ l → available s b e.
Proof.
  intros Hf Hs Hin. assert (b ∈ l.*1) as Hb by (apply list_elem_of_fmap; by exists (b, e)).
  assert (e ∈ l.*2) as He by (apply list_elem_of_fmap; by exists (b, e)).
  destruct (tf_each _ _ _ Hf _ _ Hin) as (_ & Hids & x & Hx & Hid). split.
  - rewrite (so_batches _ _ _ Hs). apply collect_by_lookup; [apply Hf|done].
  - unfold hot_batch_archive_entries. rewrite Hx, (so_admissions _ _ _ Hs), (so_events _ _ _ Hs),
      (so_commands _ _ _ Hs). cbn [try_map]. rewrite Hid.
    rewrite (collect_by_lookup adm_command_id _ (entry_admission e)) by
      (apply Hf || by apply list_elem_of_fmap_2). cbn [ok_or mbind result_bind].
    pose proof (tf_commands _ _ _ Hf _ He) as Hc. cbn in Hc. rewrite Hc. cbn [ok_or mbind result_bind].
    rewrite Hids.
    assert (try_map (λ i, ok_or (collect_by event_id (l.*2 ≫= entry_events) !! i) NotFound)
      (event_id <$> entry_events e) = Ok (entry_events e)) as ->; [|by destruct e].
    assert (NoDup (event_id <$> (l.*2 ≫= entry_events))) as Hnd
      by (rewrite <-(tf_event_order _ _ _ Hf); apply Hf).
    assert (∀ ev, ev ∈ entry_events e → collect_by event_id (l.*2 ≫= entry_events) !! event_id ev = Some ev)
      as Hall.
    { intros ev Hev. apply collect_by_lookup; [done|]. apply list_elem_of_bind. by exists e. }
    clear -Hall. revert Hall. generalize (collect_by event_id (l.*2 ≫= entry_events)). intros c.
    induction (entry_events e) as [|ev evs IH]; intros Hall; [done|]. cbn [fmap list_fmap try_map].
    rewrite (Hall ev) by by left. cbn [ok_or mbind result_bind]. rewrite IH; [done|].
    intros y Hy. apply Hall. by right.
Qed.

(** ** Restoring from a trace *)

(** [m] as restoring gives it back: staged material is not part of a snapshot. *)
Definition unstaged (m : Machine) : Machine := twin (command_index_proofs m) m.

Lemma snapshot_unstaged m : snapshot (unstaged m) = snapshot m.
Proof. done. Qed.

Lemma trace_event_ids s0 l s :
  trace_facts s0 l s → l.*1 ≫= br_event_ids = event_id <$> (l.*2 ≫= entry_events).
Proof.
  intros Hf. pose proof (tf_each _ _ _ Hf) as Hall. clear Hf. induction l as [|[b e] l IH]; [done|].
  cbn. rewrite fmap_app, IH by (intros ? ? ?; apply Hall; by right).
  destruct (Hall b e) as (-> & _); [by left|done].
Qed.

Lemma snapshot_catalog s0 l Q m s :
  trace_facts s0 l (twin Q m) → snapshot_of m l s →
  MachineRestoreCatalog_new s = Ok {| catalog_snapshot := s; catalog_plans := plans m;
                                      catalog_artifacts := artifacts m |}.
Proof.
  intros Hf Hs. destruct (so_plans _ _ _ Hs) as [Hp Hpo], (so_artifacts _ _ _ Hs) as [Ha Hao].
  destruct (tf_stored _ _ _ Hf) as [Sp Spo _ _ Sa Sao _ _]. cbn in *.
  unfold MachineRestoreCatalog_new. rewrite Hp, Ha.
  assert (size (plans m) = length (snap_plans s)) as -> by (rewrite <-Hp; apply collect_by_size; by rewrite Hpo).
  assert (size (artifacts m) = length (snap_artifacts s)) as -> by (rewrite <-Ha; apply collect_by_size; by rewrite Hao).
  rewrite !Nat.eqb_refl. cbn [andb require mbind result_bind].
  assert (try_each SealedPlan_verify (snap_plans s) = Ok ()) as ->.
  { apply try_each_Ok. intros p Hin. apply (Sp (plan_id p) p). cbn. rewrite <-Hp.
    apply collect_by_lookup; [by rewrite Hpo|done]. }
  cbn [mbind result_bind].
  assert (try_each ArtifactRecord_validate (snap_artifacts s) = Ok ()) as ->; [|done].
  apply try_each_Ok. intros p Hin. apply (Sa (record_id p) p). rewrite <-Ha.
  apply collect_by_lookup; [by rewrite Hao|done].
Qed.

Lemma proofs_checked m root :
  chain_inv m → current_command_index_root (base m) = Ok root →
  try_each (λ ip : string * MachineCommandIndexProof,
      _ ← IndexProof_verify ip.2 root;
      require (bool_decide (ip_command_id ip.2 = ip.1) && bool_decide (ip_value ip.2 = None))
        IdentityMismatch) (btree_list (command_index_proofs m)) = Ok ()
  ∧ dom (command_index_proofs m) =@{gset string} dom (commands m).
Proof.
  intros Hc Hroot.
  assert (∀ i p, command_index_proofs m !! i = Some p →
    IndexProof_verify p root = Ok () ∧ ip_command_id p = i ∧ ip_value p = None ∧ is_Some (commands m !! i)) as Hall.
  { intros i p Hp. destruct (ch_proofs _ Hc i) as [r Hr]; [by exists p|].
    destruct (ro_proof _ _ _ (ch_command _ Hc _ _ Hr)) as (p' & root' & Hp' & ? & ? & Hroot' & Hv).
    rewrite Hp in Hp'. injection Hp' as <-. rewrite Hroot in Hroot'. injection Hroot' as <-. by eauto. }
  split.
  - apply try_each_Ok. intros [i p] Hin. cbn. rewrite btree_list_perm in Hin. apply elem_of_map_to_list in Hin.
    destruct (Hall _ _ Hin) as (-> & -> & -> & _). cbn [mbind result_bind]. by rewrite !bool_decide_eq_true_2.
  - apply set_eq. intros i. rewrite !elem_of_dom. split.
    + intros [p Hp]. by apply (Hall i p).
    + intros [r Hr]. destruct (ro_proof _ _ _ (ch_command _ Hc _ _ Hr)) as (p & _ & Hp & _). by exists p.
Qed.

Lemma current_root_Ok b : is_ok (current_command_index_root b) = true.
Proof.
  destruct b; [done|]. unfold current_command_index_root. by destruct empty_root_Ok as [root ->].
Qed.

Lemma hot_suffix s0 l Q m s r0 count :
  blank s0 → replay_trace s0 l (twin Q m) → bounded r0 s0 → chain_inv m → snapshot_of m l s →
  (count + N.of_nat (length l) ≤ u64_max)%N →
  replay_hot_snapshot s0 s {| catalog_snapshot := s; catalog_plans := plans m;
                              catalog_artifacts := artifacts m |} r0 count
  = Ok (unstaged m, (count + N.of_nat (length l))%N).
Proof.
  intros Hb Ht Hr Hc Hs Hle. pose proof (trace_facts_hold _ _ _ Hb Ht) as Hf.
  unfold replay_hot_snapshot.
  destruct (hot_loop s {| catalog_snapshot := s; catalog_plans := plans m; catalog_artifacts := artifacts m |}
    s0 l (twin Q m) r0 count Hb Ht Hr) as (r & Hloop & _); [|done..|].
  { intros b e Hin. by eapply snapshot_available. }
  rewrite (so_batches _ _ _ Hs) in Hloop |- *. rewrite Hloop. cbn [mbind result_bind].
  rewrite (so_proofs _ _ _ Hs), (so_commands _ _ _ Hs), (so_events _ _ _ Hs), (so_admissions _ _ _ Hs).
  change (base (set_command_index_proofs (command_index_proofs m) (twin Q m))) with (base m).
  destruct (current_command_index_root (base m)) as [root|] eqn:Hroot;
    [|by pose proof (current_root_Ok (base m)) as Hok; rewrite Hroot in Hok].
  cbn [mbind result_bind]. destruct (proofs_checked m root Hc Hroot) as [Hchk Hdom].
  rewrite bool_decide_eq_true_2 by done. cbn [require mbind result_bind]. rewrite Hchk.
  cbn [mbind result_bind].
  pose proof (tf_event_nodup _ _ _ Hf) as Hnd. rewrite (tf_event_order _ _ _ Hf) in Hnd.
  assert (size (list_to_set (l.*1 ≫= br_event_ids) : gset string) = length (l.*2 ≫= entry_events)) as ->.
  { rewrite (trace_event_ids _ _ _ Hf), size_list_to_set by done. by rewrite length_fmap. }
  pose proof (tf_admissions _ _ _ Hf) as Ha. pose proof (tf_batches _ _ _ Hf) as Hbs. cbn in Ha, Hbs.
  cbn [admissions batches commands command_index_proofs set_command_index_proofs twin set_staged_plans
    set_staged_artifacts]. rewrite Nat.eqb_refl, !bool_decide_eq_true_2 by done. reflexivity.
Qed.

(** ** Every operation extends the trace *)

(** The machine that restoring makes of a base *)
Record rebased (b : MachineBase) (anchor : MachineBaseAnchor) (s : Machine) : Prop := {
  rb_base : base s = Some b ∧ base_anchor s = Some anchor;
  rb_trusted : verify_trusted_base_fields anchor b = Ok ();
  rb_compacted : compacted_event_ids s = base_event_ids b;
  rb_projection : projection s = base_projection b;
  rb_root : projection_root (authority s) = base_projection_root b;
  rb_plans : auth_plans (authority s) = base_plan_commitment b
    ∧ N.of_nat (size (plans s)) = base_plan_count b;
  rb_artifacts : auth_artifacts (authority s) = base_artifact_commitment b
    ∧ N.of_nat (size (artifacts s)) = base_artifact_count b;
  rb_batches : auth_batches (authority s) = base_batch_commitment b
    ∧ batch_count (authority s) = base_batch_count b;
  rb_proofs : command_index_proofs s = ∅;
}.
Definition starts (b : option MachineBase) (anchor : option MachineBaseAnchor) (s : Machine) : Prop :=
  match b, anchor with
  | None, None => Machine_new = Ok s
  | Some b, Some anchor => rebased b anchor s
  | _, _ => False
  end.

(** Staged material has its key, and the present state is reached from the base
    by replaying what is retained. *)
Record hot_inv (m : Machine) : Prop := {
  hi_keyed : staged_keyed m;
  hi_trace : ∃ s0 l Q, blank s0 ∧ starts (base m) (base_anchor m) s0 ∧ replay_trace s0 l (twin Q m);
}.

Lemma hot_unchanged m m' :
  (∀ Q, twin Q m' = twin Q m) → staged_keyed m' → hot_inv m → hot_inv m'.
Proof.
  intros Ht Hk [_ (s0 & l & Q & Hb & Hs & Htr)]. split; [done|]. exists s0, l, Q. rewrite Ht.
  split; [done|]. split; [|done]. pose proof (Ht ∅) as Heq.
  assert (base m' = base m ∧ base_anchor m' = base_anchor m) as [-> ->]; [|done].
  split; [apply (f_equal base) in Heq|apply (f_equal base_anchor) in Heq]; exact Heq.
Qed.

Lemma admission_staged {m env proof m' hash rec new a m1 m2 m4 after parent_root} :
  admission_of m env proof m' hash rec new a m1 m2 m4 after parent_root →
  staged_plans m' = staged_plans m1 ∧ staged_artifacts m' = staged_artifacts m1.
Proof.
  intros Hao. rewrite (ao_result _ _ _ _ _ _ _ _ _ _ _ _ _ Hao). cbn.
  pose proof (ao_final _ _ _ _ _ _ _ _ _ _ _ _ _ Hao) as Hf. unfold finalize_single_batch_authority in Hf.
  apply bind_Ok in Hf as (r1 & _ & Hf). apply bind_Ok in Hf as (c1 & _ & Hf).
  apply bind_Ok in Hf as (r2 & _ & Hf). apply bind_Ok in Hf as (b & _ & Hf).
  apply bind_Ok in Hf as (m3 & Hi & Hf). apply bind_Ok in Hf as (r3 & _ & Hf).
  apply bind_Ok in Hf as ([] & _ & [= ->]). unfold Machine.insert_batch in Hi.
  apply bind_Ok in Hi as ([] & _ & Hi).
  assert (∃ p, m2 = Machine.set_projection p m1) as [p Hp].
  { destruct (ao_path _ _ _ _ _ _ _ _ _ _ _ _ _ Hao) as [(_ & _ & _ & -> & -> & _)|(_ & _ & _ & _ & Hap)].
    - exists (projection m). by destruct m.
    - by eapply apply_batch_machine. }
  assert (∀ mx, let my := foldl append_event mx new in staged_plans my = staged_plans mx
    ∧ staged_artifacts my = staged_artifacts mx) as Hfold.
  { clear. induction new as [|ev evs IH]; intros mx; [done|]. cbn. by destruct (IH (append_event mx ev)) as (-> & ->). }
  destruct (Hfold (set_authority (set_projection_root after (authority m2)) m2)) as [F1 F2].
  assert (staged_plans m2 = staged_plans m1 ∧ staged_artifacts m2 = staged_artifacts m1) as [P1 P2]
    by (by rewrite Hp). clear Hp. cbn in F1, F2. rewrite P1 in F1. rewrite P2 in F2.
  destruct (batches _ !! _); inv_ok; cbn; by rewrite F1, F2.
Qed.

Lemma submit_new_hot m env proof m' r :
  machine_inv m → validate_envelope env = Ok () → hot_inv m →
  submit_new_with_index_proof m env proof = Ok (m', r) → hot_inv m'.
Proof.
  intros Hm Henv [Hk (s0 & l & Q & Hb & Hst & Htr)] Hs.
  destruct (submit_new_admission _ _ _ _ _ Hs)
    as (hash & rec & new & a & m1 & m2 & m4 & after & pr & Hao & _).
  pose proof (trace_facts_hold _ _ _ Hb Htr) as Hf.
  assert (stored m) as Hsm by by destruct (tf_stored _ _ _ Hf).
  pose proof (facts_closed _ _ _ Hf) as Hcl.
  assert (staged_keyed m1 ∧ ∃ b pf, replay_step (twin Q m) b (entry_of_submission (new := new) (rec := rec) (a := a))
    (twin (<[command_id env := pf]> Q) m')) as (Hk1 & b & pf & Hstep).
  { destruct (ao_path _ _ _ _ _ _ _ _ _ _ _ _ _ Hao)
      as [(Hst' & Hc & Hn & Hm1 & Hm2 & Ha)|(Hst' & Had & Hr & Hn & Hap)].
    - split; [by rewrite Hm1|]. by eapply (conflict_replays Hm Henv Hsm Hk Hcl Hao).
    - by destruct (applied_replays Hm Henv Hsm Hk Hcl Hao Q Hst' Had Hr Hn Hap) as (_ & ? & ?). }
  pose proof (trace_snoc _ _ _ _ _ _ Htr Hstep) as Htr'.
  pose proof (trace_facts_hold _ _ _ Hb Htr') as Hf'. destruct (admission_staged Hao) as [Hsp Hsa].
  split.
  - eapply staged_keyed_sub; [| |exact Hk1]; by rewrite ?Hsp, ?Hsa.
  - exists s0. eexists. eexists. split; [done|]. split; [|exact Htr'].
    destruct (tf_base _ _ _ Hf) as (B1 & B2 & _), (tf_base _ _ _ Hf') as (B1' & B2' & _). cbn in *.
    by rewrite B1', B2', <-B1, <-B2.
Qed.

Lemma machine_step_hot m m' : machine_step m m' → full_inv m → hot_inv m → hot_inv m'.
Proof.
  intros Hs Hfull Hh. pose proof (fi_machine _ Hfull) as Hm.
  destruct Hs as [m0 p m1 Hs|m0 k b m1 r Hs|m0 env m1 r Hs|m0 env lk m1 r Hs].
  - pose proof (hi_keyed _ Hh) as [Hkp Hka]. unfold insert_plan in Hs. apply bind_Ok in Hs as ([] & _ & Hs).
    destruct (plans m0 !! plan_id p); [by inv_ok|].
    destruct (staged_plans m0 !! plan_id p); inv_ok; [done|]. apply (hot_unchanged m0); [done| |done].
    split; cbn; [|done]. intros i q. destruct (decide (i = plan_id p)) as [->|].
    + rewrite lookup_insert_eq. by intros [= <-].
    + rewrite lookup_insert_ne by done. apply Hkp.
  - pose proof (hi_keyed _ Hh) as [Hkp Hka]. unfold put_artifact in Hs. apply bind_Ok in Hs as (ref & _ & Hs).
    destruct (artifacts m0 !! artifact_id ref); [by inv_ok|].
    destruct (staged_artifacts m0 !! artifact_id ref); inv_ok; [done|]. apply (hot_unchanged m0); [done| |done].
    split; cbn; [done|]. intros i q. destruct (decide (i = artifact_id r)) as [->|].
    + rewrite lookup_insert_eq. by intros [= <-].
    + rewrite lookup_insert_ne by done. apply Hka.
  - apply submit_cases in Hs as (Henv & hash & Hh' & [(c & Hc & _ & -> & _)|(_ & _ & proof & _ & Hs)]); [done|].
    by eapply submit_new_hot.
  - unfold submit_with_archive_lookup in Hs. apply bind_Ok in Hs as ([] & Henv & Hs).
    apply bind_Ok in Hs as (hash & _ & Hs). destruct (commands m0 !! command_id env) as [c|].
    + unfold replay_retained in Hs. apply bind_Ok in Hs as ([] & _ & Hs). case_decide; [|done].
      by injection Hs as <- _.
    + apply bind_Ok in Hs as (root & _ & Hs). destruct lk as [proof|proof entry]; [|by inv_ok].
      apply bind_Ok in Hs as ([] & _ & Hs). apply bind_Ok in Hs as ([] & _ & Hs). by eapply submit_new_hot.
Qed.

Lemma new_blank m : Machine_new = Ok m → blank m.
Proof.
  unfold Machine_new. intros (ps & Hps & (arts & Harts & (bs & _ & (root & _ & [= <-])%bind_Ok)%bind_Ok)%bind_Ok)%bind_Ok.
  split; cbn; try done. split; cbn.
  - intros k p. cbn. by rewrite lookup_empty.
  - constructor.
  - intros k. rewrite lookup_empty. split; [by intros []|by intros ?%elem_of_nil].
  - unfold commitment_of. by rewrite Hps.
  - intros k p. by rewrite lookup_empty.
  - constructor.
  - intros k. rewrite lookup_empty. split; [by intros []|by intros ?%elem_of_nil].
  - unfold commitment_of. by rewrite Harts.
Qed.
Lemma new_hot m : Machine_new = Ok m → hot_inv m.
Proof.
  intros Hn. pose proof (new_blank _ Hn) as Hb. split.
  - destruct (bl_staged _ Hb) as [Hsp Hsa]. split; intros i x; rewrite ?Hsp, ?Hsa; by rewrite lookup_empty.
  - exists m, [], (command_index_proofs m). split; [done|].
    assert (base m = None ∧ base_anchor m = None ∧ twin (command_index_proofs m) m = m) as (-> & -> & ->);
      [|split; [done|constructor]].
    unfold Machine_new in Hn. by inv_ok.
Qed.
End RestoreTrace.
