(* ===== verification/History.v ===== *)
(** * How a Run changes

    A Run only grows: its lineages are extended, its epoch never decreases, a
    closed scope, a settled effect and a resolved obligation are never touched
    again, and an inactive attempt is never revived.  The relation is proved
    for [Projection::apply_event] of [crates/cymule-core/src/model.rs] and
    lifted to the public operations of the machine. *)

From S2P Require Import Prelude KeyIndex Identity Canonical Ir Model Events Chain Machine Effects.
From S2P Require Import DerivedIndex IndexSpec Reducer Verify Authority Admission Submit RunInv.
From S2P Require Import RunSteps Terminate ReducerInv MachineInv ChainInv.

(** ** Growth of the parts *)

(** Every entry is kept and advanced. *)
Definition grows {A} (R : A → A → Prop) (m m' : gmap string A) : Prop :=
  ∀ k a, m !! k = Some a → ∃ a', m' !! k = Some a' ∧ R a a'.
#[export] Instance grows_preorder {A} (R : A → A → Prop) `{!PreOrder R} : PreOrder (grows R).
Proof.
  split.
  - intros m k a Ha. by exists a.
  - intros m1 m2 m3 H1 H2 k a Ha. destruct (H1 k a Ha) as (b & Hb & ?).
    destruct (H2 k b Hb) as (c & Hc & ?). exists c. split; [done|]. by etrans.
Qed.
Lemma grows_fresh {A} (R : A → A → Prop) `{!PreOrder R} m k a :
  m !! k = None → grows R m (<[k := a]> m).
Proof.
  intros Hk j b Hb. exists b. split; [|done]. rewrite lookup_insert_ne; [done|]. congruence.
Qed.
Lemma grows_update {A} (R : A → A → Prop) `{!PreOrder R} m k a b :
  m !! k = Some a → R a b → grows R m (<[k := b]> m).
Proof.
  intros Hk HR j c Hc. destruct (decide (k = j)) as [<-|].
  - exists b. rewrite lookup_insert_eq. split; [done|]. congruence.
  - exists c. by rewrite lookup_insert_ne.
Qed.
Lemma grows_adjust {A} (R : A → A → Prop) `{!PreOrder R} (f : A → A) l m :
  (∀ k a, k ∈ l → m !! k = Some a → R a (f a)) → grows R m (adjust f l m).
Proof.
  intros Hf k a Ha. rewrite lookup_adjust, Ha. cbn. eexists; split; [done|].
  case_decide; [by eapply Hf|done].
Qed.

(** How far an effect is on its way: no transition goes back. *)
Definition phase_rank (p : EffectPhase) : nat :=
  match p with
  | Admitted_ => 0 | Prepared => 1 | ReleaseAuthorized => 2
  | DispatchStarted | CancelledBeforeRelease => 3
  end.
Record effect_advanced (e e' : EffectProjection) : Prop := {
  ea_same : same_effect e e';
  ea_origin : origin_plan_id e' = origin_plan_id e;
  ea_rank : phase_rank (phase e) ≤ phase_rank (phase e');
  ea_released : phase_rank (phase e) = 3 → phase e' = phase e;
  ea_settled : effect_settlement_class e = ClassSettled → e' = e;
}.
#[export] Instance effect_advanced_preorder : PreOrder effect_advanced.
Proof.
  split.
  - intros e. by split; [split_and!| | | |].
  - intros e1 e2 e3 [(A1 & A2 & A3 & A4 & A5) B1 C1 D1 E1] [(F1 & F2 & F3 & F4 & F5) G1 H1 I1 J1].
    split; [split_and!; congruence|congruence|lia| |].
    + intros Hp. rewrite <-D1 by done. apply I1. by rewrite D1.
    + intros Hs. pose proof (E1 Hs) as ->. by apply J1.
Qed.

Record scope_advanced (s s' : ScopeProjection) : Prop := {
  sa_id : scope_id s' = scope_id s;
  sa_place : parent_scope s' = parent_scope s ∧ scope_invocation_id s' = scope_invocation_id s
    ∧ scope_definition_id s' = scope_definition_id s
    ∧ scope_region_path s' = scope_region_path s ∧ scope_site_id s' = scope_site_id s;
  sa_intents : intent_order s `prefix_of` intent_order s';
  sa_closed : scope_status s ≠ Open → s' = s;
}.
#[export] Instance scope_advanced_preorder : PreOrder scope_advanced.
Proof.
  split.
  - intros s. by split.
  - intros s1 s2 s3 [A1 (A2 & A3 & A4 & A5 & A6) A7 A8] [B1 (B2 & B3 & B4 & B5 & B6) B7 B8].
    split; [congruence|split_and!; congruence|by etrans|].
    intros Hs. pose proof (A8 Hs) as ->. by apply B8.
Qed.

Record obligation_advanced (o o' : ObligationProjection) : Prop := {
  oa_id : obligation_id o' = obligation_id o;
  oa_intent : obligation_intent_id o' = obligation_intent_id o;
  oa_blocking : blocking o' = blocking o;
  oa_resolved : resolved o = true → resolved o' = true;
}.
#[export] Instance obligation_advanced_preorder : PreOrder obligation_advanced.
Proof. split; [intros o; by split|intros o1 o2 o3 [] []; split; [congruence..|auto]]. Qed.

Record attempt_advanced (a a' : AttemptProjection) : Prop := {
  aa_id : attempt_id a' = attempt_id a;
  aa_continuation : continuation_id a' = continuation_id a;
  aa_numbers : continuation_epoch a' = continuation_epoch a
    ∧ execution_fence a' = execution_fence a;
  aa_active : active a' = true → active a = true;
}.
#[export] Instance attempt_advanced_preorder : PreOrder attempt_advanced.
Proof.
  split; [intros a; by split|].
  intros a1 a2 a3 [? ? [? ?] ?] [? ? [? ?] ?]. split; [congruence..|split; congruence|auto].
Qed.

(** The part of a Run that its status depends on. *)
Record run_extends (r r' : RunProjection) : Prop := {
  re_id : run_id r' = run_id r;
  re_initial : initial_plan r' = initial_plan r
    ∧ initial_binding_context r' = initial_binding_context r;
  re_plans : plan_lineage r `prefix_of` plan_lineage r';
  re_bindings : binding_lineage r `prefix_of` binding_lineage r';
  re_epoch : (epoch r ≤ epoch r')%N;
  re_status : execution_status r ≠ Active →
    execution_status r' = execution_status r ∧ run_result r' = run_result r;
  re_attempts : grows attempt_advanced (attempts r) (attempts r');
  re_scopes : grows scope_advanced (scopes r) (scopes r');
  re_effects : grows effect_advanced (effects r) (effects r');
}.
#[export] Instance run_extends_preorder : PreOrder run_extends.
Proof.
  split; [intros r; by split|].
  intros r1 r2 r3 [A1 [A2 A3] A4 A5 A6 A7 A8 A9 A10] [B1 [B2 B3] B4 B5 B6 B7 B8 B9 B10].
  split; try by etrans.
  - split; congruence.
  - intros Hs. destruct (A7 Hs) as [E1 E2]. destruct B7 as [E3 E4]; [congruence|]. split; congruence.
Qed.

(** ** The steps of an effect *)

Lemma transition_advanced e s t e' :
  effect_state_legal e = true → apply_effect_transition e s t = Ok e' → effect_advanced e e'.
Proof.
  intros Hl Ht. pose proof (transition_frame _ _ _ _ Ht) as (? & ? & ? & ? & ? & ?).
  split; [by split_and!|done| | |].
  - legal_cases e Hl; destruct t as [| | |[]|[]|]; try discriminate Ht; destruct s;
      try discriminate Ht; injection Ht as <-; cbn; lia.
  - intros Hp. legal_cases e Hl; try discriminate Hp; destruct t as [| | |[]|[]|];
      try discriminate Ht; by injection Ht as <-.
  - intros Hc. by rewrite (settled_refuses _ _ _ Hl Hc) in Ht.
Qed.
Lemma terminalized_advanced e :
  effect_state_legal e = true → needs_terminal_transition e = true →
  effect_advanced e (terminalized_effect e).
Proof.
  intros Hl Ht. split; [by destruct (terminalized_same e) as (? & ? & ? & ? & ?)| | | |];
    legal_cases e Hl; try discriminate Ht; cbn; try done; try lia; intros Hx; discriminate Hx.
Qed.
Lemma aborted_advanced e :
  effect_state_legal e = true → needs_scope_abort_transition e = true →
  effect_advanced e (aborted_effect e).
Proof.
  intros Hl Ht. split; legal_cases e Hl; try discriminate Ht; cbn; try done; try lia;
    intros Hx; discriminate Hx.
Qed.

(** ** The steps of a Run *)

Section Steps.
Context `{Sha256} `{Canonical}.

Lemma legal_of D r i e : core_inv D r → effects r !! i = Some e → effect_state_legal e = true.
Proof. intros Hc He. apply (ew_legal _ _ _ (ci_effects _ _ Hc _ _ He)). Qed.

Lemma deactivate_fields r :
  scopes (deactivate r) = scopes r ∧ effects (deactivate r) = effects r
  ∧ plan_lineage (deactivate r) = plan_lineage r
  ∧ binding_lineage (deactivate r) = binding_lineage r
  ∧ initial_plan (deactivate r) = initial_plan r
  ∧ initial_binding_context (deactivate r) = initial_binding_context r
  ∧ epoch (deactivate r) = epoch r
  ∧ grows attempt_advanced (attempts r) (attempts (deactivate r)).
Proof.
  unfold deactivate. destruct (active_attempt (derived r)) as [aid|]; [|by split_and!].
  cbn. destruct (attempts r !! aid) as [a|] eqn:Ha; [|by split_and!].
  split_and!; try done. cbn. eapply grows_update; [apply _|done|by split].
Qed.

(** Changes of the attempts alone. *)
Lemma extends_attempts r atts x :
  grows attempt_advanced (attempts r) atts →
  run_extends r (set_derived x (set_attempts atts r)).
Proof. intros Hg. by split. Qed.

Lemma closed_advanced status s :
  scope_status s = Open → scope_advanced s (set_scope_status status s).
Proof. intros Hs. by split. Qed.

Lemma scope_opened_extends r sid parent iid path did rpath site r' :
  ready r → apply_scope_opened r sid parent iid path did rpath site = Ok r' → run_extends r r'.
Proof.
  intros Hr Hok. destruct (scope_opened_eq _ _ _ _ _ _ _ _ _ Hr Hok) as (Hfresh & _ & -> & _).
  split; try done. by apply grows_fresh; [apply _|].
Qed.

Lemma effect_proposed_extends r rid iid origin sid inv path did rpath site occ schema op prof
    arguments binding occ_binding r' :
  apply_effect_proposed r rid iid origin sid inv path did rpath site occ schema op prof
    arguments binding occ_binding = Ok r' → run_extends r r'.
Proof.
  intros Hok. unfold apply_effect_proposed in Hok. inv_ok.
  unfold validate_effect_proposal_header in *. inv_ok. to_prop.
  split; try done; cbn.
  - eapply grows_update; [apply _|done|]. split; try done; cbn. by eexists.
  - by apply grows_fresh; [apply _|].
Qed.

Lemma effect_transitioned_extends r i t r' :
  ready r → apply_effect_transitioned r i t = Ok r' → run_extends r r'.
Proof.
  intros Hr Hok. apply effect_transitioned_eq in Hok as (e & s & e' & He & _ & Ht & -> & _); [|done].
  split; try done; cbn. eapply grows_update; [apply _|done|].
  eapply transition_advanced; [|done]. apply (legal_of ∅ r i); [apply Hr|done].
Qed.

Lemma scope_committed_extends r sid count commitment r' :
  ready r → apply_scope_committed r sid count commitment = Ok r' → run_extends r r'.
Proof.
  intros Hr Hok. destruct (scope_committed_eq _ _ _ _ _ Hr Hok)
    as (s & m & Hs & Hop & _ & _ & _ & _ & _ & ->).
  split; try done; cbn. eapply grows_update; [apply _|done|by apply closed_advanced].
Qed.

Lemma scope_aborted_extends r sid r' :
  ready r → apply_scope_aborted r sid = Ok r' → run_extends r r'.
Proof.
  intros Hr Hok. destruct (scope_aborted_eq _ _ _ Hr Hok) as (s & Hs & Hop & _ & _ & _ & _ & ->).
  split; try done; cbn.
  - eapply grows_update; [apply _|done|by apply closed_advanced].
  - apply grows_adjust; [apply _|]. intros i e Hi He. unfold aborting in Hi.
    rewrite elem_of_btree_elements, elem_of_set_with in Hi. destruct Hi as (_ & e1 & He1 & Hn).
    apply aborted_advanced; [apply (legal_of ∅ r i); [apply Hr|done]|congruence].
Qed.

Lemma terminate_extends r e r' :
  ready r → execution_status r = Active → terminate_run_execution r e = Ok r' → run_extends r r'.
Proof.
  intros Hr Ha Hok. destruct (terminate_eq _ _ _ Hr Hok) as (-> & _ & obs & _ & _ & _ & ->).
  destruct (deactivate_fields r) as (Hs & He & Hp & Hb & Hip & Hib & Hep & Hat).
  destruct (same_status_deactivate r) as (Hid & _ & _ & _).
  assert (Hef : effects (terminated r obs) = adjust terminalized_effect
    (btree_elements (having needs_terminal_transition (effects r))) (effects r)).
  { cbn. by rewrite He. }
  split; try done; cbn.
  - by rewrite Hp.
  - by rewrite Hb.
  - lia.
  - intros k s Hk. exists (close_all s). rewrite lookup_fmap, Hk. split; [done|].
    unfold close_all, scope_is_open. case_bool_decide; [by apply closed_advanced|done].
  - rewrite He. apply grows_adjust; [apply _|]. intros i t Hi Ht.
    rewrite elem_of_btree_elements, elem_of_having in Hi. destruct Hi as (t' & Ht' & Hn).
    apply terminalized_advanced; [apply (legal_of ∅ r i); [apply Hr|done]|congruence].
Qed.

Lemma apply_run_event_extends r ev r' :
  ready r → execution_status r = Active ∨ is_reconcile (payload ev) = true →
  apply_run_event r ev = Ok r' → run_extends r r'.
Proof.
  intros Hr Hgate Hok. unfold apply_run_event in Hok. destruct (payload ev) eqn:Hp; inv_ok; try done.
  - unfold apply_attempt_started in *. inv_ok. to_prop. apply extends_attempts.
    by apply grows_fresh; [apply _|].
  - unfold apply_attempt_yielded in *. inv_ok. to_prop. apply extends_attempts.
    eapply grows_update; [apply _|done|by split].
  - apply epoch_advanced_eq in Hok as (-> & -> & _).
    destruct (deactivate_fields r) as (Hs & He & Hpl & Hb & Hip & Hib & Hep & Hat).
    destruct (same_status_deactivate r) as (Hid & Hes & Hre & _).
    split; cbn; rewrite ?Hs, ?He, ?Hpl, ?Hb; try done. lia.
  - by eapply scope_opened_extends.
  - by eapply effect_proposed_extends.
  - by eapply effect_transitioned_extends.
  - by eapply scope_committed_extends.
  - by eapply scope_aborted_extends.
  - unfold apply_binding_updated in *. inv_ok. split; try done. by eexists.
  - unfold apply_run_migrated in *. inv_ok. to_prop.
    match goal with Hc : checked_add _ _ = Some _ |- _ => apply checked_add_Some in Hc as [-> _] end.
    split; try done; cbn; [by eexists..|lia].
  - unfold apply_run_completed in *. inv_ok. split; try done. cbn. intros Hn. by destruct Hgate.
  - match goal with Ht : terminate_run_execution _ _ = Ok _ |- _ =>
      apply terminate_extends in Ht as []; [|done|by destruct Hgate] end.
    split; try done. cbn. intros Hn. by destruct Hgate.
  - match goal with Ht : terminate_run_execution _ _ = Ok _ |- _ =>
      apply terminate_extends in Ht as []; [|done|by destruct Hgate] end.
    split; try done. cbn. intros Hn. by destruct Hgate.
Qed.

Lemma set_derived_extends x r : run_extends r (set_derived x r).
Proof. by split. Qed.
Lemma set_last_event_extends i r : run_extends r (set_last_event i r).
Proof. by split. Qed.

(** Facts and Runs are never withdrawn. *)
Record projection_extends (p p' : Projection) : Prop := {
  pe_facts : facts p ⊆ facts p';
  pe_runs : grows run_extends (runs p) (runs p');
}.
#[export] Instance projection_extends_preorder : PreOrder projection_extends.
Proof. split; [by split|]. intros p1 p2 p3 [] []. split; by etrans. Qed.

Lemma ensure_index_spec p ev p1 :
  projection_inv p → ensure_projection_derived_index p ev = Ok p1 →
  projection_inv p1 ∧ facts p1 = facts p ∧ grows run_extends (runs p) (runs p1)
  ∧ ∀ r, runs p1 !! ev_run_id ev = Some r → ready r.
Proof.
  intros Hp Hens. unfold ensure_projection_derived_index in Hens.
  destruct (runs p !! ev_run_id ev) as [r|] eqn:Hr.
  - apply bind_Ok in Hens as (r' & Hr' & Hens). inv_ok.
    destruct (ensure_inv _ _ _ (Hp _ _ Hr) Hr') as [Hinv Hsy]. split_and!; try done.
    + by apply projection_inv_insert.
    + eapply grows_update; [apply _|done|]. unfold ensure_derived in Hr'.
      destruct (initialized (derived r)); inv_ok; [done|apply set_derived_extends].
    + intros t. cbn. rewrite lookup_insert_eq. intros [= <-]. by eapply run_inv_ready.
  - inv_ok. split_and!; try done. intros r. by rewrite Hr.
Qed.

Lemma apply_event_extends p ev p' :
  projection_inv p → apply_event p ev = Ok p' → projection_extends p p'.
Proof.
  intros Hp Hok. unfold apply_event in Hok. apply bind_Ok in Hok as (p1 & Hens & Hok).
  destruct (ensure_index_spec _ _ _ Hp Hens) as (_ & Hf & Hg & Hrd).
  apply bind_Ok in Hok as ([p2 finished] & Hglob & Hok). cbn in Hok.
  assert (Hp2 : facts p1 ⊆ facts p2 ∧ grows run_extends (runs p1) (runs p2)
    ∧ (finished = false → runs p2 = runs p1)).
  { unfold apply_projection_global_event in Hglob. destruct (payload ev); inv_ok; try by split_and!.
    - unfold apply_run_started in *. inv_ok. to_prop. split_and!; try done. cbn.
      by apply grows_fresh; [apply _|].
    - destruct (facts p1 !! key) eqn:Hk; inv_ok; split_and!; try done. cbn.
      by apply insert_subseteq. }
  clear Hglob. destruct Hp2 as (Hf2 & Hg2 & Hruns).
  assert (Hto : projection_extends p p2) by (split; [by rewrite <-Hf|by etrans]).
  destruct finished; [by inv_ok|]. clear Hg2 Hf2.
  apply bind_Ok in Hok as (r & Hr & Hok). apply ok_or_Ok in Hr.
  apply bind_Ok in Hok as ([] & Hgate & Hok). apply bind_Ok in Hok as (r' & Hr' & Hok).
  inv_ok. etrans; [exact Hto|]. split; [done|]. cbn. eapply grows_update; [apply _|done|].
  etrans; [eapply apply_run_event_extends; [| |done]|apply set_last_event_extends].
  - apply Hrd. by rewrite <-Hruns.
  - unfold verify_run_event_gate in Hgate. apply require_Ok, orb_true_iff in Hgate as [Ha|Ha].
    + left. by apply bool_decide_eq_true in Ha.
    + right. by apply andb_true_iff in Ha as [_ ?].
Qed.

Lemma replay_extends evs p p' :
  projection_inv p → (∀ ev, ev ∈ evs → event_material ev) →
  try_fold apply_event p evs = Ok p' → projection_extends p p'.
Proof.
  intros Hp Hev Hok. refine (proj2 (try_fold_inv apply_event
    (λ _ q, projection_inv q ∧ projection_extends p q) evs p p' _ _ Hok)); [done|].
  intros l ev rest t t' Hl [Ht He] Hstep. split.
  - eapply apply_event_inv; [done| |done]. apply Hev. rewrite Hl. set_solver.
  - etrans; [done|]. by eapply apply_event_extends.
Qed.
End Steps.

(** ** The public operations *)

Section Submissions.
Context `{Sha256} `{Canonical} `{!MachineSerialize} `{SchemaCompiler} `{PlanCodec}
  `{!ValueSerialize}.

Lemma apply_batch_extends m evs m' root :
  plans_verified m → projection_inv (projection m) →
  apply_command_event_batch m evs = Ok (m', root) →
  projection_extends (projection m) (projection m').
Proof.
  intros Hp Hpi Hok. unfold apply_command_event_batch in Hok.
  apply bind_Ok in Hok as ([mr pending] & Hf & Hok). injection Hok as ->.
  refine (proj2 (try_fold_inv apply_batch_event (λ don st, batch_prefix m don st
    ∧ projection_extends (projection m) (projection st.1.1)) _ _ _ _ _ Hf)).
  - split; [|done]. split; cbn; try done; [by rewrite set_projection_id|intros ? ?%elem_of_nil; done|].
    intros pre e post parent Heq. by destruct pre.
  - intros don ev rest t t' _ [Hb He] Hs. split; [by eapply batch_prefix_step|].
    etrans; [exact He|]. destruct t as [[mt rt] pt]. pose proof (bp_projection _ _ _ Hb) as Hpt.
    cbn in Hs, Hpt |- *. inv_ok. cbn. by eapply apply_event_extends.
Qed.

(** What one admission does to the log and the projection. *)
Record submission (m m' : Machine) (env : CommandEnvelope) (r : CommandReceipt)
    (new : list Event) : Prop := {
  sb_order : event_order m' = event_order m ++ (event_id <$> new);
  sb_receipt : receipt_event_ids r = event_id <$> new;
  sb_replay : try_fold apply_event (projection m) new = Ok (projection m');
  sb_root : try_fold root_step (projection_root (authority m)) new
    = Ok (projection_root (authority m'));
  sb_extends : projection_extends (projection m) (projection m');
  sb_run : Forall (λ ev, ev_run_id ev = env_run_id env) new;
  sb_conflict : receipt_status r = ReceiptConflict → new = [];
  sb_applied : receipt_status r = ReceiptApplied → ∃ p,
    payload <$> new = batch_payloads p (command env)
    ∧ Forall (λ q, command_matches_event (command env) q = true) (payload <$> new);
}.

Lemma submit_new_submission m env proof m' r :
  machine_inv m → submit_new_with_index_proof m env proof = Ok (m', r) →
  ∃ new, submission m m' env r new.
Proof.
  intros [Hp Hpi _] Hs. apply submit_new_admission in Hs
    as (hash & rec & new & a & m1 & m2 & m4 & after & proot & Hao & ->).
  exists new. destruct (ao_material _ _ _ _ _ _ _ _ _ _ _ _ _ Hao) as [[Hsl Hpv] _].
  specialize (Hpv Hp). pose proof (finalize_step _ _ _ _ _ (ao_final _ _ _ _ _ _ _ _ _ _ _ _ _ Hao)) as [Hf _].
  pose proof (foldl_append_fields (set_authority (set_projection_root after (authority m2)) m2) new)
    as (Ho & Hpr & Hau & _).
  assert (projection m' = projection m2 ∧ event_order m' = event_order m2 ++ (event_id <$> new)
    ∧ projection_root (authority m') = after) as (Hpm & Hom & Hrm).
  { rewrite (ao_result _ _ _ _ _ _ _ _ _ _ _ _ _ Hao). cbn.
    rewrite (sl_projection _ _ Hf), (sl_order _ _ Hf), (sl_root _ _ Hf), Ho, Hpr, Hau. done. }
  destruct (ao_batch _ _ _ _ _ _ _ _ _ _ _ _ _ Hao)
    as [(Hc & -> & -> & -> & Hshape)|(Hr & Hbatch & Happ)].
  - split; rewrite ?Hpm, ?Hom, ?Hrm, ?(sl_projection _ _ Hsl), ?(sl_order _ _ Hsl), ?(sl_root _ _ Hsl);
      try done; [|congruence].
    unfold receipt_shape_ok in Hshape. rewrite Hc in Hshape. by to_prop.
  - assert (Hpi1 : projection_inv (projection m1)) by (by rewrite (sl_projection _ _ Hsl)).
    destruct (apply_batch_spec _ _ _ _ Hpv Hpi1 Happ) as (pending & Hb).
    pose proof (apply_batch_extends _ _ _ _ Hpv Hpi1 Happ) as Hext.
    pose proof (bp_replay _ _ _ Hb) as Hrep. pose proof (bp_root _ _ _ Hb) as Hroot.
    pose proof (bp_machine _ _ _ Hb) as Hmach. cbn in Hrep, Hroot, Hmach.
    assert (Ho2 : event_order m2 = event_order m1) by (by rewrite Hmach).
    rewrite (sl_projection _ _ Hsl) in Hrep, Hext. rewrite (sl_root _ _ Hsl) in Hroot.
    destruct (command_event_batch_Ok _ _ _ _ Hbatch) as (p & Hadm & Hpay & Hev).
    split; rewrite ?Hpm, ?Hom, ?Hrm, ?Ho2, ?(sl_order _ _ Hsl); try done.
    + by rewrite Hr.
    + eapply Forall_impl; [exact Hev|]. by intros ev (_ & _ & ? & _).
    + by rewrite Hr.
    + intros _. exists p. split; [done|]. rewrite Hpay. apply Forall_forall. intros q Hq.
      by eapply batch_payload_matches.
Qed.

(** The log and the projection of the machine after an operation. *)
Definition machine_extends (m m' : Machine) : Prop :=
  event_order m `prefix_of` event_order m' ∧ projection_extends (projection m) (projection m').
#[export] Instance machine_extends_preorder : PreOrder machine_extends.
Proof. split; [by split|]. intros m1 m2 m3 [] []. split; by etrans. Qed.

Lemma submission_extends m m' env r new : submission m m' env r new → machine_extends m m'.
Proof. intros []. split; [by eexists|done]. Qed.
Lemma same_log_extends m m' : same_log m m' → machine_extends m m'.
Proof. intros [Hp _ Ho _ _ _]. split; by rewrite ?Hp, ?Ho. Qed.

Lemma machine_step_extends m m' : machine_inv m → machine_step m m' → machine_extends m m'.
Proof.
  intros Hm Hs. destruct Hs as [m0 p m1 Hs|m0 k b m1 r Hs|m0 env m1 r Hs|m0 env l m1 r Hs].
  - by apply same_log_extends, (insert_plan_step _ _ _ Hs).
  - by apply same_log_extends, (put_artifact_step _ _ _ _ _ Hs).
  - apply submit_cases in Hs as (_ & hash & _ & [(c & _ & _ & -> & _)|(_ & _ & proof & _ & Hs)]);
      [done|]. destruct (submit_new_submission _ _ _ _ _ Hm Hs). by eapply submission_extends.
  - unfold submit_with_archive_lookup in Hs. apply bind_Ok in Hs as ([] & _ & Hs).
    apply bind_Ok in Hs as (hash & _ & Hs). destruct (commands m0 !! command_id env) as [c|].
    + unfold replay_retained in Hs. apply bind_Ok in Hs as ([] & _ & Hs). case_decide; [|done].
      by injection Hs as <- _.
    + apply bind_Ok in Hs as (root & _ & Hs). destruct l as [proof|proof entry]; inv_ok; [|done].
      match goal with Hn : submit_new_with_index_proof _ _ _ = Ok _ |- _ =>
        destruct (submit_new_submission _ _ _ _ _ Hm Hn) end. by eapply submission_extends.
Qed.

Lemma steps_extends m m' : rtc machine_step m m' → machine_inv m → machine_extends m m'.
Proof.
  induction 1 as [|m m1 m' Hs _ IH]; intros Hm; [done|].
  etrans; [by eapply machine_step_extends|]. apply IH. by eapply machine_step_inv.
Qed.
End Submissions.
