(* ===== verification/RollbackInv.v ===== *)
(** * Rolling back restores the projection

    The restoration of captured entries is exact when the entries outside the
    capture are unchanged; each event is shown to stay inside its capture.  From
    the Run to the machine: the undo record of an event that the reducer accepted
    takes the machine back to where it was, up to the two order sequences that
    the rollback of a proposal forgets. *)

From S2P Require Import Prelude KeyIndex Identity CommandIndex Canonical Graph Ir IrFacts Model.
From S2P Require Import Events Chain Machine Location Effects DerivedIndex IndexSpec Reducer.
From S2P Require Import Verify Authority Admission Submit Rollback RunInv RunSteps Terminate.
From S2P Require Import ReducerInv MachineInv.

(** ** Restoring entries *)

Lemma foldl_entries {A B} (f : A → string * B → A) (look : A → string → Prop) (a : A)
    (l : list (string * B)) (hit : string → B → Prop) k :
  NoDup l.*1 →
  (∀ a j b, look (f a (j, b)) j ↔ hit j b) →
  (∀ a j b, j ≠ k → look (f a (j, b)) k ↔ look a k) →
  look (foldl f a l) k ↔
    match list_to_map (M := gmap string B) l !! k with Some b => hit k b | None => look a k end.
Proof.
  intros Hnd Hhit Hmiss. revert a. induction l as [|[j b] l IH]; intros a; [done|].
  cbn [fmap list_fmap fst] in Hnd. apply NoDup_cons in Hnd as [Hj Hl]. cbn [foldl].
  rewrite (IH Hl). cbn [list_to_map foldr uncurry].
  destruct (decide (j = k)) as [->|Hjk].
  - rewrite lookup_insert_eq. rewrite not_elem_of_list_to_map_1 by done. apply Hhit.
  - rewrite lookup_insert_ne by done. destruct (list_to_map l !! k) eqn:E; [done|]. by apply Hmiss.
Qed.

Lemma lookup_restore_entries {A} (t : gmap string A) es k :
  restore_projection_entries t es !! k
  = match es !! k with Some v => v | None => t !! k end.
Proof.
  enough (∀ o, restore_projection_entries t es !! k = o ↔
    match es !! k with Some v => v = o | None => t !! k = o end) as He.
  { destruct (es !! k) as [v|] eqn:E; [by apply He|]. by apply He. }
  intros o. unfold restore_projection_entries.
  rewrite <-(btree_list_map es) at 2.
  apply (foldl_entries _ (λ (t : gmap string A) j, t !! j = o) _ _ (λ _ v, v = o)).
  - apply btree_list_NoDup_keys.
  - intros a j [v|]; cbn; [by rewrite lookup_insert_eq|by rewrite lookup_delete_eq].
  - intros a j [v|] Hj; cbn; [by rewrite lookup_insert_ne|by rewrite lookup_delete_ne].
Qed.

Lemma elem_of_restore_membership (t : gset string) es k :
  k ∈ restore_set_membership t es ↔
  match es !! k with Some b => b = true | None => k ∈ t end.
Proof.
  unfold restore_set_membership. rewrite <-(btree_list_map es) at 2.
  apply (foldl_entries _ (λ (t : gset string) j, j ∈ t) _ _ (λ _ b, b = true)).
  - apply btree_list_NoDup_keys.
  - intros a j []; unfold restore_one_membership; cbn; set_solver.
  - intros a j [] Hj; unfold restore_one_membership; cbn; set_solver.
Qed.

Lemma lookup_entry_snapshot {A} (m : gmap string A) ids k :
  entry_snapshot m ids !! k = if decide (k ∈ ids) then Some (m !! k) else None.
Proof.
  unfold entry_snapshot. case_decide as Hk.
  - apply lookup_set_to_map; [by intros ?? _ _ ?|]. eauto.
  - apply eq_None_not_Some. intros [v Hv].
    apply lookup_set_to_map in Hv; [|by intros ?? _ _ ?].
    destruct Hv as (y & Hy & Heq). by simplify_eq.
Qed.
Lemma dom_entry_snapshot {A} (m : gmap string A) ids : dom (entry_snapshot m ids) = ids.
Proof.
  apply set_eq. intros k. rewrite elem_of_dom, lookup_entry_snapshot. case_decide; naive_solver.
Qed.
Lemma lookup_membership_snapshot (s ids : gset string) k :
  membership_snapshot s ids !! k = if decide (k ∈ ids) then Some (bool_decide (k ∈ s)) else None.
Proof.
  unfold membership_snapshot. case_decide as Hk.
  - apply lookup_set_to_map; [by intros ?? _ _ ?|]. eauto.
  - apply eq_None_not_Some. intros [v Hv].
    apply lookup_set_to_map in Hv; [|by intros ?? _ _ ?].
    destruct Hv as (y & Hy & Heq). by simplify_eq.
Qed.

Lemma restore_snapshot {A} (m n : gmap string A) ids :
  (∀ k, k ∉ ids → n !! k = m !! k) → restore_projection_entries n (entry_snapshot m ids) = m.
Proof.
  intros Hn. apply map_eq. intros k. rewrite lookup_restore_entries, lookup_entry_snapshot.
  case_decide; auto.
Qed.
Lemma restore_members (s t ids : gset string) :
  (∀ k, k ∉ ids → k ∈ t ↔ k ∈ s) → restore_set_membership t (membership_snapshot s ids) = s.
Proof.
  intros Ht. apply set_eq. intros k.
  rewrite elem_of_restore_membership, lookup_membership_snapshot.
  case_decide; [by rewrite bool_decide_eq_true|auto].
Qed.

Lemma having_outside {A} (p : A → bool) (m n : gmap string A) (ids : gset string) :
  (∀ k, k ∉ ids → n !! k = m !! k) → ∀ k, k ∉ ids → k ∈ having p n ↔ k ∈ having p m.
Proof. intros Hn k Hk. by rewrite !elem_of_having, Hn. Qed.

Lemma snapshot_singleton {A} (m : gmap string A) k : {[k := m !! k]} = entry_snapshot m {[k]}.
Proof.
  apply map_eq. intros j. rewrite lookup_entry_snapshot.
  destruct (decide (j = k)) as [->|]; [rewrite lookup_singleton_eq, decide_True by set_solver|
    rewrite lookup_singleton_ne, decide_False by set_solver]; done.
Qed.
Lemma snapshot_empty {A} (m : gmap string A) : ∅ = entry_snapshot m ∅.
Proof.
  apply map_eq. intros j. rewrite lookup_entry_snapshot, lookup_empty.
  by rewrite decide_False by set_solver.
Qed.

(** ** Frames *)

(** What the rollback of a proposed effect leaves behind: the order lists of
    the open scope keep the intent, since only its four sets are restored. *)
Definition leaked_order (i : string) (mutating : bool) (x : OpenScopeEffectIndex)
    : OpenScopeEffectIndex :=
  {| all_intents := all_intents x; all_intent_order := all_intent_order x ++ [i];
     mutating_intents := mutating_intents x;
     mutating_intent_order := mutating_intent_order x ++ (if mutating then [i] else []);
     abort_transition_intents := abort_transition_intents x; abort_blockers := abort_blockers x |}.
Definition leaked_index (p : EventPayload) (x : RunDerivedIndex) : RunDerivedIndex :=
  match p with
  | EffectProposed i _ sid _ _ _ _ _ _ _ _ prof _ _ _ =>
      set_open_scope_effects
        (alter (leaked_order i (bool_decide (mutation prof = Mutating))) sid (open_scope_effects x)) x
  | _ => x
  end.
Definition leaked_run (p : EventPayload) (r : RunProjection) : RunProjection :=
  set_derived (leaked_index p (derived r)) r.

(** The open-scope indexes after a rollback. *)
Definition restored_open (run : RunProjection) (p : EventPayload)
    (now : gmap string OpenScopeEffectIndex) : gmap string OpenScopeEffectIndex :=
  foldl (λ scs kv, alter (restore_open_sets kv.1.2 kv.2) kv.1.1 scs)
    (restore_projection_entries now
       (entry_snapshot (open_scope_effects (derived run)) (scope_lifecycle_footprint run p).2))
    (map_to_list (set_to_map (λ si,
       (si, open_scope_effect_sets (open_scope_effects (derived run) !! si.1) si.2))
       (effect_scope_pairs run p) : gmap (string * string) (list OpenScopeEffectSet))).

(** The event changed the Run inside what was captured. *)
Record framed (p : EventPayload) (r r' : RunProjection) (es : RunProjectionEntriesUndo)
    (E O A : gset string) : Prop := {
  fr_static : run_id r' = run_id r ∧ initial_plan r' = initial_plan r
    ∧ initial_binding_context r' = initial_binding_context r;
  fr_plans : plan_lineage r `prefix_of` plan_lineage r';
  fr_bindings : binding_lineage r `prefix_of` binding_lineage r';
  fr_effects : undo_effects es = entry_snapshot (effects r) E
    ∧ ∀ i, i ∉ E → effects r' !! i = effects r !! i;
  fr_obligations : undo_obligations es = entry_snapshot (obligations r) O
    ∧ ∀ i, i ∉ O → obligations r' !! i = obligations r !! i;
  fr_attempts : undo_attempts es = entry_snapshot (attempts r) A
    ∧ ∀ i, i ∉ A → attempts r' !! i = attempts r !! i;
  fr_scopes : foldr scope_rollback (scopes r') (undo_scopes es) = scopes r;
  fr_intents : ∀ i, i ∉ committed_intents r p →
    group of_intent (obligations r') i = group of_intent (obligations r) i;
  fr_children : ∀ s, s ∉ (scope_lifecycle_footprint r p).1 →
    group open_parent (scopes r') s = group open_parent (scopes r) s;
  fr_open : ∀ s, s ∉ (scope_lifecycle_footprint r p).2 →
    s ∈ having scope_is_open (scopes r') ↔ s ∈ having scope_is_open (scopes r);
  fr_counts : ∀ s, s ∉ counted_scopes p →
    group in_scope (effects r') s = group in_scope (effects r) s;
  fr_open_effects : restored_open r p (open_indexes (effects r') (scopes r'))
    = open_scope_effects (leaked_index p (spec_index r));
}.

Lemma take_prefix {A} (l k : list A) : l `prefix_of` k → take (length l) k = l.
Proof. intros [z ->]. by rewrite take_app_length. Qed.

Section Sound.
Context `{Sha256} `{Canonical}.

Lemma lookup_card_group {A} (f : A → option string) (m n : gmap string A) g :
  group f n g = group f m g → (card <$> group_by f n) !! g = (card <$> group_by f m) !! g.
Proof. intros He. by rewrite !lookup_fmap, !lookup_group_by, He. Qed.

Lemma rollback_framed p r r' u es E O A eid :
  synced r → synced r' → framed p r r' es E O A → run_capture r p = Ok u →
  entries_capture r p = Ok es →
  run_rollback u (set_last_event eid r') = leaked_run p r.
Proof.
  intros Hr Hr' F Hu Hes. unfold run_capture in Hu. rewrite Hes in Hu. cbn in Hu.
  injection Hu as <-. destruct F as [(Hi & Hp & Hb) Hpl Hbl [HE HE'] [HO HO'] [HA HA'] Hs Hc Hch
    Ho Hcn Hoe].
  unfold run_rollback, leaked_run, set_derived. cbn.
  rewrite HE, HO, HA, !restore_snapshot, Hs, !take_prefix by done.
  destruct r as [? ? ? ? ? ? ? ? ? ? scs effs obs atts ? ? x]; cbn in *.
  unfold synced, spec_index in Hr, Hr', Hoe. cbn in Hr, Hr', Hoe. rewrite Hr'.
  f_equal; try done. rewrite !dom_entry_snapshot. unfold restored_open in Hoe. cbn in Hoe.
  destruct (scope_lifecycle_footprint _ p) as [desc life] eqn:Hf. cbn in *.
  unfold derived_rollback, derived_capture. cbn. rewrite Hf. cbn.
  assert (leaked_index p x = set_open_scope_effects (open_scope_effects (leaked_index p x)) x) as ->.
  { destruct p, x; done. }
  unfold set_open_scope_effects. subst x. cbn. unfold spec_of in *. cbn in *.
  rewrite Hoe. f_equal.
  - apply restore_members. by apply having_outside.
  - apply restore_members. by apply having_outside.
  - apply restore_members. by apply having_outside.
  - apply restore_members. by apply having_outside.
  - apply restore_members. by apply having_outside.
  - apply restore_snapshot. intros i Hin. by rewrite !lookup_group_by, Hc.
  - apply restore_snapshot. intros i Hin. by apply lookup_card_group, Hch.
  - by apply restore_members.
  - apply restore_snapshot. intros i Hin. by apply lookup_card_group, Hcn.
Qed.
End Sound.

(** ** Each event stays inside its capture *)

Section Frames.
Context `{Sha256} `{Canonical}.

Lemma restored_open_plain r p now L :
  effect_scope_pairs r p = ∅ → (scope_lifecycle_footprint r p).2 = L →
  synced r → (∀ s, s ∉ L → now !! s = open_scope_effects (spec_index r) !! s) →
  restored_open r p now = open_scope_effects (spec_index r).
Proof.
  intros Hp HL Hr Hn. unfold restored_open. rewrite Hp, HL, Hr.
  unfold set_to_map. rewrite elements_empty. cbn [fmap list_fmap list_to_map foldr].
  rewrite map_to_list_empty. cbn [foldl]. by apply restore_snapshot.
Qed.

(** Events that leave scopes, effects and obligations alone. *)
Lemma framed_plain p r r' es A :
  synced r →
  run_id r' = run_id r ∧ initial_plan r' = initial_plan r
    ∧ initial_binding_context r' = initial_binding_context r →
  plan_lineage r `prefix_of` plan_lineage r' → binding_lineage r `prefix_of` binding_lineage r' →
  scopes r' = scopes r → effects r' = effects r → obligations r' = obligations r →
  undo_scopes es = [] → undo_effects es = ∅ → undo_obligations es = ∅ →
  undo_attempts es = entry_snapshot (attempts r) A →
  (∀ i, i ∉ A → attempts r' !! i = attempts r !! i) →
  effect_scope_pairs r p = ∅ → leaked_index p (spec_index r) = spec_index r →
  framed p r r' es ∅ ∅ A.
Proof.
  intros Hr Hst Hpl Hbl Hs He Ho Us Ue Uo Ua HA Hp Hl.
  split; rewrite ?Us, ?Ue, ?Uo, ?Hs, ?He, ?Ho; auto using snapshot_empty.
  rewrite Hl. by eapply restored_open_plain.
Qed.

Lemma active_capture_snapshot r :
  ∃ A, capture_active_attempt r = entry_snapshot (attempts r) A
    ∧ ∀ i, i ∉ A → attempts (deactivate r) !! i = attempts r !! i.
Proof.
  unfold capture_active_attempt, deactivate. destruct (active_attempt (derived r)) as [aid|].
  - exists {[aid]}. split; [apply snapshot_singleton|]. intros i Hi. cbn.
    destruct (attempts r !! aid); [|done]. cbn. apply lookup_insert_ne. set_solver.
  - exists ∅. split; [apply snapshot_empty|done].
Qed.

Lemma attempt_started_framed r aid cid occ cepoch fence r' es :
  ready r → apply_attempt_started r aid cid occ cepoch fence = Ok r' →
  entries_capture r (AttemptStarted aid cid occ cepoch fence) = Ok es →
  framed (AttemptStarted aid cid occ cepoch fence) r r' es ∅ ∅ {[aid]}.
Proof.
  intros [] Ha [= <-]. unfold apply_attempt_started in Ha. inv_ok.
  apply framed_plain; try done; cbn; auto using snapshot_singleton.
  intros i Hi. cbn. apply lookup_insert_ne. set_solver.
Qed.

Lemma attempt_yielded_framed r aid cepoch fence r' es :
  ready r → apply_attempt_yielded r aid cepoch fence = Ok r' →
  entries_capture r (AttemptYielded aid cepoch fence) = Ok es →
  framed (AttemptYielded aid cepoch fence) r r' es ∅ ∅ {[aid]}.
Proof.
  intros [] Ha [= <-]. unfold apply_attempt_yielded in Ha. inv_ok.
  apply framed_plain; try done; cbn; auto using snapshot_singleton.
  intros i Hi. cbn. apply lookup_insert_ne. set_solver.
Qed.

Lemma deactivate_same r :
  scopes (deactivate r) = scopes r ∧ effects (deactivate r) = effects r
  ∧ obligations (deactivate r) = obligations r ∧ run_id (deactivate r) = run_id r
  ∧ initial_plan (deactivate r) = initial_plan r
  ∧ initial_binding_context (deactivate r) = initial_binding_context r
  ∧ plan_lineage (deactivate r) = plan_lineage r
  ∧ binding_lineage (deactivate r) = binding_lineage r.
Proof.
  unfold deactivate. destruct (active_attempt (derived r)) as [a|]; [|done].
  cbn. by destruct (attempts r !! a).
Qed.

Lemma epoch_advanced_framed r e r' es :
  ready r → apply_epoch_advanced r e = Ok r' → entries_capture r (EpochAdvanced e) = Ok es →
  ∃ A, framed (EpochAdvanced e) r r' es ∅ ∅ A.
Proof.
  intros [] (-> & _)%epoch_advanced_eq [= <-].
  destruct (active_capture_snapshot r) as (A & HA & Hout). exists A.
  pose proof (deactivate_same r) as (? & ? & ? & ? & ? & ? & Hp & Hb).
  apply framed_plain; cbn; rewrite ?Hp, ?Hb; auto; try done.
Qed.

Lemma binding_updated_framed r prev cur r' es :
  ready r → apply_binding_updated r prev cur = Ok r' →
  entries_capture r (BindingUpdated prev cur) = Ok es →
  framed (BindingUpdated prev cur) r r' es ∅ ∅ ∅.
Proof.
  intros [] Ha [= <-]. unfold apply_binding_updated in Ha. inv_ok.
  apply framed_plain; try done; cbn; auto using snapshot_empty, prefix_app_r.
Qed.

Lemma run_migrated_framed r fp tp fb tb sp target digest r' es :
  ready r → apply_run_migrated r fp tp fb tb target = Ok r' →
  entries_capture r (RunMigrated fp tp fb tb sp target digest) = Ok es →
  framed (RunMigrated fp tp fb tb sp target digest) r r' es ∅ ∅ ∅.
Proof.
  intros [] Ha [= <-]. unfold apply_run_migrated in Ha. inv_ok.
  apply framed_plain; try done; cbn; auto using snapshot_empty, prefix_app_r.
Qed.

Lemma run_completed_framed r result r' es :
  ready r → apply_run_completed r result = Ok r' →
  entries_capture r (RunCompleted result) = Ok es →
  framed (RunCompleted result) r r' es ∅ ∅ ∅.
Proof.
  intros [] Ha [= <-]. unfold apply_run_completed in Ha. inv_ok.
  apply framed_plain; try done; cbn; auto using snapshot_empty.
Qed.
End Frames.

(** ** Events on scopes and effects *)

#[local] Arguments open_indexes : simpl never.

Section ScopeFrames.
Context `{Sha256} `{Canonical}.

Lemma capture_parent_open r sid s parent :
  scopes r !! sid = Some s → parent_scope s = Some parent →
  (match scopes r !! sid ≫= parent_scope with Some p => {[p]} | None => ∅ end : gset string)
  = {[parent]}.
Proof. intros -> Hp. cbn. by rewrite Hp. Qed.

Lemma scope_opened_framed r sid parent iid path did rpath site r' es :
  ready r → apply_scope_opened r sid parent iid path did rpath site = Ok r' →
  entries_capture r (ScopeOpened sid parent iid path did rpath site) = Ok es →
  framed (ScopeOpened sid parent iid path did rpath site) r r' es ∅ ∅ ∅.
Proof.
  intros Hr Hok [= <-].
  destruct (scope_opened_eq _ _ _ _ _ _ _ _ _ Hr Hok) as (Hfresh & _ & -> & _).
  destruct Hr as [Hc Hsy _].
  set (s := opened_scope _ _ _ _ _ _ _).
  split; cbn; try done; auto using snapshot_empty.
  - by rewrite delete_insert_id.
  - intros t Ht. apply set_eq. intros k. rewrite !elem_of_group.
    destruct (decide (k = sid)) as [->|Hk].
    + rewrite lookup_insert_eq, Hfresh. split; [|naive_solver].
      intros (u & [= <-] & [= <-]). set_solver.
    + by rewrite lookup_insert_ne.
  - intros t Ht. rewrite having_insert, elem_of_put_flag. set_solver.
  - eapply restored_open_plain; try done. intros t Ht. cbn.
    rewrite open_indexes_insert. cbn. apply lookup_insert_ne. set_solver.
Qed.

Lemma open_index_ext effs effs' order :
  (∀ j, j ∈ order → effs' !! j = effs !! j) → open_index effs' order = open_index effs order.
Proof.
  intros He. assert (Hk : ∀ p, keys_with p effs' order = keys_with p effs order).
  { intros p. apply keys_with_ext. intros j Hj. unfold key_is. by rewrite He. }
  unfold open_index, set_with. by rewrite !Hk.
Qed.

(** The recorded sets of one intent. *)
Definition open_set (c : OpenScopeEffectSet) (x : OpenScopeEffectIndex) : gset string :=
  match c with
  | SetAll => all_intents x
  | SetMutating => mutating_intents x
  | SetAbortTransition => abort_transition_intents x
  | SetAbortBlocker => abort_blockers x
  end.
Lemma open_sets_recorded c x i :
  bool_decide (c ∈ open_scope_effect_sets (Some x) i) = bool_decide (i ∈ open_set c x).
Proof.
  unfold open_scope_effect_sets.
  destruct c; cbn [open_set];
    generalize (bool_decide (i ∈ all_intents x)) (bool_decide (i ∈ mutating_intents x))
      (bool_decide (i ∈ abort_transition_intents x)) (bool_decide (i ∈ abort_blockers x));
    by intros [] [] [] [].
Qed.

(** A set of keys in the open scopes, with one intent re-evaluated. *)
Lemma restore_open_sets_index effs effs' order order' i sets :
  sets = open_scope_effect_sets (Some (open_index effs order)) i →
  (∀ j, j ≠ i → effs' !! j = effs !! j) →
  (∀ j, j ≠ i → j ∈ order' ↔ j ∈ order) →
  restore_open_sets i sets (open_index effs' order')
  = {| all_intents := all_intents (open_index effs order); all_intent_order := order';
       mutating_intents := mutating_intents (open_index effs order);
       mutating_intent_order := keys_with is_mutating effs' order';
       abort_transition_intents := abort_transition_intents (open_index effs order);
       abort_blockers := abort_blockers (open_index effs order) |}.
Proof.
  intros -> He Ho.
  assert (Hput : ∀ (s t : gset string) b, (∀ j, j ≠ i → j ∈ s ↔ j ∈ t) → b = bool_decide (i ∈ t) →
    restore_one_membership s i b = t).
  { intros s t b Hst ->. apply set_eq. intros j. unfold restore_one_membership.
    case_bool_decide; destruct (decide (j = i)) as [->|Hj]; set_solver. }
  assert (Hw : ∀ (p : EffectProjection → bool) j, j ≠ i →
    j ∈ set_with p effs' order' ↔ j ∈ set_with p effs order).
  { intros p j Hj. rewrite !elem_of_set_with, He, Ho by done. done. }
  unfold restore_open_sets. rewrite !open_sets_recorded. cbn.
  f_equal; apply Hput; try done; try apply Hw.
  intros j Hj. rewrite !elem_of_list_to_set. auto.
Qed.

Lemma restored_open_pair r p now sid i :
  effect_scope_pairs r p = {[(sid, i)]} → (scope_lifecycle_footprint r p).2 = ∅ →
  restored_open r p now
  = alter (restore_open_sets i (open_scope_effect_sets (open_scope_effects (derived r) !! sid) i))
      sid now.
Proof.
  intros Hp HL. unfold restored_open. rewrite Hp, HL.
  rewrite <-snapshot_empty. unfold set_to_map. rewrite elements_singleton.
  cbn [fmap list_fmap list_to_map foldr uncurry fst snd].
  rewrite insert_empty, map_to_list_singleton. cbn [foldl fst snd].
  rewrite (snapshot_empty now). by rewrite restore_snapshot.
Qed.

Lemma effect_proposed_framed r rid i origin sid inv path did rpath site occ schema op prof
    arguments binding occ_binding r' es :
  let p := EffectProposed i origin sid inv path did rpath site occ schema op prof arguments
             binding occ_binding in
  ready r →
  apply_effect_proposed r rid i origin sid inv path did rpath site occ schema op prof
    arguments binding occ_binding = Ok r' →
  entries_capture r p = Ok es → framed p r r' es {[i]} ∅ ∅.
Proof.
  intros p Hr Hok [= <-].
  destruct (effect_proposed_eq _ _ _ _ _ _ _ _ _ _ _ _ _ _ _ _ _ _ Hr Hok)
    as (s & Hs & Hop & Hfresh & _ & _ & _ & _ & ->). clear Hok.
  destruct Hr as [Hc Hsy _]. pose proof (ci_linked _ _ Hc) as Hlk.
  assert (Hni : i ∉ intent_order s) by (by eapply linked_fresh).
  assert (His : i ∉ intents s).
  { rewrite (sw_intents _ (ci_scopes _ _ Hc) _ _ Hs). by rewrite elem_of_list_to_set. }
  set (e := proposed_effect _ _ _ _ _ _ _ _ _ _ _ _ _ _ _).
  split; cbn; try done; auto using snapshot_empty, snapshot_singleton.
  - split; [apply snapshot_singleton|]. intros j Hj. apply lookup_insert_ne. set_solver.
  - rewrite Hs, (alter_Some _ _ _ (add_scope_intent i s)) by apply lookup_insert_eq.
    rewrite insert_insert_eq. rewrite bool_decide_eq_false_2 by done. cbn.
    apply insert_id. rewrite Hs. f_equal. destruct s as [? ? ? ? ? ? ? ? ins order]; cbn in *.
    unfold set_scope_intents, restore_one_membership. cbn.
    rewrite take_app_length. f_equal. set_solver.
  - intros t Ht. apply set_eq. intros k. rewrite !elem_of_group.
    destruct (decide (k = sid)) as [->|Hk]; [|by rewrite lookup_insert_ne].
    rewrite lookup_insert_eq, Hs. unfold open_parent, scope_is_open. cbn. naive_solver.
  - intros t Ht. rewrite !elem_of_having. destruct (decide (t = sid)) as [->|Hk].
    + rewrite lookup_insert_eq, Hs. unfold scope_is_open. cbn. naive_solver.
    + by rewrite lookup_insert_ne.
  - intros t Ht. rewrite group_insert. unfold in_scope at 1. cbn.
    rewrite bool_decide_eq_false_2 by set_solver.
    apply put_flag_absent, having_notin; done.
  - rewrite (restored_open_pair r p _ sid i) by done. rewrite Hsy. cbn.
    unfold leaked_index, p. cbn. apply map_eq. intros t.
    destruct (decide (t = sid)) as [->|Ht].
    + rewrite !lookup_alter_eq, !lookup_open_indexes, lookup_insert_eq, Hs. cbn.
      unfold scope_is_open. cbn. rewrite Hop, (bool_decide_eq_true_2 (Open = Open)) by done.
      cbn [fmap option_fmap option_map]. f_equal. cbn [intent_order add_scope_intent].
      rewrite (restore_open_sets_index (effects r) _ (intent_order s)); try done.
      * unfold leaked_order. cbn. f_equal.
        rewrite keys_with_snoc_fresh by done. unfold is_mutating at 1. cbn.
        case_bool_decide; [done|]. by rewrite app_nil_r.
      * intros j Hj. by apply lookup_insert_ne.
      * intros j Hj. set_solver.
    + rewrite !lookup_alter_ne, !lookup_open_indexes, lookup_insert_ne by done.
      destruct (scopes r !! t) as [u|] eqn:Hu; [|done]. cbn. case_match; [|done]. f_equal.
      apply open_index_ext. intros j Hj. apply lookup_insert_ne. intros ->.
      by eapply linked_fresh.
Qed.
End ScopeFrames.

Section TransitionFrames.
Context `{Sha256} `{Canonical}.

Lemma obligations_of_intent_spec r i :
  synced r → obligations_of_intent r i = group of_intent (obligations r) i.
Proof. intros Hsy. unfold obligations_of_intent. rewrite Hsy. apply group_by_default. Qed.

(** Resolving obligations changes them alone, and no grouping. *)
Lemma resolve_outside (obs : gmap string ObligationProjection) i b o :
  o ∉ group of_intent obs i → (resolve i b <$> obs) !! o = obs !! o.
Proof.
  intros Ho. rewrite lookup_fmap. destruct (obs !! o) as [ob|] eqn:Hob; [|done]. cbn. f_equal.
  unfold resolve. case_decide as Hi; [|done]. destruct Ho. rewrite elem_of_group.
  exists ob. by rewrite <-Hi.
Qed.
Lemma resolve_group (obs : gmap string ObligationProjection) i b g :
  group of_intent (resolve i b <$> obs) g = group of_intent obs g.
Proof.
  unfold group. rewrite having_fmap. apply having_ext. intros k.
  split; intros (a & Ha & Hb); exists a; (split; [done|]); revert Hb; unfold of_intent; cbn;
    by rewrite resolve_intent.
Qed.

(** Replacing an effect by one of the same scope and profile. *)
Lemma in_scope_replaced effs effs' :
  (∀ j, effect_scope_id <$> effs' !! j = effect_scope_id <$> effs !! j) →
  ∀ s, group in_scope effs' s = group in_scope effs s.
Proof.
  intros He s. apply set_eq. intros j. rewrite !elem_of_group. specialize (He j).
  unfold in_scope. destruct (effs !! j), (effs' !! j); cbn in He; naive_solver congruence.
Qed.

Lemma effect_transitioned_framed r i t r' es :
  ready r → apply_effect_transitioned r i t = Ok r' →
  entries_capture r (EffectTransitioned i t) = Ok es →
  framed (EffectTransitioned i t) r r' es {[i]} (group of_intent (obligations r) i) ∅.
Proof.
  intros Hr Hok [= <-].
  destruct (effect_transitioned_eq _ _ _ _ Hr Hok) as (e & s & e' & He & Hs & Ht & -> & _).
  destruct Hr as [Hc Hsy _]. pose proof (ci_linked _ _ Hc) as Hlk.
  apply transition_frame in Ht as (Hid & Hsc & Hpr & _).
  assert (Hin : i ∈ intent_order s) by (by eapply linked_in_scope).
  split; cbn; try done; auto using snapshot_empty, snapshot_singleton.
  - split; [apply snapshot_singleton|]. intros j Hj. apply lookup_insert_ne. set_solver.
  - split; [by rewrite obligations_of_intent_spec|]. intros o Ho. by apply resolve_outside.
  - intros g _. apply resolve_group.
  - intros g _. apply in_scope_replaced. intros j. destruct (decide (j = i)) as [->|];
      [by rewrite lookup_insert_eq, He; cbn; rewrite Hsc|by rewrite lookup_insert_ne].
  - destruct (decide (scope_status s = Open)) as [Hop|Hcl].
    + rewrite (restored_open_pair r _ _ (effect_scope_id e) i); [|cbn|done].
      2: { rewrite He, decide_True; [done|]. rewrite Hsy. cbn. rewrite elem_of_having.
        exists s. unfold scope_is_open. by rewrite Hop. }
      rewrite Hsy. cbn. apply map_eq. intros u.
      destruct (decide (u = effect_scope_id e)) as [->|Hu].
      * rewrite lookup_alter_eq, !lookup_open_indexes, Hs. cbn. unfold scope_is_open.
        rewrite Hop, (bool_decide_eq_true_2 (Open = Open)) by done.
        cbn [fmap option_fmap option_map]. f_equal.
        rewrite (restore_open_sets_index (effects r) _ (intent_order s)); try done.
        -- unfold open_index. cbn. f_equal. eapply keys_with_same; [done|].
           unfold is_mutating. by rewrite Hpr.
        -- intros j Hj. by apply lookup_insert_ne.
      * rewrite lookup_alter_ne, !lookup_open_indexes by done.
        destruct (scopes r !! u) as [v|] eqn:Hv; [|done]. cbn. case_match; [|done]. f_equal.
        apply open_index_ext. intros j Hj. apply lookup_insert_ne. intros ->.
        by eapply linked_not_in_scope.
    + eapply (restored_open_plain _ _ _ ∅); [|done|done|].
      * cbn. rewrite He, decide_False; [done|]. rewrite Hsy. cbn. rewrite elem_of_having.
        unfold scope_is_open. intros (u & Hu & Ho%bool_decide_eq_true). naive_solver.
      * intros u _. cbn. rewrite !lookup_open_indexes.
        destruct (scopes r !! u) as [v|] eqn:Hv; [|done]. cbn. destruct (scope_is_open v) eqn:Ho; [|done].
        f_equal. apply bool_decide_eq_true in Ho.
        apply open_index_ext. intros j Hj. apply lookup_insert_ne. intros ->.
        eapply linked_not_in_scope; [done|exact He|exact Hv| |done]. naive_solver.
Qed.

(** The status of a scope that closes is restored. *)
Lemma status_restored (scs : gmap string ScopeProjection) sid s status :
  scs !! sid = Some s →
  alter (set_scope_status (scope_status s)) sid (<[sid := set_scope_status status s]> scs) = scs.
Proof.
  intros Hs. rewrite (alter_Some _ _ _ (set_scope_status status s)) by apply lookup_insert_eq.
  rewrite insert_insert_eq. apply insert_id. rewrite Hs. by destruct s.
Qed.

(** Closing a scope: the children of its parent and its own entry change. *)
Lemma closing_children (scs : gmap string ScopeProjection) sid s status t :
  scs !! sid = Some s → status ≠ Open →
  t ∉ (match scs !! sid ≫= parent_scope with Some p => {[p]} | None => ∅ end : gset string) →
  group open_parent (<[sid := set_scope_status status s]> scs) t = group open_parent scs t.
Proof.
  intros Hs Hst Ht. rewrite Hs in Ht. cbn in Ht. apply set_eq. intros k.
  rewrite !elem_of_group. destruct (decide (k = sid)) as [->|Hk]; [|by rewrite lookup_insert_ne].
  rewrite lookup_insert_eq, Hs.
  assert (open_parent (set_scope_status status s) = None) as Hn.
  { unfold open_parent, scope_is_open. cbn. by rewrite bool_decide_eq_false_2. }
  split; [intros (u & [= <-] & Hu); congruence|].
  intros (u & [= <-] & Hu). destruct Ht. unfold open_parent in Hu. case_match; [|done].
  rewrite Hu. set_solver.
Qed.
Lemma closing_open (scs : gmap string ScopeProjection) sid s t :
  t ∉ ({[sid]} : gset string) →
  t ∈ having scope_is_open (<[sid := s]> scs) ↔ t ∈ having scope_is_open scs.
Proof. intros Ht. rewrite having_insert, elem_of_put_flag. set_solver. Qed.

Lemma scope_aborted_framed r sid r' es :
  ready r → apply_scope_aborted r sid = Ok r' → entries_capture r (ScopeAborted sid) = Ok es →
  ∃ E, framed (ScopeAborted sid) r r' es E ∅ ∅.
Proof.
  intros Hr Hok [= <-].
  destruct (scope_aborted_eq _ _ _ Hr Hok) as (s & Hs & Hop & _ & _ & _ & _ & ->). clear Hok.
  destruct Hr as [Hc Hsy _]. pose proof (ci_linked _ _ Hc) as Hlk.
  set (l := aborting r s). exists (set_with needs_scope_abort_transition (effects r) (intent_order s)).
  assert (Hl : ∀ i, i ∈ l → i ∈ intent_order s ∧ is_Some (effects r !! i)).
  { intros i Hi. unfold l, aborting in Hi.
    rewrite elem_of_btree_elements, elem_of_set_with in Hi. naive_solver. }
  assert (Hout : ∀ i, i ∉ l → adjust aborted_effect l (effects r) !! i = effects r !! i).
  { intros i Hi. rewrite lookup_adjust. destruct (effects r !! i); cbn; [|done].
    by rewrite decide_False. }
  split; cbn; try done; auto using snapshot_empty.
  - split.
    + unfold open_scope_intents. rewrite Hsy. cbn.
      rewrite lookup_open_indexes, Hs. cbn. unfold scope_is_open. by rewrite Hop.
    + intros i Hi. apply Hout. unfold l, aborting. by rewrite elem_of_btree_elements.
  - unfold capture_scope_status. rewrite Hs. cbn. by apply status_restored.
  - intros t Ht. by apply closing_children.
  - intros t Ht. by apply closing_open.
  - intros g _. apply in_scope_replaced. intros j. rewrite lookup_adjust.
    destruct (effects r !! j); cbn; [|done]. by case_decide.
  - eapply (restored_open_plain _ _ _ {[sid]}); try done. intros t Ht. cbn.
    rewrite !lookup_open_indexes, lookup_insert_ne by set_solver.
    destruct (scopes r !! t) as [u|] eqn:Hu; [|done]. cbn. case_match; [|done]. f_equal.
    assert (He : ∀ j, j ∈ intent_order u → adjust aborted_effect l (effects r) !! j = effects r !! j).
    { intros j Hj. apply Hout. intros [Hjs [e He]]%Hl.
      destruct (linked_member _ _ Hlk _ _ _ Hs Hjs) as (e1 & He1 & Hsid).
      destruct (linked_member _ _ Hlk _ _ _ Hu Hj) as (e2 & He2 & Hsid2).
      simplify_eq. set_solver. }
    by apply open_index_ext.
Qed.
End TransitionFrames.

Section CloseFrames.
Context `{Sha256} `{Canonical}.

Lemma expect_Ok {A} (c : core A) a : expect c = Ok a ↔ c = Ok a.
Proof. destruct c; cbn; naive_solver. Qed.

Lemma open_scope_intents_spec r sid s f :
  synced r → scopes r !! sid = Some s → scope_status s = Open →
  open_scope_intents r sid f = f (open_index (effects r) (intent_order s)).
Proof.
  intros Hsy Hs Hop. unfold open_scope_intents. rewrite Hsy. cbn.
  rewrite lookup_open_indexes, Hs. cbn. unfold scope_is_open. by rewrite Hop.
Qed.

(** The identity of the obligation of every effect that a commit closes over. *)
Lemma committed_capture r sid count commitment s (m : gmap string ObligationProjection) :
  synced r → scopes r !! sid = Some s → scope_status s = Open →
  (∀ i, i ∈ keys_with is_mutating (effects r) (intent_order s) → ∃ e o, effects r !! i = Some e
     ∧ obligation_for_effect e = Ok o ∧ m !! obligation_id o = Some o) →
  linked (scopes r) (effects r) →
  ∃ oids es, entries_capture r (ScopeCommitted sid count commitment) = Ok es
    ∧ undo_obligations es = entry_snapshot (obligations r) (list_to_set oids)
    ∧ undo_scopes es = capture_scope_status r sid ∧ undo_effects es = ∅ ∧ undo_attempts es = ∅
    ∧ ∀ i oid, i ∈ set_with is_mutating (effects r) (intent_order s) →
        effect_obligation_id i = Ok oid → oid ∈ oids.
Proof.
  intros Hsy Hs Hop Hl Hlk. cbn [entries_capture].
  rewrite (open_scope_intents_spec r sid s) by done. cbn [mutating_intents open_index].
  assert (Hall : ∀ i, i ∈ set_with is_mutating (effects r) (intent_order s) →
    ∃ oid, effect_obligation_id i = Ok oid).
  { intros i Hi. destruct (Hl i) as (e & o & He & Ho & _).
    { by rewrite elem_of_keys_with, <-elem_of_set_with. }
    apply obligation_for_effect_Ok in Ho as (_ & Hid & _). exists (obligation_id o).
    by rewrite <-(linked_id _ _ Hlk i e). }
  assert (∃ oids, try_map (λ iid, expect (effect_obligation_id iid))
    (btree_elements (set_with is_mutating (effects r) (intent_order s))) = Ok oids) as [oids Ho].
  { assert (Hb : ∀ i, i ∈ btree_elements (set_with is_mutating (effects r) (intent_order s)) →
      ∃ oid, effect_obligation_id i = Ok oid).
    { intros i. rewrite elem_of_btree_elements. apply Hall. }
    revert Hb. clear. induction (btree_elements _) as [|i l IH]; intros Hb; [by eexists|].
    destruct (Hb i) as [oid Hi]; [by left|]. destruct IH as [oids Ho].
    { intros j Hj. apply Hb. by right. }
    exists (oid :: oids). cbn. rewrite Hi. cbn. by rewrite Ho. }
  rewrite Ho. cbn [mbind result_bind]. eexists oids, _. do 5 (split; [done|]).
  intros i oid Hi Hid. apply try_map_Ok in Ho.
  rewrite <-elem_of_btree_elements in Hi. apply list_elem_of_lookup in Hi as [k Hk].
  destruct (Forall2_lookup_l _ _ _ _ _ Ho Hk) as (oid' & Hk' & He%expect_Ok).
  rewrite Hid in He. injection He as ->. by eapply list_elem_of_lookup_2.
Qed.

Lemma scope_committed_framed r sid count commitment r' :
  ready r → apply_scope_committed r sid count commitment = Ok r' →
  ∃ es O, entries_capture r (ScopeCommitted sid count commitment) = Ok es
    ∧ framed (ScopeCommitted sid count commitment) r r' es ∅ O ∅.
Proof.
  intros Hr Hok.
  destruct (scope_committed_eq _ _ _ _ _ Hr Hok) as (s & m & Hs & Hop & _ & Hm & Hl & Hdis & _ & ->).
  destruct Hr as [Hc Hsy _]. pose proof (ci_linked _ _ Hc) as Hlk.
  destruct (committed_capture r sid count commitment s m Hsy Hs Hop Hl Hlk)
    as (oids & es & Hcap & Uo & Us & Ue & Ua & Hoids).
  exists es, (list_to_set oids). split; [done|]. clear Hcap Hok.
  assert (Hmi : ∀ oid o, m !! oid = Some o → oid ∈ oids
    ∧ obligation_intent_id o ∈ set_with is_mutating (effects r) (intent_order s)).
  { intros oid o Ho. destruct (Hm _ _ Ho) as (i & e & Hi & He & Hoe & Hid).
    apply obligation_for_effect_Ok in Hoe as (_ & Hoid & Hint & _).
    rewrite (linked_id _ _ Hlk i e) in * by done. rewrite Hint, <-Hid.
    rewrite elem_of_keys_with, <-elem_of_set_with in Hi. by split; [apply (Hoids i)|]. }
  split; rewrite ?Us, ?Ue, ?Uo, ?Ua; try done; cbn; auto using snapshot_empty.
  - split; [done|]. intros o Ho. rewrite lookup_union_r; [done|].
    destruct (m !! o) as [ob|] eqn:Hob; [|done]. destruct (Hmi _ _ Hob) as [Hin _].
    rewrite elem_of_list_to_set in Ho. done.
  - unfold capture_scope_status. rewrite Hs. cbn. by apply status_restored.
  - intros i Hi. rewrite (open_scope_intents_spec r sid s) in Hi by done. cbn in Hi.
    apply set_eq. intros o. rewrite !elem_of_group.
    destruct (m !! o) as [ob|] eqn:Hob.
    + destruct (Hmi _ _ Hob) as [_ Hin].
      rewrite (lookup_union_Some_l _ _ _ _ Hob), Hdis by eauto. split; [|naive_solver].
      intros (ob' & [= <-] & [= Hq]). by rewrite Hq in Hin.
    + by rewrite lookup_union_r.
  - intros t Ht. by apply closing_children.
  - intros t Ht. by apply closing_open.
  - eapply (restored_open_plain _ _ _ {[sid]}); try done. intros t Ht. cbn.
    by rewrite !lookup_open_indexes, lookup_insert_ne by set_solver.
Qed.
End CloseFrames.

Section TerminateFrames.
Context `{Sha256} `{Canonical}.

Lemma statuses_restored r (t : gmap string ScopeProjection) l k :
  foldr scope_rollback t (l ≫= capture_scope_status r) !! k
  = match scopes r !! k with
    | Some s => if decide (k ∈ l) then set_scope_status (scope_status s) <$> t !! k else t !! k
    | None => t !! k
    end.
Proof.
  induction l as [|j l IH]; cbn [mbind list_bind].
  { cbn. by destruct (scopes r !! k). }
  rewrite foldr_app. change (l ≫= λ sid, capture_scope_status r sid) with (l ≫= capture_scope_status r).
  assert (Hj : capture_scope_status r j = match scopes r !! j with
    | Some u => [ScopeStatusChanged j (scope_status u)] | None => [] end) by done.
  rewrite Hj. clear Hj. destruct (scopes r !! j) as [u|] eqn:Hu.
  - cbn [foldr scope_rollback]. destruct (decide (k = j)) as [->|Hk].
    + rewrite lookup_alter_eq, IH, Hu. rewrite (decide_True (P := j ∈ j :: l)) by (by left).
      case_decide; [|done]. by destruct (t !! j).
    + rewrite lookup_alter_ne, IH by done. destruct (scopes r !! k); [|done].
      repeat case_decide; set_solver.
  - cbn [foldr]. rewrite IH. destruct (scopes r !! k) eqn:Hk; [|done].
    repeat case_decide; set_solver.
Qed.

Lemma terminate_framed p e status r r' es :
  (∃ failure, p = RunFailed failure e) ∨ (∃ reason, p = RunCancelled reason e) →
  ready r → terminate_run_execution r e = Ok r' → entries_capture r p = Ok es →
  ∃ E O A, framed p r (set_execution_status status r') es E O A.
Proof.
  intros Hp Hr Hok Hcap.
  destruct (terminate_eq _ _ _ Hr Hok) as (-> & _ & obs & _ & _ & [Hint Hobs] & ->). clear Hok.
  destruct Hr as [Hc Hsy _]. pose proof (deactivate_same r) as (Ds & De & Do & Di & Dp & Db & Dl & Dm).
  destruct (active_capture_snapshot r) as (A & HA & HA').
  set (E := having needs_terminal_transition (effects r)).
  set (O := set_bind (obligations_of_intent r) E : gset string).
  assert (Hes : es = {| undo_scopes := btree_elements (having scope_is_open (scopes r))
                          ≫= capture_scope_status r;
    undo_effects := entry_snapshot (effects r) E;
    undo_obligations := entry_snapshot (obligations r) O;
    undo_attempts := capture_active_attempt r |}).
  { unfold O, E. destruct Hp as [[? ->]|[? ->]]; cbn in Hcap; injection Hcap as <-; by rewrite Hsy. }
  assert (Hfoot : scope_lifecycle_footprint r p
    = (dom (card <$> group_by open_parent (scopes r)), having scope_is_open (scopes r))
    ∧ committed_intents r p = ∅ ∧ effect_scope_pairs r p = ∅ ∧ counted_scopes p = ∅
    ∧ leaked_index p (spec_index r) = spec_index r).
  { destruct Hp as [[? ->]|[? ->]]; cbn; by rewrite Hsy. }
  destruct Hfoot as (Hfoot & Hci & Hpairs & Hcs & Hleak).
  exists E, O, A. rewrite Hes.
  split; rewrite ?Hfoot, ?Hci, ?Hcs, ?Hleak; cbn [undo_scopes undo_effects undo_obligations
    undo_attempts fst snd].
  - cbn. by rewrite Di, Dp, Db.
  - cbn. by rewrite Dl.
  - cbn. by rewrite Dm.
  - split; [done|]. intros i Hi. cbn. rewrite De, lookup_adjust.
    destruct (effects r !! i) eqn:Hei; cbn; [|done]. rewrite decide_False; [done|].
    by rewrite elem_of_btree_elements.
  - split; [done|]. intros o Ho. cbn. specialize (Hint o).
    destruct (obligations r !! o) as [ob|] eqn:Hob; [|by destruct (obs !! o)].
    apply Hobs; [done|]. rewrite elem_of_btree_elements. intros Hi. apply Ho.
    unfold O. apply elem_of_set_bind. eexists. split; [exact Hi|].
    rewrite obligations_of_intent_spec, elem_of_group by done. by exists ob.
  - split; [done|]. intros i Hi. cbn. by apply HA'.
  - apply map_eq. intros k. rewrite statuses_restored. cbn. rewrite lookup_fmap.
    destruct (scopes r !! k) as [s|] eqn:Hs; [|done]. cbn. unfold close_all.
    case_decide as Hk; rewrite elem_of_btree_elements, elem_of_having in Hk.
    + destruct (scope_is_open s); by destruct s.
    + destruct (scope_is_open s) eqn:Ho; [|done]. destruct Hk. eauto.
  - intros g _. cbn. apply set_eq. intros o. rewrite !elem_of_group. specialize (Hint o).
    unfold of_intent. destruct (obs !! o), (obligations r !! o); cbn in Hint; naive_solver congruence.
  - intros t Ht. cbn. rewrite no_children_close_all. symmetry.
    rewrite not_elem_of_dom, lookup_fmap, lookup_group_by in Ht. by case_decide.
  - intros t Ht. cbn. rewrite no_open_close_all. set_solver.
  - intros g _. cbn. apply in_scope_replaced. intros j. rewrite De, lookup_adjust.
    destruct (effects r !! j) as [ef|]; cbn; [|done]. case_decide; [|done]. f_equal.
    by destruct (terminalized_same ef) as (_ & -> & _).
  - eapply restored_open_plain; [done|by rewrite Hfoot|done|]. cbn [snd]. intros t Ht.
    cbn. rewrite !lookup_open_indexes, lookup_fmap. rewrite elem_of_having in Ht.
    destruct (scopes r !! t) as [s|] eqn:Hs; [|done]. cbn. rewrite close_all_open.
    destruct (scope_is_open s) eqn:Ho; [|done]. destruct Ht. eauto.
Qed.
End TerminateFrames.

Section Initialized.
Context `{Sha256} `{Canonical} `{!MachineSerialize} `{SchemaCompiler} `{PlanCodec}
  `{!ValueSerialize}.

(** ** Every derived index is initialised *)

Definition indexes_ready (p : Projection) : Prop :=
  ∀ rid r, runs p !! rid = Some r → initialized (derived r) = true.

Lemma indexes_ready_insert p rid r fs :
  indexes_ready p → initialized (derived r) = true →
  indexes_ready {| runs := <[rid := r]> (runs p); facts := fs |}.
Proof.
  intros Hp Hr k t. cbn. destruct (decide (k = rid)) as [->|].
  - rewrite lookup_insert_eq. by intros [= <-].
  - rewrite lookup_insert_ne by done. apply Hp.
Qed.

Lemma ready_initialized r : ready r → initialized (derived r) = true.
Proof. intros Hr. by rewrite (rd_synced _ Hr). Qed.

(** An initialised index makes the reconstruction the identity. *)
Lemma ensure_noop p ev :
  projection_inv p → indexes_ready p → ensure_projection_derived_index p ev = Ok p.
Proof.
  intros Hp Hi. unfold ensure_projection_derived_index.
  destruct (runs p !! ev_run_id ev) as [r|] eqn:Hr; [|done].
  unfold ensure_derived. rewrite (Hi _ _ Hr). cbn. rewrite insert_id by done. by destruct p.
Qed.

(** What one accepted event did to the projection. *)
Inductive event_effect (p : Projection) (ev : Event) : Projection → Prop :=
| effect_started run fs :
    runs p !! ev_run_id ev = None → (∃ a b c d, payload ev = RunStarted a b c d) → fs = facts p →
    initialized (derived run) = true →
    event_effect p ev {| runs := <[ev_run_id ev := run]> (runs p); facts := fs |}
| effect_applied r r' fs :
    runs p !! ev_run_id ev = Some r → ready r → run_step_ok (ev_run_id ev) r' →
    apply_run_event r ev = Ok r' →
    match payload ev with
    | FactRecorded key value => fs = <[key := value]> (facts p)
    | RunStarted _ _ _ _ => False
    | _ => fs = facts p
    end →
    event_effect p ev
      {| runs := <[ev_run_id ev := set_last_event (event_id ev) r']> (runs p); facts := fs |}.

Lemma event_effect_intro p ev p' :
  projection_inv p → indexes_ready p → event_material ev → apply_event p ev = Ok p' →
  event_effect p ev p'.
Proof.
  intros Hp Hi [Hne Hm] Hok. unfold apply_event in Hok. rewrite ensure_noop in Hok by done.
  cbn [mbind result_bind] in Hok. apply bind_Ok in Hok as ([p2 finished] & Hglob & Hok).
  cbn in Hok.
  assert (Hstep : finished = false → runs p2 = runs p → ∀ fs, facts p2 = fs →
    match payload ev with
    | FactRecorded key value => fs = <[key := value]> (facts p)
    | RunStarted _ _ _ _ => False
    | _ => fs = facts p
    end → event_effect p ev p').
  { intros -> Hruns fs <- Hfs. apply bind_Ok in Hok as (r & Hr & Hok). apply ok_or_Ok in Hr.
    apply bind_Ok in Hok as ([] & Hgate & Hok). apply bind_Ok in Hok as (r' & Hr' & Hok).
    injection Hok as <-. rewrite Hruns in *. pose proof (Hp _ _ Hr) as Hinv.
    assert (Hrd : ready r)
      by (eapply run_inv_ready; [done|by apply (ri_synced _ _ Hinv), (Hi _ _ Hr)]).
    eapply effect_applied; try done. rewrite <-(ri_id _ _ Hinv).
    eapply apply_run_event_ok; [done|apply Hinv|done..]. }
  unfold apply_projection_global_event in Hglob.
  destruct (payload ev) eqn:Hpay; try (injection Hglob as <- <-; by eapply Hstep).
  - clear Hstep. unfold apply_run_started in Hglob. inv_ok. to_prop.
    eapply effect_started; [done|by eauto|done|done].
  - destruct (facts p !! key) as [v|] eqn:Hf.
    + inv_ok. to_prop. subst. eapply Hstep; try done. cbn. by rewrite insert_id.
    + injection Hglob as <- <-. by eapply Hstep.
Qed.

Lemma event_effect_ready p ev p' : indexes_ready p → event_effect p ev p' → indexes_ready p'.
Proof.
  intros Hi [run fs _ _ _ Hin|r r' fs Hr Hrd Hstep Hap Hfs]; apply indexes_ready_insert; try done.
  destruct Hstep as [Hr' _]. exact (ready_initialized _ Hr').
Qed.

Lemma try_fold_ready evs p p' :
  projection_inv p → indexes_ready p → Forall event_ok evs →
  try_fold apply_event p evs = Ok p' → projection_inv p' ∧ indexes_ready p'.
Proof.
  revert p. induction evs as [|ev evs IH]; intros p Hp Hi Hev Hok; [by injection Hok as <-|].
  apply Forall_cons in Hev as [(_ & _ & Hm) Hev]. cbn in Hok. apply bind_Ok in Hok as (q & Hq & Hok).
  apply (IH q); [by eapply apply_event_inv|eapply event_effect_ready, event_effect_intro; done|done..].
Qed.

Lemma machine_indexes_ready m : machine_inv m → indexes_ready (projection m).
Proof.
  intros [_ _ (old & evs & Hl)].
  eapply try_fold_ready; [apply projection_inv_empty| |apply (lo_events _ _ _ Hl)|].
  - intros rid r. cbn. by rewrite lookup_empty.
  - exact (lo_replay _ _ _ Hl).
Qed.
End Initialized.

(** ** One Run *)

Section RunRollback.
Context `{Sha256} `{Canonical}.

Lemma run_capture_entries r p es :
  entries_capture r p = Ok es → ∃ u, run_capture r p = Ok u.
Proof. intros Hes. unfold run_capture. rewrite Hes. cbn. by eexists. Qed.

(** Every event that the reducer accepts on a Run has a frame. *)
Lemma run_event_framed r ev r' :
  ready r → (∀ a b c d, payload ev ≠ RunStarted a b c d) → apply_run_event r ev = Ok r' →
  ∃ es E O A, entries_capture r (payload ev) = Ok es ∧ framed (payload ev) r r' es E O A.
Proof.
  intros Hr Hns Hok. unfold apply_run_event in Hok.
  destruct (payload ev) as [| | | | | |i t| | | | | | | |] eqn:Hp; try (by destruct (Hns _ _ _ _ eq_refl)).
  - eexists _, _, _, _. split; [done|]. by eapply attempt_started_framed.
  - eexists _, _, _, _. split; [done|]. by eapply attempt_yielded_framed.
  - edestruct epoch_advanced_framed as [A HA]; [done..|]. by eexists _, _, _, A.
  - eexists _, _, _, _. split; [done|]. by eapply scope_opened_framed.
  - eexists _, _, _, _. split; [done|]. by eapply effect_proposed_framed.
  - eexists _, _, _, _. split; [done|]. by eapply effect_transitioned_framed.
  - edestruct scope_committed_framed as (es & O & He & Hf); [done..|]. by eexists es, _, O, _.
  - edestruct scope_aborted_framed as [E HE]; [done..|]. by eexists _, E, _, _.
  - eexists _, _, _, _. split; [done|]. by eapply binding_updated_framed.
  - eexists _, _, _, _. split; [done|]. by eapply run_migrated_framed.
  - injection Hok as <-. eexists no_entries, _, _, _. split; [done|].
    eapply (framed_plain _ _ _ _ ∅); try done; by apply Hr.
  - eexists _, _, _, _. split; [done|]. by eapply run_completed_framed.
  - apply bind_Ok in Hok as (t & Ht & Hok). injection Hok as <-.
    edestruct (terminate_framed (RunFailed failure epoch)) as (E & O & A & Hf);
      [by left; eauto|done..|]. by eexists _, E, O, A.
  - apply bind_Ok in Hok as (t & Ht & Hok). injection Hok as <-.
    edestruct (terminate_framed (RunCancelled reason epoch)) as (E & O & A & Hf);
      [by right; eauto|done..|]. by eexists _, E, O, A.
Qed.

(** The undo record of an accepted event takes the Run back. *)
Lemma run_event_rollback r ev r' rid :
  ready r → run_step_ok rid r' → (∀ a b c d, payload ev ≠ RunStarted a b c d) →
  apply_run_event r ev = Ok r' →
  ∃ u, run_capture r (payload ev) = Ok u
    ∧ run_rollback u (set_last_event (event_id ev) r') = leaked_run (payload ev) r.
Proof.
  intros Hr [Hr' _] Hns Hok.
  destruct (run_event_framed _ _ _ Hr Hns Hok) as (es & E & O & A & Hes & Hf).
  destruct (run_capture_entries _ _ _ Hes) as [u Hu]. exists u. split; [done|].
  eapply rollback_framed; try done; [apply Hr|apply Hr'].
Qed.
End RunRollback.

(** ** The machine *)

(** The projection that the rollback of an event leaves. *)
Definition leaked_projection (ev : Event) (p : Projection) : Projection :=
  {| runs := alter (leaked_run (payload ev)) (ev_run_id ev) (runs p); facts := facts p |}.

Definition is_proposal (p : EventPayload) : bool :=
  match p with EffectProposed _ _ _ _ _ _ _ _ _ _ _ _ _ _ _ => true | _ => false end.

Lemma leaked_run_plain p r : is_proposal p = false → leaked_run p r = r.
Proof. destruct p, r; try done. Qed.

Lemma leaked_projection_plain ev p : is_proposal (payload ev) = false → leaked_projection ev p = p.
Proof.
  intros Hp. unfold leaked_projection. destruct p as [rs fs]. cbn. f_equal.
  apply map_eq. intros k. destruct (decide (k = ev_run_id ev)) as [->|].
  - rewrite lookup_alter_eq. destruct (rs !! ev_run_id ev) as [r|]; [|done]. cbn.
    by rewrite leaked_run_plain.
  - by rewrite lookup_alter_ne.
Qed.

Section MachineRollback.
Context `{Sha256} `{Canonical}.

Lemma undo_fact_restores (p : Projection) ev fs :
  match payload ev with
  | FactRecorded key value => fs = <[key := value]> (facts p)
  | RunStarted _ _ _ _ => False
  | _ => fs = facts p
  end →
  match match payload ev with
        | FactRecorded key _ => Some (key, facts p !! key)
        | _ => None
        end with
  | Some (key, Some value) => <[key := value]> fs
  | Some (key, None) => delete key fs
  | None => fs
  end = facts p.
Proof.
  intros Hfs. destruct (payload ev); try done. subst fs.
  destruct (facts p !! key) as [v|] eqn:Hk.
  - by rewrite insert_insert_eq, insert_id.
  - by rewrite delete_insert_id.
Qed.

(** The undo record of an accepted event takes the machine back. *)
Lemma event_rollback m ev p' :
  event_effect (projection m) ev p' →
  ∃ u, undo_capture m ev = Ok u
    ∧ undo_rollback u (Machine.set_projection p' m)
      = Machine.set_projection (leaked_projection ev (projection m)) m.
Proof.
  intros He. destruct He as [run fs Hr Hst -> _|r r' fs Hr Hrd Hstep Hap Hfs].
  - destruct Hst as (a & b & c & d & Hst). unfold undo_capture. rewrite Hr. eexists. split; [done|].
    rewrite leaked_projection_plain by by rewrite Hst.
    unfold undo_rollback. cbn. rewrite Hst, delete_insert_id by done.
    destruct m as [? ? ? ? ? ? ? ? ? ? ? ? ? [] ? ? ? []]. done.
  - assert (Hns : ∀ a b c d, payload ev ≠ RunStarted a b c d)
      by (intros a b c d Heq; by rewrite Heq in Hfs).
    destruct (run_event_rollback _ _ _ _ Hrd Hstep Hns Hap) as (u & Hu & Hback).
    unfold undo_capture. rewrite Hr. rewrite Hu. eexists. split; [done|].
    unfold undo_rollback, leaked_projection. cbn. rewrite undo_fact_restores by done.
    rewrite alter_insert_eq, Hback.
    replace (alter (leaked_run (payload ev)) (ev_run_id ev) (runs (projection m)))
      with (<[ev_run_id ev := leaked_run (payload ev) r]> (runs (projection m))).
    + by destruct m as [? ? ? ? ? ? ? ? ? ? ? ? ? [] ? ? ? []].
    + apply map_eq. intros k. destruct (decide (k = ev_run_id ev)) as [->|].
      * by rewrite lookup_insert_eq, lookup_alter_eq, Hr.
      * by rewrite lookup_insert_ne, lookup_alter_ne.
Qed.
End MachineRollback.

(** ** Batches *)

Section BatchRollback.
Context `{Sha256} `{Canonical} `{!MachineSerialize} `{SchemaCompiler} `{PlanCodec}
  `{!ValueSerialize}.

(** What the loop of [undo_command_event_batch] maintains: the state of the
    loop that collects no records, and records that lead back to [target]. *)
Record undo_prefix (target m : Machine) (st : Machine * string * gset string)
    (undos : list ProjectionEntryUndo) : Prop := {
  up_machine : st.1.1 = Machine.set_projection (projection st.1.1) m;
  up_projection : projection_inv (projection st.1.1);
  up_ready : indexes_ready (projection st.1.1);
  up_back : rollback_projection_batch st.1.1 undos = target;
}.

Lemma undo_event_step m st undos ev st' :
  plans_verified m → undo_prefix m m st undos → apply_batch_event st ev = Ok st' →
  ∃ u, undo_batch_event (st, undos) ev = Ok (st', undos ++ [u])
    ∧ projection_inv (projection st'.1.1) ∧ indexes_ready (projection st'.1.1)
    ∧ st'.1.1 = Machine.set_projection (projection st'.1.1) m
    ∧ undo_rollback u st'.1.1
      = Machine.set_projection (leaked_projection ev (projection st.1.1)) m.
Proof.
  intros Hp [Hm Hpi Hrd Hback] Hstep. unfold undo_batch_event. cbn [fst snd].
  destruct st as [[mc root] pending]. cbn [fst snd] in *. rewrite Hstep. unfold apply_batch_event in Hstep.
  apply bind_Ok in Hstep as ([] & Hv & Hstep). apply bind_Ok in Hstep as (p' & Hap & Hstep).
  apply bind_Ok in Hstep as ([] & _ & Hstep). apply bind_Ok in Hstep as (root' & _ & Hstep).
  injection Hstep as <-. set (pm := projection mc) in *. clearbody pm. subst mc.
  assert (Hmat : event_material ev)
    by exact (authorised_material (Machine.set_projection pm m) ev pending Hp Hv).
  pose proof (event_effect_intro _ _ _ Hpi Hrd Hmat Hap) as He.
  destruct (event_rollback (Machine.set_projection pm m) ev p' He) as (u & Hu & Hundo).
  rewrite Hu. exists u. split; [done|]. cbn. split_and!; try done.
  - by eapply apply_event_inv.
  - by eapply event_effect_ready.
Qed.

Lemma rollback_snoc m undos u :
  rollback_projection_batch m (undos ++ [u])
  = rollback_projection_batch (undo_rollback u m) undos.
Proof. apply foldr_snoc. Qed.

(** Without a proposal in the batch, the records lead back to where the batch
    began. *)
Lemma undo_fold_plain m evs st undos st' :
  plans_verified m → undo_prefix m m st undos →
  Forall (λ ev, is_proposal (payload ev) = false) evs →
  try_fold apply_batch_event st evs = Ok st' →
  ∃ undos', try_fold undo_batch_event (st, undos) evs = Ok (st', undos')
    ∧ undo_prefix m m st' undos'.
Proof.
  intros Hp. revert st undos. induction evs as [|ev evs IH]; intros st undos Hu Hall Hok.
  - injection Hok as <-. by exists undos.
  - apply Forall_cons in Hall as [Hpl Hall]. cbn in Hok. apply bind_Ok in Hok as (s1 & Hs1 & Hok).
    destruct (undo_event_step _ _ _ _ _ Hp Hu Hs1) as (u & Hun & Hpi & Hrd & Hm & Hback).
    cbn. rewrite Hun. apply IH; [|done..]. split; try done.
    rewrite rollback_snoc, Hback, leaked_projection_plain by done.
    rewrite <-(up_machine _ _ _ _ Hu). apply Hu.
Qed.

Lemma undo_prefix_start m :
  machine_inv m → undo_prefix m m (m, projection_root (authority m), ∅) [].
Proof.
  intros Hm. split; cbn; [by rewrite set_projection_id|apply Hm|by apply machine_indexes_ready|done].
Qed.

Lemma undo_batch_plain m evs m' root :
  machine_inv m → Forall (λ ev, is_proposal (payload ev) = false) evs →
  apply_command_event_batch m evs = Ok (m', root) →
  ∃ undos, undo_command_event_batch m evs = Ok (m', root, undos)
    ∧ rollback_projection_batch m' undos = m.
Proof.
  intros Hm Hall Hok. unfold apply_command_event_batch in Hok.
  apply bind_Ok in Hok as (st & Hf & Hok).
  destruct (undo_fold_plain _ _ _ _ _ (mi_plans _ Hm) (undo_prefix_start _ Hm) Hall Hf)
    as (undos & Hu & Hpre).
  unfold undo_command_event_batch. rewrite Hu. exists undos. injection Hok as Hst. cbn.
  rewrite Hst. split; [done|]. by rewrite <-(up_back _ _ _ _ Hpre), Hst.
Qed.

(** A batch of one event: the leak of its rollback is explicit. *)
Lemma undo_batch_single m ev m' root :
  machine_inv m → apply_command_event_batch m [ev] = Ok (m', root) →
  ∃ undos, undo_command_event_batch m [ev] = Ok (m', root, undos)
    ∧ rollback_projection_batch m' undos
      = Machine.set_projection (leaked_projection ev (projection m)) m
    ∧ event_effect (projection m) ev (projection m').
Proof.
  intros Hm Hok. unfold apply_command_event_batch in Hok.
  apply bind_Ok in Hok as (st & Hf & Hok). cbn in Hf. apply bind_Ok in Hf as (s1 & Hs1 & Hf).
  injection Hf as <-. injection Hok as Hst.
  destruct (undo_event_step _ _ _ _ _ (mi_plans _ Hm) (undo_prefix_start _ Hm) Hs1)
    as (u & Hun & _ & _ & _ & Hback).
  unfold undo_command_event_batch. cbn [try_fold]. rewrite Hun. cbn. exists [u]. rewrite Hst in *. split; [done|].
  split; [exact Hback|].
  apply bind_Ok in Hs1 as ([] & Hv & Hs1). apply bind_Ok in Hs1 as (p' & Hap & Hs1).
  apply bind_Ok in Hs1 as ([] & _ & Hs1). apply bind_Ok in Hs1 as (root' & _ & Hs1).
  injection Hs1 as <-. injection Hst as <- _. cbn. apply event_effect_intro; try done.
  - apply Hm.
  - by apply machine_indexes_ready.
  - eapply authorised_material; [apply Hm|exact Hv].
Qed.
End BatchRollback.

(** ** What the leak does *)

Section Leak.
Context `{Sha256} `{Canonical}.

Lemma leaked_index_differs i origin sid inv path did rpath site occ schema op prof arguments
    binding occ_binding x scope :
  open_scope_effects x !! sid = Some scope →
  leaked_index (EffectProposed i origin sid inv path did rpath site occ schema op prof arguments
    binding occ_binding) x ≠ x.
Proof.
  intros Hs Heq. apply (f_equal (λ y, open_scope_effects y !! sid)) in Heq. cbn in Heq.
  rewrite lookup_alter_eq, Hs in Heq. injection Heq as Heq.
  apply (f_equal (λ y, length (all_intent_order y))) in Heq. cbn in Heq.
  rewrite length_app in Heq. cbn in Heq. lia.
Qed.

(** An index out of step is refused. *)
Lemma unsynced_refused p rid r :
  runs p !! rid = Some r → initialized (derived r) = true → indexable r →
  derived r ≠ spec_index r → verify_derived_indexes p ≠ Ok ().
Proof.
  intros Hr Hi Hin Hne Hv. unfold verify_derived_indexes in Hv. rewrite try_each_Ok in Hv.
  assert (Hmem : r ∈ btree_values (runs p)) by (apply elem_of_btree_values; eauto).
  specialize (Hv _ Hmem). cbn in Hv. rewrite Hi, rebuild_spec in Hv by done. cbn in Hv.
  apply require_Ok, bool_decide_eq_true in Hv. done.
Qed.

(** A scope whose mutating order names an absent effect cannot commit. *)
Lemma absent_intent_blocks_commit r sid x i :
  open_scope_effects (derived r) !! sid = Some x → i ∈ mutating_intent_order x →
  effects r !! i = None → ∀ count commitment r', apply_scope_committed r sid count commitment ≠ Ok r'.
Proof.
  intros Hx Hi He count commitment r' Hok. unfold apply_scope_committed in Hok.
  apply bind_Ok in Hok as (y & Hy & Hok). apply bind_Ok in Hok as (expected & Hexp & _).
  assert (y = x) as ->.
  { unfold open_scope_close_index in Hy. inv_ok. congruence. }
  apply derived_scope_obligations_Ok in Hexp as [_ Hl].
  destruct (Hl _ Hi) as (e & o & He' & _). congruence.
Qed.
End Leak.
