(* ===== verification/CollectionHash.v ===== *)
(** * Hashing of authenticated collections

    Models [hash.rs] and the error type of
    [crates/cymule-authenticated-collections/src]: framed hash preimages, the
    256 bits of a key hash written as 64 hexadecimal characters, and the
    prefixes of those bits by which the compressed map branches. *)

From S2P Require Import Prelude Identity CommandIndex.

(** ** Errors *)

Inductive ProviderConflict :=
| Revision (expected current : option string)
| HistoryConflict (code : string).
Inductive ProviderFailure :=
| ProviderValidation
| ProviderIntegrity (code : string)
| ProviderConflicted (evidence : ProviderConflict)
| Substrate (code : string).
(** [CollectionError], with the stable codes and identities and without the
    messages for humans; [CollectionPanic] stands for a failing [expect]. *)
Inductive CollectionError :=
| BadShape
| Integrity (code : string)
| MissingObject (object_id : string)
| MutationConflict
| Provider (failure : ProviderFailure)
| CollectionPanic.
#[export] Instance ProviderConflict_eq_dec : EqDecision ProviderConflict.
Proof. solve_decision. Defined.
#[export] Instance ProviderFailure_eq_dec : EqDecision ProviderFailure.
Proof. solve_decision. Defined.
#[export] Instance CollectionError_eq_dec : EqDecision CollectionError.
Proof. solve_decision. Defined.

Abbreviation coll := (result CollectionError).

(** ** Framed preimages *)

Definition FRAME_VERSION : string := "cymule.authenticated-collection-preimage/1".

(** [frame_into]; the length of a field in memory fits a [u64]. *)
Definition frame (bytes : string) : string := to_be_bytes 8 (byte_len bytes) +:+ bytes.
Fixpoint frames (fields : list string) : string :=
  match fields with
  | [] => EmptyString
  | field :: fields => frame field +:+ frames fields
  end.
Definition collection_preimage (domain : string) (fields : list string) : string :=
  frame FRAME_VERSION +:+ frame domain
  +:+ frame (to_be_bytes 8 (N.of_nat (length fields))) +:+ frames fields.

Definition hash_identifier `{Sha256} (domain : string) (fields : list string) : string :=
  "sha256:" +:+ sha256_bytes (collection_preimage domain fields).
(** [hash_digest] strips the prefix that [hash_identifier] puts. *)
Definition hash_digest `{Sha256} (domain : string) (fields : list string) : string :=
  default EmptyString (strip_prefix "sha256:" (hash_identifier domain fields)).

(** ** Validation *)

Definition validate_digest (value : string) : coll () :=
  if negb (byte_len value =? 64)%N || negb (all_bytes is_lower_hex value)
  then Err BadShape else Ok ().
Definition validate_collection_id (value : string) : coll () :=
  match strip_prefix "sha256:" value with
  | None => Err BadShape
  | Some digest => validate_digest digest
  end.

(** ** Bits of a hash *)

(** [hex_value] of [hash.rs] *)
Definition hex_nibble (c : ascii) : option N :=
  let b := byte_of c in
  if is_ascii_digit b then Some (b - 48)%N
  else if (97 <=? b)%N && (b <=? 102)%N then Some (b - 97 + 10)%N
  else None.

Definition hash_bit (value : string) (depth : nat) : coll bool :=
  _ ← require (depth <? 256) BadShape;
  _ ← validate_digest value;
  let nibble_index := depth / 4 in
  let bit_index := 3 - depth mod 4 in
  c ← ok_or (String.get nibble_index value) CollectionPanic;
  nibble ← ok_or (hex_nibble c) BadShape;
  Ok (negb (N.land nibble (N.shiftl 1 (N.of_nat bit_index)) =? 0)%N).

(** The loop of [common_prefix_bits] over the depths from [depth] on. *)
Fixpoint common_from (left right : string) (depth fuel : nat) : coll nat :=
  match fuel with
  | O => Ok 256
  | S fuel =>
      l ← hash_bit left depth;
      r ← hash_bit right depth;
      if Bool.eqb l r then common_from left right (S depth) fuel else Ok depth
  end.
Definition common_prefix_bits (left right : string) : coll nat :=
  _ ← validate_digest left;
  _ ← validate_digest right;
  common_from left right 0 256.

(** [output[i] = c] *)
Definition set_byte (i : nat) (c : ascii) (output : list ascii) : list ascii := <[i := c]> output.

Definition normalized_hash_prefix (value : string) (depth : nat) : coll string :=
  _ ← validate_digest value;
  _ ← require (depth <? 256) BadShape;
  let output := String.list_ascii_of_string value in
  let full_nibbles := depth / 4 in
  let remaining_bits := depth mod 4 in
  output ← (if 0 <? remaining_bits then
              c ← ok_or (output !! full_nibbles) CollectionPanic;
              nibble ← ok_or (hex_nibble c) CollectionPanic;
              let mask := (N.shiftl 15 (N.of_nat (4 - remaining_bits)) mod 256)%N in
              Ok (set_byte full_nibbles (hex_digit (N.land nibble mask)) output)
            else Ok output);
  let clear_from := full_nibbles + (if 0 <? remaining_bits then 1 else 0) in
  Ok (String.string_of_list_ascii
        (take clear_from output ++ replicate (length output - clear_from) "0"%char)).

Definition hash_matches_prefix (hash prefix : string) (depth : nat) : coll bool :=
  normalized ← normalized_hash_prefix hash depth;
  Ok (bool_decide (normalized = prefix)).

(** ** The bits of a digest as a list

    The specification of the functions above: a digest is a list of 256
    booleans, most significant first. *)

Definition nibble_of (c : ascii) : N := default 0%N (hex_nibble c).
Definition nibble_bits (v : N) : list bool := [N.testbit v 3; N.testbit v 2; N.testbit v 1; N.testbit v 0].
Definition list_bits (l : list ascii) : list bool := l ≫= λ c, nibble_bits (nibble_of c).
Definition hash_bits (value : string) : list bool := list_bits (String.list_ascii_of_string value).

Definition is_hex (c : ascii) : Prop := is_lower_hex (byte_of c) = true.
Record digest (value : string) : Prop := {
  dg_len : length (String.list_ascii_of_string value) = 64;
  dg_hex : Forall is_hex (String.list_ascii_of_string value);
}.

Lemma cons_eq {A} (a b : A) l k : a :: l = b :: k ↔ a = b ∧ l = k.
Proof. naive_solver. Qed.

Section Digests.

Lemma byte_len_list s : byte_len s = N.of_nat (length (String.list_ascii_of_string s)).
Proof. induction s as [|c s IH]; cbn; [done|]. rewrite IH. lia. Qed.
Lemma all_bytes_list p s :
  all_bytes p s = true ↔ Forall (λ c, p (byte_of c) = true) (String.list_ascii_of_string s).
Proof.
  induction s as [|c s IH]; cbn; [by split|]. by rewrite andb_true_iff, IH, Forall_cons.
Qed.
Lemma validate_digest_Ok value u : validate_digest value = Ok u ↔ digest value.
Proof.
  unfold validate_digest. destruct u. split.
  - destruct (byte_len value =? 64)%N eqn:Hl; [|done]. destruct (all_bytes _ _) eqn:Ha; [|done].
    intros _. to_prop. rewrite byte_len_list in *. split; [lia|by apply all_bytes_list].
  - intros [Hl Hh]. apply all_bytes_list in Hh. rewrite Hh, byte_len_list, Hl. done.
Qed.

Lemma hex_nibble_lt c : is_hex c → ∃ v, hex_nibble c = Some v ∧ (v < 16)%N.
Proof.
  unfold is_hex, is_lower_hex, hex_nibble. destruct (is_ascii_digit (byte_of c)) eqn:Hd; cbn.
  - intros _. unfold is_ascii_digit in Hd. to_prop. eexists. split; [done|lia].
  - intros Hb. rewrite Hb. to_prop. eexists. split; [done|lia].
Qed.
Lemma nibble_of_Some c v : hex_nibble c = Some v → nibble_of c = v.
Proof. unfold nibble_of. by intros ->. Qed.
Lemma hex_nibble_digit v : (v < 16)%N → hex_nibble (hex_digit v) = Some v ∧ is_hex (hex_digit v).
Proof.
  intros Hv. split; [|by apply hex_digit_lower]. unfold hex_nibble. rewrite hex_digit_byte by done.
  unfold is_ascii_digit. destruct (N.ltb_spec v 10).
  - rewrite (proj2 (N.leb_le 48 _)), (proj2 (N.leb_le _ 57)) by lia. cbn. f_equal. lia.
  - rewrite (proj2 (N.leb_gt _ 57)) by lia. rewrite andb_false_r.
    rewrite (proj2 (N.leb_le 97 _)), (proj2 (N.leb_le _ 102)) by lia. cbn. f_equal. lia.
Qed.
Lemma nibble_of_inj c d : is_hex c → is_hex d → nibble_of c = nibble_of d → c = d.
Proof.
  intros Hc Hd Heq. apply byte_of_inj. revert Hc Hd Heq.
  unfold is_hex, is_lower_hex, nibble_of, hex_nibble, is_ascii_digit.
  destruct (48 <=? byte_of c)%N eqn:?, (byte_of c <=? 57)%N eqn:?,
    (48 <=? byte_of d)%N eqn:?, (byte_of d <=? 57)%N eqn:?; cbn;
    repeat (case_match; cbn); intros; to_prop; try done; lia.
Qed.

(** Sixteen nibbles and four bits: facts that are decided by enumeration. *)
Definition nibbles : list N := N.of_nat <$> seq 0 16.
Lemma nibble_in v : (v < 16)%N → v ∈ nibbles.
Proof.
  intros Hv. unfold nibbles. apply list_elem_of_fmap. exists (N.to_nat v).
  split; [lia|]. apply elem_of_seq. lia.
Qed.
Lemma nibble_cases (P : N → bool) v : forallb P nibbles = true → (v < 16)%N → P v = true.
Proof.
  intros Hall Hv. rewrite forallb_Forall, Forall_forall in Hall. apply Hall. by apply nibble_in.
Qed.
Lemma nibble_bits_inj v w :
  (v < 16)%N → (w < 16)%N → nibble_bits v = nibble_bits w → v = w.
Proof.
  intros Hv Hw. pose proof (nibble_cases (λ v, forallb (λ w,
    negb (bool_decide (nibble_bits v = nibble_bits w)) || bool_decide (v = w)) nibbles) v
    ltac:(by vm_compute) Hv) as Hc.
  apply (nibble_cases (λ w, _) w) in Hc; [|done]. intros Heq.
  rewrite bool_decide_eq_true_2 in Hc by done. cbn in Hc. by apply bool_decide_eq_true in Hc.
Qed.
Lemma nibble_bit v i :
  (v < 16)%N → i < 4 →
  nibble_bits v !! i = Some (negb (N.land v (N.shiftl 1 (N.of_nat (3 - i))) =? 0)%N).
Proof.
  intros Hv Hi. pose proof (nibble_cases (λ v, forallb (λ i, bool_decide
    (nibble_bits v !! i = Some (negb (N.land v (N.shiftl 1 (N.of_nat (3 - i))) =? 0)%N)))
    [0; 1; 2; 3]) v ltac:(by vm_compute) Hv) as Hc.
  rewrite forallb_Forall, Forall_forall in Hc. specialize (Hc i). rewrite bool_decide_eq_true in Hc.
  apply Hc. do 4 (destruct i as [|i]; [set_solver|]). lia.
Qed.
Lemma nibble_mask v i :
  (v < 16)%N → 0 < i < 4 →
  let w := N.land v (N.shiftl 15 (N.of_nat (4 - i)) mod 256)%N in
  (w < 16)%N ∧ nibble_bits w = take i (nibble_bits v) ++ replicate (4 - i) false.
Proof.
  intros Hv Hi. pose proof (nibble_cases (λ v, forallb (λ i,
    let w := N.land v (N.shiftl 15 (N.of_nat (4 - i)) mod 256)%N in
    (w <? 16)%N && bool_decide (nibble_bits w = take i (nibble_bits v) ++ replicate (4 - i) false))
    [1; 2; 3]) v ltac:(by vm_compute) Hv) as Hc.
  rewrite forallb_Forall, Forall_forall in Hc. specialize (Hc i).
  cbv zeta in Hc. rewrite andb_true_iff, N.ltb_lt, bool_decide_eq_true in Hc.
  apply Hc. destruct i as [|i]; [lia|]. do 3 (destruct i as [|i]; [set_solver|]). lia.
Qed.

(** ** Bits of a list of characters *)

Lemma list_bits_cons c l : list_bits (c :: l) = nibble_bits (nibble_of c) ++ list_bits l.
Proof. done. Qed.
Lemma list_bits_length l : length (list_bits l) = 4 * length l.
Proof. induction l as [|c l IH]; [done|]. rewrite list_bits_cons, length_app, IH. cbn. lia. Qed.
Lemma list_bits_app l k : list_bits (l ++ k) = list_bits l ++ list_bits k.
Proof. unfold list_bits. apply bind_app. Qed.
Lemma list_bits_take n l : take (4 * n) (list_bits l) = list_bits (take n l).
Proof.
  revert n. induction l as [|c l IH]; intros [|n]; try done.
  replace (4 * S n) with (S (S (S (S (4 * n))))) by lia.
  cbn [list_bits mbind list_bind app take nibble_bits]. do 4 f_equal. apply IH.
Qed.
Lemma list_bits_take_mod l i c j :
  l !! i = Some c → j < 4 →
  take (4 * i + j) (list_bits l) = list_bits (take i l) ++ take j (nibble_bits (nibble_of c)).
Proof.
  revert i. induction l as [|d l IH]; intros [|i] Hi Hj; try done.
  - injection Hi as ->. rewrite list_bits_cons. cbn [Nat.mul Nat.add take list_bits mbind list_bind app].
    rewrite take_app_le by (cbn; lia). done.
  - replace (4 * S i + j) with (4 + (4 * i + j)) by lia. cbn [take]. rewrite !list_bits_cons.
    rewrite take_app_add', IH by done. by rewrite <-app_assoc.
Qed.
Lemma list_bits_zeros n : list_bits (replicate n "0"%char) = replicate (4 * n) false.
Proof.
  induction n as [|n IH]; [done|]. replace (4 * S n) with (S (S (S (S (4 * n))))) by lia.
  cbn [replicate]. rewrite <-IH. done.
Qed.
Lemma list_bits_inj l k :
  Forall is_hex l → Forall is_hex k → list_bits l = list_bits k → l = k.
Proof.
  revert k. induction l as [|c l IH]; intros [|d k] Hl Hk Heq; try done.
  apply Forall_cons in Hl as [Hc Hl], Hk as [Hd Hk].
  rewrite !list_bits_cons in Heq.
  apply app_inj_1 in Heq as [Hb Heq]; [|done].
  destruct (hex_nibble_lt c Hc) as (v & Hv & Hv16), (hex_nibble_lt d Hd) as (w & Hw & Hw16).
  f_equal; [|by apply IH]. apply nibble_of_inj; [done..|]. apply nibble_bits_inj; [..|done];
    unfold nibble_of; rewrite ?Hv, ?Hw; done.
Qed.
Lemma list_bits_lookup l i c j :
  l !! i = Some c → j < 4 → list_bits l !! (4 * i + j) = nibble_bits (nibble_of c) !! j.
Proof.
  revert i. induction l as [|d l IH]; intros [|i] Hi Hj; try done.
  - injection Hi as ->. cbn [Nat.mul Nat.add]. by rewrite list_bits_cons, lookup_app_l by (cbn; lia).
  - replace (4 * S i + j) with (4 + (4 * i + j)) by lia.
    rewrite list_bits_cons, lookup_app_r by (cbn; lia). replace (4 + (4 * i + j) - _) with (4 * i + j) by (cbn; lia).
    by apply IH.
Qed.

(** ** What the functions on digests compute *)

Lemma digest_lower_hex value :
  byte_len value = 64%N → all_bytes is_lower_hex value = true → digest value.
Proof. intros Hl Ha. apply (validate_digest_Ok _ ()). unfold validate_digest. by rewrite Hl, Ha. Qed.
Lemma digest_valid value : digest value → validate_digest value = Ok ().
Proof. apply validate_digest_Ok. Qed.
Lemma hash_bits_length value : digest value → length (hash_bits value) = 256.
Proof. intros [Hl _]. unfold hash_bits. rewrite list_bits_length, Hl. done. Qed.
Lemma list_ascii_inj s t : String.list_ascii_of_string s = String.list_ascii_of_string t → s = t.
Proof.
  intros Heq. rewrite <-(String.string_of_list_ascii_of_string s), Heq.
  apply String.string_of_list_ascii_of_string.
Qed.
Lemma hash_bits_inj s t : digest s → digest t → hash_bits s = hash_bits t → s = t.
Proof. intros [_ Hs] [_ Ht] Heq. by apply list_ascii_inj, list_bits_inj. Qed.

Lemma string_get_list i s : String.get i s = String.list_ascii_of_string s !! i.
Proof. revert i. induction s as [|c s IH]; intros [|i]; cbn; try done. Qed.

Lemma digest_char value i :
  digest value → i < 64 →
  ∃ c v, String.list_ascii_of_string value !! i = Some c ∧ hex_nibble c = Some v ∧ (v < 16)%N.
Proof.
  intros [Hl Hh] Hi. destruct (lookup_lt_is_Some_2 (String.list_ascii_of_string value) i) as [c Hc];
    [lia|].
  destruct (hex_nibble_lt c) as (v & Hv & Hlt); [by eapply Forall_lookup_1|]. eauto 6.
Qed.

Lemma hash_bit_spec value d :
  digest value → d < 256 → ∃ b, hash_bits value !! d = Some b ∧ hash_bit value d = Ok b.
Proof.
  intros Hv Hd. destruct (digest_char value (d / 4) Hv) as (c & v & Hc & Hn & Hlt).
  { apply Nat.Div0.div_lt_upper_bound. lia. }
  pose proof (Nat.mod_upper_bound d 4 ltac:(lia)) as Hm.
  unfold hash_bit. rewrite (proj2 (Nat.ltb_lt d 256)) by done. cbn [require mbind result_bind].
  rewrite digest_valid by done. cbn [mbind result_bind]. rewrite string_get_list, Hc. cbn [ok_or mbind result_bind].
  rewrite Hn. cbn [ok_or mbind result_bind]. eexists. split; [|done].
  unfold hash_bits. rewrite (Nat.div_mod_eq d 4) at 1.
  erewrite list_bits_lookup by done. unfold nibble_of. rewrite Hn. by apply nibble_bit.
Qed.

(** The length of the longest common prefix. *)
Fixpoint common (l k : list bool) : nat :=
  match l, k with
  | a :: l, b :: k => if Bool.eqb a b then S (common l k) else 0
  | _, _ => 0
  end.
Lemma common_take l k : take (common l k) l = take (common l k) k.
Proof.
  revert k. induction l as [|a l IH]; intros [|b k]; try done. cbn.
  destruct (Bool.eqb a b) eqn:Hab; [|done]. apply eqb_prop in Hab as ->. cbn. by rewrite IH.
Qed.
Lemma common_differ l k a b :
  l !! common l k = Some a → k !! common l k = Some b → a ≠ b.
Proof.
  revert k. induction l as [|x l IH]; intros [|y k]; try done. cbn.
  destruct (Bool.eqb x y) eqn:Hxy; cbn; [apply IH|].
  intros [= ->] [= ->] ->. by rewrite eqb_reflx in Hxy.
Qed.
Lemma common_le l k : common l k ≤ length l ∧ common l k ≤ length k.
Proof.
  revert k. induction l as [|a l IH]; intros [|b k]; cbn; try lia.
  destruct (Bool.eqb a b); cbn; [|lia]. specialize (IH k). lia.
Qed.
Lemma common_full l k : length l = length k → common l k = length l → l = k.
Proof.
  intros Hl Hc. pose proof (common_take l k) as Ht. rewrite Hc in Ht.
  rewrite firstn_all in Ht. rewrite Ht, Hl. apply firstn_all.
Qed.
Lemma common_prefix_le l k n :
  n ≤ length l → n ≤ length k → take n l = take n k → n ≤ common l k.
Proof.
  revert l k. induction n as [|n IH]; intros [|a l] [|b k] Hl Hk Heq; cbn in *; try lia.
  injection Heq as -> Heq. rewrite eqb_reflx. pose proof (IH l k ltac:(lia) ltac:(lia) Heq). lia.
Qed.

(** Bits beyond [d] do not matter for a common prefix shorter than [d]. *)
Lemma common_padded d l z k :
  d ≤ length l → Nat.min d (common (take d l ++ z) k) = Nat.min d (common l k).
Proof.
  revert l k. induction d as [|d IH]; intros [|a l] k Hl; cbn in Hl; try lia; [done..|].
  destruct k as [|b k]; [done|]. cbn. destruct (Bool.eqb a b); cbn; [|done].
  f_equal. apply IH. lia.
Qed.

Lemma common_from_spec s t d fuel :
  digest s → digest t → d + fuel = 256 →
  common_from s t d fuel = Ok (d + common (drop d (hash_bits s)) (drop d (hash_bits t))).
Proof.
  intros Hs Ht. revert d. induction fuel as [|fuel IH]; intros d Hd; cbn [common_from].
  - rewrite !drop_ge by (rewrite hash_bits_length by done; lia). cbn. f_equal. lia.
  - destruct (hash_bit_spec s d Hs) as (a & Ha & ->); [lia|].
    destruct (hash_bit_spec t d Ht) as (b & Hb & ->); [lia|]. cbn [mbind result_bind].
    rewrite (drop_S _ _ _ Ha), (drop_S _ _ _ Hb). cbn [common].
    destruct (Bool.eqb a b); [|f_equal; lia]. rewrite IH by lia. f_equal. lia.
Qed.
Lemma common_prefix_spec s t :
  digest s → digest t → common_prefix_bits s t = Ok (common (hash_bits s) (hash_bits t)).
Proof.
  intros Hs Ht. unfold common_prefix_bits. rewrite !digest_valid by done. cbn [mbind result_bind].
  by rewrite common_from_spec.
Qed.

(** The prefix of a digest, padded with zeros. *)
Lemma normalized_spec value d :
  digest value → d < 256 →
  ∃ p, normalized_hash_prefix value d = Ok p ∧ digest p
    ∧ hash_bits p = take d (hash_bits value) ++ replicate (256 - d) false.
Proof.
  intros Hv Hd. unfold normalized_hash_prefix. rewrite digest_valid by done. cbn [mbind result_bind].
  rewrite (proj2 (Nat.ltb_lt d 256)) by done. cbn [require mbind result_bind].
  pose proof (Nat.mod_upper_bound d 4 ltac:(lia)) as Hm. pose proof (Nat.div_mod_eq d 4) as Hdm.
  pose proof (dg_len _ Hv) as Hlen. pose proof (dg_hex _ Hv) as Hhex.
  assert (Hzero : is_hex "0"%char) by done.
  set (l := String.list_ascii_of_string value) in *.
  destruct (Nat.ltb_spec 0 (d mod 4)) as [Hr|Hr].
  - destruct (digest_char value (d / 4) Hv) as (c & v & Hc & Hn & Hlt);
      [apply Nat.Div0.div_lt_upper_bound; lia|]. fold l in Hc.
    rewrite Hc. cbn [ok_or mbind result_bind]. rewrite Hn. cbn [ok_or mbind result_bind].
    destruct (nibble_mask v (d mod 4) Hlt ltac:(lia)) as [Hw Hb].
    set (w := N.land v _) in *. destruct (hex_nibble_digit w Hw) as [Hwn Hwh].
    eexists. split; [done|].
    assert (Hl' : String.list_ascii_of_string (String.string_of_list_ascii
        (take (d / 4 + 1) (set_byte (d / 4) (hex_digit w) l)
         ++ replicate (length (set_byte (d / 4) (hex_digit w) l) - (d / 4 + 1)) "0"%char))
      = take (d / 4) l ++ hex_digit w :: replicate (63 - d / 4) "0"%char).
    { rewrite String.list_ascii_of_string_of_list_ascii. unfold set_byte.
      rewrite length_insert, Hlen. rewrite Nat.add_1_r.
      erewrite take_S_r by (apply list_lookup_insert_eq; lia).
      rewrite take_insert_ge by lia. rewrite <-app_assoc. cbn. do 3 f_equal. }
    split.
    + split; rewrite Hl'.
      * rewrite length_app, length_take, length_cons, length_replicate. lia.
      * apply Forall_app. split; [by apply Forall_take|]. constructor; [done|].
        by apply Forall_replicate.
    + unfold hash_bits. rewrite Hl', list_bits_app, list_bits_cons, list_bits_zeros.
      rewrite (nibble_of_Some _ _ Hwn), Hb. fold l.
      rewrite (f_equal (λ n, take n (list_bits l)) Hdm).
      erewrite list_bits_take_mod by (done || lia).
      rewrite (nibble_of_Some _ _ Hn), <-!app_assoc, <-replicate_add. do 3 f_equal. lia.
  - cbn [mbind result_bind]. rewrite Nat.add_0_r. eexists. split; [done|].
    assert (Hl' : String.list_ascii_of_string (String.string_of_list_ascii
        (take (d / 4) l ++ replicate (length l - d / 4) "0"%char))
      = take (d / 4) l ++ replicate (64 - d / 4) "0"%char)
      by (rewrite String.list_ascii_of_string_of_list_ascii, Hlen; done).
    split.
    + split; rewrite Hl'.
      * rewrite length_app, length_take, length_replicate. lia.
      * apply Forall_app. split; [by apply Forall_take|by apply Forall_replicate].
    + unfold hash_bits. rewrite Hl', list_bits_app, list_bits_zeros. fold l.
      rewrite <-list_bits_take. do 2 f_equal; f_equal; lia.
Qed.

Lemma normalized_eq s t d :
  digest s → digest t → d < 256 →
  normalized_hash_prefix s d = normalized_hash_prefix t d
  ↔ take d (hash_bits s) = take d (hash_bits t).
Proof.
  intros Hs Ht Hd. destruct (normalized_spec s d Hs Hd) as (p & -> & Hp & Hpb).
  destruct (normalized_spec t d Ht Hd) as (q & -> & Hq & Hqb). split.
  - intros [= ->]. rewrite Hpb in Hqb. by apply app_inj_2 in Hqb as [? _].
  - intros Heq. f_equal. apply hash_bits_inj; [done..|]. by rewrite Hpb, Hqb, Heq.
Qed.
Lemma normalized_idem s d p :
  digest s → d < 256 → normalized_hash_prefix s d = Ok p → normalized_hash_prefix p d = Ok p.
Proof.
  intros Hs Hd Hp. destruct (normalized_spec s d Hs Hd) as (p' & Hp' & Hdg & Hb).
  rewrite Hp in Hp'. injection Hp' as <-. rewrite <-Hp. apply normalized_eq; [done..|].
  rewrite Hb, take_app_le, take_take, Nat.min_id; [done|].
  rewrite length_take, hash_bits_length by done. lia.
Qed.
Lemma matches_spec hash prefix d :
  digest hash → digest prefix → d < 256 → normalized_hash_prefix prefix d = Ok prefix →
  hash_matches_prefix hash prefix d
  = Ok (bool_decide (take d (hash_bits hash) = take d (hash_bits prefix))).
Proof.
  intros Hh Hp Hd Hn. unfold hash_matches_prefix.
  destruct (normalized_spec hash d Hh Hd) as (q & Hq & _). rewrite Hq. cbn. f_equal.
  apply bool_decide_ext. rewrite <-(normalized_eq hash prefix d Hh Hp Hd), Hq, Hn. naive_solver.
Qed.

(** ** Framing determines the fields *)

Definition short (s : string) : Prop := (byte_len s ≤ u64_max)%N.
Lemma frame_inj s t u v :
  short s → short t → frame s +:+ u = frame t +:+ v → s = t ∧ u = v.
Proof.
  unfold frame, short. intros Hs Ht Heq. rewrite !string_assoc in Heq.
  apply append_inj in Heq as [Hl Heq]; [|by rewrite !to_be_bytes_len].
  apply to_be_bytes_inj in Hl; [|unfold u64_max in *; lia..]. by apply append_inj in Heq.
Qed.
Lemma frames_inj l k :
  Forall short l → Forall short k → length l = length k → frames l = frames k → l = k.
Proof.
  revert k. induction l as [|s l IH]; intros [|t k] Hl Hk Hlen Heq; try done.
  apply Forall_cons in Hl as [Hs Hl], Hk as [Ht Hk]. cbn in Heq, Hlen.
  apply frame_inj in Heq as [-> Heq]; [|done..]. f_equal. apply IH; [done..|lia|done].
Qed.
Lemma collection_preimage_inj dom l k :
  Forall short l → Forall short k → (N.of_nat (length l) ≤ u64_max)%N →
  (N.of_nat (length k) ≤ u64_max)%N → short dom →
  collection_preimage dom l = collection_preimage dom k → l = k.
Proof.
  intros Hl Hk Hnl Hnk Hd Heq. unfold collection_preimage in Heq.
  apply frame_inj in Heq as [_ Heq]; [|done..]. apply frame_inj in Heq as [_ Heq]; [|done..].
  apply frame_inj in Heq as [Hlen Heq]; [|by unfold short; rewrite to_be_bytes_len..].
  apply to_be_bytes_inj in Hlen; [|unfold u64_max in *; lia..].
  apply frames_inj; [done..|lia|done].
Qed.
End Digests.

(** ** Sizes *)

Lemma digest_short value : digest value → byte_len value = 64%N.
Proof. intros [Hl _]. by rewrite byte_len_list, Hl. Qed.
Lemma id_short id : validate_collection_id id = Ok () → byte_len id = 71%N.
Proof.
  unfold validate_collection_id. destruct (strip_prefix "sha256:" id) as [d|] eqn:Hd; [|done].
  intros Hv%validate_digest_Ok. apply strip_prefix_Some in Hd as ->.
  rewrite byte_len_app, (digest_short d) by done. done.
Qed.
(** A field of known size fits its frame. *)
Lemma short_field s n : byte_len s = n → (n ≤ u64_max)%N → short s.
Proof. by intros <-. Qed.

Section Identifiers.
Context `{Sha256}.

Lemma hash_digest_eq dom fields :
  hash_digest dom fields = sha256_bytes (collection_preimage dom fields).
Proof. unfold hash_digest, hash_identifier. by rewrite strip_prefix_app. Qed.
Lemma sha256_bytes_is_digest bytes : digest (sha256_bytes bytes).
Proof.
  apply digest_lower_hex; unfold sha256_bytes; [by rewrite hex_string_len, sha256_len|].
  apply hex_string_lower.
Qed.
Lemma hash_identifier_valid dom fields : validate_collection_id (hash_identifier dom fields) = Ok ().
Proof.
  unfold validate_collection_id, hash_identifier. rewrite strip_prefix_app.
  apply digest_valid, sha256_bytes_is_digest.
Qed.
Lemma hash_identifier_inj d1 f1 d2 f2 :
  hash_identifier d1 f1 = hash_identifier d2 f2 →
  sha256 (collection_preimage d1 f1) = sha256 (collection_preimage d2 f2).
Proof.
  unfold hash_identifier. intros Heq. apply (f_equal (strip_prefix "sha256:")) in Heq.
  rewrite !strip_prefix_app in Heq. injection Heq as Heq. by apply hex_string_inj.
Qed.
End Identifiers.
