(* ===== verification/SparseTree.v ===== *)
(** * The sparse tree behind the command index

    A 32-byte key of [crates/cymule-core/src/machine.rs] as the list of its 256
    bits, what [command_index_prefix] and [command_index_sibling_address] do to
    those bits, and a reference definition for the archived-command index: the
    complete binary tree of depth 256 over a list of leaves, as a pure function
    of that list, with what inserting a leaf does to its root and its paths. *)

From S2P Require Import Prelude Identity CommandIndex IndexSound IndexUpdate CollectionHash.

Definition KEY_BYTES : nat := 32.
Definition index_bits (key : string) : list bool :=
  command_index_bit key <$> seq 0 COMMAND_INDEX_DEPTH.
Definition is_key (key : string) : Prop := length (String.list_ascii_of_string key) = KEY_BYTES.

Section Bytes.

(** Bit [i] of a byte, most significant first, and bit [d] of a list of bytes. *)
Definition byte_bit (c : ascii) (i : nat) : bool := N.testbit (byte_of c) (7 - N.of_nat i).
Definition bytes_bit (l : list ascii) (d : nat) : bool :=
  match l !! (d / 8) with Some c => byte_bit c (d mod 8) | None => false end.

Lemma index_bit_bytes key d :
  command_index_bit key d = bytes_bit (String.list_ascii_of_string key) d.
Proof. unfold command_index_bit, bytes_bit. by rewrite string_get_list. Qed.

Lemma small_byte n : (n < 256)%N → byte_of (ascii_of_N n) = n.
Proof. apply N_ascii_embedding. Qed.
Lemma byte_bits_inj c d : (∀ i, i < 8 → byte_bit c i = byte_bit d i) → c = d.
Proof.
  intros Hb. apply byte_of_inj, N.bits_inj. intros n. destruct (N.lt_ge_cases n 8) as [Hn|Hn].
  - specialize (Hb (N.to_nat (7 - n)) ltac:(lia)). unfold byte_bit in Hb.
    by replace (7 - N.of_nat (N.to_nat (7 - n)))%N with n in Hb by lia.
  - pose proof (byte_of_range c). pose proof (byte_of_range d).
    assert (∀ b, (b < 256)%N → N.testbit b n = false) as Hz; [|by rewrite !Hz].
    intros b Hbr. destruct (decide (b = 0%N)) as [->|]; [by rewrite N.bits_0|].
    apply N.bits_above_log2, (N.lt_le_trans _ 8); [|done].
    apply (N.log2_lt_pow2 b 8); [lia|done].
Qed.
Lemma bytes_bits_inj l k :
  length l = length k → (∀ d, d < 8 * length l → bytes_bit l d = bytes_bit k d) → l = k.
Proof.
  intros Hl Hb. apply (list_eq_same_length _ _ (length l)); [done..|]. intros i x y Hi Hx Hy.
  apply byte_bits_inj. intros j Hj. specialize (Hb (8 * i + j) ltac:(lia)). unfold bytes_bit in Hb.
  rewrite Nat.mul_comm, Nat.div_add_l, Nat.div_small, Nat.add_0_r, Hx, Hy in Hb by lia.
  by rewrite Nat.add_comm, Nat.Div0.mod_add, Nat.mod_small in Hb by lia.
Qed.

(** ** Masks *)

Lemma mask_bit r i :
  0 < r < 8 → i < 8 → N.testbit (byte_mask r) (7 - N.of_nat i) = bool_decide (i < r).
Proof.
  intros Hr Hi. destruct r as [|[|[|[|[|[|[|[|]]]]]]]]; try lia;
    destruct i as [|[|[|[|[|[|[|[|]]]]]]]]; try lia; reflexivity.
Qed.
Lemma masked_byte_bit c r i :
  0 < r < 8 → i < 8 →
  byte_bit (ascii_of_N (N.land (byte_of c) (byte_mask r))) i = byte_bit c i && bool_decide (i < r).
Proof.
  intros Hr Hi. unfold byte_bit. rewrite small_byte; [by rewrite N.land_spec, mask_bit|].
  pose proof (byte_of_range c). eapply N.le_lt_trans; [apply N.land_le_l|done].
Qed.
Lemma flip_byte_bit c m i :
  m < 8 → i < 8 →
  byte_bit (ascii_of_N (N.lxor (byte_of c) (N.shiftl 1 (7 - N.of_nat m)))) i
    = xorb (byte_bit c i) (bool_decide (i = m)).
Proof.
  intros Hm Hi. unfold byte_bit. rewrite small_byte.
  - rewrite N.lxor_spec. f_equal.
    destruct m as [|[|[|[|[|[|[|[|]]]]]]]]; try lia;
      destruct i as [|[|[|[|[|[|[|[|]]]]]]]]; try lia; reflexivity.
  - pose proof (byte_of_range c).
    assert (N.shiftl 1 (7 - N.of_nat m) < 256)%N as Hs.
    { destruct m as [|[|[|[|[|[|[|[|]]]]]]]]; try lia; reflexivity. }
    assert (∀ a, (a < 256)%N ↔ N.log2 a < 8)%N as Hlog.
    { intros a. destruct (decide (a = 0%N)) as [->|]; [done|].
      change 256%N with (2 ^ 8)%N. apply N.log2_lt_pow2. lia. }
    apply Hlog. eapply N.le_lt_trans; [apply N.log2_lxor|].
    apply N.max_lub_lt; by apply Hlog.
Qed.
Lemma zero_byte_bit i : byte_bit (ascii_of_N 0) i = false.
Proof. unfold byte_bit. rewrite small_byte by done. apply N.bits_0. Qed.
Lemma zero_bytes_bit n d : bytes_bit (zero_bytes n) d = false.
Proof.
  unfold bytes_bit, zero_bytes. destruct (replicate n _ !! _) as [c|] eqn:Hc; [|done].
  apply lookup_replicate in Hc as [-> _]. apply zero_byte_bit.
Qed.
Lemma bytes_bit_app_l l k d : d / 8 < length l → bytes_bit (l ++ k) d = bytes_bit l d.
Proof. intros Hd. unfold bytes_bit. by rewrite lookup_app_l. Qed.
Lemma bytes_bit_app_r l k d :
  length l ≤ d / 8 → bytes_bit (l ++ k) d = bytes_bit k (d - 8 * length l).
Proof.
  intros Hd. unfold bytes_bit. rewrite lookup_app_r by done.
  pose proof (Nat.div_mod_eq d 8) as Hdm.
  assert (d - 8 * length l = d mod 8 + (d / 8 - length l) * 8) as -> by lia.
  rewrite Nat.div_add, Nat.Div0.mod_add, Nat.Div0.mod_mod, (Nat.div_small (d mod 8)) by
    (try apply Nat.mod_upper_bound; lia). done.
Qed.
End Bytes.

Section Keys.

Lemma is_key_len key : byte_len key = 32%N → is_key key.
Proof. unfold is_key, KEY_BYTES. rewrite byte_len_list. lia. Qed.
Lemma index_bits_length key : length (index_bits key) = COMMAND_INDEX_DEPTH.
Proof. unfold index_bits. by rewrite length_fmap, length_seq. Qed.
Lemma index_bits_lookup key i b :
  index_bits key !! i = Some b ↔ i < COMMAND_INDEX_DEPTH ∧ command_index_bit key i = b.
Proof.
  unfold index_bits. rewrite list_lookup_fmap. split.
  - intros Hb. destruct (seq _ _ !! i) as [j|] eqn:Hj; [|done]. apply lookup_seq in Hj as [-> Hi].
    split; [done|]. cbn in Hb. congruence.
  - intros [Hi Hb]. rewrite lookup_seq_lt by done. cbn. by rewrite Hb.
Qed.
Lemma index_bits_inj j k : is_key j → is_key k → index_bits j = index_bits k → j = k.
Proof.
  unfold is_key, KEY_BYTES. intros Hj Hk Hb. apply list_ascii_inj, bytes_bits_inj; [congruence|].
  intros d Hd. rewrite <-!index_bit_bytes.
  assert (index_bits j !! d = Some (command_index_bit j d)) as Hl.
  { apply index_bits_lookup. unfold COMMAND_INDEX_DEPTH. split; [lia|done]. }
  rewrite Hb in Hl. by apply index_bits_lookup in Hl as [_ ->].
Qed.

Lemma prefix_key key d : is_key key → is_key (command_index_prefix key d).
Proof.
  unfold is_key, command_index_prefix, KEY_BYTES. intros Hk. destruct (Nat.leb_spec COMMAND_INDEX_DEPTH d); [done|].
  unfold COMMAND_INDEX_DEPTH in *. pose proof (Nat.div_mod_eq d 8).
  pose proof (Nat.mod_upper_bound d 8 ltac:(lia)).
  destruct (Nat.eqb_spec (d mod 8) 0); rewrite String.list_ascii_of_string_of_list_ascii; unfold zero_bytes;
    rewrite ?length_app, ?length_fmap, ?length_take, ?length_drop, ?length_replicate, ?Hk; lia.
Qed.
Lemma prefix_key_bit key d i :
  is_key key → i < COMMAND_INDEX_DEPTH →
  command_index_bit (command_index_prefix key d) i = bool_decide (i < d) && command_index_bit key i.
Proof.
  unfold is_key, KEY_BYTES, command_index_prefix. intros Hk Hi.
  destruct (Nat.leb_spec COMMAND_INDEX_DEPTH d); [by rewrite bool_decide_eq_true_2 by lia|].
  rewrite !index_bit_bytes. unfold COMMAND_INDEX_DEPTH in *.
  pose proof (Nat.div_mod_eq d 8) as Hd. pose proof (Nat.mod_upper_bound d 8 ltac:(lia)).
  pose proof (Nat.div_mod_eq i 8) as Hid. pose proof (Nat.mod_upper_bound i 8 ltac:(lia)).
  set (l := String.list_ascii_of_string key) in *.
  assert (length (take (d / 8) l) = d / 8) as Htk by (rewrite length_take; lia).
  destruct (decide (i / 8 < d / 8)) as [Hlt|Hge].
  - rewrite bool_decide_eq_true_2 by lia.
    assert (bytes_bit (take (d / 8) l) i = bytes_bit l i) as Ht.
    { unfold bytes_bit. by rewrite lookup_take_lt. }
    destruct (d mod 8 =? 0); rewrite String.list_ascii_of_string_of_list_ascii, bytes_bit_app_l by lia; done.
  - destruct (Nat.eqb_spec (d mod 8) 0); rewrite String.list_ascii_of_string_of_list_ascii.
    + rewrite bool_decide_eq_false_2 by lia. rewrite bytes_bit_app_r by lia. apply zero_bytes_bit.
    + rewrite bytes_bit_app_r by lia. rewrite Htk.
      destruct (lookup_lt_is_Some_2 l (d / 8)) as [c Hc]; [lia|].
      erewrite drop_S by done. rewrite firstn_cons, take_0. cbn [fmap list_fmap].
      destruct (decide (i / 8 = d / 8)) as [He|Hne].
      * unfold bytes_bit. replace (i - 8 * (d / 8)) with (i mod 8) by lia.
        rewrite Nat.div_small, Nat.Div0.mod_mod by lia. cbn [lookup list_lookup app].
        rewrite masked_byte_bit by lia. rewrite He, Hc, andb_comm. f_equal.
        apply bool_decide_ext. lia.
      * rewrite bool_decide_eq_false_2 by lia.
        rewrite bytes_bit_app_r by (cbn [length]; apply Nat.div_le_lower_bound; lia).
        apply zero_bytes_bit.
Qed.
Lemma flip_key key d : is_key key → is_key (flip_bit key d).
Proof.
  unfold is_key, flip_bit. by rewrite String.list_ascii_of_string_of_list_ascii, length_alter.
Qed.
Lemma flip_bit_bit key d i :
  is_key key → i < COMMAND_INDEX_DEPTH →
  command_index_bit (flip_bit key d) i = xorb (command_index_bit key i) (bool_decide (i = d)).
Proof.
  unfold is_key, KEY_BYTES, flip_bit, COMMAND_INDEX_DEPTH. intros Hk Hi.
  rewrite !index_bit_bytes, String.list_ascii_of_string_of_list_ascii. unfold bytes_bit.
  pose proof (Nat.div_mod_eq d 8) as Hd. pose proof (Nat.mod_upper_bound d 8 ltac:(lia)).
  pose proof (Nat.div_mod_eq i 8) as Hid. pose proof (Nat.mod_upper_bound i 8 ltac:(lia)).
  destruct (lookup_lt_is_Some_2 (String.list_ascii_of_string key) (i / 8)) as [c Hc]; [lia|].
  destruct (decide (i / 8 = d / 8)) as [He|Hne].
  - rewrite He, list_lookup_alter_eq, <-He, Hc. cbn [fmap option_fmap option_map].
    rewrite flip_byte_bit by lia. f_equal. apply bool_decide_ext. lia.
  - rewrite list_lookup_alter_ne, Hc by done. rewrite bool_decide_eq_false_2 by (intros ->; lia).
    by rewrite xorb_false_r.
Qed.

(** ** On the list of bits *)

Lemma prefix_bits key d :
  is_key key → d ≤ COMMAND_INDEX_DEPTH →
  index_bits (command_index_prefix key d)
    = take d (index_bits key) ++ replicate (COMMAND_INDEX_DEPTH - d) false.
Proof.
  intros Hk Hd. apply list_eq. intros i.
  destruct (decide (i < COMMAND_INDEX_DEPTH)) as [Hi|Hi].
  - rewrite (proj2 (index_bits_lookup _ i _) (conj Hi eq_refl)), prefix_key_bit by done.
    destruct (decide (i < d)) as [Hlt|Hge].
    + rewrite bool_decide_eq_true_2, lookup_app_l, lookup_take_lt by
        (rewrite ?length_take, ?index_bits_length; lia).
      by rewrite (proj2 (index_bits_lookup key i _) (conj Hi eq_refl)).
    + rewrite bool_decide_eq_false_2, lookup_app_r by
        (rewrite ?length_take, ?index_bits_length; lia).
      rewrite length_take, index_bits_length. by rewrite lookup_replicate_2 by lia.
  - rewrite !lookup_ge_None_2; [done| |by rewrite index_bits_length; lia].
    rewrite length_app, length_take, index_bits_length, length_replicate. lia.
Qed.
(** Two prefixes of one length are equal as keys when they are equal as bits. *)
Lemma prefix_eq j k d :
  is_key j → is_key k → d ≤ COMMAND_INDEX_DEPTH →
  command_index_prefix j d = command_index_prefix k d
    ↔ take d (index_bits j) = take d (index_bits k).
Proof.
  intros Hj Hk Hd. split.
  - intros Heq%(f_equal index_bits). rewrite !prefix_bits in Heq by done.
    by apply app_inj_2 in Heq as [? _].
  - intros Heq. apply index_bits_inj; [by apply prefix_key..|]. by rewrite !prefix_bits, Heq.
Qed.
Lemma prefix_full key : command_index_prefix key COMMAND_INDEX_DEPTH = key.
Proof. unfold command_index_prefix. by rewrite Nat.leb_refl. Qed.
Lemma take_S_bits key d :
  d < COMMAND_INDEX_DEPTH →
  take (S d) (index_bits key) = take d (index_bits key) ++ [command_index_bit key d].
Proof. intros Hd. apply take_S_r. by apply index_bits_lookup. Qed.
Lemma drop_bits key d :
  d < COMMAND_INDEX_DEPTH →
  drop d (index_bits key) = command_index_bit key d :: drop (S d) (index_bits key).
Proof. intros Hd. apply drop_S. by apply index_bits_lookup. Qed.
Lemma flip_bits key d :
  is_key key → d < COMMAND_INDEX_DEPTH →
  take (S d) (index_bits (flip_bit key d))
    = take d (index_bits key) ++ [negb (command_index_bit key d)].
Proof.
  intros Hk Hd. rewrite take_S_bits by done. f_equal.
  - apply list_eq. intros i. destruct (decide (i < d)) as [Hi|Hi].
    + rewrite !lookup_take_lt by done.
      assert (i < COMMAND_INDEX_DEPTH) as Hi' by lia.
      rewrite (proj2 (index_bits_lookup key i _) (conj Hi' eq_refl)).
      apply index_bits_lookup. split; [done|]. rewrite flip_bit_bit by (done || lia).
      by rewrite bool_decide_eq_false_2, xorb_false_r by lia.
    + by rewrite !lookup_take_ge by lia.
  - rewrite flip_bit_bit by done. by rewrite bool_decide_eq_true_2, xorb_true_r.
Qed.
End Keys.

Abbreviation leaves := (list (list bool * string)).

(** The leaves of one child, with the bit of the child removed. *)
Fixpoint branch (b : bool) (l : leaves) : leaves :=
  match l with
  | (c :: k, x) :: l => if Bool.eqb c b then (k, x) :: branch b l else branch b l
  | ([], _) :: l => branch b l
  | [] => []
  end.
(** The leaves below the prefix [p]. *)
Definition subtree (p : list bool) (l : leaves) : leaves := foldl (λ l b, branch b l) l p.
Fixpoint leaf_at (k : list bool) (l : leaves) : option string :=
  match l with
  | (j, x) :: l => if decide (j = k) then Some x else leaf_at k l
  | [] => None
  end.

(** Leaves of a tree of height [h]. *)
Definition leaves_wf (h : nat) (l : leaves) : Prop :=
  Forall (λ x, length x.1 = h ∧ is_sha256_id x.2 = true) l ∧ NoDup l.*1.

Section Leaves.

Lemma branch_cons_eq b k x l : branch b ((b :: k, x) :: l) = (k, x) :: branch b l.
Proof. cbn. by rewrite Bool.eqb_reflx. Qed.
Lemma branch_cons_ne b k x l : branch (negb b) ((b :: k, x) :: l) = branch (negb b) l.
Proof. cbn. by destruct b. Qed.
Lemma elem_of_branch b k x l : (k, x) ∈ branch b l ↔ (b :: k, x) ∈ l.
Proof.
  induction l as [|[[|c j] y] l IH]; cbn [branch].
  - by rewrite !elem_of_nil.
  - rewrite elem_of_cons, IH. naive_solver.
  - destruct (Bool.eqb_spec c b) as [->|Hne]; rewrite !elem_of_cons, IH; naive_solver.
Qed.
Lemma branch_keys b l k : k ∈ (branch b l).*1 ↔ b :: k ∈ l.*1.
Proof.
  rewrite !list_elem_of_fmap. split.
  - intros ([j x] & -> & Hx). exists (b :: j, x). split; [done|by apply elem_of_branch].
  - intros ([j x] & Hj & Hx). cbn in Hj. subst j. exists (k, x). split; [done|by apply elem_of_branch].
Qed.
Lemma branch_wf h b l : leaves_wf (S h) l → leaves_wf h (branch b l).
Proof.
  intros [Hf Hn]. split.
  - apply Forall_forall. intros [k x] Hx%elem_of_branch. rewrite Forall_forall in Hf.
    destruct (Hf _ Hx) as [Hl Hs]. cbn in *. split; [lia|done].
  - clear Hf. induction l as [|[[|c k] x] l IH]; cbn [branch]; [constructor| |].
    + apply IH. by apply NoDup_cons in Hn as [_ ?].
    + cbn in Hn. apply NoDup_cons in Hn as [Hni Hn]. destruct (Bool.eqb_spec c b) as [->|]; [|by apply IH].
      cbn. constructor; [|by apply IH]. by rewrite branch_keys.
Qed.
Lemma branch_perm b l l' : l ≡ₚ l' → branch b l ≡ₚ branch b l'.
Proof.
  induction 1 as [|[[|c k] x] l l' _ IH|[[|c k] x] [[|d j] y] l|l l' l'' _ IH1 _ IH2]; cbn [branch];
    try done.
  - destruct (Bool.eqb c b); by rewrite ?IH.
  - destruct (Bool.eqb c b), (Bool.eqb d b); by (constructor || done).
  - by rewrite IH1.
Qed.
Lemma branch_empty l h : leaves_wf (S h) l → branch false l = [] → branch true l = [] → l = [].
Proof.
  intros [Hf _] H0 H1. destruct l as [|[k x] l]; [done|]. apply Forall_cons in Hf as [[Hk _] _].
  destruct k as [|b k]; [done|]. destruct b; by rewrite branch_cons_eq in *.
Qed.

Lemma leaf_at_branch b k l : leaf_at k (branch b l) = leaf_at (b :: k) l.
Proof.
  induction l as [|[[|c j] x] l IH]; cbn [branch leaf_at]; [done| |].
  - by rewrite decide_False by done.
  - destruct (Bool.eqb_spec c b) as [->|Hne]; cbn [leaf_at].
    + destruct (decide (j = k)) as [->|]; [by rewrite decide_True|].
      by rewrite decide_False by congruence.
    + by rewrite decide_False by congruence.
Qed.
Lemma leaf_at_None k l : leaf_at k l = None ↔ k ∉ l.*1.
Proof.
  induction l as [|[j x] l IH]; cbn [leaf_at]; [split; [by intros _ ?%elem_of_nil|done]|].
  rewrite fmap_cons, not_elem_of_cons. cbn. destruct (decide (j = k)); naive_solver.
Qed.
Lemma leaf_at_Some k x l : NoDup l.*1 → leaf_at k l = Some x ↔ (k, x) ∈ l.
Proof.
  induction l as [|[j y] l IH]; cbn [leaf_at]; intros Hn; [by rewrite elem_of_nil|].
  rewrite fmap_cons in Hn. apply NoDup_cons in Hn as [Hni Hn]. rewrite elem_of_cons.
  destruct (decide (j = k)) as [->|].
  - split; [intros [= ->]; by left|]. intros [[= ->]|Hin]; [done|]. destruct Hni.
    apply list_elem_of_fmap. by exists (k, x).
  - rewrite IH by done. naive_solver.
Qed.

Lemma subtree_snoc p b l : subtree (p ++ [b]) l = branch b (subtree p l).
Proof. unfold subtree. by rewrite foldl_app. Qed.
Lemma subtree_cons b p l : subtree (b :: p) l = subtree p (branch b l).
Proof. done. Qed.
Lemma subtree_wf p h l : length p ≤ h → leaves_wf h l → leaves_wf (h - length p) (subtree p l).
Proof.
  revert h l. induction p as [|b p IH]; intros h l Hp Hl; [by rewrite Nat.sub_0_r|].
  destruct h as [|h]; [cbn in Hp; lia|]. rewrite subtree_cons. apply IH; [cbn in Hp; lia|].
  by apply branch_wf.
Qed.
Lemma leaf_at_subtree p k l : leaf_at k (subtree p l) = leaf_at (p ++ k) l.
Proof.
  revert l. induction p as [|b p IH]; intros l; [done|]. rewrite subtree_cons, IH.
  apply leaf_at_branch.
Qed.
(** A new leaf is in the subtrees of the prefixes of its key only. *)
Lemma subtree_insert_on p k x l : subtree p ((p ++ k, x) :: l) = (k, x) :: subtree p l.
Proof.
  revert l. induction p as [|b p IH]; intros l; [done|]. rewrite !subtree_cons.
  rewrite <-app_comm_cons, branch_cons_eq. apply IH.
Qed.
Lemma subtree_insert_off p k x l :
  length p ≤ length k → take (length p) k ≠ p → subtree p ((k, x) :: l) = subtree p l.
Proof.
  revert k l. induction p as [|b p IH]; intros k l Hl Hne; [done|]. destruct k as [|c k]; [cbn in Hl; lia|].
  rewrite !subtree_cons. cbn in Hl, Hne. cbn [branch]. destruct (Bool.eqb_spec c b) as [->|]; [|done].
  apply IH; [lia|congruence].
Qed.
End Leaves.

Section Tree.
Context `{Sha256}.

(** The root hash of the tree of height [h] over [l], whose root is at depth
    [256 - h]. *)
Fixpoint tree_hash (h : nat) (l : leaves) : core string :=
  match l with
  | [] => empty_hash_of_height h
  | (_, x) :: _ =>
      match h with
      | O => Ok x
      | S h' =>
          a ← tree_hash h' (branch false l);
          b ← tree_hash h' (branch true l);
          command_index_node (COMMAND_INDEX_DEPTH - h) a b
      end
  end.
(** The siblings of the path with the remaining bits [k], from the leaf up. *)
Fixpoint tree_path (h : nat) (k : list bool) (l : leaves) : core (list string) :=
  match h, k with
  | S h', b :: k =>
      path ← tree_path h' k (branch b l);
      sibling ← tree_hash h' (branch (negb b) l);
      Ok (path ++ [sibling])
  | _, _ => Ok []
  end.
(** The hash at the leaf of a key. *)
Definition leaf_hash (k : list bool) (l : leaves) : core string :=
  match leaf_at k l with Some x => Ok x | None => empty_hash_of_height 0 end.

Lemma tree_hash_nil h : tree_hash h [] = empty_hash_of_height h.
Proof. by destruct h. Qed.
Lemma tree_hash_0 l : leaves_wf 0 l → tree_hash 0 l = leaf_hash [] l.
Proof.
  intros [Hf _]. destruct l as [|[k x] l]; [done|]. apply Forall_cons in Hf as [[Hk _] _].
  destruct k; [|done]. done.
Qed.

Lemma tree_hash_Ok h l :
  h ≤ COMMAND_INDEX_DEPTH → leaves_wf h l →
  ∃ r, tree_hash h l = Ok r ∧ is_sha256_id r = true.
Proof.
  revert l. induction h as [|h IH]; intros l Hh Hl.
  - destruct l as [|[k x] l]; [by apply empty_hash_Ok|]. destruct Hl as [Hf _].
    apply Forall_cons in Hf as [[_ Hx] _]. by exists x.
  - destruct l as [|[k x] l]; [by apply empty_hash_Ok|]. cbn [tree_hash].
    destruct (IH (branch false ((k, x) :: l))) as (a & -> & Ha); [lia|by apply branch_wf|].
    destruct (IH (branch true ((k, x) :: l))) as (b & -> & Hb); [lia|by apply branch_wf|].
    cbn [mbind result_bind]. eexists. split.
    + apply node_Ok. split_and!; [unfold COMMAND_INDEX_DEPTH in *; lia|done..].
    + apply binary_hash_valid.
Qed.
(** The tree without leaves satisfies the equation of a branch as well. *)
Lemma tree_hash_step h l :
  S h ≤ COMMAND_INDEX_DEPTH → leaves_wf (S h) l →
  tree_hash (S h) l =
    a ← tree_hash h (branch false l);
    b ← tree_hash h (branch true l);
    command_index_node (COMMAND_INDEX_DEPTH - S h) a b.
Proof.
  intros Hh _. destruct l as [|[k x] l]; [|done]. cbn [branch]. rewrite !tree_hash_nil.
  destruct (empty_hash_Ok h) as (e & He & _); [lia|]. rewrite (empty_hash_step h e) by done.
  by rewrite He.
Qed.

Lemma tree_path_Ok h k l :
  h ≤ COMMAND_INDEX_DEPTH → length k = h → leaves_wf h l →
  ∃ path, tree_path h k l = Ok path ∧ length path = h ∧ Forall (λ s, is_sha256_id s = true) path.
Proof.
  revert k l. induction h as [|h IH]; intros k l Hh Hk Hl; [by exists []|].
  destruct k as [|b k]; [done|]. injection Hk as Hk. cbn [tree_path].
  destruct (IH k (branch b l)) as (path & -> & Hp & Hf); [lia|done|by apply branch_wf|].
  destruct (tree_hash_Ok h (branch (negb b) l)) as (s & -> & Hs); [lia|by apply branch_wf|].
  cbn [mbind result_bind]. eexists. split; [done|]. split; [rewrite length_app; cbn; lia|].
  apply Forall_app. by repeat constructor.
Qed.
Lemma leaf_hash_Ok k l : Forall (λ x, is_sha256_id x.2 = true) l →
  ∃ x, leaf_hash k l = Ok x ∧ is_sha256_id x = true.
Proof.
  intros Hf. unfold leaf_hash. induction l as [|[j x] l IH]; [by apply (empty_hash_Ok 0), Nat.le_0_l|].
  cbn [leaf_at]. apply Forall_cons in Hf as [Hx Hf]. destruct (decide (j = k)); [by exists x|by apply IH].
Qed.

(** The order of the leaves does not matter. *)
Lemma tree_hash_perm h l l' : leaves_wf h l → l ≡ₚ l' → tree_hash h l = tree_hash h l'.
Proof.
  revert l l'. induction h as [|h IH]; intros l l' Hl Hp.
  - destruct l as [|[k x] [|[j y] l]].
    + by apply Permutation_nil in Hp as ->.
    + by apply Permutation_singleton_l in Hp as ->.
    + exfalso. destruct Hl as [Hf Hn]. apply Forall_cons in Hf as [[Hk _] Hf].
      apply Forall_cons in Hf as [[Hj _] _]. destruct k, j; [|done..].
      cbn in Hn. apply NoDup_cons in Hn as [Hn _]. by destruct Hn; left.
  - destruct l as [|x l]; [by apply Permutation_nil in Hp as ->|].
    destruct l' as [|y l']; [by apply Permutation_sym, Permutation_nil in Hp|].
    destruct x as [kx x], y as [ky y]. cbn [tree_hash].
    rewrite (IH (branch false _) (branch false ((ky, y) :: l'))), (IH (branch true _) (branch true ((ky, y) :: l')));
      try done; by (apply branch_wf || apply branch_perm).
Qed.
End Tree.
