(* ===== verification/SparseProof.v ===== *)
(** * Paths and proofs of the sparse tree

    The tree of [SparseTree] along the bits of a key: hashing the siblings of a
    path gives the root, and the nodes that an insertion records are those by
    which old and new paths differ.  Then the contents of the archived-command
    index as a list of commands with their values, and the proofs that describe
    them faithfully. *)

From S2P Require Import Prelude Identity CommandIndex IndexSound IndexUpdate CollectionHash.
From S2P Require Import SparseTree.

(** The leaves below the first [d] bits of [key]. *)
Definition sub (key : string) (d : nat) (l : leaves) : leaves := subtree (take d (index_bits key)) l.
Lemma sub_nil key d : sub key d [] = [].
Proof. unfold sub, subtree. by induction (take d (index_bits key)) as [|b k IH]. Qed.

Lemma depth_down_ind (P : nat → Prop) :
  P COMMAND_INDEX_DEPTH → (∀ d, d < COMMAND_INDEX_DEPTH → P (S d) → P d) →
  ∀ d, d ≤ COMMAND_INDEX_DEPTH → P d.
Proof.
  intros H0 HS d Hd. remember (COMMAND_INDEX_DEPTH - d) as h eqn:Hh. revert d Hd Hh.
  induction h as [|h IH]; intros d Hd Hh.
  - by replace d with COMMAND_INDEX_DEPTH by lia.
  - apply HS; [lia|]. apply IH; lia.
Qed.
Lemma height_S d : d < COMMAND_INDEX_DEPTH → COMMAND_INDEX_DEPTH - d = S (COMMAND_INDEX_DEPTH - S d).
Proof. lia. Qed.

Section Sub.
Lemma sub_0 key l : sub key 0 l = l.
Proof. done. Qed.
Lemma sub_S key d l :
  d < COMMAND_INDEX_DEPTH → sub key (S d) l = branch (command_index_bit key d) (sub key d l).
Proof. intros Hd. unfold sub. by rewrite take_S_bits, subtree_snoc. Qed.
Lemma sub_flip key d l :
  is_key key → d < COMMAND_INDEX_DEPTH →
  sub (flip_bit key d) (S d) l = branch (negb (command_index_bit key d)) (sub key d l).
Proof. intros Hk Hd. unfold sub. by rewrite flip_bits, subtree_snoc. Qed.
Lemma sub_wf key d l :
  d ≤ COMMAND_INDEX_DEPTH → leaves_wf COMMAND_INDEX_DEPTH l →
  leaves_wf (COMMAND_INDEX_DEPTH - d) (sub key d l).
Proof.
  intros Hd Hl. pose proof (subtree_wf (take d (index_bits key)) COMMAND_INDEX_DEPTH l) as Hs.
  rewrite length_take, index_bits_length, Nat.min_l in Hs by done. by apply Hs.
Qed.
Lemma sub_insert_on key d x l :
  sub key d ((index_bits key, x) :: l) = (drop d (index_bits key), x) :: sub key d l.
Proof.
  unfold sub. rewrite <-(take_drop d (index_bits key)) at 2. apply subtree_insert_on.
Qed.
Lemma sub_insert_off j key d x l :
  d ≤ COMMAND_INDEX_DEPTH → take d (index_bits key) ≠ take d (index_bits j) →
  sub j d ((index_bits key, x) :: l) = sub j d l.
Proof.
  intros Hd Hne. unfold sub. apply subtree_insert_off; rewrite length_take, !index_bits_length; [lia|].
  by rewrite Nat.min_l.
Qed.
Lemma flip_differs key d :
  is_key key → d < COMMAND_INDEX_DEPTH →
  take (S d) (index_bits key) ≠ take (S d) (index_bits (flip_bit key d)).
Proof.
  intros Hk Hd. rewrite flip_bits, take_S_bits by done. intros Heq. apply app_inv_head in Heq.
  revert Heq. by destruct (command_index_bit key d).
Qed.
(** The subtree at a prefix, in terms of the key that is the prefix. *)
Lemma sub_prefix j k d l :
  is_key j → is_key k → d ≤ COMMAND_INDEX_DEPTH →
  command_index_prefix j d = command_index_prefix k d → sub j d l = sub k d l.
Proof. unfold sub. intros Hj Hk Hd Hp. by apply prefix_eq in Hp as ->. Qed.
End Sub.

Section Path.
Context `{Sha256}.

Definition sub_hash (key : string) (d : nat) (l : leaves) : core string :=
  tree_hash (COMMAND_INDEX_DEPTH - d) (sub key d l).
Definition path_at (key : string) (d : nat) (l : leaves) : core (list string) :=
  tree_path (COMMAND_INDEX_DEPTH - d) (drop d (index_bits key)) (sub key d l).

Lemma sub_hash_Ok key d l :
  d ≤ COMMAND_INDEX_DEPTH → leaves_wf COMMAND_INDEX_DEPTH l →
  ∃ r, sub_hash key d l = Ok r ∧ is_sha256_id r = true.
Proof. intros Hd Hl. apply tree_hash_Ok; [lia|]. by apply sub_wf. Qed.
Lemma sub_hash_0 key l : sub_hash key 0 l = tree_hash COMMAND_INDEX_DEPTH l.
Proof. unfold sub_hash. by rewrite Nat.sub_0_r. Qed.
Lemma sub_hash_leaf key l :
  leaves_wf COMMAND_INDEX_DEPTH l →
  sub_hash key COMMAND_INDEX_DEPTH l = leaf_hash (index_bits key) l.
Proof.
  intros Hl. unfold sub_hash. pose proof (sub_wf key COMMAND_INDEX_DEPTH l ltac:(done) Hl) as Hw.
  rewrite Nat.sub_diag in *. rewrite tree_hash_0 by done. unfold leaf_hash, sub.
  rewrite leaf_at_subtree, app_nil_r, take_ge; [done|]. by rewrite index_bits_length.
Qed.
Lemma sub_hash_flip key d l :
  is_key key → d < COMMAND_INDEX_DEPTH →
  sub_hash (flip_bit key d) (S d) l
    = tree_hash (COMMAND_INDEX_DEPTH - S d) (branch (negb (command_index_bit key d)) (sub key d l)).
Proof. intros Hk Hd. unfold sub_hash. by rewrite sub_flip. Qed.
(** The hash at a node from the hashes of the child on the path and of its
    sibling. *)
Lemma sub_hash_step key d l :
  is_key key → d < COMMAND_INDEX_DEPTH → leaves_wf COMMAND_INDEX_DEPTH l →
  sub_hash key d l =
    c ← sub_hash key (S d) l;
    s ← sub_hash (flip_bit key d) (S d) l;
    if command_index_bit key d then command_index_node d s c else command_index_node d c s.
Proof.
  intros Hk Hd Hl. rewrite sub_hash_flip by done. unfold sub_hash. rewrite sub_S by done.
  pose proof (sub_wf key d l ltac:(lia) Hl) as Hw. rewrite (height_S d) in * by done.
  rewrite tree_hash_step by (done || lia). replace (COMMAND_INDEX_DEPTH - S (COMMAND_INDEX_DEPTH - S d))
    with d by lia.
  destruct (tree_hash_Ok (COMMAND_INDEX_DEPTH - S d) (branch false (sub key d l))) as (a & Ha & _);
    [lia|by apply branch_wf|].
  destruct (tree_hash_Ok (COMMAND_INDEX_DEPTH - S d) (branch true (sub key d l))) as (b & Hb & _);
    [lia|by apply branch_wf|].
  by destruct (command_index_bit key d); cbn [negb]; rewrite Ha, Hb.
Qed.

Lemma path_at_last key l : path_at key COMMAND_INDEX_DEPTH l = Ok [].
Proof. unfold path_at. by rewrite Nat.sub_diag. Qed.
Lemma path_at_step key d l :
  is_key key → d < COMMAND_INDEX_DEPTH →
  path_at key d l =
    path ← path_at key (S d) l; s ← sub_hash (flip_bit key d) (S d) l; Ok (path ++ [s]).
Proof.
  intros Hk Hd. rewrite sub_hash_flip by done. unfold path_at.
  rewrite (height_S d), drop_bits by done. cbn [tree_path]. by rewrite sub_S.
Qed.
Lemma path_at_Ok key d l :
  d ≤ COMMAND_INDEX_DEPTH → leaves_wf COMMAND_INDEX_DEPTH l →
  ∃ path, path_at key d l = Ok path ∧ length path = COMMAND_INDEX_DEPTH - d
    ∧ Forall (λ s, is_sha256_id s = true) path.
Proof.
  intros Hd Hl. apply tree_path_Ok; [lia| |by apply sub_wf].
  by rewrite length_drop, index_bits_length.
Qed.

(** Hashing the leaf of a key up its path gives the root of the tree. *)
Lemma hash_up_path key d l path leaf :
  is_key key → leaves_wf COMMAND_INDEX_DEPTH l → d ≤ COMMAND_INDEX_DEPTH →
  leaf_hash (index_bits key) l = Ok leaf → path_at key d l = Ok path →
  hash_up key COMMAND_INDEX_DEPTH leaf path = sub_hash key d l.
Proof.
  intros Hk Hl Hd Hleaf. revert d Hd path. refine (depth_down_ind _ _ _); [|intros d Hd IH]; intros path Hp.
  - rewrite path_at_last in Hp. injection Hp as <-. by rewrite sub_hash_leaf.
  - rewrite path_at_step in Hp by done. apply bind_Ok in Hp as (path' & Hp' & Hp).
    apply bind_Ok in Hp as (s & Hs & [= <-]). rewrite sub_hash_step, Hs by done.
    destruct (path_at_Ok key (S d) l) as (q & Hq & Hql & _); [lia|done|].
    rewrite Hp' in Hq. injection Hq as <-.
    rewrite hash_up_app, (IH _ Hp'), Hql by lia.
    destruct (sub_hash_Ok key (S d) l) as (c & -> & _); [lia|done|]. cbn [mbind result_bind].
    replace (COMMAND_INDEX_DEPTH - (COMMAND_INDEX_DEPTH - S d)) with (S d) by lia.
    cbn [hash_up]. by destruct (if _ : bool then _ else _).
Qed.

(** ** Insertion *)

Lemma leaf_hash_insert key x l : leaf_hash (index_bits key) ((index_bits key, x) :: l) = Ok x.
Proof. unfold leaf_hash. cbn [leaf_at]. by rewrite decide_True. Qed.
Lemma sub_hash_insert_off j key d x l :
  d ≤ COMMAND_INDEX_DEPTH → take d (index_bits key) ≠ take d (index_bits j) →
  sub_hash j d ((index_bits key, x) :: l) = sub_hash j d l.
Proof. intros Hd Hne. unfold sub_hash. by rewrite sub_insert_off. Qed.
Lemma path_at_insert key d x l :
  is_key key → d ≤ COMMAND_INDEX_DEPTH →
  path_at key d ((index_bits key, x) :: l) = path_at key d l.
Proof.
  intros Hk. revert d. refine (depth_down_ind _ _ _); [by rewrite !path_at_last|].
  intros d Hd IH. rewrite (path_at_step key d l), (path_at_step key d (_ :: l)), IH by done. destruct (path_at key (S d) l); [|done].
  cbn [mbind result_bind]. rewrite sub_hash_insert_off; [done|lia|by apply flip_differs].
Qed.

(** ** The nodes that an insertion replaces *)

(** [nodes] holds the hash of every subtree in which [l] differs from [l0]. *)
Definition nodes_ok (l0 l : leaves) (nodes : CommandIndexNodeUpdates) : Prop :=
  ∀ key d, is_key key → d ≤ COMMAND_INDEX_DEPTH →
  match nodes !! (d, command_index_prefix key d) with
  | Some r => sub_hash key d l = Ok r
  | None => sub key d l = sub key d l0
  end.

Lemma nodes_ok_refl l : nodes_ok l l ∅.
Proof. intros key d Hk Hd. by rewrite lookup_empty. Qed.
Lemma nodes_ok_union l0 l1 l2 n1 n2 :
  nodes_ok l0 l1 n1 → nodes_ok l1 l2 n2 → nodes_ok l0 l2 (n2 ∪ n1).
Proof.
  intros H1 H2 key d Hk Hd. specialize (H1 key d Hk Hd). specialize (H2 key d Hk Hd).
  rewrite lookup_union. destruct (n2 !! _), (n1 !! _); cbn in *; try done.
  - unfold sub_hash in *. by rewrite H2.
  - by rewrite H2, H1.
Qed.

Lemma rebase_siblings_app key nodes rem a b :
  rebase_siblings key nodes rem (a ++ b)
    = rebase_siblings key nodes rem a ++ rebase_siblings key nodes (rem - length a) b.
Proof.
  revert rem. induction a as [|s a IH]; intros rem; [by rewrite Nat.sub_0_r|].
  cbn [app rebase_siblings length]. rewrite IH. do 3 f_equal. lia.
Qed.
(** Rebasing the path of a key onto the new leaves gives its new path. *)
Lemma rebase_path key nodes l0 l path0 path d :
  is_key key → leaves_wf COMMAND_INDEX_DEPTH l0 → leaves_wf COMMAND_INDEX_DEPTH l →
  nodes_ok l0 l nodes → d ≤ COMMAND_INDEX_DEPTH →
  path_at key d l0 = Ok path0 → path_at key d l = Ok path →
  rebase_siblings key nodes COMMAND_INDEX_DEPTH path0 = path.
Proof.
  intros Hk Hl0 Hl Hn Hd. revert d Hd path0 path.
  refine (depth_down_ind _ _ _); [|intros d Hd IH]; intros path0 path Hp0 Hp.
  - rewrite path_at_last in *. by simplify_eq.
  - rewrite path_at_step in Hp0, Hp by done.
    apply bind_Ok in Hp0 as (p0 & Hp0 & Hs0), Hp as (p & Hp & Hs).
    apply bind_Ok in Hs0 as (s0 & Hs0 & [= <-]), Hs as (s & Hs & [= <-]).
    destruct (path_at_Ok key (S d) l0) as (q & Hq & Hql & _); [lia|done|].
    rewrite Hp0 in Hq. injection Hq as <-.
    rewrite rebase_siblings_app, (IH _ _ Hp0 Hp), Hql. f_equal. cbn [rebase_siblings].
    replace (COMMAND_INDEX_DEPTH - (COMMAND_INDEX_DEPTH - S d)) with (S d) by lia. cbn [pred].
    unfold command_index_sibling_address.
    specialize (Hn (flip_bit key d) (S d) (flip_key _ _ Hk) ltac:(lia)).
    destruct (nodes !! _) as [r|]; cbn [default from_option id].
    + rewrite Hs in Hn. by injection Hn as ->.
    + unfold sub_hash in Hs0, Hs. rewrite Hn, Hs0 in Hs. by injection Hs as ->.
Qed.

Lemma record_path_app key rem node a b nodes :
  length a ≤ rem →
  record_path key rem node (a ++ b) nodes =
    r ← record_path key rem node a nodes; record_path key (rem - length a) r.2 b r.1.
Proof.
  revert rem node nodes. induction a as [|s a IH]; intros rem node nodes Hl; [by rewrite Nat.sub_0_r|].
  destruct rem as [|rem]; [cbn in Hl; lia|]. cbn [app record_path length].
  destruct (if _ : bool then _ else _); cbn [mbind result_bind]; [|done]. apply IH. cbn in Hl. lia.
Qed.
(** What [record_path] has recorded when it is at depth [d]. *)
Definition recorded (key : string) (d : nat) (l : leaves) (nodes : CommandIndexNodeUpdates) : Prop :=
  ∀ d' q, match nodes !! (d', q) with
          | Some r => d ≤ d' ≤ COMMAND_INDEX_DEPTH ∧ q = command_index_prefix key d'
                      ∧ sub_hash key d' l = Ok r
          | None => ¬ (d ≤ d' ≤ COMMAND_INDEX_DEPTH ∧ q = command_index_prefix key d')
          end.
Lemma record_path_at key x l d path :
  is_key key → leaves_wf COMMAND_INDEX_DEPTH ((index_bits key, x) :: l) →
  d ≤ COMMAND_INDEX_DEPTH → path_at key d l = Ok path →
  ∃ nodes r, record_path key COMMAND_INDEX_DEPTH x path {[(COMMAND_INDEX_DEPTH, key) := x]}
      = Ok (nodes, r)
    ∧ sub_hash key d ((index_bits key, x) :: l) = Ok r
    ∧ recorded key d ((index_bits key, x) :: l) nodes.
Proof.
  intros Hk Hw Hd. set (new := _ :: l) in *. revert d Hd path.
  refine (depth_down_ind _ _ _); [|intros d Hd IH]; intros path Hp.
  - rewrite path_at_last in Hp. injection Hp as <-. cbn [record_path].
    assert (sub_hash key COMMAND_INDEX_DEPTH new = Ok x) as Hx.
    { rewrite sub_hash_leaf by done. apply leaf_hash_insert. }
    eexists _, x. split; [done|]. split; [done|]. intros d' q.
    destruct (decide ((d', q) = (COMMAND_INDEX_DEPTH, key))) as [[= -> ->]|Hne].
    + rewrite lookup_singleton_eq. by rewrite prefix_full.
    + rewrite lookup_singleton_ne by done. intros [Hd' ->]. apply Hne.
      assert (d' = COMMAND_INDEX_DEPTH) as -> by lia. by rewrite prefix_full.
  - pose proof (path_at_insert key (S d) x l Hk ltac:(lia)) as Hins.
    rewrite path_at_step in Hp by done. apply bind_Ok in Hp as (p & Hp & Hs).
    apply bind_Ok in Hs as (s & Hs & [= <-]).
    destruct (IH p Hp) as (nodes & r & Hr & Hsub & Hrec).
    destruct (path_at_Ok key (S d) new) as (q & Hq & Hql & _); [lia|done|].
    unfold new in Hq. rewrite Hins, Hp in Hq. injection Hq as <-.
    rewrite record_path_app, Hr, Hql by lia. cbn [mbind result_bind fst snd].
    replace (COMMAND_INDEX_DEPTH - (COMMAND_INDEX_DEPTH - S d)) with (S d) by lia.
    cbn [record_path].
    assert (sub_hash (flip_bit key d) (S d) new = Ok s) as Hs'.
    { unfold new. rewrite sub_hash_insert_off; [done|lia|by apply flip_differs]. }
    destruct (sub_hash_Ok key d new) as (r' & Hr' & _); [lia|done|].
    pose proof Hr' as Hstep. rewrite sub_hash_step, Hsub, Hs' in Hstep by done.
    cbn [mbind result_bind] in Hstep. rewrite Hstep. cbn [mbind result_bind].
    eexists _, r'. split; [done|]. split; [done|]. intros d' q.
    destruct (decide ((d', q) = (d, command_index_prefix key d))) as [[= -> ->]|Hne].
    + rewrite lookup_insert_eq. split_and!; [lia..|done|done].
    + rewrite lookup_insert_ne by congruence. specialize (Hrec d' q).
      destruct (nodes !! (d', q)) as [v|]; [naive_solver lia|].
      intros [Hd' ->]. apply Hrec. split; [|done].
      assert (d' ≠ d) by congruence. lia.
Qed.
Lemma recorded_ok key x l nodes :
  is_key key → recorded key 0 ((index_bits key, x) :: l) nodes →
  nodes_ok l ((index_bits key, x) :: l) nodes.
Proof.
  intros Hk Hr j d Hj Hd. specialize (Hr d (command_index_prefix j d)).
  destruct (nodes !! _) as [r|].
  - destruct Hr as (_ & Hp & Hr). unfold sub_hash in *. by rewrite (sub_prefix j key).
  - apply sub_insert_off; [done|]. intros Heq. apply Hr. split; [lia|]. by apply prefix_eq.
Qed.
End Path.

Abbreviation contents := (list (string * MachineCommandIndexValue)).

Section Contents.
Context `{Sha256}.

Definition item_leaf (c : string * MachineCommandIndexValue) : core (list bool * string) :=
  key ← command_index_key c.1;
  leaf ← command_index_member_leaf key c.1 c.2;
  Ok (index_bits key, leaf).
Definition contents_leaves (c : contents) : core leaves := try_map item_leaf c.
(** The root that authenticates the contents. *)
Definition index_root (c : contents) : core string :=
  l ← contents_leaves c; tree_hash COMMAND_INDEX_DEPTH l.

(** The command whose key has the given bits, and the input of its leaf. *)
Fixpoint occupant (bits : list bool) (c : contents)
    : option (string * (string * MachineCommandIndexValue)) :=
  match c with
  | [] => None
  | x :: c =>
      match command_index_key x.1 with
      | Ok key => if decide (index_bits key = bits) then Some (key, x) else occupant bits c
      | Err _ => occupant bits c
      end
  end.
Definition slot_input (bits : list bool) (c : contents) : string :=
  match occupant bits c with
  | Some (key, (cid, v)) => member_input key cid v
  | None => empty_input
  end.

(** The contents have well-formed leaves under keys without duplicates. *)
Definition contents_wf (c : contents) (l : leaves) : Prop := contents_leaves c = Ok l ∧ NoDup l.*1.

Lemma key_is_key cid key : command_index_key cid = Ok key → is_key key.
Proof.
  unfold command_index_key. intros Hk. inv_ok. apply is_key_len.
  unfold decode_command_index_hash in *. inv_ok. by apply sha256_id_payload_len.
Qed.
Lemma key_identity cid key :
  command_index_key cid = Ok key → validate_identity cid = Ok () ∧ (byte_len cid <= 4294967295)%N.
Proof. unfold command_index_key. intros Hk. inv_ok. by to_prop. Qed.
Lemma item_leaf_Ok cid v leaf :
  item_leaf (cid, v) = Ok leaf ↔
  ∃ key, command_index_key cid = Ok key ∧ IndexValue_verify v = Ok ()
    ∧ leaf = (index_bits key, input_hash (member_input key cid v)).
Proof.
  unfold item_leaf. cbn [fst snd]. split.
  - intros Hl. inv_ok. eexists. split; [done|].
    match goal with Hm : command_index_member_leaf _ _ _ = Ok _ |- _ =>
      pose proof (member_leaf_Ok _ _ _ _ Hm) as ->; rename Hm into Hleaf end.
    split; [|done]. unfold command_index_member_leaf, decode_command_index_hash in Hleaf.
    unfold IndexValue_verify. inv_ok. by repeat match goal with Hx : is_sha256_id _ = true |- _ =>
      rewrite Hx; clear Hx end.
  - intros (key & Hk & Hv & ->). rewrite Hk. cbn [mbind result_bind].
    apply key_identity in Hk as [_ Hl]. by rewrite member_leaf_valid.
Qed.
Lemma contents_cons cid v c l :
  contents_leaves ((cid, v) :: c) = Ok l ↔
  ∃ key l', command_index_key cid = Ok key ∧ IndexValue_verify v = Ok ()
    ∧ contents_leaves c = Ok l' ∧ l = (index_bits key, input_hash (member_input key cid v)) :: l'.
Proof.
  unfold contents_leaves. cbn [try_map]. split.
  - intros (leaf & Hl & Hc)%bind_Ok. apply bind_Ok in Hc as (l' & Hc & [= <-]).
    apply item_leaf_Ok in Hl as (key & Hk & Hv & ->). by exists key, l'.
  - intros (key & l' & Hk & Hv & Hc & ->).
    assert (item_leaf (cid, v) = Ok (index_bits key, input_hash (member_input key cid v))) as ->
      by (apply item_leaf_Ok; eauto).
    cbn [mbind result_bind]. by rewrite Hc.
Qed.

Lemma contents_wf_leaves c l : contents_wf c l → leaves_wf COMMAND_INDEX_DEPTH l.
Proof.
  intros [Hc Hn]. split; [|done]. clear Hn. revert l Hc. induction c as [|[cid v] c IH]; intros l Hc.
  - injection Hc as <-. constructor.
  - apply contents_cons in Hc as (key & l' & Hk & _ & Hc & ->). constructor; [|by apply IH].
    split; [apply (index_bits_length key)|apply binary_hash_valid].
Qed.
Lemma leaf_hash_slot c l bits :
  contents_leaves c = Ok l → leaf_hash bits l = Ok (input_hash (slot_input bits c)).
Proof.
  revert l. induction c as [|[cid v] c IH]; intros l Hc.
  - by injection Hc as <-.
  - apply contents_cons in Hc as (key & l' & Hk & _ & Hc & ->).
    unfold slot_input, leaf_hash in *. cbn [leaf_at occupant fst]. rewrite Hk.
    destruct (decide (index_bits key = bits)); [done|]. by apply IH.
Qed.
Lemma index_root_Ok c l : contents_wf c l → ∃ r, index_root c = Ok r ∧ is_sha256_id r = true.
Proof.
  intros Hw. unfold index_root. destruct Hw as [Hc Hn]. rewrite Hc. cbn [mbind result_bind].
  apply tree_hash_Ok; [done|]. by eapply contents_wf_leaves.
Qed.
Lemma index_root_hash c l key : contents_leaves c = Ok l → index_root c = sub_hash key 0 l.
Proof. intros Hc. unfold index_root. rewrite Hc. cbn [mbind result_bind]. by rewrite sub_hash_0. Qed.

(** ** Faithful proofs *)

Record faithful (p : MachineCommandIndexProof) (c : contents) (l : leaves) (key : string) : Prop := {
  ff_key : command_index_key (ip_command_id p) = Ok key;
  ff_shape : ∃ depth, validate_shape p = Ok depth;
  ff_path : ∃ path, path_at key 0 l = Ok path ∧ full_path p = Ok path;
  ff_leaf : leaf_input key p = slot_input (index_bits key) c;
}.

Lemma faithful_root p c l key :
  contents_wf c l → faithful p c l key → IndexProof_root p = index_root c.
Proof.
  intros Hw [Hk [depth Hs] (path & Hp & Hfp) Hleaf].
  destruct (IndexProof_root_eq p key depth Hs Hk) as (path' & Hp' & _ & ->).
  rewrite Hfp in Hp'. injection Hp' as <-. destruct Hw as [Hc Hn].
  rewrite (index_root_hash c l key Hc), Hleaf.
  apply hash_up_path; [by eapply key_is_key|by eapply contents_wf_leaves|lia| |done].
  by apply leaf_hash_slot.
Qed.
Lemma faithful_verifies p c l key root :
  contents_wf c l → faithful p c l key → index_root c = Ok root → IndexProof_verify p root = Ok ().
Proof.
  intros Hw Hf Hr. destruct (index_root_Ok c l Hw) as (r & Hr' & Hid). rewrite Hr in Hr'.
  injection Hr' as <-. destruct (ff_shape _ _ _ _ Hf) as [depth Hs].
  eapply verify_of_root; [done| |done]. by erewrite faithful_root.
Qed.
(** ** Membership *)

Lemma member_input_full_inj j k cid did v w :
  command_index_key cid = Ok j → command_index_key did = Ok k →
  IndexValue_verify v = Ok () → IndexValue_verify w = Ok () →
  member_input j cid v = member_input k did w → cid = did ∧ v = w.
Proof.
  intros Hj Hk Hv Hw Heq. pose proof (key_identity _ _ Hj) as [_ Hjl].
  pose proof (key_identity _ _ Hk) as [_ Hkl].
  assert (j = k ∧ cid = did) as [-> ->]; [|split; [done|by eapply member_input_inj]].
  unfold member_input in Heq. apply binary_input_inj in Heq.
  apply append_inj in Heq as [-> Heq].
  2:{ apply key_is_key in Hj, Hk. unfold is_key in *. by rewrite !byte_len_list, Hj, Hk. }
  apply append_inj in Heq as [Hl Heq]; [|by rewrite !to_be_bytes_len].
  apply to_be_bytes_inj in Hl; [|cbn; lia..]. by apply append_inj in Heq as [-> _].
Qed.
Lemma occupant_Some bits c key cid v :
  occupant bits c = Some (key, (cid, v)) →
  (cid, v) ∈ c ∧ command_index_key cid = Ok key ∧ index_bits key = bits.
Proof.
  induction c as [|[did w] c IH]; cbn [occupant fst]; [done|]. rewrite elem_of_cons.
  destruct (command_index_key did) as [k|] eqn:Hk; [|intros ?%IH; tauto].
  destruct (decide (index_bits k = bits)); [|intros ?%IH; tauto]. intros [= -> -> ->]. auto.
Qed.
Lemma occupant_None bits c cid v key :
  occupant bits c = None → (cid, v) ∈ c → command_index_key cid = Ok key → index_bits key ≠ bits.
Proof.
  induction c as [|[did w] c IH]; cbn [occupant fst]; intros Ho Hin Hk; [by apply elem_of_nil in Hin|].
  apply elem_of_cons in Hin as [[= -> ->]|Hin].
  - rewrite Hk in Ho. by destruct (decide (index_bits key = bits)).
  - apply IH; [|done|done]. destruct (command_index_key did) as [k|]; [|done].
    by destruct (decide (index_bits k = bits)).
Qed.
Lemma contents_value c l cid v : contents_leaves c = Ok l → (cid, v) ∈ c → IndexValue_verify v = Ok ().
Proof.
  revert l. induction c as [|[did w] c IH]; intros l Hc Hin; [by apply elem_of_nil in Hin|].
  apply contents_cons in Hc as (key & l' & _ & Hv & Hc & _).
  apply elem_of_cons in Hin as [[= -> ->]|Hin]; [done|by eapply IH].
Qed.

(** A faithful proof states the value that the contents have for its command. *)
Lemma faithful_member p c l key v :
  contents_wf c l → faithful p c l key → ip_value p = Some v → (ip_command_id p, v) ∈ c.
Proof.
  intros [Hc _] [Hk [depth Hs] _ Hleaf] Hv. apply validate_shape_Ok in Hs as (_ & _ & _ & Hs).
  unfold leaf_input in Hleaf. rewrite Hv in *. destruct Hs as (_ & Hver & _). unfold slot_input in Hleaf.
  destruct (occupant _ c) as [[k [did w]]|] eqn:Ho; [|by apply member_is_not_empty in Hleaf].
  apply occupant_Some in Ho as (Hin & Hkd & _). pose proof (contents_value _ _ _ _ Hc Hin) as Hw.
  by destruct (member_input_full_inj _ _ _ _ _ _ Hk Hkd Hver Hw Hleaf) as [-> ->].
Qed.
Lemma faithful_absent p c l key v :
  contents_wf c l → faithful p c l key → ip_value p = None → (ip_command_id p, v) ∉ c.
Proof.
  intros _ [Hk _ _ Hleaf] Hv Hin. unfold leaf_input, slot_input in Hleaf. rewrite Hv in Hleaf.
  destruct (occupant _ c) as [[k [did w]]|] eqn:Ho; [by apply (member_is_not_empty k did w)|].
  by eapply occupant_None in Ho.
Qed.
Lemma faithful_fresh p c l key :
  contents_wf c l → faithful p c l key → ip_value p = None → index_bits key ∉ l.*1.
Proof.
  intros [Hc _] [_ _ _ Hleaf] Hv. apply leaf_at_None. unfold leaf_input, slot_input in Hleaf.
  rewrite Hv in Hleaf. destruct (occupant _ c) as [[k [did w]]|] eqn:Ho;
    [exfalso; by eapply member_is_not_empty|]. clear Hv Hleaf. revert l Hc Ho.
  induction c as [|[did w] c IH]; intros l Hc Ho; [by injection Hc as <-|].
  apply contents_cons in Hc as (k & l' & Hk & _ & Hc & ->). cbn [occupant fst leaf_at] in *.
  rewrite Hk in Ho. destruct (decide (index_bits k = index_bits key)); [done|]. by apply IH.
Qed.
End Contents.
