(* ===== verification/SparseSound.v ===== *)
(** * Updates and soundness of the command index

    Compression, rebasing and insertion of proofs of the archived-command index
    of [crates/cymule-core/src/machine.rs] give the faithful proofs for the new
    contents.  When the hash inputs of the tree and of a proof do not collide, a
    proof that verifies against the root of the contents is faithful to them,
    and only the empty subtree has the hash of the empty subtree. *)

From S2P Require Import Prelude Identity CommandIndex IndexSound IndexUpdate CollectionHash.
From S2P Require Import SparseTree SparseProof.

Section Update.
Context `{Sha256}.

(** ** Materialisation and compression *)

(** The full-depth form of a well-formed proof. *)
Lemma materialized_Ok p depth :
  validate_shape p = Ok depth →
  ∃ m path, materialized p = Ok m ∧ full_path p = Ok path ∧ siblings m = path
    ∧ length path = COMMAND_INDEX_DEPTH ∧ Forall (λ s, is_sha256_id s = true) path
    ∧ match ip_value p with
      | Some _ => m = p
      | None => m = absence_proof COMMAND_INDEX_PROOF_VERSION (ip_command_id p)
                      COMMAND_INDEX_DEPTH path
      end.
Proof.
  intros Hs. pose proof (validate_shape_Ok _ _ Hs) as (Hlen & Hle & Hf & Hv).
  unfold materialized, full_path. rewrite Hs. cbn [mbind result_bind].
  destruct (ip_value p) as [v|] eqn:Hval.
  - destruct Hv as (-> & _). rewrite bool_decide_eq_true_2 by eauto. eauto 10.
  - rewrite bool_decide_eq_false_2 by (by intros []). rewrite Hlen.
    destruct (omitted_Ok depth Hle) as (om & Hom & Homl & Homf). cbn [orb].
    destruct (Nat.eqb_spec depth COMMAND_INDEX_DEPTH) as [->|Hne]; rewrite Hom; cbn [mbind result_bind].
    + rewrite Nat.sub_diag in Homl. destruct om; [|done]. cbn [app]. do 2 eexists.
      split_and!; [done..|]. unfold validate_shape, validate_shape_syntax in Hs. inv_ok. to_prop.
      destruct p as [ver cid val ed sib]. cbn in *. subst. by inv_ok.
    + do 2 eexists. split_and!; [done..| | |done].
      * rewrite length_app. lia.
      * by apply Forall_app.
Qed.

Lemma count_empty_spec es l :
  count_empty es l ≤ length l ∧ take (count_empty es l) l = take (count_empty es l) es
  ∧ ∀ s, l !! count_empty es l = Some s → es !! count_empty es l ≠ Some s.
Proof.
  revert es. induction l as [|s l IH]; intros es; cbn [count_empty].
  { split; [lia|]. split; [done|]. intros s Hs. by cbn in Hs. }
  destruct es as [|e es]; [split; [cbn; lia|]; by split|]. destruct (bool_decide_reflect (s = e)) as [->|Hne].
  - destruct (IH es) as (Hle & Ht & Hn). cbn [length take lookup list_lookup].
    split; [lia|]. split; [by rewrite Ht|done].
  - split; [cbn; lia|]. split; [done|]. cbn. congruence.
Qed.

Lemma absence_syntax cid d q :
  validate_identity cid = Ok () → d ≤ COMMAND_INDEX_DEPTH → length q = d →
  Forall (λ s, is_sha256_id s = true) q →
  validate_shape_syntax (absence_proof COMMAND_INDEX_PROOF_VERSION cid d q) = Ok d.
Proof.
  intros Hid Hd Hq Hqf. unfold validate_shape_syntax, absence_proof.
  cbn [proof_version ip_command_id ip_value empty_depth siblings].
  rewrite bool_decide_eq_true_2, Hid, Nat2N.id, Hq, Nat.eqb_refl by done.
  cbn [require mbind result_bind]. rewrite (proj2 (Nat.leb_le _ _) Hd). cbn [andb require mbind result_bind].
  by rewrite (proj2 (forallb_Forall is_sha256_id q)).
Qed.
Lemma absence_shape cid d q :
  validate_identity cid = Ok () → d ≤ COMMAND_INDEX_DEPTH → length q = d →
  Forall (λ s, is_sha256_id s = true) q →
  (∀ s e, head q = Some s → empty_hash_of_height (COMMAND_INDEX_DEPTH - d) = Ok e → s ≠ e) →
  validate_shape (absence_proof COMMAND_INDEX_PROOF_VERSION cid d q) = Ok d.
Proof.
  intros Hid Hd Hq Hqf Hh. unfold validate_shape. rewrite absence_syntax by done.
  cbn [mbind result_bind ip_value absence_proof siblings]. rewrite bool_decide_eq_true_2 by done.
  destruct (0 <? d); [|done]. cbn [andb]. unfold command_index_empty_hash.
  destruct (empty_hash_Ok (COMMAND_INDEX_DEPTH - d)) as (e & He & _); [lia|]. rewrite He.
  cbn [mbind result_bind]. rewrite bool_decide_eq_false_2; [done|]. intros Hs. by apply (Hh e e).
Qed.

(** Compressing a full-depth proof of absence keeps its path. *)
Lemma compress_absence cid path :
  validate_identity cid = Ok () → length path = COMMAND_INDEX_DEPTH →
  Forall (λ s, is_sha256_id s = true) path →
  ∃ q depth, compress_nonmembership
      (absence_proof COMMAND_INDEX_PROOF_VERSION cid COMMAND_INDEX_DEPTH path) = Ok q
    ∧ validate_shape q = Ok depth ∧ full_path q = Ok path
    ∧ ip_command_id q = cid ∧ ip_value q = None.
Proof.
  intros Hid Hl Hf. destruct empty_hashes_Ok as (es & Hes & Hmap).
  pose proof (absence_syntax cid) as Hsyn.
  unfold compress_nonmembership. cbn [ip_value absence_proof].
  rewrite bool_decide_eq_false_2 by (by intros []). rewrite Hsyn by done.
  cbn [mbind result_bind]. rewrite Nat.eqb_refl, Hes. cbn [mbind result_bind].
  change (siblings (absence_proof _ _ _ path)) with path.
  change (proof_version (absence_proof ?v _ _ _)) with v.
  change (ip_command_id (absence_proof _ ?i _ _)) with i.
  destruct (count_empty_spec es path) as (Hn & Htake & Hhead). set (n := count_empty es path) in *.
  assert (∀ i, i ≤ COMMAND_INDEX_DEPTH → ∃ e, es !! i = Some e ∧ empty_hash_of_height i = Ok e) as Hlook.
  { intros i Hi. destruct (empty_hash_Ok i Hi) as (e & He & _). exists e. split; [|done].
    apply try_map_Ok in Hmap. eapply Forall2_lookup_l in Hmap as (e' & -> & He');
      [|apply lookup_seq_lt; lia]. cbn in He'. congruence. }
  assert (validate_shape (absence_proof COMMAND_INDEX_PROOF_VERSION cid (COMMAND_INDEX_DEPTH - n)
    (drop n path)) = Ok (COMMAND_INDEX_DEPTH - n)) as Hq.
  { apply absence_shape; [done|lia|rewrite length_drop; lia|by apply Forall_drop|].
    intros s e Hs. replace (COMMAND_INDEX_DEPTH - (COMMAND_INDEX_DEPTH - n)) with n by lia.
    destruct (Hlook n) as (e' & Hee & ->); [lia|]. intros [= ->] ->.
    rewrite head_lookup, lookup_drop, Nat.add_0_r in Hs. by apply (Hhead e). }
  rewrite Hq. cbn [mbind result_bind]. eexists _, _. split; [done|]. split; [exact Hq|].
  split; [|done]. unfold full_path. cbn [ip_value absence_proof siblings].
  unfold omitted_siblings. rewrite Hes, length_drop, Hl. cbn [mbind result_bind].
  replace (COMMAND_INDEX_DEPTH - (COMMAND_INDEX_DEPTH - n)) with n by lia.
  by rewrite <-Htake, take_drop.
Qed.

(** ** Rebasing *)

Lemma faithful_path p c l key :
  faithful p c l key → ∃ depth m path, validate_shape p = Ok depth ∧ materialized p = Ok m
    ∧ full_path p = Ok path ∧ path_at key 0 l = Ok path ∧ siblings m = path
    ∧ match ip_value p with
      | Some _ => m = p
      | None => m = absence_proof COMMAND_INDEX_PROOF_VERSION (ip_command_id p)
                      COMMAND_INDEX_DEPTH path
      end.
Proof.
  intros [_ [depth Hs] (path & Hp & Hfp) _]. exists depth.
  destruct (materialized_Ok p depth Hs) as (m & path' & Hm & Hfp' & Hms & _ & _ & Hmv).
  rewrite Hfp in Hfp'. injection Hfp' as <-. exists m, path. auto 10.
Qed.

Lemma rebase_faithful p c l c' l' key nodes r r' :
  contents_wf c l → contents_wf c' l' → faithful p c l key → nodes_ok l l' nodes →
  slot_input (index_bits key) c' = slot_input (index_bits key) c →
  index_root c = Ok r → index_root c' = Ok r' →
  ∃ q, rebase_command_index_proof p r r' nodes = Ok q ∧ faithful q c' l' key
    ∧ ip_command_id q = ip_command_id p ∧ ip_value q = ip_value p.
Proof.
  intros Hw Hw' Hff Hn Hslot Hr Hr'. pose proof (faithful_verifies _ _ _ _ _ Hw Hff Hr) as Hver.
  destruct (faithful_path _ _ _ _ Hff) as (depth & m & path & Hs & Hm & Hfp & Hp & Hms & Hmv).
  destruct Hff as [Hk _ _ Hleaf]. pose proof (key_is_key _ _ Hk) as Hkey.
  pose proof (contents_wf_leaves _ _ Hw) as Hl. pose proof (contents_wf_leaves _ _ Hw') as Hl'.
  destruct (path_at_Ok key 0 l') as (path' & Hp' & Hpl' & Hpf'); [lia|done|].
  rewrite Nat.sub_0_r in Hpl'. unfold rebase_command_index_proof. rewrite Hver. cbn [mbind result_bind].
  rewrite Hk. cbn [mbind result_bind]. rewrite Hm. cbn [mbind result_bind].
  rewrite Hms, (rebase_path key nodes l l' path path' 0) by (done || lia).
  assert (∃ q depth', compress_nonmembership (set_siblings path' m) = Ok q
    ∧ validate_shape q = Ok depth' ∧ full_path q = Ok path'
    ∧ ip_command_id q = ip_command_id p ∧ ip_value q = ip_value p) as (q & depth' & Hq & Hqs & Hqp & Hqc & Hqv).
  { destruct (ip_value p) as [v|] eqn:Hv.
    - subst m. exists (set_siblings path' p), COMMAND_INDEX_DEPTH.
      assert (validate_shape (set_siblings path' p) = Ok COMMAND_INDEX_DEPTH) as Hshape.
      { destruct (shape_head p depth Hs) as [Hver' Hid].
        pose proof (validate_shape_Ok _ _ Hs) as (_ & _ & _ & Hval). rewrite Hv in Hval.
        destruct Hval as (_ & Hval & Hed).
        pose proof (inserted_shape p v path' Hid Hval Hpl' Hpf') as Hins.
        unfold set_siblings. by rewrite Hver', Hv, Hed. }
      split; [|split; [exact Hshape|]].
      + unfold compress_nonmembership. rewrite Hshape.
        change (ip_value (set_siblings path' p)) with (ip_value p). by rewrite Hv.
      + split; [|by split]. unfold full_path. change (ip_value (set_siblings path' p)) with (ip_value p).
        by rewrite Hv.
    - subst m. destruct (compress_absence (ip_command_id p) path') as (q & d & Hq & Hqs & Hqp & Hqc & Hqv);
        [by apply key_identity in Hk as [? _]|done|done|]. by exists q, d. }
  rewrite Hq. cbn [mbind result_bind].
  assert (faithful q c' l' key) as Hfq.
  { split; [by rewrite Hqc|eauto|eauto|]. rewrite Hslot, <-Hleaf. unfold leaf_input. by rewrite Hqv, Hqc. }
  rewrite (faithful_verifies _ _ _ _ _ Hw' Hfq Hr'). cbn [mbind result_bind]. by exists q.
Qed.

(** ** Insertion *)

Lemma slot_insert_ne bits cid v c key :
  command_index_key cid = Ok key → index_bits key ≠ bits →
  slot_input bits ((cid, v) :: c) = slot_input bits c.
Proof. intros Hk Hne. unfold slot_input. cbn [occupant fst]. by rewrite Hk, decide_False. Qed.
Lemma slot_insert_eq cid v c key :
  command_index_key cid = Ok key → slot_input (index_bits key) ((cid, v) :: c) = member_input key cid v.
Proof. intros Hk. unfold slot_input. cbn [occupant fst]. by rewrite Hk, decide_True. Qed.

Lemma root_with_value_eq p v key depth path :
  validate_shape p = Ok depth → command_index_key (ip_command_id p) = Ok key →
  ip_value p = None → IndexValue_verify v = Ok () → full_path p = Ok path →
  root_with_value p (Some v)
    = hash_up key COMMAND_INDEX_DEPTH (input_hash (member_input key (ip_command_id p) v)) path.
Proof.
  intros Hs Hk Hn Hv Hp. pose proof (validate_shape_Ok _ _ Hs) as (Hlen & Hle & _ & _).
  unfold root_with_value. rewrite Hs, Hk, Hn, Hv. cbn [mbind result_bind].
  rewrite member_leaf_valid by (done || by apply key_identity in Hk as [_ ?]). cbn [mbind result_bind].
  unfold full_path in Hp. rewrite Hn, Hlen in Hp. destruct (omitted_Ok depth Hle) as (om & Hom & Homl & _).
  rewrite Hom in *. cbn [mbind result_bind] in *. injection Hp as <-.
  rewrite hash_up_app by lia. rewrite Homl.
  by replace (COMMAND_INDEX_DEPTH - (COMMAND_INDEX_DEPTH - depth)) with depth by lia.
Qed.

(** Inserting the value of an absent command gives the root of the extended
    contents and records the nodes in which the two trees differ. *)
Lemma insert_faithful p c l key v :
  contents_wf c l → faithful p c l key → ip_value p = None → IndexValue_verify v = Ok () →
  ∃ l' nodes r path, contents_wf ((ip_command_id p, v) :: c) l'
    ∧ record_command_index_member_update p v = Ok (nodes, r)
    ∧ root_with_value p (Some v) = Ok r
    ∧ index_root ((ip_command_id p, v) :: c) = Ok r
    ∧ nodes_ok l l' nodes ∧ full_path p = Ok path
    ∧ faithful (inserted_proof p v path) ((ip_command_id p, v) :: c) l' key.
Proof.
  intros Hw Hff Hn Hv. pose proof (faithful_fresh _ _ _ _ Hw Hff Hn) as Hfresh.
  destruct (faithful_path _ _ _ _ Hff) as (depth & m & path & Hs & Hm & Hfp & Hp & Hms & Hmv).
  destruct Hff as [Hk _ _ _]. pose proof (key_is_key _ _ Hk) as Hkey. rewrite Hn in Hmv.
  set (x := input_hash (member_input key (ip_command_id p) v)).
  assert (contents_wf ((ip_command_id p, v) :: c) ((index_bits key, x) :: l)) as Hw'.
  { destruct Hw as [Hc Hnd]. split; [by apply contents_cons; eauto 10|]. cbn. by constructor. }
  pose proof (contents_wf_leaves _ _ Hw') as Hl'.
  destruct (record_path_at key x l 0 path) as (nodes & r & Hrec & Hr & Hok); [done|done|lia|done|].
  assert (index_root ((ip_command_id p, v) :: c) = Ok r) as Hroot.
  { destruct Hw' as [Hc' _]. by rewrite (index_root_hash _ _ key Hc'). }
  assert (root_with_value p (Some v) = Ok r) as Hrv.
  { erewrite root_with_value_eq by done. rewrite <-Hr. apply hash_up_path; [done|done|lia| |].
    - apply leaf_hash_insert.
    - rewrite path_at_insert by (done || lia). done. }
  destruct (inserted_proof_verifies p v r Hn Hrv) as (path' & Hfp' & Hver).
  rewrite Hfp in Hfp'. injection Hfp' as <-.
  exists ((index_bits key, x) :: l), nodes, r, path. split_and!; [done| |done|done| |done|].
  - unfold record_command_index_member_update. rewrite Hm, Hmv. cbn [mbind result_bind ip_command_id absence_proof].
    rewrite Hk. cbn [mbind result_bind]. rewrite member_leaf_valid by (done || by apply key_identity in Hk as [_ ?]).
    cbn [mbind result_bind siblings]. done.
  - by apply recorded_ok.
  - split; [done| | |].
    + unfold IndexProof_verify in Hver. apply bind_Ok in Hver as (d & Hd & _). eauto.
    + exists path. split; [by rewrite path_at_insert by (done || lia)|done].
    + unfold leaf_input. cbn [ip_value inserted_proof ip_command_id]. by rewrite (slot_insert_eq _ _ _ _ Hk).
Qed.
End Update.

Section Sound.
Context `{Sha256}.

(** ** The hash inputs of a tree *)

(** The root of a tree with the inputs of its branches; [es] are the hashes of
    the empty subtrees by height. *)
Fixpoint tree_trace (es : list string) (h : nat) (l : leaves) : core (string * list string) :=
  match l with
  | [] => e ← ok_or (es !! h) Panic; Ok (e, [])
  | (_, x) :: _ =>
      match h with
      | O => Ok (x, [])
      | S h' =>
          a ← tree_trace es h' (branch false l);
          b ← tree_trace es h' (branch true l);
          n ← command_index_node (COMMAND_INDEX_DEPTH - h) a.1 b.1;
          Ok (n, node_input (COMMAND_INDEX_DEPTH - h) a.1 b.1 :: a.2 ++ b.2)
      end
  end.
Definition empty_inputs (es : list string) : list string :=
  empty_input :: imap (λ h e, node_input (COMMAND_INDEX_DEPTH - S h) e e) es.
Definition member_inputs (c : contents) : list string :=
  c ≫= λ x, match command_index_key x.1 with
            | Ok key => [member_input key x.1 x.2]
            | Err _ => []
            end.
(** Everything that is hashed for the tree over [c]. *)
Definition tree_inputs (c : contents) : list string :=
  match contents_leaves c, command_index_empty_hashes with
  | Ok l, Ok es =>
      match tree_trace es COMMAND_INDEX_DEPTH l with
      | Ok t => empty_inputs es ++ member_inputs c ++ t.2
      | Err _ => []
      end
  | _, _ => []
  end.

Definition empty_table (es : list string) : Prop :=
  ∀ h, h ≤ COMMAND_INDEX_DEPTH → ∃ e, es !! h = Some e ∧ empty_hash_of_height h = Ok e.
Lemma empty_table_Ok : ∃ es, command_index_empty_hashes = Ok es ∧ empty_table es.
Proof.
  destruct empty_hashes_Ok as (es & Hes & Hmap). exists es. split; [done|]. intros h Hh.
  destruct (empty_hash_Ok h Hh) as (e & He & _). exists e. split; [|done].
  apply try_map_Ok in Hmap. eapply Forall2_lookup_l in Hmap as (e' & -> & He');
    [|apply lookup_seq_lt; lia]. cbn in He'. congruence.
Qed.

(** The path through an empty subtree. *)
Lemma tree_path_nil es h k :
  empty_table es → h ≤ COMMAND_INDEX_DEPTH → length k = h → tree_path h k [] = Ok (take h es).
Proof.
  intros Hes. revert k. induction h as [|h IH]; intros k Hh Hk; [done|].
  destruct k as [|b k]; [done|]. injection Hk as Hk. cbn [tree_path branch]. rewrite IH by (done || lia).
  cbn [mbind result_bind]. rewrite tree_hash_nil. destruct (Hes h) as (e & He & ->); [lia|].
  cbn [mbind result_bind]. by rewrite (take_S_r _ _ _ He).
Qed.
Lemma tree_trace_Ok es h l :
  empty_table es → h ≤ COMMAND_INDEX_DEPTH → leaves_wf h l →
  ∃ r ins, tree_hash h l = Ok r ∧ tree_trace es h l = Ok (r, ins).
Proof.
  intros Hes. revert l. induction h as [|h IH]; intros l Hh Hl.
  - destruct l as [|[k x] l]; cbn [tree_hash tree_trace]; [|eauto].
    destruct (Hes 0 Hh) as (e & -> & ->). eauto.
  - destruct l as [|[k x] l]; cbn [tree_hash tree_trace].
    + destruct (Hes (S h) Hh) as (e & -> & ->). eauto.
    + destruct (IH (branch false ((k, x) :: l))) as (a & ia & Ha & ->); [lia|by apply branch_wf|].
      destruct (IH (branch true ((k, x) :: l))) as (b & ib & Hb & ->); [lia|by apply branch_wf|].
      destruct (tree_hash_Ok (S h) ((k, x) :: l)) as (r & Hr & _); [done..|].
      cbn [tree_hash] in Hr. rewrite Ha, Hb in Hr. rewrite Ha, Hb. cbn [mbind result_bind fst snd] in *.
      rewrite Hr. eauto.
Qed.
Lemma tree_trace_branch es h l r ins b :
  empty_table es → S h ≤ COMMAND_INDEX_DEPTH → leaves_wf (S h) l →
  tree_trace es (S h) l = Ok (r, ins) →
  ∃ r' ins', tree_trace es h (branch b l) = Ok (r', ins') ∧ ∀ x, x ∈ ins' → x ∈ ins.
Proof.
  intros Hes Hh Hl Ht.
  destruct (tree_trace_Ok es h (branch b l) Hes) as (r' & ins' & _ & Ht'); [lia|by apply branch_wf|].
  exists r', ins'. split; [done|]. destruct l as [|[k x] l].
  - cbn [branch] in Ht'. destruct h; cbn in Ht'; inv_ok; by intros ? ?%elem_of_nil.
  - cbn [tree_trace] in Ht. apply bind_Ok in Ht as (ta & Ha & Ht). apply bind_Ok in Ht as (tb & Hb & Ht).
    apply bind_Ok in Ht as (n & _ & [= <- <-]). intros y Hy. apply elem_of_cons. right.
    apply elem_of_app. destruct b; [rewrite Ht' in Hb|rewrite Ht' in Ha]; simplify_eq; by auto.
Qed.

Lemma tree_inputs_eq c l :
  contents_wf c l → ∃ es r ins, empty_table es ∧ command_index_empty_hashes = Ok es
    ∧ tree_trace es COMMAND_INDEX_DEPTH l = Ok (r, ins)
    ∧ tree_inputs c = empty_inputs es ++ member_inputs c ++ ins.
Proof.
  intros Hw. pose proof (contents_wf_leaves _ _ Hw) as Hl. destruct Hw as [Hc _].
  destruct empty_table_Ok as (es & Hes & Htab).
  destruct (tree_trace_Ok es COMMAND_INDEX_DEPTH l) as (r & ins & _ & Ht); [done..|].
  exists es, r, ins. unfold tree_inputs. by rewrite Hc, Hes, Ht.
Qed.

(** The branch at every prefix hashes one of the inputs. *)
Lemma sub_trace es l r ins key d :
  empty_table es → leaves_wf COMMAND_INDEX_DEPTH l → d ≤ COMMAND_INDEX_DEPTH →
  tree_trace es COMMAND_INDEX_DEPTH l = Ok (r, ins) →
  ∃ r' ins', tree_trace es (COMMAND_INDEX_DEPTH - d) (sub key d l) = Ok (r', ins')
    ∧ ∀ x, x ∈ ins' → x ∈ ins.
Proof.
  intros Hes Hl Hd Ht. induction d as [|d IH]; [rewrite Nat.sub_0_r; eauto|].
  destruct IH as (r' & ins' & Ht' & Hin); [lia|]. rewrite (height_S d) in Ht' by lia.
  destruct (tree_trace_branch es (COMMAND_INDEX_DEPTH - S d) (sub key d l) r' ins' (command_index_bit key d) Hes
    ltac:(lia)) with (2 := Ht') as (r'' & ins'' & Ht'' & Hin').
  { rewrite <-(height_S d) by lia. apply sub_wf; [lia|done]. }
  exists r'', ins''. rewrite sub_S by lia. split; [done|]. auto.
Qed.
Lemma node_covered c l key d a b :
  contents_wf c l → is_key key → d < COMMAND_INDEX_DEPTH →
  tree_hash (COMMAND_INDEX_DEPTH - S d) (branch false (sub key d l)) = Ok a →
  tree_hash (COMMAND_INDEX_DEPTH - S d) (branch true (sub key d l)) = Ok b →
  node_input d a b ∈ tree_inputs c.
Proof.
  intros Hw Hk Hd Ha Hb. pose proof (contents_wf_leaves _ _ Hw) as Hl.
  destruct (tree_inputs_eq c l Hw) as (es & r & ins & Hes & _ & Ht & ->).
  destruct (sub_trace es l r ins key d Hes Hl ltac:(lia) Ht) as (r' & ins' & Ht' & Hin).
  rewrite (height_S d) in Ht' by done. rewrite !elem_of_app.
  pose proof (sub_wf key d l ltac:(lia) Hl) as Hsw. rewrite (height_S d) in Hsw by done.
  destruct (sub key d l) as [|[k x] s] eqn:Hs.
  - left. cbn [branch] in Ha, Hb. rewrite tree_hash_nil in Ha, Hb. unfold empty_inputs.
    apply elem_of_cons. right. destruct (Hes (COMMAND_INDEX_DEPTH - S d)) as (e & He & He'); [lia|].
    assert (a = e) as -> by congruence. assert (b = e) as -> by congruence.
    apply list_elem_of_lookup. exists (COMMAND_INDEX_DEPTH - S d). rewrite list_lookup_imap, He.
    cbn [fmap option_fmap option_map].
    by replace (COMMAND_INDEX_DEPTH - S (COMMAND_INDEX_DEPTH - S d)) with d by lia.
  - right. right. apply Hin. cbn [tree_trace] in Ht'.
    apply bind_Ok in Ht' as ([ra ia] & Hta & Ht'). apply bind_Ok in Ht' as ([rb ib] & Htb & Ht').
    apply bind_Ok in Ht' as (n & _ & [= <- <-]). cbn [fst snd].
    destruct (tree_trace_Ok es (COMMAND_INDEX_DEPTH - S d) (branch false ((k, x) :: s)) Hes)
      as (ra' & ia' & Hra & Hta'); [lia|by apply branch_wf|].
    destruct (tree_trace_Ok es (COMMAND_INDEX_DEPTH - S d) (branch true ((k, x) :: s)) Hes)
      as (rb' & ib' & Hrb & Htb'); [lia|by apply branch_wf|].
    replace (255 - (255 - d)) with d by (unfold COMMAND_INDEX_DEPTH in Hd; lia).
    apply elem_of_cons. left. congruence.
Qed.

Lemma hash_up_inputs_app key d c a b :
  length a ≤ d →
  hash_up_inputs key d c (a ++ b) = hash_up_inputs key d c a ++
    match hash_up key d c a with
    | Ok c' => hash_up_inputs key (d - length a) c' b
    | Err _ => []
    end.
Proof.
  revert d c. induction a as [|s a IH]; intros d c Hl; [by rewrite Nat.sub_0_r|].
  destruct d as [|d]; [cbn in Hl; lia|]. cbn [app hash_up_inputs length]. rewrite hash_up_step.
  destruct (if command_index_bit key d then _ else _) as [x y] eqn:Hxy.
  destruct (command_index_node d x y); cbn [mbind result_bind]; [|done].
  rewrite IH by (cbn in Hl; lia). done.
Qed.
Lemma path_covered c l key d path leaf x :
  contents_wf c l → is_key key → d ≤ COMMAND_INDEX_DEPTH →
  path_at key d l = Ok path → leaf_hash (index_bits key) l = Ok leaf →
  x ∈ hash_up_inputs key COMMAND_INDEX_DEPTH leaf path → x ∈ tree_inputs c.
Proof.
  intros Hw Hk Hd Hp Hleaf. pose proof (contents_wf_leaves _ _ Hw) as Hl. revert d Hd path Hp.
  refine (depth_down_ind _ _ _); [|intros d Hd IH]; intros path Hp.
  - rewrite path_at_last in Hp. injection Hp as <-. by intros ?%elem_of_nil.
  - rewrite path_at_step in Hp by done. apply bind_Ok in Hp as (p & Hp & Hs).
    apply bind_Ok in Hs as (s & Hs & [= <-]).
    destruct (path_at_Ok key (S d) l) as (q & Hq & Hql & _); [lia|done|].
    rewrite Hp in Hq. injection Hq as <-.
    rewrite hash_up_inputs_app, elem_of_app by lia. intros [Hx|Hx]; [by eapply IH|].
    rewrite (hash_up_path key (S d) l p leaf) in Hx by (done || lia).
    destruct (sub_hash_Ok key (S d) l) as (c' & Hc' & _); [lia|done|]. rewrite Hc', Hql in Hx.
    replace (COMMAND_INDEX_DEPTH - (COMMAND_INDEX_DEPTH - S d)) with (S d) in Hx by lia.
    rewrite sub_hash_flip in Hs by done. unfold sub_hash in Hc'. rewrite sub_S in Hc' by done.
    cbn [hash_up_inputs] in Hx.
    destruct (command_index_bit key d); cbn [negb] in *;
      (destruct (command_index_node d _ _); apply elem_of_cons in Hx as [->|[]%elem_of_nil];
        by eapply node_covered).
Qed.
Lemma slot_covered c l bits : contents_wf c l → slot_input bits c ∈ tree_inputs c.
Proof.
  intros Hw. destruct (tree_inputs_eq c l Hw) as (es & r & ins & _ & _ & _ & ->).
  rewrite !elem_of_app. unfold slot_input. destruct (occupant bits c) as [[k [cid v]]|] eqn:Ho.
  - right. left. apply occupant_Some in Ho as (Hin & Hk & _). unfold member_inputs.
    apply list_elem_of_bind. exists (cid, v). split; [|done]. cbn [fst snd]. rewrite Hk. by left.
  - left. by left.
Qed.

(** A proof without siblings hashes only what the empty tree does. *)
Lemma empty_proof_inputs p x :
  ip_value p = None → siblings p = [] → x ∈ proof_inputs p → x ∈ tree_inputs [].
Proof.
  unfold proof_inputs, full_path. intros Hv Hs. rewrite Hv, Hs. unfold leaf_input. rewrite Hv.
  destruct (command_index_key (ip_command_id p)) as [key|] eqn:Hk; [|by intros ?%elem_of_nil].
  destruct empty_table_Ok as (es & Hes & Htab). unfold omitted_siblings. rewrite Hes.
  cbn [mbind result_bind length]. rewrite app_nil_r, Nat.sub_0_r.
  assert (contents_wf [] []) as Hw by (split; [done|constructor]).
  assert (path_at key 0 [] = Ok (take COMMAND_INDEX_DEPTH es)) as Hp.
  { unfold path_at. rewrite Nat.sub_0_r. apply (tree_path_nil es COMMAND_INDEX_DEPTH); [done..|].
    by rewrite length_drop, index_bits_length. }
  intros [->|Hx]%elem_of_cons; [by apply (slot_covered [] [] (index_bits key))|].
  eapply (path_covered [] [] key 0); [done|by eapply key_is_key|lia|done| |done].
  by rewrite (leaf_hash_slot [] []).
Qed.

(** A faithful proof hashes only what the tree does. *)
Lemma faithful_inputs p c l key x :
  contents_wf c l → faithful p c l key → x ∈ proof_inputs p → x ∈ tree_inputs c.
Proof.
  intros Hw [Hk _ (path & Hp & Hfp) Hleaf]. unfold proof_inputs. rewrite Hk, Hfp, Hleaf.
  intros [->|Hx]%elem_of_cons; [by eapply slot_covered|].
  eapply (path_covered c l key 0); [done|by eapply key_is_key|lia|done| |done].
  apply leaf_hash_slot. by destruct Hw.
Qed.

(** ** Verified proofs are faithful *)

Lemma verified_faithful p c l root key :
  contents_wf c l → index_root c = Ok root → command_index_key (ip_command_id p) = Ok key →
  IndexProof_verify p root = Ok () → collision_free (tree_inputs c ++ proof_inputs p) →
  faithful p c l key.
Proof.
  intros Hw Hr Hk Hv Hcf. pose proof (contents_wf_leaves _ _ Hw) as Hl.
  pose proof (key_is_key _ _ Hk) as Hkey. pose proof Hw as [Hc _].
  destruct (verify_root _ _ _ Hk Hv) as (depth & Hs & Hpr).
  destruct (path_of_root _ _ _ _ Hs Hk Hpr) as (path & Hp & Hpl & Hup).
  assert (proof_inputs p = leaf_input key p
    :: hash_up_inputs key COMMAND_INDEX_DEPTH (input_hash (leaf_input key p)) path) as Hpi.
  { unfold proof_inputs. by rewrite Hk, Hp. }
  destruct (path_at_Ok key 0 l) as (path' & Hp' & Hpl' & _); [lia|done|]. rewrite Nat.sub_0_r in Hpl'.
  pose proof (leaf_hash_slot c l (index_bits key) Hc) as Hslot.
  assert (hash_up key COMMAND_INDEX_DEPTH (input_hash (slot_input (index_bits key) c)) path' = Ok root) as Hup'.
  { rewrite (hash_up_path key 0 l path' _) by (done || lia). by rewrite <-(index_root_hash c l key Hc). }
  assert (input_hash (leaf_input key p) = input_hash (slot_input (index_bits key) c) ∧ path = path')
    as [Hleaf ->].
  { refine (hash_up_inj key _ _ _ _ _ _ _ Hcf _ _ Hpl Hpl' Hup Hup').
    - intros x Hx. apply elem_of_app. right. rewrite Hpi. by right.
    - intros x Hx. apply elem_of_app. left. by eapply (path_covered c l key 0); try lia. }
  apply (input_hash_inj _ _ _ Hcf) in Hleaf.
  - split; [done|eauto|eauto|done].
  - apply elem_of_app. right. rewrite Hpi. by left.
  - apply elem_of_app. left. by eapply slot_covered.
Qed.

(** ** Only the empty subtree has the hash of the empty subtree *)

Lemma occupant_leaf_at bits c l :
  contents_leaves c = Ok l → leaf_at bits l ≠ None → occupant bits c ≠ None.
Proof.
  revert l. induction c as [|[did w] c IH]; intros l Hc; [by injection Hc as <-|].
  apply contents_cons in Hc as (k & l' & Hk & _ & Hc & ->). cbn [occupant fst leaf_at].
  rewrite Hk. destruct (decide (index_bits k = bits)); [done|]. by apply IH.
Qed.
Lemma occupant_leaf_at_None bits c l :
  contents_leaves c = Ok l → leaf_at bits l = None → occupant bits c = None.
Proof.
  revert l. induction c as [|[did w] c IH]; intros l Hc; [by injection Hc as <-|].
  apply contents_cons in Hc as (k & l' & Hk & _ & Hc & ->). cbn [occupant fst leaf_at].
  rewrite Hk. destruct (decide (index_bits k = bits)); [done|]. by apply IH.
Qed.
Lemma sub_full_leaf key l :
  leaves_wf COMMAND_INDEX_DEPTH l → sub key COMMAND_INDEX_DEPTH l ≠ [] →
  leaf_at (index_bits key) l ≠ None.
Proof.
  intros Hl Hne. pose proof (sub_wf key COMMAND_INDEX_DEPTH l ltac:(done) Hl) as [Hf _].
  rewrite <-(app_nil_r (index_bits key)), <-(take_ge (index_bits key) COMMAND_INDEX_DEPTH)
    by (by rewrite index_bits_length).
  rewrite <-leaf_at_subtree. change (subtree _ l) with (sub key COMMAND_INDEX_DEPTH l).
  rewrite Nat.sub_diag in Hf. destruct (sub key _ l) as [|[[|b k] x] s]; [done|by cbn|].
  by apply Forall_cons in Hf as [[? _] _].
Qed.
Lemma Ok_eq (a b : string) : @Ok CoreError _ a = Ok b → a = b.
Proof. congruence. Qed.
Lemma nonempty_hash c l key d r :
  contents_wf c l → collision_free (tree_inputs c) → is_key key → d ≤ COMMAND_INDEX_DEPTH →
  sub key d l ≠ [] → sub_hash key d l = Ok r →
  empty_hash_of_height (COMMAND_INDEX_DEPTH - d) ≠ Ok r.
Proof.
  intros Hw Hcf Hk Hd. pose proof (contents_wf_leaves _ _ Hw) as Hl. revert d Hd r key Hk.
  refine (depth_down_ind _ _ _); [|intros d Hd IH]; intros r key Hk Hne Hr He.
  - pose proof Hw as [Hc _]. rewrite sub_hash_leaf, (leaf_hash_slot c l) in Hr by done.
    rewrite Nat.sub_diag, <-Hr in He. change (empty_hash_of_height 0) with
      (@Ok CoreError _ (input_hash empty_input)) in He. apply Ok_eq in He.
    apply (input_hash_inj empty_input _ _ Hcf) in He.
    + pose proof (occupant_leaf_at _ c l Hc (sub_full_leaf key l Hl Hne)) as Ho.
      unfold slot_input in He. destruct (occupant _ c) as [[k [cid v]]|]; [|done].
      by eapply member_is_not_empty.
    + destruct (tree_inputs_eq c l Hw) as (es & ? & ins & _ & _ & _ & ->). by left.
    + by eapply slot_covered.
  - destruct (tree_hash_Ok (COMMAND_INDEX_DEPTH - S d) (branch false (sub key d l))) as (a & Ha & _).
    { lia. } { apply branch_wf. rewrite <-height_S by done. apply sub_wf; [lia|done]. }
    destruct (tree_hash_Ok (COMMAND_INDEX_DEPTH - S d) (branch true (sub key d l))) as (b & Hb & _).
    { lia. } { apply branch_wf. rewrite <-height_S by done. apply sub_wf; [lia|done]. }
    unfold sub_hash in Hr. rewrite (height_S d) in Hr, He by done.
    rewrite tree_hash_step, Ha, Hb in Hr; [|lia|rewrite <-height_S by done; apply sub_wf; [lia|done]].
    cbn [mbind result_bind] in Hr.
    replace (COMMAND_INDEX_DEPTH - S (COMMAND_INDEX_DEPTH - S d)) with d in Hr by lia.
    destruct (empty_hash_Ok (COMMAND_INDEX_DEPTH - S d)) as (e & Hee & _); [lia|].
    rewrite (empty_hash_step _ e) in He by (done || lia).
    replace (COMMAND_INDEX_DEPTH - S (COMMAND_INDEX_DEPTH - S d)) with d in He by lia.
    assert (node_input d e e ∈ tree_inputs c) as Hin.
    { destruct (tree_inputs_eq c l Hw) as (es & ? & ins & Hes & _ & _ & ->). apply elem_of_app. left.
      apply elem_of_cons. right. destruct (Hes (COMMAND_INDEX_DEPTH - S d)) as (e' & He' & He''); [lia|].
      apply list_elem_of_lookup. exists (COMMAND_INDEX_DEPTH - S d). rewrite list_lookup_imap, He'.
      cbn [fmap option_fmap option_map]. replace (COMMAND_INDEX_DEPTH - S (COMMAND_INDEX_DEPTH - S d)) with d by lia. congruence. }
    destruct (node_inj d a b e e r (tree_inputs c) Hcf) as [-> ->];
      [by eapply node_covered|done|done|done|].
    assert (branch false (sub key d l) ≠ [] ∨ branch true (sub key d l) ≠ []) as Hch.
    { destruct (decide (branch false (sub key d l) = [])) as [H0|]; [|by left].
      destruct (decide (branch true (sub key d l) = [])) as [H1|]; [|by right].
      destruct Hne. eapply (branch_empty _ (COMMAND_INDEX_DEPTH - S d)); [|done|done].
      rewrite <-height_S by done. apply sub_wf; [lia|done]. }
    pose proof (sub_S key d l Hd) as Hs1. pose proof (sub_flip key d l Hk Hd) as Hs2.
    unfold sub_hash in IH.
    destruct (command_index_bit key d) eqn:Hb1, Hch as [Hch|Hch]; cbn [negb] in *;
      first [by apply (IH e key); rewrite ?Hs1
            |by apply (IH e (flip_bit key d)); rewrite ?Hs2; [apply flip_key|..]].
Qed.
End Sound.
