(* ===== verification/SparseResolve.v ===== *)
(** * Resolving proofs of the command index from its nodes

    A store that has the nodes of the sparse tree over the archived commands
    answers [resolve_machine_command_index_proof] of
    [crates/cymule-core/src/machine.rs] for every command: with the value that
    the contents have for it, or with a proof of its absence. *)

From S2P Require Import Prelude Identity CommandIndex IndexSound IndexUpdate CollectionHash.
From S2P Require Import SparseTree SparseProof SparseSound.

Section Resolve.
Context `{Sha256}.

(** [nodes] has the branch of every subtree that is not empty and the leaf of
    every command. *)
Record serves (nodes : gmap string MachineCommandIndexNode) (c : contents) (l : leaves) : Prop := {
  sv_branch : ∀ key d a b r, is_key key → d < COMMAND_INDEX_DEPTH → sub key d l ≠ [] →
    tree_hash (COMMAND_INDEX_DEPTH - S d) (branch false (sub key d l)) = Ok a →
    tree_hash (COMMAND_INDEX_DEPTH - S d) (branch true (sub key d l)) = Ok b →
    command_index_node d a b = Ok r → nodes !! r = Some (Branch r (N.of_nat d) a b);
  sv_member : ∀ cid v key leaf, (cid, v) ∈ c → command_index_key cid = Ok key →
    leaf = input_hash (member_input key cid v) →
    nodes !! leaf = Some (Member leaf (command_index_key_id key) cid v);
}.

Lemma branch_identity d a b r :
  d < COMMAND_INDEX_DEPTH → command_index_node d a b = Ok r →
  IndexNode_identity (Branch r (N.of_nat d) a b) = Ok r.
Proof.
  intros Hd Hn. pose proof Hn as Hn'. apply node_Ok in Hn' as (_ & Ha & Hb & _).
  unfold IndexNode_identity. rewrite Nat2N.id, (proj2 (Nat.ltb_lt _ _) Hd), Ha, Hb. cbn [andb require mbind result_bind].
  rewrite Hn. cbn [mbind result_bind]. by rewrite bool_decide_eq_true_2.
Qed.
Lemma member_identity cid v key leaf :
  command_index_key cid = Ok key → IndexValue_verify v = Ok () →
  leaf = input_hash (member_input key cid v) →
  IndexNode_identity (Member leaf (command_index_key_id key) cid v) = Ok leaf.
Proof.
  intros Hk Hv ->. pose proof (key_identity _ _ Hk) as [Hid Hl]. unfold IndexNode_identity.
  rewrite Hid. cbn [mbind result_bind]. rewrite Hv. cbn [mbind result_bind]. rewrite Hk.
  cbn [mbind result_bind]. rewrite bool_decide_eq_true_2 by done. cbn [require mbind result_bind].
  rewrite member_leaf_valid by done. cbn [mbind result_bind]. by rewrite bool_decide_eq_true_2.
Qed.

Section Loader.
Context {L : Type} (load : L → string → core (option MachineCommandIndexNode) * L).
Context (nodes : gmap string MachineCommandIndexNode).
Hypothesis load_nodes : ∀ s i, fst (load s i) = Ok (nodes !! i).

Lemma load_node_Ok s i n :
  nodes !! i = Some n → IndexNode_identity n = Ok i → ∃ s', load_node load s i = (Ok n, s').
Proof.
  intros Hn Hid. unfold load_node. pose proof (load_nodes s i) as Hl. destruct (load s i) as [r s'].
  cbn in Hl. subst r. cbn [mbind result_bind]. rewrite Hn. cbn [ok_or mbind result_bind]. rewrite Hid.
  cbn [mbind result_bind]. rewrite bool_decide_eq_true_2 by done. by exists s'.
Qed.

(** What the descent has passed at depth [d] with the siblings [acc]. *)
Definition passed (key : string) (l : leaves) (d : nat) (acc : list string) : Prop :=
  (∃ rest, path_at key d l = Ok rest ∧ path_at key 0 l = Ok (rest ++ acc))
  ∧ match d with
    | O => acc = []
    | S d' => sub key d' l ≠ [] ∧ ∃ s acc', acc = s :: acc'
        ∧ sub_hash (flip_bit key d') d l = Ok s
    end.
Lemma passed_step key l d acc s :
  is_key key → d < COMMAND_INDEX_DEPTH → sub key d l ≠ [] → leaves_wf COMMAND_INDEX_DEPTH l →
  sub_hash (flip_bit key d) (S d) l = Ok s → passed key l d acc → passed key l (S d) (s :: acc).
Proof.
  intros Hk Hd Hne Hl Hs [(rest & Hr & Hp) _]. split; [|split; [done|by exists s, acc]].
  rewrite path_at_step in Hr by done. apply bind_Ok in Hr as (rest' & Hr & Hrest).
  rewrite Hs in Hrest. injection Hrest as <-. exists rest'. split; [done|]. by rewrite Hp, <-app_assoc.
Qed.

(** Where the descent stops: at the leaf, or at the first empty subtree. *)
Lemma descend_Ok c l es key d acc cur s :
  contents_wf c l → serves nodes c l → collision_free (tree_inputs c) → is_key key →
  empty_table es → d ≤ COMMAND_INDEX_DEPTH → passed key l d acc → sub_hash key d l = Ok cur →
  ∃ depth leaf acc' s', descend load es key (COMMAND_INDEX_DEPTH - d) cur acc s = (Ok (leaf, depth, acc'), s')
    ∧ depth ≤ COMMAND_INDEX_DEPTH ∧ passed key l depth acc'
    ∧ leaf_hash (index_bits key) l = Ok leaf
    ∧ (depth = COMMAND_INDEX_DEPTH ∨ sub key depth l = []).
Proof.
  intros Hw Hsv Hcf Hk Hes Hd. pose proof (contents_wf_leaves _ _ Hw) as Hl. revert d Hd acc cur s.
  refine (depth_down_ind _ _ _); [|intros d Hd IH]; intros acc cur s Hpass Hcur.
  - rewrite Nat.sub_diag. cbn [descend]. rewrite sub_hash_leaf in Hcur by done.
    exists COMMAND_INDEX_DEPTH, cur, acc, s. split_and!; [done..|by left].
  - destruct (Hes (COMMAND_INDEX_DEPTH - d)) as (e & He & He'); [lia|].
    rewrite (height_S d) by done. cbn [descend]. rewrite <-(height_S d) by done. rewrite He.
    replace (COMMAND_INDEX_DEPTH - (COMMAND_INDEX_DEPTH - d)) with d by lia.
    destruct (decide (sub key d l = [])) as [Hemp|Hne].
    + unfold sub_hash in Hcur. rewrite Hemp, tree_hash_nil, He' in Hcur. injection Hcur as <-.
      rewrite bool_decide_eq_true_2 by done. destruct (Hes 0) as (e0 & -> & He0); [lia|].
      exists d, e0, acc, s. split_and!; [done|lia|done| |by right].
      unfold leaf_hash. assert (leaf_at (index_bits key) l = None) as ->; [|done].
      rewrite <-(take_drop d (index_bits key)), <-leaf_at_subtree.
      change (subtree (take d (index_bits key)) l) with (sub key d l). by rewrite Hemp.
    + rewrite bool_decide_eq_false_2.
      2:{ intros [= ->]. exact (nonempty_hash c l key d _ Hw Hcf Hk ltac:(lia) Hne Hcur He'). }
      destruct (tree_hash_Ok (COMMAND_INDEX_DEPTH - S d) (branch false (sub key d l))) as (a & Ha & _).
      { lia. } { apply branch_wf. rewrite <-height_S by done. apply sub_wf; [lia|done]. }
      destruct (tree_hash_Ok (COMMAND_INDEX_DEPTH - S d) (branch true (sub key d l))) as (b & Hb & _).
      { lia. } { apply branch_wf. rewrite <-height_S by done. apply sub_wf; [lia|done]. }
      pose proof Hcur as Hnode. unfold sub_hash in Hnode. rewrite (height_S d) in Hnode by done.
      rewrite tree_hash_step, Ha, Hb in Hnode; [|lia|rewrite <-height_S by done; apply sub_wf; [lia|done]].
      cbn [mbind result_bind] in Hnode.
      replace (COMMAND_INDEX_DEPTH - S (COMMAND_INDEX_DEPTH - S d)) with d in Hnode by lia.
      pose proof (sv_branch _ _ _ Hsv key d a b cur Hk Hd Hne Ha Hb Hnode) as Hstore.
      destruct (load_node_Ok s cur _ Hstore (branch_identity d a b cur Hd Hnode)) as (s' & ->).
      cbn [mbind result_bind branch_at]. rewrite Nat2N.id, Nat.eqb_refl. cbn [require mbind result_bind].
      pose proof (sub_hash_flip key d l Hk Hd) as Hflip.
      assert (sub_hash key (S d) l = tree_hash (COMMAND_INDEX_DEPTH - S d)
        (branch (command_index_bit key d) (sub key d l))) as Hchild by (unfold sub_hash; by rewrite sub_S).
      destruct (command_index_bit key d); cbn [negb] in Hflip.
      * rewrite Ha in Hflip. rewrite Hb in Hchild. apply IH; [by apply passed_step|done].
      * rewrite Hb in Hflip. rewrite Ha in Hchild. apply IH; [by apply passed_step|done].
Qed.

(** No other command has the key of [cid]. *)
Definition key_free (c : contents) (cid : string) : Prop :=
  ∀ did v key, (did, v) ∈ c → command_index_key did = Ok key → command_index_key cid = Ok key →
    did = cid.

Lemma leaf_value_Ok c l es key cid leaf s :
  contents_wf c l → serves nodes c l → collision_free (tree_inputs c) →
  empty_table es → command_index_key cid = Ok key → key_free c cid →
  leaf_hash (index_bits key) l = Ok leaf →
  ∃ v s', leaf_value load es key cid leaf s = (Ok v, s')
    ∧ match v with
      | Some v => slot_input (index_bits key) c = member_input key cid v ∧ IndexValue_verify v = Ok ()
      | None => slot_input (index_bits key) c = empty_input
      end.
Proof.
  intros Hw Hsv Hcf Hes Hk Hfree Hleaf. pose proof Hw as [Hc _].
  rewrite (leaf_hash_slot c l) in Hleaf by done. apply Ok_eq in Hleaf. subst leaf.
  unfold leaf_value. destruct (Hes 0) as (e & -> & He); [lia|].
  change (empty_hash_of_height 0) with (@Ok CoreError _ (input_hash empty_input)) in He.
  apply Ok_eq in He. subst e.
  destruct (occupant (index_bits key) c) as [[k [did v]]|] eqn:Ho.
  - assert (slot_input (index_bits key) c = member_input k did v) as Hslot by
      (unfold slot_input; by rewrite Ho).
    apply occupant_Some in Ho as (Hin & Hkd & Hbits). pose proof (contents_value _ _ _ _ Hc Hin) as Hv.
    apply index_bits_inj in Hbits; [|by eapply key_is_key..]. subst k.
    pose proof (Hfree did v key Hin Hkd Hk) as ->.
    rewrite bool_decide_eq_false_2.
    2:{ rewrite Hslot. intros Heq.
        assert (input_hash empty_input = input_hash (member_input key cid v)) as He by congruence.
        apply (input_hash_inj _ _ _ Hcf) in He; [by eapply member_is_not_empty| |].
        - destruct (tree_inputs_eq c l Hw) as (? & ? & ? & _ & _ & _ & ->). by left.
        - rewrite <-Hslot. by eapply slot_covered. }
    rewrite Hslot. destruct (load_node_Ok s _ _ (sv_member _ _ _ Hsv cid v key _ Hin Hk eq_refl)
      (member_identity cid v key _ Hk Hv eq_refl)) as (s' & ->).
    cbn [mbind result_bind]. rewrite !bool_decide_eq_true_2 by done. cbn [andb require mbind result_bind].
    by exists (Some v), s'.
  - assert (slot_input (index_bits key) c = empty_input) as Hslot by (unfold slot_input; by rewrite Ho).
    rewrite bool_decide_eq_true_2 by (by rewrite Hslot). by exists None, s.
Qed.

Lemma slot_not_empty c l key d :
  contents_wf c l → d ≤ COMMAND_INDEX_DEPTH → slot_input (index_bits key) c ≠ empty_input →
  sub key d l ≠ [].
Proof.
  intros [Hc _] Hd Hslot Hemp. apply Hslot. unfold slot_input.
  rewrite (occupant_leaf_at_None (index_bits key) c l Hc); [done|].
  rewrite <-(take_drop d (index_bits key)), <-leaf_at_subtree.
  change (subtree (take d (index_bits key)) l) with (sub key d l). by rewrite Hemp.
Qed.
Lemma sub_leaf_empty c l key :
  contents_wf c l → slot_input (index_bits key) c = empty_input → sub key COMMAND_INDEX_DEPTH l = [].
Proof.
  intros Hw Hslot. destruct (sub key COMMAND_INDEX_DEPTH l) as [|x s] eqn:Hs; [done|]. exfalso.
  pose proof (contents_wf_leaves _ _ Hw) as Hl. destruct Hw as [Hc _].
  apply (occupant_leaf_at (index_bits key) c l Hc); [apply sub_full_leaf; [done|by rewrite Hs]|].
  unfold slot_input in Hslot. destruct (occupant (index_bits key) c) as [[k [did v]]|]; [|done].
  exfalso. by eapply member_is_not_empty.
Qed.
(** The last sibling before an empty subtree is not empty. *)
Lemma last_sibling c l key d acc s e :
  contents_wf c l → collision_free (tree_inputs c) → is_key key → d ≤ COMMAND_INDEX_DEPTH →
  passed key l d acc → sub key d l = [] → head acc = Some s →
  empty_hash_of_height (COMMAND_INDEX_DEPTH - d) = Ok e → s ≠ e.
Proof.
  intros Hw Hcf Hk Hd [_ Hlast] Hemp Hhead He ->. pose proof (contents_wf_leaves _ _ Hw) as Hl.
  destruct d as [|d]; [by subst acc|]. destruct Hlast as (Hne & s & acc' & -> & Hs).
  injection Hhead as ->.
  apply (nonempty_hash c l (flip_bit key d) (S d) e Hw Hcf); [by apply flip_key|done| |done|done].
  rewrite sub_flip by (done || lia). rewrite sub_S in Hemp by lia. intros Hemp'. apply Hne.
  apply (branch_empty _ (COMMAND_INDEX_DEPTH - S d)).
  - rewrite <-height_S by lia. apply sub_wf; [lia|done].
  - by destruct (command_index_bit key d).
  - by destruct (command_index_bit key d).
Qed.

(** The resolver succeeds, and what it returns is faithful to the contents. *)
Lemma resolve_Ok c l cid key root s :
  contents_wf c l → serves nodes c l → collision_free (tree_inputs c) →
  command_index_key cid = Ok key → key_free c cid → index_root c = Ok root →
  ∃ p s', resolve_machine_command_index_proof load root cid s = (Ok p, s')
    ∧ ip_command_id p = cid ∧ faithful p c l key.
Proof.
  intros Hw Hsv Hcf Hk Hfree Hr. pose proof (contents_wf_leaves _ _ Hw) as Hl. pose proof Hw as [Hc _].
  pose proof (key_is_key _ _ Hk) as Hkey. pose proof (key_identity _ _ Hk) as [Hid _].
  destruct (index_root_Ok c l Hw) as (r & Hr' & Hrid). rewrite Hr in Hr'. injection Hr' as <-.
  destruct empty_table_Ok as (es & Hes & Htab). unfold resolve_machine_command_index_proof.
  rewrite Hrid, Hid. cbn [require mbind result_bind]. rewrite Hk. cbn [mbind result_bind].
  rewrite Hes. cbn [mbind result_bind].
  destruct (descend_Ok c l es key 0 [] root s) as (depth & leaf & acc & s1 & Hdes & Hd & Hpass & Hleaf & Hend);
    [done..|lia| | |].
  { split; [|done]. destruct (path_at_Ok key 0 l) as (path & Hp & _); [lia|done|]. exists path.
    by rewrite app_nil_r. }
  { by rewrite <-(index_root_hash c l key Hc). }
  rewrite Nat.sub_0_r in Hdes. rewrite Hdes.
  destruct (leaf_value_Ok c l es key cid leaf s1) as (v & s2 & Hlv & Hv); [done..|]. rewrite Hlv.
  cbn [mbind result_bind].
  match goal with |- context [IndexProof_verify ?q root] => set (p := q) end.
  assert (faithful p c l key) as Hf.
  { pose proof Hpass as [(rest & Hrest & Hpath) _].
    assert (length acc = depth ∧ Forall (λ s, is_sha256_id s = true) acc) as [Hacc Hf].
    { destruct (path_at_Ok key 0 l) as (q & Hq & Hql & Hqf); [lia|done|].
      rewrite Hpath in Hq. injection Hq as <-.
      destruct (path_at_Ok key depth l) as (q & Hq & Hql' & _); [done..|]. rewrite Hrest in Hq.
      injection Hq as <-. rewrite length_app in Hql. apply Forall_app in Hqf as [_ ?]. split; [lia|done]. }
    destruct v as [v|].
    - destruct Hv as [Hslot Hv].
      assert (depth = COMMAND_INDEX_DEPTH) as ->.
      { destruct Hend as [|Hemp]; [done|]. exfalso. eapply (slot_not_empty c l key depth); [done|done| |done].
        rewrite Hslot. apply member_is_not_empty. }
      rewrite path_at_last in Hrest. injection Hrest as <-.
      split; [done| | |by rewrite Hslot].
      + exists COMMAND_INDEX_DEPTH.
        by apply (inserted_shape (absence_proof COMMAND_INDEX_PROOF_VERSION cid 0 []) v acc).
      + by exists acc.
    - assert (sub key depth l = []) as Hemp.
      { destruct Hend as [->|]; [|done]. apply (sub_leaf_empty c l); done. }
      split; [done| | |by rewrite Hv].
      + exists depth. apply absence_shape; [done..|]. intros s' e Hs' He ->.
        by apply (last_sibling c l key depth acc e e).
      + exists (rest ++ acc). split; [done|]. unfold full_path. cbn [ip_value p siblings].
        unfold omitted_siblings. rewrite Hes, Hacc. cbn [mbind result_bind]. do 2 f_equal.
        unfold path_at in Hrest. rewrite Hemp, (tree_path_nil es) in Hrest;
          [congruence|done|lia|by rewrite length_drop, index_bits_length]. }
  rewrite (faithful_verifies _ _ _ _ _ Hw Hf Hr). cbn [mbind result_bind]. by exists p, s2.
Qed.
End Loader.
End Resolve.
