(* ===== verification/ArchiveIndex.v ===== *)
(** * The archive and the cumulative index

    What the segments of [Archive] do to the contents of the command index:
    a segment that is accepted extends them by exactly its entries, and the
    updates that compaction derives from proofs against one root are accepted
    one after the other. *)

From S2P Require Import Prelude Identity CommandIndex IndexSound IndexUpdate Canonical Ir Model.
From S2P Require Import Events Chain CollectionHash SparseTree SparseProof SparseSound Archive.

(** The contents after the insertion of [items], in order. *)
Definition extend (c items : contents) : contents := rev_append items c.

Section Items.
Context `{Sha256} `{Canonical} `{!MachineSerialize} `{!ArchiveSerialize}.

Definition entry_command_id (e : MachineCommandArchiveEntry) : string :=
  adm_command_id (entry_admission e).
(** The command of an entry with its value in the index. *)
Definition entry_item (e : MachineCommandArchiveEntry)
    : core (string * MachineCommandIndexValue) :=
  v ← command_index_entry_value e; Ok (entry_command_id e, v).
Definition archive_items (entries : list MachineCommandArchiveEntry) : core contents :=
  try_map entry_item entries.

(** Everything that is hashed for the trees before, between and after the
    insertions. *)
Fixpoint stage_inputs (c items : contents) : list string :=
  tree_inputs c ++ match items with
                   | [] => []
                   | x :: items => stage_inputs (x :: c) items
                   end.
Definition update_inputs (updates : list MachineCommandIndexProof) : list string :=
  updates ≫= proof_inputs.

Lemma stage_inputs_first c items x : x ∈ tree_inputs c → x ∈ stage_inputs c items.
Proof. destruct items; cbn [stage_inputs]; rewrite elem_of_app; auto. Qed.
Lemma stage_inputs_last c items x : x ∈ tree_inputs (extend c items) → x ∈ stage_inputs c items.
Proof.
  revert c. induction items as [|y items IH]; intros c Hx; cbn [stage_inputs]; rewrite elem_of_app; [by left|].
  right. by apply IH.
Qed.
Lemma collision_free_app_l l k : collision_free (l ++ k) → collision_free l.
Proof. apply collision_free_subset. intros x Hx. apply elem_of_app. auto. Qed.

Lemma stage_collisions c x items u us :
  collision_free (stage_inputs c (x :: items) ++ update_inputs (u :: us)) →
  collision_free (tree_inputs c ++ proof_inputs u)
  ∧ collision_free (stage_inputs (x :: c) items ++ update_inputs us).
Proof.
  change (update_inputs (u :: us)) with (proof_inputs u ++ update_inputs us). cbn [stage_inputs].
  intros Hcf. split; eapply collision_free_subset, Hcf; intros y; rewrite !elem_of_app; tauto.
Qed.

(** The root that a value produces comes with the key of the command. *)
Lemma root_with_value_key p v r :
  root_with_value p (Some v) = Ok r →
  ip_value p = None → ∃ key, command_index_key (ip_command_id p) = Ok key ∧ IndexValue_verify v = Ok ().
Proof. intros Hr Hn. unfold root_with_value in Hr. rewrite Hn in Hr. inv_ok. eauto. Qed.

(** One accepted update inserts the item of its entry. *)
Lemma apply_update_inserts c l r e update v r' :
  contents_wf c l → index_root c = Ok r →
  apply_command_index_update r (e, update) = Ok r' → command_index_entry_value e = Ok v →
  collision_free (tree_inputs c ++ proof_inputs update) →
  ∃ l' key, contents_wf ((entry_command_id e, v) :: c) l'
    ∧ index_root ((entry_command_id e, v) :: c) = Ok r'
    ∧ ip_command_id update = entry_command_id e ∧ ip_value update = None
    ∧ IndexValue_verify v = Ok () ∧ faithful update c l key.
Proof.
  intros Hw Hr Ha Hv Hcf. unfold apply_command_index_update in Ha.
  apply bind_Ok in Ha as ([] & Hreq & Ha). apply require_Ok in Hreq. to_prop.
  apply bind_Ok in Ha as ([] & Hver & Ha). rewrite Hv in Ha.
  cbn [mbind result_bind] in Ha.
  destruct (root_with_value_key update v r') as (key & Hk & Hvv); [done..|].
  pose proof (verified_faithful update c l r key Hw Hr Hk Hver Hcf) as Hf.
  destruct (insert_faithful update c l key v Hw Hf) as (l' & nodes & root & path & Hw' & _ & Hrv & Hroot & _);
    [done..|].
  rewrite Ha in Hrv. injection Hrv as <-.
  exists l', key. unfold entry_command_id. by replace (adm_command_id (entry_admission e)) with (ip_command_id update).
Qed.

(** An accepted sequence of updates extends the contents by its entries. *)
Lemma apply_updates_extend c l r entries updates items r' :
  contents_wf c l → index_root c = Ok r →
  try_fold apply_command_index_update r (zip entries updates) = Ok r' →
  length entries = length updates → archive_items entries = Ok items →
  collision_free (stage_inputs c items ++ update_inputs updates) →
  ∃ l', contents_wf (extend c items) l' ∧ index_root (extend c items) = Ok r'.
Proof.
  revert c l r updates items. induction entries as [|e entries IH]; intros c l r updates items Hw Hr Ha Hl Hi Hcf.
  - injection Hi as <-. destruct updates; [|done]. injection Ha as <-. by exists l.
  - destruct updates as [|u updates]; [done|]. injection Hl as Hl. cbn [zip zip_with try_fold] in Ha.
    apply bind_Ok in Ha as (r1 & Ha & Hrest). unfold archive_items in Hi. cbn [try_map] in Hi.
    apply bind_Ok in Hi as (x & Hx & Hi). apply bind_Ok in Hi as (items' & Hi & [= <-]).
    unfold entry_item in Hx. apply bind_Ok in Hx as (v & Hv & [= <-]).
    apply stage_collisions in Hcf as [Hcf1 Hcf].
    destruct (apply_update_inserts c l r e u v r1) as (l1 & key & Hw1 & Hr1 & _); [done..|].
    by apply (IH _ l1 r1 updates items').
Qed.

(** ** Compaction *)

Definition entry_key (e : MachineCommandArchiveEntry) : core string :=
  command_index_key (entry_command_id e).

(** The proofs of absence against the root of [c] for the commands of the
    entries. *)
Definition base_proof_ok (c : contents) (l : leaves) (e : MachineCommandArchiveEntry)
    (p : MachineCommandIndexProof) : Prop :=
  ip_command_id p = entry_command_id e ∧ ip_value p = None ∧ ∃ key, faithful p c l key.

(** One round of the derivation, on faithful proofs. *)
Lemma sequential_update_Ok c0 l0 r0 ck lk rk acc nodes e p v :
  contents_wf c0 l0 → index_root c0 = Ok r0 → contents_wf ck lk → index_root ck = Ok rk →
  nodes_ok l0 lk nodes → base_proof_ok c0 l0 e p →
  (∀ key, entry_key e = Ok key → slot_input (index_bits key) ck = slot_input (index_bits key) c0) →
  command_index_entry_value e = Ok v → IndexValue_verify v = Ok () →
  ∃ update nodes' r' l', sequential_update r0 (acc, nodes, rk) (e, p)
      = Ok (acc ++ [update], nodes', r')
    ∧ contents_wf ((entry_command_id e, v) :: ck) l'
    ∧ index_root ((entry_command_id e, v) :: ck) = Ok r' ∧ nodes_ok l0 l' nodes'
    ∧ apply_command_index_update rk (e, update) = Ok r'
    ∧ ∀ x, x ∈ proof_inputs update → x ∈ tree_inputs ck.
Proof.
  intros Hw0 Hr0 Hwk Hrk Hn (Hid & Hval & key & Hf) Hslot Hv Hvv. pose proof (ff_key _ _ _ _ Hf) as Hk.
  destruct (rebase_faithful p c0 l0 ck lk key nodes r0 rk) as (update & Hreb & Hfu & Hidu & Hvalu);
    [done..| |done|done|].
  { apply Hslot. unfold entry_key. by rewrite <-Hid. }
  rewrite Hid in Hidu. rewrite Hval in Hvalu.
  destruct (insert_faithful update ck lk key v) as (l' & nodes' & r' & path & Hw' & Hrec & Hrv & Hroot & Hn' & _);
    [done..|]. rewrite Hidu in Hw', Hroot.
  exists update, (nodes' ∪ nodes), r', l'. split_and!.
  - unfold sequential_update. rewrite !bool_decide_eq_true_2 by done. cbn [andb require mbind result_bind].
    rewrite Hreb. cbn [mbind result_bind]. rewrite Hv. cbn [mbind result_bind]. by rewrite Hrec.
  - done.
  - done.
  - by eapply nodes_ok_union.
  - unfold apply_command_index_update. rewrite !bool_decide_eq_true_2 by done.
    cbn [andb require mbind result_bind]. rewrite (faithful_verifies _ _ _ _ _ Hwk Hfu Hrk).
    cbn [mbind result_bind]. rewrite Hv. by cbn [mbind result_bind].
  - intros x. by eapply faithful_inputs.
Qed.

Lemma sequential_updates_Ok c0 l0 r0 entries proofs items ck lk rk acc nodes :
  contents_wf c0 l0 → index_root c0 = Ok r0 → contents_wf ck lk → index_root ck = Ok rk →
  nodes_ok l0 lk nodes → Forall2 (base_proof_ok c0 l0) entries proofs →
  NoDup (entry_key <$> entries) →
  (∀ e key, e ∈ entries → entry_key e = Ok key →
    slot_input (index_bits key) ck = slot_input (index_bits key) c0) →
  archive_items entries = Ok items → Forall (λ x, IndexValue_verify x.2 = Ok ()) items →
  ∃ updates nodes' r' l', try_fold (sequential_update r0) (acc, nodes, rk) (zip entries proofs)
      = Ok (acc ++ updates, nodes', r')
    ∧ contents_wf (extend ck items) l' ∧ index_root (extend ck items) = Ok r'
    ∧ nodes_ok l0 l' nodes' ∧ length updates = length entries
    ∧ try_fold apply_command_index_update rk (zip entries updates) = Ok r'
    ∧ ∀ x, x ∈ update_inputs updates → x ∈ stage_inputs ck items.
Proof.
  intros Hw0 Hr0 Hwk Hrk Hn Hp. revert items ck lk rk acc nodes Hwk Hrk Hn.
  induction Hp as [|e p entries proofs Hep _ IH]; intros items ck lk rk acc nodes Hwk Hrk Hn Hnd Hslot Hi Hv.
  - injection Hi as <-. exists [], nodes, rk, lk. rewrite app_nil_r.
    split_and!; try done. by intros x ?%elem_of_nil.
  - unfold archive_items in Hi. cbn [try_map] in Hi.
    apply bind_Ok in Hi as (x & Hx & Hi). apply bind_Ok in Hi as (items' & Hi & [= <-]).
    unfold entry_item in Hx. apply bind_Ok in Hx as (v & Hve & [= <-]).
    apply Forall_cons in Hv as [Hvv Hv]. cbn in Hvv. rewrite fmap_cons in Hnd.
    apply NoDup_cons in Hnd as [Hni Hnd].
    destruct (sequential_update_Ok c0 l0 r0 ck lk rk acc nodes e p v)
      as (u & nodes1 & r1 & l1 & Hseq & Hw1 & Hr1 & Hn1 & Happ & Hui); [done..| |done|done|].
    { intros key. apply Hslot. by left. }
    destruct (IH items' _ l1 r1 (acc ++ [u]) nodes1 Hw1 Hr1 Hn1 Hnd) as
      (us & nodes' & r' & l' & Hfold & Hw' & Hr' & Hn' & Hlen & Hafold & Husi); [|done|done|].
    { intros e' key He' Hk'. destruct Hep as (Hid & _ & k & Hf). pose proof (ff_key _ _ _ _ Hf) as Hk.
      rewrite Hid in Hk. erewrite slot_insert_ne; [|exact Hk|].
      - apply (Hslot e'); [by right|done].
      - intros Heq. apply index_bits_inj in Heq; [|by eapply key_is_key..]. subst k. apply Hni.
        apply list_elem_of_fmap. exists e'. split; [|done]. by rewrite Hk'. }
    exists (u :: us), nodes', r', l'. cbn [zip zip_with try_fold]. rewrite Hseq, Happ. cbn [mbind result_bind].
    rewrite <-app_assoc in Hfold. cbn [length]. split_and!; [done..|by rewrite Hlen|done|].
    intros x. change (update_inputs (u :: us)) with (proof_inputs u ++ update_inputs us).
    cbn [stage_inputs]. rewrite !elem_of_app. intros [Hx|Hx]; [left; by apply Hui|right; by apply Husi].
Qed.

(** ** Segments *)

(** What a segment adds to the index. *)
Definition archived (s : MachineCommandArchiveSegment) : contents :=
  match archive_items (segment_entries s) with Ok items => items | Err _ => [] end.
(** The hash inputs of the trees and of the updates of a segment. *)
Definition segment_inputs (c : contents) (s : MachineCommandArchiveSegment) : list string :=
  stage_inputs c (archived s) ++ update_inputs (command_index_updates s).
(** [r] is the root of an index with the contents [c]. *)
Definition indexes (r : string) (c : contents) : Prop :=
  (∃ l, contents_wf c l) ∧ index_root c = Ok r.

(** A proof of absence for an entry that verifies against [root]. *)
Definition absent_at (root : string) (e : MachineCommandArchiveEntry)
    (p : MachineCommandIndexProof) : Prop :=
  is_ok (entry_key e) = true ∧ ip_command_id p = entry_command_id e ∧ ip_value p = None
  ∧ IndexProof_verify p root = Ok ().
Lemma absent_base_ok c l root entries proofs :
  contents_wf c l → index_root c = Ok root → Forall2 (absent_at root) entries proofs →
  collision_free (tree_inputs c ++ update_inputs proofs) → Forall2 (base_proof_ok c l) entries proofs.
Proof.
  intros Hw Hr Hp Hcf. induction Hp as [|e p entries proofs (Hk & Hid & Hval & Hver) _ IH]; constructor.
  - split; [done|]. split; [done|]. unfold entry_key in Hk. rewrite <-Hid in Hk.
    destruct (command_index_key (ip_command_id p)) as [key|] eqn:Hkey; [|done]. exists key.
    eapply verified_faithful; [done..|]. eapply collision_free_subset, Hcf. intros x.
    change (update_inputs (p :: proofs)) with (proof_inputs p ++ update_inputs proofs).
    rewrite !elem_of_app. tauto.
  - apply IH. eapply collision_free_subset, Hcf. intros x.
    change (update_inputs (p :: proofs)) with (proof_inputs p ++ update_inputs proofs).
    rewrite !elem_of_app. tauto.
Qed.
(** Updates derived from proofs against one root are accepted in sequence. *)
Lemma compaction_updates_Ok root c entries proofs items :
  indexes root c → archive_items entries = Ok items →
  Forall (λ x, IndexValue_verify x.2 = Ok ()) items → NoDup (entry_key <$> entries) →
  Forall2 (absent_at root) entries proofs → collision_free (tree_inputs c ++ update_inputs proofs) →
  ∃ updates nodes result, sequential_command_index_updates root entries proofs
      = Ok (updates, nodes, result)
    ∧ length updates = length entries
    ∧ try_fold apply_command_index_update root (zip entries updates) = Ok result
    ∧ indexes result (extend c items)
    ∧ ∀ x, x ∈ update_inputs updates → x ∈ stage_inputs c items.
Proof.
  intros [[l Hw] Hr] Hi Hv Hnd Hp Hcf. pose proof (absent_base_ok c l root _ _ Hw Hr Hp Hcf) as Hbase.
  destruct (sequential_updates_Ok c l root entries proofs items c l root [] ∅)
    as (updates & nodes & r' & l' & Hseq & Hw' & Hr' & _ & Hlen & Happ & Hin); try done.
  exists updates, nodes, r'. split; [|split; [done|split; [done|split; [split; eauto|done]]]].
  unfold sequential_command_index_updates. apply Forall2_length in Hp.
  by rewrite (proj2 (Nat.eqb_eq _ _) Hp).
Qed.

Lemma apply_updates_items entries updates r r' :
  try_fold apply_command_index_update r (zip entries updates) = Ok r' →
  length entries = length updates → ∃ items, archive_items entries = Ok items
    ∧ items.*1 = entry_command_id <$> entries.
Proof.
  revert updates r. induction entries as [|e entries IH]; intros updates r Ha Hl; [by exists []|].
  destruct updates as [|u updates]; [done|]. injection Hl as Hl. cbn [zip zip_with try_fold] in Ha.
  apply bind_Ok in Ha as (r1 & Ha & Hrest). unfold apply_command_index_update in Ha.
  apply bind_Ok in Ha as ([] & _ & Ha). apply bind_Ok in Ha as ([] & _ & Ha).
  apply bind_Ok in Ha as (v & Hv & _). destruct (IH updates r1 Hrest Hl) as (items & Hi & Hids).
  exists ((entry_command_id e, v) :: items). unfold archive_items, entry_item in *. cbn [try_map].
  rewrite Hv. cbn [mbind result_bind]. rewrite Hi. cbn [mbind result_bind]. split; [done|].
  rewrite !fmap_cons. by rewrite Hids.
Qed.

(** What the verification of a segment establishes. *)
Record segment_checked (s : MachineCommandArchiveSegment) : Prop := {
  sc_header : Header_verify (header s) = Ok ();
  sc_lengths : length (segment_entries s) = length (command_index_updates s);
  sc_count : N.of_nat (length (segment_entries s)) = sh_entry_count (header s);
  sc_merkle : command_archive_merkle_root (segment_entries s) (command_index_updates s)
      = Ok (entries_root (header s));
  sc_updates : try_fold apply_command_index_update (parent_command_index_root (header s))
      (zip (segment_entries s) (command_index_updates s)) = Ok (result_command_index_root (header s));
  sc_items : archive_items (segment_entries s) = Ok (archived s);
  sc_ids : (archived s).*1 = entry_command_id <$> segment_entries s;
  sc_admissions : ∃ first last, checked_add (parent_count (header s)) 1 = Some first
      ∧ try_fold verify_archived_admission (first, parent_admission_head (header s))
          (segment_entries s) = Ok last;
}.
Lemma Segment_verify_checked s : Segment_verify s = Ok () → segment_checked s.
Proof.
  unfold Segment_verify. intros Hs. apply bind_Ok in Hs as ([] & Hh & Hs).
  apply bind_Ok in Hs as (bc & _ & Hs). apply bind_Ok in Hs as (batches & _ & Hs).
  apply bind_Ok in Hs as ([] & Hm & Hs). apply bind_Ok in Hs as (? & _ & Hs).
  apply bind_Ok in Hs as (? & _ & Hs). apply bind_Ok in Hs as (root & Ha & Hs).
  apply bind_Ok in Hs as (? & Hroot & Hs). apply bind_Ok in Hs as (first & Hfirst & Hs).
  apply bind_Ok in Hs as (last & Hlast & _). apply require_Ok, bool_decide_eq_true in Hroot. subst root.
  apply ok_or_Ok in Hfirst. unfold segment_matches_header in Hm.
  apply bind_Ok in Hm as (count & Hcount & Hm). apply bind_Ok in Hm as (? & Hc & Hm).
  apply bind_Ok in Hm as (? & _ & Hm). apply bind_Ok in Hm as (? & _ & Hm).
  apply bind_Ok in Hm as (? & _ & Hm). apply bind_Ok in Hm as (? & Hb & Hm).
  apply bind_Ok in Hm as (mroot & Hmroot & Hm). apply require_Ok in Hc, Hb, Hm. to_prop. subst mroot.
  unfold len_u64 in Hcount. apply bind_Ok in Hcount as (? & _ & [= <-]).
  unfold apply_command_index_updates in Ha. apply bind_Ok in Ha as (? & _ & Ha).
  assert (length (segment_entries s) = length (command_index_updates s)) as Hl by lia.
  destruct (apply_updates_items _ _ _ _ Ha Hl) as (items & Hi & Hids).
  assert (archived s = items) as Hitems by (unfold archived; by rewrite Hi).
  split; rewrite ?Hitems; try done; eauto; lia.
Qed.

(** The state of the admission loop after some of the entries. *)
Lemma admissions_at entries first head last index e :
  try_fold verify_archived_admission (first, head) entries = Ok last →
  entries !! index = Some e →
  ArchiveEntry_verify e = Ok () ∧ sequence (entry_admission e) = (first + N.of_nat index)%N
  ∧ (first + N.of_nat index < u64_max)%N
  ∧ (index = 0 → parent_admission (entry_admission e) = head).
Proof.
  revert first head index. induction entries as [|x entries IH]; intros first head index Hf He; [done|].
  cbn [try_fold] in Hf. apply bind_Ok in Hf as ([next parent] & Hx & Hf).
  unfold verify_archived_admission in Hx. apply bind_Ok in Hx as ([] & Hv & Hx).
  apply bind_Ok in Hx as (? & _ & Hx). apply bind_Ok in Hx as (? & Hreq & Hx).
  apply bind_Ok in Hx as (n & Hn & [= <- <-]). apply require_Ok in Hreq. to_prop.
  apply ok_or_Ok, checked_add_Some in Hn as [-> Hn]. destruct index as [|index].
  - injection He as ->. split_and!; [done|lia|lia|done].
  - destruct (IH (first + 1)%N _ index Hf He) as (Hve & Hs & Hb & _). split_and!; [done|lia|lia|done].
Qed.
(** What the position of an entry in its segment determines. *)
Lemma segment_position s index e :
  segment_checked s → segment_entries s !! index = Some e →
  ArchiveEntry_verify e = Ok ()
  ∧ opt_filter (λ v, v <=? MAX_EXACT_INTEGER)%N
      (checked_add (parent_count (header s)) (N.of_nat index) ≫= λ v, checked_add v 1)
    = Some (sequence (entry_admission e))
  ∧ negb ((N.of_nat index =? 0)%N
      && negb (bool_decide (parent_admission (entry_admission e) = parent_admission_head (header s)))) = true
  ∧ (N.of_nat index <= u64_max)%N.
Proof.
  intros Hc He. destruct (sc_admissions s Hc) as (first & last & Hfirst & Hfold).
  apply checked_add_Some in Hfirst as [-> _].
  destruct (admissions_at _ _ _ _ index e Hfold He) as (Hv & Hseq & Hb & Hpar).
  pose proof (lookup_lt_Some _ _ _ He) as Hlt. pose proof (sc_count s Hc) as Hcount.
  assert (parent_count (header s) + sh_entry_count (header s) <= MAX_EXACT_INTEGER)%N as Hmax.
  { pose proof (sc_header s Hc) as Hh. unfold Header_verify, header_counts_ok in Hh.
    apply bind_Ok in Hh as (? & Hh & _). apply bind_Ok in Hh as (? & _ & Hh).
    apply bind_Ok in Hh as (count & Hcnt & _). apply ok_or_Ok, opt_filter_Some in Hcnt as [Hcnt Hle].
    apply checked_add_Some in Hcnt as [-> _]. by apply N.leb_le in Hle. }
  split; [done|]. split; [|split; [|lia]].
  - rewrite checked_add_fits by (unfold u64_max, MAX_EXACT_INTEGER in *; lia). cbn [mbind option_bind].
    rewrite checked_add_fits by (unfold u64_max, MAX_EXACT_INTEGER in *; lia).
    apply opt_filter_Some. split; [f_equal; lia|]. apply N.leb_le. lia.
  - destruct (N.eqb_spec (N.of_nat index) 0); [|done]. rewrite Hpar by lia.
    by rewrite bool_decide_eq_true_2.
Qed.

Lemma segment_extends s c :
  Segment_verify s = Ok () → indexes (parent_command_index_root (header s)) c →
  collision_free (segment_inputs c s) →
  indexes (result_command_index_root (header s)) (extend c (archived s)).
Proof.
  intros Hs [[l Hw] Hr] Hcf. destruct (Segment_verify_checked s Hs) as [_ Hl _ _ Ha Hi _ _].
  destruct (apply_updates_extend c l _ _ _ _ _ Hw Hr Ha Hl Hi Hcf) as (l' & Hw' & Hr').
  split; eauto.
Qed.
End Items.
