(* ===== verification/CompactionInv.v ===== *)
(** * Compaction keeps the invariant

    What the two compactions of [Compaction] do to a machine that satisfies
    the invariant: the compacted events become the past of the log, the base is
    the state after them, the retained commands keep their place in the chain
    and have proofs of absence under the new root.  The reachable machines are
    those that submissions and compactions lead to. *)

From S2P Require Import Prelude KeyIndex Identity CommandIndex IndexSound IndexUpdate Canonical.
From S2P Require Import Graph Ir IrFacts Model Events Chain Machine Location Effects DerivedIndex.
From S2P Require Import IndexSpec Reducer Verify Authority Archive Compaction Admission Submit.
From S2P Require Import RunInv RunSteps Terminate ReducerInv MachineInv ChainInv ArchiveIndex.

(** ** Lists and maps *)

(** Two prefixes of a list without duplicates that have the same elements. *)
Lemma prefix_unique {A} `{EqDecision A} (l p s p' s' : list A) :
  NoDup l → l = p ++ s → l = p' ++ s' → (∀ x, x ∈ p ↔ x ∈ p') → p = p'.
Proof.
  revert l p'. induction p as [|x p IH]; intros l p' Hnd -> Heq Hel.
  - destruct p' as [|y p']; [done|]. specialize (Hel y). rewrite elem_of_nil in Hel.
    destruct Hel as [_ Hel]. destruct Hel. by left.
  - destruct p' as [|y p'].
    + specialize (Hel x). rewrite elem_of_nil in Hel. destruct Hel as [Hel _]. destruct Hel. by left.
    + cbn in Heq, Hnd. injection Heq as -> Heq. apply NoDup_cons in Hnd as [Hy Hnd].
      f_equal. eapply IH; [exact Hnd|done|exact Heq|]. intros z. specialize (Hel z).
      rewrite !elem_of_cons in Hel.
      assert (y ∉ p) by (intros Hp; apply Hy, elem_of_app; by left).
      assert (y ∉ p') by (rewrite Heq in Hy; intros Hp; apply Hy, elem_of_app; by left).
      naive_solver.
Qed.

Lemma foldl_delete_lookup {A} (ids : list string) (m : gmap string A) i :
  foldl (λ l i, delete i l) m ids !! i = if decide (i ∈ ids) then None else m !! i.
Proof.
  revert m. induction ids as [|x ids IH]; intros m; cbn; [done|]. rewrite IH.
  destruct (decide (i ∈ ids)) as [Hin|Hin].
  - by rewrite decide_True by by right.
  - destruct (decide (i = x)) as [->|Hne].
    + rewrite decide_True by by left. by rewrite lookup_delete_eq.
    + rewrite lookup_delete_ne by done. rewrite decide_False; [done|]. by rewrite not_elem_of_cons.
Qed.

Section CompactionInv.
Context `{Sha256} `{Canonical} `{!MachineSerialize} `{!ArchiveSerialize} `{!CompactionSerialize}
  `{SchemaCompiler} `{PlanCodec} `{!ValueSerialize}.

(** ** The last events of a replay *)

Lemma apply_event_last p ev p' rid r :
  apply_event p ev = Ok p' → runs p' !! rid = Some r →
  last_event r = event_id ev ∨ ∃ r0, runs p !! rid = Some r0 ∧ last_event r = last_event r0.
Proof.
  intros Ha Hr. unfold apply_event in Ha. apply bind_Ok in Ha as (p1 & Hens & Ha).
  assert (H1' : ∀ r1, runs p1 !! rid = Some r1 →
    ∃ r0, runs p !! rid = Some r0 ∧ last_event r1 = last_event r0).
  { unfold ensure_projection_derived_index in Hens. intros r1. destruct (runs p !! ev_run_id ev) eqn:He.
    - apply bind_Ok in Hens as (r2 & Hd & [= <-]). cbn.
      destruct (decide (rid = ev_run_id ev)) as [->|].
      + rewrite lookup_insert_eq. intros [= <-]. exists r0. split; [done|]. unfold ensure_derived in Hd.
        destruct (initialized (derived r0)); by inv_ok.
      + rewrite lookup_insert_ne by done. eauto.
    - inv_ok. eauto. }
  apply bind_Ok in Ha as ([p2 fin] & Hg & Ha). cbn in Ha.
  assert (H2' : ∀ r1, runs p2 !! rid = Some r1 → last_event r1 = event_id ev
    ∨ ∃ r0, runs p !! rid = Some r0 ∧ last_event r1 = last_event r0).
  { intros r1. unfold apply_projection_global_event in Hg. destruct (payload ev); inv_ok; eauto.
    - unfold apply_run_started in *. inv_ok. cbn. destruct (decide (rid = ev_run_id ev)) as [->|].
      + rewrite lookup_insert_eq. intros [= <-]. by left.
      + rewrite lookup_insert_ne by done. eauto.
    - destruct (facts p1 !! key); inv_ok; eauto. }
  destruct fin; [inv_ok; eauto|].
  apply bind_Ok in Ha as (r1 & Hr1 & Ha). apply bind_Ok in Ha as ([] & _ & Ha).
  apply bind_Ok in Ha as (r2 & _ & Ha). injection Ha as <-. cbn in Hr.
  destruct (decide (rid = ev_run_id ev)) as [->|].
  - rewrite lookup_insert_eq in Hr. injection Hr as <-. by left.
  - rewrite lookup_insert_ne in Hr by done. eauto.
Qed.

Lemma replay_last evs p rid r :
  replay_events evs = Ok p → runs p !! rid = Some r → last_event r ∈ event_id <$> evs.
Proof.
  intros Hre. revert rid r. refine (try_fold_inv apply_event (λ don q, ∀ rid r,
    runs q !! rid = Some r → last_event r ∈ event_id <$> don) _ _ _ _ _ Hre).
  - intros rid r. cbn. by rewrite lookup_empty.
  - intros don ev rest q q' _ IH Ha rid r Hr. rewrite fmap_app, elem_of_app.
    destruct (apply_event_last _ _ _ _ _ Ha Hr) as [->|(r0 & Hr0 & ->)]; [right; by left|left].
    by eapply IH.
Qed.
Lemma base_ids_replayed evs b i :
  replay_events evs = Ok (base_projection b) → i ∈ base_event_ids b → i ∈ event_id <$> evs.
Proof.
  unfold base_event_ids. intros Hre. rewrite elem_of_list_to_set, list_elem_of_fmap.
  intros (r & -> & (rid & Hr)%elem_of_btree_values). by eapply replay_last.
Qed.

(** ** New segments *)

Lemma archive_event_count_Ok entries n :
  archive_event_count entries = Ok n → n = N.of_nat (length (entries ≫= entry_events)).
Proof.
  unfold archive_event_count. intros Hf.
  refine (try_fold_inv _ (λ don k, k = N.of_nat (length (don ≫= entry_events))) _ _ _ _ _ Hf); [done|].
  intros don e rest k k' _ -> Hs. unfold len_u64 in Hs. inv_ok.
  match goal with Hc : checked_add _ _ = Some _ |- _ => apply checked_add_Some in Hc as [-> _] end.
  rewrite bind_app, length_app, bind_singleton. lia.
Qed.

Record new_segment (p : MachineCommandArchiveParent) (batches : list MachineCommandBatchRecord)
    (entries : list MachineCommandArchiveEntry) (s : MachineCommandArchiveSegment) : Prop := {
  ns_verify : Segment_verify s = Ok ();
  ns_entries : segment_entries s = entries;
  ns_batches : segment_batches s = batches;
  ns_parent : parent_command_index_root (header s) = ap_command_index_root p;
  ns_parent_count : parent_count (header s) = ap_count p;
  ns_count : result_count (header s) = (ap_count p + N.of_nat (length entries))%N;
  ns_events : result_event_count (header s)
    = (ap_event_count p + N.of_nat (length (entries ≫= entry_events)))%N;
  ns_head : result_admission_head (header s) = or_else (last_admission entries) (ap_admission_head p);
}.
Lemma Segment_new_Ok p batches entries updates s :
  Segment_new p batches entries updates = Ok s → new_segment p batches entries s.
Proof.
  unfold Segment_new, len_u64. intros Hs. inv_ok.
  repeat match goal with
  | Hc : checked_add _ _ = Some _ |- _ => apply checked_add_Some in Hc as [-> _]
  | Hc : archive_event_count _ = Ok _ |- _ => apply archive_event_count_Ok in Hc as ->
  end. by split.
Qed.
(** ** The cut *)

(** The events map is keyed by the identities of the log. *)
Lemma event_keyed m old evs i ev :
  log_of m old evs → NoDup (event_order m) → events m !! i = Some ev → event_id ev = i ∧ ev ∈ evs.
Proof.
  intros Hl Hnd Hi. assert (i ∈ event_order m) as Hin by (apply (lo_domain _ _ _ Hl); eauto).
  rewrite (lo_order _ _ _ Hl) in Hin. apply list_elem_of_fmap in Hin as (e & -> & He).
  pose proof (lo_lookup _ _ _ Hl Hnd e He) as Hlk. rewrite Hi in Hlk. by injection Hlk as ->.
Qed.

Lemma events_mapped m (e : CoreError) l :
  Forall (λ ev, events m !! event_id ev = Some ev) l →
  try_map (λ i, ok_or (events m !! i) e) (event_id <$> l) = Ok l.
Proof.
  induction 1 as [|ev l Hev _ IH]; [done|]. cbn. rewrite Hev. cbn. by rewrite IH.
Qed.

Lemma compaction_fold a l a' :
  try_fold compaction_event a l = Ok a' →
  try_fold apply_event (projection a) l = Ok (projection a')
  ∧ try_fold root_step (projection_root (authority a)) l = Ok (projection_root (authority a')).
Proof.
  intros Hf. refine (try_fold_inv compaction_event (λ don b,
    try_fold apply_event (projection a) don = Ok (projection b)
    ∧ try_fold root_step (projection_root (authority a)) don = Ok (projection_root (authority b)))
    _ _ _ _ _ Hf); [done|].
  intros don ev rest b b' _ [Hp Hr] Hs. unfold compaction_event in Hs.
  apply bind_Ok in Hs as ([] & _ & Hs). apply bind_Ok in Hs as (p & Hap & Hs).
  apply bind_Ok in Hs as (root & Hroot & [= <-]). cbn in *.
  rewrite !try_fold_app, Hp, Hr. cbn. rewrite Hap. unfold root_step. cbn in Hroot. by rewrite Hroot.
Qed.

(** The start of the retained events. *)
Lemma authority_start m old a :
  base_of (base m) old →
  lightweight_event_authority m
    (match base m with Some b => base_projection b | None => empty_projection end) = Ok a →
  replay_events old = Ok (projection a) ∧ root_of old = Ok (projection_root (authority a)).
Proof.
  unfold lightweight_event_authority, base_of. destruct (base m) as [b|].
  - intros (Hp & Hr & _) [= <-]. by split.
  - intros -> Ha. unfold root_of. destruct (canonical_digest PreProjectionGenesis); [|done].
    by injection Ha as <-.
Qed.
Lemma replay_app a l p : replay_events a = Ok p → replay_events (a ++ l) = try_fold apply_event p l.
Proof. unfold replay_events. intros Ha. by rewrite try_fold_app, Ha. Qed.
Lemma root_of_app a l r : root_of a = Ok r → root_of (a ++ l) = try_fold root_step r l.
Proof.
  unfold root_of. destruct (canonical_digest PreProjectionGenesis); [|done]. cbn [mbind result_bind].
  intros Ha. by rewrite try_fold_app, Ha.
Qed.

(** What the cut of the first [n] retained events consists of. *)
Record event_cut (m : Machine) (old evs : list Event) (n : nat) (c : EventCompactionCut) : Prop := {
  ec_positive : 0 < n ≤ length evs;
  ec_ids : cut_event_ids c = event_id <$> take n evs;
  ec_replay : replay_events (old ++ take n evs) = Ok (cut_projection c);
  ec_root : root_of (old ++ take n evs) = Ok (cut_projection_root c);
}.
Lemma event_cut_Ok m k c old evs :
  log_of m old evs → NoDup (event_order m) → event_compaction_cut m k = Ok c →
  event_cut m old evs (length evs - k) c.
Proof.
  intros Hl Hnd Hc. unfold event_compaction_cut in Hc. apply bind_Ok in Hc as ([] & Hk & Hc).
  apply require_Ok, Nat.ltb_lt in Hk. apply bind_Ok in Hc as (prefix & Hp & Hc).
  apply bind_Ok in Hc as (a0 & Ha0 & Hc). apply bind_Ok in Hc as (a & Ha & Hc).
  apply bind_Ok in Hc as (lc & _ & Hc). apply bind_Ok in Hc as (found & _ & [= <-]).
  rewrite (lo_order _ _ _ Hl), length_fmap in *. set (n := length evs - k) in *.
  assert (prefix = take n evs) as ->.
  { rewrite <-fmap_take, (events_mapped m) in Hp; [by injection Hp|]. apply Forall_take, Forall_forall.
    intros ev Hev. apply (lo_lookup _ _ _ Hl); [by rewrite (lo_order _ _ _ Hl)|done]. }
  destruct (authority_start m old a0 (lo_base _ _ _ Hl) Ha0) as [Hp0 Hr0].
  destruct (compaction_fold _ _ _ Ha) as [Hp1 Hr1]. split; cbn; [lia|by rewrite fmap_take| |].
  - by rewrite (replay_app _ _ _ Hp0).
  - by rewrite (root_of_app _ _ _ Hr0).
Qed.
(** ** The archived entries *)

Record entry_of (m : Machine) (a : CommandAdmission) (e : MachineCommandArchiveEntry) : Prop := {
  eo_admission : entry_admission e = a;
  eo_command : commands m !! adm_command_id a = Some (entry_command e);
  eo_verified : verify_admission_record a (entry_command e) = Ok ();
  eo_events : event_id <$> entry_events e = adm_event_ids a;
}.
Record inputs_from (m : Machine) (done : list CommandAdmission) (i : ArchiveEntryInputs) : Prop := {
  if_entries : Forall2 (entry_of m) done (input_entries i);
  if_proofs : Forall2 (λ a p, command_index_proofs m !! adm_command_id a = Some p) done (index_proofs i);
}.

Lemma archive_inputs_Ok m (f : CommandAdmission → core (list Event)) don l :
  (∀ a evs, a ∈ don → f a = Ok evs → event_id <$> evs = adm_event_ids a) →
  try_map (λ a, archive_input m a (f a)) don = Ok l → inputs_from m don (inputs_of l).
Proof.
  intros Hf Hl. apply try_map_Ok in Hl.
  assert (Forall2 (λ a ep, entry_of m a ep.1 ∧ command_index_proofs m !! adm_command_id a = Some ep.2) don l)
    as Hall.
  { apply Forall2_same_length_lookup_2; [by eapply Forall2_length|]. intros i a ep Ha Hep.
    pose proof (Forall2_lookup_lr _ _ _ _ _ _ Hl Ha Hep) as Hi. unfold archive_input in Hi.
    apply bind_Ok in Hi as (r & Hr & Hi). apply bind_Ok in Hi as ([] & Hv & Hi).
    apply bind_Ok in Hi as (evs & Hevs & Hi). apply bind_Ok in Hi as (q & Hq & [= <-]).
    apply ok_or_Ok in Hr, Hq. split; [|done]. split; cbn; [done..|].
    eapply Hf, Hevs. by eapply list_elem_of_lookup_2. }
  split; cbn; apply Forall2_fmap_r; eapply Forall2_impl; [exact Hall|by intros ? ? []|exact Hall|by intros ? ? []].
Qed.
Lemma entries_events m don entries :
  Forall2 (entry_of m) don entries →
  event_id <$> (entries ≫= entry_events) = don ≫= adm_event_ids.
Proof.
  induction 1 as [|a e don entries [_ _ _ He] _ IH]; [done|]. cbn. by rewrite fmap_app, He, IH.
Qed.
Lemma entries_admissions m don entries :
  Forall2 (entry_of m) don entries → entry_admission <$> entries = don.
Proof. induction 1 as [|a e don entries [He _ _ _] _ IH]; [done|]. by rewrite fmap_cons, He, IH. Qed.
Lemma entries_last m don entries :
  Forall2 (entry_of m) don entries → last_admission entries = admission_id <$> last don.
Proof.
  unfold last_admission. intros Hf. destruct (last don) as [a|] eqn:Hd.
  - apply last_Some in Hd as [don' ->]. apply Forall2_app_inv_l in Hf as (es & es' & _ & Hf & ->).
    inversion Hf as [|? e ? ? He Hnil]; subst. inversion Hnil; subst. rewrite last_snoc. cbn.
    by rewrite (eo_admission _ _ _ He).
  - apply last_None in Hd as ->. inversion Hf. done.
Qed.

(** The admissions up to the cut carry exactly the events of the cut. *)
Lemma event_entries_Ok m old evs n cut inputs :
  log_of m old evs → NoDup (event_order m) → event_order m = admissions m ≫= adm_event_ids →
  event_compaction_entries m (event_id <$> take n evs) cut = Ok inputs →
  inputs_from m (take (S cut) (admissions m)) inputs
  ∧ take (S cut) (admissions m) ≫= adm_event_ids = event_id <$> take n evs.
Proof.
  intros Hl Hnd Ho Hi. unfold event_compaction_entries in Hi.
  apply bind_Ok in Hi as (l & Hm & Hi). apply bind_Ok in Hi as ([] & Hset & [= <-]).
  apply require_Ok, bool_decide_eq_true in Hset. split.
  - eapply archive_inputs_Ok, Hm. intros a es _ He. unfold archived_events in He.
    apply try_map_Ok in He. revert He. generalize (adm_event_ids a).
    induction es as [|ev es IH]; intros ids He; inversion He as [|i ? ids' ? Hx Hrest]; [done|].
    cbn. rewrite (IH _ Hrest). f_equal. apply bind_Ok in Hx as (e & Hx & Hy). apply ok_or_Ok in Hx.
    apply bind_Ok in Hy as (? & _ & [= <-]). by eapply event_keyed.
  - eapply (prefix_unique (event_order m)); [done| | |].
    + rewrite Ho. rewrite <-bind_app. by rewrite take_drop.
    + rewrite (lo_order _ _ _ Hl). rewrite <-fmap_app. by rewrite take_drop.
    + intros i. rewrite <-!(elem_of_list_to_set (C:=gset string)), Hset. done.
Qed.
(** ** Rebased proofs *)

Lemma rebase_Ok p parent_root result_root nodes q :
  rebase_command_index_proof p parent_root result_root nodes = Ok q →
  IndexProof_verify q result_root = Ok () ∧ ip_command_id q = ip_command_id p
  ∧ ip_value q = ip_value p.
Proof.
  unfold rebase_command_index_proof. intros Hr. apply bind_Ok in Hr as ([] & _ & Hr).
  apply bind_Ok in Hr as (key & _ & Hr). apply bind_Ok in Hr as (x & Hm & Hr).
  apply bind_Ok in Hr as (y & Hc & Hr). apply bind_Ok in Hr as ([] & Hv & [= <-]). split; [done|].
  assert (ip_command_id x = ip_command_id p ∧ ip_value x = ip_value p) as [<- <-].
  { unfold materialized in Hm. apply bind_Ok in Hm as (depth & _ & Hm).
    destruct (ip_value p) as [v|] eqn:Hval; [by injection Hm as <-|]. cbn in Hm.
    case_match; [by injection Hm as <-|]. apply bind_Ok in Hm as (? & _ & [= <-]). by split. }
  unfold compress_nonmembership in Hc. cbn [ip_value set_siblings] in Hc.
  destruct (ip_value x) as [v|] eqn:Hx; cbn in Hc.
  - apply bind_Ok in Hc as (? & _ & [= <-]). by split.
  - apply bind_Ok in Hc as (depth & _ & Hc). apply bind_Ok in Hc as (z & Hz & Hc).
    apply bind_Ok in Hc as (es & _ & Hc). apply bind_Ok in Hc as (? & _ & [= <-]). cbn.
    split; [|done]. destruct (depth =? COMMAND_INDEX_DEPTH); [by injection Hz as <-|].
    unfold materialized in Hz. apply bind_Ok in Hz as (? & _ & Hz).
    cbn [ip_value set_siblings] in Hz. rewrite Hx in Hz. cbn in Hz.
    case_match; [by injection Hz as <-|]. apply bind_Ok in Hz as (? & _ & [= <-]). done.
Qed.
Lemma rebase_proofs_keys parent_root result_root nodes l k :
  Forall2 (λ ip q, (p ← rebase_command_index_proof ip.2 parent_root result_root nodes;
    Ok (ip.1, p)) = Ok q) l k → k.*1 = (l : list (string * MachineCommandIndexProof)).*1.
Proof.
  induction 1 as [|[j x] [j' y] a b Hxy _ IH]; [done|]. rewrite !fmap_cons, IH.
  apply bind_Ok in Hxy as (? & _ & [= <- _]). done.
Qed.
Lemma rebase_proofs_lookup parent_root result_root nodes l l' i p :
  rebase_proofs parent_root result_root nodes l = Ok l' → l !! i = Some p →
  ∃ q, l' !! i = Some q ∧ rebase_command_index_proof p parent_root result_root nodes = Ok q.
Proof.
  unfold rebase_proofs. intros Hr Hp. apply bind_Ok in Hr as (k & Hk & [= <-]).
  apply try_map_Ok in Hk. pose proof (rebase_proofs_keys _ _ _ _ _ Hk) as Hkeys.
  apply elem_of_btree_list, list_elem_of_lookup in Hp as [n Hn].
  destruct (Forall2_lookup_l _ _ _ _ _ Hk Hn) as ([j q] & Hq & Hb).
  apply bind_Ok in Hb as (q' & Hq' & [= <- <-]). exists q'. split; [|done].
  apply elem_of_list_to_map; [rewrite Hkeys; apply btree_list_NoDup_keys|].
  by eapply list_elem_of_lookup_2.
Qed.
Lemma rebase_proofs_dom parent_root result_root nodes l l' i :
  rebase_proofs parent_root result_root nodes l = Ok l' → is_Some (l' !! i) → is_Some (l !! i).
Proof.
  unfold rebase_proofs. intros Hr [q Hq]. apply bind_Ok in Hr as (k & Hk & [= <-]).
  apply try_map_Ok in Hk. pose proof (rebase_proofs_keys _ _ _ _ _ Hk) as Hkeys.
  apply elem_of_list_to_map_2, (list_elem_of_fmap_2 fst) in Hq. cbn in Hq. rewrite Hkeys in Hq.
  apply list_elem_of_fmap in Hq as ([j p] & -> & Hp). exists p. by apply elem_of_btree_list.
Qed.

(** ** A machine whose prefix was replaced *)

(** [m'] is [m] without its first [n] events and its first [k] admissions, over
    the base [b]. *)
Record compacted (m m' : Machine) (b : MachineBase) (n k : nat) : Prop := {
  cp_projection : projection m' = projection m;
  cp_plans : plans m' = plans m;
  cp_artifacts : artifacts m' = artifacts m;
  cp_authority : authority m' = authority m;
  cp_events : ∀ i, events m' !! i
    = if decide (i ∈ take n (event_order m)) then None else events m !! i;
  cp_order : event_order m' = drop n (event_order m);
  cp_admissions : admissions m' = drop k (admissions m);
  cp_commands : ∀ i, commands m' !! i
    = if decide (i ∈ adm_command_id <$> take k (admissions m)) then None else commands m !! i;
  cp_proofs : ∀ i r, commands m' !! i = Some r → ∃ p, command_index_proofs m' !! i = Some p
    ∧ ip_command_id p = i ∧ ip_value p = None
    ∧ IndexProof_verify p (base_command_index_root b) = Ok ();
  cp_proved : ∀ i, is_Some (command_index_proofs m' !! i) → is_Some (commands m' !! i);
  cp_base : base m' = Some b;
  cp_compacted : compacted_event_ids m' = base_event_ids b;
}.

(** The base is the state after the compacted prefix. *)
Record prefix_base (m : Machine) (old evs : list Event) (b : MachineBase) (n k : nat) : Prop := {
  pb_base : base_of (Some b) (old ++ take n evs);
  pb_admissions : take k (admissions m) ≫= adm_event_ids = event_id <$> take n evs;
  pb_parent : command_admission_parent [] (Some b)
    = command_admission_parent (take k (admissions m)) (base m);
}.

Lemma elem_take_drop {A} (l : list A) n x : NoDup l → x ∈ drop n l ↔ x ∈ l ∧ x ∉ take n l.
Proof.
  intros Hnd. pose proof Hnd as Hnd2. rewrite <-(take_drop n l) in Hnd2. apply NoDup_app in Hnd2 as (_ & Hdis & _).
  rewrite <-(take_drop n l) at 2. rewrite elem_of_app. naive_solver.
Qed.

Section Compacted.
Context {m m' b n k old evs} (Hm : full_inv m) (Hnd : NoDup (event_order m))
  (Hl : log_of m old evs) (Hcp : compacted m m' b n k) (Hpb : prefix_base m old evs b n k).

Lemma compacted_log : log_of m' (old ++ take n evs) (drop n evs).
Proof using All.
  assert (Hall : (old ++ take n evs) ++ drop n evs = old ++ evs)
    by (rewrite <-app_assoc; by rewrite take_drop).
  split; rewrite ?Hall.
  - rewrite (cp_order _ _ _ _ _ Hcp), (lo_order _ _ _ Hl). by rewrite fmap_drop.
  - rewrite (cp_projection _ _ _ _ _ Hcp). apply Hl.
  - rewrite (cp_authority _ _ _ _ _ Hcp). apply Hl.
  - apply Hl.
  - apply Hl.
  - intros i. rewrite (cp_events _ _ _ _ _ Hcp), (cp_order _ _ _ _ _ Hcp), elem_take_drop by done.
    pose proof (lo_domain _ _ _ Hl i) as Hd. case_decide; [|tauto]. split; [by intros []|tauto].
  - intros Hnd' ev Hev. rewrite (cp_events _ _ _ _ _ Hcp), decide_False.
    + apply (lo_lookup _ _ _ Hl Hnd). apply list_elem_of_lookup in Hev as [i Hi].
      rewrite lookup_drop in Hi. by eapply list_elem_of_lookup_2.
    + apply (list_elem_of_fmap_2 event_id) in Hev. rewrite fmap_drop, <-(lo_order _ _ _ Hl) in Hev.
      apply elem_take_drop in Hev; [tauto|done].
  - rewrite (cp_base _ _ _ _ _ Hcp). apply Hpb.
  - rewrite (cp_compacted _ _ _ _ _ Hcp). intros i. apply base_ids_replayed, Hpb.
Qed.
Lemma compacted_machine : machine_inv m'.
Proof using All.
  destruct (fi_machine _ Hm) as [Hp Hi _]. split.
  - unfold plans_verified. by rewrite (cp_plans _ _ _ _ _ Hcp).
  - by rewrite (cp_projection _ _ _ _ _ Hcp).
  - eauto using compacted_log.
Qed.
Lemma compacted_kept i r :
  commands m' !! i = Some r → commands m !! i = Some r ∧ i ∉ adm_command_id <$> take k (admissions m).
Proof using All. rewrite (cp_commands _ _ _ _ _ Hcp). by case_decide. Qed.
Lemma compacted_command_admission a :
  a ∈ drop k (admissions m) → adm_command_id a ∉ adm_command_id <$> take k (admissions m).
Proof using All.
  intros Ha. pose proof (ch_unique _ (fi_chain _ Hm)) as Hu.
  apply (list_elem_of_fmap_2 adm_command_id) in Ha. rewrite fmap_drop in Ha. rewrite fmap_take.
  apply elem_take_drop in Ha; [tauto|done].
Qed.
Lemma compacted_parent pre post :
  drop k (admissions m) = pre ++ post →
  command_admission_parent pre (Some b)
  = command_admission_parent (take k (admissions m) ++ pre) (base m).
Proof using All.
  intros _. destruct pre as [|a pre _] using rev_ind; [by rewrite app_nil_r, (pb_parent _ _ _ _ _ _ Hpb)|].
  unfold command_admission_parent. by rewrite app_assoc, !last_snoc.
Qed.
Lemma compacted_chain : chain_inv m'.
Proof using All.
  destruct (fi_chain _ Hm) as [Ha Hu Hd Hc _]. split; [| | | |apply Hcp]; rewrite ?(cp_admissions _ _ _ _ _ Hcp).
  - intros pre a post Heq. rewrite (cp_base _ _ _ _ _ Hcp), (compacted_parent _ _ Heq).
    apply (Ha _ a post). by rewrite <-app_assoc, <-Heq, take_drop.
  - rewrite <-(take_drop k (admissions m)), fmap_app in Hu. by apply NoDup_app in Hu as (_ & _ & Hu).
  - intros a Hin. rewrite (cp_commands _ _ _ _ _ Hcp), decide_False by by apply compacted_command_admission.
    apply Hd. apply list_elem_of_lookup in Hin as [i Hi]. rewrite lookup_drop in Hi.
    by eapply list_elem_of_lookup_2.
  - intros i r Hr. destruct (compacted_kept _ _ Hr) as [Hr0 Hk].
    destruct (Hc _ _ Hr0) as [? ? ? (a & Hin & Hid & Hv) _]. split; [done..| |].
    + exists a. rewrite (cp_admissions _ _ _ _ _ Hcp). split; [|done].
      rewrite <-(take_drop k (admissions m)) in Hin. apply elem_of_app in Hin as [Hin|Hin]; [|done].
      destruct Hk. rewrite <-Hid. by apply list_elem_of_fmap_2.
    + destruct (cp_proofs _ _ _ _ _ Hcp _ _ Hr) as (p & Hp & Hpi & Hpv & Hver).
      exists p, (base_command_index_root b). by rewrite (cp_base _ _ _ _ _ Hcp).
Qed.
Lemma admitted_receipt a r :
  a ∈ admissions m → commands m !! adm_command_id a = Some r →
  adm_event_ids a = receipt_event_ids (receipt r).
Proof using Hm.
  intros Hin Hr. pose proof (ch_unique _ (fi_chain _ Hm)) as Hu.
  destruct (ro_admission _ _ _ (ch_command _ (fi_chain _ Hm) _ _ Hr)) as (a' & Hin' & Hid & Hv).
  assert (a' = a) as ->.
  { apply list_elem_of_lookup in Hin as [i Hi], Hin' as [j Hj].
    assert (i = j) as <-; [|congruence].
    apply (NoDup_lookup (adm_command_id <$> admissions m) i j (adm_command_id a)); [done| |];
      rewrite list_lookup_fmap; [by rewrite Hi|rewrite Hj; cbn; by rewrite Hid]. }
  unfold verify_admission_record in Hv. inv_ok. by to_prop.
Qed.
Lemma log_unique ev ev' : ev ∈ evs → ev' ∈ evs → event_id ev = event_id ev' → ev = ev'.
Proof using Hl Hnd.
  intros H1' H2' Hid. pose proof (lo_lookup _ _ _ Hl Hnd _ H1') as Hlk. rewrite Hid in Hlk.
  rewrite (lo_lookup _ _ _ Hl Hnd _ H2') in Hlk. by injection Hlk.
Qed.
Lemma elem_of_drop_log ev : ev ∈ evs → event_id ev ∉ event_id <$> take n evs → ev ∈ drop n evs.
Proof.
  intros Hin Hn. rewrite <-(take_drop n evs) in Hin. apply elem_of_app in Hin as [Hin|]; [|done].
  destruct Hn. by apply list_elem_of_fmap_2.
Qed.
Lemma drop_log ev : ev ∈ drop n evs → ev ∈ evs ∧ event_id ev ∉ event_id <$> take n evs.
Proof using Hl Hnd.
  intros Hin. apply (list_elem_of_fmap_2 event_id) in Hin as Hid. split.
  - rewrite <-(take_drop n evs), elem_of_app. by right.
  - rewrite fmap_drop, <-(lo_order _ _ _ Hl) in Hid. rewrite fmap_take, <-(lo_order _ _ _ Hl).
    apply elem_take_drop in Hid; [tauto|done].
Qed.

Lemma compacted_closure : closure_inv m evs → closure_inv m' (drop n evs).
Proof using All.
  intros [Hrc Hev]. split.
  - intros i r x Hr Hx. destruct (compacted_kept _ _ Hr) as [Hr0 Hk].
    destruct (Hrc _ _ _ Hr0 Hx) as (ev & Hin & Hid & Hof). exists ev. split; [|done].
    apply elem_of_drop_log; [done|]. intros Hgone. rewrite <-(pb_admissions _ _ _ _ _ _ Hpb) in Hgone.
    apply list_elem_of_bind in Hgone as (a & Hae & Ha). destruct Hk.
    assert (a ∈ admissions m) as Ham by (rewrite <-(take_drop k (admissions m)), elem_of_app; by left).
    destruct (ch_admitted _ (fi_chain _ Hm) _ Ham) as [r' Hr'].
    rewrite (admitted_receipt _ _ Ham Hr') in Hae.
    destruct (Hrc _ _ _ Hr' Hae) as (ev' & Hin' & Hid' & Hof').
    pose proof (log_unique _ _ Hin' Hin Hid') as ->.
    destruct Hof as (Hc & _), Hof' as (Hc' & _).
    rewrite <-(ro_id _ _ _ (ch_command _ (fi_chain _ Hm) _ _ Hr0)), <-Hc, Hc'.
    rewrite (ro_id _ _ _ (ch_command _ (fi_chain _ Hm) _ _ Hr')). by apply list_elem_of_fmap_2.
  - intros ev (Hin & Hkeep)%drop_log. destruct (Hev _ Hin) as (r & Hr & Hi). exists r. split; [|done].
    rewrite (cp_commands _ _ _ _ _ Hcp), decide_False; [done|].
    intros (a & Hid & Ha)%list_elem_of_fmap. rewrite Hid in Hr.
    assert (a ∈ admissions m) as Ham by (rewrite <-(take_drop k (admissions m)), elem_of_app; by left).
    rewrite <-(admitted_receipt _ _ Ham Hr) in Hi. destruct Hkeep.
    rewrite <-(pb_admissions _ _ _ _ _ _ Hpb). apply list_elem_of_bind. eauto.
Qed.
Lemma compacted_order : event_order m' = admissions m' ≫= adm_event_ids.
Proof using All.
  rewrite (cp_order _ _ _ _ _ Hcp), (cp_admissions _ _ _ _ _ Hcp). pose proof (fi_order _ Hm) as Ho.
  rewrite <-(take_drop k (admissions m)), bind_app, (pb_admissions _ _ _ _ _ _ Hpb) in Ho.
  rewrite fmap_take, <-(lo_order _ _ _ Hl) in Ho. apply (app_inv_head (take n (event_order m))).
  rewrite take_drop. by rewrite Ho at 1.
Qed.
Lemma compacted_full : closure_inv m evs → full_inv m'.
Proof using All.
  intros Hcl. split; [exact compacted_machine|exact compacted_chain| |exact compacted_order|].
  - eauto using compacted_log, compacted_closure.
  - rewrite (cp_order _ _ _ _ _ Hcp). rewrite <-(take_drop n (event_order m)) in Hnd.
    by apply NoDup_app in Hnd as (_ & _ & ?).
Qed.

(** The authority root does not change. *)
Lemma compacted_admission_parent : admission_parent m' = admission_parent m.
Proof using All.
  unfold admission_parent. rewrite (cp_admissions _ _ _ _ _ Hcp), (cp_base _ _ _ _ _ Hcp).
  rewrite (compacted_parent _ [] (eq_sym (app_nil_r _))). by rewrite take_drop.
Qed.
Lemma compacted_authority_root : authority_root m' = authority_root m.
Proof using All.
  unfold authority_root, authority_root_with_batch. rewrite compacted_admission_parent.
  rewrite (cp_authority _ _ _ _ _ Hcp), (cp_plans _ _ _ _ _ Hcp), (cp_artifacts _ _ _ _ _ Hcp).
  assert (checked_add (N.of_nat (length (event_order m')))
      (match base m' with Some b => Machine.archive_event_count b | None => 0%N end)
    = checked_add (N.of_nat (length (event_order m)))
      (match base m with Some b => Machine.archive_event_count b | None => 0%N end)) as ->; [|done].
  rewrite (cp_base _ _ _ _ _ Hcp), (cp_order _ _ _ _ _ Hcp), (lo_order _ _ _ Hl).
  destruct (pb_base _ _ _ _ _ _ Hpb) as (_ & _ & ->). rewrite length_app, length_take, length_drop, length_fmap.
  pose proof (lo_base _ _ _ Hl) as Hb.
  assert (match base m with Some b => Machine.archive_event_count b | None => 0%N end
    = N.of_nat (length old)) as ->.
  { destruct (base m) as [b0|]; [by destruct Hb as (_ & _ & ->)|]. cbn in Hb. by rewrite Hb. }
  unfold checked_add.
  replace (N.of_nat (length evs - n) + N.of_nat (length old + n `min` length evs))%N
    with (N.of_nat (length evs) + N.of_nat (length old))%N by lia. done.
Qed.
End Compacted.
(** ** Event compaction *)

Lemma base_event_count m old :
  base_of (base m) old →
  match base m with Some b => Machine.archive_event_count b | None => 0%N end = N.of_nat (length old).
Proof. destruct (base m) as [b|]; cbn; [by intros (_ & _ & ->)|by intros ->]. Qed.

Record prepared (m : Machine) (done : list CommandAdmission) (a : PreparedCommandArchive) : Prop := {
  pr_parent : current_command_index_root (base m) = Ok (parent_index_root a);
  pr_segment : ∃ records entries,
    new_segment (archive_parent (base m) (parent_index_root a)) records entries (prepared_segment a)
    ∧ Forall2 (entry_of m) done entries;
  pr_updates : ∃ inputs updates, inputs_from m done inputs
    ∧ input_entries inputs = segment_entries (prepared_segment a)
    ∧ sequential_command_index_updates (parent_index_root a) (input_entries inputs)
        (index_proofs inputs) = Ok (updates, index_nodes a, result_index_root a);
}.
Lemma prepare_Ok m l inputs cut a :
  inputs_from m l inputs → prepare_compaction_archive m l inputs cut = Ok a → prepared m l a.
Proof.
  intros Hin Ha. pose proof Hin as [Hent _]. unfold prepare_compaction_archive in Ha. apply bind_Ok in Ha as (recs & _ & Ha).
  apply bind_Ok in Ha as (root & Hroot & Ha). apply bind_Ok in Ha as ([[sq nodes] res] & Hsq & Ha).
  apply bind_Ok in Ha as (s & Hs & [= <-]). apply Segment_new_Ok in Hs. split; cbn; [done| |].
  - exists recs, (input_entries inputs). by split.
  - exists inputs, sq. by rewrite (ns_entries _ _ _ _ Hs).
Qed.
(** The counts and the head of the segment over the compacted admissions *)
Lemma prepared_events m don a old gone :
  prepared m don a → base_of (base m) old → don ≫= adm_event_ids = event_id <$> gone →
  result_event_count (header (prepared_segment a)) = N.of_nat (length (old ++ gone)).
Proof.
  intros [_ (recs & es & Hn & He) _] Hb Hg. rewrite (ns_events _ _ _ _ Hn). cbn [archive_parent ap_event_count].
  rewrite (base_event_count _ _ Hb), <-Nat2N.inj_add, length_app. do 2 f_equal.
  rewrite <-(length_fmap event_id (es ≫= _)), (entries_events _ _ _ He), Hg. apply length_fmap.
Qed.
Lemma prepared_head m don a :
  prepared m don a →
  result_admission_head (header (prepared_segment a)) = snd <$> command_admission_parent don (base m).
Proof.
  intros [_ (recs & es & Hn & He) _]. rewrite (ns_head _ _ _ _ Hn), (entries_last _ _ _ He).
  unfold command_admission_parent. destruct (last don) as [a0|]; [done|]. cbn.
  destruct (base m) as [b|]; [|done]. cbn. by destruct (base_admission_head b).
Qed.

Record event_plan (m : Machine) (old evs : list Event) (n : nat) (c : EventCompactionCut)
    (a : PreparedCommandArchive) (b : MachineBase) : Prop := {
  ep_cut : event_cut m old evs n c;
  ep_prepared : prepared m (take (S (admission_index c)) (admissions m)) a;
  ep_base : prefix_base m old evs b n (S (admission_index c));
  ep_index : base_command_index_root b = result_index_root a;
  ep_result : base_command_index_root b = result_command_index_root (header (prepared_segment a));
  ep_head : archive_head b = segment_id (header (prepared_segment a));
  ep_verified : Base_verify b = Ok () ∧ validate_projection_authority m (base_projection b) = Ok ();
}.
Lemma event_base_fields m p root s b :
  event_compaction_base m p root s = Ok b →
  archive_head b = segment_id (header s) ∧ archive_count b = result_count (header s)
  ∧ Machine.archive_event_count b = result_event_count (header s)
  ∧ base_admission_head b = result_admission_head (header s)
  ∧ base_command_index_root b = result_command_index_root (header s)
  ∧ base_projection b = p ∧ base_projection_root b = root
  ∧ Base_verify b = Ok () ∧ validate_projection_authority m (base_projection b) = Ok ().
Proof.
  unfold event_compaction_base. intros Hb. apply bind_Ok in Hb as (digest & _ & Hb).
  apply bind_Ok in Hb as (prefix & _ & Hb). apply bind_Ok in Hb as (fr & _ & Hb).
  apply bind_Ok in Hb as ([] & Hv & Hb). apply bind_Ok in Hb as ([] & Ha & [= <-]). by split_and!.
Qed.
Lemma plan_event_Ok m k old evs c a b anchor :
  full_inv m → log_of m old evs → NoDup (event_order m) →
  plan_event_compaction m k = Ok (c, a, b, anchor) → event_plan m old evs (length evs - k) c a b.
Proof.
  intros Hm Hl Hnd Hp. unfold plan_event_compaction in Hp. apply bind_Ok in Hp as (c' & Hc & Hp).
  apply bind_Ok in Hp as (ca & Hca & Hp). apply bind_Ok in Hp as (inputs & Hin & Hp).
  apply bind_Ok in Hp as (a' & Ha & Hp). apply bind_Ok in Hp as ([] & Hh & Hp).
  apply bind_Ok in Hp as (b' & Hb & Hp). apply bind_Ok in Hp as ([] & _ & Hp).
  apply bind_Ok in Hp as (anchor' & _ & [= -> -> -> ->]). apply ok_or_Ok in Hca. apply require_Ok in Hh.
  pose proof (event_cut_Ok _ _ _ _ _ Hl Hnd Hc) as Hcut. rewrite (ec_ids _ _ _ _ _ Hcut) in Hin.
  destruct (event_entries_Ok _ _ _ _ _ _ Hl Hnd (fi_order _ Hm) Hin) as [Hinputs Hgone].
  pose proof (prepare_Ok _ _ _ _ _ Hinputs Ha) as Hprep. to_prop.
  destruct (event_base_fields _ _ _ _ _ Hb) as (Fh & Fc & Fe & Fa & Fi & Fp & Fr & Fv & Fw).
  assert (last (take (S (admission_index c)) (admissions m)) = Some ca) as Hlast
    by (by rewrite (take_S_r _ _ _ Hca), last_snoc).
  split; [done|done| |congruence|done|done|done].
  split; [|done|].
  - cbn. rewrite Fp, Fr, Fe. split_and!; [apply Hcut..|].
    eapply prepared_events; [exact Hprep|apply Hl|done].
  - unfold command_admission_parent. rewrite Hlast. cbn. rewrite Fa, Fc.
    match goal with Hr : result_admission_head _ = _ |- _ => rewrite Hr end. cbn. do 2 f_equal. lia.
Qed.


(** The root over the retained events is the root of the machine. *)
Lemma reset_root_Ok m b evs r :
  event_order m = event_id <$> evs → Forall (λ ev, events m !! event_id ev = Some ev) evs →
  try_fold root_step (base_projection_root b) evs = Ok r →
  reset_projection_root_to_base m b = Ok (set_authority (set_projection_root r (authority m)) m).
Proof.
  intros Ho Hall Hr. unfold reset_projection_root_to_base. rewrite Ho.
  match goal with |- (?x ≫= _) = _ => assert (x = Ok r) as -> end; [|done].
  rewrite <-Hr. generalize (base_projection_root b). clear -Hall.
  induction Hall as [|ev evs Hev _ IH]; intros root; [done|]. cbn. rewrite Hev. cbn.
  unfold root_step at 2. destruct (canonical_digest _); cbn; [apply IH|done].
Qed.
Lemma set_root_same m : set_projection_root (projection_root (authority m)) (authority m) = authority m.
Proof. by destruct m as [? ? ? ? ? ? ? ? ? ? ? ? ? ? ? ? ? []]. Qed.

Lemma install_base_Ok m b anchor evs m' :
  event_order m = event_id <$> evs → Forall (λ ev, events m !! event_id ev = Some ev) evs →
  try_fold root_step (base_projection_root b) evs = Ok (projection_root (authority m)) →
  install_base m b anchor = Ok m' →
  m' = set_base_anchor (Some anchor) (set_base (Some b) (set_compacted_event_ids (base_event_ids b) m)).
Proof.
  intros Ho Hall Hr Hi. unfold install_base in Hi.
  rewrite (reset_root_Ok (set_compacted_event_ids (base_event_ids b) m) b evs
    (projection_root (authority m))) in Hi by done.
  cbn [mbind result_bind] in Hi. injection Hi as <-. cbn [authority set_compacted_event_ids].
  rewrite set_root_same. by destruct m.
Qed.

(** The retained events and their root, in a machine without its first events *)
Lemma kept_events m old evs n ev :
  log_of m old evs → NoDup (event_order m) → ev ∈ drop n evs →
  foldl (λ l i, delete i l) (events m) (event_id <$> take n evs) !! event_id ev = Some ev.
Proof.
  intros Hl Hnd Hev. destruct (drop_log (n:=n) Hnd Hl ev Hev) as [Hin Hkeep].
  rewrite foldl_delete_lookup, decide_False by done. by apply (lo_lookup _ _ _ Hl).
Qed.
Lemma kept_root m old evs n r :
  log_of m old evs → root_of (old ++ take n evs) = Ok r →
  try_fold root_step r (drop n evs) = Ok (projection_root (authority m)).
Proof.
  intros Hl Hr. rewrite <-(root_of_app _ _ _ Hr), <-app_assoc, take_drop. apply Hl.
Qed.

Lemma replace_prefix_Ok m old evs n c a b anchor m' :
  full_inv m → log_of m old evs → NoDup (event_order m) → event_plan m old evs n c a b →
  replace_prefix m c a b anchor = Ok m' → compacted m m' b n (S (admission_index c)).
Proof.
  intros Hm Hl Hnd Hp Hr. destruct (ep_cut _ _ _ _ _ _ _ Hp) as [[_ Hn] Hids _ _].
  unfold replace_prefix in Hr. apply bind_Ok in Hr as (proofs & Hpr & Hr).
  assert (Hcut : length (cut_event_ids c) = n) by (rewrite Hids, length_fmap, length_take; lia).
  destruct (pb_base _ _ _ _ _ _ (ep_base _ _ _ _ _ _ _ Hp)) as (_ & Hroot & _).
  eapply (install_base_Ok _ _ _ (drop n evs)) in Hr; cycle 1.
  - cbn. rewrite Hcut, (lo_order _ _ _ Hl). by rewrite fmap_drop.
  - cbn. rewrite Hids. apply Forall_forall. intros ev Hev. by eapply kept_events.
  - cbn. by eapply kept_root.
  - subst m'. split; cbn; try done.
    + intros i. rewrite foldl_delete_lookup, Hids, (lo_order _ _ _ Hl). by rewrite fmap_take.
    + by rewrite Hcut.
    + intros i. by rewrite foldl_delete_lookup.
    + intros i r. rewrite foldl_delete_lookup. case_decide as Hk; [done|]. intros Hr.
      destruct (ro_proof _ _ _ (ch_command _ (fi_chain _ Hm) _ _ Hr)) as (p & root & Hp0 & Hpi & Hpv & _).
      destruct (rebase_proofs_lookup _ _ _ _ _ i p Hpr) as (q & Hq & Hreb).
      { cbn. by rewrite foldl_delete_lookup, decide_False. }
      destruct (rebase_Ok _ _ _ _ _ Hreb) as (Hv & Hqi & Hqv). exists q.
      rewrite (ep_index _ _ _ _ _ _ _ Hp). by rewrite Hqi, Hqv.
    + intros i Hi. apply (rebase_proofs_dom _ _ _ _ _ _ Hpr) in Hi. cbn in Hi. revert Hi.
      rewrite !foldl_delete_lookup. case_decide; [by intros []|]. apply (ch_proofs _ (fi_chain _ Hm)).
Qed.
(** A compaction with its report *)
Lemma compact_events_Ok m k old evs m' report :
  full_inv m → log_of m old evs → NoDup (event_order m) →
  compact_event_history m k = Ok (m', report) →
  ∃ c a b, event_plan m old evs (length evs - k) c a b
    ∧ compacted m m' b (length evs - k) (S (admission_index c))
    ∧ archive_segment report = prepared_segment a.
Proof.
  intros Hm Hl Hnd Hc. unfold compact_event_history in Hc.
  apply bind_Ok in Hc as ([[[c a] b] anchor] & Hp & Hc). apply bind_Ok in Hc as (m1 & Hr & [= <- <-]).
  pose proof (plan_event_Ok _ _ _ _ _ _ _ _ Hm Hl Hnd Hp) as Hplan. exists c, a, b.
  split; [done|]. split; [by eapply replace_prefix_Ok|done].
Qed.

(** ** Event-free compaction *)

Record free_plan (m : Machine) (old evs : list Event) (a : PreparedCommandArchive)
    (b : MachineBase) : Prop := {
  fp_prepared : prepared m (admissions m) a;
  fp_base : prefix_base m old evs b 0 (length (admissions m));
  fp_empty : event_order m = [];
  fp_index : base_command_index_root b = result_index_root a;
  fp_root : base_projection_root b = projection_root (authority m);
}.
Lemma free_tail_events m :
  event_free_tail m = true → event_order m = [] ∧ ∀ a, a ∈ admissions m → adm_event_ids a = [].
Proof.
  unfold event_free_tail. rewrite andb_true_iff, bool_decide_eq_true, forallb_Forall, Forall_forall.
  intros [Ho Hall]. split; [done|]. intros a Ha. specialize (Hall a Ha). by to_prop.
Qed.
Lemma free_events_nil (l : list CommandAdmission) :
  (∀ a, a ∈ l → adm_event_ids a = []) → l ≫= adm_event_ids = [].
Proof.
  induction l as [|a l IH]; intros Hall; [done|]. cbn. rewrite Hall by by left.
  apply IH. intros x Hx. apply Hall. by right.
Qed.
(** The last admission of a segment has its result count as sequence. *)
Lemma segment_parent m don a :
  prepared m don a →
  command_admission_parent don (base m)
  = (λ i, (result_count (header (prepared_segment a)), i))
      <$> result_admission_head (header (prepared_segment a)).
Proof.
  intros Hp. rewrite (prepared_head _ _ _ Hp). destruct Hp as [_ (recs & es & Hn & He) _].
  rewrite (ns_count _ _ _ _ Hn). cbn [archive_parent ap_count].
  unfold command_admission_parent. destruct (last don) as [x|] eqn:Hx; cbn.
  - apply last_Some in Hx as [don' ->]. apply Forall2_app_inv_l in He as (es1 & es2 & He1 & He2 & ->).
    inversion He2 as [|? e ? ? Hxe Hnil]; subst. inversion Hnil; subst.
    destruct (sc_admissions _ (Segment_verify_checked _ (ns_verify _ _ _ _ Hn))) as (first & lst & Hfirst & Hf).
    rewrite (ns_entries _ _ _ _ Hn) in Hf. apply checked_add_Some in Hfirst as [-> _].
    destruct (admissions_at _ _ _ _ (length es1) e Hf) as (_ & Hs & _); [by apply list_lookup_middle|].
    rewrite (eo_admission _ _ _ Hxe) in Hs. rewrite Hs, length_app. cbn.
    rewrite (ns_parent_count _ _ _ _ Hn). cbn. do 2 f_equal. lia.
  - destruct (base m) as [b|]; [|done]. cbn. apply last_None in Hx as ->. inversion He; subst. cbn.
    rewrite N.add_0_r. by destruct (base_admission_head b).
Qed.

Lemma plan_free_Ok m old evs a b anchor :
  full_inv m → log_of m old evs →
  plan_event_free_compaction m = Ok (a, b, anchor) → free_plan m old evs a b.
Proof.
  intros Hm Hl Hp. unfold plan_event_free_compaction in Hp. apply bind_Ok in Hp as ([] & _ & Hp).
  apply bind_Ok in Hp as ([] & Hfree & Hp). apply require_Ok, free_tail_events in Hfree as [Ho Hnil].
  apply bind_Ok in Hp as (inputs & Hin & Hp). apply bind_Ok in Hp as (a' & Ha & Hp).
  apply bind_Ok in Hp as ([] & Hz & Hp). apply bind_Ok in Hp as ([] & _ & Hp).
  apply bind_Ok in Hp as (digest & _ & Hp). apply bind_Ok in Hp as (prefix & _ & Hp).
  apply bind_Ok in Hp as ([] & _ & Hp). apply bind_Ok in Hp as ([] & _ & Hp).
  apply bind_Ok in Hp as (anchor' & _ & [= -> <- _]).
  unfold event_free_compaction_entries in Hin. apply bind_Ok in Hin as (l & Hmap & [= <-]).
  assert (prepared m (admissions m) a) as Hprep.
  { eapply prepare_Ok; [|exact Ha]. eapply archive_inputs_Ok, Hmap. intros x es Hx [= <-].
    by rewrite Hnil. }
  assert (evs = []) as ->.
  { pose proof (lo_order _ _ _ Hl) as Heq. rewrite Ho in Heq. by destruct evs. }
  split; cbn; try done.
  split.
  - cbn. rewrite app_nil_r. pose proof (lo_replay _ _ _ Hl) as Hre. pose proof (lo_root _ _ _ Hl) as Hro.
    rewrite app_nil_r in Hre, Hro. split_and!; [done..|].
    rewrite (prepared_events _ _ _ old [] Hprep (lo_base _ _ _ Hl)); [by rewrite app_nil_r|].
    by apply free_events_nil.
  - rewrite firstn_all. by apply free_events_nil.
  - rewrite firstn_all, (segment_parent _ _ _ Hprep). done.
Qed.

Lemma free_machine_Ok m old evs a b anchor m' :
  full_inv m → log_of m old evs → free_plan m old evs a b →
  install_base (drain_batches (segment_batches (prepared_segment a))
    (drain_admissions (length (admissions m)) m)) b anchor = Ok m' →
  compacted m m' b 0 (length (admissions m)).
Proof.
  intros Hm Hl Hp Hi. pose proof (fp_empty _ _ _ _ _ Hp) as Ho.
  apply (install_base_Ok _ _ _ []) in Hi; cycle 1.
  - done.
  - constructor.
  - cbn. by rewrite (fp_root _ _ _ _ _ Hp).
  - subst m'. split; cbn; try done.
    + intros i. by rewrite foldl_delete_lookup.
    + intros i r. rewrite foldl_delete_lookup, firstn_all. case_decide as Hk; [done|]. intros Hr.
      destruct (ro_admission _ _ _ (ch_command _ (fi_chain _ Hm) _ _ Hr)) as (x & Hx & Hid & _).
      destruct Hk. rewrite <-Hid. by apply list_elem_of_fmap_2.
    + intros i. rewrite !foldl_delete_lookup. case_decide; [by intros []|].
      apply (ch_proofs _ (fi_chain _ Hm)).
Qed.
Lemma compact_free_Ok m old evs m' report :
  full_inv m → log_of m old evs → compact_event_free_admissions m = Ok (m', report) →
  ∃ a b, free_plan m old evs a b ∧ compacted m m' b 0 (length (admissions m))
    ∧ archive_segment report = prepared_segment a.
Proof.
  intros Hm Hl Hc. unfold compact_event_free_admissions in Hc.
  apply bind_Ok in Hc as ([[a b] anchor] & Hp & Hc). apply bind_Ok in Hc as (m1 & Hr & [= <- <-]).
  pose proof (plan_free_Ok _ _ _ _ _ _ Hm Hl Hp) as Hplan. exists a, b. split; [done|].
  split; [|done]. by eapply free_machine_Ok.
Qed.

(** ** Reachable machines *)

(** One call of a public operation, compactions included. *)
Inductive life_step : Machine → Machine → Prop :=
| life_machine m m' : machine_step m m' → life_step m m'
| life_compact m k m' report :
    compact_event_history m k = Ok (m', report) → life_step m m'
| life_compact_free m m' report :
    compact_event_free_admissions m = Ok (m', report) → life_step m m'.
Definition reachable (m : Machine) : Prop :=
  ∃ m0, Machine_new = Ok m0 ∧ rtc life_step m0 m.
Lemma machine_steps_life m m' : rtc machine_step m m' → rtc life_step m m'.
Proof. intros Hs. eapply rtc_subrel; [|exact Hs]. intros x y. apply life_machine. Qed.

Lemma life_step_full m m' : life_step m m' → full_inv m → full_inv m'.
Proof.
  intros [x y Hs|x k y report Hc|x y report Hc] Hm; [|pose proof (fi_nodup _ Hm) as Hnd..].
  - by destruct (machine_step_full _ _ Hs Hm).
  - destruct (fi_closure _ Hm) as (old & evs & Hl & Hcl).
    destruct (compact_events_Ok _ _ _ _ _ _ Hm Hl Hnd Hc) as (c & a & b & Hp & Hcp & _).
    exact (compacted_full Hm Hnd Hl Hcp (ep_base _ _ _ _ _ _ _ Hp) Hcl).
  - destruct (fi_closure _ Hm) as (old & evs & Hl & Hcl).
    destruct (compact_free_Ok _ _ _ _ _ Hm Hl Hc) as (a & b & Hp & Hcp & _).
    exact (compacted_full Hm Hnd Hl Hcp (fp_base _ _ _ _ _ Hp) Hcl).
Qed.
Lemma life_steps_full m m' : rtc life_step m m' → full_inv m → full_inv m'.
Proof. induction 1 as [|x y z Hxy _ IH]; eauto using life_step_full. Qed.
Lemma reachable_full m : reachable m → full_inv m.
Proof. intros (m0 & Hn & Hs). apply (life_steps_full _ _ Hs). by apply new_full. Qed.
Lemma reachable_inv m : reachable m → machine_inv m.
Proof. intros Hm. by apply fi_machine, reachable_full. Qed.
Lemma reachable_step m m' : reachable m → machine_step m m' → reachable m'.
Proof.
  intros (m0 & Hn & Hs) Hst. exists m0. split; [done|]. eapply rtc_r; [exact Hs|by constructor].
Qed.
End CompactionInv.
