(* ===== verification/ArchiveMember.v ===== *)
(** * Persisted nodes, membership and the segment tree

    The nodes that a segment of [Archive] materialises are the ones by which the
    sparse tree grows, and [command_index_proof] proves the membership of an
    archived command over the entries that follow it.  Then the Merkle tree of a
    segment: paths that are produced verify, and a path that verifies ends in the
    leaf at its index.  When the hot tail of a machine is a chain of admitted
    commands with their complete batches, [Segment_new] accepts it together with
    the index updates that [sequential_command_index_updates] derives. *)

From S2P Require Import Prelude Identity CommandIndex IndexSound IndexUpdate Canonical Ir Model.
From S2P Require Import Events Chain Archive CollectionHash SparseTree SparseProof SparseSound.
From S2P Require Import SparseResolve ArchiveIndex.

Section Nodes.
Context `{Sha256}.

(** The node is identified by the hash of an input in [U]. *)
Definition node_known (U : list string) (n : MachineCommandIndexNode) : Prop :=
  match n with
  | Branch i d a b => ∃ depth, d = N.of_nat depth ∧ depth < COMMAND_INDEX_DEPTH
      ∧ command_index_node depth a b = Ok i ∧ node_input depth a b ∈ U
  | Member i key_id cid v => ∃ key, command_index_key cid = Ok key
      ∧ key_id = command_index_key_id key ∧ IndexValue_verify v = Ok ()
      ∧ i = input_hash (member_input key cid v) ∧ member_input key cid v ∈ U
  end.
Definition nodes_known (U : list string) (nodes : gmap string MachineCommandIndexNode) : Prop :=
  ∀ i n, nodes !! i = Some n → node_id_of n = i ∧ node_known U n.

Lemma node_input_inj d1 a1 b1 d2 a2 b2 h1 h2 :
  command_index_node d1 a1 b1 = Ok h1 → command_index_node d2 a2 b2 = Ok h2 →
  node_input d1 a1 b1 = node_input d2 a2 b2 → d1 = d2 ∧ a1 = a2 ∧ b1 = b2.
Proof.
  intros (Hd1 & Ha1 & Hb1 & _)%node_Ok (Hd2 & Ha2 & Hb2 & _)%node_Ok Heq.
  apply binary_input_inj in Heq. unfold node_payload in Heq.
  apply append_inj in Heq as [Hd Heq]; [|by rewrite !to_be_bytes_len].
  apply to_be_bytes_inj in Hd; [|cbn; lia..]. apply append_inj in Heq as [Ha Hb]; [|by rewrite !sha256_id_payload_len].
  assert (∀ v w, is_sha256_id v = true → is_sha256_id w = true → hash_bytes v = hash_bytes w → v = w) as Hinj.
  { intros v w Hv Hw Hvw. apply (decode_command_index_hash_inj _ _ (hash_bytes w));
      unfold decode_command_index_hash; by rewrite ?Hv, ?Hw, ?Hvw. }
  split_and!; [lia|by apply Hinj..].
Qed.
Lemma node_is_not_member d a b key cid v : node_input d a b ≠ member_input key cid v.
Proof. unfold node_input, member_input, binary_input. by intros [=]. Qed.

Lemma node_id_input d a b i :
  command_index_node d a b = Ok i → i = input_hash (node_input d a b).
Proof. by intros (_ & _ & _ & ->)%node_Ok. Qed.
Lemma node_known_inj U n m :
  collision_free U → node_known U n → node_known U m → node_id_of n = node_id_of m → n = m.
Proof.
  intros Hcf Hn Hm Hid.
  destruct n as [i d a b|i kid cid v], m as [j e a' b'|j kid' cid' v']; cbn in Hn, Hm, Hid; subst j.
  - destruct Hn as (dn & -> & _ & Hn & Hin), Hm as (dm & -> & _ & Hm & Hin').
    pose proof (node_id_input _ _ _ _ Hn) as Hh. rewrite (node_id_input _ _ _ _ Hm) in Hh.
    apply (input_hash_inj _ _ U Hcf) in Hh; [|done..]. symmetry in Hh.
    by destruct (node_input_inj _ _ _ _ _ _ _ _ Hn Hm Hh) as (-> & -> & ->).
  - destruct Hn as (dn & -> & _ & Hn & Hin), Hm as (key & _ & _ & _ & Hh & Hin').
    rewrite (node_id_input _ _ _ _ Hn) in Hh. apply (input_hash_inj _ _ U Hcf) in Hh; [|done..].
    by apply node_is_not_member in Hh.
  - destruct Hm as (dn & -> & _ & Hm & Hin), Hn as (key & _ & _ & _ & Hh & Hin').
    rewrite (node_id_input _ _ _ _ Hm) in Hh. apply (input_hash_inj _ _ U Hcf) in Hh; [|done..].
    by apply node_is_not_member in Hh.
  - destruct Hn as (key & Hk & -> & Hv & Hi & Hin), Hm as (key' & Hk' & -> & Hv' & Hh & Hin').
    rewrite Hi in Hh. apply (input_hash_inj _ _ U Hcf) in Hh; [|done..].
    destruct (member_input_full_inj _ _ _ _ _ _ Hk Hk' Hv Hv' Hh) as [-> ->].
    rewrite Hk in Hk'. by injection Hk' as ->.
Qed.
Lemma node_known_identity U n : node_known U n → IndexNode_identity n = Ok (node_id_of n).
Proof.
  destruct n as [i d a b|i kid cid v]; cbn [node_known node_id_of].
  - intros (dn & -> & Hd & Hn & _). by apply branch_identity.
  - intros (key & Hk & -> & Hv & Hi & _). by apply member_identity.
Qed.

(** ** Insertion of a node *)

Lemma insert_node_Ok U nodes n :
  collision_free U → nodes_known U nodes → node_known U n →
  ∃ nodes', insert_command_index_node nodes n = Ok nodes' ∧ nodes_known U nodes'
    ∧ nodes ⊆ nodes' ∧ nodes' !! node_id_of n = Some n.
Proof.
  intros Hcf Hns Hn. unfold insert_command_index_node. rewrite (node_known_identity U n Hn).
  cbn [mbind result_bind]. destruct (nodes !! node_id_of n) as [m|] eqn:Hm.
  - destruct (Hns _ _ Hm) as [Hid Hkm]. assert (m = n) as -> by (by eapply node_known_inj).
    rewrite bool_decide_eq_true_2 by done. cbn [require mbind result_bind]. by exists nodes.
  - exists (<[node_id_of n:=n]> nodes). split_and!; [done| |by apply insert_subseteq|by apply lookup_insert_eq].
    intros i m. destruct (decide (i = node_id_of n)) as [->|Hne].
    + rewrite lookup_insert_eq. by intros [= <-].
    + rewrite lookup_insert_ne by done. apply Hns.
Qed.

Lemma insert_path_nodes_app key rem node a b nodes node' :
  length a ≤ rem → hash_up key rem node a = Ok node' →
  insert_path_nodes key rem node (a ++ b) nodes =
    n ← insert_path_nodes key rem node a nodes;
    insert_path_nodes key (rem - length a) node' b n.
Proof.
  revert rem node nodes. induction a as [|s a IH]; intros rem node nodes Hl Hup.
  - injection Hup as ->. by rewrite Nat.sub_0_r.
  - destruct rem as [|rem]; [cbn in Hl; lia|]. cbn [app insert_path_nodes length]. rewrite hash_up_step in Hup.
    destruct (if command_index_bit key rem then _ else _) as [x y].
    apply bind_Ok in Hup as (p & Hp & Hup). rewrite Hp. cbn [mbind result_bind].
    destruct (insert_command_index_node _ _); cbn [mbind result_bind]; [|done].
    apply IH; [cbn in Hl; lia|done].
Qed.
(** The branches on the path of a key are inserted. *)
Lemma insert_path_Ok U c l key d path leaf nodes :
  collision_free U → contents_wf c l → (∀ x, x ∈ tree_inputs c → x ∈ U) → nodes_known U nodes →
  is_key key → d ≤ COMMAND_INDEX_DEPTH → path_at key d l = Ok path →
  leaf_hash (index_bits key) l = Ok leaf →
  ∃ nodes', insert_path_nodes key COMMAND_INDEX_DEPTH leaf path nodes = Ok nodes'
    ∧ nodes_known U nodes' ∧ nodes ⊆ nodes'
    ∧ ∀ e a b r, d ≤ e < COMMAND_INDEX_DEPTH →
        tree_hash (COMMAND_INDEX_DEPTH - S e) (branch false (sub key e l)) = Ok a →
        tree_hash (COMMAND_INDEX_DEPTH - S e) (branch true (sub key e l)) = Ok b →
        command_index_node e a b = Ok r → nodes' !! r = Some (Branch r (N.of_nat e) a b).
Proof.
  intros Hcf Hw HU Hns Hk Hd Hp Hleaf. pose proof (contents_wf_leaves _ _ Hw) as Hl.
  revert d Hd path Hp. refine (depth_down_ind _ _ _); [|intros d Hd IH]; intros path Hp.
  - rewrite path_at_last in Hp. injection Hp as <-. exists nodes. split_and!; [done..|lia].
  - rewrite path_at_step in Hp by done. apply bind_Ok in Hp as (p & Hp & Hs).
    apply bind_Ok in Hs as (s & Hs & [= <-]).
    destruct (IH p Hp) as (nodes1 & Hins & Hns1 & Hsub & Hall).
    destruct (path_at_Ok key (S d) l) as (q & Hq & Hql & _); [lia|done|].
    rewrite Hp in Hq. injection Hq as <-.
    destruct (sub_hash_Ok key (S d) l) as (cur & Hcur & _); [lia|done|].
    rewrite (insert_path_nodes_app key _ leaf p [s] nodes cur); [|lia|].
    2:{ by rewrite (hash_up_path key (S d) l p leaf) by (done || lia). }
    rewrite Hins, Hql. cbn [mbind result_bind].
    replace (COMMAND_INDEX_DEPTH - (COMMAND_INDEX_DEPTH - S d)) with (S d) by lia.
    cbn [insert_path_nodes]. rewrite sub_hash_flip in Hs by done. unfold sub_hash in Hcur.
    rewrite sub_S in Hcur by done.
    set (xy := if command_index_bit key d then (s, cur) else (cur, s)).
    assert (tree_hash (COMMAND_INDEX_DEPTH - S d) (branch false (sub key d l)) = Ok xy.1
      ∧ tree_hash (COMMAND_INDEX_DEPTH - S d) (branch true (sub key d l)) = Ok xy.2) as [Hx Hy].
    { unfold xy. by destruct (command_index_bit key d). }
    destruct xy as [x y]. cbn [fst snd] in Hx, Hy.
    destruct (sub_hash_Ok key d l) as (r & Hr & _); [lia|done|]. unfold sub_hash in Hr.
    rewrite (height_S d) in Hr by done. rewrite tree_hash_step, Hx, Hy in Hr;
      [|lia|rewrite <-height_S by done; apply sub_wf; [lia|done]]. cbn [mbind result_bind] in Hr.
    replace (COMMAND_INDEX_DEPTH - S (COMMAND_INDEX_DEPTH - S d)) with d in Hr by lia.
    rewrite Hr. cbn [mbind result_bind].
    destruct (insert_node_Ok U nodes1 (Branch r (N.of_nat d) x y)) as (nodes2 & Hins2 & Hns2 & Hsub2 & Hn2);
      [done..| |].
    { exists d. split_and!; [done..|]. apply HU. by eapply node_covered. }
    rewrite Hins2. cbn [mbind result_bind]. exists nodes2. split_and!; [done..|by etrans|].
    intros e a b r' He Ha Hb Hr'. destruct (decide (e = d)) as [->|Hne].
    + rewrite Hx in Ha. rewrite Hy in Hb. simplify_eq. rewrite Hr in Hr'. by simplify_eq.
    + eapply lookup_weaken, Hsub2. apply Hall; [lia|done..].
Qed.

(** ** A store that grows *)

Lemma union_keep U (nodes nodes' store : gmap string MachineCommandIndexNode) r n :
  collision_free U → nodes_known U nodes' → nodes ⊆ nodes' →
  (nodes ∪ store) !! r = Some n → node_id_of n = r → node_known U n →
  (nodes' ∪ store) !! r = Some n.
Proof.
  intros Hcf Hns Hsub Hr Hid Hn. apply lookup_union_Some_raw in Hr.
  apply lookup_union_Some_raw. destruct Hr as [Hr|[Hnone Hr]].
  - left. by eapply lookup_weaken.
  - destruct (nodes' !! r) as [m|] eqn:Hm; [|by right]. left. f_equal.
    destruct (Hns _ _ Hm) as [Hid' Hm']. eapply node_known_inj; [done..|]. congruence.
Qed.

(** One update adds the nodes that the grown tree needs. *)
Lemma insert_update_serves U c l key p v nodes store :
  collision_free U → contents_wf c l → faithful p c l key → ip_value p = None →
  IndexValue_verify v = Ok () →
  (∀ x, x ∈ tree_inputs ((ip_command_id p, v) :: c) → x ∈ U) →
  nodes_known U nodes → serves (nodes ∪ store) c l →
  ∃ l' nodes', insert_update_nodes nodes p (Ok v) = Ok nodes' ∧ nodes_known U nodes'
    ∧ contents_wf ((ip_command_id p, v) :: c) l'
    ∧ serves (nodes' ∪ store) ((ip_command_id p, v) :: c) l'.
Proof.
  intros Hcf Hw Hf Hn Hv HU Hns Hsv.
  destruct (faithful_path _ _ _ _ Hf) as (depth & m & path & Hs & Hm & Hfp & Hp & Hms & Hmv). rewrite Hn in Hmv.
  pose proof (ff_key _ _ _ _ Hf) as Hk. pose proof (key_is_key _ _ Hk) as Hkey.
  pose proof (key_identity _ _ Hk) as [Hid Hlen].
  pose proof (faithful_fresh _ _ _ _ Hw Hf Hn) as Hfresh. pose proof Hw as [Hc Hnd].
  set (x := input_hash (member_input key (ip_command_id p) v)).
  set (c' := (ip_command_id p, v) :: c) in *. set (l' := (index_bits key, x) :: l).
  assert (contents_wf c' l') as Hw' by (split; [by apply contents_cons; eauto 10|by constructor]).
  pose proof (contents_wf_leaves _ _ Hw') as Hl'.
  assert (slot_input (index_bits key) c' = member_input key (ip_command_id p) v) as Hslot
    by (by apply slot_insert_eq).
  destruct (insert_node_Ok U nodes (Member x (command_index_key_id key) (ip_command_id p) v))
    as (nodes1 & Hins1 & Hns1 & Hsub1 & Hn1); [done..| |].
  { exists key. split_and!; [done..|]. rewrite <-Hslot. apply HU. by eapply slot_covered. }
  destruct (insert_path_Ok U c' l' key 0 path x nodes1) as (nodes2 & Hins2 & Hns2 & Hsub2 & Hall);
    [done..|lia| | |].
  { unfold l'. by rewrite path_at_insert by (done || lia). }
  { apply leaf_hash_insert. }
  exists l', nodes2. split; [|split; [done|split; [done|]]].
  { unfold insert_update_nodes. rewrite Hm, Hmv. cbn [mbind result_bind ip_command_id absence_proof].
    rewrite Hk. cbn [mbind result_bind]. rewrite member_leaf_valid by done. fold x. cbn [mbind result_bind].
    rewrite Hins1. cbn [mbind result_bind siblings]. done. }
  assert (nodes ⊆ nodes2) as Hsub by (by etrans). split.
  - intros j d a b r Hj Hd Hne Ha Hb Hr.
    destruct (decide (take d (index_bits key) = take d (index_bits j))) as [Heq|Hoff].
    + apply lookup_union_Some_raw. left.
      assert (sub j d l' = sub key d l') as Hjk by (unfold sub; by rewrite Heq).
      rewrite Hjk in Ha, Hb. apply Hall; [lia|done..].
    + assert (sub j d l' = sub j d l) as Hjl by (apply sub_insert_off; [lia|done]).
      assert (node_input d a b ∈ U) as Hin by (apply HU; by eapply node_covered).
      rewrite Hjl in Ha, Hb, Hne.
      eapply (union_keep U nodes nodes2); [done..| |done|by exists d].
      by apply (sv_branch _ _ _ Hsv j d).
  - intros cid w k leaf Hin Hkc ->. apply elem_of_cons in Hin as [[= -> ->]|Hin].
    + rewrite Hk in Hkc. injection Hkc as <-. apply lookup_union_Some_raw. left.
      by eapply lookup_weaken, Hsub2.
    + eapply (union_keep U nodes nodes2); [done..| |done|].
      * by apply (sv_member _ _ _ Hsv cid w k).
      * exists k. split_and!; [done..|by eapply contents_value|done|]. apply HU.
        destruct (tree_inputs_eq c' l' Hw') as (es & ? & ? & _ & _ & _ & ->). rewrite !elem_of_app. right. left.
        unfold member_inputs. apply list_elem_of_bind. exists (cid, w). split; [|by right].
        cbn [fst snd]. rewrite Hkc. by left.
Qed.
End Nodes.

Section Segment.
Context `{Sha256} `{Canonical} `{!MachineSerialize} `{!ArchiveSerialize}.

(** The nodes of a sequence of accepted updates. *)
Lemma fold_nodes_serve U entries updates c l r items r' nodes store :
  collision_free U →
  (∀ x, x ∈ stage_inputs c items ++ update_inputs updates → x ∈ U) →
  contents_wf c l → index_root c = Ok r →
  try_fold apply_command_index_update r (zip entries updates) = Ok r' →
  length entries = length updates → archive_items entries = Ok items →
  nodes_known U nodes → serves (nodes ∪ store) c l →
  ∃ nodes' l', try_fold (λ nodes (eu : MachineCommandArchiveEntry * MachineCommandIndexProof),
        insert_update_nodes nodes eu.2 (command_index_entry_value eu.1)) nodes (zip entries updates)
      = Ok nodes'
    ∧ contents_wf (extend c items) l' ∧ index_root (extend c items) = Ok r'
    ∧ serves (nodes' ∪ store) (extend c items) l'.
Proof.
  intros Hcf. revert updates c l r items nodes.
  induction entries as [|e entries IH]; intros updates c l r items nodes HU Hw Hr Ha Hl Hi Hns Hsv.
  - injection Hi as <-. destruct updates; [|done]. injection Ha as <-. by exists nodes, l.
  - destruct updates as [|u updates]; [done|]. injection Hl as Hl. cbn [zip zip_with try_fold] in Ha.
    apply bind_Ok in Ha as (r1 & Ha & Hrest). unfold archive_items in Hi. cbn [try_map] in Hi.
    apply bind_Ok in Hi as (x & Hx & Hi). apply bind_Ok in Hi as (items' & Hi & [= <-]).
    unfold entry_item in Hx. apply bind_Ok in Hx as (v & Hv & [= <-]).
    assert (collision_free (stage_inputs c ((entry_command_id e, v) :: items') ++ update_inputs (u :: updates)))
      as Hstage by (by eapply collision_free_subset).
    apply stage_collisions in Hstage as [Hcf1 _].
    destruct (apply_update_inserts c l r e u v r1) as (l1 & key & Hw1 & Hr1 & Hid & Hval & Hvv & Hf);
      [done..|].
    destruct (insert_update_serves U c l key u v nodes store) as (l1' & nodes1 & Hins & Hns1 & Hw1' & Hsv1);
      [done..| |done|done|].
    { intros y Hy. apply HU, elem_of_app. left. cbn [stage_inputs]. apply elem_of_app. right.
      rewrite Hid in Hy. by apply stage_inputs_first. }
    rewrite Hid in Hw1', Hsv1. cbn [zip zip_with try_fold fst snd]. rewrite Hv, Hins. cbn [mbind result_bind].
    apply (IH updates _ l1' r1 items' nodes1); [|done..].
    intros y Hy. apply HU. change (update_inputs (u :: updates)) with (proof_inputs u ++ update_inputs updates).
    cbn [stage_inputs]. rewrite !elem_of_app in *. tauto.
Qed.
End Segment.

Section Member.
Context `{Sha256} `{Canonical} `{!MachineSerialize} `{!ArchiveSerialize}.

(** A proof that the contents have [v] for [cid]. *)
Definition member_of (p : MachineCommandIndexProof) (c : contents) (l : leaves) (cid : string)
    (v : MachineCommandIndexValue) : Prop :=
  ip_command_id p = cid ∧ ip_value p = Some v ∧ ∃ key, faithful p c l key.

(** What one accepted update records, and the membership proof it proves. *)
Lemma update_records c l r e u v r' :
  contents_wf c l → index_root c = Ok r → apply_command_index_update r (e, u) = Ok r' →
  command_index_entry_value e = Ok v → collision_free (tree_inputs c ++ proof_inputs u) →
  ∃ l' nodes key path, contents_wf ((entry_command_id e, v) :: c) l'
    ∧ index_root ((entry_command_id e, v) :: c) = Ok r' ∧ IndexProof_verify u r = Ok ()
    ∧ record_command_index_member_update u v = Ok (nodes, r') ∧ nodes_ok l l' nodes
    ∧ faithful u c l key ∧ ip_value u = None ∧ ip_command_id u = entry_command_id e
    ∧ full_path u = Ok path
    ∧ member_of (inserted_proof u v path) ((entry_command_id e, v) :: c) l' (entry_command_id e) v.
Proof.
  intros Hw Hr Ha Hv Hcf.
  destruct (apply_update_inserts c l r e u v r') as (_ & key & _ & Hr' & Hid & Hval & Hvv & Hf); [done..|].
  destruct (insert_faithful u c l key v) as (l' & nodes & r'' & path & Hw' & Hrec & _ & Hroot & Hn & Hfp & Hf');
    [done..|]. rewrite Hid in Hw', Hroot, Hf'. rewrite Hr' in Hroot. injection Hroot as <-.
  exists l', nodes, key, path. pose proof (faithful_verifies u c l key r Hw Hf Hr).
  repeat (split; [done|]). by exists key.
Qed.

(** An update rebases the membership proof of another command. *)
Lemma member_rebase c l c' l' u key nodes r r' q cid w v :
  contents_wf c l → contents_wf c' l' → c' = (ip_command_id u, v) :: c →
  faithful u c l key → ip_value u = None → nodes_ok l l' nodes →
  index_root c = Ok r → index_root c' = Ok r' → member_of q c l cid w →
  ∃ q', rebase_command_index_proof q r r' nodes = Ok q' ∧ member_of q' c' l' cid w.
Proof.
  intros Hw Hw' -> Hf Hval Hn Hr Hr' (Hid & Hqv & kq & Hfq).
  pose proof (ff_key _ _ _ _ Hf) as Hk. pose proof (ff_key _ _ _ _ Hfq) as Hkq.
  assert (index_bits key ≠ index_bits kq) as Hne.
  { intros Heq. pose proof (ff_leaf _ _ _ _ Hf) as Hl1. pose proof (ff_leaf _ _ _ _ Hfq) as Hl2.
    rewrite Heq, <-Hl2 in Hl1. unfold leaf_input in Hl1. rewrite Hval, Hqv in Hl1.
    by apply eq_sym, member_is_not_empty in Hl1. }
  destruct (rebase_faithful q c l ((ip_command_id u, v) :: c) l' kq nodes r r') as (q' & Hreb & Hfq' & Hidq & Hvq); [done..| |done|done|].
  { by eapply slot_insert_ne. }
  exists q'. split; [done|]. split; [by rewrite Hidq|]. split; [by rewrite Hvq|]. by exists kq.
Qed.

(** One step over a later entry. *)
Lemma descendant_step_Ok c l r e u v r' q cid w :
  contents_wf c l → index_root c = Ok r → apply_command_index_update r (e, u) = Ok r' →
  command_index_entry_value e = Ok v → collision_free (tree_inputs c ++ proof_inputs u) →
  member_of q c l cid w →
  ∃ l' q', descendant_step (r, Some q) (e, u) = Ok (r', Some q')
    ∧ contents_wf ((entry_command_id e, v) :: c) l'
    ∧ index_root ((entry_command_id e, v) :: c) = Ok r'
    ∧ member_of q' ((entry_command_id e, v) :: c) l' cid w.
Proof.
  intros Hw Hr Ha Hv Hcf Hq.
  destruct (update_records c l r e u v r') as (l' & nodes & key & path & Hw' & Hr' & Hver & Hrec & Hn & Hf & Hval & Hid & _);
    [done..|].
  destruct (member_rebase c l ((entry_command_id e, v) :: c) l' u key nodes r r' q cid w v)
    as (q' & Hreb & Hq'); try done; [by rewrite Hid|].
  exists l', q'. split_and!; [|done..]. unfold descendant_step. rewrite Hver. cbn [mbind result_bind].
  rewrite Hv. cbn [mbind result_bind]. rewrite Hrec. cbn [mbind result_bind ok_or]. by rewrite Hreb.
Qed.
Lemma descendant_fold_Ok entries updates c l r items r' q cid w :
  contents_wf c l → index_root c = Ok r →
  try_fold apply_command_index_update r (zip entries updates) = Ok r' →
  length entries = length updates → archive_items entries = Ok items →
  collision_free (stage_inputs c items ++ update_inputs updates) → member_of q c l cid w →
  ∃ l' q', try_fold descendant_step (r, Some q) (zip entries updates) = Ok (r', Some q')
    ∧ contents_wf (extend c items) l' ∧ index_root (extend c items) = Ok r'
    ∧ member_of q' (extend c items) l' cid w.
Proof.
  revert updates c l r items q. induction entries as [|e entries IH];
    intros updates c l r items q Hw Hr Ha Hl Hi Hcf Hq.
  - injection Hi as <-. destruct updates; [|done]. injection Ha as <-. by exists l, q.
  - destruct updates as [|u updates]; [done|]. injection Hl as Hl. cbn [zip zip_with try_fold] in Ha.
    apply bind_Ok in Ha as (r1 & Ha & Hrest). unfold archive_items in Hi. cbn [try_map] in Hi.
    apply bind_Ok in Hi as (x & Hx & Hi). apply bind_Ok in Hi as (items' & Hi & [= <-]).
    unfold entry_item in Hx. apply bind_Ok in Hx as (v & Hv & [= <-]).
    apply stage_collisions in Hcf as [Hcf1 Hcf].
    destruct (descendant_step_Ok c l r e u v r1 q cid w) as (l1 & q1 & Hstep & Hw1 & Hr1 & Hq1); [done..|].
    cbn [zip zip_with try_fold]. rewrite Hstep. cbn [mbind result_bind].
    by apply (IH updates _ l1 r1 items' q1).
Qed.

(** ** The segment of the command itself *)

Lemma membership_step_later target index st q eu :
  index ≠ target → membership_step target (st, Some q) (index, eu) = descendant_step (st, Some q) eu.
Proof.
  intros Hne. destruct eu as [e u]. unfold membership_step, descendant_step.
  destruct (IndexProof_verify u st); cbn [mbind result_bind]; [|done].
  destruct (command_index_entry_value e); cbn [mbind result_bind]; [|done].
  destruct (record_command_index_member_update _ _) as [[nodes r]|]; cbn [mbind result_bind]; [|done].
  rewrite (proj2 (Nat.eqb_neq _ _) Hne). cbn [ok_or mbind result_bind].
  by destruct (rebase_command_index_proof _ _ _ _).
Qed.
Lemma membership_fold_later target k l st q :
  target < k →
  try_fold (membership_step target) (st, Some q) (imap (λ i, pair (k + i)) l)
    = try_fold descendant_step (st, Some q) l.
Proof.
  revert k st q. induction l as [|eu l IH]; intros k st q Hk; [done|]. cbn [imap try_fold].
  rewrite membership_step_later by lia.
  destruct (descendant_step (st, Some q) eu) as [[st' m]|] eqn:Hs; cbn [mbind result_bind]; [|done].
  assert (∃ q', m = Some q') as [q' ->].
  { destruct eu as [e u]. unfold descendant_step in Hs. inv_ok.
    match goal with rp : CommandIndexNodeUpdates * string |- _ => destruct rp end. inv_ok. eauto. }
  rewrite <-(IH (S k) st' q') by lia. f_equal. apply imap_ext. intros i x _. cbn. f_equal. lia.
Qed.

Lemma membership_fold_Ok target k entries updates c l r items r' e v :
  contents_wf c l → index_root c = Ok r →
  try_fold apply_command_index_update r (zip entries updates) = Ok r' →
  length entries = length updates → archive_items entries = Ok items →
  collision_free (stage_inputs c items ++ update_inputs updates) →
  k ≤ target → entries !! (target - k) = Some e → command_index_entry_value e = Ok v →
  ∃ l' q, try_fold (membership_step target) (r, None) (imap (λ i, pair (k + i)) (zip entries updates))
      = Ok (r', Some q)
    ∧ contents_wf (extend c items) l' ∧ index_root (extend c items) = Ok r'
    ∧ member_of q (extend c items) l' (entry_command_id e) v.
Proof.
  revert k updates c l r items. induction entries as [|e1 entries IH];
    intros k updates c l r items Hw Hr Ha Hl Hi Hcf Hk He Hv; [done|].
  destruct updates as [|u updates]; [done|]. injection Hl as Hl. cbn [zip zip_with try_fold] in Ha.
  apply bind_Ok in Ha as (r1 & Ha & Hrest). unfold archive_items in Hi. cbn [try_map] in Hi.
  apply bind_Ok in Hi as (x & Hx & Hi). apply bind_Ok in Hi as (items' & Hi & [= <-]).
  unfold entry_item in Hx. apply bind_Ok in Hx as (v1 & Hv1 & [= <-]).
  apply stage_collisions in Hcf as [Hcf1 Hcf].
  destruct (update_records c l r e1 u v1 r1)
    as (l1 & nodes & key & path & Hw1 & Hr1 & Hver & Hrec & Hn & Hf & Hval & Hid & Hfp & Hmem); [done..|].
  cbn [zip zip_with imap try_fold]. rewrite Nat.add_0_r.
  assert (∀ st, try_fold (membership_step target) st (imap ((λ i, pair (k + i)) ∘ S) (zip entries updates))
    = try_fold (membership_step target) st (imap (λ i, pair (S k + i)) (zip entries updates))) as Himap.
  { intros st. f_equal. apply imap_ext. intros i x _. cbn. f_equal. lia. }
  destruct (Nat.eqb_spec k target) as [->|Hne].
  - rewrite Nat.sub_diag in He. injection He as ->. rewrite Hv in Hv1. injection Hv1 as <-.
    assert (membership_step target (r, None) (target, (e, u)) = Ok (r1, Some (inserted_proof u v path))) as ->.
    { destruct (faithful_path _ _ _ _ Hf) as (depth & m & path' & Hs & Hm & Hfp' & _ & Hms & Hmv).
      rewrite Hfp in Hfp'. injection Hfp' as <-. rewrite Hval in Hmv. destruct Hmem as (_ & _ & km & Hmf).
      unfold membership_step. rewrite Hver. cbn [mbind result_bind]. rewrite Hv. cbn [mbind result_bind].
      rewrite Hrec. cbn [mbind result_bind]. rewrite Nat.eqb_refl, Hm. cbn [mbind result_bind].
      assert ({| proof_version := proof_version m; ip_command_id := ip_command_id m; ip_value := Some v;
        empty_depth := None; siblings := siblings m |} = inserted_proof u v path) as -> by (by rewrite Hmv).
      by rewrite (faithful_verifies _ _ _ _ _ Hw1 Hmf Hr1). }
    cbn [mbind result_bind].
    rewrite Himap, membership_fold_later by lia.
    destruct (descendant_fold_Ok entries updates _ l1 r1 items' r' (inserted_proof u v path)
      (entry_command_id e) v Hw1 Hr1 Hrest Hl Hi Hcf) as (l' & q & Hq & Hw' & Hr' & Hmq);
      [exact Hmem|].
    by exists l', q.
  - assert (membership_step target (r, None) (k, (e1, u)) = Ok (r1, None)) as ->.
    { unfold membership_step. rewrite Hver. cbn [mbind result_bind]. rewrite Hv1. cbn [mbind result_bind].
      rewrite Hrec. cbn [mbind result_bind]. by rewrite (proj2 (Nat.eqb_neq _ _) Hne). }
    cbn [mbind result_bind]. rewrite Himap.
    apply (IH (S k) updates _ l1 r1 items'); [done..|lia| |done].
    by replace (target - k) with (S (target - S k)) in He by lia.
Qed.

(** ** Later segments *)

(** The contents after a list of segments, and everything they hash. *)
Fixpoint extend_all (c : contents) (ds : list MachineCommandArchiveSegment) : contents :=
  match ds with [] => c | d :: ds => extend_all (extend c (archived d)) ds end.
Fixpoint chain_inputs (c : contents) (ds : list MachineCommandArchiveSegment) : list string :=
  match ds with [] => [] | d :: ds => segment_inputs c d ++ chain_inputs (extend c (archived d)) ds end.
(** Each segment continues the one before it. *)
Fixpoint linked (h : MachineCommandArchiveSegmentHeader) (ds : list MachineCommandArchiveSegment)
    : Prop :=
  match ds with
  | [] => True
  | d :: ds => Segment_verify d = Ok () ∧ parent_segment (header d) = Some (segment_id h)
      ∧ parent_command_index_root (header d) = result_command_index_root h ∧ linked (header d) ds
  end.
Definition last_header (h : MachineCommandArchiveSegmentHeader)
    (ds : list MachineCommandArchiveSegment) : MachineCommandArchiveSegmentHeader :=
  default h (header <$> last ds).
Lemma last_header_cons h d ds : last_header h (d :: ds) = last_header (header d) ds.
Proof. unfold last_header. rewrite last_cons. by destruct (last ds). Qed.

Lemma descendants_Ok ds h c l q cid w :
  linked h ds → contents_wf c l → index_root c = Ok (result_command_index_root h) →
  collision_free (chain_inputs c ds) → member_of q c l cid w →
  ∃ l' q', try_fold descendant_segment (h, result_command_index_root h, Some q) ds
      = Ok (last_header h ds, result_command_index_root (last_header h ds), Some q')
    ∧ contents_wf (extend_all c ds) l'
    ∧ index_root (extend_all c ds) = Ok (result_command_index_root (last_header h ds))
    ∧ member_of q' (extend_all c ds) l' cid w.
Proof.
  revert h c l q. induction ds as [|d ds IH]; intros h c l q Hlink Hw Hr Hcf Hq; [by exists l, q|].
  destruct Hlink as (Hd & Hp & Hroot & Hlink). destruct (Segment_verify_checked d Hd) as [_ Hl _ _ Ha Hi _ _].
  cbn [chain_inputs] in Hcf. rewrite Hroot in Ha.
  destruct (descendant_fold_Ok _ _ c l _ _ _ q cid w Hw Hr Ha Hl Hi) as (l1 & q1 & Hfold & Hw1 & Hr1 & Hq1);
    [by eapply collision_free_app_l|done|].
  destruct (IH (header d) _ l1 q1 Hlink Hw1 Hr1) as (l' & q' & Hrest & Hw' & Hr' & Hq'); [|done|].
  { eapply collision_free_subset, Hcf. intros x Hx. apply elem_of_app. by right. }
  exists l', q'. rewrite last_header_cons. cbn [try_fold extend_all]. split; [|done].
  assert (descendant_segment (h, result_command_index_root h, Some q) d
    = Ok (header d, result_command_index_root (header d), Some q1)) as ->; [|done].
  unfold descendant_segment. rewrite Hd. cbn [mbind result_bind].
  rewrite !bool_decide_eq_true_2 by done. cbn [andb require mbind result_bind]. by rewrite Hfold.
Qed.
(** The proof of the membership of an archived command against the root of the
    last segment *)
Lemma command_index_proof_Ok s target e v ds c :
  Segment_verify s = Ok () → indexes (parent_command_index_root (header s)) c →
  segment_entries s !! target = Some e → command_index_entry_value e = Ok v →
  linked (header s) ds → collision_free (chain_inputs c (s :: ds)) →
  ∃ p, command_index_proof s target ds = Ok p ∧ ip_command_id p = entry_command_id e
    ∧ ip_value p = Some v
    ∧ IndexProof_verify p (result_command_index_root (last_header (header s) ds)) = Ok ()
    ∧ ∀ x, x ∈ proof_inputs p → x ∈ tree_inputs (extend_all c (s :: ds)).
Proof.
  intros Hs [[l Hw] Hr] He Hv Hlink Hcf.
  destruct (Segment_verify_checked s Hs) as [_ Hl _ _ Ha Hi _ _]. cbn [chain_inputs] in Hcf.
  destruct (membership_fold_Ok target 0 (segment_entries s) (command_index_updates s) c l _ (archived s) _ e v
    Hw Hr Ha Hl Hi) as (l1 & q & Hfold & Hw1 & Hr1 & Hq);
    [by eapply collision_free_app_l|lia|by rewrite Nat.sub_0_r|done|].
  destruct (descendants_Ok ds (header s) _ l1 q (entry_command_id e) v Hlink Hw1 Hr1) as (l' & p & Hrest & Hw' & Hr' & Hp);
    [|done|].
  { eapply collision_free_subset, Hcf. intros x Hx. apply elem_of_app. by right. }
  destruct Hp as (Hid & Hval & key & Hf). exists p. split; [|split; [done|split; [done|split]]].
  - unfold command_index_proof. rewrite Hs. cbn [mbind result_bind].
    rewrite (proj2 (Nat.ltb_lt _ _)) by (by eapply lookup_lt_Some). cbn [require mbind result_bind].
    change (imap pair ?z) with (imap (λ i, pair (0 + i)) z). rewrite Hfold. cbn [mbind result_bind].
    rewrite bool_decide_eq_true_2 by done. cbn [require mbind result_bind]. rewrite Hrest.
    cbn [mbind result_bind ok_or]. by rewrite (faithful_verifies _ _ _ _ _ Hw' Hf Hr').
  - by eapply faithful_verifies.
  - intros x. by eapply faithful_inputs.
Qed.
End Member.

Section Merkle.
Context `{Sha256} `{Canonical} `{!MachineSerialize} `{!ArchiveSerialize}.

Lemma archive_content_id_valid domain v i : archive_content_id domain v = Ok i → is_sha256_id i = true.
Proof.
  unfold archive_content_id, content_id_of. intros Hc. inv_ok. unfold is_sha256_id, content_id_of_bytes.
  rewrite strip_prefix_app. apply sha256_bytes_digest.
Qed.
Lemma archive_content_id_parent l r i : command_archive_merkle_parent l r = Ok i → is_sha256_id i = true.
Proof. apply archive_content_id_valid. Qed.

Lemma list_pair_ind {A} (P : list A → Prop) :
  P [] → (∀ a, P [a]) → (∀ a b l, P l → P (a :: b :: l)) → ∀ l, P l.
Proof.
  intros Hnil Hone Htwo l. assert (P l ∧ ∀ a, P (a :: l)) as [? _]; [|done].
  induction l as [|b l [IH1 IH2]]; [by split|]. split; [apply IH2|]. intros a. by apply Htwo.
Qed.

(** What a node of the next level is made of. *)
Definition pair_at (level : list string) (i : nat) (a b : string) : Prop :=
  level !! (2 * i) = Some a
  ∧ (level !! S (2 * i) = Some b ∨ (level !! S (2 * i) = None ∧ b = a)).
Lemma next_level_Ok level level' :
  next_level level = Ok level' →
  length level' = (length level + 1) / 2
  ∧ ∀ i p, level' !! i = Some p → ∃ a b, pair_at level i a b ∧ command_archive_merkle_parent a b = Ok p.
Proof.
  revert level'. induction level as [|a|a b level IH] using list_pair_ind; intros level' Hn; cbn [next_level] in Hn.
  - injection Hn as <-. by split.
  - apply bind_Ok in Hn as (p & Hp & [= <-]). split; [done|]. intros [|i] q Hq; [|done].
    injection Hq as <-. exists a, a. split; [|done]. split; [done|by right].
  - apply bind_Ok in Hn as (p & Hp & Hn). apply bind_Ok in Hn as (rest & Hrest & [= <-]).
    destruct (IH rest Hrest) as [Hlen Hat]. split.
    + cbn [length]. rewrite Hlen. replace (S (S (length level)) + 1) with (length level + 1 + 1 * 2) by lia.
      rewrite Nat.div_add by lia. lia.
    + intros [|i] q Hq.
      * injection Hq as <-. exists a, b. split; [|done]. split; [done|by left].
      * destruct (Hat i q Hq) as (x & y & [Hx Hy] & Hxy). exists x, y. split; [|done]. unfold pair_at.
        replace (2 * S i) with (S (S (2 * i))) by lia. done.
Qed.
Lemma half_lt n : 2 ≤ n → (n + 1) / 2 < n.
Proof. intros Hn. apply Nat.Div0.div_lt_upper_bound. lia. Qed.
Lemma half_pos n : 1 ≤ n → 1 ≤ (n + 1) / 2.
Proof. intros Hn. apply Nat.div_le_lower_bound; lia. Qed.
Lemma half_index i n : i < n → i / 2 < (n + 1) / 2.
Proof.
  intros Hi. apply Nat.Div0.div_lt_upper_bound.
  pose proof (Nat.div_mod_eq (n + 1) 2). pose proof (Nat.mod_upper_bound (n + 1) 2 ltac:(lia)). lia.
Qed.
Lemma even_half i : Nat.even i = true → 2 * (i / 2) = i.
Proof.
  intros Hi. pose proof (Nat.div_mod_eq i 2).
  apply Nat.even_spec in Hi as [k Hk]. pose proof (Nat.mod_upper_bound i 2 ltac:(lia)). lia.
Qed.
Lemma odd_half i : Nat.even i = false → S (2 * (i / 2)) = i.
Proof.
  intros Hi. assert (Nat.odd i = true) as Ho by (by rewrite <-Nat.negb_even, Hi).
  pose proof (Nat.div_mod_eq i 2).
  apply Nat.odd_spec in Ho as [k Hk]. pose proof (Nat.mod_upper_bound i 2 ltac:(lia)). lia.
Qed.
Lemma next_level_valid level level' :
  next_level level = Ok level' → Forall (λ s, is_sha256_id s = true) level'.
Proof.
  intros Hn. apply next_level_Ok in Hn as [_ Hn]. apply Forall_lookup. intros i p Hp.
  destruct (Hn i p Hp) as (a & b & _ & Hab). by eapply archive_content_id_parent.
Qed.

(** The sibling on the path of an index, and the node above both. *)
Lemma step_pair level level' i d :
  next_level level = Ok level' → level !! i = Some d → 2 ≤ length level →
  ∃ s p, level !! (if Nat.even i then Nat.min (S i) (length level - 1) else pred i) = Some s
    ∧ level' !! (i / 2) = Some p
    ∧ command_archive_merkle_parent (if Nat.even i then d else s) (if Nat.even i then s else d) = Ok p
    ∧ (Nat.even i = true → S i = length level → s = d).
Proof.
  intros Hn Hi Hlen. pose proof (lookup_lt_Some _ _ _ Hi) as Hlt.
  destruct (next_level_Ok _ _ Hn) as [Hl Hat].
  destruct (lookup_lt_is_Some_2 level' (i / 2)) as [p Hp]; [rewrite Hl; by apply half_index|].
  destruct (Hat _ _ Hp) as (a & b & [Ha Hb] & Hab).
  destruct (Nat.even i) eqn:He.
  - rewrite (even_half i He) in *. rewrite Hi in Ha. injection Ha as <-. destruct Hb as [Hb|[Hb ->]].
    + pose proof (lookup_lt_Some _ _ _ Hb). exists b, p. rewrite Nat.min_l by lia.
      split_and!; [done..|lia].
    + apply lookup_ge_None in Hb. exists d, p. rewrite Nat.min_r by lia.
      split_and!; [|done..]. by replace (length level - 1) with i by lia.
  - pose proof (odd_half i He) as Ho. rewrite Ho in Hb. destruct Hb as [Hb|[Hb _]]; [|congruence].
    rewrite Hi in Hb. injection Hb as <-. exists a, p. split_and!; [|done..].
    by replace (pred i) with (2 * (i / 2)) by lia.
Qed.

(** ** Paths verify *)

Lemma path_verifies fuel level i d root :
  length level ≤ fuel → level !! i = Some d → Forall (λ s, is_sha256_id s = true) level →
  reduce_levels fuel level = Ok root →
  ∃ path i', path_levels fuel level i = Ok path
    ∧ try_fold verify_sibling (d, i, length level) path = Ok (root, i', 1).
Proof.
  revert level i d. induction fuel as [|fuel IH]; intros level i d Hf Hi Hv Hr.
  - destruct level; [done|cbn in Hf; lia].
  - pose proof (lookup_lt_Some _ _ _ Hi) as Hlt.
    destruct (decide (length level = 1)) as [Hone|Hmore].
    + destruct level as [|x [|]]; [done| |done]. destruct i; [|cbn in Hlt; lia].
      cbn in Hi, Hr. injection Hi as ->. injection Hr as ->. exists [], 0. done.
    + assert (2 ≤ length level) as Hlen by lia.
      assert (∃ level', next_level level = Ok level' ∧ reduce_levels fuel level' = Ok root)
        as (level' & Hn & Hr').
      { destruct level as [|x [|y level]]; [done..|]. cbn [reduce_levels] in Hr.
        by apply bind_Ok in Hr. }
      destruct (next_level_Ok _ _ Hn) as [Hl _].
      destruct (step_pair level level' i d Hn Hi Hlen) as (s & p & Hs & Hp & Hpar & Hlast).
      destruct (IH level' (i / 2) p) as (path & i' & Hpath & Hfold); [|done|by eapply next_level_valid|done|].
      { rewrite Hl. pose proof (half_lt (length level) Hlen). lia. }
      exists ({| ms_side := if Nat.even i then SideRight else SideLeft; ms_digest := s |} :: path), i'.
      rewrite Forall_lookup in Hv. pose proof (Hv _ _ Hs) as Hsv. split.
      * cbn [path_levels]. rewrite (proj2 (Nat.leb_gt _ _)) by lia.
        destruct (Nat.even i); rewrite Hs; cbn [ok_or mbind result_bind]; rewrite Hn;
          cbn [mbind result_bind]; by rewrite Hpath.
      * cbn [try_fold]. assert (verify_sibling (d, i, length level)
          {| ms_side := if Nat.even i then SideRight else SideLeft; ms_digest := s |}
          = Ok (p, i / 2, (length level + 1) / 2)) as ->; [|cbn [mbind result_bind]; by rewrite <-Hl].
        unfold verify_sibling. rewrite (proj2 (Nat.leb_gt _ _)) by lia.
        cbn [negb require mbind result_bind ms_digest ms_side]. rewrite Hsv. cbn [mbind result_bind].
        rewrite bool_decide_eq_true_2 by done.
        assert (Nat.even i && (S i =? length level) && negb (bool_decide (s = d)) = false) as ->.
        { destruct (Nat.even i); [|done]. destruct (Nat.eqb_spec (S i) (length level)); [|done].
          rewrite (Hlast eq_refl) by done. by rewrite bool_decide_eq_true_2. }
        cbn [andb negb mbind result_bind]. destruct (Nat.even i); rewrite Hpar; done.
Qed.

(** ** Verified paths end in the leaf *)

(** The pairs that the reduction hashes and those that a path hashes. *)
Fixpoint level_pairs (level : list string) : list (string * string) :=
  match level with
  | a :: b :: level => (a, b) :: level_pairs level
  | [a] => [(a, a)]
  | [] => []
  end.
Fixpoint reduce_pairs (fuel : nat) (level : list string) : list (string * string) :=
  match fuel with
  | O => []
  | S fuel =>
      if length level <=? 1 then []
      else level_pairs level
           ++ match next_level level with Ok level => reduce_pairs fuel level | Err _ => [] end
  end.
Fixpoint path_pairs (digest : string) (path : list CommandArchiveMerkleSibling)
    : list (string * string) :=
  match path with
  | [] => []
  | s :: path =>
      let '(a, b) := match ms_side s with
                     | SideLeft => (ms_digest s, digest)
                     | SideRight => (digest, ms_digest s)
                     end in
      (a, b) :: match command_archive_merkle_parent a b with
                | Ok digest => path_pairs digest path
                | Err _ => []
                end
  end.
(** No two different pairs of the list have the same parent. *)
Definition merkle_collision_free (l : list (string * string)) : Prop :=
  ∀ x y p, x ∈ l → y ∈ l → command_archive_merkle_parent x.1 x.2 = Ok p →
    command_archive_merkle_parent y.1 y.2 = Ok p → x = y.

Lemma pair_at_pairs level i a b : pair_at level i a b → (a, b) ∈ level_pairs level.
Proof.
  revert i. induction level as [|x|x y level IH] using list_pair_ind; intros i [Ha Hb]; cbn [level_pairs].
  - done.
  - destruct i as [|i]; [|done]. cbn in Ha, Hb. injection Ha as ->. destruct Hb as [|[_ ->]]; [done|by left].
  - destruct i as [|i].
    + cbn in Ha, Hb. injection Ha as ->. destruct Hb as [[= ->]|[? _]]; [by left|done].
    + right. apply (IH i). unfold pair_at. replace (2 * S i) with (S (S (2 * i))) in Ha, Hb by lia. done.
Qed.

Lemma path_binds pairs fuel level path i d i' root :
  merkle_collision_free pairs →
  (∀ x, x ∈ reduce_pairs fuel level → x ∈ pairs) → (∀ x, x ∈ path_pairs d path → x ∈ pairs) →
  length level ≤ fuel → i < length level →
  try_fold verify_sibling (d, i, length level) path = Ok (root, i', 1) →
  reduce_levels fuel level = Ok root → level !! i = Some d.
Proof.
  intros Hcf. revert level path i d. induction fuel as [|fuel IH]; intros level path i d Hrp Hpp Hf Hi Hv Hr.
  - destruct level; [cbn in Hi; lia|cbn in Hf; lia].
  - destruct (decide (length level = 1)) as [Hone|Hmore].
    + destruct level as [|x [|]]; [done| |done]. destruct i; [|cbn in Hi; lia].
      cbn in Hr. injection Hr as ->. destruct path as [|s path]; [by injection Hv as ->|].
      cbn [try_fold] in Hv. unfold verify_sibling in Hv at 1. by cbn in Hv.
    + assert (2 ≤ length level) as Hlen by lia.
      assert (∃ level', next_level level = Ok level' ∧ reduce_levels fuel level' = Ok root)
        as (level' & Hn & Hr').
      { destruct level as [|x [|y level]]; [done..|]. cbn [reduce_levels] in Hr.
        by apply bind_Ok in Hr. }
      destruct (next_level_Ok _ _ Hn) as [Hl Hat].
      destruct path as [|s path]; [cbn in Hv; congruence|]. cbn [try_fold] in Hv.
      apply bind_Ok in Hv as ([[p j] w] & Hstep & Hv). unfold verify_sibling in Hstep.
      apply bind_Ok in Hstep as ([] & _ & Hstep). apply bind_Ok in Hstep as ([] & _ & Hstep).
      apply bind_Ok in Hstep as ([] & Hside & Hstep). apply require_Ok in Hside.
      apply andb_true_iff in Hside as [Hside _]. apply bool_decide_eq_true in Hside.
      apply bind_Ok in Hstep as (p' & Hpar & Hst).
      assert (p = p' ∧ j = i / 2 ∧ w = length level') as (-> & -> & ->) by
        (rewrite Hl; split_and!; congruence).
      cbn [reduce_pairs] in Hrp. rewrite (proj2 (Nat.leb_gt _ _)), Hn in Hrp by lia.
      assert (level' !! (i / 2) = Some p') as Hp.
      { apply (IH level' path (i / 2) p').
        - intros x Hx. apply Hrp, elem_of_app. by right.
        - intros x Hx. apply Hpp. cbn [path_pairs]. destruct (ms_side s); apply elem_of_cons; right; by rewrite Hpar.
        - rewrite Hl. pose proof (half_lt (length level) Hlen). lia.
        - rewrite Hl. by apply half_index.
        - done.
        - done. }
      destruct (Hat _ _ Hp) as (a & b & Hab & Hpab). pose proof (pair_at_pairs _ _ _ _ Hab) as Hin.
      assert ((a, b) ∈ pairs) as Hin1 by (apply Hrp, elem_of_app; by left).
      destruct Hab as [Ha Hb]. cbn [path_pairs] in Hpp.
      destruct (Nat.even i) eqn:He; rewrite Hside in Hpar, Hpp.
      * assert ((a, b) = (d, ms_digest s)) as Heq.
        { apply (Hcf _ _ p' Hin1); [|done..]. apply Hpp. by left. }
        injection Heq as -> _. by rewrite (even_half i He) in Ha.
      * assert ((a, b) = (ms_digest s, d)) as Heq.
        { apply (Hcf _ _ p' Hin1); [|done..]. apply Hpp. by left. }
        injection Heq as _ ->. rewrite (odd_half i He) in Hb. destruct Hb as [Hb|[Hb _]]; [done|].
        apply lookup_ge_None in Hb. lia.
Qed.

(** ** Proofs of inclusion *)

(** The pairs that the root of a segment and a proof of inclusion hash. *)
Definition segment_pairs (s : MachineCommandArchiveSegment) : list (string * string) :=
  match archive_leaves (segment_entries s) (command_index_updates s) with
  | Ok level => reduce_pairs (length level) level
  | Err _ => []
  end.
Definition proof_pairs (p : MachineArchivedCommandProof) : list (string * string) :=
  match command_archive_leaf_digest (acp_entry p) (acp_command_index_update p) with
  | Ok digest => path_pairs digest (merkle_path p)
  | Err _ => []
  end.

Lemma archive_leaves_Ok entries updates level :
  archive_leaves entries updates = Ok level → length entries = length updates →
  length level = length entries ∧ Forall (λ s, is_sha256_id s = true) level
  ∧ ∀ i e u, entries !! i = Some e → updates !! i = Some u →
      ∃ d, level !! i = Some d ∧ command_archive_leaf_digest e u = Ok d.
Proof.
  unfold archive_leaves. intros Hl Hlen. apply try_map_Ok in Hl. split_and!.
  - apply Forall2_length in Hl. rewrite length_zip_with_l in Hl by lia. lia.
  - apply Forall_lookup. intros i d Hd. eapply Forall2_lookup_r in Hl as (eu & _ & Hdig); [|done].
    by eapply archive_content_id_valid.
  - intros i e u He Hu. assert (zip entries updates !! i = Some (e, u)) as Hz.
    { apply lookup_zip_with_Some. eauto. }
    eapply Forall2_lookup_l in Hl as (d & Hd & Hdig); [|done]. by exists d.
Qed.
Lemma merkle_root_levels entries updates root :
  entries ≠ [] → command_archive_merkle_root entries updates = Ok root →
  ∃ level, archive_leaves entries updates = Ok level ∧ reduce_levels (length level) level = Ok root.
Proof.
  unfold command_archive_merkle_root. intros Hne Hr. apply bind_Ok in Hr as (_ & _ & Hr).
  destruct entries; [done|]. by apply bind_Ok in Hr.
Qed.
(** The proof of inclusion of an entry. *)
Lemma command_proof_Ok s index e :
  Segment_verify s = Ok () → segment_entries s !! index = Some e →
  ∃ p level d, command_proof s index = Ok p ∧ acp_entry p = e ∧ entry_index p = N.of_nat index
    ∧ acp_segment p = header s ∧ ArchivedCommandProof_verify_entry p = Ok ()
    ∧ archive_leaves (segment_entries s) (command_index_updates s) = Ok level
    ∧ level !! index = Some d
    ∧ command_archive_leaf_digest (acp_entry p) (acp_command_index_update p) = Ok d
    ∧ path_levels (length level) level index = Ok (merkle_path p).
Proof.
  intros Hs He. pose proof (Segment_verify_checked s Hs) as Hc.
  pose proof (lookup_lt_Some _ _ _ He) as Hlt. pose proof (sc_lengths s Hc) as Hl.
  assert (segment_entries s ≠ []) as Hne by (intros Hnil; by rewrite Hnil in He).
  destruct (merkle_root_levels _ _ _ Hne (sc_merkle s Hc))
    as (level & Hlevel & Hreduce).
  destruct (archive_leaves_Ok _ _ _ Hlevel Hl) as (Hlen & Hvalid & Hat).
  destruct (lookup_lt_is_Some_2 (command_index_updates s) index) as [u Hu]; [lia|].
  destruct (Hat index e u He Hu) as (d & Hd & Hdig).
  destruct (path_verifies (length level) level index d _ ltac:(done) Hd Hvalid Hreduce)
    as (path & i' & Hpath & Hfold).
  destruct (segment_position s index e Hc He) as (Hent & Hseq & Hpar & Hidx).
  exists {| acp_version := ARCHIVED_COMMAND_PROOF_VERSION; acp_segment := header s;
            entry_index := N.of_nat index; acp_entry := e; acp_command_index_update := u;
            merkle_path := path |}, level, d.
  split_and!; try done.
  - unfold command_proof. rewrite Hs, He, Hu. cbn [mbind result_bind ok_or].
    rewrite (proj2 (N.leb_le _ _) Hidx). cbn [require mbind result_bind].
    unfold command_archive_merkle_path. rewrite (proj2 (Nat.ltb_lt _ _) Hlt), (proj2 (Nat.eqb_eq _ _) Hl).
    cbn [andb require mbind result_bind]. rewrite Hlevel. cbn [mbind result_bind]. by rewrite Hpath.
  - unfold ArchivedCommandProof_verify_entry.
    cbn [acp_version acp_segment acp_entry entry_index merkle_path acp_command_index_update].
    rewrite (bool_decide_eq_true_2 (ARCHIVED_COMMAND_PROOF_VERSION = _)) by done.
    cbn [require mbind result_bind]. rewrite (sc_header s Hc). cbn [mbind result_bind]. rewrite Hent. cbn [mbind result_bind].
    rewrite <-(sc_count s Hc), (proj2 (N.ltb_lt _ _)) by lia. cbn [require mbind result_bind].
    rewrite Hseq. cbn [ok_or mbind result_bind]. rewrite N.eqb_refl. cbn [andb].
    rewrite Hpar. cbn [require mbind result_bind]. rewrite Hdig. cbn [mbind result_bind].
    rewrite !Nat2N.id, <-Hlen, Hfold. cbn [mbind result_bind Nat.eqb andb].
    by rewrite bool_decide_eq_true_2.
Qed.
End Merkle.

Section Compact.
Context `{Sha256} `{Canonical} `{!MachineSerialize} `{!ArchiveSerialize}.

(** The base under a hot tail: what the header of the last segment says. *)
Record parent_ok (p : MachineCommandArchiveParent) : Prop := {
  po_empty : ap_count p = 0%N → empty_root = Ok (ap_command_index_root p);
  po_events : (ap_event_count p <= 2 * ap_count p)%N;
  po_segment : ap_segment p = None → ap_count p = 0%N;
  po_head : ap_count p = 0%N ↔ ap_admission_head p = None;
  po_ids : opt_sha256_id (ap_segment p) = true ∧ opt_sha256_id (ap_admission_head p) = true;
}.
(** A hot tail: complete verified batches whose members are the entries, and
    a chain of verified admissions that continues the parent. *)
Record hot_tail (p : MachineCommandArchiveParent) (batches : list MachineCommandBatchRecord)
    (entries : list MachineCommandArchiveEntry) : Prop := {
  ht_batches : batches ≠ [];
  ht_entries : ∃ m, try_fold insert_batch ∅ batches = Ok m
    ∧ try_each (λ e, b ← ok_or ((m : gmap string MachineCommandBatchRecord)
                                  !! batch_id (entry_command e)) NotFound;
                     BatchRecord_verify_entry b e) entries = Ok ();
  ht_members : (batches ≫= λ b, member_command_id <$> members b)
    = (λ e, command_id (envelope (entry_command e))) <$> entries;
  ht_chain : ∃ last, try_fold verify_archived_admission (ap_count p + 1, ap_admission_head p)%N entries
    = Ok last;
  ht_room : (ap_count p + N.of_nat (length entries) <= MAX_EXACT_INTEGER)%N
    ∧ (N.of_nat (length batches) <= MAX_EXACT_INTEGER)%N;
}.

(** Every value of the archive can be serialised. *)
Definition archive_serialises : Prop := ∀ domain v, is_ok (archive_content_id domain v) = true.

Lemma is_ok_Ok {E A} (r : result E A) : is_ok r = true → ∃ a, r = Ok a.
Proof. destruct r; [eauto|done]. Qed.
Lemma archive_id_Ok domain v :
  archive_serialises → ∃ i, archive_content_id domain v = Ok i ∧ is_sha256_id i = true.
Proof.
  intros Hs. destruct (is_ok_Ok _ (Hs domain v)) as [i Hi]. exists i. split; [done|].
  by eapply archive_content_id_valid.
Qed.

(** ** The Merkle root *)

Lemma next_level_total level : archive_serialises → ∃ level', next_level level = Ok level'.
Proof.
  intros Hs. induction level as [|a|a b level IH] using list_pair_ind; cbn [next_level]; [eauto|..].
  - destruct (archive_id_Ok MACHINE_COMMAND_ARCHIVE_NODE_DOMAIN (APMerkleParent a a) Hs) as (p & Hp & _).
    unfold command_archive_merkle_parent. rewrite Hp. cbn [mbind result_bind]. eauto.
  - destruct (archive_id_Ok MACHINE_COMMAND_ARCHIVE_NODE_DOMAIN (APMerkleParent a b) Hs) as (p & Hp & _).
    unfold command_archive_merkle_parent. rewrite Hp. cbn [mbind result_bind].
    destruct IH as [rest ->]. cbn [mbind result_bind]. eauto.
Qed.
Lemma reduce_total fuel level :
  archive_serialises → level ≠ [] → Forall (λ s, is_sha256_id s = true) level → length level ≤ fuel →
  ∃ root, reduce_levels fuel level = Ok root ∧ is_sha256_id root = true.
Proof.
  intros Hs. revert level. induction fuel as [|fuel IH]; intros level Hne Hv Hf.
  - destruct level; [done|cbn in Hf; lia].
  - destruct level as [|a [|b level]]; [done| |].
    + apply Forall_cons in Hv as [Ha _]. by exists a.
    + cbn [reduce_levels]. destruct (next_level_total (a :: b :: level) Hs) as [level' Hn].
      rewrite Hn. cbn [mbind result_bind]. pose proof (next_level_valid _ _ Hn) as Hv'.
      apply next_level_Ok in Hn as [Hl _]. apply IH; [|done|].
      * intros ->. cbn [length] in Hl. pose proof (half_pos (S (S (length level))) ltac:(lia)). cbn in *. lia.
      * rewrite Hl. pose proof (half_lt (length (a :: b :: level)) ltac:(cbn; lia)). lia.
Qed.
Lemma try_map_total_in {E A B} (f : A → result E B) l :
  (∀ a, a ∈ l → is_ok (f a) = true) → ∃ bs, try_map f l = Ok bs.
Proof.
  induction l as [|a l IH]; intros Hf; [by exists []|]. cbn [try_map].
  destruct (is_ok_Ok _ (Hf a ltac:(by left))) as [b ->]. cbn [mbind result_bind].
  destruct IH as [bs ->]; [intros x Hx; apply Hf; by right|]. cbn [mbind result_bind]. eauto.
Qed.
Lemma try_map_total {E A B} (f : A → result E B) l :
  (∀ a, is_ok (f a) = true) → ∃ bs, try_map f l = Ok bs.
Proof. intros Hf. apply try_map_total_in. auto. Qed.
Lemma merkle_root_total entries updates :
  archive_serialises → length entries = length updates →
  ∃ root, command_archive_merkle_root entries updates = Ok root ∧ is_sha256_id root = true
    ∧ (entries = [] → command_archive_empty_root = Ok root).
Proof.
  intros Hs Hl. unfold command_archive_merkle_root. rewrite (proj2 (Nat.eqb_eq _ _) Hl).
  cbn [require mbind result_bind]. destruct entries as [|e entries].
  - destruct (archive_id_Ok MACHINE_COMMAND_ARCHIVE_NODE_DOMAIN APMerkleEmpty Hs) as (i & Hi & Hv). by exists i.
  - assert (∃ level, archive_leaves (e :: entries) updates = Ok level) as [level Hlevel].
    { apply try_map_total. intros [e' u]. apply Hs. }
    rewrite Hlevel. cbn [mbind result_bind]. destruct (archive_leaves_Ok _ _ _ Hlevel Hl) as (Hlen & Hv & _).
    destruct (reduce_total (length level) level) as (root & Hr & Hrv); [done| |done|done|].
    { intros ->. done. }
    exists root. by split_and!.
Qed.

(** ** The counts *)

Lemma admission_events e st st' :
  verify_archived_admission st e = Ok st' →
  length (entry_events e) ≤ 2 ∧ is_sha256_id (admission_id (entry_admission e)) = true
  ∧ st'.2 = Some (admission_id (entry_admission e)).
Proof.
  destruct st as [n parent]. unfold verify_archived_admission. intros Ha.
  apply bind_Ok in Ha as ([] & Hv & Ha). apply bind_Ok in Ha as ([] & Hadm & Ha).
  apply bind_Ok in Ha as (? & _ & Ha). apply bind_Ok in Ha as (next & _ & [= <-]).
  unfold ArchiveEntry_verify in Hv. apply bind_Ok in Hv as (? & _ & Hv).
  apply bind_Ok in Hv as (? & Hev & _). apply require_Ok in Hev. unfold CommandAdmission_verify in Hadm.
  apply bind_Ok in Hadm as (seq & _ & Hadm). apply bind_Ok in Hadm as (? & Hshape & Hadm).
  apply bind_Ok in Hadm as (id & Hid & Hadm). apply require_Ok in Hshape, Hadm.
  unfold admission_shape_ok in Hshape. to_prop. subst. split_and!; [| |done].
  - assert (length (entry_events e) = length (adm_event_ids (entry_admission e))) as ->.
    { match goal with He : adm_event_ids _ = _ |- _ => rewrite He end. by rewrite length_fmap. }
    destruct (adm_status (entry_admission e)); to_prop; [lia|].
    match goal with He : adm_event_ids _ = [] |- _ => rewrite He end. cbn. lia.
  - unfold admission_expected_id, machine_content_id, content_id_of in Hid.
    apply bind_Ok in Hid as (bytes & _ & Hid). apply Ok_eq in Hid. rewrite <-Hid.
    unfold is_sha256_id, content_id_of_bytes. rewrite strip_prefix_app. apply sha256_bytes_digest.
Qed.
Lemma chain_counts entries st st' :
  try_fold verify_archived_admission st entries = Ok st' →
  Forall (λ e, length (entry_events e) ≤ 2) entries
  ∧ opt_sha256_id (last_admission entries) = true
  ∧ st'.2 = or_else (last_admission entries) st.2.
Proof.
  revert st. induction entries as [|e entries IH]; intros st Hf; [injection Hf as <-; by split_and!|].
  cbn [try_fold] in Hf. apply bind_Ok in Hf as (st1 & Hs & Hf).
  destruct (admission_events _ _ _ Hs) as (He & Hid & Hst). destruct (IH st1 Hf) as (Hall & Hlast & Hst').
  unfold last_admission in *. rewrite last_cons. split_and!; [by constructor|by destruct (last entries)|].
  rewrite Hst', Hst. by destruct (last entries).
Qed.
Lemma len_u64_Ok {A} (l : list A) :
  (N.of_nat (length l) <= u64_max)%N → len_u64 l = Ok (N.of_nat (length l)).
Proof. intros Hl. unfold len_u64. by rewrite (proj2 (N.leb_le _ _) Hl). Qed.
Lemma event_count_total entries a :
  Forall (λ e, length (entry_events e) ≤ 2) entries → (a + 2 * N.of_nat (length entries) <= u64_max)%N →
  ∃ n, try_fold (λ count e, n ← len_u64 (entry_events e); ok_or (checked_add count n) Validation) a entries
      = Ok (a + n)%N ∧ (n <= 2 * N.of_nat (length entries))%N.
Proof.
  intros Hall. revert a. induction Hall as [|e entries He _ IH]; intros a Ha.
  - exists 0%N. cbn [try_fold]. by rewrite N.add_0_r.
  - cbn [length] in Ha. cbn [try_fold]. rewrite len_u64_Ok by (unfold u64_max in *; lia).
    cbn [mbind result_bind]. rewrite checked_add_fits by lia. cbn [ok_or mbind result_bind].
    destruct (IH (a + N.of_nat (length (entry_events e)))%N) as (n & -> & Hn); [lia|].
    exists (N.of_nat (length (entry_events e)) + n)%N. split; [f_equal; lia|]. cbn [length]. lia.
Qed.

(** ** Compaction *)

Lemma header_verifies h :
  archive_serialises → header_counts_ok h = Ok () → header_lineage_ok h = true →
  (parent_count h = 0%N → empty_root = Ok (parent_command_index_root h)) →
  (result_count h = 0%N → empty_root = Ok (result_command_index_root h)) →
  (sh_entry_count h = 0%N → result_admission_head h = parent_admission_head h
    ∧ result_command_index_root h = parent_command_index_root h
    ∧ command_archive_empty_root = Ok (entries_root h)) →
  header_expected_id h = Ok (segment_id h) → Header_verify h = Ok ().
Proof.
  intros Hs Hc Hl Hp Hr He Hid. unfold Header_verify. rewrite Hc. cbn [mbind result_bind].
  rewrite Hl. cbn [require mbind result_bind].
  assert (∀ (b : bool) (k : core ()), (b = true → k = Ok ()) → (if b then k else Ok ()) = Ok ()) as Hif.
  { intros [] k Hk; [by apply Hk|done]. }
  rewrite !Hif; cbn [mbind result_bind].
  - rewrite Hid. cbn [mbind result_bind]. by rewrite bool_decide_eq_true_2.
  - intros Hz%N.eqb_eq. rewrite (Hp Hz). cbn [mbind result_bind]. by rewrite bool_decide_eq_true_2.
  - intros Hz%N.eqb_eq. rewrite (Hr Hz). cbn [mbind result_bind]. by rewrite bool_decide_eq_true_2.
  - intros Hz%N.eqb_eq. destruct (He Hz) as (Hh & Hroot & Hemp).
    rewrite !bool_decide_eq_true_2 by done. cbn [andb require mbind result_bind]. rewrite Hemp.
    cbn [mbind result_bind]. by rewrite bool_decide_eq_true_2.
Qed.

Lemma header_counts_intro h :
  segment_version h = SEGMENT_VERSION →
  result_count h = (parent_count h + sh_entry_count h)%N → (result_count h <= MAX_EXACT_INTEGER)%N →
  result_event_count h = (parent_event_count h + sh_event_count h)%N →
  (sh_event_count h <= 2 * sh_entry_count h)%N → (parent_event_count h <= 2 * parent_count h)%N →
  (0 < sh_batch_count h <= MAX_EXACT_INTEGER)%N → header_counts_ok h = Ok ().
Proof.
  intros Hv Hr Hmax He Hev Hpe Hb. assert (2 * MAX_EXACT_INTEGER + 2 < u64_max)%N as Hu by done.
  assert (∀ a, (2 * a <= u64_max)%N → checked_mul a 2 = Some (2 * a)%N) as Hmul.
  { intros a Ha. unfold checked_mul. by rewrite N.mul_comm, (proj2 (N.leb_le _ _) Ha). }
  unfold header_counts_ok. rewrite bool_decide_eq_true_2 by done. cbn [require mbind result_bind].
  rewrite (checked_add_fits (parent_count h)) by lia.
  rewrite (proj2 (opt_filter_Some _ _ (result_count h))).
  2:{ split; [by rewrite Hr|by apply N.leb_le]. }
  cbn [ok_or mbind result_bind]. rewrite N.eqb_refl. cbn [require mbind result_bind].
  rewrite (checked_add_fits (parent_event_count h)) by lia. cbn [ok_or mbind result_bind].
  rewrite (proj2 (N.eqb_eq _ _) He). cbn [require mbind result_bind].
  rewrite (Hmul (sh_entry_count h)) by lia. cbn [ok_or mbind result_bind].
  rewrite (proj2 (N.leb_le _ _) Hev). cbn [require mbind result_bind].
  rewrite (proj2 (N.eqb_neq (sh_batch_count h) 0)), (proj2 (N.leb_le (sh_batch_count h) _)) by lia.
  cbn [negb andb require mbind result_bind]. rewrite (Hmul (parent_count h)) by lia.
  cbn [ok_or mbind result_bind]. rewrite (proj2 (N.leb_le _ _) Hpe).
  cbn [require mbind result_bind]. rewrite (Hmul (result_count h)) by lia. cbn [ok_or mbind result_bind].
  by rewrite (proj2 (N.leb_le (result_event_count h) _)) by lia.
Qed.
Lemma zero_iff_head n (o : option string) :
  (n = 0%N ↔ o = None) → Bool.eqb (n =? 0)%N (bool_decide (o = None)) = true.
Proof.
  intros Hiff. apply Bool.eqb_true_iff, eq_bool_prop_intro. rewrite bool_decide_spec, <-Hiff.
  split; [by intros ?%Is_true_true%N.eqb_eq|by intros ->].
Qed.
Lemma header_lineage_intro h :
  (parent_count h = 0%N → parent_event_count h = 0%N) → (parent_segment h = None → parent_count h = 0%N) →
  (parent_count h = 0%N ↔ parent_admission_head h = None) →
  (result_count h = 0%N ↔ result_admission_head h = None) →
  opt_sha256_id (parent_segment h) = true → opt_sha256_id (parent_admission_head h) = true →
  is_sha256_id (parent_command_index_root h) = true → is_sha256_id (entries_root h) = true →
  is_sha256_id (batches_root h) = true → opt_sha256_id (result_admission_head h) = true →
  is_sha256_id (result_command_index_root h) = true → header_lineage_ok h = true.
Proof.
  intros Hpe Hseg Hph Hrh Ha Hb Hc Hd He Hf Hg. unfold header_lineage_ok.
  rewrite Ha, Hb, Hc, Hd, He, Hf, Hg, !zero_iff_head by done.
  assert (∀ a b : bool, (a = true → b = true) → negb (a && negb b) = true) as Himp by (intros [] []; naive_solver).
  rewrite !Himp; [done|..].
  - rewrite bool_decide_eq_true, N.eqb_eq. done.
  - rewrite !N.eqb_eq. done.
Qed.

(** The header [Segment_new] builds, before its identity is set *)
Definition fresh_header (p : MachineCommandArchiveParent) (n ev b : N) (br er : string)
    (head : option string) (result : string) : MachineCommandArchiveSegmentHeader :=
  {| segment_version := SEGMENT_VERSION; segment_id := EmptyString;
     parent_segment := ap_segment p; parent_count := ap_count p;
     parent_event_count := ap_event_count p; parent_admission_head := ap_admission_head p;
     parent_command_index_root := ap_command_index_root p; sh_entry_count := n; sh_event_count := ev;
     sh_batch_count := b; batches_root := br; entries_root := er;
     result_count := (ap_count p + n)%N; result_event_count := (ap_event_count p + ev)%N;
     result_admission_head := or_else head (ap_admission_head p);
     result_command_index_root := result |}.

Lemma fresh_header_verifies p n ev b br er head result id :
  archive_serialises → parent_ok p → (ap_count p + n <= MAX_EXACT_INTEGER)%N →
  (ev <= 2 * n)%N → (0 < b <= MAX_EXACT_INTEGER)%N → (n = 0%N ↔ head = None) →
  is_sha256_id br = true → is_sha256_id er = true → opt_sha256_id head = true →
  is_sha256_id (ap_command_index_root p) = true → is_sha256_id result = true →
  (n = 0%N → result = ap_command_index_root p ∧ command_archive_empty_root = Ok er) →
  header_expected_id (fresh_header p n ev b br er head result) = Ok id →
  Header_verify (set_segment_id id (fresh_header p n ev b br er head result)) = Ok ().
Proof.
  intros Hser Hpo Hroom Hev Hb Hhead Hbr Her Hhid Hpr Hrr Hzero Hid.
  pose proof (po_events p Hpo) as Hpe. assert (2 * MAX_EXACT_INTEGER + 2 < u64_max)%N as Hmax by done.
  set (h := set_segment_id _ _). apply header_verifies; [done|..|exact Hid].
  - apply header_counts_intro; unfold h; cbn; try done; lia.
  - destruct (po_ids p Hpo) as [Hs1 Hs2]. apply header_lineage_intro; unfold h; cbn; try done.
    + lia.
    + apply (po_segment p Hpo).
    + apply (po_head p Hpo).
    + unfold or_else. destruct head as [a|].
      * split; [|done]. intros Hz. assert (n ≠ 0%N) by (rewrite Hhead; done). lia.
      * rewrite <-(po_head p Hpo). rewrite (proj2 Hhead) by done. lia.
    + unfold or_else. by destruct head.
  - apply (po_empty p Hpo).
  - unfold h. cbn. intros Hz. destruct Hzero as [-> _]; [lia|]. apply (po_empty p Hpo). lia.
  - unfold h. cbn. intros Hz. destruct (Hzero Hz) as [-> ?]. by rewrite (proj1 Hhead) by done.
Qed.

Lemma matches_header_intro s br er ev :
  (N.of_nat (length (segment_entries s)) <= u64_max)%N →
  sh_entry_count (header s) = N.of_nat (length (segment_entries s)) →
  archive_event_count (segment_entries s) = Ok ev → sh_event_count (header s) = ev →
  archive_content_id MACHINE_COMMAND_ARCHIVE_BATCHES_DOMAIN (APBatches (segment_batches s)) = Ok br →
  batches_root (header s) = br → length (command_index_updates s) = length (segment_entries s) →
  command_archive_merkle_root (segment_entries s) (command_index_updates s) = Ok er →
  entries_root (header s) = er →
  result_admission_head (header s)
    = or_else (last_admission (segment_entries s)) (parent_admission_head (header s)) →
  segment_matches_header s (sh_batch_count (header s)) = Ok ().
Proof.
  intros Hu Hn Hev <- Hbr <- Hl Her <- Hhead. unfold segment_matches_header.
  rewrite len_u64_Ok by done. cbn [mbind result_bind]. rewrite Hn, N.eqb_refl.
  cbn [require mbind result_bind]. rewrite Hev. cbn [mbind result_bind]. rewrite !N.eqb_refl.
  cbn [andb require mbind result_bind]. rewrite Hbr. cbn [mbind result_bind].
  rewrite bool_decide_eq_true_2, Hl, Nat.eqb_refl by done. cbn [andb require mbind result_bind].
  rewrite Her. cbn [mbind result_bind]. by rewrite !bool_decide_eq_true_2.
Qed.

Lemma last_admission_None entries :
  N.of_nat (length entries) = 0%N ↔ last_admission entries = None.
Proof.
  unfold last_admission. rewrite fmap_None, last_None. destruct entries; cbn; [done|]. split; [lia|done].
Qed.

(** The empty root is that of an index without entries. *)
Lemma empty_indexes root : empty_root = Ok root → indexes root [].
Proof.
  unfold empty_root, command_index_empty_hash. rewrite Nat.sub_0_r. intros Hr.
  split; [exists []; split; [done|constructor]|]. change (index_root []) with (tree_hash COMMAND_INDEX_DEPTH []).
  by rewrite tree_hash_nil.
Qed.

Lemma compaction_Ok p batches entries updates items result c :
  archive_serialises → parent_ok p → hot_tail p batches entries →
  indexes (ap_command_index_root p) c →
  length updates = length entries →
  try_fold apply_command_index_update (ap_command_index_root p) (zip entries updates) = Ok result →
  indexes result (extend c items) → archive_items entries = Ok items →
  ∃ s, Segment_new p batches entries updates = Ok s ∧ Segment_verify s = Ok ()
    ∧ segment_entries s = entries ∧ segment_batches s = batches ∧ command_index_updates s = updates
    ∧ parent_command_index_root (header s) = ap_command_index_root p
    ∧ result_command_index_root (header s) = result.
Proof.
  intros Hser Hpo Hht [[l Hw] Hroot] Hlen Hfold [[l' Hw'] Hroot'] Hitems.
  destruct (index_root_Ok _ _ Hw) as (r & Hr & Hrid). rewrite Hroot in Hr. injection Hr as <-.
  destruct (index_root_Ok _ _ Hw') as (r & Hr & Hrid'). rewrite Hroot' in Hr. injection Hr as <-.
  destruct (ht_room _ _ _ Hht) as [Hroom Hbroom]. destruct (ht_chain _ _ _ Hht) as [st Hchain].
  destruct (ht_entries _ _ _ Hht) as (m & Hm & Heach). pose proof (po_events p Hpo) as Hpe.
  destruct (chain_counts _ _ _ Hchain) as (Hevents & Hlast & _).
  assert (2 * MAX_EXACT_INTEGER + 2 < u64_max)%N as Hmax by done.
  destruct (event_count_total entries 0 Hevents) as (ev & Hev & Hevle); [lia|]. rewrite N.add_0_l in Hev.
  destruct (archive_id_Ok MACHINE_COMMAND_ARCHIVE_BATCHES_DOMAIN (APBatches batches) Hser) as (br & Hbr & Hbrid).
  destruct (merkle_root_total entries updates Hser ltac:(done)) as (er & Her & Herid & Hemp).
  set (n := N.of_nat (length entries)) in *.
  set (h := fresh_header p n ev (N.of_nat (length batches)) br er (last_admission entries) result).
  destruct (archive_id_Ok SEGMENT_VERSION (APSegment (segment_preimage h)) Hser) as (id & Hid & Hidv).
  set (s := {| header := set_segment_id id h; segment_entries := entries;
               segment_batches := batches; command_index_updates := updates |}).
  assert (apply_command_index_updates (ap_command_index_root p) entries updates = Ok result) as Happ.
  { unfold apply_command_index_updates. by rewrite Hlen, Nat.eqb_refl, Hrid. }
  assert (0 < length batches) as Hbpos by (destruct batches; [by destruct Hht|cbn; lia]).
  assert (Header_verify (header s) = Ok ()) as Hheader.
  { apply fresh_header_verifies; try done; [lia|apply last_admission_None|].
    intros Hz. assert (entries = []) as -> by (apply length_zero_iff_nil; lia).
    destruct updates; [|done]. injection Hfold as <-. split; [done|]. by apply Hemp. }
  assert (Segment_verify s = Ok ()) as Hverify.
  { unfold Segment_verify. rewrite Hheader. cbn [mbind result_bind].
    rewrite len_u64_Ok by (change (segment_batches s) with batches; lia). cbn [mbind result_bind].
    change (segment_batches s) with batches. rewrite Hm. cbn [mbind result_bind].
    change (N.of_nat (length batches)) with (sh_batch_count (header s)).
    rewrite (matches_header_intro s br er ev); try done; [|change (segment_entries s) with entries; lia].
    cbn [mbind result_bind]. change (segment_entries s) with entries. rewrite Heach. cbn [mbind result_bind].
    rewrite bool_decide_eq_true_2 by apply Hht. cbn [require mbind result_bind].
    change (parent_command_index_root (header s)) with (ap_command_index_root p).
    change (command_index_updates s) with updates. rewrite Happ. cbn [mbind result_bind].
    rewrite bool_decide_eq_true_2 by done. cbn [require mbind result_bind].
    change (parent_count (header s)) with (ap_count p). rewrite checked_add_fits by lia.
    cbn [ok_or mbind result_bind]. change (parent_admission_head (header s)) with (ap_admission_head p).
    by rewrite Hchain. }
  exists s. split; [|by split_and!]. unfold Segment_new.
  rewrite bool_decide_eq_false_2 by (by destruct Hht). cbn [negb require mbind result_bind].
  rewrite !len_u64_Ok by (fold n; lia). cbn [mbind result_bind]. rewrite Hbr. cbn [mbind result_bind].
  rewrite (proj2 (Nat.eqb_eq _ _)) by done. cbn [require mbind result_bind]. rewrite Her.
  cbn [mbind result_bind]. unfold archive_event_count. rewrite Hev. cbn [mbind result_bind]. fold n.
  rewrite !checked_add_fits by lia. cbn [ok_or mbind result_bind]. rewrite Happ. cbn [mbind result_bind].
  change (let h := ?x in @?f h) with (f h). unfold header_expected_id.
  change (segment_preimage _) with (segment_preimage h). rewrite Hid.
  cbn [mbind result_bind]. change (set_segment_id id _) with (set_segment_id id h). fold s. by rewrite Hverify.
Qed.
End Compact.
