(* ===== verification/Collections.v ===== *)
(** * Parts shared by the authenticated collections

    The bounds of [lib.rs] in [crates/cymule-authenticated-collections/src],
    and the code that [map.rs] and [log.rs] write twice, once per kind of node:
    resolvers, the overlay of a mutation, the recording and replaying of
    proofs.  A kind is an instance of [Kind]; the definitions follow [map.rs],
    and [log.rs] differs from it only in the names of its error codes.

    A function that reads nodes through a resolver is a [ReadsOf], one that
    also creates nodes in an overlay is a [ProgOf]: a tree of requests and of
    the code that continues with their answers.  [run_reads] and [run_prog]
    give the requests their meaning. *)

From S2P Require Import Prelude Identity CommandIndex CollectionHash.

(** ** Bounds ([lib.rs]) *)

Definition MAX_PAGE_ENTRIES : nat := 256.
Definition MAX_PAGE_BYTES : N := 1024 * 1024.
Definition MAX_MUTATION_BYTES : N := 4 * 1024 * 1024.
Definition MAX_PROOF_BYTES : N := 32 * 1024 * 1024.

(** Lengths in memory are added with overflow checks. *)
Definition sum_checked (l : list N) : option N :=
  foldl (λ acc n, total ← acc; checked_add total n) (Some 0%N) l.

(** ** Programs over nodes *)

Inductive ReadsOf (Ref Node A : Type) :=
| ReadDone (r : coll A)
| ReadNode (ref : Ref) (k : Node → ReadsOf Ref Node A).
Arguments ReadDone {Ref Node A} r.
Arguments ReadNode {Ref Node A} ref k.
#[export] Instance reads_ret Ref Node : MRet (ReadsOf Ref Node) := λ A a, ReadDone (Ok a).
#[export] Instance reads_bind Ref Node : MBind (ReadsOf Ref Node) := λ A B f,
  fix go p := match p with
              | ReadDone (Ok a) => f a
              | ReadDone (Err e) => ReadDone (Err e)
              | ReadNode ref k => ReadNode ref (λ n, go (k n))
              end.

Inductive ProgOf (Ref Node A : Type) :=
| Done (r : coll A)
| Load (ref : Ref) (k : Node → ProgOf Ref Node A)
| Store (node : Node) (k : Ref → ProgOf Ref Node A).
Arguments Done {Ref Node A} r.
Arguments Load {Ref Node A} ref k.
Arguments Store {Ref Node A} node k.
#[export] Instance prog_ret Ref Node : MRet (ProgOf Ref Node) := λ A a, Done (Ok a).
#[export] Instance prog_bind Ref Node : MBind (ProgOf Ref Node) := λ A B f,
  fix go p := match p with
              | Done (Ok a) => f a
              | Done (Err e) => Done (Err e)
              | Load ref k => Load ref (λ n, go (k n))
              | Store node k => Store node (λ r, go (k r))
              end.
(** A reading function called on an overlay. *)
Fixpoint reading {Ref Node A} (p : ReadsOf Ref Node A) : ProgOf Ref Node A :=
  match p with
  | ReadDone r => Done r
  | ReadNode ref k => Load ref (λ n, reading (k n))
  end.

Fixpoint run_reads {Ref Node S A} (load : S → Ref → coll (S * Node)) (p : ReadsOf Ref Node A) (s : S)
    : coll (S * A) :=
  match p with
  | ReadDone r => a ← r; Ok (s, a)
  | ReadNode ref k => sn ← load s ref; run_reads load (k sn.2) sn.1
  end.
Fixpoint run_prog_with {Ref Node S A} (load : S → Ref → coll (S * Node))
    (store : S → Node → coll (S * Ref)) (p : ProgOf Ref Node A) (s : S) : coll (S * A) :=
  match p with
  | Done r => a ← r; Ok (s, a)
  | Load ref k => sn ← load s ref; run_prog_with load store (k sn.2) sn.1
  | Store node k => sr ← store s node; run_prog_with load store (k sr.2) sr.1
  end.

(** The monads' notation, where a step of evaluation has unfolded it. *)
Ltac fold_bind :=
  repeat (change (reads_bind _ _ _ _ ?f ?p) with (p ≫= f) in * );
  repeat (change (prog_bind _ _ _ _ ?f ?p) with (p ≫= f) in * ).

(** ** Kinds of nodes *)

Class Kind (Ref Node : Type) := {
  #[global] kind_eq_dec :: EqDecision Node;
  (** ["map"] or ["log"], the start of the error codes. *)
  kind_name : string;
  node_id : Node → string;
  node_verify : Node → coll ();
  node_children : Node → list Ref;
  (** [logical_bytes] *)
  node_bytes : Node → coll N;
  (** The reference to a node with the counts that the node commits. *)
  node_ref : Node → coll Ref;
  ref_id : Ref → string;
  (** The comparison of the counts of a node with those of a reference, and
      the end of the code of the error in the overlay. *)
  same_counts : Node → Ref → coll bool;
  counts_code : string;
}.
Definition integrity `{Kind Ref Node} (code : string) : CollectionError :=
  Integrity (kind_name +:+ "_" +:+ code).

(** [CollectionResolver], for one kind of node *)
Class Resolver (Node R : Type) := {
  fetch : R → string → coll (R * option Node);
}.
(** A provider that keeps its nodes in a map, as the memory of the tests. *)
#[export] Instance memory_resolver Node : Resolver Node (gmap string Node) :=
  {| fetch := λ nodes id, Ok (nodes, nodes !! id) |}.

(** The overlay of a mutation: what it has created and what it has loaded. *)
Record Overlay (Node R : Type) := {
  ov_resolver : R;
  ov_pending : gmap string Node;
  ov_loaded : gmap string Node;
}.
Arguments ov_resolver {Node R} _.
Arguments ov_pending {Node R} _.
Arguments ov_loaded {Node R} _.
Definition Overlay_new {Node R} (r : R) : Overlay Node R :=
  {| ov_resolver := r; ov_pending := ∅; ov_loaded := ∅ |}.

Section Loading.
Context `{Kind Ref Node} `{!Resolver Node R}.

(** [load_resolved_map_node], [load_resolved_log_node] *)
Definition load_resolved (r : R) (ref : Ref) : coll (R * Node) :=
  rn ← fetch r (ref_id ref);
  node ← ok_or rn.2 (MissingObject (ref_id ref));
  _ ← node_verify node;
  _ ← require (bool_decide (node_id node = ref_id ref)) (integrity "resolved_child_mismatch");
  same ← same_counts node ref;
  _ ← require same (integrity "resolved_child_mismatch");
  Ok (rn.1, node).

(** The node of an identity: pending, loaded before, or resolved now. *)
Definition overlay_find (o : Overlay Node R) (id : string) : coll (Overlay Node R * Node) :=
  match ov_pending o !! id, ov_loaded o !! id with
  | Some node, _ => Ok (o, node)
  | None, Some node => Ok (o, node)
  | None, None =>
      rn ← fetch (ov_resolver o) id;
      node ← ok_or rn.2 (MissingObject id);
      _ ← node_verify node;
      _ ← require (bool_decide (node_id node = id)) (integrity "node_locator_mismatch");
      Ok ({| ov_resolver := rn.1; ov_pending := ov_pending o;
             ov_loaded := <[node_id node := node]> (ov_loaded o) |}, node)
  end.
(** [Overlay::load] *)
Definition overlay_load (o : Overlay Node R) (ref : Ref) : coll (Overlay Node R * Node) :=
  on ← overlay_find o (ref_id ref);
  same ← same_counts on.2 ref;
  _ ← require same (integrity counts_code);
  Ok on.
(** [Overlay::store] *)
Definition overlay_store (o : Overlay Node R) (node : Node) : coll (Overlay Node R * Ref) :=
  _ ← node_verify node;
  ref ← node_ref node;
  _ ← match ov_pending o !! node_id node with
      | Some existing => require (bool_decide (existing = node)) (integrity "node_identity_conflict")
      | None => Ok ()
      end;
  Ok ({| ov_resolver := ov_resolver o;
         ov_pending := <[node_id node := node]> (ov_pending o);
         ov_loaded := ov_loaded o |}, ref).
(** [store_built_map_node], [store_built_log_node] *)
Definition store_built (objects : gmap string Node) (node : Node) : coll (gmap string Node * Ref) :=
  _ ← node_verify node;
  ref ← node_ref node;
  match objects !! node_id node with
  | None => Ok (<[node_id node := node]> objects, ref)
  | Some existing =>
      _ ← require (bool_decide (existing = node)) (integrity "node_identity_conflict");
      Ok (objects, ref)
  end.

(** [collect_reachable_created_map_nodes] and its twin: the loop over a stack
    of references.  Only a pending node that is met for the first time pushes
    its children, so that a bounded number of steps suffices. *)
Fixpoint collect_created (fuel : nat) (o : Overlay Node R) (stack : list Ref)
    (visited : gset string) (created : gmap string Node) : coll (Overlay Node R * gmap string Node) :=
  match fuel, stack with
  | _, [] => Ok (o, created)
  | O, _ => Err CollectionPanic
  | S fuel, ref :: stack =>
      if bool_decide (ref_id ref ∈ visited) then collect_created fuel o stack visited created
      else
        let visited := {[ref_id ref]} ∪ visited in
        match ov_pending o !! ref_id ref with
        | None => collect_created fuel o stack visited created
        | Some node =>
            _ ← node_verify node;
            same ← same_counts node ref;
            _ ← require same (integrity "created_child_shape_mismatch");
            if bool_decide (is_Some (ov_loaded o !! node_id node))
            then collect_created fuel o stack visited created
            else
              found ← fetch (ov_resolver o) (node_id node);
              let o := {| ov_resolver := found.1; ov_pending := ov_pending o;
                          ov_loaded := ov_loaded o |} in
              match found.2 with
              | Some existing =>
                  _ ← node_verify existing;
                  _ ← require (bool_decide (existing = node))
                        (integrity "existing_node_identity_conflict");
                  collect_created fuel o stack visited created
              | None =>
                  let created := <[node_id node := node]> created in
                  collect_created fuel o (node_children node ++ stack) visited created
              end
        end
  end.
End Loading.
Abbreviation run_prog := (run_prog_with overlay_load overlay_store).

(** ** Resolvers that record or replay *)

Record Recording (Node R : Type) := { rec_inner : R; rec_nodes : gmap string Node }.
Arguments rec_inner {Node R} _.
Arguments rec_nodes {Node R} _.
(** [RecordingMapResolver::load_map_node], [RecordingLogResolver::load_log_node] *)
Definition recording_load `{Resolver Node R} (r : Recording Node R) (id : string)
    : coll (Recording Node R * option Node) :=
  match rec_nodes r !! id with
  | Some node => Ok (r, Some node)
  | None =>
      inner ← fetch (rec_inner r) id;
      Ok ({| rec_inner := inner.1;
             rec_nodes := match inner.2 with
                          | Some node => <[id := node]> (rec_nodes r)
                          | None => rec_nodes r
                          end |}, inner.2)
  end.
#[export] Instance recording_resolver `{Resolver Node R} : Resolver Node (Recording Node R) :=
  {| fetch := recording_load |}.

Record ProofResolver (Node : Type) := { pr_nodes : gmap string Node; pr_used : gset string }.
Arguments pr_nodes {Node} _.
Arguments pr_used {Node} _.
(** [ProofMapResolver::load_map_node], [ProofLogResolver::load_log_node] *)
Definition proof_load {Node} (r : ProofResolver Node) (id : string)
    : coll (ProofResolver Node * option Node) :=
  let node := pr_nodes r !! id in
  Ok ({| pr_nodes := pr_nodes r;
         pr_used := if bool_decide (is_Some node) then {[id]} ∪ pr_used r else pr_used r |}, node).
#[export] Instance proof_resolver Node : Resolver Node (ProofResolver Node) :=
  {| fetch := proof_load |}.

Record ApplyProofResolver (Node : Type) := { ap_nodes : gmap string Node; ap_requested : gset string }.
Arguments ap_nodes {Node} _.
Arguments ap_requested {Node} _.
(** [ApplyProofMapResolver::load_map_node], [ApplyProofLogResolver::load_log_node] *)
Definition apply_proof_load {Node} (r : ApplyProofResolver Node) (id : string)
    : coll (ApplyProofResolver Node * option Node) :=
  Ok ({| ap_nodes := ap_nodes r; ap_requested := {[id]} ∪ ap_requested r |}, ap_nodes r !! id).
#[export] Instance apply_proof_resolver Node : Resolver Node (ApplyProofResolver Node) :=
  {| fetch := apply_proof_load |}.

Section Indexing.
Context `{Kind Ref Node}.

(** The loop that verifies and indexes the nodes of a proof. *)
Definition index_nodes (code : string) (nodes : list Node) : coll (gmap string Node) :=
  try_fold (λ indexed node,
    _ ← node_verify node;
    _ ← require (bool_decide (indexed !! node_id node = None)) (integrity code);
    Ok (<[node_id node := node]> indexed)) ∅ nodes.
(** [verify_map_proof_bytes], [verify_log_proof_bytes] *)
Definition verify_proof_bytes (nodes : list Node) : coll () :=
  _ ← try_fold (λ bytes node,
    n ← node_bytes node;
    ok_or (opt_filter (λ n, n <=? MAX_PROOF_BYTES)%N (checked_add bytes n)) BadShape) 0%N nodes;
  Ok ().
(** [new] and [finish] of the proof resolvers *)
Definition ProofResolver_new (nodes : list Node) (maximum : nat) : coll (ProofResolver Node) :=
  _ ← require (length nodes <=? maximum) BadShape;
  _ ← verify_proof_bytes nodes;
  indexed ← index_nodes "proof_duplicate_node" nodes;
  Ok {| pr_nodes := indexed; pr_used := ∅ |}.
Definition ApplyProofResolver_new (nodes : list Node) (maximum : nat)
    : coll (ApplyProofResolver Node) :=
  _ ← require (length nodes <=? maximum) BadShape;
  _ ← verify_proof_bytes nodes;
  indexed ← index_nodes "apply_duplicate_node" nodes;
  Ok {| ap_nodes := indexed; ap_requested := ∅ |}.
Definition ProofResolver_finish (r : ProofResolver Node) : coll () :=
  require (size (pr_used r) =? size (pr_nodes r)) (integrity "proof_unused_node").
Definition ApplyProofResolver_finish (r : ApplyProofResolver Node) (loaded : gset string) : coll () :=
  require (bool_decide (loaded = dom (ap_nodes r)) && bool_decide (loaded ⊆ ap_requested r))
    (integrity "apply_node_closure_mismatch").
End Indexing.
