(* ===== verification/Stores.v ===== *)
(** * Stores of immutable nodes

    What programs over nodes do on the resolvers of [Collections], whatever the
    kind of node: a program that succeeds on few nodes gives the same answer on
    a larger store, what a recording resolver records replays from a proof, and
    an overlay on a store keeps what it knows. *)

From S2P Require Import Prelude Identity CommandIndex CollectionHash Collections.

(** Repeat in the goal the steps that succeeded in a hypothesis. *)
Ltac redo_ok :=
  repeat match goal with
  | Hx : ?t = Ok _ |- context [?t] => rewrite Hx; cbn [mbind result_bind fst snd]
  | Hx : ?t = true |- context [require ?t _] => rewrite Hx; cbn [require mbind result_bind]
  | Hx : ?t = Some _ |- context [ok_or ?t _] => rewrite Hx; cbn [ok_or mbind result_bind fst snd]
  end.

(** ** Sequences *)

Section Runs.
Context {Ref Node S : Type} (load : S → Ref → coll (S * Node)) (store : S → Node → coll (S * Ref)).

Lemma run_reads_bind {A B} (p : ReadsOf Ref Node A) (f : A → ReadsOf Ref Node B) (s : S) :
  run_reads load (p ≫= f) s = x ← run_reads load p s; run_reads load (f x.2) x.1.
Proof.
  revert s. induction p as [[a|e]|ref k IH]; intros s; cbn; try done.
  destruct (load s ref) as [[s' n]|]; cbn; [|done]. apply IH.
Qed.
Lemma run_prog_bind {A B} (p : ProgOf Ref Node A) (f : A → ProgOf Ref Node B) (s : S) :
  run_prog_with load store (p ≫= f) s
  = x ← run_prog_with load store p s; run_prog_with load store (f x.2) x.1.
Proof.
  revert s. induction p as [[a|e]|ref k IH|node k IH]; intros s; cbn; try done.
  - destruct (load s ref) as [[s' n]|]; cbn; [|done]. apply IH.
  - destruct (store s node) as [[s' r]|]; cbn; [|done]. apply IH.
Qed.
Lemma run_prog_reading {A} (p : ReadsOf Ref Node A) (s : S) :
  run_prog_with load store (reading p) s = run_reads load p s.
Proof.
  revert s. induction p as [r|ref k IH]; intros s; cbn; [done|].
  destruct (load s ref) as [[s' n]|]; cbn; [|done]. apply IH.
Qed.
(** Two sequences that agree step by step. *)
Lemma run_reads_bind_ext {A B} (p q : ReadsOf Ref Node A) (f g : A → ReadsOf Ref Node B) (s : S) :
  run_reads load p s = run_reads load q s →
  (∀ s' a, run_reads load (f a) s' = run_reads load (g a) s') →
  run_reads load (p ≫= f) s = run_reads load (q ≫= g) s.
Proof.
  intros Hp Hf. rewrite !run_reads_bind, Hp.
  destruct (run_reads load q s) as [[s' a]|]; cbn [mbind result_bind fst snd]; [apply Hf|done].
Qed.
Lemma run_prog_bind_ext {A B} (p q : ProgOf Ref Node A) (f g : A → ProgOf Ref Node B) (s : S) :
  run_prog_with load store p s = run_prog_with load store q s →
  (∀ s' a, run_prog_with load store q s = Ok (s', a) →
     run_prog_with load store (f a) s' = run_prog_with load store (g a) s') →
  run_prog_with load store (p ≫= f) s = run_prog_with load store (q ≫= g) s.
Proof.
  intros Hp Hf. rewrite !run_prog_bind, Hp.
  destruct (run_prog_with load store q s) as [[s' a]|]; cbn [mbind result_bind fst snd]; [by apply Hf|done].
Qed.
End Runs.

(** ** Simulation *)

Section Simulation.
Context {Ref Node S T : Type} (sim : S → T → Prop).
Context (load_s : S → Ref → coll (S * Node)) (load_t : T → Ref → coll (T * Node)).
Context (store_s : S → Node → coll (S * Ref)) (store_t : T → Node → coll (T * Ref)).
Hypothesis load_sim : ∀ s t ref s' n, sim s t → load_s s ref = Ok (s', n) →
  ∃ t', load_t t ref = Ok (t', n) ∧ sim s' t'.

Lemma run_reads_sim {A} (p : ReadsOf Ref Node A) s t s' a :
  sim s t → run_reads load_s p s = Ok (s', a) → ∃ t', run_reads load_t p t = Ok (t', a) ∧ sim s' t'.
Proof.
  revert s t. induction p as [x|ref k IH]; intros s t Hs Hrun; cbn [run_reads] in *.
  - destruct x; [|done]. injection Hrun as <- <-. by exists t.
  - apply bind_Ok in Hrun as ([s1 n] & Hl & Hrun).
    destruct (load_sim s t ref s1 n Hs Hl) as (t1 & -> & Hs1). by apply (IH n s1 t1).
Qed.

Hypothesis store_sim : ∀ s t n s' ref, sim s t → store_s s n = Ok (s', ref) →
  ∃ t', store_t t n = Ok (t', ref) ∧ sim s' t'.
Lemma run_prog_sim {A} (p : ProgOf Ref Node A) s t s' a :
  sim s t → run_prog_with load_s store_s p s = Ok (s', a) →
  ∃ t', run_prog_with load_t store_t p t = Ok (t', a) ∧ sim s' t'.
Proof.
  revert s t. induction p as [x|ref k IH|n k IH]; intros s t Hs Hrun; cbn [run_prog_with] in *.
  - destruct x; [|done]. injection Hrun as <- <-. by exists t.
  - apply bind_Ok in Hrun as ([s1 n] & Hl & Hrun).
    destruct (load_sim s t ref s1 n Hs Hl) as (t1 & -> & Hs1). by apply (IH n s1 t1).
  - apply bind_Ok in Hrun as ([s1 ref] & Hl & Hrun).
    destruct (store_sim s t n s1 ref Hs Hl) as (t1 & -> & Hs1). by apply (IH ref s1 t1).
Qed.
End Simulation.

(** ** Nodes and their identities *)

Section Identified.
Context `{Kind Ref Node}.

(** The identity of a node in [U] determines the node. *)
Definition distinct_ids (U : Node → Prop) : Prop :=
  ∀ n m, U n → U m → node_id n = node_id m → n = m.
(** Every node of [σ] is in [U] and found under its identity. *)
Definition keyed (U : Node → Prop) (σ : gmap string Node) : Prop :=
  ∀ id n, σ !! id = Some n → U n ∧ node_id n = id.
Definition node_map (nodes : list Node) : gmap string Node :=
  list_to_map ((λ n, (node_id n, n)) <$> nodes).

Lemma keyed_mono (U V : Node → Prop) σ : (∀ n, U n → V n) → keyed U σ → keyed V σ.
Proof. intros HUV HU id n Hn. apply HU in Hn as [? ?]. auto. Qed.
Lemma keyed_insert (U : Node → Prop) σ n :
  U n → keyed U σ → keyed U (<[node_id n := n]> σ).
Proof. intros Hu Hk id m [[<- <-]|[_ Hm]]%lookup_insert_Some; [done|by apply Hk]. Qed.

Section Stores.
Context (U : Node → Prop).
Hypothesis Hdistinct : distinct_ids U.

Lemma node_map_keyed nodes : (∀ n, n ∈ nodes → U n) → keyed U (node_map nodes).
Proof.
  intros Hu id n Hn. apply elem_of_list_to_map_2, list_elem_of_fmap in Hn as (m & [= -> ->] & Hm).
  auto.
Qed.
Lemma node_map_lookup nodes n :
  (∀ n, n ∈ nodes → U n) → n ∈ nodes → node_map nodes !! node_id n = Some n.
Proof.
  intros Hu Hn. destruct (node_map nodes !! node_id n) as [m|] eqn:Hm.
  - apply node_map_keyed in Hm as [Hum Hid]; [|done]. f_equal. by apply Hdistinct; auto.
  - apply not_elem_of_list_to_map in Hm. destruct Hm. rewrite <-list_fmap_compose.
    by apply (list_elem_of_fmap_2 node_id).
Qed.
(** Two stores of distinguishable nodes agree. *)
Lemma keyed_union σ1 σ2 :
  keyed U σ1 → keyed U σ2 → keyed U (σ1 ∪ σ2) ∧ σ2 ⊆ σ1 ∪ σ2.
Proof.
  intros H1 H2. split.
  - intros id n [Hn|[_ Hn]]%lookup_union_Some_raw; [by apply H1|by apply H2].
  - apply map_subseteq_spec. intros id n Hn. destruct (σ1 !! id) as [m|] eqn:Hm.
    + rewrite (lookup_union_Some_l _ _ _ _ Hm). f_equal.
      apply H1 in Hm as [? ?]. apply H2 in Hn as [? ?]. apply Hdistinct; congruence.
    + by rewrite lookup_union_r.
Qed.
End Stores.
End Identified.

(** ** The nodes of a proof *)

Section Index.
Context `{Kind Ref Node}.

Definition verified (n : Node) : Prop := node_verify n = Ok ().
(** The nodes of a list that verify. *)
Definition among (nodes : list Node) (n : Node) : Prop := verified n ∧ n ∈ nodes.
Lemma among_app_l nodes more n : among nodes n → among (nodes ++ more) n.
Proof. intros [? ?]. split; [done|]. apply elem_of_app. by left. Qed.

Lemma index_nodes_keyed code nodes σ :
  index_nodes code nodes = Ok σ → keyed (among nodes) σ.
Proof.
  unfold index_nodes. intros Hi.
  refine (try_fold_inv _ (λ don (σ : gmap string Node), keyed (among don) σ) nodes ∅ σ _ _ Hi);
    [by intros id n|].
  intros don n rest s s' _ IH Hs. inv_ok. apply keyed_insert.
  - split; [done|]. apply elem_of_app. right. by left.
  - eapply keyed_mono, IH. intros m. apply among_app_l.
Qed.
Lemma index_loop code (l : list (string * Node)) σ :
  (∀ id n, (id, n) ∈ l → verified n ∧ node_id n = id) → NoDup l.*1 →
  (∀ id, id ∈ l.*1 → σ !! id = None) →
  try_fold (λ (indexed : gmap string Node) node,
    _ ← node_verify node;
    _ ← require (bool_decide (indexed !! node_id node = None)) (integrity code);
    Ok (<[node_id node := node]> indexed)) σ l.*2 = Ok (list_to_map l ∪ σ).
Proof.
  revert σ. induction l as [|[id n] l IH]; intros σ Hk Hn Hf; cbn.
  - by rewrite map_empty_union.
  - destruct (Hk id n) as [Hv Hid]; [by left|]. unfold verified in Hv. rewrite Hv, Hid.
    cbn in *. apply NoDup_cons in Hn as [Hnin Hn]. rewrite bool_decide_eq_true_2 by (apply Hf; by left).
    cbn. rewrite IH; [|intros; apply Hk; by right|done|].
    + f_equal. rewrite <-insert_union_r, insert_union_l; [done|by apply not_elem_of_list_to_map_1].
    + intros j Hj. rewrite lookup_insert_ne by set_solver. apply Hf. by right.
Qed.
Lemma index_nodes_values code σ : keyed verified σ → index_nodes code (btree_values σ) = Ok σ.
Proof.
  intros Hk. unfold index_nodes, btree_values. rewrite index_loop.
  - by rewrite btree_list_map, map_union_empty.
  - intros id n Hin%elem_of_btree_list. by apply Hk.
  - apply btree_list_NoDup_keys.
  - done.
Qed.
End Index.

(** ** Resolvers that serve a store *)

(** A resolver that answers every request from the map [σ]. *)
Definition serves `{Resolver Node R} (I : R → Prop) (σ : gmap string Node) : Prop :=
  ∀ r id, I r → ∃ r', fetch r id = Ok (r', σ !! id) ∧ I r'.
Lemma memory_serves {Node} (σ : gmap string Node) : serves (λ s, s = σ) σ.
Proof. intros s id ->. by exists σ. Qed.
Lemma proof_serves {Node} (σ : gmap string Node) : serves (λ r, pr_nodes r = σ) σ.
Proof. intros r id <-. eexists. split; [done|]. done. Qed.
Lemma apply_proof_serves {Node} (σ : gmap string Node) : serves (λ r, ap_nodes r = σ) σ.
Proof. intros r id <-. eexists. split; [done|]. done. Qed.

(** A recording of a resolver that serves [σ] serves it too. *)
Definition recorded `{Resolver Node R} (I : R → Prop) (σ : gmap string Node) (s : Recording Node R) : Prop :=
  I (rec_inner s) ∧ rec_nodes s ⊆ σ.
Lemma recording_serves `{Resolver Node R} (I : R → Prop) (σ : gmap string Node) :
  serves I σ → serves (recorded I σ) σ.
Proof.
  intros Hs s id [HI Hsub]. cbn [fetch recording_resolver]. unfold recording_load.
  destruct (rec_nodes s !! id) as [n|] eqn:Hn.
  - exists s. by rewrite (lookup_weaken _ _ _ _ Hn Hsub).
  - destruct (Hs _ id HI) as (r & -> & Hr). cbn [mbind result_bind fst snd]. eexists. split; [done|].
    split; [done|]. cbn [rec_nodes]. destruct (σ !! id) eqn:Hi; [|done]. by apply insert_subseteq_l.
Qed.

Section Resolved.
Context `{Kind Ref Node} `{!Resolver Node R}.

Lemma load_resolved_Ok (r r' : R) ref n :
  load_resolved r ref = Ok (r', n) →
  verified n ∧ node_id n = ref_id ref ∧ same_counts n ref = Ok true.
Proof. unfold load_resolved. intros Hl. inv_ok. by to_prop. Qed.
(** A served node is loaded under the reference that its parent has. *)
Lemma load_resolved_served (I : R → Prop) σ r ref n :
  serves I σ → I r → σ !! ref_id ref = Some n → verified n → node_id n = ref_id ref →
  same_counts n ref = Ok true → ∃ r', load_resolved r ref = Ok (r', n) ∧ I r'.
Proof.
  intros Hs Hr Hn Hv Hid Hc. destruct (Hs r (ref_id ref) Hr) as (r' & Hf & Hr'). exists r'. split; [|done].
  unfold load_resolved. rewrite Hf. cbn [mbind result_bind fst snd]. rewrite Hn.
  cbn [ok_or mbind result_bind]. rewrite Hv. cbn [mbind result_bind].
  rewrite bool_decide_eq_true_2 by done. cbn [require mbind result_bind]. by rewrite Hc.
Qed.
End Resolved.

(** ** A larger store gives the same answers *)

Section Weaken.
Context `{Kind Ref Node} `{!Resolver Node R} (I : R → Prop) (σ1 σ2 : gmap string Node).
Hypothesis Hserves : serves I σ1.
Hypothesis Hsub : σ1 ⊆ σ2.

Definition on_store (o : Overlay Node R) : Overlay Node (gmap string Node) :=
  {| ov_resolver := σ2; ov_pending := ov_pending o; ov_loaded := ov_loaded o |}.
Definition on_store_sim (o : Overlay Node R) (p : Overlay Node (gmap string Node)) : Prop :=
  I (ov_resolver o) ∧ p = on_store o.
Lemma overlay_load_weaken o p ref o' n :
  on_store_sim o p → overlay_load o ref = Ok (o', n) →
  ∃ p', overlay_load p ref = Ok (p', n) ∧ on_store_sim o' p'.
Proof.
  intros [Ho ->] Hl. unfold overlay_load in *. apply bind_Ok in Hl as ([o1 n1] & Hf & Hl).
  assert (Hfind : overlay_find (on_store o) (ref_id ref) = Ok (on_store o1, n1) ∧ I (ov_resolver o1)).
  { unfold overlay_find, on_store in *. cbn [ov_pending ov_loaded ov_resolver].
    destruct (ov_pending o !! ref_id ref) as [k|]; [by injection Hf as <- <-|].
    destruct (ov_loaded o !! ref_id ref) as [k|]; [by injection Hf as <- <-|].
    destruct (Hserves _ (ref_id ref) Ho) as (r & Hload & Hr). rewrite Hload in Hf.
    cbn [mbind result_bind fst snd] in Hf.
    destruct (σ1 !! ref_id ref) as [k|] eqn:Hk; [|done]. cbn [fetch memory_resolver].
    rewrite (lookup_weaken _ _ _ _ Hk Hsub). cbn [ok_or mbind result_bind fst snd] in *.
    inv_ok. by redo_ok. }
  destruct Hfind as [-> Ho1]. cbn [mbind result_bind fst snd] in *. inv_ok. redo_ok.
  eexists. split; [done|]. by split.
Qed.
Lemma overlay_store_weaken o p n o' ref :
  on_store_sim o p → overlay_store o n = Ok (o', ref) →
  ∃ p', overlay_store p n = Ok (p', ref) ∧ on_store_sim o' p'.
Proof.
  intros [Ho ->] Hs. unfold overlay_store in *. inv_ok. cbn [on_store ov_pending ov_loaded ov_resolver].
  redo_ok. eexists. split; [done|]. by split.
Qed.
Lemma run_prog_weaken {A} (p : ProgOf Ref Node A) o o' a :
  I (ov_resolver o) → run_prog p o = Ok (o', a) → run_prog p (on_store o) = Ok (on_store o', a).
Proof.
  intros Ho Hrun. destruct (run_prog_sim on_store_sim _ overlay_load _ overlay_store
    overlay_load_weaken overlay_store_weaken p o (on_store o) o' a) as (t & Ht & _ & ->); done.
Qed.
Lemma run_reads_weaken {A} (p : ReadsOf Ref Node A) r r' a :
  I r → run_reads load_resolved p r = Ok (r', a) →
  run_reads load_resolved p σ2 = Ok (σ2, a) ∧ I r'.
Proof.
  intros Hr Hrun.
  destruct (run_reads_sim (λ r t, I r ∧ t = σ2) load_resolved load_resolved) with
    (p := p) (s := r) (t := σ2) (s' := r') (a := a) as (t & Ht & HI & ->); try done.
  clear r r' a Hr Hrun. intros r t ref r1 n [Hr ->] Hl. unfold load_resolved in *.
  destruct (Hserves _ (ref_id ref) Hr) as (r2 & Hload & Hr2). rewrite Hload in Hl.
  cbn [mbind result_bind fst snd fetch memory_resolver] in *.
  destruct (σ1 !! ref_id ref) as [k|] eqn:Hk; [|done].
  rewrite (lookup_weaken _ _ _ _ Hk Hsub). cbn [ok_or mbind result_bind fst snd] in *. inv_ok.
  redo_ok. eexists. split; [done|]. by split.
Qed.
End Weaken.

(** ** Replay of what was recorded *)

Section Replay.
Context `{Kind Ref Node} `{!Resolver Node R}.

Lemma record_node (s s' : Recording Node R) id n :
  fetch s id = Ok (s', Some n) →
  rec_nodes s' = <[id := n]> (rec_nodes s) ∧ rec_nodes s ⊆ rec_nodes s'.
Proof.
  cbn [fetch recording_resolver]. unfold recording_load. intros Hl.
  destruct (rec_nodes s !! id) as [m|] eqn:Hm.
  - injection Hl as <- ->. by rewrite insert_id.
  - apply bind_Ok in Hl as ([r [m|]] & _ & Hl); cbn in Hl; [|done]. injection Hl as <- ->.
    cbn. split; [done|]. by apply insert_subseteq.
Qed.
(** One read that succeeds records its node, and succeeds on the record. *)
Lemma record_load (s s' : Recording Node R) ref n :
  load_resolved s ref = Ok (s', n) →
  verified n ∧ node_id n = ref_id ref
  ∧ rec_nodes s' = <[ref_id ref := n]> (rec_nodes s) ∧ rec_nodes s ⊆ rec_nodes s'
  ∧ ∀ p, rec_nodes s' ⊆ pr_nodes p → pr_used p = dom (rec_nodes s) →
      ∃ q, load_resolved p ref = Ok (q, n) ∧ pr_nodes q = pr_nodes p
        ∧ pr_used q = dom (rec_nodes s').
Proof.
  unfold load_resolved. intros Hl.
  apply bind_Ok in Hl as ([s1 [n1|]] & Hload & Hl); [|done].
  apply record_node in Hload as [Hs Hsub]. cbn [fst snd ok_or] in Hl. inv_ok.
  split; [done|]. split; [by to_prop|]. split; [done|]. split; [done|]. intros p Hp Hu.
  assert (Hn : pr_nodes p !! ref_id ref = Some n).
  { eapply lookup_weaken; [|exact Hp]. rewrite Hs. by rewrite lookup_insert_eq. }
  cbn [fetch proof_resolver]. unfold proof_load. rewrite Hn. cbn [mbind result_bind fst snd ok_or].
  redo_ok. eexists. split; [done|]. split; [done|]. cbn. rewrite Hu, Hs.
  by rewrite dom_insert_L.
Qed.

Lemma replay {A} (p : ReadsOf Ref Node A) (s s' : Recording Node R) a :
  run_reads load_resolved p s = Ok (s', a) → keyed verified (rec_nodes s) →
  rec_nodes s ⊆ rec_nodes s' ∧ keyed verified (rec_nodes s')
  ∧ ∀ r, rec_nodes s' ⊆ pr_nodes r → pr_used r = dom (rec_nodes s) →
      ∃ r', run_reads load_resolved p r = Ok (r', a) ∧ pr_nodes r' = pr_nodes r
        ∧ pr_used r' = dom (rec_nodes s').
Proof.
  revert s. induction p as [x|ref k IH]; intros s Hrun Hk; cbn [run_reads] in *.
  - destruct x; [|done]. injection Hrun as <- <-. split; [done|]. split; [done|].
    intros r Hr Hu. by exists r.
  - apply bind_Ok in Hrun as ([s1 n] & Hl & Hrun).
    apply record_load in Hl as (Hv & Hid & Hs1 & Hsub & Hre).
    destruct (IH n s1 Hrun) as (Hsub' & Hk' & Hre').
    { rewrite Hs1, <-Hid. by apply keyed_insert. }
    split; [by etrans|]. split; [done|]. intros r Hr Hu.
    destruct (Hre r) as (q & -> & Hq & Huq); [by etrans|done|].
    destruct (Hre' q) as (r' & Hr' & Hn & Hu'); [by rewrite Hq|done|].
    exists r'. split; [exact Hr'|]. split; [by rewrite Hn|done].
Qed.
(** The nodes of a record, as a proof, give the outcome that was recorded,
    and none of them is left unused. *)
Lemma replay_proof {A} (p : ReadsOf Ref Node A) (r : R) s a :
  run_reads load_resolved p {| rec_inner := r; rec_nodes := ∅ |} = Ok (s, a) →
  keyed verified (rec_nodes s)
  ∧ ∃ q, run_reads load_resolved p {| pr_nodes := rec_nodes s; pr_used := ∅ |} = Ok (q, a)
      ∧ ProofResolver_finish q = Ok ().
Proof.
  intros Hrun. destruct (replay _ _ _ _ Hrun) as (_ & Hk & Hre); [by intros id n|]. split; [done|].
  destruct (Hre {| pr_nodes := rec_nodes s; pr_used := ∅ |}) as (q & Hq & Hn & Hu); [done|done|].
  exists q. split; [exact Hq|]. unfold ProofResolver_finish. cbn in Hn. rewrite Hn, Hu, size_dom.
  by rewrite Nat.eqb_refl.
Qed.
End Replay.

(** ** Overlays *)

Section Overlays.
Context `{Kind Ref Node} `{!Resolver Node R} (I : R → Prop) (σ : gmap string Node) (U : Node → Prop).
Hypothesis Hserves : serves I σ.
Hypothesis Hdistinct : distinct_ids U.
Hypothesis Hstore : keyed U σ.

Record ov_inv (o : Overlay Node R) : Prop := {
  oi_resolver : I (ov_resolver o);
  oi_pending : keyed U (ov_pending o);
  oi_loaded : ov_loaded o ⊆ σ;
}.
Definition known (o : Overlay Node R) (n : Node) : Prop :=
  ov_pending o !! node_id n = Some n ∨ σ !! node_id n = Some n.
(** [o'] knows what [o] knows. *)
Definition grown (o o' : Overlay Node R) : Prop := ov_inv o' ∧ ∀ n, U n → known o n → known o' n.

Lemma new_inv r : I r → ov_inv (Overlay_new r).
Proof. intros Hr. split; [done|by intros id n|]. apply map_empty_subseteq. Qed.
Lemma known_U o n : ov_inv o → known o n → U n.
Proof. intros Ho [Hn|Hn]; [by apply (oi_pending _ Ho) in Hn as [? _]|by apply Hstore in Hn as [? _]]. Qed.
Lemma grown_refl o : ov_inv o → grown o o.
Proof. by split. Qed.
Lemma grown_trans o1 o2 o3 : grown o1 o2 → grown o2 o3 → grown o1 o3.
Proof. intros [_ H1] [? H2]. split; [done|]. intros n Hn Hk. by apply H2, H1. Qed.
Lemma known_grown o o' n : ov_inv o → grown o o' → known o n → known o' n.
Proof. intros Ho [_ Hg] Hk. apply Hg; [by eapply known_U|done]. Qed.

Lemma load_known o n ref :
  verified n → node_id n = ref_id ref → same_counts n ref = Ok true → ov_inv o → known o n →
  ∃ o', overlay_load o ref = Ok (o', n) ∧ grown o o' ∧ ov_pending o' = ov_pending o.
Proof.
  intros Hver Hid Hsame Ho Hk. pose proof (known_U _ _ Ho Hk) as Hu.
  enough (∃ o', overlay_find o (ref_id ref) = Ok (o', n) ∧ grown o o' ∧ ov_pending o' = ov_pending o)
    as (o' & Hf & Hg & Hp).
  { exists o'. unfold overlay_load. rewrite Hf. cbn [mbind result_bind snd]. by rewrite Hsame. }
  unfold overlay_find. rewrite <-Hid. destruct (ov_pending o !! node_id n) as [m|] eqn:Hp.
  - apply (oi_pending _ Ho) in Hp as [Hum Hm]. rewrite (Hdistinct m n) by done. exists o. by split.
  - destruct Hk as [Hk|Hk]; [congruence|]. destruct (ov_loaded o !! node_id n) as [m|] eqn:Hl.
    + pose proof (lookup_weaken _ _ _ _ Hl (oi_loaded _ Ho)) as Hm. rewrite Hk in Hm.
      injection Hm as <-. exists o. by split.
    + destruct (Hserves _ (node_id n) (oi_resolver _ Ho)) as (r' & -> & Hr').
      cbn [mbind result_bind fst snd]. rewrite Hk. cbn [ok_or mbind result_bind].
      rewrite Hver. cbn [mbind result_bind]. rewrite bool_decide_eq_true_2 by done.
      cbn [require mbind result_bind]. eexists. split; [done|]. split; [|done]. split; [|done].
      split; cbn; [done|apply Ho|]. by apply insert_subseteq_l, Ho.
Qed.
Lemma store_known o n ref :
  verified n → node_ref n = Ok ref → ov_inv o → U n →
  ∃ o', overlay_store o n = Ok (o', ref) ∧ grown o o' ∧ known o' n.
Proof.
  intros Hver Href Ho Hu. unfold overlay_store. rewrite Hver, Href. cbn [mbind result_bind].
  assert (Hok : match ov_pending o !! node_id n with
    | Some existing => require (bool_decide (existing = n)) (integrity "node_identity_conflict")
    | None => Ok () end = Ok ()).
  { destruct (ov_pending o !! _) as [m|] eqn:Hp; [|done].
    apply (oi_pending _ Ho) in Hp as [Hum Hid]. rewrite (Hdistinct m n) by done.
    by rewrite bool_decide_eq_true_2. }
  rewrite Hok. cbn [mbind result_bind]. eexists. split; [done|].
  split; [|left; cbn; by rewrite lookup_insert_eq]. split.
  - split; cbn; [apply Ho| |apply Ho]. apply keyed_insert; [done|apply Ho].
  - intros m Hum [Hm|Hm]; [|by right]. left. cbn.
    destruct (decide (node_id m = node_id n)) as [He|Hne].
    + rewrite (Hdistinct m n) by done. by rewrite lookup_insert_eq.
    + by rewrite lookup_insert_ne.
Qed.
End Overlays.

(** ** Verified overlays *)

Section VerifiedOverlay.
Context `{Kind Ref Node} `{!Resolver Node R}.

(** Whatever a provider serves, an overlay holds verified nodes only. *)
Definition ov_verified (o : Overlay Node R) : Prop :=
  keyed verified (ov_pending o) ∧ keyed verified (ov_loaded o).
Lemma new_verified (r : R) : ov_verified (Overlay_new r).
Proof. by split; intros id n. Qed.
Lemma load_verified (o o' : Overlay Node R) ref n :
  ov_verified o → overlay_load o ref = Ok (o', n) →
  ov_verified o' ∧ verified n ∧ node_id n = ref_id ref ∧ same_counts n ref = Ok true.
Proof.
  intros [Hp Hl] Hrun. unfold overlay_load in Hrun. apply bind_Ok in Hrun as ([o1 n1] & Hf & Hrun).
  apply bind_Ok in Hrun as (same & Hsame & Hrun). destruct same; [|done]. injection Hrun as -> ->.
  enough (ov_verified o' ∧ verified n ∧ node_id n = ref_id ref) by tauto. unfold overlay_find in Hf.
  destruct (ov_pending o !! ref_id ref) as [m|] eqn:Hm; [injection Hf as -> ->; by apply Hp in Hm|].
  destruct (ov_loaded o !! ref_id ref) as [m|] eqn:Hm'; [injection Hf as -> ->; by apply Hl in Hm'|].
  inv_ok. to_prop. split; [|done]. split; cbn [ov_pending ov_loaded]; [done|]. by apply keyed_insert.
Qed.
Lemma store_verified (o o' : Overlay Node R) n ref :
  ov_verified o → overlay_store o n = Ok (o', ref) → ov_verified o'.
Proof.
  intros [Hp Hl] Hs. unfold overlay_store in Hs. inv_ok. split; cbn [ov_pending ov_loaded]; [|done].
  by apply keyed_insert.
Qed.
Lemma run_prog_verified {A} (p : ProgOf Ref Node A) (o o' : Overlay Node R) a :
  ov_verified o → run_prog p o = Ok (o', a) → ov_verified o'.
Proof.
  intros Ho Hrun.
  destruct (run_prog_sim (λ o p, ov_verified o ∧ p = o) overlay_load overlay_load) with
    (store_s := overlay_store (R := R)) (store_t := overlay_store (R := R)) (p := p) (s := o) (t := o)
    (s' := o') (a := a) as (t & _ & Hv & _); try done.
  - intros o1 t ref o2 n [Hv ->] Hl. exists o2. split; [done|]. split; [|done]. by eapply load_verified.
  - intros o1 t n o2 ref [Hv ->] Hl. exists o2. split; [done|]. split; [|done]. by eapply store_verified.
Qed.
End VerifiedOverlay.

(** ** The store of a construction *)

Section Built.
Context `{Kind Ref Node} (U : Node → Prop).

(** The store of a construction knows its nodes and nothing else. *)
Definition added (objects objects' : gmap string Node) (nodes : list Node) : Prop :=
  ∀ id n, objects' !! id = Some n ↔ objects !! id = Some n ∨ (n ∈ nodes ∧ node_id n = id).

Lemma store_built_known objects n ref :
  verified n → node_ref n = Ok ref → distinct_ids U → keyed U objects → U n →
  ∃ objects', store_built objects n = Ok (objects', ref)
    ∧ keyed U objects' ∧ added objects objects' [n].
Proof.
  intros Hver Href Hd Hk Hu. unfold store_built. rewrite Hver, Href. cbn [mbind result_bind].
  destruct (objects !! node_id n) as [m|] eqn:Hm.
  - destruct (Hk _ _ Hm) as [Hum Hid]. rewrite (Hd m n Hum Hu Hid) in Hm |- *.
    rewrite bool_decide_eq_true_2 by done. cbn [require mbind result_bind]. exists objects.
    split; [done|]. split; [done|]. intros id k. rewrite list_elem_of_singleton. split; [by left|].
    intros [?|[-> <-]]; done.
  - exists (<[node_id n := n]> objects). split; [done|]. split; [by apply keyed_insert|].
    intros id k. rewrite lookup_insert_Some, list_elem_of_singleton. split.
    + intros [[<- <-]|[_ ?]]; auto.
    + intros [Hk'|[-> <-]]; [|by left]. right. split; [|done]. intros <-. congruence.
Qed.
End Built.

(** ** The fuel of the collection of created nodes *)

Section Created.
Context `{Kind Ref Node} `{!Resolver Node R}.
Hypothesis Hchildren : ∀ n : Node, length (node_children n) ≤ 2.

(** What is left to do: the stack, and two references per unvisited pending node. *)
Definition work (o : Overlay Node R) (stack : list Ref) (visited : gset string) : nat :=
  length stack + 2 * size (dom (ov_pending o) ∖ visited).
Lemma work_visit (o : Overlay Node R) id visited node :
  ov_pending o !! id = Some node → id ∉ visited →
  size (dom (ov_pending o) ∖ visited) = S (size (dom (ov_pending o) ∖ ({[id]} ∪ visited))).
Proof.
  intros Hp Hv. assert (Heq : dom (ov_pending o) ∖ visited = {[id]} ∪ dom (ov_pending o) ∖ ({[id]} ∪ visited)).
  { apply elem_of_dom_2 in Hp. apply set_eq. intros x. destruct (decide (x = id)); set_solver. }
  rewrite Heq, size_union, size_singleton by set_solver. done.
Qed.
Lemma work_mono (o : Overlay Node R) visited visited' :
  visited ⊆ visited' → size (dom (ov_pending o) ∖ visited') ≤ size (dom (ov_pending o) ∖ visited).
Proof. intros Hs. apply subseteq_size. set_solver. Qed.
Lemma collect_fuel fuel k (o : Overlay Node R) stack visited created :
  work o stack visited ≤ fuel →
  collect_created (fuel + k) o stack visited created = collect_created fuel o stack visited created.
Proof.
  revert o stack visited created. induction fuel as [|fuel IH]; intros o stack visited created Hw;
    (destruct stack as [|ref stack]; [by destruct k|]); unfold work in *; cbn [length] in Hw; [lia|].
  cbn [Nat.add collect_created]. case_bool_decide as Hin; [apply IH; unfold work; lia|].
  pose proof (work_mono o visited ({[ref_id ref]} ∪ visited) ltac:(set_solver)) as Hm.
  destruct (ov_pending o !! ref_id ref) as [node|] eqn:Hp; [|apply IH; unfold work; lia].
  pose proof (work_visit o _ _ _ Hp Hin) as Hv.
  destruct (node_verify node); cbn [mbind result_bind]; [|done].
  destruct (same_counts node ref); cbn [mbind result_bind]; [|done].
  destruct (require _ _); cbn [mbind result_bind]; [|done].
  case_bool_decide; [apply IH; unfold work; lia|].
  destruct (fetch _ _) as [[r' [existing|]]|]; cbn [mbind result_bind fst snd]; [| |done].
  - destruct (node_verify existing); cbn [mbind result_bind]; [|done].
    destruct (require _ _); cbn [mbind result_bind]; [|done].
    apply IH. unfold work. cbn [ov_pending]. lia.
  - apply IH. unfold work. cbn [ov_pending]. rewrite length_app.
    pose proof (Hchildren node). lia.
Qed.
Lemma collect_fuel_enough (o : Overlay Node R) stack : work o stack ∅ = 2 * size (ov_pending o) + length stack.
Proof. unfold work. rewrite difference_empty_L, size_dom. lia. Qed.
End Created.

(** ** The bytes of a proof *)

Fixpoint total (l : list N) : N := match l with [] => 0%N | n :: l => (n + total l)%N end.
#[export] Instance total_perm : Proper (Permutation ==> eq) total.
Proof. intros l k. induction 1; cbn [total]; lia. Qed.
Lemma sum_checked_fits l : (total l ≤ u64_max)%N → sum_checked l = Some (total l).
Proof.
  unfold sum_checked. intros Hl. enough (∀ a, (a + total l ≤ u64_max)%N →
    foldl (λ acc n, total ← acc; checked_add total n) (Some a) l = Some (a + total l)%N) as Hg.
  { rewrite Hg; [f_equal; lia|lia]. }
  clear Hl. induction l as [|n l IH]; intros a Ha; cbn [total foldl mbind option_bind] in *;
    [f_equal; lia|].
  unfold checked_add at 2. rewrite decide_True by lia. rewrite IH by lia. f_equal. lia.
Qed.

Lemma proof_bytes_cost `{Kind Ref Node} (cost : Node → N) nodes :
  (∀ n, n ∈ nodes → ∃ b, node_bytes n = Ok b ∧ (b ≤ cost n)%N) →
  (total (cost <$> nodes) ≤ MAX_PROOF_BYTES)%N → verify_proof_bytes nodes = Ok ().
Proof.
  intros Hc Hb. unfold verify_proof_bytes.
  enough (∀ b0, (b0 + total (cost <$> nodes) ≤ MAX_PROOF_BYTES)%N →
    ∃ b, try_fold (λ bytes node,
      n ← node_bytes node;
      ok_or (opt_filter (λ n, n <=? MAX_PROOF_BYTES)%N (checked_add bytes n)) BadShape) b0 nodes = Ok b)
    as Hl by (destruct (Hl 0%N) as [b ->]; [lia|done]).
  clear Hb. induction nodes as [|n nodes IH]; intros b0 Hb; [by exists b0|].
  destruct (Hc n) as (b & Hbytes & Hle); [by left|].
  cbn [fmap list_fmap total] in Hb. cbn [try_fold]. rewrite Hbytes. cbn [mbind result_bind].
  unfold checked_add. rewrite decide_True by (unfold MAX_PROOF_BYTES, u64_max in *; lia).
  cbn [opt_filter]. rewrite (proj2 (N.leb_le _ _)) by lia. apply IH; [|lia].
  intros m Hm. apply Hc. by right.
Qed.
