(* ===== verification/MapNode.v ===== *)
(** * Nodes of the authenticated map

    Models the data of [map.rs] in
    [crates/cymule-authenticated-collections/src]: roots, nodes with their
    content identities, and the constraints along a path.  Resolvers and
    overlays of map nodes are those of [Collections]. *)

From S2P Require Import Prelude Identity CommandIndex CollectionHash Collections.

(** ** Bounds ([lib.rs]) *)

Definition MAX_MAP_PATH_NODES : nat := 257.
Definition MAX_MAP_KEY_BYTES : N := MAX_PAGE_BYTES - 64 - 71.
Definition MAX_MAP_MUTATIONS_PER_APPLY : nat := 256.
Definition MAP_NODE_VERSION : string := "cymule.authenticated-map-node/1".
Definition MAP_KEY_VERSION : string := "cymule.authenticated-map-key/1".
Definition MAP_MUTATION_VERSION : string := "cymule.authenticated-map-mutation/1".

(** ** Roots and nodes *)

Record MapRoot := { mr_node : option string; mr_entries : N }.
#[export] Instance MapRoot_eq_dec : EqDecision MapRoot.
Proof. solve_decision. Defined.
Definition MapRoot_empty : MapRoot := {| mr_node := None; mr_entries := 0 |}.
Definition MapRoot_verify (r : MapRoot) : coll () :=
  _ ← require (Bool.eqb (mr_entries r =? 0)%N (bool_decide (mr_node r = None))
               && (mr_entries r <=? MAX_EXACT_INTEGER)%N) BadShape;
  match mr_node r with Some id => validate_collection_id id | None => Ok () end.

Record MapChild := { mc_object_id : string; mc_entries : N }.
#[export] Instance MapChild_eq_dec : EqDecision MapChild.
Proof. solve_decision. Defined.
(** [NodeRef] has the fields of [MapChild]; [into_child] and [From] copy them. *)
Abbreviation NodeRef := MapChild.
Definition MapChild_verify (c : MapChild) : coll () :=
  _ ← validate_collection_id (mc_object_id c);
  require (negb (mc_entries c =? 0)%N && (mc_entries c <=? MAX_EXACT_INTEGER)%N) BadShape.

Inductive MapNodeBody :=
| MapLeaf (key key_hash value : string)
| MapBranch (depth : nat) (prefix : string) (lchild rchild : MapChild).
#[export] Instance MapNodeBody_eq_dec : EqDecision MapNodeBody.
Proof. solve_decision. Defined.
Record MapNode := { mn_version : string; mn_object_id : string; mn_body : MapNodeBody }.
#[export] Instance MapNode_eq_dec : EqDecision MapNode.
Proof. solve_decision. Defined.

Definition validate_key (key : string) : coll () :=
  _ ← require (negb (bool_decide (key = EmptyString))) BadShape;
  _ ← require (byte_len key <=? MAX_MAP_KEY_BYTES)%N BadShape;
  require (negb (has_control key)) BadShape.

(** [left.entries.checked_add(right.entries).filter(...)] *)
Definition branch_entries (lchild rchild : MapChild) : coll N :=
  ok_or (opt_filter (λ n, n <=? MAX_EXACT_INTEGER)%N
           (checked_add (mc_entries lchild) (mc_entries rchild))) BadShape.
Definition MapNode_entries (n : MapNode) : coll N :=
  match mn_body n with
  | MapLeaf _ _ _ => Ok 1%N
  | MapBranch _ _ lchild rchild => branch_entries lchild rchild
  end.

(** The fields of the preimage of a node. *)
Definition map_node_fields (body : MapNodeBody) : list string :=
  match body with
  | MapLeaf key key_hash value => ["leaf"; key; key_hash; value]
  | MapBranch depth prefix lchild rchild =>
      ["branch"; to_be_bytes 2 (N.of_nat depth); prefix;
       mc_object_id lchild; to_be_bytes 8 (mc_entries lchild);
       mc_object_id rchild; to_be_bytes 8 (mc_entries rchild)]
  end.

(** [logical_bytes] *)
Definition MapNode_logical_bytes (n : MapNode) : coll N :=
  ok_or (sum_checked ([byte_len (mn_version n); byte_len (mn_object_id n)]
    ++ match mn_body n with
       | MapLeaf key key_hash value => [byte_len key; byte_len key_hash; byte_len value]
       | MapBranch _ prefix lchild rchild =>
           [byte_len prefix; byte_len (mc_object_id lchild); byte_len (mc_object_id rchild); 32%N]
       end)) BadShape.

Section Nodes.
Context `{Sha256}.

Definition map_node_id (body : MapNodeBody) : string :=
  hash_identifier MAP_NODE_VERSION (map_node_fields body).
Definition map_key_hash (key : string) : coll string :=
  _ ← validate_key key;
  Ok (hash_digest MAP_KEY_VERSION [key]).

Definition MapNode_verify (n : MapNode) : coll () :=
  _ ← require (bool_decide (mn_version n = MAP_NODE_VERSION)) BadShape;
  _ ← match mn_body n with
      | MapLeaf key key_hash value =>
          _ ← validate_key key;
          expected ← map_key_hash key;
          _ ← require (bool_decide (key_hash = expected)) (Integrity "map_key_hash_mismatch");
          validate_collection_id value
      | MapBranch depth prefix lchild rchild =>
          _ ← require (depth <? 256) BadShape;
          _ ← validate_digest prefix;
          normalized ← normalized_hash_prefix prefix depth;
          _ ← require (bool_decide (normalized = prefix)) BadShape;
          _ ← MapChild_verify lchild;
          _ ← MapChild_verify rchild;
          _ ← branch_entries lchild rchild;
          Ok ()
      end;
  require (bool_decide (mn_object_id n = map_node_id (mn_body n)))
    (Integrity "map_node_identity_mismatch").

Definition MapNode_from_body (body : MapNodeBody) : coll MapNode :=
  let node := {| mn_version := MAP_NODE_VERSION; mn_object_id := map_node_id body;
                 mn_body := body |} in
  _ ← MapNode_verify node;
  Ok node.
End Nodes.

(** ** Constraints along a path *)

Record PathConstraint := { pc_depth : nat; pc_prefix : string; pc_right : bool }.

Definition verify_constraints (hash : string) (constraints : list PathConstraint) : coll () :=
  try_each (λ c,
    matches ← hash_matches_prefix hash (pc_prefix c) (pc_depth c);
    if (matches : bool) then
      bit ← hash_bit hash (pc_depth c);
      require (Bool.eqb bit (pc_right c)) (Integrity "map_branch_partition_mismatch")
    else Err (Integrity "map_branch_partition_mismatch")) constraints.
(** [constraints.last().is_some_and(|c| c.depth >= depth)] is an error. *)
Definition require_deeper (constraints : list PathConstraint) (depth : nat) : coll () :=
  match last constraints with
  | Some c => require (negb (depth <=? pc_depth c)) (Integrity "map_branch_depth_mismatch")
  | None => Ok ()
  end.

(** ** Map nodes as a kind *)

Section Kind.
Context `{Sha256}.

Definition map_children (n : MapNode) : list MapChild :=
  match mn_body n with
  | MapBranch _ _ lchild rchild => [lchild; rchild]
  | MapLeaf _ _ _ => []
  end.
Definition map_node_ref (n : MapNode) : coll NodeRef :=
  entries ← MapNode_entries n;
  Ok {| mc_object_id := mn_object_id n; mc_entries := entries |}.
Definition map_same_counts (n : MapNode) (ref : NodeRef) : coll bool :=
  entries ← MapNode_entries n;
  Ok (entries =? mc_entries ref)%N.

#[export] Instance map_kind : Kind MapChild MapNode := {|
  kind_name := "map";
  node_id := mn_object_id;
  node_verify := MapNode_verify;
  node_children := map_children;
  node_bytes := MapNode_logical_bytes;
  node_ref := map_node_ref;
  ref_id := mc_object_id;
  same_counts := map_same_counts;
  counts_code := "child_count_mismatch";
|}.
End Kind.

Abbreviation Reads := (ReadsOf MapChild MapNode).
Abbreviation Prog := (ProgOf MapChild MapNode).
