(* ===== verification/MapTree.v ===== *)
(** * Operations of the authenticated map

    Models the algorithms of [map.rs] in
    [crates/cymule-authenticated-collections/src]: exact lookup, insertion and
    removal in a compressed binary trie over key hashes, batches of mutations,
    and the construction of a whole map. *)

From S2P Require Import Prelude Identity CommandIndex CollectionHash Collections Stores MapNode.

(** ** Lookup *)

Record LookupOutcome := { lo_value : option string; lo_rank : option N }.
Definition absent : LookupOutcome := {| lo_value := None; lo_rank := None |}.

(** The loop of [lookup] and [overlay_lookup].  The two functions differ in
    how a node is loaded, which is a request here, and in the bound of a rank. *)
Section Lookup.
Variables (rank_ok : N → bool) (key key_hash : string).
Fixpoint lookup_path (fuel : nat) (ref : NodeRef) (constraints : list PathConstraint) (rank : N)
    : Reads LookupOutcome :=
  match fuel with
  | O => ReadDone (Err (Integrity "map_path_bound_exceeded"))
  | S fuel => ReadNode ref (λ node,
      match mn_body node with
      | MapLeaf stored_key stored_hash value =>
          ReadDone (
            _ ← verify_constraints stored_hash constraints;
            if bool_decide (stored_key = key) && bool_decide (stored_hash = key_hash)
            then Ok {| lo_value := Some value; lo_rank := Some rank |}
            else if bool_decide (stored_hash = key_hash)
            then Err (Integrity "map_key_hash_collision")
            else Ok absent)
      | MapBranch depth prefix lchild rchild =>
          _ ← ReadDone (verify_constraints prefix constraints);
          _ ← ReadDone (require_deeper constraints depth);
          matches ← ReadDone (hash_matches_prefix key_hash prefix depth);
          if negb matches then ReadDone (Ok absent) else
          goes_right ← ReadDone (hash_bit key_hash depth);
          let constraints := constraints ++ [{| pc_depth := depth; pc_prefix := prefix;
                                                pc_right := goes_right |}] in
          if (goes_right : bool) then
            rank ← ReadDone (ok_or (opt_filter rank_ok (checked_add rank (mc_entries lchild)))
                               (Integrity "map_rank_overflow"));
            lookup_path fuel rchild constraints rank
          else lookup_path fuel lchild constraints rank
      end)
  end.
Definition lookup_root (root : MapRoot) : Reads LookupOutcome :=
  match mr_node root with
  | None => ReadDone (Ok absent)
  | Some id => lookup_path MAX_MAP_PATH_NODES
                 {| mc_object_id := id; mc_entries := mr_entries root |} [] 0
  end.
End Lookup.

(** [lookup] *)
Definition map_lookup (root : MapRoot) (key key_hash : string) : Reads LookupOutcome :=
  _ ← ReadDone (MapRoot_verify root);
  lookup_root (λ n, n <? MAX_EXACT_INTEGER)%N key key_hash root.
(** [overlay_lookup] *)
Definition overlay_lookup (root : MapRoot) (key key_hash : string) : Prog LookupOutcome :=
  reading (lookup_root (λ _, true) key key_hash root).

Section Mutate.
Context `{Sha256}.

(** ** Creation of nodes *)

Definition new_leaf (key key_hash value : string) : Prog NodeRef :=
  node ← Done (MapNode_from_body (MapLeaf key key_hash value));
  Store node mret.
Definition store_branch (depth : nat) (prefix : string) (lref rref : NodeRef) : Prog NodeRef :=
  node ← Done (MapNode_from_body (MapBranch depth prefix lref rref));
  Store node mret.
Definition new_branch (depth : nat) (key_hash : string) (inserted existing : NodeRef)
    : Prog NodeRef :=
  inserted_right ← Done (hash_bit key_hash depth);
  let '(lref, rref) := if (inserted_right : bool) then (existing, inserted)
                       else (inserted, existing) in
  prefix ← Done (normalized_hash_prefix key_hash depth);
  store_branch depth prefix lref rref.

(** ** Insertion *)

Section Insert.
Variables key key_hash value : string.
Fixpoint insert_node (remaining : nat) (ref : NodeRef) (constraints : list PathConstraint)
    : Prog (NodeRef * bool) :=
  match remaining with
  | O => Done (Err (Integrity "map_path_bound_exceeded"))
  | S remaining => Load ref (λ node,
      match mn_body node with
      | MapLeaf stored_key stored_hash _ =>
          _ ← Done (verify_constraints stored_hash constraints);
          if bool_decide (stored_key = key) then
            _ ← Done (require (bool_decide (stored_hash = key_hash))
                        (Integrity "map_key_hash_mismatch"));
            leaf ← new_leaf key key_hash value;
            mret (leaf, false)
          else
            _ ← Done (require (negb (bool_decide (stored_hash = key_hash)))
                        (Integrity "map_key_hash_collision"));
            depth ← Done (common_prefix_bits stored_hash key_hash);
            inserted ← new_leaf key key_hash value;
            branch ← new_branch depth key_hash inserted ref;
            mret (branch, true)
      | MapBranch depth prefix lchild rchild =>
          _ ← Done (verify_constraints prefix constraints);
          _ ← Done (require_deeper constraints depth);
          common ← Done (common_prefix_bits prefix key_hash);
          if common <? depth then
            inserted ← new_leaf key key_hash value;
            branch ← new_branch common key_hash inserted ref;
            mret (branch, true)
          else
            goes_right ← Done (hash_bit key_hash depth);
            let selected := if (goes_right : bool) then rchild else lchild in
            next ← insert_node remaining selected
                     (constraints ++ [{| pc_depth := depth; pc_prefix := prefix;
                                         pc_right := goes_right |}]);
            let '(next_child, inserted) := (next : NodeRef * bool) in
            let '(next_left, next_right) :=
              if goes_right then (lchild, next_child) else (next_child, rchild) in
            branch ← store_branch depth prefix next_left next_right;
            mret (branch, inserted)
      end)
  end.
End Insert.

Definition overlay_put (root : MapRoot) (key key_hash value : string) : Prog MapRoot :=
  put ← match mr_node root with
        | None => leaf ← new_leaf key key_hash value; mret (leaf, true)
        | Some id => insert_node key key_hash value MAX_MAP_PATH_NODES
                       {| mc_object_id := id; mc_entries := mr_entries root |} []
        end;
  let '(next, inserted) := (put : NodeRef * bool) in
  entries ← Done (if (inserted : bool) then ok_or (checked_add (mr_entries root) 1) BadShape
                  else Ok (mr_entries root));
  _ ← Done (require ((entries <=? MAX_EXACT_INTEGER)%N && (mc_entries next =? entries)%N)
              (Integrity "map_result_count_mismatch"));
  mret {| mr_node := Some (mc_object_id next); mr_entries := entries |}.

(** ** Removal *)

Section Remove.
Variables key key_hash : string.
Fixpoint remove_node (remaining : nat) (ref : NodeRef) (constraints : list PathConstraint)
    : Prog (option NodeRef) :=
  match remaining with
  | O => Done (Err (Integrity "map_path_bound_exceeded"))
  | S remaining => Load ref (λ node,
      match mn_body node with
      | MapLeaf stored_key stored_hash _ =>
          _ ← Done (verify_constraints stored_hash constraints);
          if bool_decide (stored_key = key) && bool_decide (stored_hash = key_hash)
          then mret None else Done (Err MutationConflict)
      | MapBranch depth prefix lchild rchild =>
          _ ← Done (verify_constraints prefix constraints);
          _ ← Done (require_deeper constraints depth);
          matches ← Done (hash_matches_prefix key_hash prefix depth);
          if negb matches then Done (Err MutationConflict) else
          goes_right ← Done (hash_bit key_hash depth);
          let selected := if (goes_right : bool) then rchild else lchild in
          next ← remove_node remaining selected
                   (constraints ++ [{| pc_depth := depth; pc_prefix := prefix;
                                       pc_right := goes_right |}]);
          match goes_right, (next : option NodeRef) with
          | true, None => mret (Some lchild)
          | false, None => mret (Some rchild)
          | true, Some next_right =>
              branch ← store_branch depth prefix lchild next_right; mret (Some branch)
          | false, Some next_left =>
              branch ← store_branch depth prefix next_left rchild; mret (Some branch)
          end
      end)
  end.
End Remove.

Definition overlay_remove (root : MapRoot) (key key_hash : string) : Prog MapRoot :=
  id ← Done (ok_or (mr_node root) MutationConflict);
  next ← remove_node key key_hash MAX_MAP_PATH_NODES
           {| mc_object_id := id; mc_entries := mr_entries root |} [];
  entries ← Done (ok_or (checked_sub (mr_entries root) 1) (Integrity "map_remove_count_underflow"));
  _ ← Done (require (match (next : option NodeRef) with Some n => mc_entries n | None => 0 end
                     =? entries)%N (Integrity "map_result_count_mismatch"));
  mret {| mr_node := mc_object_id <$> next; mr_entries := entries |}.
End Mutate.

(** ** Mutations *)

Inductive ExpectedMapValue := Absent | Exact (value : string).
#[export] Instance ExpectedMapValue_eq_dec : EqDecision ExpectedMapValue.
Proof. solve_decision. Defined.
Inductive MapMutation :=
| Put (key : string) (expected : ExpectedMapValue) (value : string)
| Remove (key expected : string).
#[export] Instance MapMutation_eq_dec : EqDecision MapMutation.
Proof. solve_decision. Defined.
Definition mutation_key (mutation : MapMutation) : string :=
  match mutation with Put key _ _ | Remove key _ => key end.

(** [MapMutation::verify] *)
Definition MapMutation_verify (mutation : MapMutation) : coll () :=
  _ ← validate_key (mutation_key mutation);
  match mutation with
  | Put _ expected value =>
      _ ← match expected with
          | Exact expected =>
              _ ← validate_collection_id expected;
              require (negb (bool_decide (expected = value))) BadShape
          | Absent => Ok ()
          end;
      validate_collection_id value
  | Remove _ expected => validate_collection_id expected
  end.
Definition map_mutation_bytes (mutation : MapMutation) : coll N :=
  ok_or (sum_checked match mutation with
    | Put key Absent value => [byte_len key; byte_len value]
    | Put key (Exact expected) value => [byte_len key; byte_len value; byte_len expected]
    | Remove key expected => [byte_len key; byte_len expected]
    end) BadShape.
Definition mutation_fields (mutation : MapMutation) : list string :=
  match mutation with
  | Put key Absent value => ["put"; key; "absent"; value]
  | Put key (Exact expected) value => ["put"; key; "exact"; expected; value]
  | Remove key expected => ["remove"; key; expected]
  end.

Section Apply.
Context `{Sha256}.

Definition mutation_digest (mutations : list MapMutation) : string :=
  hash_identifier MAP_MUTATION_VERSION (mutations ≫= mutation_fields).

(** [canonical_mutations]; the state of the loop is the bytes, the keys and the
    collected mutations.  The order of a pair of a hash and a key is the order
    of their concatenation, because every hash has 64 characters. *)
Definition canonical_step (st : N * gset string * list (string * MapMutation))
    (mutation : MapMutation) : coll (N * gset string * list (string * MapMutation)) :=
  let '(total, keys, ordered) := st in
  _ ← MapMutation_verify mutation;
  bytes ← map_mutation_bytes mutation;
  total ← ok_or (opt_filter (λ n, n <=? MAX_MUTATION_BYTES)%N (checked_add total bytes)) BadShape;
  _ ← require (bool_decide (mutation_key mutation ∉ keys)) BadShape;
  key_hash ← map_key_hash (mutation_key mutation);
  Ok (total, {[mutation_key mutation]} ∪ keys,
      ordered ++ [(key_hash +:+ mutation_key mutation, mutation)]).
Definition canonical_mutations (mutations : list MapMutation) : coll (list MapMutation) :=
  _ ← require ((1 <=? length mutations) && (length mutations <=? MAX_MAP_MUTATIONS_PER_APPLY))
        BadShape;
  st ← try_fold canonical_step (0%N, ∅, []) mutations;
  Ok (sort_by_key fst st.2).*2.

(** One iteration of [apply_map_internal]. *)
Definition apply_map_mutation (root : MapRoot) (mutation : MapMutation) : Prog MapRoot :=
  match mutation with
  | Put key expected value =>
      key_hash ← Done (map_key_hash key);
      current ← overlay_lookup root key key_hash;
      _ ← Done (require (bool_decide (lo_value current
                           = match expected with Absent => None | Exact v => Some v end))
                  MutationConflict);
      overlay_put root key key_hash value
  | Remove key expected =>
      key_hash ← Done (map_key_hash key);
      current ← overlay_lookup root key key_hash;
      _ ← Done (require (bool_decide (lo_value current = Some expected)) MutationConflict);
      overlay_remove root key key_hash
  end.
Fixpoint apply_map_loop (root : MapRoot) (mutations : list MapMutation) : Prog MapRoot :=
  match mutations with
  | [] => mret root
  | mutation :: mutations => root ← apply_map_mutation root mutation; apply_map_loop root mutations
  end.
Definition apply_map_internal (parent : MapRoot) (mutations : list MapMutation) : Prog MapRoot :=
  root ← apply_map_loop parent mutations;
  _ ← Done (MapRoot_verify root);
  mret root.
End Apply.

(** ** Construction of a whole map *)

Record MapBuildEntry := { be_key_hash : string; be_key : string; be_value : string }.

Section Build.
Context `{Sha256}.

(** The loop that looks for the first entry whose bit is set. *)
Fixpoint split_at (depth : nat) (entries : list MapBuildEntry) : coll nat :=
  match entries with
  | [] => Ok 0
  | e :: entries =>
      bit ← hash_bit (be_key_hash e) depth;
      if (bit : bool) then Ok 0 else split ← split_at depth entries; Ok (S split)
  end.

(** [build_map_subtree]; the recursion is on smaller slices, [fuel] is the
    number of entries. *)
Fixpoint build_map_subtree (fuel : nat) (objects : gmap string MapNode)
    (entries : list MapBuildEntry) : coll (gmap string MapNode * NodeRef) :=
  match fuel, entries with
  | _, [] => Err (Integrity "map_build_empty_subtree")
  | O, _ => Err CollectionPanic
  | S fuel, [first] =>
      node ← MapNode_from_body (MapLeaf (be_key first) (be_key_hash first) (be_value first));
      store_built objects node
  | S fuel, first :: _ =>
      final ← ok_or (last entries) CollectionPanic;
      _ ← require (negb (bool_decide (be_key_hash first = be_key_hash final)))
            (Integrity "map_key_hash_collision");
      depth ← common_prefix_bits (be_key_hash first) (be_key_hash final);
      split ← split_at depth entries;
      _ ← require (negb (split =? length entries)) (Integrity "map_build_partition_mismatch");
      _ ← require (negb (split =? 0)) (Integrity "map_build_partition_mismatch");
      lbuilt ← build_map_subtree fuel objects (take split entries);
      let '(objects, lref) := (lbuilt : gmap string MapNode * NodeRef) in
      rbuilt ← build_map_subtree fuel objects (drop split entries);
      let '(objects, rref) := (rbuilt : gmap string MapNode * NodeRef) in
      prefix ← normalized_hash_prefix (be_key_hash first) depth;
      node ← MapNode_from_body (MapBranch depth prefix lref rref);
      store_built objects node
  end.

(** The checks of one entry; the state is the keys and the entries so far. *)
Definition build_entry (st : gset string * list (string * MapBuildEntry)) (kv : string * string)
    : coll (gset string * list (string * MapBuildEntry)) :=
  let '(keys, ordered) := st in
  let '(key, value) := kv in
  _ ← validate_key key;
  _ ← validate_collection_id value;
  _ ← require (bool_decide (key ∉ keys)) BadShape;
  key_hash ← map_key_hash key;
  Ok ({[key]} ∪ keys,
      ordered ++ [(key_hash +:+ key,
                   {| be_key_hash := key_hash; be_key := key; be_value := value |})]).
(** [build_map]; the objects are the values of the map in the order of their
    identities. *)
Definition build_map (entries : list (string * string)) : coll (MapRoot * list MapNode) :=
  _ ← require (N.of_nat (length entries) <=? MAX_EXACT_INTEGER)%N BadShape;
  if bool_decide (entries = []) then Ok (MapRoot_empty, []) else
  st ← try_fold build_entry (∅, []) entries;
  let ordered := (sort_by_key fst st.2).*2 in
  built ← build_map_subtree (length ordered) ∅ ordered;
  let '(objects, ref) := (built : gmap string MapNode * NodeRef) in
  let root := {| mr_node := Some (mc_object_id ref); mr_entries := mc_entries ref |} in
  _ ← MapRoot_verify root;
  _ ← require (mr_entries root =? N.of_nat (length entries))%N
        (Integrity "map_build_count_mismatch");
  Ok (root, btree_values objects).
End Build.
