(* ===== verification/MapProof.v ===== *)
(** * Proofs of the authenticated map

    Models the proofs of [map.rs] in
    [crates/cymule-authenticated-collections/src]: exact membership or absence,
    bounded pages without omissions, batches of mutations, and the audit of a
    whole map.  A proof carries nodes; verifying it runs the very algorithm
    that produced it on a resolver that knows only these nodes. *)

From S2P Require Import Prelude Identity CommandIndex CollectionHash Collections Stores MapNode MapTree.

Definition MAX_MAP_RANGE_PROOF_NODES : nat := MAX_MAP_PATH_NODES * 4 + MAX_PAGE_ENTRIES * 2 + 4.

Section Proofs.
Context `{Sha256}.

(** ** Exact proofs *)

Record MapExactProof := {
  ex_root : MapRoot; ex_key : string; ex_key_hash : string; ex_nodes : list MapNode;
}.
Record VerifiedMapRead := {
  vr_root : MapRoot; vr_key : string; vr_value : option string; vr_rank : option N;
}.

Definition prove_map_exact `{Resolver MapNode R} (root : MapRoot) (key : string) (resolver : R)
    : coll MapExactProof :=
  _ ← MapRoot_verify root;
  key_hash ← map_key_hash key;
  run ← run_reads load_resolved (map_lookup root key key_hash)
          {| rec_inner := resolver; rec_nodes := ∅ |};
  Ok {| ex_root := root; ex_key := key; ex_key_hash := key_hash;
        ex_nodes := btree_values (rec_nodes run.1) |}.

Definition verify_map_exact (expected_root : MapRoot) (expected_key : string)
    (proof : MapExactProof) : coll VerifiedMapRead :=
  _ ← MapRoot_verify expected_root;
  _ ← require (bool_decide (ex_root proof = expected_root)
               && bool_decide (ex_key proof = expected_key))
        (Integrity "map_exact_authority_mismatch");
  key_hash ← map_key_hash expected_key;
  _ ← require (bool_decide (ex_key_hash proof = key_hash))
        (Integrity "map_exact_key_hash_mismatch");
  resolver ← ProofResolver_new (ex_nodes proof) MAX_MAP_PATH_NODES;
  run ← run_reads load_resolved (map_lookup expected_root expected_key (ex_key_hash proof))
          resolver;
  _ ← ProofResolver_finish run.1;
  Ok {| vr_root := expected_root; vr_key := expected_key;
        vr_value := lo_value run.2; vr_rank := lo_rank run.2 |}.

(** ** Proofs of a batch of mutations *)

Record MapApplyProof := {
  apf_parent : MapRoot; apf_result : MapRoot;
  apf_mutations : list MapMutation; apf_nodes : list MapNode;
}.
Record VerifiedMapApply := {
  va_parent : MapRoot; va_result : MapRoot;
  va_mutations : list MapMutation; va_digest : string;
}.

Definition verify_map_apply (expected_parent : MapRoot) (expected_mutations : list MapMutation)
    (proof : MapApplyProof) : coll VerifiedMapApply :=
  _ ← MapRoot_verify expected_parent;
  mutations ← canonical_mutations expected_mutations;
  _ ← require (bool_decide (apf_parent proof = expected_parent)
               && bool_decide (apf_mutations proof = mutations))
        (Integrity "map_apply_authority_mismatch");
  resolver ← ApplyProofResolver_new (apf_nodes proof)
                (MAX_MAP_PATH_NODES * MAX_MAP_MUTATIONS_PER_APPLY * 2);
  run ← run_prog (apply_map_internal expected_parent mutations) (Overlay_new resolver);
  _ ← require (bool_decide (run.2 = apf_result proof)) (Integrity "map_apply_result_mismatch");
  _ ← ApplyProofResolver_finish (ov_resolver run.1) (dom (ov_loaded run.1));
  Ok {| va_parent := expected_parent; va_result := run.2; va_mutations := mutations;
        va_digest := mutation_digest mutations |}.

Section Created.
Context `{Resolver MapNode R}.

Definition collect_reachable_created_map_nodes (root : MapRoot) (o : Overlay MapNode R)
    : coll (list MapNode) :=
  match mr_node root with
  | None => Ok []
  | Some id =>
      st ← collect_created (2 * size (ov_pending o) + 2) o
             [{| mc_object_id := id; mc_entries := mr_entries root |}] ∅ ∅;
      Ok (btree_values st.2)
  end.

Record MapApplyOutput := {
  out_verified : VerifiedMapApply; out_proof : MapApplyProof; out_objects : list MapNode;
}.
Definition apply_map_mutations (parent : MapRoot) (mutations : list MapMutation) (resolver : R)
    : coll MapApplyOutput :=
  _ ← MapRoot_verify parent;
  mutations ← canonical_mutations mutations;
  run ← run_prog (apply_map_internal parent mutations) (Overlay_new resolver);
  let proof_nodes := btree_values (ov_loaded run.1) in
  objects ← collect_reachable_created_map_nodes run.2 run.1;
  let proof := {| apf_parent := parent; apf_result := run.2; apf_mutations := mutations;
                  apf_nodes := proof_nodes |} in
  verified ← verify_map_apply parent mutations proof;
  Ok {| out_verified := verified; out_proof := proof; out_objects := objects |}.
End Created.

(** ** Pages *)

Record MapPosition := { pos_key : string; pos_key_hash : string }.
Definition MapPosition_for_key (key : string) : coll MapPosition :=
  key_hash ← map_key_hash key; Ok {| pos_key := key; pos_key_hash := key_hash |}.
Definition MapPosition_verify (p : MapPosition) : coll () :=
  expected ← map_key_hash (pos_key p);
  require (bool_decide (pos_key_hash p = expected)) BadShape.

(** [MapRangeSelection] *)
Record Selection := {
  sel_entries : list (MapPosition * string);
  sel_used_bytes : N;
  sel_boundary : option (MapPosition * string);
}.
Definition no_selection : Selection :=
  {| sel_entries := []; sel_used_bytes := 0; sel_boundary := None |}.

Definition page_entry_bytes (p : MapPosition) (value : string) : coll N :=
  ok_or (sum_checked [byte_len (pos_key p); byte_len (pos_key_hash p); byte_len value]) BadShape.

Section Range.
Variables (start : N) (limit : nat) (max_bytes : N).

(** [MapRangeTraversal::visit_leaf] *)
Definition visit_leaf (base_rank : N) (key key_hash value : string)
    (constraints : list PathConstraint) (sel : Selection) : coll Selection :=
  _ ← verify_constraints key_hash constraints;
  if (base_rank <? start)%N then Ok sel else
  let position := {| pos_key := key; pos_key_hash := key_hash |} in
  _ ← MapPosition_verify position;
  _ ← validate_collection_id value;
  bytes ← page_entry_bytes position value;
  next_bytes ← ok_or (checked_add (sel_used_bytes sel) bytes) BadShape;
  if (length (sel_entries sel) <? limit) && (next_bytes <=? max_bytes)%N then
    Ok {| sel_entries := sel_entries sel ++ [(position, value)]; sel_used_bytes := next_bytes;
          sel_boundary := sel_boundary sel |}
  else
    Ok {| sel_entries := sel_entries sel; sel_used_bytes := sel_used_bytes sel;
          sel_boundary := Some (position, value) |}.

(** [MapRangeTraversal::visit] with [visit_branch].  The recursion of the code
    is bounded by the growing depth of the branches on a path, here by
    [fuel]. *)
Fixpoint visit (fuel : nat) (ref : NodeRef) (base_rank : N) (constraints : list PathConstraint)
    (sel : Selection) : Reads Selection :=
  match fuel with
  | O => ReadDone (Err CollectionPanic)
  | S fuel =>
      if bool_decide (is_Some (sel_boundary sel)) then mret sel else
      end_rank ← ReadDone (ok_or (checked_add base_rank (mc_entries ref))
                             (Integrity "map_range_rank_overflow"));
      if (end_rank <=? start)%N then mret sel else
      ReadNode ref (λ node,
        match mn_body node with
        | MapLeaf key key_hash value =>
            ReadDone (visit_leaf base_rank key key_hash value constraints sel)
        | MapBranch depth prefix lchild rchild =>
            _ ← ReadDone (verify_constraints prefix constraints);
            _ ← ReadDone (require_deeper constraints depth);
            sel ← visit fuel lchild base_rank
                    (constraints ++ [{| pc_depth := depth; pc_prefix := prefix;
                                        pc_right := false |}]) sel;
            right_rank ← ReadDone (ok_or (checked_add base_rank (mc_entries lchild))
                                     (Integrity "map_range_rank_overflow"));
            visit fuel rchild right_rank
              (constraints ++ [{| pc_depth := depth; pc_prefix := prefix; pc_right := true |}]) sel
        end)
  end.

Definition collect_map_range (root : MapRoot) : Reads Selection :=
  _ ← ReadDone (require (start <=? mr_entries root)%N (Integrity "map_range_start_mismatch"));
  match mr_node root with
  | None => mret no_selection
  | Some id =>
      sel ← visit MAX_MAP_PATH_NODES {| mc_object_id := id; mc_entries := mr_entries root |} 0 []
              no_selection;
      _ ← ReadDone (require (negb (bool_decide (sel_entries sel = [])
                                   && bool_decide (is_Some (sel_boundary sel)))) BadShape);
      mret sel
  end.
End Range.

Definition validate_page_request (limit : nat) (max_bytes : N) : coll () :=
  _ ← require ((1 <=? limit) && (limit <=? MAX_PAGE_ENTRIES)) BadShape;
  require ((1 <=? max_bytes)%N && (max_bytes <=? MAX_PAGE_BYTES)%N) BadShape.

Definition map_range_start (root : MapRoot) (after : option MapPosition) : Reads N :=
  match after with
  | None => mret 0%N
  | Some after =>
      _ ← ReadDone (MapPosition_verify after);
      outcome ← map_lookup root (pos_key after) (pos_key_hash after);
      _ ← ReadDone (require (bool_decide (is_Some (lo_value outcome))) MutationConflict);
      ReadDone (ok_or (rank ← lo_rank outcome; checked_add rank 1)
                  (Integrity "map_page_rank_overflow"))
  end.
(** The reads of [prove_map_range] and [verify_map_range]. *)
Definition read_map_range (root : MapRoot) (after : option MapPosition) (limit : nat) (max_bytes : N)
    : Reads Selection :=
  start ← map_range_start root after;
  collect_map_range start limit max_bytes root.

Record MapRangeProof := {
  rg_root : MapRoot; rg_after : option MapPosition; rg_limit : nat; rg_max_bytes : N;
  rg_nodes : list MapNode;
}.
Record VerifiedMapPage := {
  pg_root : MapRoot; pg_after : option MapPosition;
  pg_entries : list (MapPosition * string); pg_next_position : option MapPosition;
}.
#[export] Instance MapPosition_eq_dec : EqDecision MapPosition.
Proof. solve_decision. Defined.

(** The [try_from] conversions of the request cannot fail: both are bounded. *)
Definition prove_map_range `{Resolver MapNode R} (root : MapRoot) (after : option MapPosition)
    (limit : nat) (max_bytes : N) (resolver : R) : coll MapRangeProof :=
  _ ← validate_page_request limit max_bytes;
  _ ← MapRoot_verify root;
  run ← run_reads load_resolved (read_map_range root after limit max_bytes)
          {| rec_inner := resolver; rec_nodes := ∅ |};
  Ok {| rg_root := root; rg_after := after; rg_limit := limit; rg_max_bytes := max_bytes;
        rg_nodes := btree_values (rec_nodes run.1) |}.

Definition verify_map_range (expected_root : MapRoot) (expected_after : option MapPosition)
    (limit : nat) (max_bytes : N) (proof : MapRangeProof) : coll VerifiedMapPage :=
  _ ← validate_page_request limit max_bytes;
  _ ← MapRoot_verify expected_root;
  _ ← require (bool_decide (rg_root proof = expected_root)
               && bool_decide (rg_after proof = expected_after)
               && (rg_limit proof =? limit) && (rg_max_bytes proof =? max_bytes)%N)
        (Integrity "map_range_authority_mismatch");
  _ ← require (length (rg_nodes proof) <=? MAX_MAP_RANGE_PROOF_NODES) BadShape;
  _ ← verify_proof_bytes (rg_nodes proof);
  resolver ← ProofResolver_new (rg_nodes proof) MAX_MAP_RANGE_PROOF_NODES;
  run ← run_reads load_resolved
          (read_map_range expected_root expected_after limit max_bytes) resolver;
  _ ← ProofResolver_finish run.1;
  let selection := run.2 in
  Ok {| pg_root := expected_root; pg_after := expected_after; pg_entries := sel_entries selection;
        pg_next_position := match sel_boundary selection with
                            | Some _ => fst <$> last (sel_entries selection)
                            | None => None
                            end |}.

(** ** Audit *)

Record AuditState := {
  au_visited : gset string; au_keys : gset string;
  au_entries : list (MapPosition * string); au_objects : list MapNode;
}.
(** The loop of [audit_map]: its stack visits a node, then its left subtree,
    then its right one; [fuel] bounds the length of a path. *)
Fixpoint audit_subtree (fuel : nat) (ref : NodeRef) (constraints : list PathConstraint)
    (st : AuditState) : Reads AuditState :=
  match fuel with
  | O => ReadDone (Err CollectionPanic)
  | S fuel =>
      _ ← ReadDone (require (bool_decide (mc_object_id ref ∉ au_visited st))
                      (Integrity "map_audit_repeated_node"));
      ReadNode ref (λ node,
        let visited := {[mc_object_id ref]} ∪ au_visited st in
        match mn_body node with
        | MapLeaf key key_hash value =>
            _ ← ReadDone (verify_constraints key_hash constraints);
            _ ← ReadDone (require (bool_decide (key ∉ au_keys st))
                            (Integrity "map_audit_duplicate_key"));
            mret {| au_visited := visited; au_keys := {[key]} ∪ au_keys st;
                    au_entries := au_entries st
                      ++ [({| pos_key := key; pos_key_hash := key_hash |}, value)];
                    au_objects := au_objects st ++ [node] |}
        | MapBranch depth prefix lchild rchild =>
            _ ← ReadDone (verify_constraints prefix constraints);
            _ ← ReadDone (require_deeper constraints depth);
            st ← audit_subtree fuel lchild
                   (constraints ++ [{| pc_depth := depth; pc_prefix := prefix;
                                       pc_right := false |}])
                   {| au_visited := visited; au_keys := au_keys st; au_entries := au_entries st;
                      au_objects := au_objects st ++ [node] |};
            audit_subtree fuel rchild
              (constraints ++ [{| pc_depth := depth; pc_prefix := prefix; pc_right := true |}]) st
        end)
  end.

(** [pair[0] < pair[1]] for the positions of neighbouring entries. *)
Definition position_lt (p q : MapPosition) : bool :=
  negb (String.leb (pos_key_hash q) (pos_key_hash p))
  || (bool_decide (pos_key_hash p = pos_key_hash q) && negb (String.leb (pos_key q) (pos_key p))).
Fixpoint strictly_ordered (entries : list (MapPosition * string)) : bool :=
  match entries with
  | a :: (b :: _) as rest => position_lt a.1 b.1 && strictly_ordered rest
  | _ => true
  end.

Definition audit_map `{Resolver MapNode R} (root : MapRoot) (resolver : R)
    : coll (list (MapPosition * string) * list MapNode) :=
  _ ← MapRoot_verify root;
  match mr_node root with
  | None => Ok ([], [])
  | Some id =>
      run ← run_reads load_resolved
              (audit_subtree MAX_MAP_PATH_NODES
                 {| mc_object_id := id; mc_entries := mr_entries root |} []
                 {| au_visited := ∅; au_keys := ∅; au_entries := []; au_objects := [] |}) resolver;
      _ ← require ((N.of_nat (length (au_entries run.2)) =? mr_entries root)%N
                   && strictly_ordered (au_entries run.2))
            (Integrity "map_audit_order_or_count_mismatch");
      Ok (au_entries run.2, sort_by_key mn_object_id (au_objects run.2))
  end.
End Proofs.
