(* ===== verification/Trie.v ===== *)
(** * Compressed tries over key hashes

    The abstract content of the authenticated map: a binary trie that branches
    only where the hashes of its keys differ, its insertion and removal as pure
    functions, and the fact that a set of entries has exactly one such trie. *)

From S2P Require Import Prelude Identity CommandIndex CollectionHash Collections Stores MapNode.

Inductive trie :=
| Tip (k v : string)
| Fork (d : nat) (l r : trie).

Fixpoint tmap (t : trie) : gmap string string :=
  match t with Tip k v => {[k := v]} | Fork _ l r => tmap l ∪ tmap r end.
(** The entries from left to right. *)
Fixpoint tlist (t : trie) : list (string * string) :=
  match t with Tip k v => [(k, v)] | Fork _ l r => tlist l ++ tlist r end.
Definition tsize (t : trie) : nat := length (tlist t).
Fixpoint theight (t : trie) : nat :=
  match t with Tip _ _ => 0 | Fork _ l r => S (Nat.max (theight l) (theight r)) end.
Fixpoint tfirst (t : trie) : string :=
  match t with Tip k _ => k | Fork _ l _ => tfirst l end.

Section Trie.
Context `{Sha256}.

Definition key_digest (k : string) : string := hash_digest MAP_KEY_VERSION [k].
Definition key_bits (k : string) : list bool := hash_bits (key_digest k).

(** All keys of [t] start with the bits [q]. *)
Definition under (q : list bool) (t : trie) : Prop :=
  ∀ k, k ∈ (tlist t).*1 → q `prefix_of` key_bits k.

(** The keys of a fork share exactly the bits before its depth. *)
Fixpoint twf (t : trie) : Prop :=
  match t with
  | Tip _ _ => True
  | Fork d l r =>
      twf l ∧ twf r ∧ d < 256
      ∧ ∃ q, length q = d ∧ under (q ++ [false]) l ∧ under (q ++ [true]) r
  end.

(** ** Keys and bits *)

Lemma key_digest_digest k : digest (key_digest k).
Proof. unfold key_digest. rewrite hash_digest_eq. apply sha256_bytes_is_digest. Qed.
Lemma key_bits_length k : length (key_bits k) = 256.
Proof. apply hash_bits_length, key_digest_digest. Qed.
Lemma key_bits_inj j k : key_bits j = key_bits k → key_digest j = key_digest k.
Proof. apply hash_bits_inj; apply key_digest_digest. Qed.

Lemma tfirst_in t : tfirst t ∈ (tlist t).*1.
Proof.
  induction t as [k v|d l IHl r _]; cbn; [by left|]. rewrite fmap_app. apply elem_of_app. by left.
Qed.
Lemma under_weaken p q t : p `prefix_of` q → under q t → under p t.
Proof. intros Hp Hq k Hk. etrans; [done|by apply Hq]. Qed.
Lemma under_fork q d l r : under q (Fork d l r) ↔ under q l ∧ under q r.
Proof.
  unfold under. cbn. rewrite fmap_app. setoid_rewrite elem_of_app. naive_solver.
Qed.
Lemma prefix_app_cons (q l : list bool) b : (q ++ [b]) `prefix_of` l → l !! length q = Some b ∧ q = take (length q) l.
Proof.
  intros [k ->]. rewrite <-app_assoc. cbn. rewrite list_lookup_middle by done.
  by rewrite take_app_length.
Qed.
Lemma prefix_snoc (q l : list bool) b :
  q `prefix_of` l → l !! length q = Some b → (q ++ [b]) `prefix_of` l.
Proof.
  intros [k ->] Hb. rewrite lookup_app_r, Nat.sub_diag in Hb by lia. destruct k as [|c k]; [done|].
  injection Hb as ->. exists k. by rewrite <-app_assoc.
Qed.
(** The bit of a key decides the subtree it can be in. *)
Lemma under_bit q b t k : under (q ++ [b]) t → k ∈ (tlist t).*1 → key_bits k !! length q = Some b.
Proof. intros Hu Hk. by apply Hu, prefix_app_cons in Hk as [? _]. Qed.
Lemma under_take q b t k : under (q ++ [b]) t → k ∈ (tlist t).*1 → take (length q) (key_bits k) = q.
Proof. intros Hu Hk. by apply Hu, prefix_app_cons in Hk as [_ <-]. Qed.
Lemma sides_disjoint q l r k :
  under (q ++ [false]) l → under (q ++ [true]) r → k ∈ (tlist l).*1 → k ∈ (tlist r).*1 → False.
Proof. intros Hl Hr Hkl Hkr. eapply under_bit in Hkl, Hkr; [|done..]. congruence. Qed.

(** ** Entries *)

Lemma tmap_dom t k : is_Some (tmap t !! k) ↔ k ∈ (tlist t).*1.
Proof.
  induction t as [k' v|d l IHl r IHr]; cbn.
  - rewrite lookup_singleton_is_Some, list_elem_of_singleton. naive_solver.
  - rewrite fmap_app, elem_of_app, <-IHl, <-IHr, lookup_union_is_Some. done.
Qed.
Lemma tmap_none t k : tmap t !! k = None ↔ k ∉ (tlist t).*1.
Proof. by rewrite <-tmap_dom, eq_None_not_Some. Qed.
Lemma tmap_left q l r k :
  under (q ++ [true]) r → key_bits k !! length q = Some false →
  (tmap l ∪ tmap r) !! k = tmap l !! k.
Proof.
  intros Hr Hb. rewrite lookup_union. assert (tmap r !! k = None) as ->.
  { apply tmap_none. intros Hk. eapply under_bit in Hk; [|done]. congruence. }
  by destruct (tmap l !! k).
Qed.
Lemma tmap_right q l r k :
  under (q ++ [false]) l → key_bits k !! length q = Some true →
  (tmap l ∪ tmap r) !! k = tmap r !! k.
Proof.
  intros Hl Hb. rewrite lookup_union. assert (tmap l !! k = None) as ->.
  { apply tmap_none. intros Hk. eapply under_bit in Hk; [|done]. congruence. }
  by destruct (tmap r !! k).
Qed.
Lemma tlist_nodup t : twf t → NoDup (tlist t).*1.
Proof.
  induction t as [k v|d l IHl r IHr]; cbn; [intros _; apply NoDup_singleton|].
  intros (Hl & Hr & _ & q & _ & Hul & Hur). rewrite fmap_app. apply NoDup_app.
  split; [by apply IHl|]. split; [|by apply IHr]. intros k Hkl Hkr. by eapply sides_disjoint.
Qed.
Lemma tmap_list t : twf t → tmap t = list_to_map (tlist t).
Proof.
  induction t as [k v|d l IHl r IHr]; cbn; [by intros _|].
  intros (Hl & Hr & _). by rewrite list_to_map_app, <-IHl, <-IHr.
Qed.
Lemma tmap_elem t k v : twf t → tmap t !! k = Some v ↔ (k, v) ∈ tlist t.
Proof.
  intros Hwf. rewrite tmap_list by done. symmetry. apply elem_of_list_to_map. by apply tlist_nodup.
Qed.
Lemma tmap_size t : twf t → size (tmap t) = tsize t.
Proof.
  intros Hwf. rewrite tmap_list by done. rewrite map_size_list_to_map by by apply tlist_nodup.
  done.
Qed.
Lemma tsize_pos t : 0 < tsize t.
Proof.
  unfold tsize. induction t as [k v|d l IHl r IHr]; cbn; [lia|]. rewrite length_app. lia.
Qed.
Lemma tsize_fork d l r : tsize (Fork d l r) = tsize l + tsize r.
Proof. unfold tsize. cbn. apply length_app. Qed.

(** A fork lies below the bits that all its keys share. *)
Lemma under_depth q d l r : twf (Fork d l r) → under q (Fork d l r) → length q ≤ d.
Proof.
  intros (Hl & Hr & Hd & p & Hp & Hul & Hur) [Huql Huqr]%under_fork.
  pose proof (tfirst_in l) as Hkl. pose proof (tfirst_in r) as Hkr.
  pose proof (under_bit _ _ _ _ Hul Hkl) as Hbl. pose proof (under_bit _ _ _ _ Hur Hkr) as Hbr.
  apply Huql in Hkl as [zl Hzl]. apply Huqr in Hkr as [zr Hzr].
  destruct (decide (length q ≤ d)) as [|Hn]; [done|]. exfalso.
  rewrite Hzl, lookup_app_l in Hbl by lia. rewrite Hzr, lookup_app_l in Hbr by lia. congruence.
Qed.

(** A path has at most 256 forks. *)
Lemma theight_bound t q : twf t → under q t → length q + theight t ≤ 256.
Proof.
  revert q. induction t as [k v|d l IHl r IHr]; intros q; cbn.
  - intros _ Hu. pose proof (prefix_length _ _ (Hu k (tfirst_in (Tip k v)))) as Hq.
    rewrite key_bits_length in Hq. lia.
  - intros Hwf Hu. pose proof (under_depth _ _ _ _ Hwf Hu).
    destruct Hwf as (Hl & Hr & Hd & p & Hp & Hul & Hur).
    pose proof (IHl _ Hl Hul) as H1. pose proof (IHr _ Hr Hur) as H2.
    rewrite !length_app in H1, H2. cbn in H1, H2. lia.
Qed.

(** ** Uniqueness *)

(** The depth of a fork is where two of its keys part. *)
Lemma fork_depth d1 d2 l1 r1 l2 r2 :
  twf (Fork d1 l1 r1) → twf (Fork d2 l2 r2) →
  (∀ k, k ∈ (tlist (Fork d1 l1 r1)).*1 → k ∈ (tlist (Fork d2 l2 r2)).*1) → d2 ≤ d1.
Proof.
  intros (_ & _ & _ & p & Hp & Hpl & Hpr) (_ & _ & _ & q & Hq & Hql & Hqr) Hsub.
  destruct (decide (d2 ≤ d1)) as [|Hn]; [done|]. exfalso.
  assert (Hu : under q (Fork d2 l2 r2)).
  { apply under_fork. split; (eapply under_weaken; [|done]); by eexists. }
  pose proof (tfirst_in l1) as Hk. pose proof (tfirst_in r1) as Hj.
  pose proof (under_bit _ _ _ _ Hpl Hk) as Hbk. pose proof (under_bit _ _ _ _ Hpr Hj) as Hbj.
  destruct (Hu (tfirst l1)) as [zk Hzk].
  { apply Hsub. cbn. rewrite fmap_app. set_solver. }
  destruct (Hu (tfirst r1)) as [zj Hzj].
  { apply Hsub. cbn. rewrite fmap_app. set_solver. }
  rewrite Hzk, lookup_app_l in Hbk by lia. rewrite Hzj, lookup_app_l in Hbj by lia. congruence.
Qed.
Lemma trie_unique t1 t2 : twf t1 → twf t2 → tmap t1 = tmap t2 → t1 = t2.
Proof.
  revert t2. induction t1 as [k v|d l IHl r IHr]; intros t2 H1 H2 Heq.
  - destruct t2 as [k' v'|d' l' r'].
    + pose proof (f_equal (lookup k) Heq) as Hk. cbn in Hk. rewrite lookup_singleton_eq in Hk.
      symmetry in Hk. by apply lookup_singleton_Some in Hk as [-> ->].
    + exfalso. pose proof (tmap_size _ H2) as Hs. rewrite <-Heq, tsize_fork in Hs. cbn in Hs.
      rewrite map_size_singleton in Hs. pose proof (tsize_pos l'). pose proof (tsize_pos r'). lia.
  - destruct t2 as [k' v'|d' l' r'].
    + exfalso. pose proof (tmap_size _ H1) as Hs. rewrite Heq, tsize_fork in Hs. cbn in Hs.
      rewrite map_size_singleton in Hs. pose proof (tsize_pos l). pose proof (tsize_pos r). lia.
    + assert (Hk : ∀ k, k ∈ (tlist (Fork d l r)).*1 ↔ k ∈ (tlist (Fork d' l' r')).*1)
        by (intros k; by rewrite <-!tmap_dom, Heq).
      assert (d = d') as <-.
      { apply Nat.le_antisymm.
        - by eapply fork_depth; [apply H2|apply H1|intros k; apply Hk].
        - by eapply fork_depth; [apply H1|apply H2|intros k; apply Hk]. }
      destruct H1 as (Hl & Hr & _ & p & Hp & Hpl & Hpr), H2 as (Hl' & Hr' & _ & q & Hq & Hql & Hqr).
      cbn in Heq. f_equal; [apply IHl|apply IHr]; try done; apply map_eq; intros k;
        pose proof (f_equal (λ m, m !! k) Heq) as Hlk; cbn in Hlk.
      all: assert (Hside : ∀ b, key_bits k !! d = Some b ∨ key_bits k !! d ≠ Some b)
        by (intros b; destruct (decide (key_bits k !! d = Some b)); auto).
      * destruct (Hside false) as [Hb|Hb].
        { rewrite (tmap_left p), (tmap_left q) in Hlk by (done || by subst; rewrite ?Hq). done. }
        rewrite (proj2 (tmap_none l k)), (proj2 (tmap_none l' k)); [done| |];
          intros Hin; eapply under_bit in Hin; [|done| |done]; rewrite ?Hp, ?Hq in Hin; done.
      * destruct (Hside true) as [Hb|Hb].
        { rewrite (tmap_right p), (tmap_right q) in Hlk by (done || by subst; rewrite ?Hq). done. }
        rewrite (proj2 (tmap_none r k)), (proj2 (tmap_none r' k)); [done| |];
          intros Hin; eapply under_bit in Hin; [|done| |done]; rewrite ?Hp, ?Hq in Hin; done.
Qed.

(** ** Insertion *)

Definition goes_right (k : string) (d : nat) : bool := bool_decide (key_bits k !! d = Some true).
Definition tfork (d : nat) (k : string) (new old : trie) : trie :=
  if goes_right k d then Fork d old new else Fork d new old.
Fixpoint tinsert (k v : string) (t : trie) : trie :=
  match t with
  | Tip k' _ =>
      if decide (k' = k) then Tip k v
      else tfork (common (key_bits k') (key_bits k)) k (Tip k v) t
  | Fork d l r =>
      let c := common (key_bits (tfirst l)) (key_bits k) in
      if decide (c < d) then tfork c k (Tip k v) t
      else if goes_right k d then Fork d l (tinsert k v r) else Fork d (tinsert k v l) r
  end.

(** A fork with one side replaced. *)
Definition side (b : bool) (l r : trie) : trie := if b then r else l.
Definition set_side (b : bool) (d : nat) (l r s : trie) : trie :=
  if b then Fork d l s else Fork d s r.
Lemma tinsert_side k v d l r :
  d ≤ common (key_bits (tfirst l)) (key_bits k) →
  tinsert k v (Fork d l r)
  = set_side (goes_right k d) d l r (tinsert k v (side (goes_right k d) l r)).
Proof. intros Hc. cbn [tinsert]. rewrite decide_False by lia. by destruct (goes_right k d). Qed.

(** No other key of [t] has the hash of [k]. *)
Definition fresh_hash (k : string) (t : trie) : Prop :=
  ∀ j, j ∈ (tlist t).*1 → key_digest j = key_digest k → j = k.
Lemma fresh_hash_fork k d l r : fresh_hash k (Fork d l r) → fresh_hash k l ∧ fresh_hash k r.
Proof.
  unfold fresh_hash. cbn. rewrite fmap_app. setoid_rewrite elem_of_app. naive_solver.
Qed.

Lemma goes_right_spec k d :
  d < 256 → key_bits k !! d = Some (goes_right k d).
Proof.
  intros Hd. destruct (lookup_lt_is_Some_2 (key_bits k) d) as [[] Hb];
    [by rewrite key_bits_length|..]; unfold goes_right; rewrite Hb; done.
Qed.
Lemma under_tip k v q : under q (Tip k v) ↔ q `prefix_of` key_bits k.
Proof.
  unfold under. cbn. setoid_rewrite list_elem_of_singleton. naive_solver.
Qed.
Lemma prefix_bit q k d :
  d < 256 → length q = d → q `prefix_of` key_bits k → (q ++ [goes_right k d]) `prefix_of` key_bits k.
Proof. intros Hd Hl Hq. apply prefix_snoc; [done|]. rewrite Hl. by apply goes_right_spec. Qed.

(** What the fork of a new key beside an old trie gives. *)
Lemma tfork_spec d q k v old :
  twf old → d < 256 → length q = d → q `prefix_of` key_bits k →
  under (q ++ [negb (goes_right k d)]) old →
  twf (tfork d k (Tip k v) old) ∧ tmap (tfork d k (Tip k v) old) = <[k := v]> (tmap old)
  ∧ (∀ p, under p old → p `prefix_of` key_bits k → under p (tfork d k (Tip k v) old)).
Proof.
  intros Hwf Hd Hl Hq Hu. assert (Hk : under (q ++ [goes_right k d]) (Tip k v))
    by (apply under_tip; by apply prefix_bit).
  assert (Hn : tmap old !! k = None).
  { apply tmap_none. intros Hin. eapply under_bit in Hin; [|done].
    eapply under_bit in Hk; [|cbn; by left]. rewrite Hin in Hk; by destruct (goes_right k d). }
  unfold tfork. destruct (goes_right k d); cbn in *.
  - split; [split; [done|split; [done|split; [done|by exists q]]]|]. split.
    + rewrite insert_union_singleton_r by done. done.
    + intros p Hp Hpk. apply under_fork. split; [done|by apply under_tip].
  - split; [split; [done|split; [done|split; [done|by exists q]]]|]. split.
    + by rewrite insert_union_singleton_l.
    + intros p Hp Hpk. apply under_fork. split; [by apply under_tip|done].
Qed.

Lemma common_lt j k : key_digest j ≠ key_digest k → common (key_bits j) (key_bits k) < 256.
Proof.
  intros Hne. pose proof (common_le (key_bits j) (key_bits k)) as [Hle _].
  rewrite key_bits_length in Hle. destruct (decide (common (key_bits j) (key_bits k) = 256)) as [He|];
    [|lia]. exfalso. apply Hne, key_bits_inj, common_full; by rewrite !key_bits_length.
Qed.
Lemma common_bit j k :
  common (key_bits j) (key_bits k) < 256 →
  key_bits j !! common (key_bits j) (key_bits k)
  = Some (negb (goes_right k (common (key_bits j) (key_bits k)))).
Proof.
  intros Hc. pose proof (goes_right_spec k _ Hc) as Hk. pose proof (goes_right_spec j _ Hc) as Hj.
  rewrite Hj. pose proof (common_differ _ _ _ _ Hj Hk) as Hne.
  destruct (goes_right j _), (goes_right k _); done.
Qed.
(** All keys of a fork begin with the bits of its first key. *)
Lemma fork_shared d l r :
  twf (Fork d l r) → under (take d (key_bits (tfirst l))) (Fork d l r).
Proof.
  intros (_ & _ & _ & q & Hq & Hl & Hr).
  pose proof (under_take _ _ _ _ Hl (tfirst_in l)) as Ht. rewrite Hq in Ht. rewrite Ht.
  apply under_fork. split; (eapply under_weaken; [|done]); by eexists.
Qed.

Lemma tinsert_spec k v t :
  twf t → fresh_hash k t →
  twf (tinsert k v t) ∧ tmap (tinsert k v t) = <[k := v]> (tmap t)
  ∧ (∀ p, under p t → p `prefix_of` key_bits k → under p (tinsert k v t)).
Proof.
  induction t as [k' v'|d l IHl r IHr]; intros Hwf Hf.
  - cbn [tinsert]. destruct (decide (k' = k)) as [->|Hne].
    + split; [done|]. split; [cbn; by rewrite insert_singleton_eq|].
      intros p Hp _. exact Hp.
    + assert (Hc : common (key_bits k') (key_bits k) < 256).
      { apply common_lt. intros Heq. apply Hne, Hf; [by left|done]. }
      apply (tfork_spec _ (take (common (key_bits k') (key_bits k)) (key_bits k))); [done|done| | |].
      * rewrite length_take, key_bits_length. lia.
      * apply prefix_take.
      * apply under_tip. rewrite <-common_take, <-take_S_r by by apply common_bit. apply prefix_take.
  - cbn [tinsert]. set (c := common (key_bits (tfirst l)) (key_bits k)).
    pose proof (fork_shared _ _ _ Hwf) as Hsh. pose proof Hwf as (Hl & Hr & Hd & q & Hq & Hul & Hur).
    destruct (decide (c < d)) as [Hlt|Hge].
    + apply (tfork_spec _ (take c (key_bits k))); [done|lia| | |].
      * rewrite length_take, key_bits_length. lia.
      * apply prefix_take.
      * unfold c at 1. rewrite <-common_take, <-take_S_r by (apply common_bit; unfold c in Hlt; lia).
        eapply under_weaken; [|exact Hsh]. fold c.
        replace (take (S c) _) with (take (S c) (take d (key_bits (tfirst l))))
          by (rewrite take_take; f_equal; lia). apply prefix_take.
    + assert (Hqk : q `prefix_of` key_bits k).
      { pose proof (under_take _ _ _ _ Hul (tfirst_in l)) as Ht. rewrite Hq in Ht. rewrite <-Ht.
        pose proof (common_take (key_bits (tfirst l)) (key_bits k)) as Hct. fold c in Hct.
        apply (f_equal (take d)) in Hct. rewrite !take_take, Nat.min_l in Hct by lia.
        rewrite Hct. apply prefix_take. }
      pose proof (prefix_bit q k d Hd Hq Hqk) as Hqb.
      apply fresh_hash_fork in Hf as [Hfl Hfr].
      destruct (goes_right k d) eqn:Hg.
      * destruct (IHr Hr Hfr) as (Hwr & Hmr & Hpr). split; [|split].
        -- cbn. split; [done|]. split; [done|]. split; [done|]. exists q.
           split; [done|]. split; [done|]. by apply Hpr.
        -- cbn. rewrite Hmr. rewrite <-insert_union_r; [done|]. apply tmap_none. intros Hin.
           eapply under_bit in Hin; [|done]. rewrite Hq in Hin.
           rewrite goes_right_spec in Hin by done. congruence.
        -- intros p [Hpl Hpr']%under_fork Hpk. apply under_fork. split; [done|]. by apply Hpr.
      * destruct (IHl Hl Hfl) as (Hwl & Hml & Hpl). split; [|split].
        -- cbn. split; [done|]. split; [done|]. split; [done|]. exists q.
           split; [done|]. split; [|done]. by apply Hpl.
        -- cbn. rewrite Hml. by rewrite insert_union_l.
        -- intros p [Hpl' Hpr]%under_fork Hpk. apply under_fork. split; [|done]. by apply Hpl.
Qed.

(** ** Removal *)

Fixpoint tremove (k : string) (t : trie) : option trie :=
  match t with
  | Tip _ _ => None
  | Fork d l r =>
      let b := goes_right k d in
      match (if b then tremove k r else tremove k l) with
      | Some s => Some (set_side b d l r s)
      | None => Some (side (negb b) l r)
      end
  end.
Definition omap_tmap (t : option trie) : gmap string string :=
  match t with Some t => tmap t | None => ∅ end.

Lemma tremove_spec k t :
  twf t → k ∈ (tlist t).*1 →
  omap_tmap (tremove k t) = delete k (tmap t)
  ∧ ∀ t', tremove k t = Some t' → twf t' ∧ ∀ p, under p t → under p t'.
Proof.
  induction t as [k' v'|d l IHl r IHr]; intros Hwf Hin.
  - cbn in *. apply list_elem_of_singleton in Hin as ->. by rewrite delete_singleton_eq.
  - pose proof Hwf as (Hl & Hr & Hd & q & Hq & Hul & Hur). cbn [tremove]. cbv zeta.
    cbn in Hin. rewrite fmap_app, elem_of_app in Hin.
    pose proof (goes_right_spec k d Hd) as Hg. destruct (goes_right k d); cbn [set_side side negb].
    + assert (Hnl : tmap l !! k = None).
      { apply tmap_none. intros Hkl. eapply under_bit in Hkl; [|done]. rewrite Hq in Hkl. congruence. }
      assert (Hinr : k ∈ (tlist r).*1) by (destruct Hin as [Hkl|]; [|done];
        apply tmap_none in Hkl; [done|done]).
      destruct (IHr Hr Hinr) as [Hm Hw]. cbn [tmap].
      rewrite delete_union, (delete_id _ _ Hnl), <-Hm.
      destruct (tremove k r) as [r'|]; cbn [omap_tmap tmap].
      * destruct (Hw r' eq_refl) as [Hwr Hur']. split; [done|]. intros ? [= <-]. split.
        -- cbn. split; [done|]. split; [done|]. split; [done|]. exists q. auto.
        -- intros p [? ?]%under_fork. apply under_fork. auto.
      * split; [by rewrite (right_id_L ∅ (∪))|]. intros ? [= <-]. split; [done|].
        by intros p [? _]%under_fork.
    + assert (Hnr : tmap r !! k = None).
      { apply tmap_none. intros Hkr. eapply under_bit in Hkr; [|done]. rewrite Hq in Hkr. congruence. }
      assert (Hinl : k ∈ (tlist l).*1) by (destruct Hin as [|Hkr]; [done|];
        apply tmap_none in Hkr; [done|done]).
      destruct (IHl Hl Hinl) as [Hm Hw]. cbn [tmap].
      rewrite delete_union, (delete_id _ _ Hnr), <-Hm.
      destruct (tremove k l) as [l'|]; cbn [omap_tmap tmap].
      * destruct (Hw l' eq_refl) as [Hwl Hul']. split; [done|]. intros ? [= <-]. split.
        -- cbn. split; [done|]. split; [done|]. split; [done|]. exists q. auto.
        -- intros p [? ?]%under_fork. apply under_fork. auto.
      * split; [by rewrite (left_id_L ∅ (∪))|]. intros ? [= <-]. split; [done|].
        by intros p [_ ?]%under_fork.
Qed.

Lemma tinsert_size k v t :
  twf t → fresh_hash k t → tsize (tinsert k v t) = match tmap t !! k with Some _ => tsize t | None => S (tsize t) end.
Proof.
  intros Hwf Hf. destruct (tinsert_spec k v t Hwf Hf) as (Hwf' & Hm & _).
  rewrite <-!tmap_size, Hm by done. rewrite map_size_insert. by destruct (tmap t !! k).
Qed.
Lemma tremove_size k t :
  twf t → k ∈ (tlist t).*1 →
  tsize t = S (match tremove k t with Some t' => tsize t' | None => 0 end).
Proof.
  intros Hwf Hk. destruct (tremove_spec k t Hwf Hk) as [Hm Hw].
  assert (Hs : size (omap_tmap (tremove k t)) = pred (tsize t)).
  { rewrite Hm, <-tmap_size by done. apply tmap_dom in Hk as [v Hv].
    by rewrite map_size_delete, Hv. }
  pose proof (tsize_pos t). destruct (tremove k t) as [t'|]; cbn in Hs.
  - destruct (Hw t' eq_refl) as [Hwf' _]. rewrite tmap_size in Hs by done. lia.
  - rewrite map_size_empty in Hs. lia.
Qed.
End Trie.
