(* ===== verification/MapRefine.v ===== *)
(** * The nodes of a trie

    Every trie has one tree of nodes, and with it one root.  The file relates
    the algorithms of [MapTree] to the functions of [Trie] on a store that
    holds these nodes. *)

From S2P Require Import Prelude Identity CommandIndex CollectionHash Collections Stores MapNode MapTree Trie.

Section Nodes.
Context `{Sha256}.

(** The prefix of the branch node of depth [d] above the key [k]. *)
Definition tprefix (d : nat) (k : string) : string :=
  match normalized_hash_prefix (key_digest k) d with Ok p => p | Err _ => EmptyString end.
Fixpoint trie_body (t : trie) : MapNodeBody :=
  match t with
  | Tip k v => MapLeaf k (key_digest k) v
  | Fork d l r =>
      MapBranch d (tprefix d (tfirst l))
        {| mc_object_id := map_node_id (trie_body l); mc_entries := N.of_nat (tsize l) |}
        {| mc_object_id := map_node_id (trie_body r); mc_entries := N.of_nat (tsize r) |}
  end.
Definition trie_node (t : trie) : MapNode :=
  {| mn_version := MAP_NODE_VERSION; mn_object_id := map_node_id (trie_body t);
     mn_body := trie_body t |}.
Definition trie_ref (t : trie) : NodeRef :=
  {| mc_object_id := map_node_id (trie_body t); mc_entries := N.of_nat (tsize t) |}.
Fixpoint subtries (t : trie) : list trie :=
  t :: match t with Tip _ _ => [] | Fork _ l r => subtries l ++ subtries r end.
Definition trie_nodes (t : trie) : list MapNode := trie_node <$> subtries t.

Definition entry_valid (kv : string * string) : Prop :=
  validate_key kv.1 = Ok () ∧ validate_collection_id kv.2 = Ok ().
Record tvalid (t : trie) : Prop := {
  tv_entries : Forall entry_valid (tlist t);
  tv_size : (N.of_nat (tsize t) ≤ MAX_EXACT_INTEGER)%N;
}.

Lemma tprefix_spec d k :
  d < 256 → digest (tprefix d k) ∧ normalized_hash_prefix (key_digest k) d = Ok (tprefix d k)
  ∧ normalized_hash_prefix (tprefix d k) d = Ok (tprefix d k)
  ∧ hash_bits (tprefix d k) = take d (key_bits k) ++ replicate (256 - d) false.
Proof.
  intros Hd. pose proof (key_digest_digest k) as Hk. unfold tprefix.
  destruct (normalized_spec (key_digest k) d Hk Hd) as (p & Hp & Hdg & Hb). rewrite Hp.
  split; [done|]. split; [done|]. split; [by apply (normalized_idem (key_digest k))|done].
Qed.
Lemma tprefix_eq d j k : d < 256 → take d (key_bits j) = take d (key_bits k) → tprefix d j = tprefix d k.
Proof.
  intros Hd Heq. unfold tprefix.
  by rewrite (proj2 (normalized_eq _ _ d (key_digest_digest j) (key_digest_digest k) Hd) Heq).
Qed.
Lemma tprefix_take d k : d < 256 → take d (hash_bits (tprefix d k)) = take d (key_bits k).
Proof.
  intros Hd. destruct (tprefix_spec d k Hd) as (_ & _ & _ & ->).
  rewrite take_app_le, take_take, Nat.min_id; [done|]. rewrite length_take, key_bits_length. lia.
Qed.

Lemma map_key_hash_eq k : validate_key k = Ok () → map_key_hash k = Ok (key_digest k).
Proof. intros Hk. unfold map_key_hash. by rewrite Hk. Qed.

Lemma tvalid_fork d l r : tvalid (Fork d l r) → tvalid l ∧ tvalid r.
Proof.
  intros [Hf Hs]. cbn in Hf. apply Forall_app in Hf as [Hl Hr]. rewrite tsize_fork in Hs.
  split; split; (done || lia).
Qed.
Lemma map_node_id_valid body : validate_collection_id (map_node_id body) = Ok ().
Proof. apply hash_identifier_valid. Qed.
Lemma trie_ref_verify t : tvalid t → MapChild_verify (trie_ref t) = Ok ().
Proof.
  intros [_ Hs]. unfold MapChild_verify, trie_ref. cbn [mc_object_id mc_entries].
  rewrite map_node_id_valid. cbn [mbind result_bind]. pose proof (tsize_pos t).
  rewrite (proj2 (N.eqb_neq _ _)), (proj2 (N.leb_le _ _)) by lia. done.
Qed.

(** The counts of two children add up. *)
Lemma branch_entries_fits l r :
  (N.of_nat (tsize l + tsize r) ≤ MAX_EXACT_INTEGER)%N →
  branch_entries (trie_ref l) (trie_ref r) = Ok (N.of_nat (tsize l + tsize r)).
Proof.
  intros Hs. unfold branch_entries, trie_ref. cbn [mc_entries].
  unfold checked_add. rewrite decide_True by (unfold MAX_EXACT_INTEGER, u64_max in *; lia).
  cbn [opt_filter]. rewrite <-Nat2N.inj_add, (proj2 (N.leb_le _ _)) by done. done.
Qed.

Lemma trie_node_ok t :
  twf t → tvalid t →
  MapNode_verify (trie_node t) = Ok () ∧ MapNode_entries (trie_node t) = Ok (N.of_nat (tsize t)).
Proof.
  intros Hwf Hv. destruct t as [k v|d l r].
  - destruct Hv as [Hf _]. cbn in Hf. apply Forall_singleton in Hf as [Hk Hval].
    cbn [fst snd] in Hk, Hval.
    split; [|done]. unfold MapNode_verify, trie_node. cbn [mn_version mn_body mn_object_id trie_body].
    rewrite bool_decide_eq_true_2 by done. cbn [require mbind result_bind].
    rewrite Hk, map_key_hash_eq by done. cbn [mbind result_bind].
    rewrite bool_decide_eq_true_2 by done. cbn [require mbind result_bind]. rewrite Hval.
    cbn [mbind result_bind]. by rewrite bool_decide_eq_true_2.
  - destruct Hwf as (Hl & Hr & Hd & _). pose proof Hv as [_ Hs]. rewrite tsize_fork in Hs.
    apply tvalid_fork in Hv as [Hvl Hvr].
    destruct (tprefix_spec d (tfirst l) Hd) as (Hdg & _ & Hn & _).
    unfold MapNode_verify, MapNode_entries, trie_node. cbn [mn_version mn_body mn_object_id trie_body].
    fold (trie_ref l) (trie_ref r). rewrite branch_entries_fits by done.
    rewrite tsize_fork. split; [|done].
    rewrite bool_decide_eq_true_2 by done. cbn [require mbind result_bind].
    rewrite (proj2 (Nat.ltb_lt d 256)) by done. cbn [require mbind result_bind].
    rewrite digest_valid by done. cbn [mbind result_bind]. rewrite Hn. cbn [mbind result_bind].
    rewrite bool_decide_eq_true_2 by done. cbn [require mbind result_bind].
    rewrite !trie_ref_verify by done. cbn [mbind result_bind].
    by rewrite bool_decide_eq_true_2.
Qed.

(** ** Constraints on the way to a subtrie *)

Definition constraint_ok (t : trie) (c : PathConstraint) : Prop :=
  pc_depth c < 256 ∧ digest (pc_prefix c)
  ∧ normalized_hash_prefix (pc_prefix c) (pc_depth c) = Ok (pc_prefix c)
  ∧ under (take (pc_depth c) (hash_bits (pc_prefix c)) ++ [pc_right c]) t.
Definition path_ok (cs : list PathConstraint) (t : trie) : Prop := Forall (constraint_ok t) cs.

Lemma verify_constraints_ok hash cs :
  digest hash →
  Forall (λ c, pc_depth c < 256 ∧ digest (pc_prefix c)
    ∧ normalized_hash_prefix (pc_prefix c) (pc_depth c) = Ok (pc_prefix c)
    ∧ (take (pc_depth c) (hash_bits (pc_prefix c)) ++ [pc_right c]) `prefix_of` hash_bits hash) cs →
  verify_constraints hash cs = Ok ().
Proof.
  intros Hh Hcs. apply try_each_Ok. intros c Hc. rewrite Forall_forall in Hcs.
  destruct (Hcs c Hc) as (Hd & Hp & Hn & Hpre). apply prefix_app_cons in Hpre as [Hb Ht].
  rewrite length_take, hash_bits_length, Nat.min_l in Hb, Ht by (done || lia).
  rewrite matches_spec by done. rewrite bool_decide_eq_true_2 by done. cbn [mbind result_bind].
  destruct (hash_bit_spec hash (pc_depth c) Hh Hd) as (b & Hb' & ->). cbn [mbind result_bind].
  rewrite Hb in Hb'. injection Hb' as ->. by rewrite eqb_reflx.
Qed.
Lemma constraints_tip k v cs :
  path_ok cs (Tip k v) → verify_constraints (key_digest k) cs = Ok ().
Proof.
  intros Hcs. apply verify_constraints_ok; [apply key_digest_digest|].
  eapply Forall_impl; [exact Hcs|]. intros c (? & ? & ? & Hu). split_and!; try done.
  by apply under_tip in Hu.
Qed.
Lemma constraints_fork d l r cs :
  twf (Fork d l r) → path_ok cs (Fork d l r) →
  verify_constraints (tprefix d (tfirst l)) cs = Ok () ∧ require_deeper cs d = Ok ().
Proof.
  intros Hwf Hcs. pose proof Hwf as (_ & _ & Hd & _).
  destruct (tprefix_spec d (tfirst l) Hd) as (Hdg & _ & _ & Hb).
  assert (Hdeep : Forall (λ c, pc_depth c < d) cs).
  { eapply Forall_impl; [exact Hcs|]. intros c (Hc & Hp & _ & Hu).
    apply under_depth in Hu; [|done]. rewrite length_app, length_take, hash_bits_length in Hu by done.
    cbn in Hu. lia. }
  split.
  - apply verify_constraints_ok; [done|]. unfold path_ok in Hcs. rewrite Forall_forall in *.
    intros c Hc. destruct (Hcs c Hc) as (? & Hp & ? & Hu). split_and!; try done.
    rewrite Hb. specialize (Hdeep c Hc). apply under_fork in Hu as [Hu _].
    specialize (Hu _ (tfirst_in l)) as [z Hz]. rewrite Hz.
    rewrite take_app_ge, <-app_assoc; [by eexists|].
    rewrite length_app, length_take, hash_bits_length by done. cbn. lia.
  - unfold require_deeper. destruct (last cs) as [c|] eqn:Hlast; [|done].
    apply last_Some_elem_of in Hlast. rewrite Forall_forall in Hdeep. specialize (Hdeep c Hlast).
    rewrite (proj2 (Nat.leb_gt d _)) by done. done.
Qed.
Lemma path_ok_side d l r cs (b : bool) :
  twf (Fork d l r) → path_ok cs (Fork d l r) →
  path_ok (cs ++ [{| pc_depth := d; pc_prefix := tprefix d (tfirst l); pc_right := b |}])
    (if b then r else l).
Proof.
  intros (_ & _ & Hd & q & Hq & Hul & Hur) Hcs. apply Forall_app. split.
  - eapply Forall_impl; [exact Hcs|]. intros c (? & ? & ? & Hu). split_and!; try done.
    apply under_fork in Hu as [? ?]. by destruct b.
  - apply Forall_singleton. unfold constraint_ok. cbn [pc_depth pc_prefix pc_right].
    destruct (tprefix_spec d (tfirst l) Hd) as (? & _ & ? & _). split_and!; try done.
    rewrite tprefix_take by done.
    pose proof (under_take _ _ _ _ Hul (tfirst_in l)) as Ht. rewrite Hq in Ht. rewrite Ht.
    by destruct b.
Qed.
End Nodes.

(** ** Reading *)

(** The position of a key in the order of the trie. *)
Definition trank (k : string) (t : trie) : option nat :=
  fst <$> list_find (λ kv, kv.1 = k) (tlist t).

Section Reading.
Context `{Sha256} {S : Type} (load : S → NodeRef → coll (S * MapNode)) (P : S → Prop).

(** Loading any node of [t] succeeds and keeps [P]. *)
Definition answers (t : trie) : Prop :=
  ∀ s t', P s → t' ∈ subtries t → ∃ s', load s (trie_ref t') = Ok (s', trie_node t') ∧ P s'.

Lemma subtries_self t : t ∈ subtries t.
Proof. destruct t; cbn; by left. Qed.
Lemma answers_fork d l r : answers (Fork d l r) → answers l ∧ answers r.
Proof. intros Ha. split; intros s t' Hs Ht; apply Ha; try done; cbn; set_solver. Qed.
Lemma answers_side d l r (b : bool) : answers (Fork d l r) → answers (if b then r else l).
Proof. intros [? ?]%answers_fork. by destruct b. Qed.

Lemma find_none k (l : list (string * string)) : k ∉ l.*1 → list_find (λ kv, kv.1 = k) l = None.
Proof.
  intros Hk. apply list_find_None, Forall_forall. intros kv Hkv <-. apply Hk.
  by apply list_elem_of_fmap_2.
Qed.
Lemma trank_none k t : k ∉ (tlist t).*1 → trank k t = None.
Proof. intros Hk. unfold trank. by rewrite find_none. Qed.
Lemma trank_left d l r k : k ∉ (tlist r).*1 → trank k (Fork d l r) = trank k l.
Proof.
  intros Hk. unfold trank. cbn. destruct (list_find _ (tlist l)) as [[i kv]|] eqn:Hf.
  - by rewrite (list_find_app_l _ _ _ _ _ Hf).
  - by rewrite list_find_app_r, find_none by done.
Qed.
Lemma trank_right d l r k :
  k ∉ (tlist l).*1 → trank k (Fork d l r) = (λ i, i + tsize l) <$> trank k r.
Proof.
  intros Hk. unfold trank. cbn. rewrite list_find_app_r by by apply find_none.
  by destruct (list_find _ (tlist r)) as [[i kv]|].
Qed.

Lemma lookup_path_spec rank_ok k t cs fuel rank s :
  twf t → path_ok cs t → fresh_hash k t → theight t < fuel → answers t → P s →
  (∀ n, n < rank + N.of_nat (tsize t) → rank_ok n = true)%N →
  (rank + N.of_nat (tsize t) ≤ u64_max)%N →
  ∃ s', run_reads load (lookup_path rank_ok k (key_digest k) fuel (trie_ref t) cs rank) s
        = Ok (s', {| lo_value := tmap t !! k;
                     lo_rank := (λ i, rank + N.of_nat i)%N <$> trank k t |}) ∧ P s'.
Proof.
  revert cs fuel rank s.
  induction t as [k' v|d l IHl r IHr]; intros cs fuel rank s Hwf Hcs Hf Hfuel Ha Hs Hrank Hmax.
  all: destruct fuel as [|fuel]; [lia|]; cbn [lookup_path run_reads].
  all: destruct (Ha s _ Hs (subtries_self _)) as (s1 & -> & Hs1); cbn [mbind result_bind fst snd].
  - cbn [mn_body trie_node trie_body]. rewrite constraints_tip with (v := v) by done.
    cbn [mbind result_bind run_reads]. exists s1. split; [|done].
    destruct (decide (k' = k)) as [->|Hne].
    + rewrite !bool_decide_eq_true_2 by done. cbn [andb mbind result_bind tmap].
      rewrite lookup_singleton_eq. unfold trank. cbn. rewrite decide_True by done. cbn.
      by rewrite N.add_0_r.
    + rewrite (bool_decide_eq_false_2 (k' = k)) by done. cbn [andb].
      assert (key_digest k' ≠ key_digest k) by (intros Heq; apply Hne, Hf; [by left|done]).
      rewrite bool_decide_eq_false_2 by done. cbn [mbind result_bind tmap].
      rewrite lookup_singleton_ne by done. unfold trank. cbn. by rewrite decide_False.
  - cbn [mn_body trie_node trie_body]. destruct (constraints_fork _ _ _ _ Hwf Hcs) as [-> ->].
    pose proof (fork_shared _ _ _ Hwf) as Hsh. pose proof Hwf as (Hl & Hr & Hd & q & Hq & Hul & Hur).
    destruct (tprefix_spec d (tfirst l) Hd) as (Hdg & _ & Hn & _).
    cbn [mbind reads_bind]. rewrite (matches_spec _ _ _ (key_digest_digest k) Hdg Hd Hn).
    rewrite tprefix_take by done. fold (key_bits k).
    case_bool_decide as Hm; cbn [negb mbind reads_bind run_reads result_bind].
    2: { assert (Hk : k ∉ (tlist (Fork d l r)).*1).
         { intros Hin. apply Hsh in Hin as [z Hz]. apply Hm. rewrite Hz.
           rewrite take_app_le by (rewrite length_take, key_bits_length; lia).
           by rewrite take_take, Nat.min_id. }
         exists s1. rewrite (proj2 (tmap_none _ _)), trank_none by done. done. }
    destruct (hash_bit_spec (key_digest k) d (key_digest_digest k) Hd) as (b & Hb & ->).
    cbn [mbind reads_bind]. fold (key_bits k) in Hb.
    pose proof (answers_side d l r b Ha) as Has.
    pose proof (path_ok_side d l r cs b Hwf Hcs) as Hps.
    apply fresh_hash_fork in Hf as [Hfl Hfr]. cbn [theight] in Hfuel.
    rewrite tsize_fork in Hrank, Hmax. pose proof (tsize_pos r) as Hpos.
    destruct b; cbn [mbind reads_bind].
    + cbn [mc_entries]. unfold checked_add. rewrite decide_True by lia. cbn [opt_filter].
      rewrite Hrank by lia. cbn [ok_or mbind reads_bind]. fold (trie_ref r).
      destruct (IHr (cs ++ [{| pc_depth := d; pc_prefix := tprefix d (tfirst l); pc_right := true |}])
                  fuel (rank + N.of_nat (tsize l))%N s1) as (s2 & Hrun & Hs2);
        [done|done|done|lia|done|done|intros; apply Hrank; lia|lia|].
      exists s2. split; [|done]. rewrite Hrun. cbn [tmap].
      assert (Hnl : k ∉ (tlist l).*1).
      { intros Hin. eapply under_bit in Hin; [|done]. rewrite Hq in Hin. congruence. }
      rewrite (tmap_right q) by (rewrite ?Hq; done). rewrite trank_right by done.
      do 3 f_equal. destruct (trank k r); cbn; [f_equal; lia|done].
    + fold (trie_ref l).
      destruct (IHl (cs ++ [{| pc_depth := d; pc_prefix := tprefix d (tfirst l); pc_right := false |}])
                  fuel rank s1) as (s2 & Hrun & Hs2);
        [done|done|done|lia|done|done|intros; apply Hrank; lia|lia|].
      exists s2. split; [|done]. rewrite Hrun. cbn [tmap].
      assert (Hnr : k ∉ (tlist r).*1).
      { intros Hin. eapply under_bit in Hin; [|done]. rewrite Hq in Hin. congruence. }
      rewrite (tmap_left q) by (rewrite ?Hq; done). by rewrite trank_left.
Qed.
End Reading.

(** ** The overlay *)

Section OverlayOps.
Context `{Sha256} `{Resolver MapNode R} (I : R → Prop) (σ : gmap string MapNode) (U : MapNode → Prop).
Hypothesis Hserves : serves I σ.
Hypothesis Hdistinct : distinct_ids U.
Hypothesis Hstore : keyed U σ.

Abbreviation ov_inv := (ov_inv I σ U).
Abbreviation known := (known σ).
Abbreviation grown := (grown I σ U).
Definition holds (o : Overlay MapNode R) (t : trie) : Prop := ∀ n, n ∈ trie_nodes t → known o n.

Lemma holds_grown o o' t : ov_inv o → grown o o' → holds o t → holds o' t.
Proof. intros Ho Hg Hh n Hn. eapply known_grown; [done..|]. by apply Hh. Qed.

Lemma trie_nodes_fork d l r :
  trie_nodes (Fork d l r) = trie_node (Fork d l r) :: trie_nodes l ++ trie_nodes r.
Proof. unfold trie_nodes. cbn. by rewrite fmap_app. Qed.
Lemma holds_fork o d l r :
  holds o (Fork d l r) ↔ known o (trie_node (Fork d l r)) ∧ holds o l ∧ holds o r.
Proof.
  unfold holds. rewrite trie_nodes_fork. setoid_rewrite elem_of_cons. setoid_rewrite elem_of_app.
  naive_solver.
Qed.
Lemma holds_self o t : holds o t → known o (trie_node t).
Proof. intros Hh. apply Hh. unfold trie_nodes. apply list_elem_of_fmap_2, subtries_self. Qed.

Lemma trie_same_counts t : twf t → tvalid t → same_counts (trie_node t) (trie_ref t) = Ok true.
Proof.
  intros Hwf Hv. cbn [same_counts map_kind]. unfold map_same_counts.
  rewrite (proj2 (trie_node_ok t Hwf Hv)). cbn. by rewrite N.eqb_refl.
Qed.
Lemma trie_node_ref t : twf t → tvalid t → node_ref (trie_node t) = Ok (trie_ref t).
Proof.
  intros Hwf Hv. cbn [node_ref map_kind]. unfold map_node_ref. by rewrite (proj2 (trie_node_ok t Hwf Hv)).
Qed.
Lemma overlay_load_node o t :
  twf t → tvalid t → ov_inv o → known o (trie_node t) →
  ∃ o', overlay_load o (trie_ref t) = Ok (o', trie_node t) ∧ grown o o'
    ∧ ov_pending o' = ov_pending o.
Proof.
  intros Hwf Hv Ho Hk. apply load_known; try done; [by apply trie_node_ok|by apply trie_same_counts].
Qed.
Lemma overlay_store_node o t :
  twf t → tvalid t → ov_inv o → U (trie_node t) →
  ∃ o', overlay_store o (trie_node t) = Ok (o', trie_ref t) ∧ grown o o' ∧ known o' (trie_node t).
Proof.
  intros Hwf Hv Ho Hu. apply store_known; try done; [by apply trie_node_ok|by apply trie_node_ref].
Qed.

Lemma store_trie o t :
  twf t → tvalid t → ov_inv o → U (trie_node t) →
  ∃ o', run_prog (node ← Done (MapNode_from_body (trie_body t)); Store node mret) o
        = Ok (o', trie_ref t) ∧ grown o o' ∧ known o' (trie_node t).
Proof.
  intros Hwf Hv Ho Hu. destruct (overlay_store_node o t Hwf Hv Ho Hu) as (o' & Hs & Hg & Hk).
  exists o'. split; [|done]. unfold MapNode_from_body. fold (trie_node t).
  rewrite (proj1 (trie_node_ok t Hwf Hv)). cbn [mbind result_bind prog_bind run_prog_with]. by rewrite Hs.
Qed.

(** ** Insertion *)

Lemma tinsert_valid k v t :
  twf t → fresh_hash k t → tvalid t → entry_valid (k, v) →
  (N.of_nat (tsize (tinsert k v t)) ≤ MAX_EXACT_INTEGER)%N → tvalid (tinsert k v t).
Proof.
  intros Hwf Hf [He _] Hkv Hs. split; [|done]. destruct (tinsert_spec k v t Hwf Hf) as (Hwf' & Hm & _).
  rewrite Forall_forall in *. intros [k' v'] Hin. apply tmap_elem in Hin; [|done]. rewrite Hm in Hin.
  apply lookup_insert_Some in Hin as [[<- <-]|[_ Hin]]; [done|]. by apply He, tmap_elem.
Qed.

Lemma trie_nodes_self t : trie_node t ∈ trie_nodes t.
Proof. unfold trie_nodes. apply list_elem_of_fmap_2, subtries_self. Qed.

(** A new branch above an old trie. *)
Lemma new_branch_spec d k v old o :
  d < 256 → twf (tfork d k (Tip k v) old) → tvalid (tfork d k (Tip k v) old) → ov_inv o →
  (∀ n, n ∈ trie_nodes (tfork d k (Tip k v) old) → U n) → holds o (Tip k v) → holds o old →
  ∃ o', run_prog (new_branch d (key_digest k) (trie_ref (Tip k v)) (trie_ref old)) o
        = Ok (o', trie_ref (tfork d k (Tip k v) old)) ∧ grown o o'
    ∧ holds o' (tfork d k (Tip k v) old).
Proof.
  intros Hd Hwf Hv Ho Hu Hht Hho. set (t := tfork d k (Tip k v) old) in *.
  destruct (store_trie o t Hwf Hv Ho (Hu _ (trie_nodes_self t))) as (o' & Hrun & Hg & Hk).
  exists o'. unfold new_branch. rewrite run_prog_bind.
  destruct (hash_bit_spec (key_digest k) d (key_digest_digest k) Hd) as (b & Hb & ->).
  cbn [run_prog_with mbind result_bind fst snd]. fold (key_bits k) in Hb.
  rewrite goes_right_spec in Hb by done. injection Hb as <-.
  destruct (tprefix_spec d k Hd) as (_ & Hpre & _).
  assert (Hshape : ∃ l r, t = Fork d l r ∧ (if goes_right k d then (trie_ref old, trie_ref (Tip k v))
      else (trie_ref (Tip k v), trie_ref old)) = (trie_ref l, trie_ref r)
      ∧ tprefix d (tfirst l) = tprefix d k ∧ holds o l ∧ holds o r).
  { unfold t, tfork in *. destruct (goes_right k d) eqn:Hgr.
    - exists old, (Tip k v). split_and!; try done. apply tprefix_eq; [done|].
      destruct Hwf as (_ & _ & _ & q & Hq & Hl & Hr).
      pose proof (under_take _ _ _ _ Hl (tfirst_in old)) as H1.
      pose proof (under_take _ _ _ _ Hr (tfirst_in (Tip k v))) as H2. rewrite Hq in H1, H2.
      change (tfirst (Tip k v)) with k in H2. congruence.
    - by exists (Tip k v), old. }
  destruct Hshape as (l & r & Ht & -> & Hp & Hl & Hr). cbn [run_prog_with mbind result_bind].
  fold_bind. rewrite run_prog_bind, Hpre. cbn [run_prog_with mbind result_bind fst snd].
  unfold store_branch. rewrite <-Hp.
  change (MapBranch d (tprefix d (tfirst l)) (trie_ref l) (trie_ref r)) with (trie_body (Fork d l r)).
  rewrite <-Ht. split; [exact Hrun|]. split; [done|]. rewrite Ht in *. apply holds_fork.
  split; [done|]. split; by eapply holds_grown.
Qed.

Lemma insert_leaf_spec k v o :
  entry_valid (k, v) → ov_inv o → U (trie_node (Tip k v)) →
  ∃ o', run_prog (new_leaf k (key_digest k) v) o = Ok (o', trie_ref (Tip k v)) ∧ grown o o'
    ∧ holds o' (Tip k v).
Proof.
  intros Hkv Ho Hu. assert (Hv : tvalid (Tip k v)) by (split; [by apply Forall_singleton|done]).
  destruct (store_trie o (Tip k v) Logic.I Hv Ho Hu) as (o' & Hrun & Hg & Hk).
  exists o'. split; [exact Hrun|]. split; [done|]. intros n Hn. cbn in Hn.
  by apply list_elem_of_singleton in Hn as ->.
Qed.

(** A new key beside an old trie: a leaf and the branch above both. *)
Lemma insert_beside d k v old o :
  d < 256 → entry_valid (k, v) → twf (tfork d k (Tip k v) old) → tvalid (tfork d k (Tip k v) old) →
  ov_inv o → (∀ n, n ∈ trie_nodes (tfork d k (Tip k v) old) → U n) → holds o old →
  ∃ o', run_prog (inserted ← new_leaf k (key_digest k) v;
                  branch ← new_branch d (key_digest k) inserted (trie_ref old);
                  mret (branch, true)) o
        = Ok (o', (trie_ref (tfork d k (Tip k v) old), true)) ∧ grown o o'
    ∧ holds o' (tfork d k (Tip k v) old).
Proof.
  intros Hd Hkv Hwf Hv Ho Hu Hold.
  assert (Htip : U (trie_node (Tip k v))).
  { pose proof (trie_nodes_self (Tip k v)). apply Hu. unfold tfork.
    destruct (goes_right k d); rewrite trie_nodes_fork, elem_of_cons, elem_of_app; auto. }
  destruct (insert_leaf_spec k v o Hkv Ho Htip) as (o1 & H1 & Hg1 & Hh1).
  rewrite run_prog_bind, H1. cbn [mbind result_bind fst snd].
  destruct (new_branch_spec d k v old o1 Hd Hwf Hv) as (o2 & H2 & Hg2 & Hh2);
    [apply Hg1|done|done|by eapply holds_grown|].
  exists o2. rewrite run_prog_bind, H2. split; [done|]. split; [by eapply grown_trans|done].
Qed.

Definition is_new (k : string) (t : trie) : bool := match tmap t !! k with Some _ => false | None => true end.

Lemma is_new_side q d l r k :
  d < 256 → under (q ++ [false]) l → under (q ++ [true]) r → length q = d →
  is_new k (Fork d l r) = is_new k (side (goes_right k d) l r).
Proof.
  intros Hd Hl Hr Hq. pose proof (goes_right_spec k d Hd) as Hg. unfold is_new. cbn [tmap].
  destruct (goes_right k d); cbn [side]; [rewrite (tmap_right q)|rewrite (tmap_left q)];
    rewrite ?Hq; done.
Qed.

(** The nodes of a rebuilt fork. *)
Lemma store_side b d l r s o :
  twf (Fork d l r) → twf (set_side b d l r s) → tvalid (set_side b d l r s) → ov_inv o →
  holds o (Fork d l r) → holds o s → (∀ n, n ∈ trie_nodes (set_side b d l r s) → U n) →
  ∃ o', run_prog (let '(next_left, next_right) :=
                    if b then (trie_ref l, trie_ref s) else (trie_ref s, trie_ref r) in
                  store_branch d (tprefix d (tfirst l)) next_left next_right) o
        = Ok (o', trie_ref (set_side b d l r s)) ∧ grown o o' ∧ holds o' (set_side b d l r s).
Proof.
  intros (_ & _ & Hd & q & Hq & Hul & Hur) Hwf Hv Ho (_ & Hhl & Hhr)%holds_fork Hhs Hu.
  destruct (store_trie o _ Hwf Hv Ho (Hu _ (trie_nodes_self _))) as (o' & Hrun & Hg & Hk).
  exists o'. unfold store_branch. destruct b; cbn [set_side] in *.
  - split; [exact Hrun|]. split; [done|]. apply holds_fork. split; [done|].
    split; by eapply holds_grown.
  - split; [|split; [done|apply holds_fork; split; [done|]; split; by eapply holds_grown]].
    replace (tprefix d (tfirst l)) with (tprefix d (tfirst s)); [exact Hrun|].
    apply tprefix_eq; [done|]. destruct Hwf as (_ & _ & _ & q' & Hq' & Hul' & Hur').
    pose proof (under_take _ _ _ _ Hul' (tfirst_in s)) as Ht1.
    pose proof (under_take _ _ _ _ Hul (tfirst_in l)) as Ht2.
    pose proof (under_take _ _ _ _ Hur (tfirst_in r)) as Ht3.
    pose proof (under_take _ _ _ _ Hur' (tfirst_in r)) as Ht4.
    rewrite ?Hq, ?Hq' in *. congruence.
Qed.

Lemma insert_node_spec k v t cs fuel o :
  twf t → path_ok cs t → fresh_hash k t → theight t < fuel → entry_valid (k, v) → tvalid t →
  tvalid (tinsert k v t) → ov_inv o → holds o t → (∀ n, n ∈ trie_nodes (tinsert k v t) → U n) →
  ∃ o', run_prog (insert_node k (key_digest k) v fuel (trie_ref t) cs) o
        = Ok (o', (trie_ref (tinsert k v t), is_new k t)) ∧ grown o o' ∧ holds o' (tinsert k v t).
Proof.
  revert cs fuel o. induction t as [k' v'|d l IHl r IHr];
    intros cs fuel o Hwf Hcs Hf Hfuel Hkv Hvt Hvi Ho Hh Hu.
  all: destruct fuel as [|fuel]; [lia|]; cbn [insert_node run_prog_with].
  all: destruct (overlay_load_node o _ Hwf Hvt Ho (holds_self _ _ Hh)) as (o1 & -> & Hg1 & _);
    cbn [mbind result_bind fst snd]; pose proof (holds_grown _ _ _ Ho Hg1 Hh) as Hh1;
    destruct (tinsert_spec k v _ Hwf Hf) as (Hwi & _ & _).
  - cbn [mn_body trie_node trie_body]. rewrite constraints_tip with (v := v') by done.
    cbn [mbind prog_bind]. cbn [tinsert] in *. unfold is_new. cbn [tmap].
    destruct (decide (k' = k)) as [->|Hne].
    + rewrite !bool_decide_eq_true_2 by done. cbn [require mbind prog_bind].
      destruct (insert_leaf_spec k v o1 Hkv) as (o2 & H2 & Hg2 & Hh2);
        [apply Hg1|by apply Hu, trie_nodes_self|].
      exists o2. rewrite run_prog_bind, H2. rewrite lookup_singleton_eq. split; [done|].
      split; [by eapply grown_trans|done].
    + rewrite (bool_decide_eq_false_2 (k' = k)) by done.
      assert (Hdig : key_digest k' ≠ key_digest k) by (intros Heq; apply Hne, Hf; [by left|done]).
      rewrite bool_decide_eq_false_2 by done. cbn [negb require mbind prog_bind].
      rewrite common_prefix_spec by apply key_digest_digest. cbn [mbind prog_bind].
      fold (key_bits k') (key_bits k).
      destruct (insert_beside (common (key_bits k') (key_bits k)) k v (Tip k' v') o1)
        as (o2 & H2 & Hg2 & Hh2); [by apply common_lt|done|done|done|apply Hg1|done|done|].
      exists o2. rewrite lookup_singleton_ne by done. split; [exact H2|].
      split; [by eapply grown_trans|done].
  - cbn [mn_body trie_node trie_body]. destruct (constraints_fork _ _ _ _ Hwf Hcs) as [-> ->].
    pose proof Hwf as (Hl & Hr & Hd & q & Hq & Hul & Hur).
    destruct (tprefix_spec d (tfirst l) Hd) as (Hdg & _ & Hn & Hbits).
    cbn [mbind prog_bind]. rewrite common_prefix_spec by (done || apply key_digest_digest).
    cbn [mbind prog_bind]. fold (key_bits k). cbn [tinsert] in *.
    set (f := key_bits (tfirst l)) in *. set (c := common f (key_bits k)) in *.
    assert (Hc : Nat.min d (common (hash_bits (tprefix d (tfirst l))) (key_bits k)) = Nat.min d c).
    { rewrite Hbits. apply common_padded. unfold f. rewrite key_bits_length. lia. }
    set (c' := common (hash_bits (tprefix d (tfirst l))) (key_bits k)) in *. clearbody c'.
    destruct (decide (c < d)) as [Hlt|Hge].
    + rewrite (proj2 (Nat.ltb_lt c' d)) by lia. replace c' with c by lia.
      destruct (insert_beside c k v (Fork d l r) o1) as (o2 & H2 & Hg2 & Hh2);
        [lia|done|done|done|apply Hg1|done|done|].
      exists o2. split.
      { unfold is_new. rewrite (proj2 (tmap_none _ _)); [exact H2|]. intros Hin.
        apply (fork_shared _ _ _ Hwf) in Hin as [z Hz].
        assert (d ≤ c); [|lia]. unfold c, f. apply common_prefix_le; rewrite ?key_bits_length; [lia..|].
        rewrite Hz, take_app_le, take_take, Nat.min_id; [done|].
        rewrite length_take, key_bits_length. lia. }
      split; [by eapply grown_trans|done].
    + rewrite (proj2 (Nat.ltb_ge c' d)) by lia.
      destruct (hash_bit_spec (key_digest k) d (key_digest_digest k) Hd) as (b & Hb & ->).
      cbn [mbind prog_bind]. fold (key_bits k) in Hb. rewrite (goes_right_spec k d Hd) in Hb.
      injection Hb as <-. pose proof (path_ok_side d l r cs (goes_right k d) Hwf Hcs) as Hps.
      apply fresh_hash_fork in Hf as [Hfl Hfr]. apply tvalid_fork in Hvt as [Hvl Hvr].
      pose proof Hh1 as (_ & Hhl & Hhr)%holds_fork. cbn [theight] in Hfuel.
      pose proof (tinsert_side k v d l r (proj1 (Nat.nlt_ge c d) Hge)) as Hts. cbn [tinsert] in Hts.
      rewrite decide_False in Hts by exact Hge. rewrite Hts in *.
      rewrite (is_new_side q) by (rewrite ?Hq; done).
      rewrite run_prog_bind. fold (trie_ref l) (trie_ref r).
      assert (Hgo : ∃ o2, run_prog (insert_node k (key_digest k) v fuel
            (if goes_right k d then trie_ref r else trie_ref l)
            (cs ++ [{| pc_depth := d; pc_prefix := tprefix d (tfirst l);
                       pc_right := goes_right k d |}])) o1
          = Ok (o2, (trie_ref (tinsert k v (side (goes_right k d) l r)),
                     is_new k (side (goes_right k d) l r))) ∧ grown o1 o2
          ∧ holds o2 (tinsert k v (side (goes_right k d) l r))).
      { destruct (goes_right k d); cbn [side set_side] in *;
          pose proof Hvi as [? ?]%tvalid_fork; rewrite trie_nodes_fork in Hu;
          [apply IHr|apply IHl]; try done; try lia; try apply Hg1; intros; apply Hu; rewrite elem_of_cons, elem_of_app; auto. }
      destruct Hgo as (o2 & -> & Hg2 & Hh2). cbn [mbind result_bind fst snd].
      destruct (store_side (goes_right k d) d l r (tinsert k v (side (goes_right k d) l r)) o2)
        as (o3 & H3 & Hg3 & Hh3); [done..|apply Hg2|by eapply holds_grown, Hh1; [apply Hg1|]|done|done|].
      exists o3. split; [|split; [by eapply grown_trans, grown_trans|done]].
      destruct (goes_right k d); rewrite run_prog_bind; rewrite H3; done.
Qed.

(** ** Removal *)

Lemma tremove_valid k t t' :
  twf t → k ∈ (tlist t).*1 → tvalid t → tremove k t = Some t' → tvalid t'.
Proof.
  intros Hwf Hk [He Hs] Ht. pose proof (tremove_size k t Hwf Hk) as Hsz. rewrite Ht in Hsz.
  destruct (tremove_spec k t Hwf Hk) as [Hm Hw]. rewrite Ht in Hm. cbn in Hm.
  destruct (Hw t' Ht) as [Hwf' _]. split; [|lia]. rewrite Forall_forall in *. intros [k' v'] Hin.
  apply tmap_elem in Hin; [|done]. rewrite Hm in Hin. apply lookup_delete_Some in Hin as [_ Hin].
  by apply He, tmap_elem.
Qed.
Lemma side_key q d l r k :
  d < 256 → under (q ++ [false]) l → under (q ++ [true]) r → length q = d →
  k ∈ (tlist (Fork d l r)).*1 → k ∈ (tlist (side (goes_right k d) l r)).*1.
Proof.
  intros Hd Hl Hr Hq Hk. rewrite <-tmap_dom in *. pose proof (goes_right_spec k d Hd) as Hg.
  cbn [tmap] in Hk. destruct (goes_right k d); cbn [side].
  - by rewrite (tmap_right q) in Hk by (rewrite ?Hq; done).
  - by rewrite (tmap_left q) in Hk by (rewrite ?Hq; done).
Qed.
(** The nodes that a removal may leave. *)
Definition opt_nodes (t : option trie) : list MapNode :=
  match t with Some t => trie_nodes t | None => [] end.
Definition holds_opt (o : Overlay MapNode R) (t : option trie) : Prop :=
  match t with Some t => holds o t | None => True end.

Lemma remove_node_spec k t cs fuel o :
  twf t → path_ok cs t → fresh_hash k t → k ∈ (tlist t).*1 → theight t < fuel → tvalid t →
  ov_inv o → holds o t → (∀ n, n ∈ opt_nodes (tremove k t) → U n) →
  ∃ o', run_prog (remove_node k (key_digest k) fuel (trie_ref t) cs) o
        = Ok (o', trie_ref <$> tremove k t) ∧ grown o o' ∧ holds_opt o' (tremove k t).
Proof.
  revert cs fuel o. induction t as [k' v'|d l IHl r IHr];
    intros cs fuel o Hwf Hcs Hf Hk Hfuel Hvt Ho Hh Hu.
  all: destruct fuel as [|fuel]; [lia|]; cbn [remove_node run_prog_with].
  all: destruct (overlay_load_node o _ Hwf Hvt Ho (holds_self _ _ Hh)) as (o1 & -> & Hg1 & _);
    cbn [mbind result_bind fst snd]; pose proof (holds_grown _ _ _ Ho Hg1 Hh) as Hh1.
  - cbn [mn_body trie_node trie_body]. rewrite constraints_tip with (v := v') by done.
    cbn in Hk. apply list_elem_of_singleton in Hk as ->.
    cbn [mbind prog_bind]. rewrite !bool_decide_eq_true_2 by done. cbn. by exists o1.
  - cbn [mn_body trie_node trie_body]. destruct (constraints_fork _ _ _ _ Hwf Hcs) as [-> ->].
    pose proof Hwf as (Hl & Hr & Hd & q & Hq & Hul & Hur).
    destruct (tprefix_spec d (tfirst l) Hd) as (Hdg & _ & Hn & _).
    cbn [mbind prog_bind]. rewrite (matches_spec _ _ _ (key_digest_digest k) Hdg Hd Hn).
    rewrite tprefix_take by done. fold (key_bits k).
    rewrite bool_decide_eq_true_2.
    2: { apply (fork_shared _ _ _ Hwf) in Hk as [z Hz]. rewrite Hz.
         rewrite take_app_le, take_take, Nat.min_id; [done|].
         rewrite length_take, key_bits_length. lia. }
    cbn [negb mbind prog_bind].
    destruct (hash_bit_spec (key_digest k) d (key_digest_digest k) Hd) as (b & Hb & ->).
    cbn [mbind prog_bind]. fold (key_bits k) in Hb. rewrite (goes_right_spec k d Hd) in Hb.
    injection Hb as <-. pose proof (path_ok_side d l r cs (goes_right k d) Hwf Hcs) as Hps.
    apply fresh_hash_fork in Hf as [Hfl Hfr]. pose proof Hvt as [Hvl Hvr]%tvalid_fork.
    pose proof Hh1 as (_ & Hhl & Hhr)%holds_fork. cbn [theight] in Hfuel.
    pose proof (side_key q d l r k Hd Hul Hur Hq Hk) as Hks.
    pose proof (tremove_spec k _ Hwf Hk) as [_ Hwr]. pose proof (λ t', tremove_valid k _ t' Hwf Hk Hvt) as Hvr'.
    rewrite run_prog_bind. fold (trie_ref l) (trie_ref r). cbn [tremove] in *. cbv zeta in *.
    set (rest := if goes_right k d then tremove k r else tremove k l) in *.
    assert (Hgo : ∃ o2, run_prog (remove_node k (key_digest k) fuel
          (if goes_right k d then trie_ref r else trie_ref l)
          (cs ++ [{| pc_depth := d; pc_prefix := tprefix d (tfirst l);
                     pc_right := goes_right k d |}])) o1
        = Ok (o2, trie_ref <$> rest) ∧ grown o1 o2 ∧ holds_opt o2 rest).
    { unfold rest in *. destruct (goes_right k d); cbn [side set_side negb] in *;
        [apply IHr|apply IHl]; try done; try lia; try apply Hg1; intros n Hin; apply Hu;
        match type of Hin with context [opt_nodes ?t] => destruct t as [s|] end;
        cbn [opt_nodes] in *; try (by apply elem_of_nil in Hin);
        rewrite trie_nodes_fork, elem_of_cons, elem_of_app; auto. }
    destruct Hgo as (o2 & -> & Hg2 & Hh2). cbn [mbind result_bind fst snd].
    destruct rest as [s|]; cbn [fmap option_fmap option_map holds_opt opt_nodes] in *.
    + destruct (Hwr _ eq_refl) as [Hws _].
      destruct (store_side (goes_right k d) d l r s o2) as (o3 & H3 & Hg3 & Hh3);
        [done|done|by apply Hvr'|apply Hg2|by eapply holds_grown, Hh1; [apply Hg1|]|done|done|].
      exists o3. split; [|split; [by eapply grown_trans, grown_trans|done]].
      destruct (goes_right k d); rewrite run_prog_bind; rewrite H3; done.
    + exists o2. split; [by destruct (goes_right k d)|]. split; [by eapply grown_trans|].
      pose proof (holds_grown o1 o2 _ (proj1 Hg1) Hg2 Hhl).
      pose proof (holds_grown o1 o2 _ (proj1 Hg1) Hg2 Hhr).
      by destruct (goes_right k d).
Qed.
End OverlayOps.
