(* ===== verification/MapApply.v ===== *)
(** * Batches of mutations and the contents of a map

    The root of a map is a function of its entries: [root_of_contents].  A batch
    of mutations as a function on entries, and the proof that on an overlay that
    holds the nodes of a map the algorithms of [MapTree] compute its root, or the
    conflict of the first stale expectation. *)

From S2P Require Import Prelude Identity CommandIndex IndexSound CollectionHash Collections.
From S2P Require Import Stores MapNode MapTree Trie MapRefine.

Section Contents.
Context `{Sha256}.

(** ** Roots of tries and of entries *)

Definition map_root (t : option trie) : MapRoot :=
  match t with
  | Some t => {| mr_node := Some (map_node_id (trie_body t)); mr_entries := N.of_nat (tsize t) |}
  | None => MapRoot_empty
  end.
Definition oinsert (k v : string) (t : option trie) : trie :=
  match t with Some t => tinsert k v t | None => Tip k v end.
Definition trie_of (m : gmap string string) : option trie :=
  foldr (λ kv t, Some (oinsert kv.1 kv.2 t)) None (map_to_list m).
Definition root_of_contents (m : gmap string string) : MapRoot := map_root (trie_of m).
Definition contents_nodes (m : gmap string string) : list MapNode := opt_nodes (trie_of m).

(** Different keys have different hashes. *)
Definition hash_distinct (keys : gset string) : Prop :=
  ∀ j k, j ∈ keys → k ∈ keys → key_digest j = key_digest k → j = k.
Lemma hash_distinct_subset X Y : X ⊆ Y → hash_distinct Y → hash_distinct X.
Proof. intros Hs Hd j k Hj Hk. apply Hd; set_solver. Qed.

Definition otwf (t : option trie) : Prop := match t with Some t => twf t | None => True end.
Definition okeys (t : option trie) : gset string := dom (omap_tmap t).
Lemma okeys_elem t k : k ∈ okeys (Some t) ↔ k ∈ (tlist t).*1.
Proof. unfold okeys. cbn. by rewrite elem_of_dom, tmap_dom. Qed.

Lemma oinsert_spec k v t :
  otwf t → hash_distinct ({[k]} ∪ okeys t) →
  twf (oinsert k v t) ∧ tmap (oinsert k v t) = <[k := v]> (omap_tmap t).
Proof.
  intros Hwf Hd. destruct t as [t|]; [|done]. cbn in *.
  destruct (tinsert_spec k v t Hwf) as (? & ? & _); [|done].
  intros j Hj Heq. apply Hd; [|set_solver|done]. apply okeys_elem in Hj. set_solver.
Qed.
Lemma trie_unique_opt t1 t2 : otwf t1 → otwf t2 → omap_tmap t1 = omap_tmap t2 → t1 = t2.
Proof.
  assert (Hne : ∀ t, tmap t ≠ ∅).
  { intros t Ht. pose proof (tfirst_in t) as Hin. apply tmap_dom in Hin as [v Hv].
    by rewrite Ht, lookup_empty in Hv. }
  destruct t1 as [t1|], t2 as [t2|]; cbn; intros H1 H2 Heq; try done.
  - f_equal. by apply trie_unique.
  - by destruct (Hne t1).
  - by destruct (Hne t2).
Qed.
Lemma trie_of_spec m : hash_distinct (dom m) → otwf (trie_of m) ∧ omap_tmap (trie_of m) = m.
Proof.
  intros Hd. unfold trie_of. rewrite <-(list_to_map_to_list m) at 3.
  assert (Hsub : list_to_set (map_to_list m).*1 ⊆ dom m).
  { intros k Hk. apply elem_of_list_to_set, list_elem_of_fmap in Hk as ([k' v] & -> & Hkv).
    apply elem_of_map_to_list in Hkv. by apply elem_of_dom_2 in Hkv. }
  revert Hsub. generalize (map_to_list m). intros l Hsub. induction l as [|[k v] l IH]; [done|].
  cbn in *. destruct IH as [Hwf Hm]; [set_solver|]. rewrite <-Hm. apply oinsert_spec; [done|].
  eapply hash_distinct_subset, Hd. unfold okeys. rewrite Hm, dom_list_to_map_L. set_solver.
Qed.
(** A well-formed trie is the trie of its entries. *)
Lemma trie_of_tmap t : otwf t → hash_distinct (okeys t) → trie_of (omap_tmap t) = t.
Proof. intros Hwf Hd. destruct (trie_of_spec _ Hd) as [? ?]. by apply trie_unique_opt. Qed.
Lemma trie_of_insert k v m :
  hash_distinct ({[k]} ∪ dom m) → trie_of (<[k := v]> m) = Some (oinsert k v (trie_of m)).
Proof.
  intros Hd. destruct (trie_of_spec m) as [Hwf Hm]; [by eapply hash_distinct_subset, Hd; set_solver|].
  destruct (oinsert_spec k v (trie_of m) Hwf) as [Hwi Hmi]; [unfold okeys; by rewrite Hm|].
  rewrite Hm in Hmi. rewrite <-(trie_of_tmap (Some (oinsert k v (trie_of m)))); [by cbn; rewrite Hmi|done|].
  unfold okeys. cbn. rewrite Hmi. by rewrite dom_insert_L.
Qed.
Lemma trie_of_delete k m :
  hash_distinct (dom m) → is_Some (m !! k) → trie_of (delete k m) = trie_of m ≫= tremove k.
Proof.
  intros Hd Hk. destruct (trie_of_spec m Hd) as [Hwf Hm].
  destruct (trie_of m) as [t|]; cbn in *; [|subst m; by rewrite lookup_empty in Hk; destruct Hk].
  destruct (tremove_spec k t Hwf) as [Hr Hw]; [apply tmap_dom; by rewrite Hm|].
  rewrite Hm in Hr. rewrite <-Hr. apply trie_of_tmap.
  - destruct (tremove k t) as [t'|]; [|done]. by destruct (Hw t' eq_refl).
  - unfold okeys. rewrite Hr. eapply hash_distinct_subset, Hd. rewrite dom_delete_L. set_solver.
Qed.

(** ** Mutations of the entries *)

Definition expected_value (e : ExpectedMapValue) : option string :=
  match e with Absent => None | Exact v => Some v end.
Definition mutate (m : gmap string string) (mutation : MapMutation)
    : option (gmap string string) :=
  match mutation with
  | Put k e v => if decide (m !! k = expected_value e) then Some (<[k := v]> m) else None
  | Remove k e => if decide (m !! k = Some e) then Some (delete k m) else None
  end.
Fixpoint mutate_all (m : gmap string string) (mutations : list MapMutation)
    : option (gmap string string) :=
  match mutations with
  | [] => Some m
  | mutation :: mutations => m' ← mutate m mutation; mutate_all m' mutations
  end.
(** The contents a batch passes through. *)
Fixpoint versions (m : gmap string string) (mutations : list MapMutation)
    : list (gmap string string) :=
  m :: match mutations with
       | [] => []
       | mutation :: mutations =>
           match mutate m mutation with Some m' => versions m' mutations | None => [] end
       end.

Definition contents_valid (m : gmap string string) : Prop :=
  (∀ k v, m !! k = Some v → entry_valid (k, v)) ∧ (N.of_nat (size m) ≤ MAX_EXACT_INTEGER)%N.
Lemma list_contents_valid l :
  Forall entry_valid l → NoDup l.*1 → (N.of_nat (length l) ≤ MAX_EXACT_INTEGER)%N →
  contents_valid (list_to_map l).
Proof.
  intros Hv Hn Hl. split; [|by rewrite map_size_list_to_map].
  intros k v Hk%elem_of_list_to_map_2. rewrite Forall_forall in Hv. by apply Hv.
Qed.
Lemma contents_valid_empty : contents_valid ∅.
Proof. split; [intros k v; by rewrite lookup_empty|rewrite map_size_empty; apply N.le_0_l]. Qed.
Lemma contents_tvalid m t :
  hash_distinct (dom m) → contents_valid m → trie_of m = Some t → tvalid t.
Proof.
  intros Hd [He Hs] Ht. destruct (trie_of_spec m Hd) as [Hwf Hm]. rewrite Ht in Hwf, Hm. cbn in *.
  split; [|by rewrite <-tmap_size, Hm]. apply Forall_forall. intros [k v] Hin.
  apply He. rewrite <-Hm. by apply tmap_elem.
Qed.
Lemma root_verify m :
  hash_distinct (dom m) → contents_valid m → MapRoot_verify (root_of_contents m) = Ok ().
Proof.
  intros Hd Hv. unfold root_of_contents. destruct (trie_of m) as [t|] eqn:Ht; [|done].
  pose proof (contents_tvalid m t Hd Hv Ht) as [_ Hs]. unfold MapRoot_verify. cbn [map_root mr_node mr_entries].
  pose proof (tsize_pos t). rewrite (proj2 (N.eqb_neq _ _)), (proj2 (N.leb_le _ _)) by lia.
  cbn. apply map_node_id_valid.
Qed.
End Contents.

(** ** The order of a batch does not matter *)

Lemma mutate_comm m a b :
  mutation_key a ≠ mutation_key b →
  (m' ← mutate m a; mutate m' b) = (m' ← mutate m b; mutate m' a).
Proof.
  assert (Hother : ∀ m m' a k, mutate m a = Some m' → mutation_key a ≠ k → m' !! k = m !! k).
  { intros n n' c k Hn Hk. destruct c; cbn in *; case_decide; simplify_eq;
      by rewrite ?lookup_insert_ne, ?lookup_delete_ne. }
  intros Hne. destruct (mutate m a) as [ma|] eqn:Ha, (mutate m b) as [mb|] eqn:Hb; cbn; try done.
  - pose proof (Hother _ _ _ _ Ha Hne) as Hma. pose proof (Hother _ _ _ _ Hb (not_eq_sym Hne)) as Hmb.
    destruct a, b; cbn in *; repeat case_decide; simplify_eq; try congruence; f_equal.
    + by apply insert_insert_ne.
    + by rewrite delete_insert_ne.
    + by rewrite delete_insert_ne.
    + by apply delete_delete.
  - pose proof (Hother _ _ _ _ Ha Hne) as Hma. destruct a, b; cbn in *; repeat case_decide; simplify_eq; congruence.
  - pose proof (Hother _ _ _ _ Hb (not_eq_sym Hne)) as Hmb. destruct a, b; cbn in *; repeat case_decide; simplify_eq; congruence.
Qed.
Lemma mutate_all_perm m l k :
  l ≡ₚ k → NoDup (mutation_key <$> l) → mutate_all m l = mutate_all m k.
Proof.
  intros Hp. revert m. induction Hp as [|a l k _ IH|a b l|l k j H1 IH1 H2 IH2]; intros m Hn.
  - done.
  - cbn in *. apply NoDup_cons in Hn as [_ Hn]. destruct (mutate m a); cbn; auto.
  - cbn in *. apply NoDup_cons in Hn as [Hn _]. pose proof (mutate_comm m b a) as Hc.
    destruct (mutate m a) as [ma|], (mutate m b) as [mb|]; cbn in *.
    + rewrite <-Hc by set_solver. done.
    + rewrite <-Hc by set_solver. done.
    + rewrite Hc by set_solver. done.
    + done.
  - rewrite IH1 by done. apply IH2. by rewrite <-H1.
Qed.

(** What a batch needs of a map: different keys have different hashes, the
    entries and the mutations are valid, and no count overflows. *)
Record ready `{Sha256} (m : gmap string string) (mutations : list MapMutation) : Prop := {
  rd_hashes : hash_distinct (dom m ∪ list_to_set (mutation_key <$> mutations));
  rd_entries : ∀ k v, m !! k = Some v → entry_valid (k, v);
  rd_size : (N.of_nat (size m + length mutations) ≤ MAX_EXACT_INTEGER)%N;
  rd_mutations : Forall (λ mutation, MapMutation_verify mutation = Ok ()) mutations;
}.

Section Ready.
Context `{Sha256}.

Lemma mutation_verified mutation :
  MapMutation_verify mutation = Ok () →
  validate_key (mutation_key mutation) = Ok ()
  ∧ match mutation with Put k _ v => entry_valid (k, v) | Remove _ _ => True end.
Proof.
  unfold MapMutation_verify, entry_valid. intros Hv. apply bind_Ok in Hv as ([] & Hk & Hv).
  split; [done|]. destruct mutation as [k e v|]; [|done]. by apply bind_Ok in Hv as ([] & _ & Hv).
Qed.
Lemma mutate_dom m mutation m' :
  mutate m mutation = Some m' → dom m' ⊆ {[mutation_key mutation]} ∪ dom m ∧ size m' ≤ S (size m).
Proof.
  destruct mutation as [k e v|k e]; cbn; case_decide; intros [= <-].
  - rewrite dom_insert, map_size_insert. split; [done|]. destruct (m !! k); cbn; lia.
  - rewrite dom_delete, map_size_delete. split; [set_solver|]. destruct (m !! k); cbn; lia.
Qed.
Lemma mutate_entries m mutation m' :
  mutate m mutation = Some m' → MapMutation_verify mutation = Ok () →
  (∀ k v, m !! k = Some v → entry_valid (k, v)) → ∀ k v, m' !! k = Some v → entry_valid (k, v).
Proof.
  intros Hm [_ Hv]%mutation_verified He j w. destruct mutation as [k e v|k e]; cbn in Hm;
    case_decide; simplify_eq.
  - intros [[<- <-]|[_ Hj]]%lookup_insert_Some; auto.
  - intros [_ Hj]%lookup_delete_Some. auto.
Qed.
Lemma ready_valid m mutations : ready m mutations → hash_distinct (dom m) ∧ contents_valid m.
Proof.
  intros [Hd He Hs _]. split; [by eapply hash_distinct_subset, Hd; set_solver|]. split; [done|lia].
Qed.
Lemma ready_step m mutation mutations m' :
  ready m (mutation :: mutations) → mutate m mutation = Some m' → ready m' mutations.
Proof.
  intros [Hd He Hs [Hv Hf]%Forall_cons] Hm. destruct (mutate_dom _ _ _ Hm) as [Hdom Hsz].
  cbn in *. split; [by eapply hash_distinct_subset, Hd; set_solver|by eapply mutate_entries|lia|done].
Qed.
Lemma ready_version m mutations m' :
  ready m mutations → m' ∈ versions m mutations → hash_distinct (dom m') ∧ contents_valid m'.
Proof.
  revert m. induction mutations as [|mutation mutations IH]; intros m Hr; cbn [versions].
  - intros ->%list_elem_of_singleton. by eapply ready_valid.
  - intros [->|Hin]%elem_of_cons; [by eapply ready_valid|].
    destruct (mutate m mutation) as [m1|] eqn:Hm; [|by apply elem_of_nil in Hin].
    eapply IH; [by eapply ready_step|done].
Qed.
Lemma ready_fresh m mutation mutations t :
  ready m (mutation :: mutations) → trie_of m = Some t → fresh_hash (mutation_key mutation) t.
Proof.
  intros Hr Ht j Hj Heq. apply (rd_hashes _ _ Hr); [|set_solver|done].
  destruct (trie_of_spec m (proj1 (ready_valid _ _ Hr))) as [Hwf Hm]. rewrite Ht in Hm. cbn in Hm.
  apply tmap_dom in Hj. rewrite Hm in Hj. apply elem_of_union_l. by apply elem_of_dom.
Qed.
End Ready.

Section Apply.
Context `{Sha256} `{Resolver MapNode R} (I : R → Prop) (σ : gmap string MapNode) (U : MapNode → Prop).
Hypothesis Hserves : serves I σ.
Hypothesis Hdistinct : distinct_ids U.
Hypothesis Hstore : keyed U σ.

Abbreviation ov_inv := (ov_inv I σ U).
Abbreviation grown := (grown I σ U).
Abbreviation holds := (holds σ).
Abbreviation holds_opt := (holds_opt σ).

Lemma subtries_ok t t' : twf t → tvalid t → t' ∈ subtries t → twf t' ∧ tvalid t'.
Proof.
  induction t as [k v|d l IHl r IHr]; cbn [subtries]; intros Hwf Hv.
  - by intros ->%list_elem_of_singleton.
  - intros [->|[Ht|Ht]%elem_of_app]%elem_of_cons; [done|..]; destruct Hwf as (Hl & Hr & _);
      apply tvalid_fork in Hv as [? ?]; auto.
Qed.
Lemma overlay_answers o t :
  twf t → tvalid t → ov_inv o → holds o t →
  answers overlay_load (grown o) t.
Proof.
  intros Hwf Hv Ho Hh s t' Hs Ht. destruct (subtries_ok t t' Hwf Hv Ht) as [Hwf' Hv'].
  destruct (overlay_load_node I σ U Hserves Hdistinct Hstore s t') as (s' & Hl & Hg & _); try done.
  - apply Hs.
  - apply Hs; [eapply (known_U I σ U); [done|exact Ho|]|]; apply Hh; by apply list_elem_of_fmap_2.
  - exists s'. split; [done|]. by eapply (grown_trans I σ U).
Qed.

Lemma height_bound t : twf t → theight t < MAX_MAP_PATH_NODES.
Proof. intros Hwf. pose proof (theight_bound t [] Hwf) as Hh. unfold MAX_MAP_PATH_NODES.
  cbn in Hh. assert (theight t ≤ 256); [|lia]. apply Hh. intros k _. apply prefix_nil. Qed.
Lemma tvalid_u64 t : tvalid t → (N.of_nat (tsize t) < u64_max)%N.
Proof. intros [_ Hs]. unfold MAX_EXACT_INTEGER, u64_max in *. lia. Qed.

(** The contents of an optional trie, as a lookup reports them. *)
Definition outcome_of (k : string) (t : option trie) : LookupOutcome :=
  {| lo_value := omap_tmap t !! k;
     lo_rank := t ← t; N.of_nat <$> trank k t |}.

Lemma overlay_lookup_spec o k t :
  otwf t → match t with Some t => tvalid t ∧ fresh_hash k t | None => True end →
  ov_inv o → holds_opt o t →
  ∃ o', run_prog (overlay_lookup (map_root t) k (key_digest k)) o = Ok (o', outcome_of k t)
    ∧ grown o o'.
Proof.
  intros Hwf Hv Ho Hh. unfold overlay_lookup, lookup_root. destruct t as [t|]; cbn [map_root mr_node].
  - destruct Hv as [Hv Hf]. rewrite run_prog_reading. pose proof (tvalid_u64 t Hv).
    destruct (lookup_path_spec overlay_load (grown o) (λ _, true) k t [] MAX_MAP_PATH_NODES 0%N o)
      as (o' & Hrun & Hg); try done; [by apply Forall_nil|by apply height_bound|by apply overlay_answers|lia|].
    exists o'. split; [exact Hrun|done].
  - exists o. split; [|done]. cbn. unfold absent, outcome_of. cbn. by rewrite lookup_empty.
Qed.

(** ** One mutation *)

Lemma overlay_put_spec o k v t :
  otwf t → match t with Some t => tvalid t ∧ fresh_hash k t | None => True end →
  entry_valid (k, v) → tvalid (oinsert k v t) → ov_inv o → holds_opt o t →
  (∀ n, n ∈ trie_nodes (oinsert k v t) → U n) →
  ∃ o', run_prog (overlay_put (map_root t) k (key_digest k) v) o
        = Ok (o', map_root (Some (oinsert k v t)))
    ∧ grown o o' ∧ holds o' (oinsert k v t).
Proof.
  intros Hwf Hv Hkv Hvi Ho Hh Hu. pose proof Hvi as [_ Hsz]. unfold overlay_put.
  destruct t as [t|]; cbn [map_root mr_node mr_entries oinsert] in *; rewrite run_prog_bind.
  - destruct Hv as [Hv Hf]. fold (trie_ref t).
    destruct (insert_node_spec I σ U Hserves Hdistinct Hstore k v t [] MAX_MAP_PATH_NODES o)
      as (o' & -> & Hg & Hh'); try done; [by apply Forall_nil|by apply height_bound|].
    exists o'. split; [|done]. cbn [mbind result_bind fst snd].
    pose proof (tinsert_size k v t Hwf Hf) as Hs. pose proof (tvalid_u64 t Hv) as Hmax.
    assert (Hent : (if is_new k t then ok_or (checked_add (N.of_nat (tsize t)) 1) BadShape
      else Ok (N.of_nat (tsize t))) = Ok (N.of_nat (tsize (tinsert k v t)))).
    { unfold is_new. rewrite Hs. destruct (tmap t !! k); [done|].
      unfold checked_add. rewrite decide_True by lia. cbn. f_equal. lia. }
    rewrite Hent. cbn [trie_ref mc_entries mc_object_id mbind prog_bind].
    rewrite (proj2 (N.leb_le _ _)), N.eqb_refl by done. done.
  - destruct (insert_leaf_spec I σ U Hdistinct k v o) as (o' & Hl & Hg & Hh'); try done;
      [by apply Hu, trie_nodes_self|].
    exists o'. split; [|done]. cbn [MapRoot_empty mr_node]. rewrite run_prog_bind, Hl. done.
Qed.

Lemma overlay_remove_spec o k t :
  twf t → tvalid t → fresh_hash k t → k ∈ (tlist t).*1 → ov_inv o → holds o t →
  (∀ n, n ∈ opt_nodes (tremove k t) → U n) →
  ∃ o', run_prog (overlay_remove (map_root (Some t)) k (key_digest k)) o
        = Ok (o', map_root (tremove k t))
    ∧ grown o o' ∧ holds_opt o' (tremove k t).
Proof.
  intros Hwf Hv Hf Hk Ho Hh Hu. unfold overlay_remove. cbn [map_root mr_node mr_entries].
  cbn [ok_or mbind prog_bind]. fold (trie_ref t). rewrite run_prog_bind.
  destruct (remove_node_spec I σ U Hserves Hdistinct Hstore k t [] MAX_MAP_PATH_NODES o)
    as (o' & Hrun & Hg & Hh'); try done; [by apply Forall_nil|by apply height_bound|].
  exists o'. split; [|done]. rewrite Hrun. cbn [mbind result_bind fst snd].
  pose proof (tremove_size k t Hwf Hk) as Hs. unfold checked_sub.
  destruct (tremove k t) as [t'|].
  all: rewrite decide_True by lia; cbn [ok_or mbind prog_bind fmap option_fmap option_map mc_entries trie_ref];
    rewrite (proj2 (N.eqb_eq _ _)) by lia; cbn; unfold MapRoot_empty; do 3 f_equal; lia.
Qed.
Lemma apply_mutation_spec o m mutation mutations :
  ready m (mutation :: mutations) → ov_inv o → holds_opt o (trie_of m) →
  (∀ m' n, mutate m mutation = Some m' → n ∈ contents_nodes m' → U n) →
  match mutate m mutation with
  | Some m' =>
      ∃ o', run_prog (apply_map_mutation (root_of_contents m) mutation) o
            = Ok (o', root_of_contents m') ∧ grown o o' ∧ holds_opt o' (trie_of m')
  | None => run_prog (apply_map_mutation (root_of_contents m) mutation) o = Err MutationConflict
  end.
Proof.
  intros Hr Ho Hh Hu. pose proof (ready_valid _ _ Hr) as [Hd Hval].
  pose proof (trie_of_spec m Hd) as [Hwf Hmap].
  pose proof (rd_mutations _ _ Hr) as [Hv _]%Forall_cons. pose proof (mutation_verified _ Hv) as [Hk Hkv].
  assert (Ht : match trie_of m with
    | Some t => tvalid t ∧ fresh_hash (mutation_key mutation) t | None => True end).
  { destruct (trie_of m) as [t|] eqn:Ht; [|done].
    split; [by apply (contents_tvalid m)|by eapply ready_fresh]. }
  destruct (overlay_lookup_spec o (mutation_key mutation) (trie_of m) Hwf Ht Ho Hh)
    as (o1 & Hrun & Hg). unfold outcome_of in Hrun. rewrite Hmap in Hrun.
  pose proof (λ m', ready_step _ _ _ m' Hr) as Hstep.
  assert (Hh1 : holds_opt o1 (trie_of m)).
  { destruct (trie_of m); [|done]. by eapply (holds_grown I σ U). }
  destruct mutation as [k e v|k e]; cbn [mutate apply_map_mutation mutation_key] in *;
    rewrite map_key_hash_eq by done; cbn [mbind prog_bind];
    rewrite run_prog_bind; unfold root_of_contents in *; rewrite Hrun;
    cbn [mbind result_bind fst snd lo_value].
  - fold (expected_value e). case_decide as Heq; [|by rewrite bool_decide_eq_false_2].
    rewrite bool_decide_eq_true_2 by done. cbn [require mbind prog_bind].
    assert (Hi : trie_of (<[k := v]> m) = Some (oinsert k v (trie_of m))).
    { apply trie_of_insert. eapply hash_distinct_subset, (rd_hashes _ _ Hr). set_solver. }
    pose proof (ready_valid _ _ (Hstep _ eq_refl)) as [Hd' Hval'].
    destruct (overlay_put_spec o1 k v (trie_of m) Hwf Ht Hkv) as (o2 & H2 & Hg2 & Hh2); try done.
    + by apply (contents_tvalid (<[k := v]> m)).
    + apply Hg.
    + intros n Hn. eapply Hu; [done|]. unfold contents_nodes. by rewrite Hi.
    + exists o2. rewrite Hi. split; [exact H2|]. split; [by eapply (grown_trans I σ U)|done].
  - case_decide as Heq; [|by rewrite bool_decide_eq_false_2].
    rewrite bool_decide_eq_true_2 by done. cbn [require mbind prog_bind].
    assert (Hdel := trie_of_delete k m Hd (ex_intro _ e Heq)).
    destruct (trie_of m) as [t|] eqn:Htr; cbn in Hmap; [|by rewrite <-Hmap, lookup_empty in Heq].
    destruct Ht as [Htv Hf].
    destruct (overlay_remove_spec o1 k t Hwf Htv Hf) as (o2 & H2 & Hg2 & Hh2); try done.
    + apply tmap_dom. by rewrite Hmap, Heq.
    + apply Hg.
    + intros n Hn. eapply Hu; [done|]. unfold contents_nodes. by rewrite Hdel.
    + exists o2. rewrite Hdel. split; [exact H2|]. split; [by eapply (grown_trans I σ U)|done].
Qed.

(** ** A batch *)

Lemma apply_loop_spec o m mutations :
  ready m mutations → ov_inv o → holds_opt o (trie_of m) →
  (∀ m' n, m' ∈ versions m mutations → n ∈ contents_nodes m' → U n) →
  match mutate_all m mutations with
  | Some m' =>
      ∃ o', run_prog (apply_map_loop (root_of_contents m) mutations) o
            = Ok (o', root_of_contents m') ∧ grown o o' ∧ holds_opt o' (trie_of m')
  | None => run_prog (apply_map_loop (root_of_contents m) mutations) o = Err MutationConflict
  end.
Proof.
  revert o m. induction mutations as [|mutation mutations IH]; intros o m Hr Ho Hh Hu.
  { cbn. by exists o. }
  cbn [mutate_all apply_map_loop versions] in *. rewrite run_prog_bind.
  pose proof (apply_mutation_spec o m mutation mutations Hr Ho Hh) as Hone.
  destruct (mutate m mutation) as [m1|] eqn:Hm; cbn [mbind option_bind] in *.
  - destruct Hone as (o1 & -> & Hg & Hh1).
    { intros m' n [= <-] Hn. apply (Hu m1); [|done]. right. destruct mutations; by left. }
    cbn [mbind result_bind fst snd].
    specialize (IH o1 m1 (ready_step _ _ _ _ Hr Hm) (proj1 Hg) Hh1).
    destruct (mutate_all m1 mutations) as [m'|].
    + destruct IH as (o' & Hrun & Hg' & Hh').
      { intros m2 n Hm2. apply Hu. by right. }
      exists o'. split; [done|]. split; [by eapply (grown_trans I σ U)|done].
    + apply IH. intros m2 n Hm2. apply Hu. by right.
  - rewrite Hone; [done|]. by intros m' n [=].
Qed.

Lemma ready_final m mutations m' :
  ready m mutations → mutate_all m mutations = Some m' → ready m' [].
Proof.
  revert m. induction mutations as [|mutation mutations IH]; intros m Hr; cbn; [by intros [= <-]|].
  destruct (mutate m mutation) as [m1|] eqn:Hm; [|done]. cbn. by eapply IH, ready_step.
Qed.
Lemma apply_internal_spec o m mutations :
  ready m mutations → ov_inv o → holds_opt o (trie_of m) →
  (∀ m' n, m' ∈ versions m mutations → n ∈ contents_nodes m' → U n) →
  match mutate_all m mutations with
  | Some m' =>
      ∃ o', run_prog (apply_map_internal (root_of_contents m) mutations) o
            = Ok (o', root_of_contents m') ∧ grown o o' ∧ holds_opt o' (trie_of m')
  | None => run_prog (apply_map_internal (root_of_contents m) mutations) o = Err MutationConflict
  end.
Proof.
  intros Hr Ho Hh Hu. pose proof (apply_loop_spec o m mutations Hr Ho Hh Hu) as Hl.
  unfold apply_map_internal. rewrite run_prog_bind.
  destruct (mutate_all m mutations) as [m'|] eqn:Hm.
  - destruct Hl as (o' & -> & Hg & Hh'). exists o'. split; [|done]. cbn [mbind result_bind fst snd].
    destruct (ready_valid _ _ (ready_final _ _ _ Hr Hm)) as [Hd Hv]. rewrite root_verify by done. done.
  - by rewrite Hl.
Qed.
Lemma contents_held (o : Overlay MapNode R) m :
  (∀ n, n ∈ contents_nodes m → σ !! mn_object_id n = Some n) → holds_opt o (trie_of m).
Proof.
  unfold contents_nodes. intros Hs. destruct (trie_of m); [|done]. intros n Hn. right. auto.
Qed.
End Apply.
