(* ===== verification/MapSound.v ===== *)
(** * Verified proofs of the authenticated map

    A node is determined by its identity, and a key by its hash, as long as the
    inputs of the hash function contain no collision.  A run that succeeds on the
    few nodes of a proof gives the same answer on a larger store, so that what
    the verifiers of [MapProof] accept is true of the contents of the map. *)

From S2P Require Import Prelude Identity CommandIndex IndexSound CollectionHash Collections.
From S2P Require Import Stores MapNode MapTree MapProof Trie MapRefine MapApply.

Section Inputs.
Context `{Sha256}.

(** What is hashed for the identity of a node and for the hash of a key. *)
Definition map_node_input (n : MapNode) : string :=
  collection_preimage MAP_NODE_VERSION (map_node_fields (mn_body n)).
Definition map_key_input (k : string) : string := collection_preimage MAP_KEY_VERSION [k].


(** ** Fields of a verified node *)

Lemma key_short k : validate_key k = Ok () → (byte_len k ≤ MAX_MAP_KEY_BYTES)%N.
Proof. unfold validate_key. intros Hk. inv_ok. by to_prop. Qed.

Lemma verified_leaf n key key_hash value :
  verified n → mn_body n = MapLeaf key key_hash value →
  validate_key key = Ok () ∧ key_hash = key_digest key ∧ validate_collection_id value = Ok ().
Proof.
  unfold verified, node_verify, map_kind, MapNode_verify. intros Hv Hb. rewrite Hb in Hv. inv_ok.
  match goal with Hk : validate_key key = Ok ?u |- _ => destruct u; rename Hk into Hkey end.
  rewrite map_key_hash_eq in * by done. inv_ok. by to_prop.
Qed.
Lemma verified_branch n depth prefix lchild rchild :
  verified n → mn_body n = MapBranch depth prefix lchild rchild →
  depth < 256 ∧ digest prefix ∧ normalized_hash_prefix prefix depth = Ok prefix
  ∧ MapChild_verify lchild = Ok () ∧ MapChild_verify rchild = Ok ()
  ∧ branch_entries lchild rchild = MapNode_entries n.
Proof.
  unfold verified, node_verify, map_kind, MapNode_verify, MapNode_entries. intros Hv Hb. rewrite Hb in Hv |- *. inv_ok.
  to_prop.
  split_and!; try done; [by eapply validate_digest_Ok|congruence].
Qed.
Lemma verified_id n :
  verified n → mn_version n = MAP_NODE_VERSION ∧ mn_object_id n = map_node_id (mn_body n).
Proof. unfold verified, node_verify, map_kind, MapNode_verify. intros Hv. inv_ok. by to_prop. Qed.
Lemma child_short c :
  MapChild_verify c = Ok () → byte_len (mc_object_id c) = 71%N ∧ (mc_entries c ≤ MAX_EXACT_INTEGER)%N.
Proof. unfold MapChild_verify. intros Hc. inv_ok. to_prop. split; [by apply id_short|done]. Qed.

Lemma short_key k : validate_key k = Ok () → short k.
Proof.
  intros Hk%key_short. eapply short_field; [done|]. etrans; [exact Hk|]. by vm_compute.
Qed.
Lemma fields_short n : verified n → Forall short (map_node_fields (mn_body n)).
Proof.
  assert (H64 : (64 ≤ u64_max)%N) by by vm_compute.
  assert (H71 : (71 ≤ u64_max)%N) by by vm_compute.
  intros Hv. destruct (mn_body n) as [k h v|d p l r] eqn:Hb; cbn [map_node_fields].
  - destruct (verified_leaf _ _ _ _ Hv Hb) as (Hk%short_key & -> & Hval%id_short).
    pose proof (short_field _ _ (digest_short _ (key_digest_digest k)) H64).
    pose proof (short_field _ _ Hval H71). by repeat constructor.
  - destruct (verified_branch _ _ _ _ _ Hv Hb) as (_ & Hp%digest_short & _ & [Hl _]%child_short
      & [Hr _]%child_short & _).
    pose proof (short_field _ _ Hp H64). pose proof (short_field _ _ Hl H71).
    pose proof (short_field _ _ Hr H71).
    assert (Hnum : ∀ i w, i < 9 → short (to_be_bytes i w)).
    { intros i w Hi. eapply short_field; [apply to_be_bytes_len|].
      etrans; [apply (proj1 (N.leb_le (N.of_nat i) 9)); apply N.leb_le; lia|]. by vm_compute. }
    repeat apply Forall_cons_2; try done; apply Hnum; lia.
Qed.
Lemma child_eq c1 c2 :
  MapChild_verify c1 = Ok () → MapChild_verify c2 = Ok () → mc_object_id c1 = mc_object_id c2 →
  to_be_bytes 8 (mc_entries c1) = to_be_bytes 8 (mc_entries c2) → c1 = c2.
Proof.
  intros [_ H1]%child_short [_ H2]%child_short Hid Hn. destruct c1 as [i1 e1], c2 as [i2 e2]. cbn [mc_object_id mc_entries] in *. subst. f_equal.
  by apply to_be_bytes_inj in Hn; [|unfold MAX_EXACT_INTEGER in *; lia..].
Qed.
Lemma fields_inj n m :
  verified n → verified m → map_node_fields (mn_body n) = map_node_fields (mn_body m) →
  mn_body n = mn_body m.
Proof.
  intros Hn Hm. destruct (mn_body n) as [k h v|d p l r] eqn:Hbn, (mn_body m) as [k' h' v'|d' p' l' r'] eqn:Hbm;
    unfold map_node_fields; rewrite !cons_eq; [naive_solver|naive_solver|naive_solver|].
  intros (_ & Hd & -> & Hl & Hle & Hr & Hre & _).
  destruct (verified_branch _ _ _ _ _ Hn Hbn) as (? & _ & _ & ? & ? & _).
  destruct (verified_branch _ _ _ _ _ Hm Hbm) as (? & _ & _ & ? & ? & _).
  f_equal; [|by apply child_eq..]. apply Nat2N.inj. apply (to_be_bytes_inj 2) in Hd; lia.
Qed.

Lemma fields_length body : (N.of_nat (length (map_node_fields body)) ≤ u64_max)%N.
Proof. by destruct body. Qed.
Lemma distinct_verified nodes :
  collision_free (map_node_input <$> nodes) → distinct_ids (among nodes).
Proof.
  intros Hc n m [Hn Hin] [Hm Him] Hid. destruct (verified_id n Hn) as [Hvn Hidn].
  destruct (verified_id m Hm) as [Hvm Hidm]. cbn [node_id map_kind] in Hid.
  rewrite Hidn, Hidm in Hid. unfold map_node_id in Hid.
  assert (Hb : mn_body n = mn_body m).
  { apply fields_inj; [done..|]. apply hash_identifier_inj in Hid.
    apply Hc in Hid; [|by apply (list_elem_of_fmap_2 map_node_input)..].
    eapply collection_preimage_inj in Hid;
      [done|by apply fields_short|by apply fields_short|apply fields_length..|done]. }
  destruct n, m. cbn in *. congruence.
Qed.
Lemma distinct_hashes keys :
  collision_free (map_key_input <$> keys) → (∀ k, k ∈ keys → validate_key k = Ok ()) →
  hash_distinct (list_to_set keys).
Proof.
  intros Hc Hv j k Hj%elem_of_list_to_set Hk%elem_of_list_to_set Heq.
  unfold key_digest in Heq. rewrite !hash_digest_eq in Heq. apply hex_string_inj in Heq.
  apply Hc in Heq; [|by apply (list_elem_of_fmap_2 map_key_input)..].
  assert (Hs : ∀ x, x ∈ keys → Forall short [x]).
  { intros x Hx%Hv%short_key. by apply Forall_singleton. }
  apply collection_preimage_inj in Heq; [congruence|by apply Hs..|done|done|done].
Qed.
End Inputs.

Section Contents.
Context `{Sha256}.

(** Nodes and keys without collisions, for maps and the nodes of a proof. *)
Definition plain_nodes (nodes : list MapNode) : Prop := collision_free (map_node_input <$> nodes).
Definition plain_keys (keys : list string) : Prop := collision_free (map_key_input <$> keys).

Lemma contents_nodes_verified m n :
  hash_distinct (dom m) → contents_valid m → n ∈ contents_nodes m → verified n.
Proof.
  intros Hd Hv. unfold contents_nodes. destruct (trie_of m) as [t|] eqn:Ht; [|by intros ?%elem_of_nil].
  intros (t' & -> & Hin)%list_elem_of_fmap. pose proof (trie_of_spec m Hd) as [Hwf _].
  rewrite Ht in Hwf. pose proof (contents_tvalid _ _ Hd Hv Ht) as Htv.
  destruct (subtries_ok _ _ Hwf Htv Hin) as [? ?]. by apply trie_node_ok.
Qed.
Lemma contents_keys m :
  plain_keys (elements (dom m)) → contents_valid m → hash_distinct (dom m).
Proof.
  intros Hc [He _]. rewrite <-(list_to_set_elements_L (dom m)). apply distinct_hashes; [done|].
  intros k Hk%elem_of_elements%elem_of_dom. destruct Hk as [v Hk]. by apply He in Hk as [? _].
Qed.

(** Different contents have different roots. *)
Lemma trie_id_inj U t1 t2 :
  distinct_ids U → twf t1 → twf t2 →
  (∀ n, n ∈ trie_nodes t1 → U n) → (∀ n, n ∈ trie_nodes t2 → U n) →
  map_node_id (trie_body t1) = map_node_id (trie_body t2) → t1 = t2.
Proof.
  intros Hd. revert t2. induction t1 as [k v|d l IHl r IHr]; intros t2 H1 H2 Hu1 Hu2 Hid;
    pose proof (Hd _ _ (Hu1 _ (trie_nodes_self _)) (Hu2 _ (trie_nodes_self _)) Hid) as Heq;
    apply (f_equal mn_body) in Heq; destruct t2 as [k' v'|d' l' r']; cbn in Heq; try done.
  - congruence.
  - injection Heq as -> _ Hl _ Hr _. rewrite trie_nodes_fork in Hu1, Hu2.
    setoid_rewrite elem_of_cons in Hu1. setoid_rewrite elem_of_cons in Hu2.
    setoid_rewrite elem_of_app in Hu1. setoid_rewrite elem_of_app in Hu2.
    destruct H1 as (? & ? & _), H2 as (? & ? & _). f_equal; [apply IHl|apply IHr]; try done; auto;
      unfold map_node_id, hash_identifier; by apply f_equal.
Qed.
Lemma root_inj U m1 m2 :
  distinct_ids U → hash_distinct (dom m1) → hash_distinct (dom m2) →
  (∀ n, n ∈ contents_nodes m1 → U n) → (∀ n, n ∈ contents_nodes m2 → U n) →
  root_of_contents m1 = root_of_contents m2 → m1 = m2.
Proof.
  intros Hd H1 H2. pose proof (trie_of_spec m1 H1) as [Hw1 Hm1]. pose proof (trie_of_spec m2 H2) as [Hw2 Hm2].
  unfold root_of_contents, contents_nodes.
  intros Hu1 Hu2 Hr. apply (f_equal mr_node) in Hr.
  destruct (trie_of m1) as [t1|], (trie_of m2) as [t2|]; cbn [map_root mr_node opt_nodes] in *; try done;
    [|by rewrite <-Hm1, <-Hm2].
  apply (inj Some) in Hr. assert (t1 = t2) as -> by by apply (trie_id_inj U). by rewrite <-Hm1, <-Hm2.
Qed.

(** ** A proof beside the whole map *)

(** The store of a proof, completed with the nodes of a map. *)
Definition with_contents (σ : gmap string MapNode) (m : gmap string string) : gmap string MapNode :=
  σ ∪ node_map (contents_nodes m).
Lemma with_contents_keyed U σ m :
  distinct_ids U → keyed U σ → (∀ n, n ∈ contents_nodes m → U n) →
  keyed U (with_contents σ m)
  ∧ ∀ n, n ∈ contents_nodes m → with_contents σ m !! mn_object_id n = Some n.
Proof.
  intros Hd Hk Hu. destruct (keyed_union U Hd σ (node_map (contents_nodes m)) Hk) as [? Hsub];
    [by apply node_map_keyed|].
  split; [done|]. intros n Hn. eapply lookup_weaken; [|exact Hsub]. by apply (node_map_lookup (H:=map_kind) U).
Qed.

Lemma canonical_mutations_spec mutations cs :
  canonical_mutations mutations = Ok cs →
  cs ≡ₚ mutations ∧ Forall (λ mu, MapMutation_verify mu = Ok ()) mutations
  ∧ NoDup (mutation_key <$> mutations).
Proof.
  unfold canonical_mutations. intros Hc. inv_ok.
  match goal with Hf : try_fold _ _ _ = Ok ?st |- _ => rename Hf into Hfold; set (s := st) in * end.
  assert (Hinv : s.2.*2 = mutations ∧ (∀ k, k ∈ s.1.2 ↔ k ∈ mutation_key <$> mutations)
    ∧ Forall (λ mu, MapMutation_verify mu = Ok ()) mutations ∧ NoDup (mutation_key <$> mutations)).
  { refine (try_fold_inv _ (λ don (s : N * gset string * list (string * MapMutation)),
      s.2.*2 = don ∧ (∀ k, k ∈ s.1.2 ↔ k ∈ mutation_key <$> don)
      ∧ Forall (λ mu, MapMutation_verify mu = Ok ()) don ∧ NoDup (mutation_key <$> don)) _ _ _ _ _ Hfold).
    { cbn. split_and!; try done; [set_solver|by apply NoDup_nil]. }
    intros don mu rest [[total keys] ordered] s' _ (Ho & Hk & Hv & Hn) Hs. cbn in *. inv_ok. to_prop.
    subst. rewrite !fmap_app. cbn. split_and!.
    - by rewrite fmap_app.
    - intros k. rewrite elem_of_union, elem_of_singleton, elem_of_app, list_elem_of_singleton, Hk. tauto.
    - apply Forall_app. split; [done|]. by apply Forall_singleton.
    - apply NoDup_app. split; [done|]. split; [|apply NoDup_singleton].
      intros k Hin%Hk ->%list_elem_of_singleton. done. }
  destruct Hinv as (Ho & _ & Hv & Hn). split; [|done]. rewrite <-Ho. apply fmap_Permutation, sort_by_key_perm.
Qed.

(** ** The order of a map *)

(** The entries of a map in the order of its trie: by the bits of their hashes. *)
Definition contents_list (m : gmap string string) : list (string * string) :=
  match trie_of m with Some t => tlist t | None => [] end.
Definition bits_lt (l k : list bool) : Prop :=
  ∃ q, (q ++ [false]) `prefix_of` l ∧ (q ++ [true]) `prefix_of` k.
Definition hash_lt (a b : string * string) : Prop := bits_lt (key_bits a.1) (key_bits b.1).
Lemma tlist_sorted t : twf t → StronglySorted hash_lt (tlist t).
Proof.
  induction t as [k v|d l IHl r IHr]; cbn; [intros _; repeat constructor|].
  intros (Hl & Hr & _ & q & _ & Hul & Hur). apply StronglySorted_app. split; [|split; [by apply IHl|by apply IHr]].
  intros a b Ha Hb. exists q. split; [apply Hul|apply Hur]; by apply list_elem_of_fmap_2.
Qed.
Lemma contents_list_spec m :
  hash_distinct (dom m) → contents_list m ≡ₚ map_to_list m ∧ StronglySorted hash_lt (contents_list m).
Proof.
  intros Hd. pose proof (trie_of_spec m Hd) as [Hwf Hm]. unfold contents_list.
  destruct (trie_of m) as [t|]; cbn in *; [|subst m; rewrite map_to_list_empty; by split; [|constructor]].
  split; [|by apply tlist_sorted]. rewrite <-Hm, tmap_list by done. symmetry.
  apply map_to_list_to_map. by apply tlist_nodup.
Qed.
(** The position of a key among the entries. *)
Definition contents_rank (m : gmap string string) (key : string) : option N :=
  (λ i, N.of_nat i.1) <$> list_find (λ kv, kv.1 = key) (contents_list m).

(** ** Reading the whole map *)

Lemma memory_answers σ t :
  twf t → tvalid t → (∀ n, n ∈ trie_nodes t → σ !! mn_object_id n = Some n) →
  answers load_resolved (λ s, s = σ) t.
Proof.
  intros Hwf Hv Hs s t' -> Ht. destruct (subtries_ok t t' Hwf Hv Ht) as [Hwf' Hv'].
  apply (load_resolved_served _ σ); [apply memory_serves|done| |by apply trie_node_ok|done|].
  - apply (Hs (trie_node t')). by apply list_elem_of_fmap_2.
  - by apply trie_same_counts.
Qed.
Lemma map_lookup_contents σ m key :
  hash_distinct ({[key]} ∪ dom m) → contents_valid m →
  (∀ n, n ∈ contents_nodes m → σ !! mn_object_id n = Some n) →
  run_reads load_resolved (map_lookup (root_of_contents m) key (key_digest key)) σ
  = Ok (σ, {| lo_value := m !! key; lo_rank := contents_rank m key |}).
Proof.
  intros Hd Hv Hs. assert (Hd' : hash_distinct (dom m)) by (eapply hash_distinct_subset, Hd; set_solver).
  unfold map_lookup. rewrite root_verify by done. cbn [mbind reads_bind].
  pose proof (trie_of_spec m Hd') as [Hwf Hm]. pose proof (λ t, contents_tvalid m t Hd' Hv) as Htv.
  unfold lookup_root, root_of_contents, contents_nodes, contents_rank, contents_list in *.
  destruct (trie_of m) as [t|]; cbn [map_root mr_node mr_entries opt_nodes omap_tmap otwf] in *.
  - specialize (Htv t eq_refl). pose proof (tvalid_u64 t Htv). fold (trie_ref t).
    destruct (lookup_path_spec load_resolved (λ s, s = σ) (λ n, n <? MAX_EXACT_INTEGER)%N
      key t [] MAX_MAP_PATH_NODES 0%N σ) as (s' & Hrun & ->); try done.
    + by apply Forall_nil.
    + intros j Hj Heq. apply Hd; [|set_solver|done]. apply tmap_dom in Hj. rewrite Hm in Hj.
      apply elem_of_union_r. by apply elem_of_dom.
    + by apply height_bound.
    + by apply memory_answers.
    + intros n Hn. apply N.ltb_lt. destruct Htv as [_ Htv]. lia.
    + lia.
    + rewrite Hrun, Hm. do 3 f_equal. unfold trank.
      by destruct (list_find _ _) as [[i kv]|].
  - subst m. cbn. by rewrite lookup_empty.
Qed.

(** ** Runs on the nodes of a proof *)

Lemma ready_intro m mutations :
  contents_valid m → (N.of_nat (size m + length mutations) ≤ MAX_EXACT_INTEGER)%N →
  plain_keys (elements (dom m) ++ (mutation_key <$> mutations)) →
  Forall (λ mu, MapMutation_verify mu = Ok ()) mutations → ready m mutations.
Proof.
  intros [He _] Hs Hk Hf. split; try done. apply distinct_hashes in Hk.
  - eapply hash_distinct_subset, Hk. rewrite list_to_set_app_L, list_to_set_elements_L. done.
  - intros k [Hin%elem_of_elements%elem_of_dom|Hin]%elem_of_app.
    + destruct Hin as [v Hin]. by apply He in Hin as [? _].
    + apply list_elem_of_fmap in Hin as (mu & -> & Hmu). rewrite Forall_forall in Hf.
      by apply mutation_verified, Hf.
Qed.
Lemma ready_perm m l k : l ≡ₚ k → ready m l → ready m k.
Proof.
  intros Hp [Hd He Hs Hf]. split; [|done|by rewrite <-Hp|by rewrite <-Hp].
  eapply hash_distinct_subset, Hd. by rewrite (fmap_Permutation _ _ _ Hp).
Qed.
Lemma apply_run_sound `{Resolver MapNode R} (I : R → Prop) σ U r m mutations o root :
  ready m mutations → serves I σ → I r → distinct_ids U → keyed U σ →
  (∀ m' n, m' ∈ versions m mutations → n ∈ contents_nodes m' → U n) →
  run_prog (apply_map_internal (root_of_contents m) mutations) (Overlay_new r) = Ok (o, root) →
  ∃ m', mutate_all m mutations = Some m' ∧ root = root_of_contents m'.
Proof.
  intros Hr Hs HI Hd Hk Hu Hrun. assert (Hm : ∀ n, n ∈ contents_nodes m → U n).
  { intros n. apply Hu. destruct mutations; by left. }
  destruct (with_contents_keyed U σ m Hd Hk Hm) as [HU Hn].
  apply (run_prog_weaken I σ (with_contents σ m) Hs (map_union_subseteq_l _ _)) in Hrun; [|done].
  pose proof (apply_internal_spec (λ s, s = with_contents σ m) _ U (memory_serves _) Hd HU
    (on_store (with_contents σ m) (Overlay_new r)) m mutations Hr) as Hspec.
  destruct (mutate_all m mutations) as [m'|].
  - destruct Hspec as (o' & Hspec & _); [by apply new_inv|by apply contents_held|done|].
    exists m'. split; [done|]. congruence.
  - rewrite Hspec in Hrun; [done|by apply new_inv|by apply contents_held|done].
Qed.
Lemma lookup_run_sound `{Resolver MapNode R} (I : R → Prop) σ U r m key r' outcome :
  hash_distinct ({[key]} ∪ dom m) → contents_valid m → serves I σ → I r → distinct_ids U →
  keyed U σ → (∀ n, n ∈ contents_nodes m → U n) →
  run_reads load_resolved (map_lookup (root_of_contents m) key (key_digest key)) r
    = Ok (r', outcome) →
  outcome = {| lo_value := m !! key; lo_rank := contents_rank m key |}.
Proof.
  intros Hh Hv Hs HI Hd Hk Hu Hrun. destruct (with_contents_keyed U σ m Hd Hk Hu) as [_ Hn].
  apply (run_reads_weaken I σ (with_contents σ m) Hs (map_union_subseteq_l _ _)) in Hrun as [Hrun _]; [|done].
  rewrite (map_lookup_contents _ m key Hh Hv Hn) in Hrun. congruence.
Qed.

End Contents.
