(* ===== verification/MapReads.v ===== *)
(** * Recorded proofs, audits and pages of the map

    Whatever a program reads through the recording resolver, it reads again from
    the proof, without leaving a node unused.  What the traversal of [audit_map]
    accepts is the node tree of a trie.  The traversal of a page computes a greedy
    selection over the entries in their order: it starts after the cursor, omits
    nothing, and ends at the first entry that exceeds a limit.  Pages, audits and
    the collection of created nodes need no more fuel than they have. *)

From S2P Require Import Prelude Identity CommandIndex IndexSound CollectionHash Collections.
From S2P Require Import Stores MapNode MapTree MapProof Trie MapRefine MapApply MapSound.

(** ** The size of an exact proof *)

Section Size.
Context `{Sha256}.

Definition is_branch (n : MapNode) : bool :=
  match mn_body n with MapBranch _ _ _ _ => true | MapLeaf _ _ _ => false end.
Definition branches (σ : gmap string MapNode) : Prop := ∀ id n, σ !! id = Some n → is_branch n = true.
(** At most [k] nodes, of which at most one is a leaf. *)
Definition one_leaf (k : nat) (σ : gmap string MapNode) : Prop :=
  size σ ≤ k ∧ ∃ id, branches (delete id σ).

Lemma one_leaf_mono j k σ : j ≤ k → one_leaf j σ → one_leaf k σ.
Proof. intros Hjk [Hs Hb]. split; [lia|done]. Qed.
Lemma branches_insert id n σ : is_branch n = true → branches σ → branches (<[id := n]> σ).
Proof. intros Hn Hb j m [[<- <-]|[_ Hm]]%lookup_insert_Some; [done|by eapply Hb]. Qed.
Lemma insert_one_leaf k id n σ : branches σ → size σ ≤ k → one_leaf (S k) (<[id := n]> σ).
Proof.
  intros Hb Hs. split.
  - rewrite map_size_insert. destruct (σ !! id); cbn; lia.
  - exists id. intros j m. rewrite delete_insert_eq. intros [_ Hm]%lookup_delete_Some. by eapply Hb.
Qed.
Lemma branches_one_leaf k σ : branches σ → size σ ≤ k → one_leaf k σ.
Proof.
  intros Hb Hs. split; [done|]. exists EmptyString. intros j m [_ Hm]%lookup_delete_Some. by eapply Hb.
Qed.

Lemma lookup_record `{Resolver MapNode R} rank_ok key key_hash fuel ref cs rank
    (s s' : Recording MapNode R) a :
  run_reads load_resolved (lookup_path rank_ok key key_hash fuel ref cs rank) s = Ok (s', a) →
  branches (rec_nodes s) → one_leaf (size (rec_nodes s) + fuel) (rec_nodes s').
Proof.
  revert ref cs rank s. induction fuel as [|fuel IH]; intros ref cs rank s Hrun Hb; [done|].
  cbn [lookup_path run_reads] in Hrun. apply bind_Ok in Hrun as ([s1 n] & Hl & Hrun).
  apply record_load in Hl as (_ & _ & Hs1 & _). cbn [fst snd] in Hrun.
  assert (H1 : one_leaf (S (size (rec_nodes s))) (rec_nodes s1)).
  { rewrite Hs1. by apply insert_one_leaf. }
  destruct (mn_body n) as [k h v|d p lchild rchild] eqn:Hbody.
  - cbn [run_reads] in Hrun. inv_ok. eapply one_leaf_mono, H1. lia.
  - assert (Hb1 : branches (rec_nodes s1)).
    { rewrite Hs1. apply branches_insert; [|done]. unfold is_branch. by rewrite Hbody. }
    assert (Hdone : ∀ x, run_reads load_resolved (ReadDone x) s1 = Ok (s', a) →
      one_leaf (size (rec_nodes s) + S fuel) (rec_nodes s')).
    { intros x Hx. cbn in Hx. inv_ok. eapply one_leaf_mono, H1. lia. }
    assert (Hnext : ∀ ref cs rank, run_reads load_resolved
        (lookup_path rank_ok key key_hash fuel ref cs rank) s1 = Ok (s', a) →
      one_leaf (size (rec_nodes s) + S fuel) (rec_nodes s')).
    { intros ref' cs' rank' Hx. apply IH in Hx; [|done]. eapply one_leaf_mono, Hx.
      destruct H1 as [H1 _]. lia. }
    cbn [mbind reads_bind] in Hrun. repeat match type of Hrun with
    | run_reads _ (match ?x with _ => _ end) _ = _ => destruct x
    | run_reads _ (ReadDone _) _ = _ => by apply Hdone in Hrun
    | run_reads _ (lookup_path _ _ _ _ _ _ _) _ = _ => by apply Hnext in Hrun
    end.
Qed.
Lemma map_lookup_record `{Resolver MapNode R} root key key_hash (s : Recording MapNode R) r a :
  run_reads load_resolved (map_lookup root key key_hash)
    {| rec_inner := r; rec_nodes := ∅ |} = Ok (s, a) → one_leaf MAX_MAP_PATH_NODES (rec_nodes s).
Proof.
  assert (Hb : branches ∅) by by intros id n.
  unfold map_lookup, lookup_root. destruct (MapRoot_verify root); cbn [mbind reads_bind]; [|done].
  destruct (mr_node root) as [id|].
  - intros Hrun. by apply lookup_record in Hrun.
  - cbn [run_reads mbind result_bind]. intros [= <- <-]. apply branches_one_leaf; [done|].
    cbn [rec_nodes]. rewrite map_size_empty. unfold MAX_MAP_PATH_NODES. lia.
Qed.
Lemma proof_length k σ : one_leaf k σ → length (btree_values σ) ≤ k.
Proof.
  intros [Hs _]. unfold btree_values. by rewrite length_fmap, (btree_list_perm σ), length_map_to_list.
Qed.
End Size.

(** ** The bytes of an exact proof *)

Section Bytes.
Context `{Sha256}.

Definition BRANCH_COST : N := 400.
Definition LEAF_COST : N := MAX_PAGE_BYTES + BRANCH_COST.
Definition node_cost (n : MapNode) : N := if is_branch n then BRANCH_COST else LEAF_COST.
Lemma logical_bytes_cost n :
  verified n → ∃ b, MapNode_logical_bytes n = Ok b ∧ (b ≤ node_cost n)%N.
Proof.
  intros Hv. destruct (verified_id n Hv) as [Hver Hid].
  assert (Hidl : byte_len (mn_object_id n) = 71%N) by (rewrite Hid; apply id_short, map_node_id_valid).
  unfold MapNode_logical_bytes, node_cost, is_branch. rewrite Hver, Hidl.
  destruct (mn_body n) as [k h v|d p l r] eqn:Hb.
  - destruct (verified_leaf _ _ _ _ Hv Hb) as (Hk%key_short & -> & Hval%id_short).
    rewrite (digest_short _ (key_digest_digest k)), Hval. set (len := byte_len k) in *.
    cbn [app]. change (byte_len MAP_NODE_VERSION) with 31%N. clearbody len.
    change MAX_MAP_KEY_BYTES with 1048441%N in Hk. change LEAF_COST with 1048976%N.
    rewrite sum_checked_fits by (cbn [total]; unfold u64_max; lia).
    eexists. split; [done|]. cbn [total]. lia.
  - destruct (verified_branch _ _ _ _ _ Hv Hb) as (_ & Hp%digest_short & _ & [Hl _]%child_short
      & [Hr _]%child_short & _). rewrite Hp, Hl, Hr. eexists. split; [done|]. by vm_compute.
Qed.

Lemma branches_cost σ : branches σ → total (node_cost <$> (map_to_list σ).*2) = (N.of_nat (size σ) * BRANCH_COST)%N.
Proof.
  rewrite <-length_map_to_list. intros Hb. assert (Hl : ∀ p, p ∈ map_to_list σ → is_branch p.2 = true).
  { intros [id n] Hin%elem_of_map_to_list. by eapply Hb. }
  induction (map_to_list σ) as [|[id n] l IH]; [done|]. cbn [fmap list_fmap total length snd].
  rewrite IH by (intros; apply Hl; by right). unfold node_cost. 
  pose proof (Hl (id, n) (list_elem_of_here _ _)) as Hn. cbn [snd] in Hn. rewrite Hn. lia.
Qed.
Lemma one_leaf_cost k σ :
  one_leaf k σ → (total (node_cost <$> btree_values σ) ≤ N.of_nat k * BRANCH_COST + LEAF_COST)%N.
Proof.
  intros [Hs [id Hb]].
  assert (Hp : total (node_cost <$> btree_values σ) = total (node_cost <$> (map_to_list σ).*2)).
  { unfold btree_values. by rewrite (btree_list_perm σ). }
  rewrite Hp. pose proof (branches_cost _ Hb) as Hc. rewrite map_size_delete in Hc.
  destruct (σ !! id) as [n|] eqn:Hn; cbn in Hc.
  - rewrite <-(map_to_list_delete σ id n Hn). cbn [fmap list_fmap total snd].
    rewrite Hc. assert (node_cost n ≤ LEAF_COST)%N; [|nia].
    unfold node_cost. destruct (is_branch n); by vm_compute.
  - rewrite delete_id in Hc by done. rewrite Hc. nia.
Qed.
Lemma proof_bytes_fit σ :
  keyed verified σ → one_leaf MAX_MAP_PATH_NODES σ → verify_proof_bytes (btree_values σ) = Ok ().
Proof.
  intros Hk Hl. apply (proof_bytes_cost node_cost).
  - intros n [id Hn]%elem_of_btree_values. apply logical_bytes_cost. by eapply Hk.
  - etrans; [apply one_leaf_cost, Hl|]. by vm_compute.
Qed.
End Bytes.

Section Audit.
Context `{Sha256}.

(** The keys of a well-formed trie have different hashes. *)
Lemma trie_hash_distinct t : twf t → hash_distinct (okeys (Some t)).
Proof.
  assert (Hd : twf t → ∀ j k, j ∈ (tlist t).*1 → k ∈ (tlist t).*1 → key_bits j = key_bits k → j = k).
  { induction t as [k v|d l IHl r IHr]; cbn [twf tlist fmap list_fmap].
    - intros _ i j ->%list_elem_of_singleton ->%list_elem_of_singleton. done.
    - intros (Hl & Hr & _ & q & Hq & Hul & Hur) j k. rewrite fmap_app, !elem_of_app.
      intros [Hj|Hj] [Hk|Hk] Heq.
      + by apply IHl.
      + eapply under_bit in Hj; [|exact Hul]. eapply under_bit in Hk; [|exact Hur]. congruence.
      + eapply under_bit in Hj; [|exact Hur]. eapply under_bit in Hk; [|exact Hul]. congruence.
      + by apply IHr. }
  intros Hwf j k Hj%okeys_elem Hk%okeys_elem Heq. apply Hd; try done.
  unfold key_bits. by rewrite Heq.
Qed.

(** The bits of the keys below a constraint. *)
Lemma verify_constraints_last hash cs c :
  verify_constraints hash (cs ++ [c]) = Ok () →
  verify_constraints hash cs = Ok ()
  ∧ hash_matches_prefix hash (pc_prefix c) (pc_depth c) = Ok true
  ∧ hash_bit hash (pc_depth c) = Ok (pc_right c).
Proof.
  unfold verify_constraints. rewrite !try_each_Ok. intros Hall.
  split; [intros a Ha; apply Hall, elem_of_app; by left|].
  specialize (Hall c). rewrite elem_of_app in Hall. specialize (Hall (or_intror (list_elem_of_here _ _))).
  destruct (hash_matches_prefix _ _ _) as [[]|]; [|done|done].
  cbn in Hall. inv_ok. apply eqb_prop in Hall as <-. done.
Qed.
Definition below (cs : list PathConstraint) (t : trie) : Prop :=
  ∀ k, k ∈ (tlist t).*1 → verify_constraints (key_digest k) cs = Ok ().
Lemma below_side cs d p b t :
  d < 256 → digest p → normalized_hash_prefix p d = Ok p →
  below (cs ++ [{| pc_depth := d; pc_prefix := p; pc_right := b |}]) t →
  below cs t ∧ under (take d (hash_bits p) ++ [b]) t.
Proof.
  intros Hd Hp Hn Hb. split; intros k Hk; specialize (Hb k Hk);
    apply verify_constraints_last in Hb as (Hcs & Hm & Hbit); [done|].
  cbn [pc_depth pc_prefix pc_right] in Hm, Hbit. rewrite (matches_spec _ _ _ (key_digest_digest k) Hp Hd Hn) in Hm.
  injection Hm as Hm. apply bool_decide_eq_true in Hm.
  destruct (hash_bit_spec _ _ (key_digest_digest k) Hd) as (b' & Hb' & He). rewrite He in Hbit.
  injection Hbit as ->. rewrite <-Hm. apply prefix_snoc; [|].
  - apply prefix_take.
  - rewrite length_take, hash_bits_length, Nat.min_l by (apply key_digest_digest || lia). done.
Qed.
(** The branch that an audit accepts is the branch of its two subtries. *)
Lemma fork_body cs d p l r :
  d < 256 → digest p → normalized_hash_prefix p d = Ok p →
  twf l → twf r →
  below (cs ++ [{| pc_depth := d; pc_prefix := p; pc_right := false |}]) l →
  below (cs ++ [{| pc_depth := d; pc_prefix := p; pc_right := true |}]) r →
  twf (Fork d l r) ∧ below cs (Fork d l r) ∧ tprefix d (tfirst l) = p.
Proof.
  intros Hd Hp Hn Hl Hr [Hbl Hul]%below_side [Hbr Hur]%below_side; [|done..]. split_and!.
  - cbn. split_and!; try done. exists (take d (hash_bits p)). split; [|done].
    rewrite length_take, hash_bits_length by done. lia.
  - intros k. cbn [tlist]. rewrite fmap_app, elem_of_app. intros [?|?]; auto.
  - pose proof (under_take _ _ _ _ Hul (tfirst_in l)) as Ht.
    rewrite length_take, hash_bits_length, Nat.min_l in Ht by (done || lia).
    destruct (tprefix_spec d (tfirst l) Hd) as (_ & Hpre & _).
    apply (normalized_eq _ p d (key_digest_digest _) Hp Hd) in Ht. rewrite Hpre, Hn in Ht. congruence.
Qed.
(** The positions and values of the entries of a trie. *)
Definition entry_position (kv : string * string) : MapPosition * string :=
  ({| pos_key := kv.1; pos_key_hash := key_digest kv.1 |}, kv.2).

Lemma load_resolved_sound `{Resolver MapNode R} (r r' : R) ref n :
  load_resolved r ref = Ok (r', n) →
  verified n ∧ n = {| mn_version := MAP_NODE_VERSION; mn_object_id := mc_object_id ref; mn_body := mn_body n |}
  ∧ mc_object_id ref = map_node_id (mn_body n) ∧ MapNode_entries n = Ok (mc_entries ref).
Proof.
  intros (Hv & Hid & Hsame)%load_resolved_Ok. split; [done|].
  cbn [same_counts map_kind node_id ref_id] in *. unfold map_same_counts in Hsame. inv_ok. to_prop.
  destruct (verified_id n Hv) as [Hver Hnid].
  split; [destruct n; cbn in *; congruence|]. split; [congruence|]. congruence.
Qed.

(** What one call of the traversal adds. *)
Record audited (ref : NodeRef) (cs : list PathConstraint) (st st' : AuditState) (t : trie) : Prop := {
  ad_wf : twf t;
  ad_below : below cs t;
  ad_ref : ref = trie_ref t;
  ad_valid : Forall entry_valid (tlist t);
  ad_entries : au_entries st' = au_entries st ++ (entry_position <$> tlist t);
  ad_objects : au_objects st' = au_objects st ++ trie_nodes t;
}.
Lemma audit_subtree_sound `{Resolver MapNode R} fuel ref cs st (r r' : R) st' :
  run_reads load_resolved (audit_subtree fuel ref cs st) r = Ok (r', st') →
  ∃ t, audited ref cs st st' t.
Proof.
  revert ref cs st r r' st'. induction fuel as [|fuel IH]; intros ref cs st r r' st' Hrun; [done|].
  cbn [audit_subtree] in Hrun. rewrite run_reads_bind in Hrun. cbn [run_reads] in Hrun.
  apply bind_Ok in Hrun as ([r1 u] & _ & Hrun). apply bind_Ok in Hrun as ([r2 n] & Hload & Hrun).
  apply load_resolved_sound in Hload as (Hv & Hn & Hid & Hent). cbn [fst snd] in Hrun.
  destruct (mn_body n) as [k h v|d p lchild rchild] eqn:Hb.
  - destruct (verified_leaf _ _ _ _ Hv Hb) as (Hk & -> & Hval).
    rewrite !run_reads_bind in Hrun. cbn [run_reads mbind result_bind fst snd] in Hrun.
    destruct (verify_constraints (key_digest k) cs) as [[]|] eqn:Hcs; [|done].
    cbn [mbind result_bind fst snd] in Hrun. fold_bind. rewrite run_reads_bind in Hrun. cbn [run_reads] in Hrun.
    apply bind_Ok in Hrun as (x & _ & Hrun).
    cbn [mret reads_ret run_reads mbind result_bind fst snd] in Hrun. injection Hrun as _ <-.
    exists (Tip k v). split; cbn [tlist au_entries au_objects]; try done.
    + intros j. cbn [tlist fmap list_fmap fst]. by intros ->%list_elem_of_singleton.
    + destruct ref as [id e]. unfold MapNode_entries in Hent. rewrite Hb in Hent.
      cbn in Hid, Hent. injection Hent as <-. by rewrite Hid.
    + by apply Forall_singleton.
    + unfold trie_nodes, trie_node. cbn [subtries fmap list_fmap trie_body]. by rewrite Hn, Hid.
  - destruct (verified_branch _ _ _ _ _ Hv Hb) as (Hd & Hp & Hnorm & Hl & Hr & Hbe).
    rewrite !run_reads_bind in Hrun. cbn [run_reads] in Hrun.
    destruct (verify_constraints p cs) as [[]|]; [|done]. cbn [mbind result_bind fst snd] in Hrun.
    fold_bind. rewrite !run_reads_bind in Hrun. cbn [run_reads] in Hrun.
    destruct (require_deeper cs d) as [[]|]; [|done]. cbn [mbind result_bind fst snd] in Hrun.
    rewrite run_reads_bind in Hrun. apply bind_Ok in Hrun as ([r3 st1] & Hleft & Hright).
    cbn [fst snd] in Hright. apply IH in Hleft as (tl & [Hwl Hbl Hrefl Hvl Hel Hol]).
    apply IH in Hright as (tr & [Hwr Hbr Hrefr Hvr Her Hor]).
    destruct (fork_body cs d p tl tr Hd Hp Hnorm Hwl Hwr Hbl Hbr) as (Hwf & Hbelow & Hpre).
    assert (Hbody : MapBranch d p lchild rchild = trie_body (Fork d tl tr)).
    { rewrite Hrefl, Hrefr. cbn [trie_body]. by rewrite Hpre. }
    assert (Hsize : mc_entries ref = N.of_nat (tsize (Fork d tl tr))).
    { rewrite <-Hbe in Hent. subst. unfold branch_entries in Hent. inv_ok. cbn in Hent.
      unfold checked_add in Hent. case_decide; [|done]. cbn in Hent. case_match; [|done].
      injection Hent as <-. rewrite tsize_fork. lia. }
    assert (Hnode : n = trie_node (Fork d tl tr)).
    { rewrite Hn, Hid, Hbody. done. }
    exists (Fork d tl tr). split; try done.
    + destruct ref as [id e]. cbn in Hid, Hsize. rewrite Hsize, Hid, Hbody. done.
    + cbn [tlist]. by apply Forall_app.
    + rewrite Her, Hel. cbn [tlist au_entries]. by rewrite fmap_app, (assoc (++)).
    + rewrite Hor, Hol, trie_nodes_fork. cbn [au_objects]. rewrite <-Hnode. by rewrite <-!(assoc (++)).
Qed.


(** The contents of a trie with valid entries. *)
Lemma trie_contents t :
  twf t → Forall entry_valid (tlist t) → (N.of_nat (tsize t) ≤ MAX_EXACT_INTEGER)%N →
  contents_valid (tmap t) ∧ hash_distinct (dom (tmap t)) ∧ trie_of (tmap t) = Some t.
Proof.
  intros Hwf Hval Hs. pose proof (trie_hash_distinct t Hwf) as Hd. split; [|split].
  - split; [|by rewrite tmap_size]. intros k v Hk. apply tmap_elem in Hk; [|done].
    rewrite Forall_forall in Hval. by apply Hval.
  - exact Hd.
  - exact (trie_of_tmap (Some t) Hwf Hd).
Qed.
Lemma root_verify_size root :
  MapRoot_verify root = Ok () →
  (mr_entries root ≤ MAX_EXACT_INTEGER)%N ∧ (mr_node root = None → mr_entries root = 0%N).
Proof.
  unfold MapRoot_verify. intros Hr. apply bind_Ok in Hr as (u & Hr & _). apply require_Ok in Hr.
  apply andb_true_iff in Hr as [Hz Hs]. apply N.leb_le in Hs. split; [done|]. intros Hn.
  rewrite bool_decide_eq_true_2 in Hz by done. by apply eqb_prop, N.eqb_eq in Hz.
Qed.
End Audit.

Section Page.
Context `{Sha256}.

(** The bytes that an entry adds to a page. *)
Definition entry_bytes (kv : string * string) : N := total [byte_len kv.1; 64; byte_len kv.2]%N.

Section Greedy.
Variables (start : N) (limit : nat) (max_bytes : N).

Definition page_step (i : N) (sel : Selection) (kv : string * string) : Selection :=
  if bool_decide (is_Some (sel_boundary sel)) then sel
  else if (i <? start)%N then sel
  else if (length (sel_entries sel) <? limit) && (sel_used_bytes sel + entry_bytes kv <=? max_bytes)%N then
    {| sel_entries := sel_entries sel ++ [entry_position kv];
       sel_used_bytes := sel_used_bytes sel + entry_bytes kv; sel_boundary := None |}
  else
    {| sel_entries := sel_entries sel; sel_used_bytes := sel_used_bytes sel;
       sel_boundary := Some (entry_position kv) |}.
Fixpoint page_fold (i : N) (sel : Selection) (l : list (string * string)) : Selection :=
  match l with
  | [] => sel
  | kv :: l => page_fold (i + 1) (page_step i sel kv) l
  end.

Lemma page_fold_app i sel l k :
  page_fold i sel (l ++ k) = page_fold (i + N.of_nat (length l)) (page_fold i sel l) k.
Proof.
  revert i sel. induction l as [|kv l IH]; intros i sel; cbn [page_fold app length].
  - by rewrite N.add_0_r.
  - rewrite IH. f_equal. lia.
Qed.
Lemma page_fold_boundary i sel l : is_Some (sel_boundary sel) → page_fold i sel l = sel.
Proof.
  intros Hb. revert i. induction l as [|kv l IH]; intros i; cbn [page_fold]; [done|].
  unfold page_step. rewrite bool_decide_eq_true_2 by done. apply IH.
Qed.
Lemma page_fold_skip i sel l : (i + N.of_nat (length l) ≤ start)%N → page_fold i sel l = sel.
Proof.
  revert i. induction l as [|kv l IH]; intros i Hi; cbn [page_fold length] in *; [done|].
  assert (page_step i sel kv = sel) as ->.
  { unfold page_step. rewrite (proj2 (N.ltb_lt i start)) by lia. by destruct (bool_decide _). }
  apply IH. lia.
Qed.
Lemma page_step_used i sel kv :
  (sel_used_bytes sel ≤ max_bytes → sel_used_bytes (page_step i sel kv) ≤ max_bytes)%N.
Proof.
  unfold page_step. intros Hu. case_bool_decide; [done|]. destruct (i <? start)%N; [done|].
  destruct (_ && _) eqn:Hb; [|done]. by apply andb_true_iff in Hb as [_ ?%N.leb_le].
Qed.
Lemma page_fold_used i sel l :
  (sel_used_bytes sel ≤ max_bytes → sel_used_bytes (page_fold i sel l) ≤ max_bytes)%N.
Proof.
  revert i sel. induction l as [|kv l IH]; intros i sel Hu; cbn [page_fold]; [done|].
  by apply IH, page_step_used.
Qed.

(** What the selection is: as many of the entries as the limits allow. *)
Record page (rest : list (string * string)) (n : nat) (sel : Selection) : Prop := {
  pa_entries : sel_entries sel = entry_position <$> take n rest;
  pa_limit : n ≤ limit;
  pa_used : sel_used_bytes sel = total (entry_bytes <$> take n rest);
  pa_bytes : (sel_used_bytes sel ≤ max_bytes)%N;
  pa_boundary : match sel_boundary sel with
    | None => n = length rest
    | Some b => ∃ kv, rest !! n = Some kv ∧ b = entry_position kv
        ∧ (n = limit ∨ max_bytes < total (entry_bytes <$> take (S n) rest))%N
    end;
}.
Lemma total_snoc l n : total (l ++ [n]) = (total l + n)%N.
Proof. induction l as [|m l IH]; cbn [total app]; lia. Qed.
Lemma page_fold_spec i done rest :
  (start ≤ i)%N → length done ≤ limit → (total (entry_bytes <$> done) ≤ max_bytes)%N →
  ∃ n, page (done ++ rest) n (page_fold i
    {| sel_entries := entry_position <$> done; sel_used_bytes := total (entry_bytes <$> done);
       sel_boundary := None |} rest).
Proof.
  revert i done. induction rest as [|kv rest IH]; intros i don Hi Hl Hb; cbn [page_fold].
  - exists (length don). rewrite app_nil_r. split; cbn; rewrite ?take_ge by done; done.
  - unfold page_step at 1. cbn [sel_boundary sel_entries sel_used_bytes].
    rewrite bool_decide_eq_false_2 by (by intros [? ?]).
    rewrite (proj2 (N.ltb_ge i start)) by done. rewrite length_fmap.
    destruct ((length don <? limit) && _) eqn:Hfit.
    + apply andb_true_iff in Hfit as [Hlt%Nat.ltb_lt Hmax%N.leb_le].
      assert (Ht : total (entry_bytes <$> (don ++ [kv])) = (total (entry_bytes <$> don) + entry_bytes kv)%N).
      { rewrite fmap_app. apply total_snoc. }
      destruct (IH (i + 1)%N (don ++ [kv])) as [n Hn]; [lia|rewrite length_app; cbn; lia|by rewrite Ht|].
      exists n. rewrite <-(assoc (++)) in Hn. rewrite Ht, fmap_app in Hn. exact Hn.
    + rewrite page_fold_boundary by (cbn; eauto). exists (length don).
      assert (Htake : take (length don) (don ++ kv :: rest) = don) by apply take_app_length.
      split; cbn [sel_entries sel_used_bytes sel_boundary]; rewrite ?Htake; try done.
      exists kv. split; [by apply list_lookup_middle|]. split; [done|].
      apply andb_false_iff in Hfit as [Hge%Nat.ltb_ge|Hover%N.leb_gt]; [left; lia|right].
      replace (S (length don)) with (length don + 1) by lia. rewrite take_app_add'; [|done].
      cbn [take]. rewrite take_0, fmap_app. cbn [fmap list_fmap]. by rewrite total_snoc.
Qed.
Lemma page_fold_page l :
  (start ≤ N.of_nat (length l))%N →
  ∃ n, page (drop (N.to_nat start) l) n (page_fold 0 no_selection l).
Proof.
  intros Hs. assert (Hl : page_fold 0 no_selection l
    = page_fold (0 + N.of_nat (length (take (N.to_nat start) l))) no_selection (drop (N.to_nat start) l)).
  { rewrite <-(take_drop (N.to_nat start) l) at 1. rewrite page_fold_app.
    by rewrite (page_fold_skip 0 no_selection) by (rewrite length_take; lia). }
  rewrite Hl.
  destruct (page_fold_spec (0 + N.of_nat (length (take (N.to_nat start) l)))%N []
    (drop (N.to_nat start) l)) as [n Hn].
  - rewrite length_take. lia.
  - cbn. lia.
  - apply N.le_0_l.
  - by exists n.
Qed.
End Greedy.

(** ** The traversal computes the selection *)

Lemma position_verified k : validate_key k = Ok () →
  MapPosition_verify {| pos_key := k; pos_key_hash := key_digest k |} = Ok ().
Proof.
  intros Hk. unfold MapPosition_verify. cbn [pos_key pos_key_hash]. rewrite map_key_hash_eq by done.
  cbn [mbind result_bind]. by rewrite bool_decide_eq_true_2.
Qed.
Lemma page_entry_bytes_eq kv :
  entry_valid kv → page_entry_bytes (entry_position kv).1 kv.2 = Ok (entry_bytes kv)
  ∧ (entry_bytes kv ≤ 2 * MAX_PAGE_BYTES)%N.
Proof.
  intros [Hk%key_short Hv%id_short].
  assert (Hb : entry_bytes kv = total [byte_len kv.1; byte_len (key_digest kv.1); byte_len kv.2]).
  { by rewrite (digest_short _ (key_digest_digest kv.1)). }
  assert (Hle : (entry_bytes kv ≤ 2 * MAX_PAGE_BYTES)%N).
  { unfold entry_bytes. rewrite Hv. cbn [total]. change MAX_MAP_KEY_BYTES with 1048441%N in Hk.
    change MAX_PAGE_BYTES with 1048576%N. lia. }
  split; [|done]. unfold page_entry_bytes. cbn [entry_position fst pos_key pos_key_hash].
  rewrite sum_checked_fits; [by rewrite Hb|]. rewrite <-Hb. etrans; [exact Hle|]. by vm_compute.
Qed.

Lemma visit_leaf_step start limit max_bytes base k v cs sel :
  entry_valid (k, v) → verify_constraints (key_digest k) cs = Ok () → sel_boundary sel = None →
  (sel_used_bytes sel ≤ max_bytes)%N → (max_bytes ≤ MAX_PAGE_BYTES)%N →
  visit_leaf start limit max_bytes base k (key_digest k) v cs sel
  = Ok (page_step start limit max_bytes base sel (k, v)).
Proof.
  intros Hkv Hcs Hb Hu Hm. unfold visit_leaf, page_step. rewrite Hcs, Hb. cbn [mbind result_bind].
  rewrite bool_decide_eq_false_2 by (by intros [? ?]). destruct (base <? start)%N; [done|].
  destruct (page_entry_bytes_eq _ Hkv) as [Hpe Hle]. cbn [entry_position fst snd] in Hpe.
  destruct Hkv as [Hk Hv]. cbn [fst snd] in Hk, Hv.
  rewrite position_verified by done. cbn [mbind result_bind]. rewrite Hv. cbn [mbind result_bind].
  rewrite Hpe. cbn [mbind result_bind]. unfold checked_add.
  rewrite decide_True.
  2: { etrans; [apply N.add_le_mono; [exact (N.le_trans _ _ _ Hu Hm)|exact Hle]|]. by vm_compute. }
  cbn [ok_or mbind result_bind]. unfold entry_position. cbn [fst snd].
  by destruct (_ && _).
Qed.

Section Traversal.
Context {S : Type} (load : S → NodeRef → coll (S * MapNode)) (P : S → Prop).
Variables (start : N) (limit : nat) (max_bytes : N).
Hypothesis Hmax : (max_bytes ≤ MAX_PAGE_BYTES)%N.

Lemma visit_spec t cs fuel base sel s :
  twf t → tvalid t → path_ok cs t → theight t < fuel → answers load P t → P s →
  (base + N.of_nat (tsize t) ≤ u64_max)%N → (sel_used_bytes sel ≤ max_bytes)%N →
  ∃ s', run_reads load (visit start limit max_bytes fuel (trie_ref t) base cs sel) s
        = Ok (s', page_fold start limit max_bytes base sel (tlist t)) ∧ P s'.
Proof.
  revert cs fuel base sel s. induction t as [k v|d l IHl r IHr];
    intros cs fuel base sel s Hwf Hv Hcs Hfuel Ha Hs Hu Hused.
  all: destruct fuel as [|fuel]; [lia|]; cbn [visit].
  all: destruct (decide (is_Some (sel_boundary sel))) as [Hb|Hb];
    [rewrite bool_decide_eq_true_2, page_fold_boundary by done; by exists s|].
  all: rewrite bool_decide_eq_false_2 by done; rewrite <-eq_None_not_Some in Hb.
  all: cbn [trie_ref mc_entries]; rewrite checked_add_fits by done;
    cbn [ok_or mbind reads_bind].
  all: destruct (base + N.of_nat (tsize _) <=? start)%N eqn:Hend;
    [apply N.leb_le in Hend; rewrite page_fold_skip by exact Hend; by exists s|clear Hend].
  all: cbn [run_reads]; destruct (Ha s _ Hs (subtries_self _)) as (s1 & -> & Hs1);
    cbn [mbind result_bind fst snd mn_body trie_node trie_body].
  - rewrite visit_leaf_step; try done.
    + by exists s1.
    + destruct Hv as [Hf _]. exact (proj1 (Forall_singleton _ _) Hf).
    + by eapply constraints_tip.
  - destruct (constraints_fork _ _ _ _ Hwf Hcs) as [-> ->]. cbn [mbind reads_bind].
    pose proof (answers_side load P d l r false Ha) as Hal.
    pose proof (answers_side load P d l r true Ha) as Har.
    pose proof (path_ok_side d l r cs false Hwf Hcs) as Hcl.
    pose proof (path_ok_side d l r cs true Hwf Hcs) as Hcr.
    destruct Hwf as (Hwl & Hwr & _). apply tvalid_fork in Hv as [Hvl Hvr].
    rewrite tsize_fork in Hu. cbn [theight] in Hfuel. rewrite run_reads_bind.
    fold (trie_ref l) (trie_ref r).
    destruct (IHl (cs ++ [{| pc_depth := d; pc_prefix := tprefix d (tfirst l); pc_right := false |}])
      fuel base sel s1) as (s2 & -> & Hs2); try done; [lia..|].
    cbn [mbind result_bind reads_bind fst snd mc_entries trie_ref].
    rewrite checked_add_fits by lia. cbn [ok_or].
    fold (trie_ref r).
    destruct (IHr (cs ++ [{| pc_depth := d; pc_prefix := tprefix d (tfirst l); pc_right := true |}])
      fuel (base + N.of_nat (tsize l))%N (page_fold start limit max_bytes base sel (tlist l)) s2)
      as (s3 & -> & Hs3); try done; [lia..|by apply page_fold_used|].
    exists s3. split; [|done]. cbn [tlist]. by rewrite page_fold_app.
Qed.
End Traversal.

(** The first position after a cursor. *)
Definition cursor (m : gmap string string) (after : option MapPosition) (start : N) : Prop :=
  match after with
  | None => start = 0%N
  | Some p => ∃ i v, contents_list m !! i = Some (pos_key p, v) ∧ start = N.of_nat (S i)
  end.
Definition after_key (after : option MapPosition) : gset string :=
  match after with Some p => {[pos_key p]} | None => ∅ end.

Lemma map_range_start_contents σ m after s start :
  hash_distinct (after_key after ∪ dom m) → contents_valid m →
  (∀ n, n ∈ contents_nodes m → σ !! mn_object_id n = Some n) →
  run_reads load_resolved (map_range_start (root_of_contents m) after) σ = Ok (s, start) →
  s = σ ∧ cursor m after start ∧ (start ≤ N.of_nat (length (contents_list m)))%N.
Proof.
  intros Hd Hv Hn. destruct after as [p|]; cbn [map_range_start after_key cursor] in *.
  2: { intros [= <- <-]. split; [done|]. split; [done|]. apply N.le_0_l. }
  destruct (MapPosition_verify p) as [[]|] eqn:Hp; cbn [mbind reads_bind]; [|done].
  unfold MapPosition_verify, map_key_hash in Hp. inv_ok. to_prop.
  match goal with Hx : pos_key_hash p = _ |- _ => rewrite Hx end.
  rewrite run_reads_bind. fold (key_digest (pos_key p)). rewrite (map_lookup_contents σ m) by done.
  cbn [mbind result_bind fst snd lo_value lo_rank]. intros Hrun.
  destruct (m !! pos_key p) as [v|]; [|done]. rewrite bool_decide_eq_true_2 in Hrun by done.
  cbn [require mbind reads_bind run_reads] in Hrun. unfold contents_rank in Hrun.
  destruct (list_find _ (contents_list m)) as [[i kv]|] eqn:Hf; [|done].
  cbn [fmap option_fmap option_map fst mbind option_bind] in Hrun.
  apply list_find_Some in Hf as (Hi & Hkey & _). pose proof (lookup_lt_Some _ _ _ Hi) as Hlt.
  apply bind_Ok in Hrun as (x & Hx & Hrun). injection Hrun as <- <-. apply ok_or_Ok in Hx.
  unfold checked_add in Hx. case_decide; [|done]. injection Hx as <-. split; [done|].
  split; [|lia]. exists i, kv.2. rewrite Hi, <-Hkey. split; [by destruct kv|]. lia.
Qed.
Lemma collect_contents σ m start limit max_bytes s sel :
  hash_distinct (dom m) → contents_valid m → (max_bytes ≤ MAX_PAGE_BYTES)%N →
  (∀ n, n ∈ contents_nodes m → σ !! mn_object_id n = Some n) →
  run_reads load_resolved
    (collect_map_range start limit max_bytes (root_of_contents m)) σ = Ok (s, sel) →
  sel = page_fold start limit max_bytes 0 no_selection (contents_list m)
  ∧ (is_Some (sel_boundary sel) → sel_entries sel ≠ []).
Proof.
  intros Hd Hv Hmax Hn. pose proof (trie_of_spec m Hd) as [Hwf _]. pose proof (λ t, contents_tvalid m t Hd Hv) as Htv.
  pose proof height_bound as Hh. revert Hh.
  unfold collect_map_range, root_of_contents, contents_nodes, contents_list in *.
  generalize MAX_MAP_PATH_NODES. intros fuel Hh.
  destruct (require _ _) as [[]|]; [|done].
  destruct (trie_of m) as [t|]; cbn [map_root mr_node mr_entries opt_nodes otwf mbind reads_bind].
  - specialize (Htv t eq_refl). fold (trie_ref t). rewrite run_reads_bind.
    pose proof (tvalid_u64 t Htv).
    destruct (visit_spec load_resolved (λ s, s = σ) start limit max_bytes Hmax t []
      fuel 0 no_selection σ) as (s' & -> & ->); try done.
    + by apply Forall_nil.
    + by apply Hh.
    + by apply memory_answers.
    + cbn. lia.
    + apply N.le_0_l.
    + cbn [mbind result_bind fst snd]. destruct (require _ _) as [[]|] eqn:Hr; [|done].
      cbn [reads_bind run_reads mret reads_ret]. intros [= <- <-]. split; [done|].
      apply require_Ok in Hr. apply negb_true_iff, andb_false_iff in Hr. intros Hb Hnil.
      destruct Hr as [Hr|Hr]; apply bool_decide_eq_false in Hr; auto.
  - intros [= <- <-]. split; [done|]. cbn. by intros [? ?].
Qed.
Lemma range_after_valid `{Resolver MapNode R} (r : R) root after limit max_bytes x :
  run_reads load_resolved (read_map_range root after limit max_bytes) r = Ok x →
  ∀ k, k ∈ after_key after → validate_key k = Ok ().
Proof.
  unfold read_map_range, map_range_start. destruct after as [p|]; [|by intros _ k ?%elem_of_empty].
  destruct (MapPosition_verify p) as [[]|] eqn:Hp; [|done]. cbn [after_key].
  intros _ k ->%elem_of_singleton.
  unfold MapPosition_verify, map_key_hash in Hp. inv_ok. done.
Qed.
(** A run of the page on the nodes of a proof. *)
Lemma page_run_sound `{Resolver MapNode R} (I : R → Prop) σ U r m after limit max_bytes r' sel :
  hash_distinct (after_key after ∪ dom m) → contents_valid m → (max_bytes ≤ MAX_PAGE_BYTES)%N →
  serves I σ → I r → distinct_ids U → keyed U σ → (∀ n, n ∈ contents_nodes m → U n) →
  run_reads load_resolved
    (read_map_range (root_of_contents m) after limit max_bytes) r = Ok (r', sel) →
  ∃ start n, cursor m after start
    ∧ page limit max_bytes (drop (N.to_nat start) (contents_list m)) n sel
    ∧ (is_Some (sel_boundary sel) → sel_entries sel ≠ []).
Proof.
  intros Hh Hv Hmax Hs HI Hd Hk Hu Hrun.
  destruct (with_contents_keyed U σ m Hd Hk Hu) as [_ Hn].
  apply (run_reads_weaken I σ (with_contents σ m) Hs (map_union_subseteq_l _ _)) in Hrun as [Hrun _]; [|done].
  assert (Hm : hash_distinct (dom m)) by (eapply hash_distinct_subset, Hh; set_solver).
  unfold read_map_range in Hrun. rewrite run_reads_bind in Hrun.
  apply bind_Ok in Hrun as ([s start] & Hstart & Hrun). cbn [fst snd] in Hrun.
  apply map_range_start_contents in Hstart as (-> & Hc & Hle); [|done..].
  apply collect_contents in Hrun as [-> Hne]; [|done..].
  destruct (page_fold_page start limit max_bytes (contents_list m) Hle) as [n Hp].
  by exists start, n.
Qed.
End Page.

Section Fuel.
Context `{Sha256} `{Resolver MapNode R}.

(** The fuel that suffices below a path. *)
Definition enough (fuel : nat) (cs : list PathConstraint) : Prop :=
  match last cs with Some c => pc_depth c < 256 ∧ 256 ≤ fuel + pc_depth c | None => 257 ≤ fuel end.
Lemma enough_pos fuel cs : enough fuel cs → 0 < fuel.
Proof. unfold enough. destruct (last cs); lia. Qed.
Lemma enough_next fuel cs d p b :
  enough (S fuel) cs → d < 256 → require_deeper cs d = Ok () →
  enough fuel (cs ++ [{| pc_depth := d; pc_prefix := p; pc_right := b |}]).
Proof.
  unfold enough, require_deeper. rewrite last_snoc. cbn [pc_depth]. destruct (last cs) as [c|]; intros He Hd Hr.
  - apply require_Ok, negb_true_iff, Nat.leb_gt in Hr. lia.
  - lia.
Qed.

Lemma audit_fuel fuel k ref cs st (r : R) :
  enough fuel cs →
  run_reads load_resolved (audit_subtree (fuel + k) ref cs st) r
  = run_reads load_resolved (audit_subtree fuel ref cs st) r.
Proof.
  revert ref cs st r. induction fuel as [|fuel IH]; intros ref cs st r He; [apply enough_pos in He; lia|].
  cbn [Nat.add audit_subtree]. fold_bind; apply run_reads_bind_ext; [done|]. intros r1 _. cbn [run_reads].
  destruct (load_resolved r1 ref) as [[r2 n]|] eqn:Hl; cbn [mbind result_bind fst snd]; [|done].
  apply load_resolved_sound in Hl as (Hv & _). destruct (mn_body n) as [|d p lchild rchild] eqn:Hb; [done|].
  destruct (verified_branch _ _ _ _ _ Hv Hb) as (Hd & _). fold_bind; apply run_reads_bind_ext; [done|].
  intros r3 _. destruct (require_deeper cs d) as [[]|] eqn:Hdeep; [|done].
  pose proof (λ b, enough_next fuel cs d p b He Hd Hdeep) as Hnext.
  fold_bind; apply run_reads_bind_ext; [done|]. intros r4 _. fold_bind; apply run_reads_bind_ext; [by apply IH|].
  intros r5 st'. by apply IH.
Qed.

Lemma visit_fuel start limit max_bytes fuel k ref base cs sel (r : R) :
  enough fuel cs →
  run_reads load_resolved (visit start limit max_bytes (fuel + k) ref base cs sel) r
  = run_reads load_resolved (visit start limit max_bytes fuel ref base cs sel) r.
Proof.
  revert ref base cs sel r. induction fuel as [|fuel IH]; intros ref base cs sel r He;
    [apply enough_pos in He; lia|].
  cbn [Nat.add visit]. case_bool_decide; [done|]. fold_bind; apply run_reads_bind_ext; [done|]. intros r0 end_rank.
  destruct (end_rank <=? start)%N; [done|]. cbn [run_reads].
  destruct (load_resolved r0 ref) as [[r2 n]|] eqn:Hl; cbn [mbind result_bind fst snd]; [|done].
  apply load_resolved_sound in Hl as (Hv & _). destruct (mn_body n) as [|d p lchild rchild] eqn:Hb; [done|].
  destruct (verified_branch _ _ _ _ _ Hv Hb) as (Hd & _). fold_bind; apply run_reads_bind_ext; [done|].
  intros r3 _. destruct (require_deeper cs d) as [[]|] eqn:Hdeep; [|done].
  pose proof (λ b, enough_next fuel cs d p b He Hd Hdeep) as Hnext.
  fold_bind; apply run_reads_bind_ext; [done|]. intros r4 _. fold_bind; apply run_reads_bind_ext; [by apply IH|].
  intros r5 sel'. fold_bind; apply run_reads_bind_ext; [done|]. intros r6 right_rank. by apply IH.
Qed.

(** The bounds that the model starts with suffice. *)
Lemma path_fuel_enough : enough MAX_MAP_PATH_NODES [].
Proof. unfold enough, MAX_MAP_PATH_NODES. cbn. lia. Qed.
Lemma map_children_two (n : MapNode) : length (node_children n) ≤ 2.
Proof. cbn [node_children map_kind]. unfold map_children. destruct (mn_body n); cbn; lia. Qed.
End Fuel.
