(* ===== verification/MapBuild.v ===== *)
(** * Construction of a whole map

    The order of hashes as strings is the order of their bits, so that the
    sorted entries are those of the trie, and the recursive construction stores
    the nodes of the trie. *)

From S2P Require Import Prelude Identity CommandIndex IndexSound Events CollectionHash.
From S2P Require Import Collections Stores MapNode MapTree Trie MapRefine MapApply MapSound.

Section Order.

(** ** The order of bits and of strings *)

Fixpoint bits_ltb (l k : list bool) : bool :=
  match l, k with
  | a :: l, b :: k => if Bool.eqb a b then bits_ltb l k else negb a
  | _, _ => false
  end.
Lemma bits_ltb_spec l k : bits_ltb l k = true → bits_lt l k.
Proof.
  revert k. induction l as [|a l IH]; intros [|b k]; cbn; try done.
  destruct (Bool.eqb a b) eqn:E.
  - apply eqb_prop in E as <-. intros (q & Hl & Hk)%IH. exists (a :: q).
    split; by apply prefix_cons.
  - destruct a, b; cbn in E |- *; try done. intros _. exists [].
    split; apply prefix_cons, prefix_nil.
Qed.
Lemma bits_lt_app l k x y : bits_lt l k → bits_lt (l ++ x) (k ++ y).
Proof. intros (q & Hl & Hk). exists q. split; by apply prefix_app_r. Qed.
Lemma bits_lt_cancel p l k : bits_lt (p ++ l) (p ++ k) → bits_lt l k.
Proof.
  induction p as [|a p IH]; [done|]. intros (q & Hl & Hk). apply IH.
  destruct q as [|b q]; cbn in Hl, Hk.
  - apply prefix_cons_inv_1 in Hl as <-. by apply prefix_cons_inv_1 in Hk.
  - exists q. split; [by apply prefix_cons_inv_2 in Hl|by apply prefix_cons_inv_2 in Hk].
Qed.
Lemma bits_lt_asym l k : bits_lt l k → bits_lt k l → False.
Proof.
  intros (q & Hl & Hk). revert l k Hl Hk. induction q as [|a q IH]; intros l k Hl Hk (p & Hk' & Hl').
  - destruct l as [|x l], k as [|y k]; try by (apply prefix_nil_inv in Hl || apply prefix_nil_inv in Hk).
    cbn in *. apply prefix_cons_inv_1 in Hl as <-, Hk as <-. destruct p as [|b p]; cbn in *;
      apply prefix_cons_inv_1 in Hk', Hl'; congruence.
  - destruct l as [|x l], k as [|y k]; try by (apply prefix_nil_inv in Hl || apply prefix_nil_inv in Hk).
    cbn in *. pose proof (prefix_cons_inv_1 _ _ _ _ Hl) as <-. pose proof (prefix_cons_inv_1 _ _ _ _ Hk) as <-.
    apply prefix_cons_inv_2 in Hl, Hk. destruct p as [|b p]; cbn in *.
    + apply prefix_cons_inv_1 in Hk', Hl'. congruence.
    + apply prefix_cons_inv_2 in Hk', Hl'. eapply IH; [exact Hl|exact Hk|by exists p].
Qed.

Lemma nibble_order v w : (v < w)%N → (w < 16)%N → bits_lt (nibble_bits v) (nibble_bits w).
Proof.
  intros Hvw Hw. apply bits_ltb_spec.
  assert (Hall : forallb (λ w, forallb (λ v, negb (v <? w)%N || bits_ltb (nibble_bits v) (nibble_bits w)) nibbles)
    nibbles = true) by by vm_compute.
  pose proof (nibble_cases _ w Hall Hw) as Hv. cbn beta in Hv.
  pose proof (nibble_cases _ v Hv ltac:(lia)) as Hc. cbn beta in Hc.
  by rewrite (proj2 (N.ltb_lt v w) Hvw) in Hc.
Qed.
Lemma nibble_byte c d :
  is_hex c → is_hex d → (nibble_of c < nibble_of d)%N → (byte_of c < byte_of d)%N.
Proof.
  unfold is_hex, nibble_of, hex_nibble, is_lower_hex, is_ascii_digit. intros Hc Hd.
  destruct (48 <=? byte_of c)%N eqn:?, (byte_of c <=? 57)%N eqn:?,
    (48 <=? byte_of d)%N eqn:?, (byte_of d <=? 57)%N eqn:?; cbn in *; to_prop;
    repeat case_match; cbn; to_prop; lia.
Qed.

Lemma bits_lt_nil_l l : ¬ bits_lt [] l.
Proof. intros (q & Hq & _). by apply prefix_nil_inv, app_nil in Hq as [_ ?]. Qed.
Lemma bits_lt_nil_r l : ¬ bits_lt l [].
Proof. intros (q & _ & Hq). by apply prefix_nil_inv, app_nil in Hq as [_ ?]. Qed.
Lemma str_le_cons c d s t :
  str_le (String c s) (String d t) ↔ (byte_of c < byte_of d)%N ∨ (c = d ∧ str_le s t).
Proof.
  unfold str_le, String.leb. cbn [String.compare]. unfold Ascii.compare. fold (byte_of c) (byte_of d).
  destruct (N.compare_spec (byte_of c) (byte_of d)) as [He|Hl|Hg].
  - apply byte_of_inj in He as ->. split; [by right|]. intros [?|[_ ?]]; [lia|done].
  - split; [by left|done].
  - split; [done|]. intros [?|[-> _]]; lia.
Qed.
#[export] Instance str_le_trans : Transitive str_le.
Proof.
  intros s. induction s as [|c s IH]; intros t u Hst Htu; [by destruct u|].
  destruct t as [|d t]; [done|]. destruct u as [|e u]; [done|].
  rewrite str_le_cons in *. destruct Hst as [?|[-> ?]], Htu as [?|[-> ?]]; auto; [left; lia|].
  right. split; [done|]. by apply (IH t).
Qed.

Lemma hash_order s t x y :
  Forall is_hex (String.list_ascii_of_string s) → Forall is_hex (String.list_ascii_of_string t) →
  bits_lt (hash_bits s) (hash_bits t) → str_le (s +:+ x) (t +:+ y).
Proof.
  unfold hash_bits. revert t. induction s as [|c s IH]; intros t Hs Ht Hlt.
  - by apply bits_lt_nil_l in Hlt.
  - destruct t as [|d t]; [by apply bits_lt_nil_r in Hlt|]. cbn [String.list_ascii_of_string] in *.
    apply Forall_cons in Hs as [Hc Hs], Ht as [Hd Ht]. rewrite !list_bits_cons in Hlt.
    change (str_le (String c (s +:+ x)) (String d (t +:+ y))). apply str_le_cons.
    destruct (hex_nibble_lt c Hc) as (v & Hv & Hv16). destruct (hex_nibble_lt d Hd) as (w & Hw & Hw16).
    apply nibble_of_Some in Hv, Hw. subst v w.
    destruct (N.lt_trichotomy (nibble_of c) (nibble_of d)) as [Hn|[Hn|Hn]].
    + left. by apply nibble_byte.
    + apply nibble_of_inj in Hn as ->; [|done..]. right. split; [done|]. apply IH; [done..|].
      by apply bits_lt_cancel in Hlt.
    + exfalso. eapply bits_lt_asym; [exact Hlt|]. by apply bits_lt_app, nibble_order.
Qed.
End Order.

(** ** Sorting by a key *)

Section Sorting.
Context {A : Type} (key : A → string).

Definition key_order (a b : A) : Prop := str_le (key a) (key b).
Lemma insert_by_key_sorted x l :
  StronglySorted key_order l → StronglySorted key_order (insert_by_key key x l).
Proof.
  induction 1 as [|y l Hl IH Hy]; cbn; [repeat constructor|].
  destruct (String.leb (key x) (key y)) eqn:E.
  - constructor; [by constructor|]. constructor; [done|]. eapply Forall_impl; [exact Hy|].
    intros z Hz. exact (str_le_trans _ _ _ E Hz).
  - constructor; [done|]. rewrite insert_by_key_perm. constructor; [|done].
    destruct (str_le_total (key x) (key y)) as [Hle|Hle]; [|done]. unfold str_le in Hle. congruence.
Qed.
Lemma sort_by_key_sorted l : StronglySorted key_order (sort_by_key key l).
Proof. induction l as [|x l IH]; cbn; [constructor|by apply insert_by_key_sorted]. Qed.
(** Sorting a permutation of a list with different keys gives that list. *)
Lemma sort_by_key_unique l k :
  l ≡ₚ k → StronglySorted key_order k →
  (∀ a b, a ∈ k → b ∈ k → key a = key b → a = b) → sort_by_key key l = k.
Proof.
  intros Hp Hk Hinj. apply (StronglySorted_unique_strong key_order); [|apply sort_by_key_sorted|done|].
  - intros a b Ha Hb Hab Hba. rewrite sort_by_key_perm, Hp in Ha. apply Hinj; [done..|].
    by apply str_le_antisym.
  - by rewrite sort_by_key_perm.
Qed.
End Sorting.

(** ** The recursive construction *)

Section Build.
Context `{Sha256}.

Definition entry_of (kv : string * string) : MapBuildEntry :=
  {| be_key_hash := key_digest kv.1; be_key := kv.1; be_value := kv.2 |}.
Definition sort_entry (kv : string * string) : string * MapBuildEntry :=
  (key_digest kv.1 +:+ kv.1, entry_of kv).

Lemma sorted_contents m :
  hash_distinct (dom m) → ∀ l, l ≡ₚ map_to_list m →
  (sort_by_key fst (sort_entry <$> l)).*2 = entry_of <$> contents_list m.
Proof.
  intros Hd l Hl. destruct (contents_list_spec m Hd) as [Hp Hs].
  rewrite (sort_by_key_unique fst _ (sort_entry <$> contents_list m)).
  - by rewrite <-list_fmap_compose.
  - by rewrite Hl, Hp.
  - clear Hp. induction Hs as [|kv k Hs IH Hkv]; cbn; constructor; [done|].
    apply Forall_fmap. eapply Forall_impl; [exact Hkv|]. intros kw Hlt.
    apply hash_order; [apply key_digest_digest..|exact Hlt].
  - intros a b (x & -> & Hx)%list_elem_of_fmap (y & -> & Hy)%list_elem_of_fmap Heq.
    cbn [sort_entry fst] in Heq. assert (Hxy : x.1 = y.1).
    { apply append_inj in Heq as [_ Heq]; [done|]. by rewrite !(digest_short _ (key_digest_digest _)). }
    rewrite Hp in Hx, Hy. destruct x as [k v], y as [k' v']. cbn in Hxy. subst k'.
    apply elem_of_map_to_list in Hx, Hy. congruence.
Qed.

Lemma split_at_spec d l r q :
  d < 256 → length q = d → under (q ++ [false]) l → under (q ++ [true]) r →
  split_at d (entry_of <$> tlist l ++ tlist r) = Ok (length (tlist l)).
Proof.
  intros Hd Hq Hl Hr.
  assert (Hbit : ∀ kv b t, under (q ++ [b]) t → kv ∈ tlist t → hash_bit (key_digest kv.1) d = Ok b).
  { intros kv b t Ht Hkv. destruct (hash_bit_spec _ _ (key_digest_digest kv.1) Hd) as (b' & Hb & ->).
    apply (list_elem_of_fmap_2 fst) in Hkv. eapply under_bit in Hkv; [|exact Ht].
    rewrite Hq in Hkv. unfold key_bits in Hkv. congruence. }
  assert (Hall : ∀ kv, kv ∈ tlist l → hash_bit (key_digest kv.1) d = Ok false) by eauto.
  clear Hl. induction (tlist l) as [|kv k IH];
    cbn [app fmap list_fmap split_at entry_of be_key_hash length].
  - pose proof (tfirst_in r) as Hf. destruct (tlist r) as [|kv k] eqn:Hk; [by apply elem_of_nil in Hf|].
    cbn [fmap list_fmap split_at entry_of be_key_hash].
    by rewrite (Hbit kv true r Hr) by (rewrite Hk; by left).
  - rewrite Hall by by left. cbn [mbind result_bind]. rewrite IH; [done|]. intros; apply Hall. by right.
Qed.

Lemma store_built_spec U objects t :
  twf t → tvalid t → distinct_ids U → keyed U objects → U (trie_node t) →
  ∃ objects', store_built objects (trie_node t) = Ok (objects', trie_ref t)
    ∧ keyed U objects' ∧ added objects objects' [trie_node t].
Proof.
  intros Hwf Hv Hd Hk Hu. apply (store_built_known U); try done; [by apply trie_node_ok|by apply trie_node_ref].
Qed.

(** ** One step of the construction *)

Lemma tlist_head t : ∃ v l, tlist t = (tfirst t, v) :: l.
Proof.
  induction t as [k v|d l (v & k & Hl) r _]; cbn; [by exists v, []|]. rewrite Hl. by eexists _, _.
Qed.
Lemma tlist_last t : ∃ kv, last (tlist t) = Some kv ∧ kv.1 ∈ (tlist t).*1.
Proof.
  destruct (last (tlist t)) as [kv|] eqn:Hl.
  - exists kv. split; [done|]. apply list_elem_of_fmap_2. by apply last_Some_elem_of.
  - apply last_None in Hl. destruct (tlist_head t) as (v & l & Ht). congruence.
Qed.
(** Keys on the two sides of a fork part at its depth. *)
Lemma sides_part q l r j k :
  length q < 256 → under (q ++ [false]) l → under (q ++ [true]) r → j ∈ (tlist l).*1 → k ∈ (tlist r).*1 →
  common (key_bits j) (key_bits k) = length q ∧ key_digest j ≠ key_digest k.
Proof.
  intros Hq Hl Hr Hj Hk.
  pose proof (under_bit _ _ _ _ Hl Hj) as Hbl. pose proof (under_bit _ _ _ _ Hr Hk) as Hbr.
  pose proof (under_take _ _ _ _ Hl Hj) as Htl. pose proof (under_take _ _ _ _ Hr Hk) as Htr. split.
  - apply Nat.le_antisymm.
    + destruct (decide (common (key_bits j) (key_bits k) ≤ length q)) as [|Hn]; [done|]. exfalso.
      pose proof (common_take (key_bits j) (key_bits k)) as Ht.
      apply (f_equal (lookup (length q))) in Ht. rewrite !lookup_take_lt in Ht by lia. congruence.
    + apply common_prefix_le; rewrite ?key_bits_length; [lia..|congruence].
  - intros Heq. unfold key_bits in *. rewrite Heq in Hbl. congruence.
Qed.
Lemma build_unfold fuel objects first rest final d split :
  rest ≠ [] → last (first :: rest) = Some final → be_key_hash first ≠ be_key_hash final →
  common_prefix_bits (be_key_hash first) (be_key_hash final) = Ok d →
  split_at d (first :: rest) = Ok split → 0 < split < length (first :: rest) →
  build_map_subtree (S fuel) objects (first :: rest) =
    lbuilt ← build_map_subtree fuel objects (take split (first :: rest));
    let '(objects, lref) := (lbuilt : gmap string MapNode * NodeRef) in
    rbuilt ← build_map_subtree fuel objects (drop split (first :: rest));
    let '(objects, rref) := (rbuilt : gmap string MapNode * NodeRef) in
    prefix ← normalized_hash_prefix (be_key_hash first) d;
    node ← MapNode_from_body (MapBranch d prefix lref rref);
    store_built objects node.
Proof.
  intros Hr Hl Hne Hc Hs Hlen. destruct rest as [|second rest]; [done|].
  cbn [build_map_subtree]. rewrite Hl. cbn [ok_or mbind result_bind].
  rewrite bool_decide_eq_false_2 by done. cbn [negb require mbind result_bind].
  rewrite Hc. cbn [mbind result_bind]. rewrite Hs. cbn [mbind result_bind].
  rewrite (proj2 (Nat.eqb_neq split (length _))) by lia. cbn [negb require mbind result_bind].
  rewrite (proj2 (Nat.eqb_neq split 0)) by lia. done.
Qed.
Lemma build_step fuel objects d l r q :
  d < 256 → length q = d → under (q ++ [false]) l → under (q ++ [true]) r →
  build_map_subtree (S fuel) objects (entry_of <$> tlist (Fork d l r)) =
    lbuilt ← build_map_subtree fuel objects (entry_of <$> tlist l);
    let '(objects, lref) := (lbuilt : gmap string MapNode * NodeRef) in
    rbuilt ← build_map_subtree fuel objects (entry_of <$> tlist r);
    let '(objects, rref) := (rbuilt : gmap string MapNode * NodeRef) in
    prefix ← normalized_hash_prefix (key_digest (tfirst l)) d;
    node ← MapNode_from_body (MapBranch d prefix lref rref);
    store_built objects node.
Proof.
  intros Hd Hq Hl Hr. pose proof (split_at_spec d l r q Hd Hq Hl Hr) as Hsplit.
  destruct (tlist_last r) as (kv & Hlast & Hin). destruct (tlist_head l) as (v & rest & Hhead).
  destruct (sides_part q l r (tfirst l) kv.1) as [Hc Hne]; [lia|done|done|apply tfirst_in|done|].
  pose proof (tsize_pos r) as Hpr. unfold tsize in Hpr. cbn [tlist].
  assert (Hent : entry_of <$> tlist l ++ tlist r = entry_of (tfirst l, v) :: (entry_of <$> rest ++ tlist r)).
  { by rewrite Hhead. }
  rewrite Hent in *. rewrite (build_unfold _ _ _ _ (entry_of kv) d (length (tlist l))).
  - rewrite <-Hent, fmap_app. rewrite <-(length_fmap entry_of), take_app_length, drop_app_length. done.
  - intros Hnil%fmap_nil_inv%app_nil. destruct Hnil as [_ Hnil]. rewrite Hnil in Hpr. cbn in Hpr. lia.
  - rewrite <-Hent, fmap_app, last_app, fmap_last, Hlast. done.
  - exact Hne.
  - rewrite <-Hq, <-Hc. apply common_prefix_spec; apply key_digest_digest.
  - exact Hsplit.
  - rewrite <-Hent, length_fmap, length_app, Hhead. cbn. lia.
Qed.

Lemma build_spec U t objects fuel :
  distinct_ids U → twf t → tvalid t → tsize t ≤ fuel → keyed U objects →
  (∀ n, n ∈ trie_nodes t → U n) →
  ∃ objects', build_map_subtree fuel objects (entry_of <$> tlist t) = Ok (objects', trie_ref t)
    ∧ keyed U objects' ∧ added objects objects' (trie_nodes t).
Proof.
  intros Hd. revert objects fuel. induction t as [k v|d l IHl r IHr];
    intros objects fuel Hwf Hv Hfuel Hk Hu; pose proof (trie_nodes_self) as Hself.
  - destruct fuel as [|fuel]; [cbn in Hfuel; lia|].
    destruct (store_built_spec U objects (Tip k v) Hwf Hv Hd Hk) as (o & Ho & Hko & Ha); [by apply Hu, Hself|].
    exists o. split; [|done]. cbn [tlist fmap list_fmap build_map_subtree entry_of be_key be_key_hash be_value].
    change (MapLeaf (k, v).1 (key_digest (k, v).1) (k, v).2) with (trie_body (Tip k v)).
    unfold MapNode_from_body. fold (trie_node (Tip k v)).
    rewrite (proj1 (trie_node_ok _ Hwf Hv)). exact Ho.
  - pose proof Hwf as (Hwl & Hwr & Hd' & q & Hq & Hul & Hur). pose proof Hv as [Hvl Hvr]%tvalid_fork.
    rewrite tsize_fork in Hfuel. pose proof (tsize_pos l) as Hpl. pose proof (tsize_pos r) as Hpr.
    rewrite trie_nodes_fork in Hu. setoid_rewrite elem_of_cons in Hu. setoid_rewrite elem_of_app in Hu.
    destruct fuel as [|fuel]; [lia|].
    destruct (IHl objects fuel) as (o1 & H1 & Hk1 & Ha1); [done|done|lia|done|auto|].
    destruct (IHr o1 fuel) as (o2 & H2 & Hk2 & Ha2); [done|done|lia|done|auto|].
    destruct (store_built_spec U o2 (Fork d l r) Hwf Hv Hd Hk2) as (o3 & H3 & Hk3 & Ha3); [auto|].
    exists o3. split; [|split; [done|]].
    2: { intros id n. rewrite (Ha3 id n), (Ha2 id n), (Ha1 id n), trie_nodes_fork, list_elem_of_singleton,
      elem_of_cons, elem_of_app. tauto. }
    rewrite (build_step fuel objects d l r q) by done. rewrite H1. cbn [mbind result_bind]. rewrite H2.
    cbn [mbind result_bind]. destruct (tprefix_spec d (tfirst l) Hd') as (_ & -> & _). cbn [mbind result_bind].
    change (MapBranch d (tprefix d (tfirst l)) (trie_ref l) (trie_ref r)) with (trie_body (Fork d l r)).
    unfold MapNode_from_body. fold (trie_node (Fork d l r)).
    rewrite (proj1 (trie_node_ok _ Hwf Hv)). exact H3.
Qed.

(** ** The whole map *)

Lemma build_entries_spec entries :
  Forall entry_valid entries → NoDup entries.*1 →
  ∃ keys, try_fold build_entry (∅, []) entries = Ok (keys, sort_entry <$> entries).
Proof.
  intros Hv Hn. enough (∀ keys ordered, (∀ k, k ∈ entries.*1 → k ∉ keys) →
    ∃ keys', try_fold build_entry (keys, ordered) entries = Ok (keys', ordered ++ (sort_entry <$> entries))) as Hg.
  { apply (Hg ∅ []). set_solver. }
  induction entries as [|[k v] entries IH]; intros keys ordered Hk.
  - exists keys. cbn. by rewrite app_nil_r.
  - apply Forall_cons in Hv as [[Hkey Hval] Hv]. cbn [fmap list_fmap fst] in Hn, Hk.
    apply NoDup_cons in Hn as [Hnin Hn]. cbn [fst snd] in Hkey, Hval.
    cbn [try_fold build_entry]. rewrite Hkey. cbn [mbind result_bind]. rewrite Hval.
    cbn [mbind result_bind]. rewrite bool_decide_eq_true_2 by (apply Hk; by left).
    cbn [require mbind result_bind]. rewrite map_key_hash_eq by done. cbn [mbind result_bind].
    destruct (IH Hv Hn ({[k]} ∪ keys)
      (ordered ++ [(key_digest k +:+ k, {| be_key_hash := key_digest k; be_key := k; be_value := v |})]))
      as [keys' Hkeys].
    + intros j Hj. assert (j ≠ k) by (intros ->; done). specialize (Hk j). set_solver.
    + exists keys'. rewrite Hkeys. by rewrite <-(assoc (++)).
Qed.

Lemma build_map_spec U entries :
  Forall entry_valid entries → NoDup entries.*1 → (N.of_nat (length entries) ≤ MAX_EXACT_INTEGER)%N →
  let m := list_to_map entries in
  hash_distinct (dom m) → distinct_ids U → (∀ n, n ∈ contents_nodes m → U n) →
  ∃ objects, build_map entries = Ok (root_of_contents m, objects)
    ∧ ∀ n, n ∈ objects ↔ n ∈ contents_nodes m.
Proof.
  intros Hv Hn Hlen m Hh Hd Hu. unfold build_map. rewrite (proj2 (N.leb_le _ _)) by done.
  cbn [require mbind result_bind]. case_bool_decide as Hnil; [subst; by exists []|].
  destruct (build_entries_spec entries Hv Hn) as [keys ->]. cbn [mbind result_bind snd].
  pose proof (map_to_list_to_map (M := gmap string) entries Hn) as Hp. fold m in Hp.
  pose proof (list_contents_valid entries Hv Hn Hlen) as Hval. fold m in Hval.
  rewrite (sorted_contents m Hh) by done.
  pose proof (trie_of_spec m Hh) as [Hwf Hm]. pose proof (λ t, contents_tvalid m t Hh Hval) as Htv.
  pose proof (root_verify m Hh Hval) as Hroot.
  destruct (contents_list_spec m Hh) as [Hcl _]. rewrite Hp in Hcl. apply Permutation_length in Hcl.
  unfold root_of_contents, contents_nodes, contents_list in *.
  destruct (trie_of m) as [t|]; cbn [map_root opt_nodes otwf] in *.
  2: { destruct entries; [done|]. cbn in Hcl. lia. }
  destruct (build_spec U t ∅ (length (entry_of <$> tlist t)) Hd Hwf (Htv t eq_refl))
    as (objects & -> & _ & Ha); [by rewrite length_fmap|by intros id n|done|].
  cbn [mbind result_bind trie_ref mc_object_id mc_entries]. rewrite Hroot. cbn [mbind result_bind mr_entries].
  fold (tsize t) in Hcl. rewrite Hcl, N.eqb_refl. cbn [require mbind result_bind].
  eexists. split; [done|]. intros n. rewrite elem_of_btree_values. split.
  - intros [id Hid%Ha]. destruct Hid as [Hid|[? _]]; [by rewrite lookup_empty in Hid|done].
  - intros Hin. exists (mn_object_id n). apply Ha. by right.
Qed.
End Build.
