(* ===== verification/LogNode.v ===== *)
(** * Nodes of the authenticated log

    Models the data of [log.rs] in
    [crates/cymule-authenticated-collections/src]: roots of ordered AVL logs
    and nodes with their content identities.  Repeated values are significant:
    a log is a sequence, not a set.  Lengths are [u64]s and heights [u8]s. *)

From S2P Require Import Prelude Identity CommandIndex CollectionHash Collections.

(** ** Bounds ([lib.rs]) *)

Definition LOG_FANOUT : nat := 32.
Definition MAX_LOG_HEIGHT : nat := 76.
Definition MAX_LOG_MUTATIONS_PER_APPLY : nat := 256.
Definition MAX_LOG_VALUES_PER_APPLY : N := 256.
Definition MAX_LOG_PREFIX_REPLACEMENT_VALUES : nat := 16.
Definition LOG_NODE_VERSION : string := "cymule.authenticated-log-node/1".
Definition LOG_EMPTY_VERSION : string := "cymule.authenticated-log-empty/1".
Definition LOG_MUTATION_VERSION : string := "cymule.authenticated-log-mutation/1".

(** [u8::checked_add] and [u8::abs_diff] *)
Definition checked_add_u8 (a b : N) : option N := if decide (a + b ≤ 255)%N then Some (a + b)%N else None.
Definition abs_diff (a b : N) : N := if (a <=? b)%N then (b - a)%N else (a - b)%N.

(** ** Roots and nodes *)

Record LogRoot := {
  lr_node : option string; lr_len : N; lr_height : N; lr_ordered_root : string;
}.
#[export] Instance LogRoot_eq_dec : EqDecision LogRoot.
Proof. solve_decision. Defined.

Record LogChild := { lc_object_id : string; lc_len : N; lc_height : N }.
#[export] Instance LogChild_eq_dec : EqDecision LogChild.
Proof. solve_decision. Defined.
(** [NodeRef] has the fields of [LogChild]; [into_child] and [From] copy them. *)
Abbreviation LogRef := LogChild.
Definition LogChild_verify (c : LogChild) : coll () :=
  _ ← validate_collection_id (lc_object_id c);
  require (negb ((lc_len c =? 0)%N || (MAX_EXACT_INTEGER <? lc_len c)%N
                 || (lc_height c =? 0)%N || (N.of_nat MAX_LOG_HEIGHT <? lc_height c)%N)) BadShape.

Inductive LogNodeBody :=
| LogLeaf (values : list string)
| LogBranch (lchild rchild : LogChild).
#[export] Instance LogNodeBody_eq_dec : EqDecision LogNodeBody.
Proof. solve_decision. Defined.
Record LogNode := { ln_version : string; ln_object_id : string; ln_body : LogNodeBody }.
#[export] Instance LogNode_eq_dec : EqDecision LogNode.
Proof. solve_decision. Defined.

(** [value_count] *)
Definition LogNode_value_count (n : LogNode) : coll N :=
  match ln_body n with
  | LogLeaf values => Ok (N.of_nat (length values))
  | LogBranch lchild rchild =>
      ok_or (opt_filter (λ len, len <=? MAX_EXACT_INTEGER)%N
               (checked_add (lc_len lchild) (lc_len rchild))) BadShape
  end.
(** [height] *)
Definition LogNode_height (n : LogNode) : coll N :=
  height ← match ln_body n with
           | LogLeaf _ => Ok 1%N
           | LogBranch lchild rchild =>
               ok_or (checked_add_u8 (N.max (lc_height lchild) (lc_height rchild)) 1) BadShape
           end;
  _ ← require (height <=? N.of_nat MAX_LOG_HEIGHT)%N BadShape;
  Ok height.

(** The fields of the preimage of a node. *)
Definition log_node_fields (body : LogNodeBody) : list string :=
  match body with
  | LogLeaf values => "leaf" :: to_be_bytes 8 (N.of_nat (length values)) :: values
  | LogBranch lchild rchild =>
      ["branch"; lc_object_id lchild; to_be_bytes 8 (lc_len lchild); to_be_bytes 1 (lc_height lchild);
       lc_object_id rchild; to_be_bytes 8 (lc_len rchild); to_be_bytes 1 (lc_height rchild)]
  end.

(** [logical_bytes] *)
Definition LogNode_logical_bytes (n : LogNode) : coll N :=
  ok_or (sum_checked ([byte_len (ln_version n); byte_len (ln_object_id n)]
    ++ match ln_body n with
       | LogLeaf values => byte_len <$> values
       | LogBranch lchild rchild =>
           [byte_len (lc_object_id lchild); byte_len (lc_object_id rchild); 32%N]
       end)) BadShape.

Section Nodes.
Context `{Sha256}.

Definition empty_log_commitment : string :=
  hash_identifier LOG_EMPTY_VERSION ["empty"; to_be_bytes 8 0].
Definition LogRoot_empty : LogRoot :=
  {| lr_node := None; lr_len := 0; lr_height := 0; lr_ordered_root := empty_log_commitment |}.
Definition LogRoot_verify (r : LogRoot) : coll () :=
  if (lr_len r =? 0)%N then
    require (negb (bool_decide (is_Some (lr_node r)) || negb (lr_height r =? 0)%N
                   || negb (bool_decide (lr_ordered_root r = empty_log_commitment)))) BadShape
  else
    node ← ok_or (lr_node r) BadShape;
    _ ← validate_collection_id node;
    require (negb ((MAX_EXACT_INTEGER <? lr_len r)%N || (lr_height r =? 0)%N
                   || (N.of_nat MAX_LOG_HEIGHT <? lr_height r)%N
                   || negb (bool_decide (lr_ordered_root r = node)))) BadShape.

Definition log_node_id (body : LogNodeBody) : string :=
  hash_identifier LOG_NODE_VERSION (log_node_fields body).

Definition LogNode_verify (n : LogNode) : coll () :=
  _ ← require (bool_decide (ln_version n = LOG_NODE_VERSION)) BadShape;
  _ ← match ln_body n with
      | LogLeaf values =>
          _ ← require (negb ((length values =? 0) || (LOG_FANOUT <? length values))) BadShape;
          try_each validate_collection_id values
      | LogBranch lchild rchild =>
          _ ← LogChild_verify lchild;
          _ ← LogChild_verify rchild;
          _ ← require (abs_diff (lc_height lchild) (lc_height rchild) <=? 1)%N BadShape;
          _ ← LogNode_value_count n;
          _ ← LogNode_height n;
          Ok ()
      end;
  require (bool_decide (ln_object_id n = log_node_id (ln_body n)))
    (Integrity "log_node_identity_mismatch").

Definition LogNode_from_body (body : LogNodeBody) : coll LogNode :=
  let node := {| ln_version := LOG_NODE_VERSION; ln_object_id := log_node_id body;
                 ln_body := body |} in
  _ ← LogNode_verify node;
  Ok node.

(** ** References of roots *)

Definition root_ref (root : LogRoot) : coll (option LogRef) :=
  _ ← LogRoot_verify root;
  Ok ((λ id, {| lc_object_id := id; lc_len := lr_len root; lc_height := lr_height root |})
        <$> lr_node root).
Definition ref_root (ref : option LogRef) : coll LogRoot :=
  match ref with
  | None => Ok LogRoot_empty
  | Some ref =>
      let root := {| lr_node := Some (lc_object_id ref); lr_len := lc_len ref;
                     lr_height := lc_height ref; lr_ordered_root := lc_object_id ref |} in
      _ ← LogRoot_verify root;
      Ok root
  end.

(** ** Log nodes as a kind *)

Definition log_children (n : LogNode) : list LogRef :=
  match ln_body n with LogBranch lchild rchild => [lchild; rchild] | LogLeaf _ => [] end.
Definition log_node_ref (n : LogNode) : coll LogRef :=
  len ← LogNode_value_count n;
  height ← LogNode_height n;
  Ok {| lc_object_id := ln_object_id n; lc_len := len; lc_height := height |}.
(** [value_count()? != len || height()? != height] *)
Definition log_same_counts (n : LogNode) (ref : LogRef) : coll bool :=
  len ← LogNode_value_count n;
  if (len =? lc_len ref)%N then height ← LogNode_height n; Ok (height =? lc_height ref)%N
  else Ok false.

#[export] Instance log_kind : Kind LogRef LogNode := {|
  kind_name := "log";
  node_id := ln_object_id;
  node_verify := LogNode_verify;
  node_children := log_children;
  node_bytes := LogNode_logical_bytes;
  node_ref := log_node_ref;
  ref_id := lc_object_id;
  same_counts := log_same_counts;
  counts_code := "child_shape_mismatch";
|}.
End Nodes.

Abbreviation LogReads := (ReadsOf LogRef LogNode).
Abbreviation LogProg := (ProgOf LogRef LogNode).
