(* ===== verification/LogTree.v ===== *)
(** * Operations of the authenticated log

    Models the algorithms of [log.rs] in
    [crates/cymule-authenticated-collections/src] on a height-balanced tree of
    leaves: exact lookup, concatenation and splitting, batches of mutations,
    and the construction of a whole log.

    A verified branch is one higher than its higher child, so that a recursion
    which descends from a reference needs no more steps than its height. *)

From S2P Require Import Prelude Identity CommandIndex CollectionHash Collections LogNode.

Definition fuel_of (ref : LogRef) : nat := S (N.to_nat (lc_height ref)).

(** ** Lookup *)

(** The loop of [get_log_value] and [overlay_get]; the two functions differ in
    how a node is loaded, which is a request here. *)
Fixpoint get_path (fuel : nat) (ref : LogRef) (index : N) : LogReads string :=
  match fuel with
  | O => ReadDone (Err (Integrity "log_path_bound_exceeded"))
  | S fuel => ReadNode ref (λ node,
      match ln_body node with
      | LogLeaf values =>
          ReadDone (ok_or (values !! N.to_nat index) (Integrity "log_leaf_index_mismatch"))
      | LogBranch lchild rchild =>
          if (index <? lc_len lchild)%N then get_path fuel lchild index
          else
            index ← ReadDone (ok_or (checked_sub index (lc_len lchild)) (Integrity "log_index_underflow"));
            get_path fuel rchild index
      end)
  end.

Section Operations.
Context `{Sha256}.

Definition get_log_value (root : LogRoot) (index : N) : LogReads string :=
  ref ← ReadDone (root_ref root);
  ref ← ReadDone (ok_or ref BadShape);
  get_path (S MAX_LOG_HEIGHT) ref index.
Definition overlay_get (root : LogRoot) (index : N) : LogProg string :=
  _ ← Done (require (index <? lr_len root)%N MutationConflict);
  ref ← Done (root_ref root);
  ref ← Done (ok_or ref MutationConflict);
  reading (get_path (S MAX_LOG_HEIGHT) ref index).

(** ** Balanced branches *)

Definition store_leaf (values : list string) : LogProg LogRef :=
  node ← Done (LogNode_from_body (LogLeaf values));
  Store node mret.
Definition branch_children (ref : LogRef) : LogProg (LogRef * LogRef) :=
  Load ref (λ node,
    match ln_body node with
    | LogBranch lchild rchild => mret (lchild, rchild)
    | LogLeaf _ => Done (Err (Integrity "log_expected_branch"))
    end).
Definition make_branch (lref rref : LogRef) : LogProg LogRef :=
  _ ← Done (require (abs_diff (lc_height lref) (lc_height rref) <=? 1)%N
              (Integrity "log_unbalanced_branch_construction"));
  node ← Done (LogNode_from_body (LogBranch lref rref));
  Store node mret.
Definition balance_refs (lref rref : LogRef) : LogProg LogRef :=
  if (abs_diff (lc_height lref) (lc_height rref) <=? 1)%N then make_branch lref rref
  else if (lc_height rref <? lc_height lref)%N then
    children ← branch_children lref;
    let '(left_left, left_right) := (children : LogRef * LogRef) in
    if (lc_height left_right <=? lc_height left_left)%N then
      rotated_right ← make_branch left_right rref;
      make_branch left_left rotated_right
    else
      middle ← branch_children left_right;
      let '(middle_left, middle_right) := (middle : LogRef * LogRef) in
      rotated_left ← make_branch left_left middle_left;
      rotated_right ← make_branch middle_right rref;
      make_branch rotated_left rotated_right
  else
    children ← branch_children rref;
    let '(right_left, right_right) := (children : LogRef * LogRef) in
    if (lc_height right_left <=? lc_height right_right)%N then
      rotated_left ← make_branch lref right_left;
      make_branch rotated_left right_right
    else
      middle ← branch_children right_left;
      let '(middle_left, middle_right) := (middle : LogRef * LogRef) in
      rotated_left ← make_branch lref middle_left;
      rotated_right ← make_branch middle_right right_right;
      make_branch rotated_left rotated_right.

(** ** Concatenation *)

(** The last case of [join_refs]: two short leaves merge. *)
Definition join_level (lref rref : LogRef) : LogProg LogRef :=
  if (lc_height lref =? 1)%N && (lc_height rref =? 1)%N then
    Load lref (λ left_node, Load rref (λ right_node,
      match ln_body left_node, ln_body right_node with
      | LogLeaf left_values, LogLeaf right_values =>
          if length left_values + length right_values <=? LOG_FANOUT
          then store_leaf (left_values ++ right_values)
          else make_branch lref rref
      | _, _ => make_branch lref rref
      end))
  else make_branch lref rref.
(** [join_refs]; every call lowers one of the two heights. *)
Fixpoint join_within (fuel : nat) (lref rref : LogRef) : LogProg LogRef :=
  match fuel with
  | O => Done (Err CollectionPanic)
  | S fuel =>
      right_limit ← Done (ok_or (checked_add_u8 (lc_height rref) 1) BadShape);
      if (right_limit <? lc_height lref)%N then
        children ← branch_children lref;
        let '(left_left, left_right) := (children : LogRef * LogRef) in
        joined ← join_within fuel left_right rref;
        balance_refs left_left joined
      else
        left_limit ← Done (ok_or (checked_add_u8 (lc_height lref) 1) BadShape);
        if (left_limit <? lc_height rref)%N then
          children ← branch_children rref;
          let '(right_left, right_right) := (children : LogRef * LogRef) in
          joined ← join_within fuel lref right_left;
          balance_refs joined right_right
        else join_level lref rref
  end.
Definition join_refs (lref rref : LogRef) : LogProg LogRef :=
  join_within (fuel_of lref + fuel_of rref) lref rref.

Definition concat_optional (lref rref : option LogRef) : LogProg (option LogRef) :=
  match lref, rref with
  | None, value | value, None => mret value
  | Some lref, Some rref => joined ← join_refs lref rref; mret (Some joined)
  end.
Definition concat_roots (lroot rroot : LogRoot) : LogProg LogRoot :=
  lref ← Done (root_ref lroot);
  rref ← Done (root_ref rroot);
  match lref, rref with
  | None, value | value, None => Done (ref_root value)
  | Some lref, Some rref => joined ← join_refs lref rref; Done (ref_root (Some joined))
  end.
Fixpoint append_values (root : LogRoot) (values : list string) : LogProg LogRoot :=
  match values with
  | [] => mret root
  | value :: values =>
      leaf ← store_leaf [value];
      leaf ← Done (ref_root (Some leaf));
      next ← concat_roots root leaf;
      append_values next values
  end.

(** ** Splitting *)

Fixpoint split_within (fuel : nat) (ref : LogRef) (index : N) : LogProg (option LogRef * option LogRef) :=
  match fuel with
  | O => Done (Err CollectionPanic)
  | S fuel =>
      if (index =? 0)%N then mret (None, Some ref)
      else if (index =? lc_len ref)%N then mret (Some ref, None)
      else if (lc_len ref <? index)%N then Done (Err (Integrity "log_split_range_mismatch"))
      else Load ref (λ node,
        match ln_body node with
        | LogLeaf values =>
            let index := N.to_nat index in
            lref ← (if index =? 0 then mret None
                    else leaf ← store_leaf (take index values); mret (Some leaf));
            rref ← (if index =? length values then mret None
                    else leaf ← store_leaf (drop index values); mret (Some leaf));
            mret (lref, rref)
        | LogBranch lchild rchild =>
            match (index ?= lc_len lchild)%N with
            | Lt =>
                parts ← split_within fuel lchild index;
                let '(prefix, remainder) := (parts : option LogRef * option LogRef) in
                suffix ← concat_optional remainder (Some rchild);
                mret (prefix, suffix)
            | Eq => mret (Some lchild, Some rchild)
            | Gt =>
                offset ← Done (ok_or (checked_sub index (lc_len lchild))
                                 (Integrity "log_split_index_underflow"));
                parts ← split_within fuel rchild offset;
                let '(prefix_tail, suffix) := (parts : option LogRef * option LogRef) in
                prefix ← concat_optional (Some lchild) prefix_tail;
                mret (prefix, suffix)
            end
        end)
  end.
Definition split_ref (ref : LogRef) (index : N) : LogProg (option LogRef * option LogRef) :=
  split_within (fuel_of ref) ref index.
Definition split_root (root : LogRoot) (index : N) : LogProg (LogRoot * LogRoot) :=
  _ ← Done (require (index <=? lr_len root)%N BadShape);
  ref ← Done (root_ref root);
  match ref with
  | None => mret (LogRoot_empty, LogRoot_empty)
  | Some ref =>
      parts ← split_ref ref index;
      let '(lref, rref) := (parts : option LogRef * option LogRef) in
      lroot ← Done (ref_root lref);
      rroot ← Done (ref_root rref);
      mret (lroot, rroot)
  end.
End Operations.

(** ** Mutations *)

Inductive LogMutation :=
| LogAppend (values : list string)
| InsertAt (index : N) (value : string)
| ReplaceAt (index : N) (expected value : string)
| ReplacePrefix (count : N) (expected_prefix : LogRoot) (replacement : list string)
| RemoveAt (index : N) (expected : string).
#[export] Instance LogMutation_eq_dec : EqDecision LogMutation.
Proof. solve_decision. Defined.

(** The values and the bytes of a mutation that [validate_mutations] counts. *)
Definition log_mutation_values (mutation : LogMutation) : N :=
  match mutation with
  | LogAppend values => N.of_nat (length values)
  | ReplacePrefix _ _ replacement => N.of_nat (length replacement)
  | InsertAt _ _ | ReplaceAt _ _ _ | RemoveAt _ _ => 1
  end.
Definition log_mutation_bytes (mutation : LogMutation) : coll N :=
  ok_or (sum_checked match mutation with
    | LogAppend values => byte_len <$> values
    | InsertAt _ value => [byte_len value]
    | ReplaceAt _ expected value => [byte_len expected; byte_len value]
    | ReplacePrefix _ expected_prefix replacement =>
        match lr_node expected_prefix with Some node => byte_len node | None => 0%N end
          :: byte_len (lr_ordered_root expected_prefix) :: (byte_len <$> replacement)
    | RemoveAt _ expected => [byte_len expected]
    end) BadShape.
Definition log_mutation_fields (mutation : LogMutation) : list string :=
  match mutation with
  | LogAppend values => "append" :: to_be_bytes 8 (N.of_nat (length values)) :: values
  | RemoveAt index expected => ["remove_at"; to_be_bytes 8 index; expected]
  | InsertAt index value => ["insert_at"; to_be_bytes 8 index; value]
  | ReplaceAt index expected value => ["replace_at"; to_be_bytes 8 index; expected; value]
  | ReplacePrefix count expected_prefix replacement =>
      "replace_prefix" :: to_be_bytes 8 count :: default EmptyString (lr_node expected_prefix)
        :: to_be_bytes 8 (lr_len expected_prefix) :: to_be_bytes 1 (lr_height expected_prefix)
        :: lr_ordered_root expected_prefix :: to_be_bytes 8 (N.of_nat (length replacement))
        :: replacement
  end.

Section Mutations.
Context `{Sha256}.

(** [LogMutation::verify] *)
Definition LogMutation_verify (mutation : LogMutation) : coll () :=
  match mutation with
  | LogAppend values =>
      _ ← require (negb (bool_decide (values = []))) BadShape;
      try_each validate_collection_id values
  | InsertAt index value =>
      _ ← require (index <=? MAX_EXACT_INTEGER)%N BadShape;
      validate_collection_id value
  | ReplaceAt index expected value =>
      _ ← require (index <=? MAX_EXACT_INTEGER)%N BadShape;
      _ ← validate_collection_id expected;
      _ ← validate_collection_id value;
      require (negb (bool_decide (expected = value))) BadShape
  | ReplacePrefix count expected_prefix replacement =>
      _ ← LogRoot_verify expected_prefix;
      _ ← require (count =? lr_len expected_prefix)%N BadShape;
      _ ← require (length replacement <=? MAX_LOG_PREFIX_REPLACEMENT_VALUES) BadShape;
      _ ← require (negb ((count =? 0)%N && bool_decide (replacement = []))) BadShape;
      try_each validate_collection_id replacement
  | RemoveAt index expected =>
      _ ← require (index <=? MAX_EXACT_INTEGER)%N BadShape;
      validate_collection_id expected
  end.

(** [validate_mutations]; the state of the loop is the values and the bytes. *)
Definition validate_step (st : N * N) (mutation : LogMutation) : coll (N * N) :=
  _ ← LogMutation_verify mutation;
  bytes ← log_mutation_bytes mutation;
  primitives ← ok_or (opt_filter (λ n, n <=? MAX_LOG_VALUES_PER_APPLY)%N
                        (checked_add st.1 (log_mutation_values mutation))) BadShape;
  total ← ok_or (opt_filter (λ n, n <=? MAX_MUTATION_BYTES)%N (checked_add st.2 bytes)) BadShape;
  Ok (primitives, total).
Definition validate_mutations (mutations : list LogMutation) : coll (list LogMutation) :=
  _ ← require ((1 <=? length mutations) && (length mutations <=? MAX_LOG_MUTATIONS_PER_APPLY))
        BadShape;
  _ ← try_fold validate_step (0%N, 0%N) mutations;
  Ok mutations.
Definition log_mutation_digest (mutations : list LogMutation) : string :=
  hash_identifier LOG_MUTATION_VERSION (mutations ≫= log_mutation_fields).

(** [left ++ [value] ++ right] with a new leaf. *)
Definition insert_between (lroot : LogRoot) (value : string) (rroot : LogRoot) : LogProg LogRoot :=
  leaf ← store_leaf [value];
  inserted ← Done (ref_root (Some leaf));
  prefix ← concat_roots lroot inserted;
  concat_roots prefix rroot.

(** One iteration of [apply_log_internal]. *)
Definition apply_log_mutation (root : LogRoot) (mutation : LogMutation) : LogProg LogRoot :=
  match mutation with
  | LogAppend values => append_values root values
  | InsertAt index value =>
      _ ← Done (require (index <=? lr_len root)%N MutationConflict);
      parts ← split_root root index;
      insert_between parts.1 value parts.2
  | ReplaceAt index expected value =>
      current ← overlay_get root index;
      _ ← Done (require (bool_decide (current = expected)) MutationConflict);
      parts ← split_root root index;
      rest ← split_root parts.2 1;
      insert_between parts.1 value rest.2
  | ReplacePrefix count expected_prefix replacement =>
      _ ← Done (require (count <=? lr_len root)%N MutationConflict);
      parts ← split_root root count;
      _ ← Done (require (bool_decide (parts.1 = expected_prefix)) MutationConflict);
      replaced ← append_values LogRoot_empty replacement;
      _ ← Done (require (negb (bool_decide (replaced = parts.1))) MutationConflict);
      concat_roots replaced parts.2
  | RemoveAt index expected =>
      current ← overlay_get root index;
      _ ← Done (require (bool_decide (current = expected)) MutationConflict);
      parts ← split_root root index;
      rest ← split_root parts.2 1;
      concat_roots parts.1 rest.2
  end.
Fixpoint apply_log_loop (root : LogRoot) (mutations : list LogMutation) : LogProg LogRoot :=
  match mutations with
  | [] => mret root
  | mutation :: mutations => root ← apply_log_mutation root mutation; apply_log_loop root mutations
  end.
Definition apply_log_internal (parent : LogRoot) (mutations : list LogMutation) : LogProg LogRoot :=
  root ← apply_log_loop parent mutations;
  _ ← Done (LogRoot_verify root);
  mret root.
End Mutations.
