(* ===== verification/LogProof.v ===== *)
(** * Proofs of the authenticated log

    Models the proofs of [log.rs] in
    [crates/cymule-authenticated-collections/src]: exact ordinals, splits,
    bounded ranges without omissions, batches of mutations, the audit of a
    whole log and its construction.  A proof carries nodes; verifying it runs
    the very algorithm that produced it on a resolver that knows only these
    nodes. *)

From S2P Require Import Prelude Identity CommandIndex CollectionHash Collections LogNode LogTree.

Definition MAX_LOG_EXACT_PROOF_NODES : nat := MAX_LOG_HEIGHT.
Definition MAX_LOG_SPLIT_PROOF_NODES : nat := MAX_LOG_EXACT_PROOF_NODES * 4.
Definition MAX_LOG_RANGE_PROOF_NODES : nat := MAX_LOG_HEIGHT * 4 + MAX_PAGE_ENTRIES * 2 + 4.
Definition MAX_LOG_APPLY_PROOF_NODES : nat :=
  MAX_LOG_EXACT_PROOF_NODES * N.to_nat MAX_LOG_VALUES_PER_APPLY * 4.

Section Proofs.
Context `{Sha256}.

(** ** Exact proofs *)

Record LogExactProof := { lex_root : LogRoot; lex_index : N; lex_nodes : list LogNode }.
Record VerifiedLogRead := { vlr_root : LogRoot; vlr_index : N; vlr_value : string }.

Definition prove_log_exact `{Resolver LogNode R} (root : LogRoot) (index : N) (resolver : R)
    : coll LogExactProof :=
  _ ← LogRoot_verify root;
  _ ← require (index <? lr_len root)%N BadShape;
  run ← run_reads load_resolved (get_log_value root index)
          {| rec_inner := resolver; rec_nodes := ∅ |};
  Ok {| lex_root := root; lex_index := index; lex_nodes := btree_values (rec_nodes run.1) |}.

Definition verify_log_exact (expected_root : LogRoot) (expected_index : N) (proof : LogExactProof)
    : coll VerifiedLogRead :=
  _ ← LogRoot_verify expected_root;
  _ ← require (bool_decide (lex_root proof = expected_root) && (lex_index proof =? expected_index)%N)
        (Integrity "log_exact_authority_mismatch");
  resolver ← ProofResolver_new (lex_nodes proof) MAX_LOG_HEIGHT;
  run ← run_reads load_resolved (get_log_value expected_root expected_index) resolver;
  _ ← ProofResolver_finish run.1;
  Ok {| vlr_root := expected_root; vlr_index := expected_index; vlr_value := run.2 |}.

(** ** Created nodes *)

(** [collect_reachable_created_log_nodes_for_roots]; the references of the
    roots are pushed in order, so that the last one is popped first. *)
Definition collect_reachable_created_log_nodes `{Resolver LogNode R} (roots : list LogRoot)
    (o : Overlay LogNode R) : coll (list LogNode) :=
  stack ← try_fold (λ stack root,
    ref ← root_ref root;
    Ok (match ref with Some ref => ref :: stack | None => stack end)) [] roots;
  st ← collect_created (2 * size (ov_pending o) + length stack) o stack ∅ ∅;
  Ok (btree_values st.2).

(** ** Splits *)

Record LogSplitProof := {
  lsp_parent : LogRoot; lsp_index : N; lsp_prefix : LogRoot; lsp_suffix : LogRoot;
  lsp_nodes : list LogNode;
}.
Record VerifiedLogSplit := {
  vls_parent : LogRoot; vls_index : N; vls_prefix : LogRoot; vls_suffix : LogRoot;
}.
Record LogSplitOutput := {
  lso_verified : VerifiedLogSplit; lso_proof : LogSplitProof; lso_objects : list LogNode;
}.

Definition verify_log_split (expected_parent : LogRoot) (expected_index : N) (proof : LogSplitProof)
    : coll VerifiedLogSplit :=
  _ ← LogRoot_verify expected_parent;
  _ ← require (expected_index <=? lr_len expected_parent)%N BadShape;
  _ ← require (bool_decide (lsp_parent proof = expected_parent)
               && (lsp_index proof =? expected_index)%N) (Integrity "log_split_authority_mismatch");
  resolver ← ApplyProofResolver_new (lsp_nodes proof) (MAX_LOG_HEIGHT * 4);
  run ← run_prog (split_root expected_parent expected_index) (Overlay_new resolver);
  let '(prefix, suffix) := run.2 in
  _ ← require (bool_decide (prefix = lsp_prefix proof) && bool_decide (suffix = lsp_suffix proof))
        (Integrity "log_split_result_mismatch");
  _ ← ApplyProofResolver_finish (ov_resolver run.1) (dom (ov_loaded run.1));
  Ok {| vls_parent := expected_parent; vls_index := expected_index;
        vls_prefix := prefix; vls_suffix := suffix |}.

Definition split_log `{Resolver LogNode R} (parent : LogRoot) (index : N) (resolver : R)
    : coll LogSplitOutput :=
  _ ← LogRoot_verify parent;
  _ ← require (index <=? lr_len parent)%N BadShape;
  run ← run_prog (split_root parent index) (Overlay_new resolver);
  let '(prefix, suffix) := run.2 in
  let proof_nodes := btree_values (ov_loaded run.1) in
  objects ← collect_reachable_created_log_nodes [prefix; suffix] run.1;
  let proof := {| lsp_parent := parent; lsp_index := index; lsp_prefix := prefix;
                  lsp_suffix := suffix; lsp_nodes := proof_nodes |} in
  verified ← verify_log_split parent index proof;
  Ok {| lso_verified := verified; lso_proof := proof; lso_objects := objects |}.

(** ** Batches of mutations *)

Record LogApplyProof := {
  lap_parent : LogRoot; lap_result : LogRoot; lap_mutations : list LogMutation;
  lap_nodes : list LogNode;
}.
Record VerifiedLogApply := {
  vla_parent : LogRoot; vla_result : LogRoot; vla_mutations : list LogMutation; vla_digest : string;
}.
Record LogApplyOutput := {
  lao_verified : VerifiedLogApply; lao_proof : LogApplyProof; lao_objects : list LogNode;
}.

Definition verify_log_apply (expected_parent : LogRoot) (expected_mutations : list LogMutation)
    (proof : LogApplyProof) : coll VerifiedLogApply :=
  _ ← LogRoot_verify expected_parent;
  mutations ← validate_mutations expected_mutations;
  _ ← require (bool_decide (lap_parent proof = expected_parent)
               && bool_decide (lap_mutations proof = mutations))
        (Integrity "log_apply_authority_mismatch");
  resolver ← ApplyProofResolver_new (lap_nodes proof) MAX_LOG_APPLY_PROOF_NODES;
  run ← run_prog (apply_log_internal expected_parent mutations) (Overlay_new resolver);
  _ ← require (bool_decide (run.2 = lap_result proof)) (Integrity "log_apply_result_mismatch");
  _ ← ApplyProofResolver_finish (ov_resolver run.1) (dom (ov_loaded run.1));
  Ok {| vla_parent := expected_parent; vla_result := run.2; vla_mutations := mutations;
        vla_digest := log_mutation_digest mutations |}.

Definition apply_log_mutations `{Resolver LogNode R} (parent : LogRoot)
    (mutations : list LogMutation) (resolver : R) : coll LogApplyOutput :=
  _ ← LogRoot_verify parent;
  mutations ← validate_mutations mutations;
  run ← run_prog (apply_log_internal parent mutations) (Overlay_new resolver);
  let proof_nodes := btree_values (ov_loaded run.1) in
  objects ← collect_reachable_created_log_nodes [run.2] run.1;
  let proof := {| lap_parent := parent; lap_result := run.2; lap_mutations := mutations;
                  lap_nodes := proof_nodes |} in
  verified ← verify_log_apply parent mutations proof;
  Ok {| lao_verified := verified; lao_proof := proof; lao_objects := objects |}.

(** ** Ranges *)

Record LogSelection := {
  lsel_values : list string; lsel_used_bytes : N; lsel_boundary : option string;
}.
Definition no_log_selection : LogSelection :=
  {| lsel_values := []; lsel_used_bytes := 0; lsel_boundary := None |}.

Section Range.
Variables (start : N) (limit : nat) (max_bytes : N).

(** The loop over the values of a leaf, from the ordinal [index] on. *)
Fixpoint visit_values (index : N) (values : list string) (sel : LogSelection) : coll LogSelection :=
  match values with
  | [] => Ok sel
  | value :: values =>
      if (index <? start)%N then visit_values (index + 1) values sel
      else
        _ ← validate_collection_id value;
        next_bytes ← ok_or (checked_add (lsel_used_bytes sel) (byte_len value)) BadShape;
        if (length (lsel_values sel) =? limit) || (max_bytes <? next_bytes)%N then
          Ok {| lsel_values := lsel_values sel; lsel_used_bytes := lsel_used_bytes sel;
                lsel_boundary := Some value |}
        else
          visit_values (index + 1) values
            {| lsel_values := lsel_values sel ++ [value]; lsel_used_bytes := next_bytes;
               lsel_boundary := lsel_boundary sel |}
  end.
(** [visit_log_range].  The ordinals of a leaf end at the checked [end_index],
    so that adding their offsets does not overflow. *)
Fixpoint visit_log_range (fuel : nat) (ref : LogRef) (base_index : N) (sel : LogSelection)
    : LogReads LogSelection :=
  match fuel with
  | O => ReadDone (Err CollectionPanic)
  | S fuel =>
      if bool_decide (is_Some (lsel_boundary sel)) then mret sel else
      end_index ← ReadDone (ok_or (opt_filter (λ n, n <=? MAX_EXACT_INTEGER)%N
                              (checked_add base_index (lc_len ref)))
                              (Integrity "log_range_index_overflow"));
      if (end_index <=? start)%N then mret sel else
      ReadNode ref (λ node,
        match ln_body node with
        | LogLeaf values => ReadDone (visit_values base_index values sel)
        | LogBranch lchild rchild =>
            sel ← visit_log_range fuel lchild base_index sel;
            right_base ← ReadDone (ok_or (opt_filter (λ n, n <=? MAX_EXACT_INTEGER)%N
                                     (checked_add base_index (lc_len lchild)))
                                     (Integrity "log_range_index_overflow"));
            visit_log_range fuel rchild right_base sel
        end)
  end.
Definition collect_log_range (root : LogRoot) : LogReads LogSelection :=
  ref ← ReadDone (root_ref root);
  sel ← match ref with
        | Some ref => visit_log_range (fuel_of ref) ref 0 no_log_selection
        | None => mret no_log_selection
        end;
  _ ← ReadDone (require (negb (bool_decide (lsel_values sel = [])
                               && bool_decide (is_Some (lsel_boundary sel)))) BadShape);
  mret sel.
End Range.

Definition validate_range_request (root : LogRoot) (start : N) (limit : nat) (max_bytes : N)
    : coll () :=
  _ ← LogRoot_verify root;
  _ ← require (start <=? lr_len root)%N BadShape;
  _ ← require ((1 <=? limit) && (limit <=? MAX_PAGE_ENTRIES)) BadShape;
  require ((1 <=? max_bytes)%N && (max_bytes <=? MAX_PAGE_BYTES)%N) BadShape.

Record LogRangeProof := {
  lrp_root : LogRoot; lrp_start : N; lrp_limit : nat; lrp_max_bytes : N; lrp_nodes : list LogNode;
}.
Record VerifiedLogRange := {
  vrg_root : LogRoot; vrg_start : N; vrg_values : list string; vrg_next_index : option N;
}.

(** The [try_from] conversions of the request cannot fail: both are bounded. *)
Definition prove_log_range `{Resolver LogNode R} (root : LogRoot) (start : N) (limit : nat)
    (max_bytes : N) (resolver : R) : coll LogRangeProof :=
  _ ← validate_range_request root start limit max_bytes;
  run ← run_reads load_resolved (collect_log_range start limit max_bytes root)
          {| rec_inner := resolver; rec_nodes := ∅ |};
  Ok {| lrp_root := root; lrp_start := start; lrp_limit := limit; lrp_max_bytes := max_bytes;
        lrp_nodes := btree_values (rec_nodes run.1) |}.

Definition verify_log_range (expected_root : LogRoot) (expected_start : N) (limit : nat)
    (max_bytes : N) (proof : LogRangeProof) : coll VerifiedLogRange :=
  _ ← validate_range_request expected_root expected_start limit max_bytes;
  _ ← require (bool_decide (lrp_root proof = expected_root) && (lrp_start proof =? expected_start)%N
               && (lrp_limit proof =? limit) && (lrp_max_bytes proof =? max_bytes)%N)
        (Integrity "log_range_authority_mismatch");
  _ ← require (length (lrp_nodes proof) <=? MAX_LOG_RANGE_PROOF_NODES) BadShape;
  resolver ← ProofResolver_new (lrp_nodes proof) MAX_LOG_RANGE_PROOF_NODES;
  run ← run_reads load_resolved (collect_log_range expected_start limit max_bytes expected_root)
          resolver;
  _ ← ProofResolver_finish run.1;
  let selection := run.2 in
  next_index ← ok_or (checked_add expected_start (N.of_nat (length (lsel_values selection))))
                 (Integrity "log_range_index_overflow");
  Ok {| vrg_root := expected_root; vrg_start := expected_start; vrg_values := lsel_values selection;
        vrg_next_index := (λ _, next_index) <$> lsel_boundary selection |}.

(** ** Audit *)

(** The loop of [audit_log]: its stack visits a node, then its left subtree,
    then its right one.  The state is the values and the nodes by identity. *)
Fixpoint audit_log_subtree (fuel : nat) (ref : LogRef) (st : list string * gmap string LogNode)
    : LogReads (list string * gmap string LogNode) :=
  match fuel with
  | O => ReadDone (Err CollectionPanic)
  | S fuel => ReadNode ref (λ node,
      let seen := match st.2 !! ln_object_id node with
                  | Some _ => st.2
                  | None => <[ln_object_id node := node]> st.2
                  end in
      match ln_body node with
      | LogLeaf values => mret (st.1 ++ values, seen)
      | LogBranch lchild rchild =>
          st ← audit_log_subtree fuel lchild (st.1, seen);
          audit_log_subtree fuel rchild st
      end)
  end.
Definition audit_log `{Resolver LogNode R} (root : LogRoot) (resolver : R)
    : coll (list string * list LogNode) :=
  _ ← LogRoot_verify root;
  ref ← root_ref root;
  match ref with
  | None => Ok ([], [])
  | Some ref =>
      run ← run_reads load_resolved (audit_log_subtree (fuel_of ref) ref ([], ∅)) resolver;
      _ ← require (N.of_nat (length run.2.1) =? lr_len root)%N (Integrity "log_audit_count_mismatch");
      Ok (run.2.1, btree_values run.2.2)
  end.

(** ** Construction of a whole log *)

(** [build_append_log_leaves]: full leaves alternate with singletons, as they
    do when the values are appended one by one. *)
Fixpoint append_log_leaves (fuel : nat) (values : list string) : list (list string) :=
  match fuel with
  | O => []
  | S fuel =>
      if LOG_FANOUT <? length values then
        take LOG_FANOUT values :: take 1 (drop LOG_FANOUT values)
          :: append_log_leaves fuel (drop (S LOG_FANOUT) values)
      else if 0 <? length values then [values] else []
  end.
Definition store_built_leaves (leaves : list (list string)) (objects : gmap string LogNode)
    : coll (gmap string LogNode * list LogRef) :=
  try_fold (λ st values,
    node ← LogNode_from_body (LogLeaf values);
    built ← store_built st.1 node;
    Ok (built.1, st.2 ++ [built.2])) (objects, []) leaves.
(** [1 << (usize::BITS - 1 - leaves.leading_zeros())] is the largest power of
    two below or equal to the number of leaves. *)
Definition append_log_tree_left_len (leaves : nat) : nat :=
  let power := 2 ^ Nat.log2 leaves in
  if leaves =? power then power / 2
  else if leaves =? 3 then 2
  else
    let lower_half := power / 2 in
    if leaves <=? power + lower_half then lower_half else power.
(** The recursion is on smaller slices, [fuel] is the number of leaves. *)
Fixpoint build_append_log_tree (fuel : nat) (leaves : list LogRef) (objects : gmap string LogNode)
    : coll (gmap string LogNode * LogRef) :=
  match fuel, leaves with
  | _, [] => Err (Integrity "log_build_empty_subtree")
  | _, [leaf] => Ok (objects, leaf)
  | O, _ => Err CollectionPanic
  | S fuel, _ =>
      let left_len := append_log_tree_left_len (length leaves) in
      lbuilt ← build_append_log_tree fuel (take left_len leaves) objects;
      let '(objects, lref) := (lbuilt : gmap string LogNode * LogRef) in
      rbuilt ← build_append_log_tree fuel (drop left_len leaves) objects;
      let '(objects, rref) := (rbuilt : gmap string LogNode * LogRef) in
      node ← LogNode_from_body (LogBranch lref rref);
      store_built objects node
  end.
Definition build_log (values : list string) : coll (LogRoot * list LogNode) :=
  _ ← require (N.of_nat (length values) <=? MAX_EXACT_INTEGER)%N BadShape;
  if bool_decide (values = []) then Ok (LogRoot_empty, []) else
  _ ← try_each validate_collection_id values;
  stored ← store_built_leaves (append_log_leaves (S (length values)) values) ∅;
  let '(objects, leaves) := stored in
  built ← build_append_log_tree (length leaves) leaves objects;
  root ← ref_root (Some built.2);
  _ ← require (lr_len root =? N.of_nat (length values))%N (Integrity "log_build_count_mismatch");
  Ok (root, btree_values built.1).
End Proofs.
