(* ===== verification/Rope.v ===== *)
(** * Balanced ropes

    The abstract content of the authenticated log: a tree of chunks of values
    in which the heights of two siblings differ by at most one.  Joining and
    splitting are pure functions here; each also returns the ropes that it has
    made, because the program stores one node for each of them. *)

From S2P Require Import Prelude Identity CommandIndex CollectionHash Collections LogNode.

Inductive rope :=
| Chunk (values : list string)
| Cat (l r : rope).

Fixpoint relems (t : rope) : list string :=
  match t with Chunk values => values | Cat l r => relems l ++ relems r end.
Fixpoint rheight (t : rope) : nat :=
  match t with Chunk _ => 1 | Cat l r => S (Nat.max (rheight l) (rheight r)) end.
Definition rlen (t : rope) : nat := length (relems t).

Definition content_id (value : string) : Prop := validate_collection_id value = Ok ().
(** Heights that may be siblings, and heights that one rotation repairs. *)
Definition close (k a b : nat) : Prop := a ≤ k + b ∧ b ≤ k + a.
Fixpoint rwf (t : rope) : Prop :=
  match t with
  | Chunk values => 1 ≤ length values ≤ LOG_FANOUT ∧ Forall content_id values
  | Cat l r => rwf l ∧ rwf r ∧ close 1 (rheight l) (rheight r)
  end.

(** ** Functions that make ropes *)

Definition made (A : Type) : Type := list rope * A.
#[export] Instance made_ret : MRet made := λ A a, ([], a).
#[export] Instance made_bind : MBind made := λ A B f m, let n := f m.2 in (m.1 ++ n.1, n.2).
Definition rchunk (values : list string) : made rope := ([Chunk values], Chunk values).
Definition rcat (l r : rope) : made rope := ([Cat l r], Cat l r).

Definition rbalance (l r : rope) : made rope :=
  if decide (close 1 (rheight l) (rheight r)) then rcat l r
  else if rheight r <? rheight l then
    match l with
    | Cat ll lr =>
        if rheight lr <=? rheight ll then rotated ← rcat lr r; rcat ll rotated
        else match lr with
             | Cat ml mr => rl ← rcat ll ml; rr ← rcat mr r; rcat rl rr
             | Chunk _ => rcat l r
             end
    | Chunk _ => rcat l r
    end
  else
    match r with
    | Cat rl rr =>
        if rheight rl <=? rheight rr then rotated ← rcat l rl; rcat rotated rr
        else match rl with
             | Cat ml mr => a ← rcat l ml; b ← rcat mr rr; rcat a b
             | Chunk _ => rcat l r
             end
    | Chunk _ => rcat l r
    end.
Definition rlevel (l r : rope) : made rope :=
  match l, r with
  | Chunk vs, Chunk ws =>
      if length vs + length ws <=? LOG_FANOUT then rchunk (vs ++ ws) else rcat l r
  | _, _ => rcat l r
  end.
Fixpoint rjoin (l : rope) : rope → made rope :=
  fix go r :=
    if S (rheight r) <? rheight l then
      match l with
      | Cat ll lr => joined ← rjoin lr r; rbalance ll joined
      | Chunk _ => rcat l r
      end
    else if S (rheight l) <? rheight r then
      match r with
      | Cat rl rr => joined ← go rl; rbalance joined rr
      | Chunk _ => rcat l r
      end
    else rlevel l r.

(** A log is empty or a rope. *)
Abbreviation rlog := (option rope).
Definition lelems (t : rlog) : list string := match t with Some t => relems t | None => [] end.
Definition lwf (t : rlog) : Prop := match t with Some t => rwf t | None => True end.
Definition rconcat (l r : rlog) : made rlog :=
  match l, r with
  | None, value | value, None => mret value
  | Some l, Some r => joined ← rjoin l r; mret (Some joined)
  end.
Fixpoint rappend (t : rlog) (values : list string) : made rlog :=
  match values with
  | [] => mret t
  | value :: values => leaf ← rchunk [value]; next ← rconcat t (Some leaf); rappend next values
  end.

Fixpoint rsplit (t : rope) (i : nat) : made (rlog * rlog) :=
  if i =? 0 then mret (None, Some t)
  else if i =? rlen t then mret (Some t, None)
  else match t with
       | Chunk values =>
           a ← rchunk (take i values); b ← rchunk (drop i values); mret (Some a, Some b)
       | Cat l r =>
           match i ?= rlen l with
           | Lt => parts ← rsplit l i; s ← rconcat parts.2 (Some r); mret (parts.1, s)
           | Eq => mret (Some l, Some r)
           | Gt => parts ← rsplit r (i - rlen l); p ← rconcat (Some l) parts.1; mret (p, parts.2)
           end
       end.
Definition lsplit (t : rlog) (i : nat) : made (rlog * rlog) :=
  match t with Some t => rsplit t i | None => mret (None, None) end.

#[export] Instance close_dec k a b : Decision (close k a b).
Proof. unfold close. apply _. Defined.

Lemma made_snd {A B} (m : made A) (f : A → made B) : (m ≫= f).2 = (f m.2).2.
Proof. done. Qed.
Lemma made_fst {A B} (m : made A) (f : A → made B) : (m ≫= f).1 = m.1 ++ (f m.2).1.
Proof. done. Qed.

(** ** Contents and balance *)

Ltac height_lia := unfold close in *; cbn in *; lia.

Lemma rlen_cat l r : rlen (Cat l r) = rlen l + rlen r.
Proof. apply length_app. Qed.
Lemma rheight_pos t : 1 ≤ rheight t.
Proof. destruct t; cbn; lia. Qed.
Lemma rlen_pos t : rwf t → 1 ≤ rlen t.
Proof.
  unfold rlen. induction t as [vs|l IHl r IHr]; cbn; [by intros [[? _] _]|].
  intros (Hl & Hr & _). rewrite length_app. specialize (IHl Hl). lia.
Qed.
Lemma relems_valid t : rwf t → Forall content_id (relems t).
Proof.
  induction t as [vs|l IHl r IHr]; cbn; [by intros [_ ?]|]. intros (Hl & Hr & _).
  apply Forall_app. auto.
Qed.

(** What joining two ropes promises. *)
Record joins (l r t : rope) : Prop := {
  jn_wf : rwf t;
  jn_elems : relems t = relems l ++ relems r;
  jn_low : Nat.max (rheight l) (rheight r) ≤ rheight t;
  jn_high : rheight t ≤ S (Nat.max (rheight l) (rheight r));
}.
Lemma rbalance_joins l r :
  rwf l → rwf r → close 2 (rheight l) (rheight r) → joins l r (rbalance l r).2.
Proof.
  intros Hl Hr Hc. unfold rbalance. destruct (decide _) as [Hd|Hd].
  { split; cbn [rcat snd rwf relems rheight]; [done|done|lia|lia]. }
  destruct (Nat.ltb_spec (rheight r) (rheight l)) as [Hlt|Hge].
  - destruct l as [vs|ll lr]; [pose proof (rheight_pos r); height_lia|]. destruct Hl as (Hll & Hlr & Hlc).
    destruct (Nat.leb_spec (rheight lr) (rheight ll)) as [Hle|Hgt].
    + split; cbn; [split_and!; try done; height_lia|by rewrite app_assoc|height_lia..].
    + destruct lr as [vs|ml mr]; [pose proof (rheight_pos ll); height_lia|].
      destruct Hlr as (Hml & Hmr & Hmc).
      split; cbn; [split_and!; try done; height_lia|by rewrite <-!app_assoc|height_lia..].
  - destruct r as [vs|rl rr]; [pose proof (rheight_pos l); height_lia|]. destruct Hr as (Hrl & Hrr & Hrc).
    destruct (Nat.leb_spec (rheight rl) (rheight rr)) as [Hle|Hgt].
    + split; cbn; [split_and!; try done; height_lia|by rewrite app_assoc|height_lia..].
    + destruct rl as [vs|ml mr]; [pose proof (rheight_pos rr); height_lia|].
      destruct Hrl as (Hml & Hmr & Hmc).
      split; cbn; [split_and!; try done; height_lia|by rewrite <-!app_assoc|height_lia..].
Qed.
Lemma rbalance_close l r :
  close 1 (rheight l) (rheight r) → rheight (rbalance l r).2 = S (Nat.max (rheight l) (rheight r)).
Proof. intros Hc. unfold rbalance. by rewrite decide_True. Qed.
Lemma rlevel_joins l r :
  rwf l → rwf r → close 1 (rheight l) (rheight r) → joins l r (rlevel l r).2.
Proof.
  intros Hl Hr Hc. assert (Hcat : joins l r (rcat l r).2).
  { split; cbn; [done|done|lia|lia]. }
  unfold rlevel. destruct l as [vs|ll lr], r as [ws|rl rr]; try exact Hcat.
  destruct (Nat.leb_spec (length vs + length ws) LOG_FANOUT); [|exact Hcat].
  destruct Hl as [Hvs Hvv], Hr as [Hws Hww].
  split; cbn; [|done|lia|lia]. split; [rewrite length_app; lia|by apply Forall_app].
Qed.
Lemma rjoin_eq l r :
  rjoin l r =
    if S (rheight r) <? rheight l then
      match l with
      | Cat ll lr => joined ← rjoin lr r; rbalance ll joined
      | Chunk _ => rcat l r
      end
    else if S (rheight l) <? rheight r then
      match r with
      | Cat rl rr => joined ← rjoin l rl; rbalance joined rr
      | Chunk _ => rcat l r
      end
    else rlevel l r.
Proof. by destruct l, r. Qed.
(** Induction on what [rjoin] recurses on. *)
Lemma rjoin_ind (P : rope → rope → Prop) :
  (∀ l r, (∀ ll lr, l = Cat ll lr → S (rheight r) < rheight l → P lr r) →
     (∀ rl rr, r = Cat rl rr → S (rheight l) < rheight r → P l rl) → P l r) →
  ∀ l r, P l r.
Proof.
  intros Hstep l. induction l as [vs|ll IHll lr IHlr]; intros r;
    induction r as [ws|rl IHrl rr IHrr]; apply Hstep; intros; try done; simplify_eq; auto.
Qed.
Lemma rjoin_joins l r : rwf l → rwf r → joins l r (rjoin l r).2.
Proof.
  induction l, r as [l r IHl IHr] using rjoin_ind. intros Hl Hr. rewrite rjoin_eq.
  destruct (Nat.ltb_spec (S (rheight r)) (rheight l)) as [Hlt|Hge].
  { destruct l as [vs|ll lr]; [cbn in Hlt; lia|]. pose proof Hl as (Hll & Hlr & Hc).
    destruct (IHl ll lr eq_refl Hlt Hlr Hr) as [Hwf He Hlo Hhi].
    destruct (rbalance_joins ll (rjoin lr r).2) as [Hwf' He' Hlo' Hhi']; [done|done|height_lia|].
    pose proof (rbalance_close ll (rjoin lr r).2). rewrite made_snd.
    split; cbn [relems rheight] in *;
      [done|by rewrite He', He, app_assoc|unfold close in *; lia|unfold close in *; lia]. }
  destruct (Nat.ltb_spec (S (rheight l)) (rheight r)) as [Hlt|Hge'].
  { destruct r as [vs|rl rr]; [cbn in Hlt; lia|]. pose proof Hr as (Hrl & Hrr & Hc).
    destruct (IHr rl rr eq_refl Hlt Hl Hrl) as [Hwf He Hlo Hhi].
    destruct (rbalance_joins (rjoin l rl).2 rr) as [Hwf' He' Hlo' Hhi']; [done|done|height_lia|].
    pose proof (rbalance_close (rjoin l rl).2 rr). rewrite made_snd.
    split; cbn [relems rheight] in *;
      [done|by rewrite He', He, app_assoc|unfold close in *; lia|unfold close in *; lia]. }
  apply rlevel_joins; [done..|]. unfold close. lia.
Qed.

Lemma rconcat_spec l r :
  lwf l → lwf r → lwf (rconcat l r).2 ∧ lelems (rconcat l r).2 = lelems l ++ lelems r.
Proof.
  destruct l as [l|], r as [r|]; cbn; rewrite ?app_nil_r; try done.
  intros Hl Hr. destruct (rjoin_joins l r Hl Hr). done.
Qed.
Lemma rappend_spec t values :
  lwf t → Forall content_id values →
  lwf (rappend t values).2 ∧ lelems (rappend t values).2 = lelems t ++ values.
Proof.
  revert t. induction values as [|v values IH]; intros t Ht Hv; cbn [rappend].
  - cbn. by rewrite app_nil_r.
  - apply Forall_cons in Hv as [Hv Hvs].
    destruct (rconcat_spec t (Some (Chunk [v]))) as [Hwf He]; [done| |].
    { split; [cbn; unfold LOG_FANOUT; lia|by apply Forall_singleton]. }
    destruct (IH _ Hwf Hvs) as [Hwf' He']. split; [exact Hwf'|]. etrans; [exact He'|].
    rewrite He. cbn [lelems relems]. by rewrite <-app_assoc.
Qed.

(** [rsplit] away from the ends *)
Lemma rsplit_0 t : rsplit t 0 = mret (None, Some t).
Proof. by destruct t. Qed.
Lemma rsplit_len t : rlen t ≠ 0 → rsplit t (rlen t) = mret (Some t, None).
Proof. intros Hn%Nat.eqb_neq. destruct t; cbn [rsplit]; by rewrite Hn, Nat.eqb_refl. Qed.
Lemma rsplit_chunk values i : i ≠ 0 → i ≠ length values →
  rsplit (Chunk values) i
  = a ← rchunk (take i values); b ← rchunk (drop i values); mret (Some a, Some b).
Proof.
  intros H0%Nat.eqb_neq Hl%Nat.eqb_neq. cbn [rsplit]. unfold rlen. cbn [relems]. by rewrite H0, Hl.
Qed.
Lemma rsplit_cat l r i : i ≠ 0 → i ≠ rlen (Cat l r) →
  rsplit (Cat l r) i
  = match i ?= rlen l with
    | Lt => parts ← rsplit l i; s ← rconcat parts.2 (Some r); mret (parts.1, s)
    | Eq => mret (Some l, Some r)
    | Gt => parts ← rsplit r (i - rlen l); p ← rconcat (Some l) parts.1; mret (p, parts.2)
    end.
Proof. intros H0%Nat.eqb_neq Hl%Nat.eqb_neq. cbn [rsplit]. by rewrite H0, Hl. Qed.

(** What splitting a rope promises. *)
Record splits (elems : list string) (i : nat) (parts : rlog * rlog) : Prop := {
  sp_left_wf : lwf parts.1;
  sp_right_wf : lwf parts.2;
  sp_left : lelems parts.1 = take i elems;
  sp_right : lelems parts.2 = drop i elems;
}.
Lemma rsplit_splits t i : rwf t → i ≤ rlen t → splits (relems t) i (rsplit t i).2.
Proof.
  revert i. induction t as [vs|l IHl r IHr]; intros i Hwf Hi; cbn [rsplit].
  all: destruct (Nat.eqb_spec i 0) as [->|Hi0]; [by split|].
  all: match goal with |- context [?j =? rlen ?t] => destruct (Nat.eqb_spec j (rlen t)) as [->|Hin] end;
    [split; [done|done|by rewrite take_ge by done|by rewrite drop_ge by done]|].
  - destruct Hwf as [Hlen Hv]. unfold rlen in *. cbn [relems] in *.
    split; cbn; try done; (split; [|by (apply Forall_take || apply Forall_drop)]).
    + rewrite length_take. lia.
    + rewrite length_drop. lia.
  - destruct Hwf as (Hl & Hr & _). rewrite rlen_cat in *. cbn [relems].
    destruct (Nat.compare_spec i (rlen l)) as [->|Hlt|Hgt].
    + split; cbn; try done; unfold rlen; [by rewrite take_app_length|by rewrite drop_app_length].
    + destruct (IHl i Hl) as [H1 H2 H3 H4]; [lia|].
      destruct (rconcat_spec (rsplit l i).2.2 (Some r)) as [Hwf He]; [done..|].
      rewrite !made_snd. split; cbn [fst snd mret made_ret]; [done|done| |].
      * by rewrite take_app_le by (unfold rlen in *; lia).
      * rewrite He, H4. cbn [lelems]. by rewrite drop_app_le by (unfold rlen in *; lia).
    + destruct (IHr (i - rlen l) Hr) as [H1 H2 H3 H4]; [lia|].
      destruct (rconcat_spec (Some l) (rsplit r (i - rlen l)).2.1) as [Hwf He]; [done..|].
      rewrite !made_snd. split; cbn [fst snd mret made_ret]; [done|done| |].
      * rewrite He, H3. cbn [lelems]. by rewrite take_app_ge by (unfold rlen in *; lia).
      * rewrite H4. by rewrite drop_app_ge by (unfold rlen in *; lia).
Qed.
Lemma lsplit_splits t i : lwf t → i ≤ length (lelems t) → splits (lelems t) i (lsplit t i).2.
Proof.
  destruct t as [t|]; cbn; [apply rsplit_splits|]. intros _ Hi. assert (i = 0) as -> by lia. by split.
Qed.

(** ** Height and capacity *)

(** The length of the shortest rope of a height, a Fibonacci number, and the
    one before it. *)
Fixpoint shortest (h : nat) : N * N :=
  match h with O => (1, 0)%N | S h => let '(a, b) := shortest h in (a + b, a)%N end.
Lemma shortest_step h : (shortest (S h)).1 = ((shortest h).1 + (shortest h).2)%N
  ∧ (shortest (S h)).2 = (shortest h).1.
Proof. cbn. by destruct (shortest h). Qed.
Lemma shortest_mono h k : h ≤ k → ((shortest h).1 ≤ (shortest k).1)%N.
Proof.
  induction 1 as [|k _ IH]; [done|]. destruct (shortest_step k) as [-> _]. lia.
Qed.
Lemma shortest_rlen t : rwf t → ((shortest (rheight t)).1 ≤ N.of_nat (rlen t))%N.
Proof.
  induction t as [vs|l IHl r IHr]; intros Hwf.
  - pose proof (rlen_pos _ Hwf). change (shortest (rheight (Chunk vs))).1 with 1%N. lia.
  - destruct Hwf as (Hl & Hr & [Hc1 Hc2]). specialize (IHl Hl). specialize (IHr Hr).
    pose proof (rheight_pos l). rewrite rlen_cat. cbn [rheight].
    destruct (Nat.max (rheight l) (rheight r)) as [|k] eqn:Hm; [lia|].
    destruct (shortest_step (S k)) as [-> _], (shortest_step k) as [_ ->].
    pose proof (shortest_mono k (rheight l) ltac:(lia)). pose proof (shortest_mono k (rheight r) ltac:(lia)).
    destruct (Nat.max_spec (rheight l) (rheight r)) as [[_ Hx]|[_ Hx]]; rewrite Hm in Hx; rewrite <-Hx in *; lia.
Qed.

(** Below this length a balanced log cannot exceed the height bound. *)
Definition LOG_CAPACITY : N := 8944394323791464.
Definition fits (n : nat) : Prop := (N.of_nat n < LOG_CAPACITY)%N.
Lemma fits_mono m n : m ≤ n → fits n → fits m.
Proof. unfold fits. lia. Qed.
Lemma fits_exact n : fits n → (N.of_nat n ≤ MAX_EXACT_INTEGER)%N.
Proof. unfold fits, LOG_CAPACITY, MAX_EXACT_INTEGER. lia. Qed.
Lemma fits_height t : rwf t → fits (rlen t) → rheight t ≤ MAX_LOG_HEIGHT.
Proof.
  intros Hwf Hf. pose proof (shortest_rlen t Hwf) as Hs.
  destruct (decide (rheight t ≤ MAX_LOG_HEIGHT)) as [|Hn]; [done|]. exfalso.
  pose proof (shortest_mono (S MAX_LOG_HEIGHT) (rheight t) ltac:(lia)) as Hm.
  assert ((shortest (S MAX_LOG_HEIGHT)).1 = LOG_CAPACITY) as Heq by by vm_compute.
  rewrite Heq in Hm. unfold fits in Hf. lia.
Qed.
