(* ===== verification/LogRefine.v ===== *)
(** * The nodes of a rope

    Every rope has one tree of nodes, and with it one root.  The file relates
    the algorithms of [LogTree] to the functions of [Rope] on a store that
    holds these nodes. *)

From S2P Require Import Prelude Identity CommandIndex CollectionHash Collections Stores LogNode LogTree Rope.

Section Nodes.
Context `{Sha256}.

Fixpoint rope_body (t : rope) : LogNodeBody :=
  match t with
  | Chunk values => LogLeaf values
  | Cat l r =>
      LogBranch {| lc_object_id := log_node_id (rope_body l); lc_len := N.of_nat (rlen l);
                   lc_height := N.of_nat (rheight l) |}
                {| lc_object_id := log_node_id (rope_body r); lc_len := N.of_nat (rlen r);
                   lc_height := N.of_nat (rheight r) |}
  end.
Definition rope_id (t : rope) : string := log_node_id (rope_body t).
Definition rope_node (t : rope) : LogNode :=
  {| ln_version := LOG_NODE_VERSION; ln_object_id := rope_id t; ln_body := rope_body t |}.
Definition rope_ref (t : rope) : LogRef :=
  {| lc_object_id := rope_id t; lc_len := N.of_nat (rlen t); lc_height := N.of_nat (rheight t) |}.
Fixpoint subropes (t : rope) : list rope :=
  t :: match t with Chunk _ => [] | Cat l r => subropes l ++ subropes r end.
Definition rope_nodes (t : rope) : list LogNode := rope_node <$> subropes t.
Definition log_root (t : rlog) : LogRoot :=
  match t with
  | None => LogRoot_empty
  | Some t => {| lr_node := Some (rope_id t); lr_len := N.of_nat (rlen t);
                 lr_height := N.of_nat (rheight t); lr_ordered_root := rope_id t |}
  end.
Definition log_nodes (t : rlog) : list LogNode := match t with Some t => rope_nodes t | None => [] end.

(** A rope that the program can store. *)
Definition rok (t : rope) : Prop := rwf t ∧ fits (rlen t).
Definition lok (t : rlog) : Prop := match t with Some t => rok t | None => True end.

Lemma rok_cat l r : rok (Cat l r) → rok l ∧ rok r.
Proof.
  intros [(Hl & Hr & _) Hf]. rewrite rlen_cat in Hf.
  split; (split; [done|]); (eapply fits_mono; [|exact Hf]); lia.
Qed.
Lemma rok_subrope t u : rok t → u ∈ subropes t → rok u.
Proof.
  induction t as [vs|l IHl r IHr]; cbn [subropes]; intros Ht.
  - by intros ->%list_elem_of_singleton.
  - apply rok_cat in Ht as Hlr. destruct Hlr. intros [->|[?|?]%elem_of_app]%elem_of_cons; auto.
Qed.
Lemma rope_id_valid t : validate_collection_id (rope_id t) = Ok ().
Proof. unfold rope_id, log_node_id. apply hash_identifier_valid. Qed.

Record sized (t : rope) : Prop := {
  sz_len : (1 ≤ N.of_nat (rlen t) ≤ MAX_EXACT_INTEGER)%N;
  sz_height : (1 ≤ N.of_nat (rheight t) ≤ N.of_nat MAX_LOG_HEIGHT)%N;
}.
Lemma rok_sized t : rok t → sized t.
Proof.
  intros [Hwf Hf]. pose proof (rlen_pos t Hwf). pose proof (rheight_pos t).
  pose proof (fits_height t Hwf Hf). pose proof (fits_exact _ Hf). split; lia.
Qed.
Lemma rope_ref_verify t : rok t → LogChild_verify (rope_ref t) = Ok ().
Proof.
  intros [Hl Hh]%rok_sized. unfold LogChild_verify, rope_ref. cbn [lc_object_id lc_len lc_height].
  rewrite rope_id_valid. cbn [mbind result_bind].
  rewrite (proj2 (N.eqb_neq _ _)), (proj2 (N.ltb_ge _ _)), (proj2 (N.eqb_neq _ _)), (proj2 (N.ltb_ge _ _)) by lia.
  done.
Qed.
Lemma log_root_verify t : lok t → LogRoot_verify (log_root t) = Ok ().
Proof.
  destruct t as [t|]; cbn [lok log_root].
  - intros [Hl Hh]%rok_sized. unfold LogRoot_verify. cbn [lr_len lr_node lr_height lr_ordered_root].
    rewrite (proj2 (N.eqb_neq _ _)) by lia. cbn [ok_or mbind result_bind]. rewrite rope_id_valid.
    cbn [mbind result_bind]. rewrite bool_decide_eq_true_2 by done.
    rewrite (proj2 (N.ltb_ge _ _)), (proj2 (N.eqb_neq _ _)), (proj2 (N.ltb_ge _ _)) by lia. done.
  - intros _. unfold LogRoot_verify. cbn [LogRoot_empty lr_len lr_node lr_height lr_ordered_root].
    by rewrite (bool_decide_eq_true_2 (empty_log_commitment = _)).
Qed.
Lemma root_ref_log t : lok t → root_ref (log_root t) = Ok (rope_ref <$> t).
Proof. intros Ht. unfold root_ref. rewrite log_root_verify by done. by destruct t. Qed.
Lemma ref_root_log t : lok t → ref_root (rope_ref <$> t) = Ok (log_root t).
Proof.
  intros Ht. apply log_root_verify in Ht. destruct t as [t|]; [|done].
  cbn [fmap option_fmap option_map ref_root rope_ref lc_object_id lc_len lc_height].
  cbn [log_root] in Ht. by rewrite Ht.
Qed.

Lemma abs_diff_close a b : close 1 a b → (abs_diff (N.of_nat a) (N.of_nat b) <=? 1)%N = true.
Proof.
  intros [? ?]. unfold abs_diff. apply N.leb_le. destruct (N.leb_spec (N.of_nat a) (N.of_nat b)); lia.
Qed.
Lemma abs_diff_far a b : ¬ close 1 a b → (abs_diff (N.of_nat a) (N.of_nat b) <=? 1)%N = false.
Proof.
  intros Hn. unfold abs_diff, close in *. apply N.leb_gt.
  destruct (N.leb_spec (N.of_nat a) (N.of_nat b)); lia.
Qed.

Lemma rope_counts t : rok t →
  LogNode_value_count (rope_node t) = Ok (N.of_nat (rlen t))
  ∧ LogNode_height (rope_node t) = Ok (N.of_nat (rheight t)).
Proof.
  intros Ht. pose proof (rok_sized t Ht) as [Hl Hh]. unfold LogNode_value_count, LogNode_height.
  destruct t as [vs|l r]; cbn [rope_node ln_body rope_body lc_len lc_height].
  - split; [done|]. cbn [mbind result_bind]. by rewrite (proj2 (N.leb_le _ _)).
  - rewrite rlen_cat in *. cbn [rheight] in *. split.
    + unfold checked_add. rewrite decide_True by (unfold MAX_EXACT_INTEGER, u64_max in *; lia).
      cbn [opt_filter]. rewrite (proj2 (N.leb_le _ _)) by lia. cbn [ok_or]. f_equal. lia.
    + unfold checked_add_u8. rewrite decide_True by (unfold MAX_LOG_HEIGHT in *; lia).
      cbn [ok_or mbind result_bind]. rewrite (proj2 (N.leb_le _ _)) by lia. cbn [require mbind result_bind].
      f_equal. lia.
Qed.
Lemma rope_node_verify t : rok t → LogNode_verify (rope_node t) = Ok ().
Proof.
  intros Ht. pose proof (rope_counts t Ht) as [Hc Hh]. unfold LogNode_verify. rewrite Hc, Hh.
  rewrite bool_decide_eq_true_2 by done. cbn [require mbind result_bind].
  destruct t as [vs|l r]; cbn [rope_node ln_body rope_body ln_object_id].
  - destruct Ht as [[Hlen Hv] _].
    rewrite (proj2 (Nat.eqb_neq _ _)), (proj2 (Nat.ltb_ge _ _)) by lia. cbn [orb negb require mbind result_bind].
    rewrite (proj2 (try_each_Ok validate_collection_id vs ())) by by apply Forall_forall.
    cbn [mbind result_bind]. by rewrite bool_decide_eq_true_2.
  - pose proof Ht as [(_ & _ & Hclose) _]. apply rok_cat in Ht as [Hl Hr].
    fold (rope_id l) (rope_id r). fold (rope_ref l) (rope_ref r). rewrite !rope_ref_verify by done.
    cbn [mbind result_bind rope_ref lc_height]. rewrite abs_diff_close by done. cbn [require mbind result_bind].
    by rewrite bool_decide_eq_true_2.
Qed.
Lemma rope_node_ref t : rok t → node_ref (rope_node t) = Ok (rope_ref t).
Proof.
  intros Ht. cbn [node_ref log_kind]. unfold log_node_ref. by destruct (rope_counts t Ht) as [-> ->].
Qed.
Lemma rope_same_counts t : rok t → same_counts (rope_node t) (rope_ref t) = Ok true.
Proof.
  intros Ht. cbn [same_counts log_kind]. unfold log_same_counts. destruct (rope_counts t Ht) as [-> ->].
  cbn [mbind result_bind rope_ref lc_len lc_height]. rewrite N.eqb_refl. cbn. by rewrite N.eqb_refl.
Qed.
End Nodes.

(** ** Reading *)

Section Reading.
Context `{Sha256} {S : Type} (load : S → LogRef → coll (S * LogNode)) (P : S → Prop).

(** Loading any node of [t] succeeds and keeps [P]. *)
Definition answers (t : rope) : Prop :=
  ∀ s u, P s → u ∈ subropes t → ∃ s', load s (rope_ref u) = Ok (s', rope_node u) ∧ P s'.

Lemma subropes_self t : t ∈ subropes t.
Proof. destruct t; cbn; by left. Qed.
Lemma answers_cat l r : answers (Cat l r) → answers l ∧ answers r.
Proof. intros Ha. split; intros s u Hs Hu; apply Ha; try done; cbn; set_solver. Qed.

Lemma get_path_spec t fuel i s :
  answers t → P s → rheight t ≤ fuel →
  match relems t !! i with
  | Some v => ∃ s', run_reads load (get_path fuel (rope_ref t) (N.of_nat i)) s = Ok (s', v) ∧ P s'
  | None => run_reads load (get_path fuel (rope_ref t) (N.of_nat i)) s
            = Err (Integrity "log_leaf_index_mismatch")
  end.
Proof.
  revert fuel i s. induction t as [vs|l IHl r IHr]; intros fuel i s Ha Hs Hf; cbn [rheight] in Hf.
  all: destruct fuel as [|fuel]; [lia|]; cbn [get_path run_reads].
  all: destruct (Ha s _ Hs (subropes_self _)) as (s1 & -> & Hs1); cbn [mbind result_bind fst snd].
  - cbn [rope_node ln_body rope_body run_reads relems] in *. rewrite Nat2N.id.
    destruct (vs !! i); [by exists s1|done].
  - cbn [rope_node ln_body rope_body lc_len relems] in *. apply answers_cat in Ha as [Hal Har].
    destruct (N.ltb_spec (N.of_nat i) (N.of_nat (rlen l))) as [Hlt|Hge].
    + rewrite lookup_app_l by (unfold rlen in *; lia). apply (IHl fuel i s1 Hal Hs1). lia.
    + unfold checked_sub. rewrite decide_True by done. cbn [ok_or mbind reads_bind].
      rewrite <-Nat2N.inj_sub, lookup_app_r by (unfold rlen in *; lia).
      apply (IHr fuel _ s1 Har Hs1). lia.
Qed.
End Reading.

(** ** Programs that make ropes *)

Section Refine.
Context `{Sha256} `{!Resolver LogNode R} (I : R → Prop) (σ : gmap string LogNode) (U : LogNode → Prop).
Hypothesis Hserves : serves I σ.
Hypothesis Hdistinct : distinct_ids U.
Hypothesis Hstore : keyed U σ.

Abbreviation overlay := (Overlay LogNode R).
Abbreviation ov_inv := (ov_inv I σ U).
Abbreviation known := (known σ).
Abbreviation grown := (grown I σ U).
(** All nodes of a rope are known. *)
Definition holds (o : overlay) (t : rope) : Prop := ∀ u, u ∈ subropes t → known o (rope_node u).
Definition lholds (o : overlay) (t : rlog) : Prop := match t with Some t => holds o t | None => True end.

(** The program [p] computes the representation of what [m] makes, and leaves
    the overlay with the nodes of the result, provided that the nodes of the
    ropes that [m] makes and the program can store are in [U]. *)
Definition implements {A B} (rep : A → B) (own : overlay → A → Prop)
    (p : LogProg B) (m : made A) (o : overlay) : Prop :=
  (∀ t, t ∈ m.1 → rok t → U (rope_node t)) →
  ∃ o', run_prog p o = Ok (o', rep m.2) ∧ grown o o' ∧ own o' m.2.

Lemma rope_holds_grown o o' t : ov_inv o → grown o o' → holds o t → holds o' t.
Proof. intros Ho Hg Hh u Hu. eapply known_grown; [done..|]. by apply Hh. Qed.
Lemma lholds_grown o o' t : ov_inv o → grown o o' → lholds o t → lholds o' t.
Proof. destruct t; [apply rope_holds_grown|done]. Qed.
Lemma holds_cat o l r : holds o (Cat l r) ↔ known o (rope_node (Cat l r)) ∧ holds o l ∧ holds o r.
Proof.
  unfold holds. cbn [subropes]. setoid_rewrite elem_of_cons. setoid_rewrite elem_of_app. naive_solver.
Qed.

Lemma implements_ret {A B} (rep : A → B) own a b o :
  ov_inv o → own o a → b = rep a → implements rep own (mret b) (mret a) o.
Proof. intros Ho Ha -> _. exists o. split; [done|]. split; [by apply grown_refl|done]. Qed.
Lemma implements_bind {A B A' B'} (rep : A → B) own (rep' : A' → B') own' p m f g o :
  implements rep own p m o →
  (∀ o', grown o o' → own o' m.2 → implements rep' own' (f (rep m.2)) (g m.2) o') →
  implements rep' own' (p ≫= f) (m ≫= g) o.
Proof.
  intros Hp Hf Hu. rewrite made_fst in Hu. setoid_rewrite elem_of_app in Hu.
  destruct Hp as (o1 & Hr & Hg & Ho); [auto|].
  destruct (Hf o1 Hg Ho) as (o2 & Hr2 & Hg2 & Ho2); [auto|]. rewrite made_snd.
  exists o2. rewrite run_prog_bind, Hr. split; [exact Hr2|]. split; [by eapply grown_trans|done].
Qed.
(** The result of a program under another representation. *)
Lemma implements_map {A B C} (rep : A → B) (f : B → C) own p m o :
  implements rep own p m o → implements (λ a, f (rep a)) own (x ← p; mret (f x)) m o.
Proof.
  intros Hp Hu. destruct (Hp Hu) as (o1 & Hr & Hg & Ho). exists o1. rewrite run_prog_bind, Hr. by split.
Qed.
(** Steps of the program that make nothing. *)
Lemma implements_done {A B C} (rep : A → B) own (c : C) f m o :
  implements rep own (f c) m o → implements rep own (Done (Ok c) ≫= f) m o.
Proof. done. Qed.
Lemma load_rope o t :
  rok t → ov_inv o → known o (rope_node t) →
  ∃ o', overlay_load o (rope_ref t) = Ok (o', rope_node t) ∧ grown o o'.
Proof.
  intros Ht Ho Hk. edestruct (load_known I σ U Hserves Hdistinct Hstore o (rope_node t) (rope_ref t))
    as (o' & Hl & Hg & _); try done; [by apply rope_node_verify|by apply rope_same_counts|by exists o'].
Qed.
Lemma implements_load {A B} (rep : A → B) own t k m o :
  rok t → ov_inv o → holds o t →
  (∀ o', grown o o' → implements rep own (k (rope_node t)) m o') →
  implements rep own (Load (rope_ref t) k) m o.
Proof.
  intros Ht Ho Hh Hk Hu. destruct (load_rope o t Ht Ho (Hh _ (subropes_self t))) as (o1 & Hl & Hg).
  destruct (Hk o1 Hg Hu) as (o2 & Hr & Hg2 & Ho2). exists o2. cbn [run_prog_with]. rewrite Hl.
  split; [exact Hr|]. split; [by eapply grown_trans|done].
Qed.
Lemma implements_store t o :
  rok t → ov_inv o → (∀ u, u ∈ subropes t → u = t ∨ known o (rope_node u)) →
  implements rope_ref holds (node ← Done (LogNode_from_body (rope_body t)); Store node mret) ([t], t) o.
Proof.
  intros Ht Ho Hsub Hu.
  destruct (store_known I σ U Hdistinct o (rope_node t) (rope_ref t)) as (o' & Hs & Hg & Hk);
    [by apply rope_node_verify|by apply rope_node_ref|done|apply Hu; [by left|done]|].
  exists o'. split.
  - unfold LogNode_from_body. fold (rope_id t). fold (rope_node t). rewrite rope_node_verify by done.
    cbn [mbind result_bind prog_bind run_prog_with]. by rewrite Hs.
  - split; [done|]. intros u [->|Hku]%Hsub; [done|by eapply known_grown].
Qed.
End Refine.
