(* ===== verification/LogJoin.v ===== *)
(** * Joining, appending and splitting of logs

    On a store that knows the nodes of its arguments, every operation of
    [LogTree] makes exactly the nodes of the rope that the function of [Rope]
    makes, and returns its reference; then the operations on roots. *)

From S2P Require Import Prelude Identity CommandIndex CollectionHash Collections Stores LogNode.
From S2P Require Import LogTree Rope LogRefine.

(** The premises of a step: the overlay has grown and still holds what it held. *)
Ltac held :=
  first [ eassumption
        | match goal with
          | Hg : @Stores.grown _ _ _ _ _ _ _ _ ?o |- @Stores.ov_inv _ _ _ _ _ _ _ ?o => exact (proj1 Hg)
          end
        | match goal with
          | Hk : @keyed _ _ _ _ _, Hg : @Stores.grown _ _ _ _ _ _ _ ?o1 ?o2 |- _ =>
              first [ eapply (rope_holds_grown _ _ _ Hk o1 o2) | eapply (lholds_grown _ _ _ Hk o1 o2) ];
              [|exact Hg|]; held
          end ].

Section Join.
Context `{Sha256} `{!Resolver LogNode R} (I : R → Prop) (σ : gmap string LogNode) (U : LogNode → Prop).
Hypothesis Hserves : serves I σ.
Hypothesis Hdistinct : distinct_ids U.
Hypothesis Hstore : keyed U σ.

Abbreviation overlay := (Overlay LogNode R).
Abbreviation ov_inv := (ov_inv I σ U).
Abbreviation grown := (grown I σ U).
Abbreviation holds := (holds σ).
Abbreviation lholds := (lholds σ).
Abbreviation implements := (implements I σ U).
Abbreviation makes := (LogRefine.implements I σ U rope_ref holds).

Lemma store_leaf_makes values o :
  rok (Chunk values) → ov_inv o → makes (store_leaf values) (rchunk values) o.
Proof.
  intros Ht Ho. apply (implements_store I σ U Hdistinct Hstore (Chunk values) o Ht Ho).
  intros u ->%list_elem_of_singleton. by left.
Qed.
Lemma make_branch_makes l r o :
  rok (Cat l r) → ov_inv o → holds o l → holds o r →
  makes (make_branch (rope_ref l) (rope_ref r)) (rcat l r) o.
Proof.
  intros Ht Ho Hl Hr. pose proof Ht as [(_ & _ & Hc) _]. unfold make_branch. cbn [rope_ref lc_height].
  rewrite abs_diff_close by done.
  apply (implements_store I σ U Hdistinct Hstore (Cat l r) o Ht Ho).
  intros u [->|[Hu|Hu]%elem_of_app]%elem_of_cons; auto.
Qed.
Lemma branch_children_run {A B} (rep : A → B) own l r k m o :
  rok (Cat l r) → ov_inv o → holds o (Cat l r) →
  (∀ o', grown o o' → holds o' l → holds o' r → implements rep own (k (rope_ref l, rope_ref r)) m o') →
  implements rep own (branch_children (rope_ref (Cat l r)) ≫= k) m o.
Proof.
  intros Ht Ho Hh Hk. unfold branch_children. cbn [mbind prog_bind].
  eapply (implements_load I σ U Hserves Hdistinct Hstore rep own (Cat l r)); [done..|].
  intros o' Hg. pose proof (rope_holds_grown I σ U Hstore _ _ _ Ho Hg Hh) as (_ & Hl & Hr)%holds_cat.
  by apply Hk.
Qed.

(** Branches whose heights are next to each other. *)
Lemma rok_pair l r : rok l → rok r → close 1 (rheight l) (rheight r) → fits (rlen l + rlen r) → rok (Cat l r).
Proof. intros [Hl _] [Hr _] Hc Hf. split; [done|]. by rewrite rlen_cat. Qed.

Lemma height_ltb a b : (N.of_nat a <? N.of_nat b)%N = (a <? b).
Proof. destruct (Nat.ltb_spec a b); [apply N.ltb_lt; lia|apply N.ltb_ge; lia]. Qed.
Lemma height_leb a b : (N.of_nat a <=? N.of_nat b)%N = (a <=? b).
Proof. destruct (Nat.leb_spec a b); [apply N.leb_le; lia|apply N.leb_gt; lia]. Qed.

(** The three shapes that a rotation builds. *)
Ltac step_made := eapply implements_bind; [apply make_branch_makes; eauto|intros ? ? ?; cbn [rcat snd] in *].
Lemma nest_right a b c o :
  rok (Cat a (Cat b c)) → ov_inv o → holds o a → holds o b → holds o c →
  makes (x ← make_branch (rope_ref b) (rope_ref c); make_branch (rope_ref a) x)
    (x ← rcat b c; rcat a x) o.
Proof.
  intros Ht Ho Ha Hb Hc. pose proof (rok_cat _ _ Ht) as [_ Hbc]. step_made.
  apply make_branch_makes; held.
Qed.
Lemma nest_left a b c o :
  rok (Cat (Cat a b) c) → ov_inv o → holds o a → holds o b → holds o c →
  makes (x ← make_branch (rope_ref a) (rope_ref b); make_branch x (rope_ref c))
    (x ← rcat a b; rcat x c) o.
Proof.
  intros Ht Ho Ha Hb Hc. pose proof (rok_cat _ _ Ht) as [Hab _]. step_made.
  apply make_branch_makes; held.
Qed.
Lemma nest_both a b c d o :
  rok (Cat (Cat a b) (Cat c d)) → ov_inv o → holds o a → holds o b → holds o c → holds o d →
  makes (x ← make_branch (rope_ref a) (rope_ref b); y ← make_branch (rope_ref c) (rope_ref d);
         make_branch x y)
    (x ← rcat a b; y ← rcat c d; rcat x y) o.
Proof.
  intros Ht Ho Ha Hb Hc Hd. pose proof (rok_cat _ _ Ht) as [Hab Hcd]. step_made.
  eapply implements_bind; [apply make_branch_makes; held|]. intros o2 Hg2 Hh2. cbn [rcat snd] in *.
  apply make_branch_makes; held.
Qed.

Ltac rok_lia := split; [cbn [rwf]; split_and!; try done; height_lia|rewrite !rlen_cat in *;
  match goal with Hf : fits _ |- _ => eapply fits_mono; [|exact Hf] end; lia].
Lemma balance_makes l r o :
  rok l → rok r → close 2 (rheight l) (rheight r) → fits (rlen l + rlen r) → ov_inv o →
  holds o l → holds o r → makes (balance_refs (rope_ref l) (rope_ref r)) (rbalance l r) o.
Proof.
  intros [Hl Hlf] [Hr Hrf] Hc Hf Ho Hhl Hhr. unfold balance_refs, rbalance. cbn [rope_ref lc_height].
  destruct (decide _) as [Hd|Hd].
  { rewrite abs_diff_close by done. apply make_branch_makes; try done. clear Hlf Hrf. rok_lia. }
  rewrite abs_diff_far, height_ltb by done. destruct (Nat.ltb_spec (rheight r) (rheight l)) as [Hlt|Hge].
  - clear Hrf. destruct l as [vs|ll lr]; [pose proof (rheight_pos r); height_lia|].
    apply branch_children_run; [done..|]. intros o1 Hg1 Hhll Hhlr. cbn [rope_ref lc_height].
    rewrite height_leb. clear Hlf. destruct Hl as (Hll & Hlr & Hlc).
    destruct (Nat.leb_spec (rheight lr) (rheight ll)) as [Hle|Hgt].
    + apply nest_right; [rok_lia|held..].
    + destruct lr as [vs|ml mr]; [pose proof (rheight_pos ll); height_lia|].
      pose proof Hlr as (Hml & Hmr & Hmc).
      apply branch_children_run; [rok_lia|held..|]. intros o2 Hg2 Hhml Hhmr.
      apply nest_both; [rok_lia|held..].
  - clear Hlf. destruct r as [vs|rl rr]; [pose proof (rheight_pos l); height_lia|].
    apply branch_children_run; [done..|]. intros o1 Hg1 Hhrl Hhrr. cbn [rope_ref lc_height].
    rewrite height_leb. clear Hrf. destruct Hr as (Hrl & Hrr & Hrc).
    destruct (Nat.leb_spec (rheight rl) (rheight rr)) as [Hle|Hgt].
    + apply nest_left; [rok_lia|held..].
    + destruct rl as [vs|ml mr]; [pose proof (rheight_pos rr); height_lia|].
      pose proof Hrl as (Hml & Hmr & Hmc).
      apply branch_children_run; [rok_lia|held..|]. intros o2 Hg2 Hhml Hhmr.
      apply nest_both; [rok_lia|held..].
Qed.

(** ** Joining *)

Lemma cat_height l r : (N.of_nat (rheight (Cat l r)) =? 1)%N = false.
Proof. apply N.eqb_neq. cbn [rheight]. pose proof (rheight_pos l). lia. Qed.
Lemma join_level_makes l r o :
  rok l → rok r → close 1 (rheight l) (rheight r) → fits (rlen l + rlen r) → ov_inv o →
  holds o l → holds o r → makes (join_level (rope_ref l) (rope_ref r)) (rlevel l r) o.
Proof.
  intros Hl Hr Hc Hf Ho Hhl Hhr. pose proof (rok_pair l r Hl Hr Hc Hf) as Hlr.
  assert (Hcat : ∀ o', grown o o' → makes (make_branch (rope_ref l) (rope_ref r)) (rcat l r) o').
  { intros o' Hg. apply make_branch_makes; held. }
  unfold join_level, rlevel. cbn [rope_ref lc_height].
  destruct l as [vs|ll lr], r as [ws|rl rr].
  2-4: rewrite ?cat_height, ?andb_false_r; cbn [andb]; by apply Hcat, grown_refl.
  cbn [rheight]. cbn [N.of_nat N.eqb andb Pos.eqb].
  apply (implements_load I σ U Hserves Hdistinct Hstore); [done..|]. intros o1 Hg1.
  apply (implements_load I σ U Hserves Hdistinct Hstore); [done|held..|]. intros o2 Hg2.
  cbn [rope_node ln_body rope_body].
  destruct (Nat.leb_spec (length vs + length ws) LOG_FANOUT) as [Hle|Hgt].
  - apply store_leaf_makes; [|held]. destruct Hl as [[Hlv Hv] _], Hr as [[Hlw Hw] _]. split.
    + split; [rewrite length_app; lia|by apply Forall_app].
    + unfold rlen in *. cbn [relems] in *. by rewrite length_app.
  - apply Hcat. by eapply grown_trans.
Qed.

Lemma height_limit t : rok t → checked_add_u8 (N.of_nat (rheight t)) 1 = Some (N.of_nat (S (rheight t))).
Proof.
  intros [_ [_ Hh]]%rok_sized. unfold checked_add_u8. rewrite decide_True by (unfold MAX_LOG_HEIGHT in *; lia).
  f_equal. lia.
Qed.
Lemma rok_fits_sub l r t : rok t → rlen t = rlen l + rlen r → fits (rlen l + rlen r).
Proof. by intros [_ Hf] <-. Qed.
Lemma joined_rok l r : rok l → rok r → fits (rlen l + rlen r) → rok (rjoin l r).2.
Proof.
  intros [Hl _] [Hr _] Hf. destruct (rjoin_joins l r Hl Hr) as [Hwf He _ _]. split; [done|].
  unfold rlen in *. by rewrite He, length_app.
Qed.
Lemma join_makes fuel l r o :
  rheight l + rheight r < fuel → rok l → rok r → fits (rlen l + rlen r) → ov_inv o →
  holds o l → holds o r → makes (join_within fuel (rope_ref l) (rope_ref r)) (rjoin l r) o.
Proof.
  revert l r o. induction fuel as [|fuel IH]; intros l r o Hfuel Hl Hr Hf Ho Hhl Hhr; [lia|].
  cbn [join_within]. cbn [rope_ref lc_height]. rewrite !height_limit, rjoin_eq by done. cbn [ok_or].
  apply implements_done. rewrite height_ltb.
  destruct (Nat.ltb_spec (S (rheight r)) (rheight l)) as [Hlt|Hge].
  { destruct l as [vs|ll lr]; [cbn in Hlt; lia|]. pose proof (rok_cat _ _ Hl) as [Hll Hlr].
    apply branch_children_run; [done..|]. intros o1 Hg1 Hhll Hhlr.
    rewrite rlen_cat in Hf. assert (Hf' : fits (rlen lr + rlen r)) by (eapply fits_mono, Hf; lia).
    eapply implements_bind; [apply IH; try done; [cbn [rheight] in Hfuel; lia|held..]|].
    intros o2 Hg2 Hh2. pose proof Hl as [(_ & _ & Hc) _].
    destruct (rjoin_joins lr r (proj1 Hlr) (proj1 Hr)) as [_ He Hlo Hhi].
    apply balance_makes; [done|by apply joined_rok|unfold close in *; cbn [rheight] in *; lia| |held..].
    unfold rlen in *. rewrite He, length_app. by rewrite Nat.add_assoc. }
  apply implements_done. rewrite height_ltb.
  destruct (Nat.ltb_spec (S (rheight l)) (rheight r)) as [Hlt|Hge'].
  { destruct r as [vs|rl rr]; [cbn in Hlt; lia|]. pose proof (rok_cat _ _ Hr) as [Hrl Hrr].
    apply branch_children_run; [done..|]. intros o1 Hg1 Hhrl Hhrr.
    rewrite rlen_cat in Hf. assert (Hf' : fits (rlen l + rlen rl)) by (eapply fits_mono, Hf; lia).
    eapply implements_bind; [apply IH; try done; [cbn [rheight] in Hfuel; lia|held..]|].
    intros o2 Hg2 Hh2. pose proof Hr as [(_ & _ & Hc) _].
    destruct (rjoin_joins l rl (proj1 Hl) (proj1 Hrl)) as [_ He Hlo Hhi].
    apply balance_makes; [by apply joined_rok|done|unfold close in *; cbn [rheight] in *; lia| |held..].
    unfold rlen in *. rewrite He, length_app. by rewrite <-Nat.add_assoc. }
  apply join_level_makes; done.
Qed.
Lemma join_refs_makes l r o :
  rok l → rok r → fits (rlen l + rlen r) → ov_inv o → holds o l → holds o r →
  makes (join_refs (rope_ref l) (rope_ref r)) (rjoin l r) o.
Proof.
  intros. apply join_makes; try done. unfold fuel_of. cbn [rope_ref lc_height]. lia.
Qed.
End Join.

Section Split.
Context `{Sha256} `{!Resolver LogNode R} (I : R → Prop) (σ : gmap string LogNode) (U : LogNode → Prop).
Hypothesis Hserves : serves I σ.
Hypothesis Hdistinct : distinct_ids U.
Hypothesis Hstore : keyed U σ.

Abbreviation overlay := (Overlay LogNode R).
Abbreviation ov_inv := (ov_inv I σ U).
Abbreviation grown := (grown I σ U).
Abbreviation holds := (holds σ).
Abbreviation lholds := (lholds σ).
Abbreviation implements := (LogRefine.implements I σ U).
Abbreviation llen t := (length (lelems t)).
Definition lref (t : rlog) : option LogRef := rope_ref <$> t.

Lemma lok_fits t : lok t → fits (llen t).
Proof. destruct t as [t|]; [by intros [_ ?]|]. intros _. unfold fits. cbn. by vm_compute. Qed.
Lemma lok_intro t : lwf t → fits (llen t) → lok t.
Proof. by destruct t. Qed.
Lemma lok_lwf t : lok t → lwf t.
Proof. destruct t; [by intros [? _]|done]. Qed.
Lemma rconcat_lok l r : lok l → lok r → fits (llen l + llen r) → lok (rconcat l r).2.
Proof.
  intros Hl%lok_lwf Hr%lok_lwf Hf. destruct (rconcat_spec l r Hl Hr) as [Hwf He].
  apply lok_intro; [done|]. by rewrite He, length_app.
Qed.

Lemma concat_optional_makes l r o :
  lok l → lok r → fits (llen l + llen r) → ov_inv o → lholds o l → lholds o r →
  implements lref lholds (concat_optional (lref l) (lref r)) (rconcat l r) o.
Proof.
  intros Hl Hr Hf Ho Hhl Hhr. destruct l as [l|], r as [r|]; try by apply implements_ret.
  eapply implements_bind; [by apply (join_refs_makes I σ U Hserves Hdistinct Hstore)|].
  intros o1 Hg1 Hh1. apply implements_ret; [held|done|done].
Qed.
Lemma concat_roots_makes l r o :
  lok l → lok r → fits (llen l + llen r) → ov_inv o → lholds o l → lholds o r →
  implements log_root lholds (concat_roots (log_root l) (log_root r)) (rconcat l r) o.
Proof.
  intros Hl Hr Hf Ho Hhl Hhr. unfold concat_roots. rewrite !root_ref_log by done.
  apply implements_done, implements_done. pose proof (rconcat_lok l r Hl Hr Hf) as Hlok.
  destruct l as [l|], r as [r|]; cbn [fmap option_fmap option_map].
  2-4: match goal with |- implements _ _ (Done (ref_root ?v)) (rconcat ?a ?b) _ =>
      change v with (rope_ref <$> (rconcat a b).2); rewrite ref_root_log by done;
      by apply implements_ret end.
  eapply implements_bind; [by apply (join_refs_makes I σ U Hserves Hdistinct Hstore)|].
  intros o1 Hg1 Hh1. change (Some (rope_ref ?t)) with (rope_ref <$> Some t).
  rewrite ref_root_log by done. apply implements_ret; [held|done|done].
Qed.

Lemma rok_singleton v : content_id v → rok (Chunk [v]).
Proof.
  intros Hv. split; [split; [cbn; unfold LOG_FANOUT; lia|by apply Forall_singleton]|].
  unfold fits. by vm_compute.
Qed.
Lemma append_makes t values o :
  lok t → Forall content_id values → fits (llen t + length values) → ov_inv o → lholds o t →
  implements log_root lholds (append_values (log_root t) values) (rappend t values) o.
Proof.
  revert t o. induction values as [|v values IH]; intros t o Ht Hv Hf Ho Hh; cbn [append_values rappend].
  { by apply implements_ret. }
  apply Forall_cons in Hv as [Hv Hvs]. pose proof (rok_singleton v Hv) as Hleaf.
  assert (Hf1 : fits (llen t + llen (Some (Chunk [v])))) by (eapply fits_mono, Hf; cbn; lia).
  eapply implements_bind; [by apply (store_leaf_makes I σ U Hdistinct Hstore)|].
  intros o1 Hg1 Hh1. cbn [rchunk snd] in *.
  change (Some (rope_ref ?t)) with (rope_ref <$> Some t). rewrite ref_root_log by done.
  apply implements_done. eapply implements_bind.
  { apply (concat_roots_makes t (Some (Chunk [v]))); try done; held. }
  intros o2 Hg2 Hh2. apply IH; [by apply rconcat_lok|done| |held|held].
  destruct (rconcat_spec t (Some (Chunk [v]))) as [_ He]; [by apply lok_lwf|apply Hleaf|].
  rewrite He, length_app. eapply fits_mono, Hf. cbn. lia.
Qed.

(** ** Splitting *)

Definition lrefs (p : rlog * rlog) : option LogRef * option LogRef := (lref p.1, lref p.2).
Definition lroots (p : rlog * rlog) : LogRoot * LogRoot := (log_root p.1, log_root p.2).
Definition both (o : overlay) (p : rlog * rlog) : Prop := lholds o p.1 ∧ lholds o p.2.

Lemma splits_lok t i p : lok t → splits (lelems t) i p → lok p.1 ∧ lok p.2.
Proof.
  intros Ht%lok_fits [H1 H2 H3 H4].
  split; apply lok_intro; try done; (eapply fits_mono, Ht); rewrite ?H3, ?H4, ?length_take, ?length_drop; lia.
Qed.
Lemma leaf_split_makes vs i o :
  rok (Chunk vs) → 0 < i < length vs → ov_inv o →
  implements lrefs both
    (lref ← (if i =? 0 then mret None else leaf ← store_leaf (take i vs); mret (Some leaf));
     rref ← (if i =? length vs then mret None else leaf ← store_leaf (drop i vs); mret (Some leaf));
     mret (lref, rref))
    (a ← rchunk (take i vs); b ← rchunk (drop i vs); mret (Some a, Some b)) o.
Proof.
  intros Ht Hi Ho. rewrite (proj2 (Nat.eqb_neq i 0)), (proj2 (Nat.eqb_neq i (length vs))) by lia.
  assert (Hparts : rok (Chunk (take i vs)) ∧ rok (Chunk (drop i vs))).
  { destruct Ht as [[Hl Hv] Hf]. split; (split; [split; [|by apply Forall_take || apply Forall_drop]|]).
    all: unfold rlen in *; cbn [relems] in *; rewrite ?length_take, ?length_drop; try lia.
    all: eapply fits_mono, Hf; lia. }
  destruct Hparts as [Hp Hs]. eapply implements_bind.
  { apply implements_map. by apply (store_leaf_makes I σ U Hdistinct Hstore). }
  intros o1 Hg1 Hh1. eapply implements_bind.
  { apply implements_map. apply (store_leaf_makes I σ U Hdistinct Hstore); [done|held]. }
  intros o2 Hg2 Hh2. apply implements_ret; [held|split; held|done].
Qed.

Lemma split_makes fuel t i o :
  rok t → i ≤ rlen t → rheight t < fuel → ov_inv o → holds o t →
  implements lrefs both (split_within fuel (rope_ref t) (N.of_nat i)) (rsplit t i) o.
Proof.
  revert t i o. induction fuel as [|fuel IH]; intros t i o Ht Hi Hfuel Ho Hh; [lia|].
  cbn [split_within]. cbn [rope_ref lc_len].
  assert (Heqb : ∀ a b, (N.of_nat a =? N.of_nat b)%N = (a =? b)).
  { intros a b. destruct (Nat.eqb_spec a b); [apply N.eqb_eq; lia|apply N.eqb_neq; lia]. }
  change 0%N with (N.of_nat 0). rewrite !Heqb, height_ltb.
  destruct (Nat.eqb_spec i 0) as [->|Hi0].
  { rewrite rsplit_0. apply implements_ret; [done|split; [done|exact Hh]|done]. }
  destruct (Nat.eqb_spec i (rlen t)) as [->|Hin].
  { rewrite rsplit_len by done. apply implements_ret; [done|split; [exact Hh|done]|done]. }
  rewrite (proj2 (Nat.ltb_ge _ _)) by done.
  apply (implements_load I σ U Hserves Hdistinct Hstore); [done..|]. intros o1 Hg1.
  destruct t as [vs|l r]; cbn [rope_node ln_body rope_body lc_len].
  - rewrite Nat2N.id, rsplit_chunk by done. unfold rlen in *. cbn [relems] in *.
    apply leaf_split_makes; [done|lia|held].
  - rewrite rsplit_cat, <-Nat2N.inj_compare by done. fold (rope_id l) (rope_id r). fold (rope_ref l) (rope_ref r).
    pose proof (rok_cat _ _ Ht) as [Hl Hr]. pose proof Ht as [_ Hf]. rewrite rlen_cat in *.
    pose proof (rope_holds_grown I σ U Hstore _ _ _ Ho Hg1 Hh) as (_ & Hhl & Hhr)%holds_cat.
    cbn [rheight] in Hfuel.
    destruct (Nat.compare_spec i (rlen l)) as [->|Hlt|Hgt].
    + apply implements_ret; [held|by split|done].
    + eapply implements_bind; [apply IH; [done|lia|lia|held|done]|].
      intros o2 Hg2 [Hh1 Hh2]. pose proof (rsplit_splits l i (proj1 Hl) ltac:(lia)) as Hs.
      pose proof (splits_lok (Some l) i _ Hl Hs) as [_ Hlok]. destruct Hs as [_ _ _ He].
      eapply implements_bind.
      { apply (concat_optional_makes _ (Some r)); [done|done| |held|done|held].
        rewrite He, length_drop. cbn [lelems]. fold (rlen r). unfold rlen in *. eapply fits_mono, Hf. lia. }
      intros o3 Hg3 Hh3. apply implements_ret; [held|split; held|done].
    + unfold checked_sub. rewrite decide_True by lia. apply implements_done. rewrite <-Nat2N.inj_sub.
      eapply implements_bind; [apply IH; [done|lia|lia|held|done]|].
      intros o2 Hg2 [Hh1 Hh2]. pose proof (rsplit_splits r (i - rlen l) (proj1 Hr) ltac:(lia)) as Hs.
      pose proof (splits_lok (Some r) _ _ Hr Hs) as [Hlok _]. destruct Hs as [_ _ He _].
      eapply implements_bind.
      { apply (concat_optional_makes (Some l)); [done|done| |held|held|done].
        rewrite He, length_take. cbn [lelems]. unfold rlen in *. eapply fits_mono, Hf. lia. }
      intros o3 Hg3 Hh3. apply implements_ret; [held|split; held|done].
Qed.

Lemma split_root_makes t i o :
  lok t → i ≤ llen t → ov_inv o → lholds o t →
  implements lroots both (split_root (log_root t) (N.of_nat i)) (lsplit t i) o.
Proof.
  intros Ht Hi Ho Hh. unfold split_root.
  replace (N.of_nat i <=? lr_len (log_root t))%N with true.
  2: { symmetry. apply N.leb_le. destruct t as [t|]; cbn in *; [unfold rlen|]; lia. }
  apply implements_done. rewrite root_ref_log by done. apply implements_done.
  destruct t as [t|]; cbn [fmap option_fmap option_map].
  2: { by apply implements_ret. }
  unfold split_ref. change (lsplit (Some t) i) with (rsplit t i).
  intros Hu. destruct (split_makes (fuel_of (rope_ref t)) t i o) as (o1 & Hr & Hg & Hb); try done.
  { unfold fuel_of. cbn [rope_ref lc_height]. lia. }
  pose proof (splits_lok (Some t) i _ Ht (rsplit_splits t i (proj1 Ht) Hi)) as [Hl1 Hl2].
  exists o1. rewrite run_prog_bind, Hr. cbn [mbind result_bind fst snd lrefs]. unfold lrefs, lref.
  rewrite !ref_root_log by done. split; [done|by split].
Qed.

(** ** Reading on an overlay *)

Lemma overlay_get_run t i o :
  lok t → ov_inv o → lholds o t →
  match lelems t !! i with
  | Some v => ∃ o', run_prog (overlay_get (log_root t) (N.of_nat i)) o = Ok (o', v) ∧ grown o o'
  | None => run_prog (overlay_get (log_root t) (N.of_nat i)) o = Err MutationConflict
  end.
Proof.
  intros Ht Ho Hh. unfold overlay_get.
  assert (Hlen : lr_len (log_root t) = N.of_nat (llen t)) by by destruct t.
  rewrite Hlen, height_ltb. destruct (Nat.ltb_spec i (llen t)) as [Hlt|Hge].
  - destruct (lookup_lt_is_Some_2 _ _ Hlt) as [v Hv]. rewrite Hv.
    rewrite root_ref_log by done. destruct t as [t|]; [|done].
    cbn [require fmap option_fmap option_map ok_or mbind prog_bind]. rewrite run_prog_reading.
    pose proof (get_path_spec overlay_load (grown o) t (S MAX_LOG_HEIGHT) i o) as Hget.
    cbn [lelems] in Hv. rewrite Hv in Hget. destruct Hget as (o' & Hr & Hg).
    + intros s u Hs Hu. destruct (load_rope I σ U Hserves Hdistinct Hstore s u) as (s' & Hl & Hg).
      * by eapply rok_subrope.
      * apply Hs.
      * eapply known_grown; [exact Hstore|exact Ho|exact Hs|]. by apply Hh.
      * exists s'. split; [done|by eapply grown_trans].
    + by apply grown_refl.
    + destruct Ht as [Hwf Hf]. pose proof (fits_height t Hwf Hf). lia.
    + by exists o'.
  - by rewrite (lookup_ge_None_2 _ _ Hge).
Qed.
End Split.
