(* ===== verification/LogApply.v ===== *)
(** * Batches of mutations

    What a batch of mutations means for the values of a log and for its rope,
    and that the program computes it: the root of the mutated rope, or a
    conflict exactly when an expectation of the batch fails. *)

From S2P Require Import Prelude Identity CommandIndex CollectionHash Collections Stores LogNode.
From S2P Require Import LogTree Rope LogRefine LogJoin.

(** ** Mutations of values *)

Definition edit (elems : list string) (mutation : LogMutation) : option (list string) :=
  match mutation with
  | LogAppend values => Some (elems ++ values)
  | InsertAt index value =>
      let i := N.to_nat index in
      if i <=? length elems then Some (take i elems ++ value :: drop i elems) else None
  | ReplaceAt index expected value =>
      let i := N.to_nat index in
      if bool_decide (elems !! i = Some expected) then Some (<[i := value]> elems) else None
  | ReplacePrefix count _ replacement =>
      let c := N.to_nat count in
      if c <=? length elems then Some (replacement ++ drop c elems) else None
  | RemoveAt index expected =>
      let i := N.to_nat index in
      if bool_decide (elems !! i = Some expected) then Some (delete i elems) else None
  end.
Fixpoint edits (elems : list string) (mutations : list LogMutation) : option (list string) :=
  match mutations with
  | [] => Some elems
  | mutation :: mutations => elems ← edit elems mutation; edits elems mutations
  end.

Section Mutate.
Context `{Sha256}.

(** ** Mutations of ropes *)

Definition rinsert (a : rlog) (value : string) (b : rlog) : made rlog :=
  leaf ← rchunk [value]; p ← rconcat a (Some leaf); rconcat p b.
Definition keep (t : rlog) : made (option rlog) := mret (Some t).
Definition conflict : made (option rlog) := mret None.
(** One mutation; a prefix is expected by its root, which determines its values
    and its shape. *)
Definition mutate (t : rlog) (mutation : LogMutation) : made (option rlog) :=
  match mutation with
  | LogAppend values => rappend t values ≫= keep
  | InsertAt index value =>
      let i := N.to_nat index in
      if i <=? length (lelems t) then
        parts ← lsplit t i; rinsert parts.1 value parts.2 ≫= keep
      else conflict
  | ReplaceAt index expected value =>
      let i := N.to_nat index in
      if bool_decide (lelems t !! i = Some expected) then
        parts ← lsplit t i; rest ← lsplit parts.2 1; rinsert parts.1 value rest.2 ≫= keep
      else conflict
  | ReplacePrefix count expected_prefix replacement =>
      let c := N.to_nat count in
      if c <=? length (lelems t) then
        parts ← lsplit t c;
        if bool_decide (log_root parts.1 = expected_prefix) then
          replaced ← rappend None replacement;
          if bool_decide (log_root replaced = log_root parts.1) then conflict
          else rconcat replaced parts.2 ≫= keep
        else conflict
      else conflict
  | RemoveAt index expected =>
      let i := N.to_nat index in
      if bool_decide (lelems t !! i = Some expected) then
        parts ← lsplit t i; rest ← lsplit parts.2 1; rconcat parts.1 rest.2 ≫= keep
      else conflict
  end.
Fixpoint mutate_all (t : rlog) (mutations : list LogMutation) : made (option rlog) :=
  match mutations with
  | [] => keep t
  | mutation :: mutations =>
      next ← mutate t mutation;
      match next with Some t => mutate_all t mutations | None => conflict end
  end.

Definition mutation_ok (mutation : LogMutation) : Prop := LogMutation_verify mutation = Ok ().

Lemma rinsert_spec a v b :
  lwf a → lwf b → content_id v →
  lwf (rinsert a v b).2 ∧ lelems (rinsert a v b).2 = lelems a ++ v :: lelems b.
Proof.
  intros Ha Hb Hv. unfold rinsert. rewrite !made_snd. cbn [rchunk snd].
  destruct (rconcat_spec a (Some (Chunk [v]))) as [Hwf He]; [done|apply (rok_singleton v Hv)|].
  destruct (rconcat_spec (rconcat a (Some (Chunk [v]))).2 b Hwf Hb) as [Hwf' He']. split; [done|].
  rewrite He', He, <-app_assoc. done.
Qed.
(** The values around the ordinal that two splits cut out. *)
Lemma cut_spec t i v :
  lwf t → lelems t !! i = Some v →
  let a := (lsplit t i).2.1 in let b := (lsplit (lsplit t i).2.2 1).2.2 in
  lwf a ∧ lwf b ∧ lelems a = take i (lelems t) ∧ lelems b = drop (S i) (lelems t).
Proof.
  intros Ht Hi. pose proof (lookup_lt_Some _ _ _ Hi) as Hlt.
  destruct (lsplit_splits t i Ht ltac:(lia)) as [H1 H2 H3 H4].
  destruct (lsplit_splits (lsplit t i).2.2 1 H2) as [_ H5 _ H6].
  { rewrite H4, length_drop. lia. }
  split_and!; try done. rewrite H6, H4, drop_drop. f_equal. lia.
Qed.

Lemma mutate_elems t mutation t' :
  lwf t → mutation_ok mutation → (mutate t mutation).2 = Some t' →
  lwf t' ∧ edit (lelems t) mutation = Some (lelems t').
Proof.
  intros Ht Hm. unfold mutation_ok in Hm. destruct mutation as [vs|i v|i e v|c p vs|i e];
    cbn [mutate LogMutation_verify edit] in *; inv_ok; to_prop.
  - intros [= <-]. destruct (rappend_spec t vs Ht) as [Hwf ->]; [|done].
    apply Forall_forall. by eapply try_each_Ok.
  - destruct (Nat.leb_spec (N.to_nat i) (length (lelems t))) as [Hle|]; [|done]. intros [= <-].
    destruct (lsplit_splits t _ Ht Hle) as [W1 W2 E1 E2].
    destruct (rinsert_spec _ v _ W1 W2) as [Hwf He]; [done|].
    split; [exact Hwf|]. f_equal. cbn [snd]. etrans; [|symmetry; exact He]. by rewrite E1, E2.
  - case_bool_decide as Hi; [|done]. intros [= <-]. destruct (cut_spec t _ e Ht Hi) as (W1 & W2 & E1 & E2).
    destruct (rinsert_spec _ v _ W1 W2) as [Hwf He]; [done|].
    split; [exact Hwf|]. f_equal. etrans; [|symmetry; exact He]. rewrite E1, E2.
    apply insert_take_drop. by eapply lookup_lt_Some.
  - destruct (Nat.leb_spec (N.to_nat c) (length (lelems t))) as [Hle|]; [|done]. rewrite made_snd.
    destruct (lsplit_splits t _ Ht Hle) as [W1 W2 E1 E2].
    case_bool_decide; [|done]. rewrite made_snd. case_bool_decide; [done|]. intros [= <-].
    destruct (rappend_spec None vs) as [Hwf He]; [done|apply Forall_forall; by eapply try_each_Ok|].
    destruct (rconcat_spec _ _ Hwf W2) as [Hwf' He']. split; [exact Hwf'|]. f_equal.
    etrans; [|symmetry; exact He']. by rewrite He, E2.
  - case_bool_decide as Hi; [|done]. intros [= <-]. destruct (cut_spec t _ e Ht Hi) as (W1 & W2 & E1 & E2).
    destruct (rconcat_spec _ _ W1 W2) as [Hwf He].
    split; [exact Hwf|]. f_equal. etrans; [|symmetry; exact He]. rewrite E1, E2.
    apply delete_take_drop.
Qed.
End Mutate.

Section Perform.
Context `{Sha256} `{!Resolver LogNode R} (I : R → Prop) (σ : gmap string LogNode) (U : LogNode → Prop).
Hypothesis Hserves : serves I σ.
Hypothesis Hdistinct : distinct_ids U.
Hypothesis Hstore : keyed U σ.

Abbreviation overlay := (Overlay LogNode R).
Abbreviation ov_inv := (ov_inv I σ U).
Abbreviation grown := (grown I σ U).
Abbreviation lholds := (lholds σ).
Abbreviation implements := (LogRefine.implements I σ U).
Abbreviation llen t := (length (lelems t)).

(** The program computes the root of what [m] makes, or the conflict. *)
Definition performs (p : LogProg LogRoot) (m : made (option rlog)) (o : overlay) : Prop :=
  (∀ t, t ∈ m.1 → rok t → U (rope_node t)) →
  match m.2 with
  | Some t => ∃ o', run_prog p o = Ok (o', log_root t) ∧ grown o o' ∧ lholds o' t
  | None => run_prog p o = Err MutationConflict
  end.
Lemma performs_keep p m o : implements log_root lholds p m o → performs p (m ≫= keep) o.
Proof.
  intros Hp Hu. rewrite made_snd. cbn [keep snd mret made_ret]. apply Hp. intros t Ht. apply Hu.
  rewrite made_fst. apply elem_of_app. by left.
Qed.
Lemma performs_bind {A B} (rep : A → B) own p m f g o :
  implements rep own p m o → ov_inv o →
  (∀ o', grown o o' → own o' m.2 → performs (f (rep m.2)) (g m.2) o') →
  performs (p ≫= f) (m ≫= g) o.
Proof.
  intros Hp Ho Hf Hu. rewrite made_fst in Hu. setoid_rewrite elem_of_app in Hu.
  destruct Hp as (o1 & Hr & Hg & Hown); [auto|]. specialize (Hf o1 Hg Hown). unfold performs in Hf.
  rewrite made_snd. destruct (g m.2).2 as [t|].
  - destruct Hf as (o2 & Hr2 & Hg2 & Hh); [auto|]. exists o2. rewrite run_prog_bind, Hr.
    split; [exact Hr2|]. split; [by eapply grown_trans|done].
  - rewrite run_prog_bind, Hr. apply Hf. auto.
Qed.
Lemma performs_conflict {C} (f : C → LogProg LogRoot) o :
  performs (Done (Err MutationConflict) ≫= f) conflict o.
Proof. intros _. done. Qed.
Lemma performs_done {C} (c : C) (f : C → LogProg LogRoot) m o : performs (f c) m o → performs (Done (Ok c) ≫= f) m o.
Proof. done. Qed.

Lemma insert_between_makes a v b o :
  lok a → lok b → content_id v → fits (S (llen a + llen b)) → ov_inv o → lholds o a → lholds o b →
  implements log_root lholds (insert_between (log_root a) v (log_root b)) (rinsert a v b) o.
Proof.
  intros Ha Hb Hv Hf Ho Hha Hhb. pose proof (rok_singleton v Hv) as Hleaf.
  unfold insert_between, rinsert.
  eapply implements_bind; [by apply (store_leaf_makes I σ U Hdistinct Hstore)|]. intros o1 Hg1 Hh1.
  cbn [rchunk snd] in *. change (Some (rope_ref ?t)) with (rope_ref <$> Some t).
  rewrite ref_root_log by done. apply implements_done.
  assert (Hf1 : fits (llen a + llen (Some (Chunk [v])))) by (eapply fits_mono, Hf; cbn; lia).
  eapply implements_bind.
  { apply (concat_roots_makes I σ U Hserves Hdistinct Hstore a (Some (Chunk [v]))); [done..|held|held|done]. }
  intros o2 Hg2 Hh2. apply (concat_roots_makes I σ U Hserves Hdistinct Hstore); try done; try held.
  - by apply rconcat_lok.
  - destruct (rconcat_spec a (Some (Chunk [v]))) as [_ He]; [by apply lok_lwf|apply Hleaf|].
    rewrite He, length_app. eapply fits_mono, Hf. cbn. lia.
Qed.
(** The two splits around an ordinal, before the program goes on. *)
Lemma cut_performs {i v} t (f : LogRoot → LogRoot → LogProg LogRoot)
    (g : rlog → rlog → made (option rlog)) o :
  lok t → lelems t !! i = Some v → ov_inv o → lholds o t →
  (∀ o' a b, grown o o' → lok a → lok b → lholds o' a → lholds o' b →
     lelems a = take i (lelems t) → lelems b = drop (S i) (lelems t) →
     performs (f (log_root a) (log_root b)) (g a b) o') →
  performs (parts ← split_root (log_root t) (N.of_nat i);
            rest ← split_root parts.2 1; f parts.1 rest.2)
    (parts ← lsplit t i; rest ← lsplit parts.2 1; g parts.1 rest.2) o.
Proof.
  intros Ht Hi Ho Hh Hf. pose proof (lookup_lt_Some _ _ _ Hi) as Hlt.
  destruct (cut_spec t i v (lok_lwf t Ht) Hi) as (_ & _ & E1 & E2).
  pose proof (lsplit_splits t i (lok_lwf t Ht) ltac:(lia)) as Hs1.
  destruct (splits_lok t i _ Ht Hs1) as [L1 L2].
  assert (Hle : 1 ≤ llen (lsplit t i).2.2) by (rewrite (sp_right _ _ _ Hs1), length_drop; lia).
  destruct (splits_lok _ 1 _ L2 (lsplit_splits _ 1 (lok_lwf _ L2) Hle)) as [_ L3].
  eapply performs_bind; [apply (split_root_makes I σ U Hserves Hdistinct Hstore); try done; lia|done|].
  intros o1 Hg1 [Hp Hq]. eapply performs_bind.
  { apply (split_root_makes I σ U Hserves Hdistinct Hstore _ 1); [done..|held|done]. }
  { held. }
  intros o2 Hg2 [_ Hr]. apply Hf; try done; try held. by eapply grown_trans.
Qed.

(** An ordinal whose value is expected, and conflicts otherwise. *)
Lemma expected_performs t j e p m o :
  lok t → ov_inv o → lholds o t →
  (∀ o', grown o o' → lelems t !! j = Some e → performs p m o') →
  performs (current ← overlay_get (log_root t) (N.of_nat j);
            _ ← Done (require (bool_decide (current = e)) MutationConflict); p)
    (if bool_decide (lelems t !! j = Some e) then m else conflict) o.
Proof.
  intros Ht Ho Hh Hp. pose proof (overlay_get_run I σ U Hserves Hdistinct Hstore t j o Ht Ho Hh) as Hget.
  destruct (lelems t !! j) as [v|].
  - destruct Hget as (o1 & Hr & Hg). intros Hu. rewrite !run_prog_bind, Hr. cbn [mbind result_bind fst snd].
    destruct (decide (v = e)) as [->|Hne].
    + rewrite !bool_decide_eq_true_2 in * by done. specialize (Hp o1 Hg eq_refl Hu).
      cbn [require mbind prog_bind].
      destruct m.2 as [t'|]; [|exact Hp].
      destruct Hp as (o2 & Hr2 & Hg2 & Hh2). exists o2. split; [exact Hr2|]. split; [by eapply grown_trans|done].
    + rewrite (bool_decide_eq_false_2 (v = e)), (bool_decide_eq_false_2 (Some v = Some e)) by congruence. done.
  - intros _. rewrite run_prog_bind, Hget. by rewrite bool_decide_eq_false_2.
Qed.

Definition values_of (mutation : LogMutation) : nat := N.to_nat (log_mutation_values mutation).
Lemma mutation_performs t mutation o :
  lok t → mutation_ok mutation → fits (llen t + values_of mutation) → ov_inv o → lholds o t →
  performs (apply_log_mutation (log_root t) mutation) (mutate t mutation) o.
Proof.
  intros Ht Hm Hf Ho Hh. unfold mutation_ok in Hm.
  assert (Hlen : lr_len (log_root t) = N.of_nat (llen t)) by by destruct t.
  assert (Hval : ∀ vs, try_each validate_collection_id vs = Ok () → Forall content_id vs).
  { intros vs Hvs. apply Forall_forall. by eapply try_each_Ok. }
  assert (Hnat : ∀ i, ∃ j, i = N.of_nat j) by (intros i; exists (N.to_nat i); lia).
  unfold values_of in Hf. destruct mutation as [vs|i v|i e v|c p vs|i e];
    cbn [apply_log_mutation mutate LogMutation_verify log_mutation_values] in *; inv_ok; to_prop;
    try destruct (Hnat i) as [j ->]; try destruct (Hnat c) as [d ->]; rewrite ?Nat2N.id in *.
  - apply performs_keep, (append_makes I σ U Hserves Hdistinct Hstore); auto.
  - rewrite Hlen, height_leb. destruct (Nat.leb_spec j (llen t)) as [Hle|]; [|apply performs_conflict].
    apply performs_done.
    destruct (splits_lok t j _ Ht (lsplit_splits t j (lok_lwf t Ht) Hle)) as [L1 L2].
    destruct (lsplit_splits t j (lok_lwf t Ht) Hle) as [_ _ E1 E2].
    eapply performs_bind; [by apply (split_root_makes I σ U Hserves Hdistinct Hstore)|done|].
    intros o1 Hg1 [Hp Hq]. apply performs_keep, insert_between_makes; try done; try held.
    rewrite E1, E2, length_take, length_drop. eapply fits_mono, Hf. lia.
  - apply expected_performs; [done..|]. intros o1 Hg1 Hi.
    apply (cut_performs (i:=j) (v:=e) t (λ a b, insert_between a v b) (λ a b, rinsert a v b ≫= keep));
      [done..|held|held|].
    intros o2 a b Hg2 La Lb Hha Hhb Ea Eb. apply performs_keep, insert_between_makes; try done; try held.
    rewrite Ea, Eb, length_take, length_drop. eapply fits_mono, Hf. lia.
  - rewrite Hlen, height_leb. destruct (Nat.leb_spec d (llen t)) as [Hle|]; [|apply performs_conflict].
    apply performs_done.
    destruct (splits_lok t d _ Ht (lsplit_splits t d (lok_lwf t Ht) Hle)) as [L1 L2].
    destruct (lsplit_splits t d (lok_lwf t Ht) Hle) as [_ _ E1 E2].
    eapply performs_bind; [by apply (split_root_makes I σ U Hserves Hdistinct Hstore)|done|].
    intros o1 Hg1 [Hp Hq]. cbn [lroots fst snd].
    case_bool_decide; [|apply performs_conflict]. apply performs_done.
    assert (Hf1 : fits (llen None + length vs)) by (eapply fits_mono, Hf; cbn; lia).
    destruct (rappend_spec None vs) as [W3 E3]; [done|auto|].
    eapply performs_bind.
    { apply (append_makes I σ U Hserves Hdistinct Hstore None); auto; try done; held. }
    { held. }
    intros o2 Hg2 Hh2. case_bool_decide; [apply performs_conflict|]. apply performs_done, performs_keep.
    apply (concat_roots_makes I σ U Hserves Hdistinct Hstore); try done; try held.
    + apply lok_intro; [done|]. by rewrite E3.
    + rewrite E2, E3, length_drop. cbn [lelems app]. eapply fits_mono, Hf. lia.
  - apply expected_performs; [done..|]. intros o1 Hg1 Hi.
    apply (cut_performs (i:=j) (v:=e) t concat_roots (λ a b, rconcat a b ≫= keep)); [done..|held|held|].
    intros o2 a b Hg2 La Lb Hha Hhb Ea Eb.
    apply performs_keep, (concat_roots_makes I σ U Hserves Hdistinct Hstore); try done; try held.
    rewrite Ea, Eb, length_take, length_drop. eapply fits_mono, Hf. lia.
Qed.

(** ** Batches *)

Definition batch_values (mutations : list LogMutation) : nat := sum_list (values_of <$> mutations).
(** A batch for which the capacity of the log suffices. *)
Record ready (t : rlog) (mutations : list LogMutation) : Prop := {
  rd_log : lok t;
  rd_mutations : Forall mutation_ok mutations;
  rd_fits : fits (llen t + batch_values mutations);
}.
Lemma edit_length elems mutation elems' :
  edit elems mutation = Some elems' → length elems' ≤ length elems + values_of mutation.
Proof.
  unfold values_of. destruct mutation as [vs|i v|i e v|c p vs|i e]; cbn [edit log_mutation_values];
    try (case_match; [|done]); intros [= <-];
    rewrite ?length_app, ?length_cons, ?length_take, ?length_drop, ?length_insert; try lia.
  rewrite length_delete by (eapply bool_decide_eq_true_1 in H0; by eexists). lia.
Qed.
Lemma ready_next t mutation mutations t' :
  ready t (mutation :: mutations) → (mutate t mutation).2 = Some t' → ready t' mutations.
Proof.
  intros [Ht Hm Hf] Hmu. apply Forall_cons in Hm as [Hmo Hms]. cbn in Hf.
  destruct (mutate_elems t mutation t' (lok_lwf t Ht) Hmo Hmu) as [Hwf He].
  pose proof (edit_length _ _ _ He) as Hlen.
  split; [|done|]; [apply lok_intro; [done|]|]; (eapply fits_mono, Hf); unfold batch_values; lia.
Qed.
Lemma mutate_all_elems t mutations t' :
  ready t mutations → (mutate_all t mutations).2 = Some t' →
  lok t' ∧ edits (lelems t) mutations = Some (lelems t').
Proof.
  revert t. induction mutations as [|mu mutations IH]; intros t Hr; cbn [mutate_all edits].
  - intros [= <-]. split; [apply Hr|done].
  - rewrite made_snd. destruct (mutate t mu).2 as [t1|] eqn:Hmu; [|done]. intros Hall.
    destruct (mutate_elems t mu t1) as [_ He]; [apply lok_lwf, Hr|by eapply Forall_inv, Hr|done|].
    rewrite He. cbn. apply IH; [by eapply ready_next|done].
Qed.
Lemma loop_performs t mutations o :
  ready t mutations → ov_inv o → lholds o t →
  performs (apply_log_loop (log_root t) mutations) (mutate_all t mutations) o.
Proof.
  revert t o. induction mutations as [|mu mutations IH]; intros t o Hr Ho Hh.
  - cbn [apply_log_loop mutate_all]. intros _. exists o. split; [done|]. split; [by apply grown_refl|done].
  - cbn [apply_log_loop mutate_all]. pose proof Hr as [Ht Hm Hf]. apply Forall_cons in Hm as [Hmo _]. intros Hu.
    rewrite made_fst in Hu. setoid_rewrite elem_of_app in Hu. rewrite made_snd.
    assert (Hf1 : fits (llen t + values_of mu)) by (eapply fits_mono, Hf; cbn; lia).
    pose proof (mutation_performs t mu o Ht Hmo Hf1 Ho Hh ltac:(auto)) as Hmu.
    destruct (mutate t mu).2 as [t1|] eqn:Ht1.
    + destruct Hmu as (o1 & Hr1 & Hg1 & Hh1). rewrite run_prog_bind, Hr1.
      cbn [mbind result_bind fst snd].
      pose proof (IH t1 o1 (ready_next _ _ _ _ Hr Ht1) (proj1 Hg1) Hh1 ltac:(auto)) as Hrest.
      destruct (mutate_all t1 mutations).2 as [t2|]; [|done].
      destruct Hrest as (o2 & Hr2 & Hg2 & Hh2). exists o2. split; [done|]. split; [by eapply grown_trans|done].
    + by rewrite run_prog_bind, Hmu.
Qed.
Lemma apply_performs t mutations o :
  ready t mutations → ov_inv o → lholds o t →
  performs (apply_log_internal (log_root t) mutations) (mutate_all t mutations) o.
Proof.
  intros Hr Ho Hh Hu. pose proof (loop_performs t mutations o Hr Ho Hh Hu) as Hloop.
  unfold apply_log_internal. destruct (mutate_all t mutations).2 as [t'|] eqn:Hm.
  - destruct Hloop as (o1 & Hr1 & Hg & Hh1). exists o1. rewrite run_prog_bind, Hr1.
    cbn [mbind result_bind fst snd]. destruct (mutate_all_elems _ _ _ Hr Hm) as [Hlok _].
    rewrite log_root_verify by done. by split.
  - by rewrite run_prog_bind, Hloop.
Qed.
End Perform.
