(* ===== verification/LogSound.v ===== *)
(** * Verified proofs, ranges and audits of the log

    A node of a log is determined by its identity, as long as the inputs of the
    hash function contain no collision, so that a run that succeeds on a proof
    is a run on the log.  A range reads consecutive values from an ordinal on,
    until the limit or the byte budget is reached.  What the traversal of
    [audit_log] accepts is the node tree of a balanced rope. *)

From S2P Require Import Prelude Identity CommandIndex IndexSound CollectionHash Collections.
From S2P Require Import Stores LogNode LogTree LogProof Rope LogRefine LogJoin LogApply.

Section Inputs.
Context `{Sha256}.

(** What is hashed for the identity of a node. *)
Definition log_node_input (n : LogNode) : string :=
  collection_preimage LOG_NODE_VERSION (log_node_fields (ln_body n)).
Definition plain_log_nodes (nodes : list LogNode) : Prop := collision_free (log_node_input <$> nodes).

(** ** Fields of a verified node *)

Lemma verified_log_id n :
  verified n → ln_version n = LOG_NODE_VERSION ∧ ln_object_id n = log_node_id (ln_body n).
Proof. unfold verified, node_verify, log_kind, LogNode_verify. intros Hv. inv_ok. by to_prop. Qed.
Lemma verified_log_leaf n values :
  verified n → ln_body n = LogLeaf values →
  1 ≤ length values ≤ LOG_FANOUT ∧ Forall content_id values.
Proof.
  unfold verified, node_verify, log_kind, LogNode_verify. intros Hv Hb. rewrite Hb in Hv. inv_ok.
  match goal with Hx : try_each _ _ = Ok ?u |- _ => destruct u; rename Hx into Hall end.
  split; [|by apply Forall_forall; eapply try_each_Ok].
  to_prop. destruct (Nat.eqb_spec (length values) 0), (Nat.ltb_spec LOG_FANOUT (length values)); done || lia.
Qed.
Lemma log_child_valid c :
  LogChild_verify c = Ok () →
  byte_len (lc_object_id c) = 71%N ∧ (1 ≤ lc_len c ≤ MAX_EXACT_INTEGER)%N
  ∧ (1 ≤ lc_height c ≤ N.of_nat MAX_LOG_HEIGHT)%N.
Proof.
  unfold LogChild_verify. intros Hc. inv_ok. to_prop.
  split; [by apply id_short|]. split; lia.
Qed.
Lemma verified_log_branch n lchild rchild :
  verified n → ln_body n = LogBranch lchild rchild →
  LogChild_verify lchild = Ok () ∧ LogChild_verify rchild = Ok ()
  ∧ (abs_diff (lc_height lchild) (lc_height rchild) ≤ 1)%N
  ∧ LogNode_value_count n = Ok (lc_len lchild + lc_len rchild)%N
  ∧ LogNode_height n = Ok (N.max (lc_height lchild) (lc_height rchild) + 1)%N.
Proof.
  unfold verified, node_verify, log_kind, LogNode_verify. intros Hv Hb. rewrite Hb in Hv. inv_ok.
  to_prop. split_and!; try done.
  - rewrite H5. unfold LogNode_value_count in H5. rewrite Hb in H5. inv_ok.
    apply opt_filter_Some in H5 as [[-> _]%checked_add_Some _]. done.
  - rewrite H6. unfold LogNode_height in H6. rewrite Hb in H6. inv_ok.
    unfold checked_add_u8 in *. by case_decide; simplify_eq.
Qed.

(** ** Identity of nodes *)

Lemma log_fields_short n : verified n → Forall short (log_node_fields (ln_body n)).
Proof.
  assert (H71 : (71 ≤ u64_max)%N) by by vm_compute.
  assert (Hid : ∀ s, byte_len s = 71%N → short s) by (intros s Hs; by eapply short_field).
  assert (Hnum : ∀ i w, i < 9 → short (to_be_bytes i w)).
  { intros i w Hi. eapply short_field; [apply to_be_bytes_len|]. unfold u64_max. lia. }
  intros Hv. destruct (ln_body n) as [vs|l r] eqn:Hb; cbn [log_node_fields].
  - destruct (verified_log_leaf _ _ Hv Hb) as [_ Hvs]. apply Forall_cons. split; [done|].
    apply Forall_cons. split; [apply Hnum; lia|]. eapply Forall_impl; [exact Hvs|].
    intros v Hval%id_short. auto.
  - destruct (verified_log_branch _ _ _ Hv Hb) as ([Hl _]%log_child_valid & [Hr _]%log_child_valid & _).
    repeat apply Forall_cons_2; auto; try done; apply Hnum; lia.
Qed.
Lemma log_child_eq c1 c2 :
  LogChild_verify c1 = Ok () → LogChild_verify c2 = Ok () → lc_object_id c1 = lc_object_id c2 →
  to_be_bytes 8 (lc_len c1) = to_be_bytes 8 (lc_len c2) →
  to_be_bytes 1 (lc_height c1) = to_be_bytes 1 (lc_height c2) → c1 = c2.
Proof.
  intros (_ & Hl1 & Hh1)%log_child_valid (_ & Hl2 & Hh2)%log_child_valid Hid Hl Hh.
  apply to_be_bytes_inj in Hl; [|unfold MAX_EXACT_INTEGER in *; lia..].
  apply to_be_bytes_inj in Hh; [|unfold MAX_LOG_HEIGHT in *; lia..].
  destruct c1, c2. cbn in *. congruence.
Qed.
Lemma log_fields_inj n m :
  verified n → verified m → log_node_fields (ln_body n) = log_node_fields (ln_body m) →
  ln_body n = ln_body m.
Proof.
  intros Hn Hm. destruct (ln_body n) as [vs|l r] eqn:Hbn, (ln_body m) as [ws|l' r'] eqn:Hbm;
    unfold log_node_fields; rewrite !cons_eq; [by intros (_ & _ & ->)|naive_solver|naive_solver|].
  intros (_ & ? & ? & ? & ? & ? & ? & _).
  destruct (verified_log_branch _ _ _ Hn Hbn) as (? & ? & _).
  destruct (verified_log_branch _ _ _ Hm Hbm) as (? & ? & _). f_equal; by apply log_child_eq.
Qed.
Lemma log_fields_length n : verified n → (N.of_nat (length (log_node_fields (ln_body n))) ≤ u64_max)%N.
Proof.
  intros Hv. destruct (ln_body n) as [vs|l r] eqn:Hb; [|done].
  destruct (verified_log_leaf _ _ Hv Hb) as [[_ Hl] _]. cbn [log_node_fields length].
  unfold LOG_FANOUT, u64_max in *. lia.
Qed.
Lemma distinct_verified_log nodes : plain_log_nodes nodes → distinct_ids (among nodes).
Proof.
  intros Hc n m [Hn Hin] [Hm Him] Hid. destruct (verified_log_id n Hn) as [Hvn Hidn].
  destruct (verified_log_id m Hm) as [Hvm Hidm]. cbn [node_id log_kind] in Hid.
  rewrite Hidn, Hidm in Hid. unfold log_node_id in Hid.
  assert (Hb : ln_body n = ln_body m).
  { apply log_fields_inj; [done..|]. apply hash_identifier_inj in Hid.
    apply Hc in Hid; [|by apply (list_elem_of_fmap_2 log_node_input)..].
    eapply collection_preimage_inj in Hid;
      [done|by apply log_fields_short|by apply log_fields_short|by apply log_fields_length..|done]. }
  destruct n, m. cbn in *. congruence.
Qed.
End Inputs.

(** ** Runs on the nodes of a proof *)

Section Contents.
Context `{Sha256}.

Definition made_nodes {A} (m : made A) : list LogNode := rope_node <$> m.1.
Definition with_log (σ : gmap string LogNode) (t : rlog) : gmap string LogNode :=
  σ ∪ node_map (log_nodes t).

Lemma log_nodes_verified t n : lok t → n ∈ log_nodes t → verified n.
Proof.
  destruct t as [t|]; cbn [lok log_nodes]; [|by intros _ ?%elem_of_nil].
  intros Ht (u & -> & Hu)%list_elem_of_fmap. by eapply rope_node_verify, rok_subrope.
Qed.
Section Runs.
Context (U : LogNode → Prop) (σ : gmap string LogNode) (t : rlog).
Hypothesis Hdistinct : distinct_ids U.
Hypothesis Hkeyed : keyed U σ.
Hypothesis Hlog : ∀ n, n ∈ log_nodes t → U n.
Hypothesis Hok : lok t.

Lemma with_log_keyed : keyed U (with_log σ t).
Proof using Hdistinct Hkeyed Hlog. apply keyed_union; [done|done|]. by apply node_map_keyed. Qed.
Lemma with_log_lookup n : n ∈ log_nodes t → with_log σ t !! node_id n = Some n.
Proof using Hdistinct Hkeyed Hlog.
  intros Hn. destruct (keyed_union U Hdistinct σ (node_map (log_nodes t)) Hkeyed) as [_ Hsub];
    [by apply node_map_keyed|].
  eapply lookup_weaken; [|exact Hsub]. by apply (node_map_lookup (H:=log_kind) U).
Qed.
Lemma with_log_holds `{Resolver LogNode R} (o : Overlay LogNode R) : lholds (with_log σ t) o t.
Proof using Hdistinct Hkeyed Hlog Hok.
  pose proof with_log_lookup as Hl. destruct t as [u|]; [|done]. intros v Hv. right.
  apply Hl. by apply list_elem_of_fmap_2.
Qed.
Lemma with_log_answers u : t = Some u → answers load_resolved (λ s, s = with_log σ t) u.
Proof using Hdistinct Hkeyed Hlog Hok.
  intros Ht s v -> Hv. assert (Hrok : rok v) by (rewrite Ht in Hok; by eapply rok_subrope).
  apply (load_resolved_served _ (with_log σ t)); [apply memory_serves|done| | |done|].
  - apply (with_log_lookup (rope_node v)). rewrite Ht. by apply list_elem_of_fmap_2.
  - by apply rope_node_verify.
  - by apply rope_same_counts.
Qed.

Section Resolved.
Context `{!Resolver LogNode R} (I : R → Prop) (r : R).
Hypothesis Hserves : serves I σ.
Hypothesis HI : I r.

Lemma log_apply_run mutations o root :
  ready t mutations →
  (∀ u, u ∈ (mutate_all t mutations).1 → rok u → U (rope_node u)) →
  run_prog (apply_log_internal (log_root t) mutations) (Overlay_new r) = Ok (o, root) →
  ∃ t', (mutate_all t mutations).2 = Some t' ∧ root = log_root t'.
Proof using All.
  intros Hr Hu Hrun.
  apply (run_prog_weaken I σ (with_log σ t) Hserves (map_union_subseteq_l _ _)) in Hrun; [|done].
  pose proof (apply_performs (λ s, s = with_log σ t) (with_log σ t) U (memory_serves _) Hdistinct
    with_log_keyed t mutations (on_store (with_log σ t) (Overlay_new r)) Hr) as Hp.
  unfold performs in Hp. destruct (mutate_all t mutations).2 as [t'|].
  - destruct Hp as (o' & Hp & _); [by apply new_inv|apply with_log_holds|done|].
    exists t'. split; [done|]. congruence.
  - rewrite Hp in Hrun; [done|by apply new_inv|apply with_log_holds|done].
Qed.
Lemma log_split_run i o roots :
  i ≤ length (lelems t) → (∀ u, u ∈ (lsplit t i).1 → rok u → U (rope_node u)) →
  run_prog (split_root (log_root t) (N.of_nat i)) (Overlay_new r) = Ok (o, roots) →
  roots = lroots (lsplit t i).2.
Proof using All.
  intros Hi Hu Hrun.
  apply (run_prog_weaken I σ (with_log σ t) Hserves (map_union_subseteq_l _ _)) in Hrun; [|done].
  destruct (split_root_makes (λ s, s = with_log σ t) (with_log σ t) U (memory_serves _) Hdistinct
    with_log_keyed t i (on_store (with_log σ t) (Overlay_new r)) Hok Hi) as (o' & Hp & _);
    [by apply new_inv|apply with_log_holds|done|]. congruence.
Qed.
Lemma log_get_run i r' v :
  run_reads load_resolved (get_log_value (log_root t) (N.of_nat i)) r = Ok (r', v) →
  lelems t !! i = Some v.
Proof using All.
  intros Hrun.
  apply (run_reads_weaken I σ (with_log σ t) Hserves (map_union_subseteq_l _ _)) in Hrun as [Hrun _]; [|done].
  unfold get_log_value in Hrun. rewrite root_ref_log in Hrun by done.
  pose proof with_log_answers as Ha. destruct t as [u|]; [|done]. specialize (Ha u eq_refl).
  cbn [fmap option_fmap option_map ok_or mbind reads_bind] in Hrun.
  pose proof (get_path_spec load_resolved _ u (S MAX_LOG_HEIGHT) i _ Ha eq_refl) as Hg.
  cbn [lelems]. destruct (relems u !! i) as [w|].
  - destruct Hg as (s & Hg & ->); [|congruence]. destruct Hok as [Hwf Hf]. pose proof (fits_height u Hwf Hf). lia.
  - rewrite Hg in Hrun; [done|]. destruct Hok as [Hwf Hf]. pose proof (fits_height u Hwf Hf). lia.
Qed.
End Resolved.
End Runs.
End Contents.

(** ** What a range selects *)

Section Pick.
Variables (limit : nat) (max_bytes : N).

Fixpoint pick (values : list string) (sel : LogSelection) : LogSelection :=
  match values, lsel_boundary sel with
  | [], _ | _, Some _ => sel
  | value :: values, None =>
      let next_bytes := (lsel_used_bytes sel + byte_len value)%N in
      if (length (lsel_values sel) =? limit) || (max_bytes <? next_bytes)%N then
        {| lsel_values := lsel_values sel; lsel_used_bytes := lsel_used_bytes sel;
           lsel_boundary := Some value |}
      else
        pick values {| lsel_values := lsel_values sel ++ [value]; lsel_used_bytes := next_bytes;
                       lsel_boundary := None |}
  end.
Lemma pick_stopped values sel : is_Some (lsel_boundary sel) → pick values sel = sel.
Proof. intros [b Hb]. destruct values; cbn; [done|]. by rewrite Hb. Qed.
Lemma pick_app a b sel : pick (a ++ b) sel = pick b (pick a sel).
Proof.
  revert sel. induction a as [|v a IH]; intros sel; cbn; [done|].
  destruct (lsel_boundary sel) eqn:Hb; [by rewrite pick_stopped|].
  destruct (_ || _); [|apply IH]. by rewrite pick_stopped.
Qed.
Lemma pick_used values sel :
  (lsel_used_bytes sel ≤ max_bytes)%N → (lsel_used_bytes (pick values sel) ≤ max_bytes)%N.
Proof.
  revert sel. induction values as [|v values IH]; intros sel Hs; cbn; [done|].
  destruct (lsel_boundary sel); [done|].
  destruct (N.ltb_spec max_bytes (lsel_used_bytes sel + byte_len v)%N) as [Hlt|Hge];
    rewrite ?orb_true_r, ?orb_false_r; [done|]. destruct (_ =? _); [done|]. by apply IH.
Qed.

(** The first values within the limits, and a boundary when values remain. *)
Record selected (rest : list string) (n : nat) (sel : LogSelection) : Prop := {
  sd_values : lsel_values sel = take n rest;
  sd_limit : n ≤ limit;
  sd_used : lsel_used_bytes sel = total (byte_len <$> take n rest);
  sd_budget : (lsel_used_bytes sel ≤ max_bytes)%N;
  sd_boundary : match lsel_boundary sel with
                | None => n = length rest
                | Some v => rest !! n = Some v
                    ∧ (n = limit ∨ max_bytes < total (byte_len <$> take (S n) rest))%N
                end;
}.
Lemma total_app l k : total (l ++ k) = (total l + total k)%N.
Proof. induction l as [|n l IH]; cbn [total app]; [done|]. rewrite IH. lia. Qed.
Lemma pick_selected_from don values sel :
  lsel_values sel = don → lsel_used_bytes sel = total (byte_len <$> don) → length don ≤ limit →
  (lsel_used_bytes sel ≤ max_bytes)%N → lsel_boundary sel = None →
  ∃ n, selected (don ++ values) n (pick values sel).
Proof.
  revert don sel. induction values as [|v values IH]; intros don sel Hv Hu Hl Hm Hb; cbn [pick].
  - exists (length don). split; rewrite ?app_nil_r, ?take_ge by lia; try done. rewrite Hb. done.
  - rewrite Hb. destruct (_ || _) eqn:Hstop.
    + exists (length don). apply orb_true_iff in Hstop.
      split; cbn [lsel_values lsel_used_bytes lsel_boundary]; rewrite ?take_app_length; try done.
      split; [by rewrite lookup_app_r, Nat.sub_diag by lia|].
      destruct Hstop as [Hs|Hs]; to_prop; [left; congruence|right].
      replace (S (length don)) with (length don + 1) by lia. rewrite take_app_add, fmap_app, total_app.
      cbn. rewrite take_0. cbn. lia.
    + apply orb_false_iff in Hstop as [H1 H2]. to_prop.
      destruct (IH (don ++ [v]) {| lsel_values := lsel_values sel ++ [v];
          lsel_used_bytes := lsel_used_bytes sel + byte_len v; lsel_boundary := None |}) as [n Hn];
        cbn [lsel_values lsel_used_bytes lsel_boundary]; try done.
      * congruence.
      * rewrite fmap_app, total_app, Hu. cbn. lia.
      * rewrite length_app. cbn. rewrite Hv in H1. lia.
      * exists n. by rewrite <-app_assoc in Hn.
Qed.
Lemma pick_selected values : ∃ n, selected values n (pick values no_log_selection).
Proof. apply (pick_selected_from [] values no_log_selection); cbn; done || lia. Qed.
End Pick.

(** ** The traversal picks *)

Section Visit.
Context `{Sha256} (start : nat) (limit : nat) (max_bytes : N).
Hypothesis Hmax : (max_bytes ≤ MAX_PAGE_BYTES)%N.

Abbreviation picks := (pick limit max_bytes).
Lemma visit_values_pick index values sel :
  Forall content_id values → lsel_boundary sel = None → (lsel_used_bytes sel ≤ max_bytes)%N →
  visit_values (N.of_nat start) limit max_bytes (N.of_nat index) values sel
  = Ok (picks (drop (start - index) values) sel).
Proof.
  revert index sel. induction values as [|v values IH]; intros index sel Hv Hb Hu; cbn [visit_values].
  - by rewrite drop_nil.
  - apply Forall_cons in Hv as [Hc Hv]. pose proof (id_short v Hc) as Hlen.
    replace (N.of_nat index + 1)%N with (N.of_nat (S index)) by lia. rewrite height_ltb.
    destruct (Nat.ltb_spec index start) as [Hlt|Hge].
    + replace (start - index) with (S (start - S index)) by lia. by apply IH.
    + replace (start - index) with 0 by lia. cbn [drop pick]. rewrite Hc, Hb.
      cbn [mbind result_bind]. unfold checked_add.
      rewrite decide_True by (unfold MAX_PAGE_BYTES, u64_max in *; lia). cbn [ok_or mbind result_bind].
      destruct (_ || _) eqn:Hstop; [done|]. apply orb_false_iff in Hstop as [_ H2]. to_prop.
      rewrite IH by done. by replace (start - S index) with 0 by lia.
Qed.

Lemma visit_range_pick {S} (load : S → LogRef → coll (S * LogNode)) P t fuel base sel s :
  rok t → answers load P t → P s → rheight t ≤ fuel →
  (N.of_nat (base + rlen t) ≤ MAX_EXACT_INTEGER)%N → (lsel_used_bytes sel ≤ max_bytes)%N →
  ∃ s', run_reads load
      (visit_log_range (N.of_nat start) limit max_bytes fuel (rope_ref t) (N.of_nat base) sel) s
    = Ok (s', picks (drop (start - base) (relems t)) sel) ∧ P s'.
Proof.
  revert fuel base sel s. induction t as [vs|l IHl r IHr]; intros fuel base sel s Ht Ha Hs Hf Hb Hu;
    cbn [rheight] in Hf; (destruct fuel as [|fuel]; [lia|]); cbn [visit_log_range].
  all: case_bool_decide as Hbd; [exists s; by rewrite pick_stopped|].
  all: apply eq_None_not_Some in Hbd; cbn [rope_ref lc_len].
  all: assert (Hadd : ∀ n, (N.of_nat (base + n) ≤ MAX_EXACT_INTEGER)%N →
    ok_or (opt_filter (λ n, n <=? MAX_EXACT_INTEGER)%N (checked_add (N.of_nat base) (N.of_nat n)))
      (Integrity "log_range_index_overflow") = Ok (N.of_nat (base + n))).
  1, 3: intros n Hn; rewrite Nat2N.inj_add in *; unfold checked_add;
    rewrite decide_True by (unfold MAX_EXACT_INTEGER, u64_max in *; lia); cbn [opt_filter];
    by rewrite (proj2 (N.leb_le _ _)).
  all: rewrite Hadd by done; cbn [mbind reads_bind]; rewrite height_leb.
  all: match goal with |- context [?a <=? ?b] => destruct (Nat.leb_spec a b) as [Hle|Hgt] end.
  1, 3: exists s; split; [|done]; unfold rlen in *; rewrite drop_ge by lia; by destruct sel.
  all: cbn [run_reads]; destruct (Ha s _ Hs (subropes_self _)) as (s1 & -> & Hs1);
    cbn [mbind result_bind fst snd rope_node ln_body rope_body].
  - cbn [run_reads]. rewrite visit_values_pick; [|apply Ht|done|done]. by exists s1.
  - apply answers_cat in Ha as [Hal Har]. pose proof (rok_cat _ _ Ht) as [Hl Hr].
    fold (rope_id l) (rope_id r). fold (rope_ref l) (rope_ref r). rewrite rlen_cat in *.
    destruct (IHl fuel base sel s1) as (s2 & H2 & Hs2); [done|done|done|lia|lia|done|].
    fold_bind. rewrite run_reads_bind, H2. cbn [mbind result_bind fst snd lc_len].
    change (lc_len (rope_ref l)) with (N.of_nat (rlen l)). rewrite Hadd by lia. cbn [mbind reads_bind].
    destruct (IHr fuel (base + rlen l) (picks (drop (start - base) (relems l)) sel) s2) as (s3 & H3 & Hs3);
      [done|done|done|lia|lia|by apply pick_used|].
    exists s3. rewrite H3. cbn [relems]. rewrite drop_app, pick_app. unfold rlen.
    split; [|done]. by replace (start - (base + length (relems l))) with (start - base - length (relems l)) by lia.
Qed.

(** What a range of a log selects, and when the program refuses it: a budget
    that not even the first value fits. *)
Definition log_selection (t : rlog) : LogSelection := picks (drop start (lelems t)) no_log_selection.
Definition refused (sel : LogSelection) : bool :=
  bool_decide (lsel_values sel = []) && bool_decide (is_Some (lsel_boundary sel)).
Lemma collect_range_spec {S} (load : S → LogRef → coll (S * LogNode)) P t s :
  lok t → (∀ u, t = Some u → answers load P u) → P s →
  let run := run_reads load (collect_log_range (N.of_nat start) limit max_bytes (log_root t)) s in
  if refused (log_selection t) then run = Err BadShape
  else ∃ s', run = Ok (s', log_selection t) ∧ P s'.
Proof using Hmax.
  intros Ht Ha Hs run.
  assert (Hrun : ∃ s', run = (_ ← require (negb (refused (log_selection t))) BadShape;
    Ok (s', log_selection t)) ∧ P s').
  { subst run. unfold collect_log_range. rewrite root_ref_log by done. cbn [mbind reads_bind].
    fold_bind. rewrite run_reads_bind. destruct t as [u|]; cbn [fmap option_fmap option_map].
    - destruct (visit_range_pick load P u (fuel_of (rope_ref u)) 0 no_log_selection s)
        as (s' & Hv & Hs'); [done|by apply Ha|done| | |cbn; lia|].
      + unfold fuel_of, rope_ref. cbn [lc_height]. lia.
      + destruct Ht as [_ Hf]. by apply fits_exact.
      + change (N.of_nat 0) with 0%N in Hv. rewrite Nat.sub_0_r in Hv. exists s'. rewrite Hv.
        cbn [mbind result_bind fst snd]. fold (log_selection (Some u)). unfold refused.
        destruct (require _ _); by cbn.
    - exists s. cbn [mret reads_ret run_reads mbind result_bind fst snd]. unfold log_selection.
      cbn [lelems]. by rewrite drop_nil. }
  destruct Hrun as (s' & -> & Hs'). destruct (refused _); [done|]. by exists s'.
Qed.
End Visit.

(** A range of a log, run on the nodes of a proof. *)
Lemma log_range_run `{Sha256} (U : LogNode → Prop) (σ : gmap string LogNode) (t : rlog)
    `{!Resolver LogNode R} (I : R → Prop) (r r' : R) start limit max_bytes sel :
  distinct_ids U → keyed U σ → (∀ n, n ∈ log_nodes t → U n) → lok t → serves I σ → I r →
  (max_bytes ≤ MAX_PAGE_BYTES)%N →
  run_reads load_resolved (collect_log_range (N.of_nat start) limit max_bytes (log_root t)) r
  = Ok (r', sel) →
  sel = log_selection start limit max_bytes t ∧ refused sel = false.
Proof.
  intros Hd Hk Hlog Ht Hs HI Hm Hrun.
  apply (run_reads_weaken I σ (with_log σ t) Hs (map_union_subseteq_l _ _)) in Hrun as [Hrun _]; [|done].
  pose proof (collect_range_spec start limit max_bytes Hm load_resolved (λ s, s = with_log σ t) t
    (with_log σ t) Ht) as Hc. cbn zeta in Hc.
  destruct (refused _) eqn:Hr.
  - rewrite Hrun in Hc. discriminate Hc; [|done]. intros u Hu. by eapply with_log_answers.
  - destruct Hc as (s & Hc & _); [intros u Hu; by eapply with_log_answers|done|]. rewrite Hrun in Hc.
    injection Hc as _ ->. done.
Qed.

Section Audit.
Context `{Sha256}.

Lemma log_load_sound `{Resolver LogNode R} (r r' : R) ref n :
  load_resolved r ref = Ok (r', n) →
  verified n ∧ ln_version n = LOG_NODE_VERSION ∧ ln_object_id n = lc_object_id ref
  ∧ lc_object_id ref = log_node_id (ln_body n)
  ∧ LogNode_value_count n = Ok (lc_len ref) ∧ LogNode_height n = Ok (lc_height ref).
Proof.
  intros (Hv & Hid & Hsame)%load_resolved_Ok. split; [done|].
  cbn [same_counts log_kind node_id ref_id] in *. destruct (verified_log_id n Hv) as [Hver Hnid].
  split; [done|]. split; [done|]. split; [congruence|]. unfold log_same_counts in Hsame.
  apply bind_Ok in Hsame as (len & Hlen & Hsame). destruct (N.eqb_spec len (lc_len ref)) as [->|]; [|done].
  apply bind_Ok in Hsame as (h & Hh & Hsame). injection Hsame as Hsame%N.eqb_eq. split; congruence.
Qed.
Lemma abs_diff_le a b : (abs_diff (N.of_nat a) (N.of_nat b) ≤ 1)%N → close 1 a b.
Proof.
  unfold abs_diff, close. destruct (N.leb_spec (N.of_nat a) (N.of_nat b)); lia.
Qed.

(** What one call of the traversal adds: all the values, and the first node met
    with each identity. *)
Record log_audited (ref : LogRef) (st st' : list string * gmap string LogNode) (t : rope) : Prop := {
  la_wf : rwf t;
  la_ref : ref = rope_ref t;
  la_values : st'.1 = st.1 ++ relems t;
  la_kept : st.2 ⊆ st'.2;
  la_objects : ∀ id n, st'.2 !! id = Some n → st.2 !! id = Some n ∨ (n ∈ rope_nodes t ∧ ln_object_id n = id);
  la_covered : ∀ n, n ∈ rope_nodes t → is_Some (st'.2 !! ln_object_id n);
}.
Definition seen_node (n : LogNode) (seen : gmap string LogNode) : gmap string LogNode :=
  match seen !! ln_object_id n with Some _ => seen | None => <[ln_object_id n := n]> seen end.
Lemma seen_node_spec n seen :
  seen ⊆ seen_node n seen ∧ is_Some (seen_node n seen !! ln_object_id n)
  ∧ ∀ id m, seen_node n seen !! id = Some m → seen !! id = Some m ∨ (m = n ∧ ln_object_id n = id).
Proof.
  unfold seen_node. destruct (seen !! ln_object_id n) as [k|] eqn:Hk.
  - split; [done|]. split; [by rewrite Hk|]. by left.
  - split; [by apply insert_subseteq|]. split; [by rewrite lookup_insert_eq|].
    intros id m [[<- <-]|[_ Hm]]%lookup_insert_Some; auto.
Qed.
Lemma rope_nodes_cat l r : rope_nodes (Cat l r) = rope_node (Cat l r) :: rope_nodes l ++ rope_nodes r.
Proof. unfold rope_nodes. cbn [subropes fmap list_fmap]. by rewrite <-fmap_app. Qed.

Lemma node_of_body n t :
  ln_version n = LOG_NODE_VERSION → ln_object_id n = log_node_id (ln_body n) →
  ln_body n = rope_body t → n = rope_node t.
Proof. destruct n as [ver id body]. cbn. intros -> -> ->. done. Qed.
Lemma audit_leaf ref st n values :
  verified n → ln_body n = LogLeaf values → ln_version n = LOG_NODE_VERSION →
  lc_object_id ref = log_node_id (ln_body n) → ln_object_id n = lc_object_id ref →
  LogNode_value_count n = Ok (lc_len ref) → LogNode_height n = Ok (lc_height ref) →
  log_audited ref st (st.1 ++ values, seen_node n st.2) (Chunk values).
Proof.
  intros Hv Hb Hver Hid Hn Hl Hh. destruct (verified_log_leaf _ _ Hv Hb) as [Hlen Hvals].
  assert (Hnode : n = rope_node (Chunk values)).
  { apply node_of_body; [done|congruence|done]. }
  destruct (seen_node_spec n st.2) as (Hs & Hc & Ho). split; cbn [fst snd]; try done.
  - destruct ref as [i l h]. unfold LogNode_value_count, LogNode_height in *. rewrite Hb in Hl, Hh, Hid.
    cbn in Hl, Hh, Hid. injection Hl as <-. injection Hh as <-. by rewrite Hid.
  - intros id m Hm%Ho. destruct Hm as [Hm|[-> Hm]]; [by left|]. right. split; [|done].
    rewrite Hnode. by left.
  - intros m ->%list_elem_of_singleton. by rewrite <-Hnode.
Qed.
Lemma audit_branch ref st st1 st2 n tl tr :
  verified n → ln_body n = LogBranch (rope_ref tl) (rope_ref tr) → ln_version n = LOG_NODE_VERSION →
  lc_object_id ref = log_node_id (ln_body n) → ln_object_id n = lc_object_id ref →
  LogNode_value_count n = Ok (lc_len ref) → LogNode_height n = Ok (lc_height ref) →
  log_audited (rope_ref tl) (st.1, seen_node n st.2) st1 tl → log_audited (rope_ref tr) st1 st2 tr →
  log_audited ref st st2 (Cat tl tr).
Proof.
  intros Hv Hb Hver Hid Hn Hl Hh [Hwl _ Hvl Hkl Hol Hcl] [Hwr _ Hvr Hkr Hor Hcr].
  destruct (verified_log_branch _ _ _ Hv Hb) as (_ & _ & Hclose & Hcount & Hheight).
  assert (Hnode : n = rope_node (Cat tl tr)).
  { apply node_of_body; [done|congruence|done]. }
  destruct (seen_node_spec n st.2) as (Hs & Hc & Ho). cbn [fst snd] in *.
  pose proof (rope_nodes_cat tl tr) as Hnodes. rewrite <-Hnode in Hnodes.
  split; rewrite ?Hnodes.
  - cbn [rwf]. split_and!; [done..|]. by apply abs_diff_le.
  - destruct ref as [i l h]. unfold rope_ref, rope_id. cbn [lc_len lc_height lc_object_id rheight] in *.
    rewrite rlen_cat. rewrite Hcount in Hl. rewrite Hheight in Hh. injection Hl as <-. injection Hh as <-.
    rewrite Hid, Hb. f_equal; unfold rope_ref; cbn [lc_len lc_height]; lia.
  - rewrite Hvr, Hvl. cbn [relems]. by rewrite <-(assoc (++)).
  - etrans; [exact Hs|]. by etrans.
  - intros id m [Hm|[Hm Hi]]%Hor; [|right; set_solver]. apply Hol in Hm as [Hm|[Hm Hi]]; [|right; set_solver].
    apply Ho in Hm as [Hm|[-> Hm]]; [by left|]. right. split; [by left|done].
  - intros m. rewrite elem_of_cons, elem_of_app. intros [->|[Hm|Hm]]; [..|by apply Hcr].
    + destruct Hc as [k Hk]. exists k. eapply lookup_weaken; [|exact Hkr]. by eapply lookup_weaken.
    + destruct (Hcl m Hm) as [k Hk]. exists k. by eapply lookup_weaken.
Qed.
Lemma audit_log_subtree_sound `{Resolver LogNode R} fuel ref st (r r' : R) st' :
  run_reads load_resolved (audit_log_subtree fuel ref st) r = Ok (r', st') →
  ∃ t, log_audited ref st st' t.
Proof.
  revert ref st r r' st'. induction fuel as [|fuel IH]; intros ref st r r' st' Hrun; [done|].
  cbn [audit_log_subtree run_reads] in Hrun. apply bind_Ok in Hrun as ([r1 n] & Hload & Hrun).
  apply log_load_sound in Hload as (Hv & Hver & Hn & Hid & Hl & Hh). cbn [fst snd] in Hrun.
  fold (seen_node n st.2) in Hrun. destruct (ln_body n) as [values|lchild rchild] eqn:Hb.
  - cbn [run_reads mret reads_ret mbind result_bind] in Hrun. injection Hrun as _ <-.
    exists (Chunk values). apply audit_leaf; congruence.
  - rewrite run_reads_bind in Hrun. apply bind_Ok in Hrun as ([r2 st1] & Hleft & Hright).
    apply IH in Hleft as [tl Hleft]. apply IH in Hright as [tr Hright].
    pose proof (la_ref _ _ _ _ Hleft) as ->. pose proof (la_ref _ _ _ _ Hright) as ->.
    exists (Cat tl tr). eapply audit_branch; try done; congruence.
Qed.

(** The parts of a root that verifies. *)
Lemma log_root_cases root :
  LogRoot_verify root = Ok () →
  root = LogRoot_empty
  ∨ ∃ id, root = {| lr_node := Some id; lr_len := lr_len root; lr_height := lr_height root;
                    lr_ordered_root := id |}
      ∧ (lr_height root ≤ N.of_nat MAX_LOG_HEIGHT)%N.
Proof.
  destruct root as [node len height ordered]. unfold LogRoot_verify. cbn [lr_node lr_len lr_height lr_ordered_root].
  destruct (N.eqb_spec len 0) as [->|Hlen]; intros Hv.
  - left. apply require_Ok in Hv. apply negb_true_iff in Hv. apply orb_false_iff in Hv as [Hv Hc].
    apply orb_false_iff in Hv as [Hv Hh]. to_prop. destruct node as [id|]; [by destruct Hv|].
    unfold LogRoot_empty. f_equal; [|done]. destruct (N.eqb_spec height 0); done.
  - right. destruct node as [id|]; [|done]. cbn [ok_or mbind result_bind] in Hv.
    apply bind_Ok in Hv as (u & _ & Hv). apply require_Ok, negb_true_iff in Hv.
    apply orb_false_iff in Hv as [Hv Hc]. apply orb_false_iff in Hv as [_ Hh]. to_prop. exists id. by subst.
Qed.
Lemma audit_log_sound `{Resolver LogNode R} root (r : R) values objects :
  audit_log root r = Ok (values, objects) →
  ∃ t, lwf t ∧ root = log_root t ∧ values = lelems t
    ∧ (lr_height root ≤ N.of_nat MAX_LOG_HEIGHT)%N
    ∧ (∀ n, n ∈ objects → n ∈ log_nodes t)
    ∧ (∀ n, n ∈ log_nodes t → ∃ m, m ∈ objects ∧ ln_object_id m = ln_object_id n).
Proof.
  unfold audit_log. intros Ha. apply bind_Ok in Ha as (u & Hroot & Ha). destruct u.
  unfold root_ref in Ha. rewrite Hroot in Ha. cbn [mbind result_bind] in Ha.
  destruct (log_root_cases root Hroot) as [->|(id & Heq & Hh)].
  - cbn in Ha. injection Ha as <- <-. exists None. split_and!; try done. by intros n ?%elem_of_nil.
  - rewrite Heq in Ha. cbn [fmap option_fmap option_map lr_node lr_len lr_height] in Ha.
    apply bind_Ok in Ha as ([r' st] & Hrun & Ha). cbn [snd] in Ha.
    apply bind_Ok in Ha as (u & _ & Ha). injection Ha as <- <-.
    apply audit_log_subtree_sound in Hrun as [t [Hw Href Hv _ Ho Hc]]. cbn [fst snd app] in *.
    exists (Some t). cbn [lwf log_root lelems log_nodes]. injection Href as Hid Hlen Hheight.
    split_and!; try done.
    + rewrite Heq. by rewrite Hid, Hlen, Hheight.
    + intros n [i Hn]%elem_of_btree_values. apply Ho in Hn as [Hn|[Hn _]]; done.
    + intros n Hn. destruct (Hc n Hn) as [m Hm]. exists m.
      split; [apply elem_of_btree_values; by exists (ln_object_id n)|].
      by apply Ho in Hm as [Hm|[_ Hm]].
Qed.
End Audit.
