(* ===== verification/LogBuild.v ===== *)
(** * Construction of a whole log, bounds and fuel

    [build_log] does not append its values one by one: it cuts them into leaves
    and joins the leaves with a tree of a fixed shape.  This is the rope that
    appending them gives, and [build_log] stores its nodes and no others.
    Whatever [prove_log_exact] and [prove_log_range] record fits the bounds of
    the verifiers on nodes and bytes, whoever answers their requests.  The
    recursions of the log descend with a fuel above the height of a reference:
    more fuel never changes a result. *)

From S2P Require Import Prelude Identity CommandIndex IndexSound CollectionHash Collections.
From S2P Require Import Stores LogNode LogTree LogProof Rope LogRefine LogJoin LogApply LogSound.

(** ** The split of the leaves *)

Abbreviation left_len := append_log_tree_left_len.

Lemma left_len_low q k : 2 * 2 ^ q ≤ k ≤ 3 * 2 ^ q → k ≠ 3 → left_len k = 2 ^ q.
Proof.
  intros Hk H3. assert (Hpos : 2 ^ q ≠ 0) by by apply Nat.pow_nonzero.
  assert (Hlog : Nat.log2 k = S q) by (apply Nat.log2_unique; [lia|cbn [Nat.pow]; lia]).
  unfold append_log_tree_left_len. rewrite Hlog. cbn [Nat.pow].
  replace (2 * 2 ^ q / 2) with (2 ^ q) by (rewrite Nat.mul_comm, Nat.div_mul; done).
  destruct (Nat.eqb_spec k (2 * 2 ^ q)); [done|]. destruct (Nat.eqb_spec k 3); [done|].
  destruct (Nat.leb_spec k (2 * 2 ^ q + 2 ^ q)); [done|lia].
Qed.
Lemma left_len_high q k : 3 * 2 ^ q < k < 4 * 2 ^ q → left_len k = 2 * 2 ^ q.
Proof.
  intros Hk. assert (Hpos : 2 ^ q ≠ 0) by by apply Nat.pow_nonzero.
  assert (Hlog : Nat.log2 k = S q) by (apply Nat.log2_unique; [lia|cbn [Nat.pow]; lia]).
  unfold append_log_tree_left_len. rewrite Hlog. cbn [Nat.pow].
  replace (2 * 2 ^ q / 2) with (2 ^ q) by (rewrite Nat.mul_comm, Nat.div_mul; done).
  destruct (Nat.eqb_spec k (2 * 2 ^ q)); [lia|]. destruct (Nat.eqb_spec k 3); [lia|].
  destruct (Nat.leb_spec k (2 * 2 ^ q + 2 ^ q)); [lia|done].
Qed.
Lemma left_len_3 : left_len 3 = 2.
Proof. done. Qed.

(** The three forms of a split. *)
Inductive cut (k a : nat) : Prop :=
| cut_three : k = 3 → a = 2 → cut k a
| cut_low q : 2 * 2 ^ q ≤ k ≤ 3 * 2 ^ q → k ≠ 3 → a = 2 ^ q → cut k a
| cut_high q : 3 * 2 ^ q < k < 4 * 2 ^ q → a = 2 * 2 ^ q → cut k a.
Lemma left_len_cut k : 2 ≤ k → cut k (left_len k).
Proof.
  intros Hk. destruct (Nat.eqb_spec k 3) as [->|H3]; [by apply cut_three|].
  destruct (Nat.log2_spec k ltac:(lia)) as [Hlo Hhi].
  destruct (Nat.log2 k) as [|q]; cbn [Nat.pow] in *; [lia|].
  destruct (decide (k ≤ 3 * 2 ^ q)) as [Hle|Hgt].
  - apply (cut_low _ _ q); [lia|done|]. apply left_len_low; [lia|done].
  - apply (cut_high _ _ q); [lia|]. apply left_len_high; lia.
Qed.
Lemma left_len_bounds k : 2 ≤ k → 1 ≤ left_len k < k.
Proof.
  intros Hk. destruct (left_len_cut k Hk) as [-> ->|q Hq _ ->|q Hq ->]; [lia|..];
    assert (Hpos : 2 ^ q ≠ 0) by (by apply Nat.pow_nonzero); lia.
Qed.
Lemma pow_even q : Nat.even (2 ^ q) = negb (q =? 0).
Proof. destruct q; [done|]. cbn [Nat.pow]. rewrite Nat.even_mul. done. Qed.
Lemma left_len_even k : 3 ≤ k → Nat.even (left_len k) = true.
Proof.
  intros Hk. destruct (left_len_cut k) as [-> ->|q Hq H3 ->|q Hq ->]; [lia|done| |].
  - rewrite pow_even. destruct q; [cbn in *; lia|done].
  - by rewrite Nat.even_mul.
Qed.

Lemma log2_up_pow q : Nat.log2_up (2 ^ q) = q.
Proof. apply Nat.log2_up_pow2. lia. Qed.
Lemma log2_up_between q k : 2 ^ q < k ≤ 2 * 2 ^ q → Nat.log2_up k = S q.
Proof. intros Hk. apply Nat.log2_up_unique; [lia|]. cbn [pred Nat.pow]. lia. Qed.
(** The two parts have nearly the same logarithm, and together one more than
    the larger one. *)
Lemma cut_heights a b :
  cut (a + b) a →
  close 1 (Nat.log2_up a) (Nat.log2_up b)
  ∧ Nat.log2_up (a + b) = S (Nat.max (Nat.log2_up a) (Nat.log2_up b)).
Proof.
  intros [H3 ->|q Hq H3 ->|q Hq ->].
  - assert (b = 1) as -> by lia. by vm_compute; lia.
  - assert (Hpos : 2 ^ q ≠ 0) by by apply Nat.pow_nonzero. rewrite log2_up_pow.
    destruct (decide (b = 2 ^ q)) as [->|Hne].
    + rewrite log2_up_pow. replace (2 ^ q + 2 ^ q) with (2 ^ S q) by (cbn [Nat.pow]; lia).
      rewrite log2_up_pow. unfold close. lia.
    + rewrite (log2_up_between q b) by lia. rewrite (log2_up_between (S q)) by (cbn [Nat.pow]; lia).
      unfold close. lia.
  - assert (Hpos : 2 ^ q ≠ 0) by by apply Nat.pow_nonzero. change (2 * 2 ^ q) with (2 ^ S q) in *.
    rewrite log2_up_pow, (log2_up_between q b) by (cbn [Nat.pow] in *; lia).
    rewrite (log2_up_between (S q)) by (cbn [Nat.pow] in *; lia). unfold close. lia.
Qed.

(** ** Trees over leaves *)

(** The rope that [build_append_log_tree] gives for leaves. *)
Inductive shape : list (list string) → rope → Prop :=
| shape_leaf values : shape [values] (Chunk values)
| shape_cat ls rs l r :
    cut (length ls + length rs) (length ls) → shape ls l → shape rs r → shape (ls ++ rs) (Cat l r).

Lemma cut_left_len k a : cut k a → left_len k = a.
Proof.
  intros [-> ->|q Hq H3 ->|q Hq ->]; [done|by apply left_len_low|by apply left_len_high].
Qed.
Lemma cut_three_le k a : cut k a → 2 ≤ k.
Proof.
  intros [-> ->|q Hq H3 ->|q Hq ->]; [lia|..];
    assert (Hpos : 2 ^ q ≠ 0) by (by apply Nat.pow_nonzero); lia.
Qed.
Lemma shape_length leaves t : shape leaves t → 1 ≤ length leaves.
Proof. induction 1; cbn; [lia|]. rewrite length_app. lia. Qed.
Lemma shape_exists leaves : leaves ≠ [] → ∃ t, shape leaves t.
Proof.
  remember (length leaves) as n eqn:Hn. revert leaves Hn.
  induction n as [n IH] using lt_wf_ind; intros leaves -> Hne.
  destruct leaves as [|a [|b leaves]]; [done|exists (Chunk a); constructor|].
  set (ls := a :: b :: leaves). pose proof (left_len_bounds (length ls) ltac:(cbn; lia)) as Hb.
  destruct (IH (left_len (length ls))) with (leaves := take (left_len (length ls)) ls) as [l Hl];
    [cbn in *; lia|rewrite length_take; lia|intros Hx; apply (f_equal length) in Hx; rewrite length_take in Hx; cbn in *; lia|].
  destruct (IH (length ls - left_len (length ls))) with (leaves := drop (left_len (length ls)) ls) as [r Hr];
    [cbn in *; lia|rewrite length_drop; lia|intros Hx; apply (f_equal length) in Hx; rewrite length_drop in Hx; cbn in *; lia|].
  exists (Cat l r). rewrite <-(take_drop (left_len (length ls)) ls). constructor; [|done|done].
  rewrite length_take, length_drop, Nat.min_l by lia.
  replace (left_len (length ls) + _) with (length ls) by lia. apply left_len_cut. cbn. lia.
Qed.
Lemma shape_height leaves t : shape leaves t → rheight t = S (Nat.log2_up (length leaves)).
Proof.
  induction 1 as [values|ls rs l r Hc Hl IHl Hr IHr]; [done|]. cbn [rheight]. rewrite IHl, IHr.
  rewrite length_app. destruct (cut_heights _ _ Hc) as [_ ->]. lia.
Qed.
Lemma shape_elems leaves t : shape leaves t → relems t = concat leaves.
Proof.
  induction 1 as [values|ls rs l r Hc Hl IHl Hr IHr]; cbn; [by rewrite app_nil_r|].
  by rewrite IHl, IHr, concat_app.
Qed.

(** ** One more value *)

(** Every second leaf grows, the others have one value. *)
Fixpoint grow (leaves : list (list string)) (v : string) : list (list string) :=
  match leaves with
  | [] => [[v]]
  | [l] => if length l <? LOG_FANOUT then [l ++ [v]] else [l; [v]]
  | a :: b :: leaves => a :: b :: grow leaves v
  end.
Lemma grow_app ls rs v : Nat.even (length ls) = true → grow (ls ++ rs) v = ls ++ grow rs v.
Proof.
  remember (length ls) as n eqn:Hn. revert ls Hn. induction n as [n IH] using lt_wf_ind; intros ls -> He.
  destruct ls as [|a [|b ls]]; [done|done|]. cbn [app grow]. by rewrite (IH (length ls)) by (cbn in *; done || lia).
Qed.
Lemma grow_length leaves v :
  length (grow leaves v) = length leaves ∨ length (grow leaves v) = S (length leaves).
Proof.
  remember (length leaves) as n eqn:Hn. revert leaves Hn. induction n as [n IH] using lt_wf_ind; intros leaves ->.
  destruct leaves as [|a [|b ls]]; cbn [grow]; [by right|destruct (_ <? _); auto|].
  cbn [length]. destruct (IH (length ls) ltac:(cbn; lia) ls eq_refl); lia.
Qed.

(** After one side has grown by at most one leaf the split is the same, or one
    rotation repairs it. *)
Lemma cut_grow a b b' :
  cut (a + b) a → 3 ≤ a + b → b' = b ∨ b' = S b →
  cut (a + b') a ∨ ∃ q, q ≠ 0 ∧ a = 2 ^ q ∧ b' = S (2 * 2 ^ q).
Proof.
  intros Hc H3 [->| ->]; [by left|]. destruct Hc as [Hk ->|q Hq Hn ->|q Hq ->].
  - left. apply (cut_low _ _ 1); cbn; lia.
  - assert (Hpos : 2 ^ q ≠ 0) by by apply Nat.pow_nonzero.
    destruct (decide (b = 2 * 2 ^ q)) as [->|Hne].
    + right. exists q. split; [|done]. intros ->. cbn in *. lia.
    + left. apply (cut_low _ _ q); lia.
  - assert (Hpos : 2 ^ q ≠ 0) by by apply Nat.pow_nonzero. left.
    destruct (decide (b = 2 * 2 ^ q - 1)) as [->|Hne].
    + apply (cut_low _ _ (S q)); cbn [Nat.pow]; lia.
    + apply (cut_high _ _ q); lia.
Qed.
Lemma shape_balance ls rs l r :
  shape ls l → shape rs r → cut (length ls + length rs) (length ls) →
  shape (ls ++ rs) (rbalance l r).2.
Proof.
  intros Hl Hr Hc. unfold rbalance. rewrite decide_True; [by constructor|].
  rewrite (shape_height _ _ Hl), (shape_height _ _ Hr). destruct (cut_heights _ _ Hc) as [Hd _].
  unfold close in *. lia.
Qed.
Lemma shape_rotate ls rs l r q :
  shape ls l → shape rs r → q ≠ 0 → length ls = 2 ^ q → length rs = S (2 * 2 ^ q) →
  shape (ls ++ rs) (rbalance l r).2.
Proof.
  intros Hl Hr Hq Hls Hrs. assert (Hp : 2 ^ q ≠ 0) by by apply Nat.pow_nonzero.
  assert (H2 : 2 ≤ 2 ^ q) by (destruct q; [done|]; cbn [Nat.pow] in *; lia).
  pose proof (shape_height _ _ Hl) as Hhl. pose proof (shape_height _ _ Hr) as Hhr.
  rewrite Hls, log2_up_pow in Hhl. rewrite Hrs, (log2_up_between (S q)) in Hhr by (cbn [Nat.pow]; lia).
  unfold rbalance. rewrite decide_False by (unfold close; lia).
  destruct (Nat.ltb_spec (rheight r) (rheight l)); [lia|].
  destruct Hr as [vs|rls rrs rl rr Hc Hrl Hrr]; [cbn in Hrs; lia|]. rewrite length_app in Hrs.
  pose proof (cut_left_len _ _ Hc) as Hll. rewrite Hrs, (left_len_low q) in Hll by lia.
  pose proof (shape_height _ _ Hrl) as Hhrl. pose proof (shape_height _ _ Hrr) as Hhrr.
  rewrite <-Hll, log2_up_pow in Hhrl. rewrite (log2_up_between q) in Hhrr by lia.
  destruct (Nat.leb_spec (rheight rl) (rheight rr)); [|lia]. cbn [snd mbind made_bind rcat].
  rewrite app_assoc. constructor; [|constructor; [|done|done]|done]; rewrite ?length_app, <-?Hll, Hls.
  - apply (cut_high _ _ q); lia.
  - apply (cut_low _ _ q); lia.
Qed.
Lemma shape_grow leaves t v : shape leaves t → shape (grow leaves v) (rjoin t (Chunk [v])).2.
Proof.
  induction 1 as [values|ls rs l r Hc Hl _ Hr IHr].
  - rewrite rjoin_eq. cbn [rheight Nat.ltb Nat.leb]. unfold rlevel, grow. cbn [length].
    destruct (Nat.leb_spec (length values + 1) LOG_FANOUT), (Nat.ltb_spec (length values) LOG_FANOUT);
      try lia; [constructor|]. apply (shape_cat [values] [[v]]); [|constructor..].
    apply (cut_low _ _ 0); cbn; lia.
  - pose proof (shape_height _ _ (shape_cat _ _ _ _ Hc Hl Hr)) as Hh. rewrite length_app in Hh.
    pose proof (shape_length _ _ Hl). pose proof (shape_length _ _ Hr). rewrite rjoin_eq.
    change (rheight (Chunk [v])) with 1.
    destruct (decide (length ls + length rs = 2)) as [H2|H2].
    + rewrite Hh, H2. change (Nat.log2_up 2) with 1. cbn [Nat.ltb Nat.leb].
      destruct ls as [|a [|]]; cbn in *; try lia. destruct rs as [|b [|]]; cbn in *; try lia.
      apply (shape_cat [a; b] [[v]]); [by apply cut_three| |constructor].
      by apply (shape_cat [a] [b]).
    + assert (Hhi : 2 ≤ Nat.log2_up (length ls + length rs)).
      { change 2 with (Nat.log2_up 3). apply Nat.log2_up_le_mono. lia. }
      destruct (Nat.ltb_spec 2 (rheight (Cat l r))); [|lia]. rewrite made_snd.
      rewrite grow_app by (rewrite <-(cut_left_len _ _ Hc); apply left_len_even; lia).
      destruct (cut_grow _ _ (length (grow rs v)) Hc) as [Hcut|(q & Hq & Ha & Hb)];
        [lia|apply grow_length|by apply shape_balance|by eapply shape_rotate].
Qed.

(** ** The leaves of a whole log *)

Lemma append_log_leaves_grow fuel values v :
  length values < fuel → append_log_leaves fuel (values ++ [v]) = grow (append_log_leaves fuel values) v.
Proof.
  revert values. induction fuel as [|fuel IH]; intros values Hf; [lia|].
  cbn [append_log_leaves]. rewrite length_app. cbn [length].
  destruct (Nat.ltb_spec LOG_FANOUT (length values)) as [Hlt|Hge].
  - destruct (Nat.ltb_spec LOG_FANOUT (length values + 1)); [|lia]. cbn [grow].
    rewrite (take_app_le values), !(drop_app_le values), take_app_le by (rewrite ?length_drop; lia).
    by rewrite IH by (rewrite length_drop; unfold LOG_FANOUT in *; lia).
  - destruct (Nat.ltb_spec LOG_FANOUT (length values + 1)) as [Hlt|Hle].
    + assert (Hlen : length values = LOG_FANOUT) by lia. rewrite <-Hlen.
      rewrite take_app_length, drop_app_length. rewrite (drop_ge _ (S (length values))) by (rewrite length_app; cbn; lia).
      destruct (Nat.ltb_spec 0 (length values)); [|unfold LOG_FANOUT in *; lia].
      cbn [grow take]. rewrite Hlen, Nat.ltb_irrefl. f_equal. f_equal.
      destruct fuel; [done|]. by cbn.
    + rewrite (proj2 (Nat.ltb_lt 0 _)) by lia. destruct values as [|a values]; [done|].
      change (0 <? length (a :: values)) with true. cbn [grow].
      by rewrite (proj2 (Nat.ltb_lt (length (a :: values)) LOG_FANOUT)) by lia.
Qed.

(** Appending values one by one to the empty log gives the tree over the
    leaves that [append_log_leaves] cuts. *)
Lemma append_one t leaves v :
  shape leaves t → ∃ t', (rconcat (Some t) (Some (Chunk [v]))).2 = Some t' ∧ shape (grow leaves v) t'.
Proof. intros Hs. exists (rjoin t (Chunk [v])).2. split; [done|by apply shape_grow]. Qed.
Lemma append_leaves don t values fuel :
  shape (append_log_leaves fuel don) t → length (don ++ values) < fuel →
  ∃ t', (rappend (Some t) values).2 = Some t' ∧ shape (append_log_leaves fuel (don ++ values)) t'.
Proof.
  revert don t. induction values as [|v values IH]; intros don t Ht Hf; cbn [rappend].
  - exists t. by rewrite app_nil_r.
  - destruct (append_one t _ v Ht) as (t1 & H1 & Hs1). rewrite length_app in Hf. cbn [length] in Hf.
    rewrite <-append_log_leaves_grow in Hs1 by lia.
    destruct (IH (don ++ [v]) t1 Hs1) as (t2 & H2 & Hs2); [rewrite !length_app; cbn; lia|].
    exists t2. rewrite !made_snd. cbn [rchunk snd]. rewrite H1. rewrite <-app_assoc in Hs2. done.
Qed.
Lemma append_shape values fuel :
  values ≠ [] → length values < fuel →
  ∃ t, (rappend None values).2 = Some t ∧ shape (append_log_leaves fuel values) t.
Proof.
  destruct values as [|v values]; [done|]. intros _ Hf. cbn [rappend]. cbn [length] in Hf.
  apply (append_leaves [v] (Chunk [v]) values fuel); [|done].
  destruct fuel; [lia|]. constructor.
Qed.
(** Every leaf of the cut has values of the log. *)
Lemma append_log_leaves_valid fuel values :
  Forall content_id values →
  Forall (λ leaf, 1 ≤ length leaf ≤ LOG_FANOUT ∧ Forall content_id leaf) (append_log_leaves fuel values).
Proof.
  revert values. induction fuel as [|fuel IH]; intros values Hv; cbn [append_log_leaves]; [done|].
  destruct (Nat.ltb_spec LOG_FANOUT (length values)) as [Hlt|Hge].
  - repeat apply Forall_cons_2; [..|by apply IH, Forall_drop].
    + rewrite length_take. split; [unfold LOG_FANOUT in *; lia|by apply Forall_take].
    + rewrite length_take, length_drop. split; [unfold LOG_FANOUT in *; lia|by apply Forall_take, Forall_drop].
  - destruct (Nat.ltb_spec 0 (length values)); [|done]. by apply Forall_singleton.
Qed.

Section Build.
Context `{Sha256} (U : LogNode → Prop).
Hypothesis Hdistinct : distinct_ids U.

Lemma store_rope objects t :
  rok t → keyed U objects → U (rope_node t) →
  ∃ objects', store_built objects (rope_node t) = Ok (objects', rope_ref t)
    ∧ keyed U objects' ∧ added objects objects' [rope_node t].
Proof using Hdistinct.
  intros Ht Hk Hu. apply (store_built_known U); try done;
    [by apply rope_node_verify|by apply rope_node_ref].
Qed.
Lemma rope_from_body t : rok t → LogNode_from_body (rope_body t) = Ok (rope_node t).
Proof.
  intros Ht. unfold LogNode_from_body. fold (rope_id t). fold (rope_node t). by rewrite rope_node_verify.
Qed.

(** The leaves are stored first, *)
Lemma store_leaves leaves objects :
  Forall (λ leaf, rok (Chunk leaf)) leaves → keyed U objects →
  (∀ leaf, leaf ∈ leaves → U (rope_node (Chunk leaf))) →
  ∀ refs, ∃ objects',
    try_fold (λ st values,
      node ← LogNode_from_body (LogLeaf values);
      built ← store_built st.1 node;
      Ok (built.1, st.2 ++ [built.2])) (objects, refs) leaves
    = Ok (objects', refs ++ ((λ leaf, rope_ref (Chunk leaf)) <$> leaves))
    ∧ keyed U objects' ∧ added objects objects' ((λ leaf, rope_node (Chunk leaf)) <$> leaves).
Proof using Hdistinct.
  revert objects. induction leaves as [|leaf leaves IH]; intros objects Hl Hk Hu refs.
  - exists objects. split; [by rewrite app_nil_r|]. split; [done|]. intros id n. split; [by left|].
    by intros [?|[?%elem_of_nil _]].
  - apply Forall_cons in Hl as [Hl Hls]. cbn [try_fold].
    change (LogLeaf leaf) with (rope_body (Chunk leaf)). rewrite rope_from_body by done.
    cbn [mbind result_bind fst snd].
    destruct (store_rope objects (Chunk leaf) Hl Hk) as (o1 & H1 & Hk1 & Ha1); [apply Hu; by left|].
    rewrite H1. cbn [mbind result_bind fst snd].
    destruct (IH o1 Hls Hk1) with (refs := refs ++ [rope_ref (Chunk leaf)]) as (o2 & H2 & Hk2 & Ha2);
      [intros; apply Hu; by right|].
    exists o2. rewrite H2, <-app_assoc. split; [done|]. split; [done|]. intros id n.
    rewrite (Ha2 id n), (Ha1 id n), list_elem_of_singleton, fmap_cons, elem_of_cons. tauto.
Qed.

(** then the branches, each after its two subtrees. *)
Fixpoint branches (t : rope) : list LogNode :=
  match t with Chunk _ => [] | Cat l r => branches l ++ branches r ++ [rope_node (Cat l r)] end.
Lemma shape_nodes leaves t :
  shape leaves t → ∀ n, n ∈ rope_nodes t ↔ n ∈ branches t ∨ n ∈ (λ leaf, rope_node (Chunk leaf)) <$> leaves.
Proof.
  induction 1 as [values|ls rs l r Hc Hl IHl Hr IHr]; intros n.
  - cbn [branches fmap list_fmap]. unfold rope_nodes. cbn [subropes fmap list_fmap].
    rewrite elem_of_nil. tauto.
  - unfold rope_nodes in *. cbn [branches subropes]. rewrite fmap_cons, !fmap_app, elem_of_cons, !elem_of_app,
      list_elem_of_singleton, IHl, IHr. tauto.
Qed.
Lemma build_tree_eq fuel leaves objects :
  2 ≤ length leaves →
  build_append_log_tree (S fuel) leaves objects =
    lbuilt ← build_append_log_tree fuel (take (left_len (length leaves)) leaves) objects;
    let '(objects, lref) := (lbuilt : gmap string LogNode * LogRef) in
    rbuilt ← build_append_log_tree fuel (drop (left_len (length leaves)) leaves) objects;
    let '(objects, rref) := (rbuilt : gmap string LogNode * LogRef) in
    node ← LogNode_from_body (LogBranch lref rref);
    store_built objects node.
Proof. intros Hl. by destruct leaves as [|a [|b leaves]]; cbn in Hl; try lia. Qed.
Lemma build_tree leaves t fuel objects :
  shape leaves t → rok t → length leaves ≤ fuel → keyed U objects → (∀ n, n ∈ rope_nodes t → U n) →
  ∃ objects',
    build_append_log_tree fuel ((λ leaf, rope_ref (Chunk leaf)) <$> leaves) objects
    = Ok (objects', rope_ref t)
    ∧ keyed U objects' ∧ added objects objects' (branches t).
Proof using Hdistinct.
  intros Hs. revert fuel objects. induction Hs as [values|ls rs l r Hc Hl IHl Hr IHr];
    intros fuel objects Hok Hf Hk Hu.
  - exists objects. split; [by destruct fuel|]. split; [done|]. intros id n. split; [by left|].
    by intros [?|[?%elem_of_nil _]].
  - rewrite length_app in Hf. pose proof (shape_length _ _ Hl). pose proof (shape_length _ _ Hr).
    destruct fuel as [|fuel]; [lia|]. rewrite build_tree_eq by (rewrite length_fmap, length_app; lia).
    rewrite length_fmap, length_app, (cut_left_len _ _ Hc), fmap_app.
    rewrite take_app_length', drop_app_length' by (by rewrite length_fmap).
    pose proof (rok_cat _ _ Hok) as [Hokl Hokr]. unfold rope_nodes in *. cbn [subropes] in Hu.
    setoid_rewrite fmap_cons in Hu. setoid_rewrite fmap_app in Hu. setoid_rewrite elem_of_cons in Hu.
    setoid_rewrite elem_of_app in Hu.
    destruct (IHl fuel objects) as (o1 & -> & Hk1 & Ha1); [done|lia|done|auto|]. cbn [mbind result_bind].
    destruct (IHr fuel o1) as (o2 & -> & Hk2 & Ha2); [done|lia|done|auto|]. cbn [mbind result_bind].
    change (LogBranch (rope_ref l) (rope_ref r)) with (rope_body (Cat l r)). rewrite rope_from_body by done.
    cbn [mbind result_bind]. destruct (store_rope o2 (Cat l r) Hok Hk2) as (o3 & H3 & Hk3 & Ha3); [auto|].
    exists o3. split; [exact H3|]. split; [done|]. intros id n.
    rewrite (Ha3 id n), (Ha2 id n), (Ha1 id n). cbn [branches].
    rewrite !elem_of_app, !list_elem_of_singleton. tauto.
Qed.

(** ** The whole log *)

Lemma build_log_spec values :
  Forall content_id values → fits (length values) →
  (∀ n, n ∈ log_nodes (rappend None values).2 → U n) →
  ∃ objects, build_log values = Ok (log_root (rappend None values).2, objects)
    ∧ ∀ n, n ∈ objects ↔ n ∈ log_nodes (rappend None values).2.
Proof using Hdistinct.
  intros Hv Hf Hu. unfold build_log. rewrite (proj2 (N.leb_le _ _)) by by apply fits_exact.
  cbn [require mbind result_bind]. case_bool_decide as Hnil; [subst; by exists []|].
  rewrite (proj2 (try_each_Ok validate_collection_id values ())) by by apply Forall_forall.
  cbn [mbind result_bind].
  destruct (append_shape values (S (length values)) Hnil) as (t & Ht & Hs); [lia|].
  destruct (rappend_spec None values I Hv) as [Hwf He]. rewrite Ht in *. cbn [lwf lelems log_nodes app] in *.
  assert (Hok : rok t) by (split; [done|]; unfold rlen; by rewrite He).
  set (leaves := append_log_leaves (S (length values)) values) in *.
  assert (Hleaves : Forall (λ leaf, rok (Chunk leaf)) leaves).
  { apply Forall_forall. intros leaf Hleaf.
    pose proof (append_log_leaves_valid (S (length values)) values Hv) as Hall.
    rewrite Forall_forall in Hall. destruct (Hall leaf Hleaf) as [Hlen Hc]. split; [by split|].
    unfold rlen, fits, LOG_CAPACITY. cbn [relems]. unfold LOG_FANOUT in *. lia. }
  unfold store_built_leaves. destruct (store_leaves leaves ∅ Hleaves) with (refs := @nil LogRef)
    as (o1 & H1 & Hk1 & Ha1); [by intros id n| |].
  { intros leaf Hin. apply Hu, (shape_nodes _ _ Hs). right. by apply (list_elem_of_fmap_2 (λ l, rope_node (Chunk l))). }
  rewrite H1. cbn [mbind result_bind app]. rewrite length_fmap.
  destruct (build_tree leaves t (length leaves) o1 Hs Hok) as (o2 & -> & Hk2 & Ha2); [lia|done|done|].
  cbn [mbind result_bind snd]. pose proof (ref_root_log (Some t) Hok) as Hr.
  cbn [fmap option_fmap option_map] in Hr. rewrite Hr. cbn [mbind result_bind log_root lr_len].
  unfold rlen. rewrite He, N.eqb_refl. cbn [require mbind result_bind fst].
  exists (btree_values o2). split; [done|]. intros n. rewrite elem_of_btree_values, (shape_nodes _ _ Hs). split.
  - intros [id Hn]. apply Ha2 in Hn as [Hn|[? _]]; [|by left]. apply Ha1 in Hn as [Hn|[? _]]; [done|by right].
  - intros Hn. exists (node_id n). apply Ha2. destruct Hn as [Hn|Hn]; [by right|left].
    apply Ha1. by right.
Qed.
End Build.

Section Bytes.
Context `{Sha256}.

(** ** The bytes of a proof *)

Definition LOG_NODE_COST : N := 2400.
Lemma total_ids values :
  Forall content_id values → total (byte_len <$> values) = (N.of_nat (length values) * 71)%N.
Proof.
  induction 1 as [|v values Hv%id_short Hvs IH]; [done|]. cbn [fmap list_fmap total length].
  rewrite Hv, IH. lia.
Qed.
Lemma log_bytes_cost n :
  verified n → ∃ b, LogNode_logical_bytes n = Ok b ∧ (b ≤ LOG_NODE_COST)%N.
Proof.
  intros Hv. destruct (verified_log_id n Hv) as [Hver Hid].
  assert (Hidl : byte_len (ln_object_id n) = 71%N).
  { rewrite Hid. apply id_short. unfold log_node_id. apply hash_identifier_valid. }
  unfold LogNode_logical_bytes. rewrite Hver, Hidl. change (byte_len LOG_NODE_VERSION) with 31%N.
  destruct (ln_body n) as [values|l r] eqn:Hb.
  - destruct (verified_log_leaf _ _ Hv Hb) as [Hlen Hval]. unfold LOG_FANOUT in Hlen. cbn [app].
    pose proof (total_ids values Hval) as Ht. rewrite sum_checked_fits; cbn [total]; rewrite Ht;
      [|unfold u64_max; lia]. eexists. split; [done|]. unfold LOG_NODE_COST. lia.
  - destruct (verified_log_branch _ _ _ Hv Hb) as ([Hl _]%log_child_valid & [Hr _]%log_child_valid & _).
    rewrite Hl, Hr. eexists. split; [done|]. by vm_compute.
Qed.
(** The nodes of a record of bounded size make a resolver. *)
Lemma log_proof_resolver maximum (σ : gmap string LogNode) :
  keyed verified σ → size σ ≤ maximum → (N.of_nat maximum * LOG_NODE_COST ≤ MAX_PROOF_BYTES)%N →
  ProofResolver_new (btree_values σ) maximum = Ok {| pr_nodes := σ; pr_used := ∅ |}.
Proof.
  intros Hk Hs Hm. assert (Hlen : length (btree_values σ) = size σ).
  { unfold btree_values. by rewrite length_fmap, (btree_list_perm σ), length_map_to_list. }
  unfold ProofResolver_new. rewrite Hlen, (proj2 (Nat.leb_le _ _)) by done.
  cbn [require mbind result_bind]. rewrite (proof_bytes_cost (λ _, LOG_NODE_COST)).
  - cbn [mbind result_bind]. by rewrite index_nodes_values.
  - intros n [id Hn]%elem_of_btree_values. apply log_bytes_cost. by apply Hk in Hn as [? _].
  - assert (Ht : ∀ l : list LogNode, total ((λ _, LOG_NODE_COST) <$> l) = (N.of_nat (length l) * LOG_NODE_COST)%N).
    { induction l as [|n l IH]; [done|]. cbn [fmap list_fmap total length]. rewrite IH. lia. }
    rewrite Ht, Hlen. unfold LOG_NODE_COST in *. lia.
Qed.
End Bytes.

(** ** The nodes of a path *)

Section Count.
Context `{Sha256} `{!Resolver LogNode R}.

Abbreviation nodes s := (size (rec_nodes s)).
Lemma load_records (s s' : Recording LogNode R) ref n :
  load_resolved s ref = Ok (s', n) → nodes s' ≤ S (nodes s).
Proof.
  intros (_ & _ & -> & _)%record_load. rewrite map_size_insert. destruct (_ !! _); cbn; lia.
Qed.
(** The children of a loaded branch are lower and have values. *)
Lemma load_children `{Resolver LogNode Q} (s s' : Q) ref n l r :
  load_resolved s ref = Ok (s', n) → ln_body n = LogBranch l r →
  (lc_height l < lc_height ref)%N ∧ (lc_height r < lc_height ref)%N
  ∧ (1 ≤ lc_len l)%N ∧ (1 ≤ lc_len r)%N ∧ lc_len ref = (lc_len l + lc_len r)%N.
Proof.
  intros (Hv & _ & _ & _ & Hl & Hh)%log_load_sound Hb.
  destruct (verified_log_branch _ _ _ Hv Hb) as ((_ & Hl1 & _)%log_child_valid
    & (_ & Hr1 & _)%log_child_valid & _ & Hcount & Hheight).
  rewrite Hcount in Hl. rewrite Hheight in Hh. injection Hl as <-. injection Hh as <-. lia.
Qed.
Lemma load_height `{Resolver LogNode Q} (s s' : Q) ref n :
  load_resolved s ref = Ok (s', n) → (1 ≤ lc_height ref)%N.
Proof.
  intros (_ & _ & _ & _ & _ & Hh)%log_load_sound. unfold LogNode_height in Hh. inv_ok.
  destruct (ln_body n); inv_ok; [lia|]. unfold checked_add_u8 in *. case_decide; simplify_eq. lia.
Qed.
Lemma load_leaf `{Resolver LogNode Q} (s s' : Q) ref n values :
  load_resolved s ref = Ok (s', n) → ln_body n = LogLeaf values → lc_len ref = N.of_nat (length values).
Proof.
  intros (_ & _ & _ & _ & Hl & _)%log_load_sound Hb. unfold LogNode_value_count in Hl.
  rewrite Hb in Hl. by injection Hl.
Qed.

Lemma get_path_record fuel ref index (s s' : Recording LogNode R) v :
  run_reads load_resolved (get_path fuel ref index) s = Ok (s', v) →
  nodes s' ≤ nodes s + N.to_nat (lc_height ref).
Proof.
  revert ref index s. induction fuel as [|fuel IH]; intros ref index s Hrun; [done|].
  cbn [get_path run_reads] in Hrun. apply bind_Ok in Hrun as ([s1 n] & Hload & Hrun). cbn [fst snd] in Hrun.
  pose proof (load_records _ _ _ _ Hload). pose proof (load_height _ _ _ _ Hload).
  destruct (ln_body n) as [values|l r] eqn:Hb.
  - cbn [run_reads] in Hrun. inv_ok. lia.
  - destruct (load_children _ _ _ _ _ _ Hload Hb) as (Hhl & Hhr & _).
    destruct (_ <? _)%N; [apply IH in Hrun; lia|]. rewrite run_reads_bind in Hrun.
    apply bind_Ok in Hrun as ([s2 i] & Hsub & Hrun). cbn [run_reads fst snd] in Hsub, Hrun. inv_ok.
    apply IH in Hrun. lia.
Qed.
Lemma root_ref_Ok root ref :
  root_ref root = Ok (Some ref) → (lc_height ref ≤ N.of_nat MAX_LOG_HEIGHT)%N.
Proof.
  unfold root_ref. intros Hr. apply bind_Ok in Hr as ([] & Hv & Hr).
  destruct (log_root_cases root Hv) as [->|(id & Heq & Hh)]; [done|].
  rewrite Heq in Hr. by injection Hr as <-.
Qed.
Lemma get_value_record root index r (s : Recording LogNode R) v :
  run_reads load_resolved (get_log_value root index) {| rec_inner := r; rec_nodes := ∅ |} = Ok (s, v) →
  nodes s ≤ MAX_LOG_HEIGHT.
Proof.
  unfold get_log_value. rewrite run_reads_bind. intros Hrun. apply bind_Ok in Hrun as ([s1 ref] & Href & Hrun).
  cbn [run_reads] in Href. apply bind_Ok in Href as (ref' & Href & Heq). injection Heq as <- ->.
  cbn [fst snd] in Hrun. destruct ref as [ref|]; [|done]. cbn [ok_or mbind reads_bind] in Hrun.
  apply get_path_record in Hrun. cbn [rec_nodes] in Hrun. rewrite map_size_empty in Hrun.
  apply root_ref_Ok in Href. lia.
Qed.

(** ** The nodes of a range *)

Section Range.
Variables (start : N) (limit : nat) (max_bytes : N).

(** The values that a range has seen, its boundary included. *)
Definition ended (sel : LogSelection) : nat := match lsel_boundary sel with Some _ => 1 | None => 0 end.
Definition seen (sel : LogSelection) : nat := length (lsel_values sel) + ended sel.
Lemma visit_values_seen index values sel sel' :
  visit_values start limit max_bytes index values sel = Ok sel' → lsel_boundary sel = None →
  length (lsel_values sel) ≤ limit →
  length (lsel_values sel') ≤ limit ∧ seen sel ≤ seen sel'
  ∧ (values ≠ [] → (start < index + N.of_nat (length values))%N → seen sel < seen sel').
Proof.
  revert index sel. induction values as [|v values IH]; intros index sel Hv Hb Hl; cbn [visit_values] in Hv.
  - by injection Hv as <-.
  - destruct (N.ltb_spec index start) as [Hlt|Hge].
    + destruct (IH _ _ Hv Hb Hl) as (? & ? & Hs). split; [done|]. split; [done|]. intros _ Hlen.
      cbn [length] in Hlen. apply Hs; [|lia]. intros ->. cbn in Hlen. lia.
    + apply bind_Ok in Hv as (u & _ & Hv). apply bind_Ok in Hv as (next & _ & Hv).
      destruct (_ || _) eqn:Hstop.
      * injection Hv as <-. unfold seen, ended. cbn [lsel_values lsel_boundary]. rewrite Hb. lia.
      * apply orb_false_iff in Hstop as [Hlim _]. to_prop. apply IH in Hv as (? & Hs & _); [|done|].
        -- split; [done|]. unfold seen, ended in *. cbn [lsel_values lsel_boundary] in Hs.
           rewrite length_app in Hs. rewrite Hb in *. cbn [length] in Hs. lia.
        -- cbn [lsel_values]. rewrite length_app. cbn. lia.
Qed.

(** How many nodes a call reads: two per value that it sees, and a path for
    each end of the range that lies inside. *)
Definition inside (base : N) : nat := if (start <=? base)%N then 0 else 1.
Definition range_cost (ref : LogRef) (base : N) (sel sel' : LogSelection) : nat :=
  2 * (seen sel' - seen sel) + (inside base + ended sel') * N.to_nat (lc_height ref).
Record range_step (ref : LogRef) (base : N) (sel sel' : LogSelection) (k : nat) : Prop := {
  rs_limit : length (lsel_values sel') ≤ limit;
  rs_seen : seen sel ≤ seen sel';
  rs_cost : lsel_boundary sel = None → (start < base + lc_len ref)%N →
    k + 1 ≤ range_cost ref base sel sel' + inside base;
  rs_idle : is_Some (lsel_boundary sel) ∨ (base + lc_len ref ≤ start)%N → k = 0 ∧ sel' = sel;
}.
Lemma checked_index base len n :
  ok_or (opt_filter (λ n, n <=? MAX_EXACT_INTEGER)%N (checked_add base len))
    (Integrity "log_range_index_overflow") = Ok n → n = (base + len)%N.
Proof.
  unfold checked_add. case_decide; [|done]. cbn [opt_filter]. destruct (_ <=? _)%N; [|done]. by intros [= ->].
Qed.
Lemma range_idle ref base sel :
  length (lsel_values sel) ≤ limit → is_Some (lsel_boundary sel) ∨ (base + lc_len ref ≤ start)%N →
  range_step ref base sel sel 0.
Proof. intros Hl Hi. split; try done. intros Hb Hs. destruct Hi as [[b Hi]|Hi]; [congruence|lia]. Qed.
Lemma range_branch ref l r base sel sel1 sel' a b :
  (lc_height l < lc_height ref)%N → (lc_height r < lc_height ref)%N → (1 ≤ lc_len l)%N → (1 ≤ lc_len r)%N →
  lc_len ref = (lc_len l + lc_len r)%N → lsel_boundary sel = None → (start < base + lc_len ref)%N →
  range_step l base sel sel1 a → range_step r (base + lc_len l) sel1 sel' b →
  range_step ref base sel sel' (S (a + b)).
Proof.
  intros Hhl Hhr Hll Hlr Hlen Hb Hs [Hl1 Hs1 Hc1 Hi1] [Hl2 Hs2 Hc2 Hi2]. split; [done|lia| |].
  2: { intros [[x Hx]|Hx]; [congruence|lia]. }
  intros _ _. unfold range_cost, inside in *.
  assert (Hone : ∀ s, ended s ≤ 1) by (intros s; unfold ended; destruct (lsel_boundary s); lia).
  pose proof (Hone sel1). pose proof (Hone sel').
  set (h := N.to_nat (lc_height ref)). assert (Hl : S (N.to_nat (lc_height l)) ≤ h) by lia.
  assert (Hr : S (N.to_nat (lc_height r)) ≤ h) by lia.
  destruct (N.leb_spec start base) as [Hsb|Hsb], (N.leb_spec start (base + lc_len l)) as [Hsl|Hsl]; [|lia| |].
  - specialize (Hc1 Hb ltac:(lia)). destruct (lsel_boundary sel1) as [v|] eqn:Hb1.
    + destruct Hi2 as [-> ->]; [left; done|]. assert (ended sel1 = 1) as He by (unfold ended; by rewrite Hb1).
      rewrite He in *. nia.
    + assert (ended sel1 = 0) as He by (unfold ended; by rewrite Hb1). specialize (Hc2 eq_refl ltac:(lia)).
      rewrite He in *. nia.
  - destruct (decide (start = base + lc_len l)%N) as [Heq|Hne].
    + destruct Hi1 as [-> ->]; [right; lia|]. specialize (Hc2 Hb ltac:(lia)). nia.
    + specialize (Hc1 Hb ltac:(lia)). destruct (lsel_boundary sel1) as [v|] eqn:Hb1.
      * destruct Hi2 as [-> ->]; [left; done|]. assert (ended sel1 = 1) as He by (unfold ended; by rewrite Hb1).
        rewrite He in *. nia.
      * assert (ended sel1 = 0) as He by (unfold ended; by rewrite Hb1). specialize (Hc2 eq_refl ltac:(lia)).
        rewrite He in *. nia.
  - destruct Hi1 as [-> ->]; [right; lia|]. specialize (Hc2 Hb ltac:(lia)). nia.
Qed.
Lemma visit_range_record fuel ref base sel sel' (s s' : Recording LogNode R) :
  run_reads load_resolved (visit_log_range start limit max_bytes fuel ref base sel) s = Ok (s', sel') →
  length (lsel_values sel) ≤ limit →
  ∃ k, nodes s' ≤ nodes s + k ∧ range_step ref base sel sel' k.
Proof.
  revert ref base sel sel' s s'. induction fuel as [|fuel IH]; intros ref base sel sel' s s' Hrun Hl; [done|].
  cbn [visit_log_range] in Hrun. case_bool_decide as Hbd.
  { injection Hrun as <- <-. exists 0. split; [lia|]. apply range_idle; auto. }
  apply eq_None_not_Some in Hbd. rewrite run_reads_bind in Hrun.
  apply bind_Ok in Hrun as ([s1 end_index] & Hend & Hrun). cbn [run_reads] in Hend.
  apply bind_Ok in Hend as (e & ->%checked_index & Heq). injection Heq as <- <-. cbn [fst snd] in Hrun.
  destruct (N.leb_spec (base + lc_len ref) start) as [Hle|Hgt].
  { injection Hrun as <- <-. exists 0. split; [lia|]. apply range_idle; auto. }
  cbn [run_reads] in Hrun. apply bind_Ok in Hrun as ([s1 n] & Hload & Hrun). cbn [fst snd] in Hrun.
  pose proof (load_records _ _ _ _ Hload) as Hn1. pose proof (load_height _ _ _ _ Hload) as Hh.
  destruct (ln_body n) as [values|l r] eqn:Hb.
  - cbn [run_reads] in Hrun. apply bind_Ok in Hrun as (sel1 & Hv & Heq). injection Heq as <- <-.
    apply visit_values_seen in Hv as (Hlim & Hseen & Hgain); [|done|done].
    pose proof (load_leaf _ _ _ _ _ Hload Hb) as Hlen. rewrite Hlen in Hgt.
    apply log_load_sound in Hload as (Hver & _). destruct (verified_log_leaf _ _ Hver Hb) as [Hpos _].
    assert (Hg : seen sel < seen sel1) by (apply Hgain; [intros ->; cbn in Hpos; lia|lia]).
    exists 1. split; [lia|]. split; [done|lia| |].
    + intros _ _. unfold range_cost, inside. destruct (start <=? base)%N; nia.
    + intros [[x Hx]|Hx]; [congruence|lia].
  - destruct (load_children _ _ _ _ _ _ Hload Hb) as (Hhl & Hhr & Hll & Hlr & Hlen).
    rewrite run_reads_bind in Hrun. apply bind_Ok in Hrun as ([s2 sel1] & Hleft & Hrun). cbn [fst snd] in Hrun.
    apply IH in Hleft as (a & Ha & Hsa); [|done]. rewrite run_reads_bind in Hrun.
    apply bind_Ok in Hrun as ([s3 right_base] & Hend & Hright). cbn [run_reads] in Hend.
    apply bind_Ok in Hend as (e & ->%checked_index & Heq). injection Heq as <- <-. cbn [fst snd] in Hright.
    apply IH in Hright as (b & Hb2 & Hsb); [|by apply (rs_limit _ _ _ _ _ Hsa)].
    exists (S (a + b)). split; [lia|]. by apply (range_branch ref l r base sel sel1 sel').
Qed.
Lemma collect_range_record root r (s : Recording LogNode R) sel :
  run_reads load_resolved (collect_log_range start limit max_bytes root)
    {| rec_inner := r; rec_nodes := ∅ |} = Ok (s, sel) →
  limit ≤ MAX_PAGE_ENTRIES → nodes s ≤ MAX_LOG_RANGE_PROOF_NODES ∧ length (lsel_values sel) ≤ limit.
Proof.
  unfold collect_log_range. intros Hrun Hlim. rewrite run_reads_bind in Hrun.
  apply bind_Ok in Hrun as ([s1 ref] & Href & Hrun). cbn [run_reads] in Href.
  apply bind_Ok in Href as (ref' & Href & Heq). injection Heq as <- <-. cbn [fst snd] in Hrun.
  rewrite run_reads_bind in Hrun. apply bind_Ok in Hrun as ([s2 sel1] & Hvisit & Hrun). cbn [fst snd] in Hrun.
  assert (Heq : s2 = s ∧ sel1 = sel).
  { destruct (require _ _); [|done]. by injection Hrun. }
  destruct Heq as [-> ->]. destruct ref' as [ref|].
  - apply visit_range_record in Hvisit as (k & Hk & [Hv Hseen Hc Hi]); [|cbn; lia]. split; [|done].
    apply root_ref_Ok in Href. cbn [rec_nodes] in Hk. rewrite map_size_empty in Hk.
    destruct (decide (start < 0 + lc_len ref)%N) as [Hs|Hs].
    + specialize (Hc eq_refl Hs). unfold range_cost, seen, inside, ended, MAX_LOG_RANGE_PROOF_NODES, MAX_PAGE_ENTRIES,
        MAX_LOG_HEIGHT in *. cbn [no_log_selection lsel_values lsel_boundary length] in Hc.
      destruct (start <=? 0)%N, (lsel_boundary sel); lia.
    + destruct Hi as [-> _]; [right; lia|]. lia.
  - injection Hvisit as <- <-. cbn [rec_nodes]. rewrite map_size_empty. cbn. lia.
Qed.
End Range.
End Count.

(** ** Recorded proofs verify *)

Section Roundtrip.
Context `{Sha256} `{!Resolver LogNode R}.

Lemma exact_replay root index (r : R) proof :
  prove_log_exact root index r = Ok proof →
  ∃ s v, run_reads load_resolved (get_log_value root index) {| rec_inner := r; rec_nodes := ∅ |} = Ok (s, v)
    ∧ verify_log_exact root index proof = Ok {| vlr_root := root; vlr_index := index; vlr_value := v |}.
Proof.
  unfold prove_log_exact. intros Hp. apply bind_Ok in Hp as ([] & Hroot & Hp).
  apply bind_Ok in Hp as (u & _ & Hp). apply bind_Ok in Hp as ([s v] & Hrun & Hp). injection Hp as <-.
  exists s, v. split; [done|]. destruct (replay_proof _ _ _ _ Hrun) as (Hk & q & Hq & Hfin).
  unfold verify_log_exact. cbn [lex_root lex_index lex_nodes fst]. rewrite Hroot. cbn [mbind result_bind].
  rewrite bool_decide_eq_true_2, N.eqb_refl by done. cbn [andb require mbind result_bind].
  rewrite log_proof_resolver; [|done|by eapply get_value_record|done]. cbn [mbind result_bind].
  rewrite Hq. cbn [mbind result_bind fst snd]. by rewrite Hfin.
Qed.
(** The verified form of what a range selected. *)
Definition range_outcome (root : LogRoot) (start : N) (sel : LogSelection) : VerifiedLogRange :=
  {| vrg_root := root; vrg_start := start; vrg_values := lsel_values sel;
     vrg_next_index := (λ _, start + N.of_nat (length (lsel_values sel)))%N <$> lsel_boundary sel |}.
Lemma range_replay root start limit max_bytes (r : R) proof :
  prove_log_range root start limit max_bytes r = Ok proof →
  ∃ s sel, run_reads load_resolved (collect_log_range start limit max_bytes root)
      {| rec_inner := r; rec_nodes := ∅ |} = Ok (s, sel)
    ∧ verify_log_range root start limit max_bytes proof = Ok (range_outcome root start sel).
Proof.
  unfold prove_log_range. intros Hp. apply bind_Ok in Hp as ([] & Hreq & Hp).
  apply bind_Ok in Hp as ([s sel] & Hrun & Hp). injection Hp as <-. exists s, sel. split; [done|].
  destruct (replay_proof _ _ _ _ Hrun) as (Hk & q & Hq & Hfin).
  assert (Hbounds : (start ≤ lr_len root)%N ∧ (lr_len root ≤ MAX_EXACT_INTEGER)%N ∧ limit ≤ MAX_PAGE_ENTRIES).
  { unfold validate_range_request in Hreq. apply bind_Ok in Hreq as ([] & Hroot & Hreq). inv_ok. to_prop.
    split; [done|]. split; [|done]. destruct (log_root_cases root Hroot) as [->|(id & Heq & _)]; [done|].
    unfold LogRoot_verify in Hroot. destruct (N.eqb_spec (lr_len root) 0) as [->|]; [done|].
    inv_ok. by to_prop. }
  destruct Hbounds as (Hs & Hl & Hlim). destruct (collect_range_record _ _ _ _ _ _ _ Hrun Hlim) as [Hsize Hval].
  unfold verify_log_range. cbn [lrp_root lrp_start lrp_limit lrp_max_bytes lrp_nodes fst].
  rewrite Hreq. cbn [mbind result_bind].
  rewrite bool_decide_eq_true_2, !N.eqb_refl, Nat.eqb_refl by done. cbn [andb require mbind result_bind].
  assert (Hlen : length (btree_values (rec_nodes s)) ≤ MAX_LOG_RANGE_PROOF_NODES).
  { unfold btree_values. by rewrite length_fmap, (btree_list_perm (rec_nodes s)), length_map_to_list. }
  rewrite (proj2 (Nat.leb_le _ _)) by done. cbn [require mbind result_bind].
  rewrite log_proof_resolver by (done || by vm_compute). cbn [mbind result_bind]. rewrite Hq.
  cbn [mbind result_bind fst snd]. rewrite Hfin. cbn [mbind result_bind]. unfold checked_add.
  rewrite decide_True; [done|]. unfold u64_max, MAX_EXACT_INTEGER, MAX_PAGE_ENTRIES in *. lia.
Qed.
End Roundtrip.

Section Fuel.
Context `{Sha256}.

Lemma counts_heights n ref l r :
  verified n → same_counts n ref = Ok true → ln_body n = LogBranch l r →
  (lc_height l < lc_height ref)%N ∧ (lc_height r < lc_height ref)%N.
Proof.
  intros Hv Hs Hb. destruct (verified_log_branch _ _ _ Hv Hb) as (_ & _ & _ & Hcount & Hheight).
  cbn [same_counts log_kind] in Hs. unfold log_same_counts in Hs. rewrite Hcount, Hheight in Hs.
  cbn [mbind result_bind] in Hs. destruct (_ =? _)%N; [|done]. injection Hs as Hs%N.eqb_eq. lia.
Qed.

Section Reads.
Context `{Resolver LogNode R}.

Abbreviation height ref := (N.to_nat (lc_height ref)).
Lemma load_heights (r r' : R) ref n lchild rchild :
  load_resolved r ref = Ok (r', n) → ln_body n = LogBranch lchild rchild →
  height lchild < height ref ∧ height rchild < height ref.
Proof.
  intros (Hv & _ & Hs)%load_resolved_Ok Hb. destruct (counts_heights _ _ _ _ Hv Hs Hb). lia.
Qed.
Lemma audit_log_fuel fuel k ref st (r : R) :
  height ref < fuel →
  run_reads load_resolved (audit_log_subtree (fuel + k) ref st) r
  = run_reads load_resolved (audit_log_subtree fuel ref st) r.
Proof.
  revert ref st r. induction fuel as [|fuel IH]; intros ref st r Hf; [lia|].
  cbn [Nat.add audit_log_subtree run_reads].
  destruct (load_resolved r ref) as [[r2 n]|] eqn:Hl; cbn [mbind result_bind fst snd]; [|done].
  destruct (ln_body n) as [|lchild rchild] eqn:Hb; [done|].
  destruct (load_heights _ _ _ _ _ _ Hl Hb). fold_bind. apply run_reads_bind_ext; [apply IH; lia|].
  intros r3 st'. apply IH. lia.
Qed.
Lemma visit_log_fuel start limit max_bytes fuel k ref base sel (r : R) :
  height ref < fuel →
  run_reads load_resolved (visit_log_range start limit max_bytes (fuel + k) ref base sel) r
  = run_reads load_resolved (visit_log_range start limit max_bytes fuel ref base sel) r.
Proof.
  revert ref base sel r. induction fuel as [|fuel IH]; intros ref base sel r Hf; [lia|].
  cbn [Nat.add visit_log_range]. case_bool_decide; [done|]. fold_bind. apply run_reads_bind_ext; [done|].
  intros r1 end_index. destruct (_ <=? _)%N; [done|]. cbn [run_reads].
  destruct (load_resolved r1 ref) as [[r2 n]|] eqn:Hl; cbn [mbind result_bind fst snd]; [|done].
  destruct (ln_body n) as [|lchild rchild] eqn:Hb; [done|].
  destruct (load_heights _ _ _ _ _ _ Hl Hb). fold_bind. apply run_reads_bind_ext; [apply IH; lia|].
  intros r3 sel'. fold_bind. apply run_reads_bind_ext; [done|]. intros r4 right_base. apply IH. lia.
Qed.
(** Two different heights follow each other on a path: 77 nodes suffice. *)
Lemma get_path_fuel fuel k ref index (r : R) :
  height ref < fuel →
  run_reads load_resolved (get_path (fuel + k) ref index) r = run_reads load_resolved (get_path fuel ref index) r.
Proof.
  revert ref index r. induction fuel as [|fuel IH]; intros ref index r Hf; [lia|].
  cbn [Nat.add get_path run_reads].
  destruct (load_resolved r ref) as [[r2 n]|] eqn:Hl; cbn [mbind result_bind fst snd]; [|done].
  destruct (ln_body n) as [|lchild rchild] eqn:Hb; [done|].
  destruct (load_heights _ _ _ _ _ _ Hl Hb). destruct (_ <? _)%N; [apply IH; lia|]. fold_bind.
  apply run_reads_bind_ext; [done|]. intros r3 i. apply IH. lia.
Qed.

(** ** Programs on an overlay *)

Lemma load_overlay_heights (o o' : Overlay LogNode R) ref n lchild rchild :
  ov_verified o → overlay_load o ref = Ok (o', n) → ln_body n = LogBranch lchild rchild →
  height lchild < height ref ∧ height rchild < height ref.
Proof.
  intros Ho Hl Hb. destruct (load_verified _ _ _ _ Ho Hl) as (_ & Hv & _ & Hs).
  destruct (counts_heights _ _ _ _ Hv Hs Hb). lia.
Qed.
Lemma children_heights (o o' : Overlay LogNode R) ref lchild rchild :
  ov_verified o → run_prog (branch_children ref) o = Ok (o', (lchild, rchild)) →
  height lchild < height ref ∧ height rchild < height ref.
Proof.
  intros Ho Hrun. unfold branch_children in Hrun. cbn [run_prog_with] in Hrun.
  apply bind_Ok in Hrun as ([o1 n] & Hl & Hrun). cbn [fst snd] in Hrun.
  destruct (ln_body n) as [|l r] eqn:Hb; [done|]. injection Hrun as <- <- <-.
  by eapply load_overlay_heights.
Qed.
Lemma join_fuel fuel k lref rref (o : Overlay LogNode R) :
  ov_verified o → height lref + height rref < fuel →
  run_prog (join_within (fuel + k) lref rref) o = run_prog (join_within fuel lref rref) o.
Proof.
  revert lref rref o. induction fuel as [|fuel IH]; intros lref rref o Ho Hf; [lia|].
  cbn [Nat.add join_within]. fold_bind. apply run_prog_bind_ext; [done|]. intros o1 right_limit H1.
  apply (run_prog_verified (Done _)) in H1 as Ho1; [|done]. destruct (_ <? _)%N.
  - fold_bind. apply run_prog_bind_ext; [done|]. intros o2 [ll lr] H2.
    destruct (children_heights _ _ _ _ _ Ho1 H2). apply run_prog_verified in H2 as Ho2; [|done].
    fold_bind. apply run_prog_bind_ext; [apply IH; [done|lia]|done].
  - fold_bind. apply run_prog_bind_ext; [done|]. intros o2 left_limit H2.
    apply (run_prog_verified (Done _)) in H2 as Ho2; [|done]. destruct (_ <? _)%N; [|done].
    fold_bind. apply run_prog_bind_ext; [done|]. intros o3 [rl rr] H3.
    destruct (children_heights _ _ _ _ _ Ho2 H3). apply run_prog_verified in H3 as Ho3; [|done].
    fold_bind. apply run_prog_bind_ext; [apply IH; [done|lia]|done].
Qed.
Lemma split_fuel fuel k ref index (o : Overlay LogNode R) :
  ov_verified o → height ref < fuel →
  run_prog (split_within (fuel + k) ref index) o = run_prog (split_within fuel ref index) o.
Proof.
  revert ref index o. induction fuel as [|fuel IH]; intros ref index o Ho Hf; [lia|].
  cbn [Nat.add split_within]. destruct (index =? 0)%N; [done|]. destruct (index =? lc_len ref)%N; [done|].
  destruct (_ <? _)%N; [done|]. cbn [run_prog_with].
  destruct (overlay_load o ref) as [[o1 n]|] eqn:Hl; cbn [mbind result_bind fst snd]; [|done].
  destruct (load_verified _ _ _ _ Ho Hl) as (Ho1 & _). destruct (ln_body n) as [|lchild rchild] eqn:Hb; [done|].
  destruct (load_overlay_heights _ _ _ _ _ _ Ho Hl Hb). destruct (index ?= lc_len lchild)%N; [done| |].
  - fold_bind. apply run_prog_bind_ext; [apply IH; [done|lia]|done].
  - fold_bind. apply run_prog_bind_ext; [done|]. intros o2 offset Hoff.
    apply (run_prog_verified (Done _)) in Hoff as Ho2; [|done].
    fold_bind. apply run_prog_bind_ext; [apply IH; [done|lia]|done].
Qed.
End Reads.

(** The bounds that the model starts with suffice. *)
Lemma fuel_of_enough ref : N.to_nat (lc_height ref) < fuel_of ref.
Proof. unfold fuel_of. lia. Qed.
Lemma log_children_two (n : LogNode) : length (node_children n) ≤ 2.
Proof. cbn [node_children log_kind]. unfold log_children. destruct (ln_body n); cbn; lia. Qed.
End Fuel.
