(* ===== verification/Samples.v ===== *)
(** * A concrete machine

    Instances of the parameters (a small hash function, serialisers and a
    codec for one plan) and a script of public operations that drives one Run
    from its start to completion.  The witnesses of the properties evaluate
    them. *)

From stdpp Require Import pretty.
From S2P Require Import Prelude Identity CommandIndex Numbers Canonical Graph Ir Model.
From S2P Require Import Events Chain Machine Location Effects DerivedIndex Reducer Verify.
From S2P Require Import Authority Archive Compaction Admission Submit MachineInv CompactionInv.

(** ** Instances *)

(** A rolling hash of 31 bits, written in 32 bytes. *)
Fixpoint rolling (acc : N) (s : string) : N :=
  match s with
  | EmptyString => acc
  | String c s => rolling (N.land (N.shiftl acc 8 + acc + byte_of c + 1) 2147483647) s
  end.
(** The low [n] bytes of [v] before [tail]. *)
Fixpoint low_bytes (n : nat) (v : N) (tail : string) : string :=
  match n with
  | O => tail
  | S n => low_bytes n (N.shiftr v 8) (String (ascii_of_N v) tail)
  end.
Lemma low_bytes_len n v tail : byte_len (low_bytes n v tail) = (N.of_nat n + byte_len tail)%N.
Proof.
  revert v tail. induction n as [|n IH]; intros v tail; cbn [low_bytes]; [done|].
  rewrite IH. cbn [byte_len]. lia.
Qed.
#[export] Instance sample_sha : Sha256 := {
  sha256 m := low_bytes 32 (rolling 7 m) EmptyString;
  sha256_len m := low_bytes_len 32 _ _;
}.

Definition quote : string := String "034" EmptyString.
Fixpoint join (l : list string) : string :=
  match l with [] => EmptyString | [x] => x | x :: l => x +:+ "," +:+ join l end.
Fixpoint sample_print (v : Json) : string :=
  match v with
  | JNull => "null"
  | JBool b => if b then "true" else "false"
  | JNumber (NInt z) => pretty z
  | JNumber (NFloat _) => "0.5"
  | JString s => quote +:+ s +:+ quote
  | JArray l => "[" +:+ join (sample_print <$> l) +:+ "]"
  | JObject l => "{" +:+ join ((λ p, quote +:+ p.1 +:+ quote +:+ ":" +:+ sample_print p.2) <$> l) +:+ "}"
  end.
Fixpoint sample_value (v : Ser) : Json :=
  match v with
  | SerBool b => JBool b
  | SerSigned z => JNumber (NInt z)
  | SerUnsigned n => JNumber (NInt (Z.of_N n))
  | SerFloat f => JNumber (NFloat f)
  | SerStr s => JString s
  | SerUnit | SerNone => JNull
  | SerSome v | SerNewtype v => sample_value v
  | SerSeq l => JArray (sample_value <$> l)
  | SerMap l => JArray ((λ p, JArray [sample_value p.1; sample_value p.2]) <$> l)
  | SerStruct l => JObject ((λ p, (p.1, sample_value p.2)) <$> l)
  end.
(** A parser of the literals the script uses: null, naturals, plain strings. *)
Definition sample_parse (s : string) : option Raw :=
  if decide (s = "null") then Some RawNull
  else if negb (bool_decide (s = EmptyString)) && all_bytes is_ascii_digit s
  then Some (RawUnsigned (digits_value (digits_of s)))
  else body ← strip_prefix quote s;
       match split_at_first (λ c, bool_decide (byte_of c = 34%N)) body with
       | (inner, Some EmptyString) => Some (RawStr inner)
       | _ => None
       end.
#[export] Instance sample_json : JsonLibrary := {
  json_parse := sample_parse;
  to_value v := Some (sample_value v);
  jcs_serialized v := Some (sample_print (sample_value v));
  jcs_value v := Some (sample_print v);
}.
Fixpoint ser_json (v : Json) : Ser :=
  match v with
  | JNull => SerUnit
  | JBool b => SerBool b
  | JNumber (NInt z) => SerSigned z
  | JNumber (NFloat f) => SerFloat f
  | JString s => SerStr s
  | JArray l => SerSeq (ser_json <$> l)
  | JObject l => SerStruct ((λ p, (p.1, ser_json p.2)) <$> l)
  end.
#[export] Instance sample_serialize_value : ValueSerialize := { serialize_value := ser_json }.

Definition ser_strings (l : list string) : Ser := SerSeq (SerStr <$> l).
Definition ser_option (o : option string) : Ser :=
  match o with Some s => SerSome (SerStr s) | None => SerNone end.
Definition ser_ref (r : ArtifactRef) : Ser :=
  ser_strings [identity_version r; artifact_id r; artifact_kind r].
Definition ser_nats (l : list nat) : Ser := SerSeq (SerUnsigned <$> (N.of_nat <$> l)).
Definition ser_path (l : list InvocationPathSegment) : Ser :=
  SerSeq ((λ s, SerSeq [SerStr (seg_site_id s); ser_nats (seg_region_path s);
                        SerStr (seg_scope_id s)]) <$> l).
Definition ser_transition (t : EffectTransition) : Ser :=
  match t with
  | Prepare => SerStr "prepare"
  | AuthorizeRelease => SerStr "authorize_release"
  | StartDispatch => SerStr "start_dispatch"
  | Observe o => ser_strings ["observe"; match o with
      | Unobserved => "unobserved" | Applied => "applied" | NotApplied => "not_applied"
      | Unknown => "unknown" end]
  | Reconcile r => ser_strings ["reconcile"; match r with
      | ResolvedApplied => "applied" | ResolvedNotApplied => "not_applied"
      | StillUnknown => "unknown" | ResolutionGovernanceRequired => "governance" end]
  | MarkUnavailable => SerStr "mark_unavailable"
  end.
Definition ser_payload (p : EventPayload) : Ser :=
  match p with
  | RunStarted a b c r => SerSeq [ser_strings ["run_started"; a; b; c]; ser_ref r]
  | AttemptStarted a b c e f =>
      SerSeq [ser_strings ["attempt_started"; a; b; c]; SerUnsigned e; SerUnsigned f]
  | AttemptYielded a e f => SerSeq [ser_strings ["attempt_yielded"; a]; SerUnsigned e; SerUnsigned f]
  | EpochAdvanced e => SerSeq [SerStr "epoch_advanced"; SerUnsigned e]
  | ScopeOpened a b c l d r e =>
      SerSeq [ser_strings ["scope_opened"; a; b; c; d; e]; ser_path l; ser_nats r]
  | EffectProposed a b c d l e r f g h i _ x y j =>
      SerSeq [ser_strings ["effect_proposed"; a; b; c; d; e; f; g; h; i; j]; ser_path l; ser_nats r;
              ser_ref x; ser_ref y]
  | EffectTransitioned a t => SerSeq [ser_strings ["effect_transitioned"; a]; ser_transition t]
  | ScopeCommitted a n c => SerSeq [ser_strings ["scope_committed"; a; c]; SerUnsigned n]
  | ScopeAborted a => ser_strings ["scope_aborted"; a]
  | BindingUpdated a b => ser_strings ["binding_updated"; a; b]
  | RunMigrated a b c d e n f => SerSeq [ser_strings ["run_migrated"; a; b; c; d; e; f]; SerUnsigned n]
  | RunCompleted (Some r) => SerSeq [SerStr "run_completed"; ser_ref r]
  | RunCompleted None => SerSeq [SerStr "run_completed"]
  | FactRecorded k v => ser_strings ["fact_recorded"; k; v]
  | RunFailed f e => SerSeq [ser_strings ["run_failed"; failure_code f]; ser_ref (failure_detail f);
                             SerUnsigned e]
  | RunCancelled r e => SerSeq [SerStr "run_cancelled"; ser_ref r; SerUnsigned e]
  end.
Definition ser_attempt (a : InitialAttemptSpec) : Ser :=
  SerSeq [ser_strings [ia_attempt_id a; ia_continuation_id a; ia_occurrence_binding a];
          SerUnsigned (ia_continuation_epoch a); SerUnsigned (ia_execution_fence a)].
Definition ser_command (c : Command) : Ser :=
  match c with
  | StartRun a b r d i => SerSeq [ser_strings ["start_run"; a; b; d]; ser_ref r; ser_attempt i]
  | BeginAttempt a b c e f =>
      SerSeq [ser_strings ["begin_attempt"; a; b; c]; SerUnsigned e; SerUnsigned f]
  | YieldAttempt a e f => SerSeq [ser_strings ["yield_attempt"; a]; SerUnsigned e; SerUnsigned f]
  | AdvanceEpoch => SerStr "advance_epoch"
  | OpenScope a b c l d r e =>
      SerSeq [ser_strings ["open_scope"; a; b; c; d; e]; ser_path l; ser_nats r]
  | ProposeEffect a b l d r e f g x y h =>
      SerSeq [ser_strings ["propose_effect"; a; b; d; e; f; g; h]; ser_path l; ser_nats r;
              ser_ref x; ser_ref y]
  | TransitionEffect a t => SerSeq [ser_strings ["transition_effect"; a]; ser_transition t]
  | CommitScope a => ser_strings ["commit_scope"; a]
  | AbortScope a => ser_strings ["abort_scope"; a]
  | UpdateBinding a => ser_strings ["update_binding"; a]
  | MigrateRun a b c d e n f =>
      SerSeq [ser_strings ["migrate_run"; a; b; c; d; e; f]; SerUnsigned n]
  | RecordFact k v => ser_strings ["record_fact"; k; v]
  | CompleteRun (Some r) => SerSeq [SerStr "complete_run"; ser_ref r]
  | CompleteRun None => SerSeq [SerStr "complete_run"]
  | FailRun f => SerSeq [ser_strings ["fail_run"; failure_code f]; ser_ref (failure_detail f)]
  | CancelRun r => SerSeq [SerStr "cancel_run"; ser_ref r]
  end.
Definition ser_envelope (e : CommandEnvelope) : Ser :=
  SerSeq [ser_strings [command_version e; command_id e; actor e; env_run_id e];
          ser_option (expected_precondition e); ser_command (command e)].
#[export] Instance sample_canonical : Canonical := { serialize v := match v with
  | PreEffectIntent a b c d e f r g => SerSeq [ser_strings ["intent"; a; b; c; d; e; f; g]; ser_ref r]
  | PreInvocation a b c l => SerSeq [ser_strings ["invocation"; a; b; c]; ser_path l]
  | PreScope a b c d r => SerSeq [ser_strings ["scope"; a; b; c; d]; ser_nats r]
  | PreObligation a => ser_strings ["obligation"; a]
  | PreCommitmentGenesis => ser_strings ["genesis"]
  | PreCommitmentAppend a o =>
      SerSeq [ser_strings ["append"; a; obligation_id o; obligation_intent_id o];
              SerBool (blocking o); SerBool (resolved o)]
  | PreEvent a b c d ps rs ws k p =>
      SerSeq [ser_strings [a; b; c; d]; ser_strings ps; ser_strings (btree_elements rs);
              ser_strings (btree_elements ws); ser_option k; ser_payload p]
  | PreEnvelope e => ser_envelope e
  | PreProjectionGenesis => ser_strings ["projection"]
  | PreProjectionRoot a b => ser_strings ["projection"; a; b]
  | PrePlan p => ser_strings ["plan"; plan_id p]
  | PreArtifact a => SerSeq [ser_ref (reference a); SerStr (artifact_bytes a)]
  | PreMaterial a ps l =>
      SerSeq [SerStr a; ser_strings (plan_id <$> ps); SerSeq ((λ a, ser_ref (reference a)) <$> l)]
  end }.
Definition ser_receipt (r : CommandReceipt) : Ser :=
  SerSeq [SerStr (receipt_command_id r); SerBool (bool_decide (receipt_status r = ReceiptApplied));
          ser_strings (receipt_event_ids r); ser_option (receipt_error_code r);
          ser_option (observed_precondition r); ser_option (current_precondition r)].
Definition ser_source (s : MachineCommandBatchMaterialSource) : Ser :=
  SerSeq [SerStr (ms_source_command_id s); ser_strings (ms_plan_ids s);
          SerSeq (ser_ref <$> ms_artifacts s)].
Definition ser_record (r : CommandRecord) : Ser :=
  SerSeq [ser_envelope (envelope r); SerStr (semantic_hash r); ser_receipt (receipt r);
          SerStr (batch_id r); SerUnsigned (batch_position r); SerUnsigned (batch_len r)].
#[export] Instance sample_machine_serialize : MachineSerialize := { serialize_machine v := match v with
  | MPGenesis => ser_strings ["genesis"]
  | MPAppend a b => ser_strings ["append"; a; b]
  | MPAuthorityRoot i =>
      SerSeq [ser_strings [plan_commitment i; artifact_commitment i; batch_commitment i;
                           ar_projection_root i];
              SerUnsigned (plan_count i); SerUnsigned (artifact_count i);
              SerUnsigned (ar_batch_count i); SerUnsigned (event_count i);
              SerUnsigned (default 0%N (admission_sequence i)); ser_option (admission_head i)]
  | MPIntent a b c d e => SerSeq [ser_strings [a; b; c; d]; ser_command e]
  | MPBatchManifest a l d s ps rs =>
      SerSeq [SerStr a; SerSeq ((λ m, ser_strings [m.1.2; m.2]) <$> l); ser_option d;
              SerSeq (match s with Some s => [ser_source s] | None => [] end); ser_strings ps;
              SerSeq (ser_ref <$> rs)]
  | MPBatchReceipt a b s l rs es c ps refs =>
      SerSeq [ser_strings [a; b; c];
              SerSeq (match s with Some s => [ser_source s] | None => [] end);
              SerSeq ((λ m, ser_strings [member_command_id m; intent_hash m;
                                         member_semantic_hash m]) <$> l);
              SerSeq (ser_receipt <$> rs); ser_strings es; ser_strings ps; SerSeq (ser_ref <$> refs)]
  | MPAdmission n p a b c d i l e f s es =>
      SerSeq [SerUnsigned n; ser_option p; ser_strings [a; b; c; d; e; f]; SerUnsigned i;
              SerUnsigned l; SerBool (bool_decide (s = ReceiptApplied)); ser_strings es]
  | MPCommandRecord r => ser_record r
  | MPArchiveEntry e =>
      SerSeq [SerStr (admission_id (entry_admission e)); ser_record (entry_command e);
              ser_strings (event_id <$> entry_events e)]
  end }.
Definition N_text (n : N) : string := pretty n.
Definition option_text (o : option string) : string :=
  match o with Some s => "+" +:+ s | None => "-" end.
Definition index_proof_text (p : MachineCommandIndexProof) : string :=
  join ([ip_command_id p; match ip_value p with
                          | Some v => iv_admission_id v +:+ iv_archive_entry_digest v
                          | None => "-"
                          end; N_text (default 0%N (empty_depth p))] ++ siblings p).
Definition header_text (h : MachineCommandArchiveSegmentHeader) : string :=
  join ([option_text (parent_segment h); option_text (parent_admission_head h);
         option_text (result_admission_head h); parent_command_index_root h; batches_root h;
         entries_root h; result_command_index_root h]
        ++ (N_text <$> [parent_count h; parent_event_count h; sh_entry_count h; sh_event_count h;
                        sh_batch_count h; result_count h; result_event_count h])).
Definition archive_text (v : ArchivePreimage) : string :=
  match v with
  | APSegment h => header_text h
  | APBatches l => join (batch_receipt_id <$> l)
  | APMerkleEmpty => "empty"
  | APMerkleParent l r => join [l; r]
  | APArchiveLeaf e u => join [admission_id (entry_admission e); index_proof_text u]
  | APObject _ => "object"
  end.
#[export] Instance sample_archive_serialize : ArchiveSerialize :=
  { serialize_archive v := SerStr (archive_text v) }.

Definition projection_text (p : Projection) : string :=
  join (((λ kr, kr.1 +:+ last_event kr.2) <$> btree_list (runs p))
        ++ ((λ kv, kv.1 +:+ kv.2) <$> btree_list (facts p))).
Definition compaction_text (v : CompactionPreimage) : string :=
  match v with
  | CPProjection p => projection_text p
  | CPPrefix h c e a i d r => join [h; N_text c; N_text e; option_text a; i; d; r]
  | CPBase b => prefix_digest b
  | CPAnchor a => join [anchor_base_id a; N_text (anchor_archive_batch_count a)]
  end.
#[export] Instance sample_compaction_serialize : CompactionSerialize :=
  { serialize_compaction v := SerStr (compaction_text v) }.

#[export] Instance sample_compiler : SchemaCompiler := {
  schema_builds _ := true;
  schema_matches _ _ := true;
}.

(** ** A plan *)

Definition pay_profile : EffectProfile :=
  {| mutation := Mutating; dispatch := OnScopeCommit; reconciliation_mode := Queryable;
     keyed_idempotency := true; irreversible := false |}.
Definition peek_profile : EffectProfile :=
  {| mutation := Observational; dispatch := Eager; reconciliation_mode := Queryable;
     keyed_idempotency := true; irreversible := false |}.
Definition sample_effect (i : string) (p : EffectProfile) : EffectContract :=
  {| contract_id := i; effect_input_schema := JBool true; effect_output_schema := JBool true;
     contract_profile := p; effect_requirements := [] |}.
Definition sample_candidate : PlanCandidate :=
  {| ir_version := IR_VERSION; plan_name := "sample"; entry := "main"; components := [];
     effects_ := [sample_effect "pay" pay_profile; sample_effect "peek" peek_profile];
     definitions :=
       [{| def_id := "main"; def_input_schema := JBool true; def_output_schema := JBool true;
           body := MkRegion
             [MkStep "work" (OScope (MkRegion [MkStep "pay-once" (OEffect "pay" EInput "first" None)]
                                       EInput) None);
              MkStep "look" (OEffect "peek" EInput "first" (Some "seen"));
              MkStep "help" (OInvoke "helper" (EBinding "seen") None)] (EBinding "seen") |};
        {| def_id := "helper"; def_input_schema := JBool true; def_output_schema := JBool true;
           body := MkRegion [] EInput |}];
     metadata := [] |}.
#[export] Instance sample_codec : PlanCodec := {
  serialize_plan c := SerStr (if decide (c = sample_candidate) then "sample" else "other");
  plan_from_value v := if decide (v = JString "sample") then Some sample_candidate else None;
}.
Definition or_default {A} (d : A) (r : core A) : A := match r with Ok a => a | Err _ => d end.
Definition sample_plan : SealedPlan :=
  or_default {| plan_id := ""; candidate := sample_candidate |} (seal_plan sample_candidate).

(** ** A script *)

Definition run_name : string := "run-1".
Definition token (m : Machine) : option string :=
  precondition_token <$> runs (projection m) !! run_name.
Definition sample_envelope (cid : string) (expected : option string) (c : Command)
    : CommandEnvelope :=
  {| command_version := COMMAND_VERSION; command_id := cid; actor := "tester";
     env_run_id := run_name; expected_precondition := expected; command := c |}.
Definition send (m : Machine) (cid : string) (c : Command) : core Machine :=
  r ← submit m (sample_envelope cid (token m) c); Ok r.1.
Definition sample_id (s : string) : string := content_id_of_bytes "sample" s.

Definition sample_record (kind bytes : string) : ArtifactRecord :=
  {| reference := or_default {| identity_version := ""; artifact_id := ""; artifact_kind := "" |}
                    (artifact_ref kind bytes);
     artifact_bytes := bytes |}.
Definition sample_input : ArtifactRecord := sample_record RUN_INPUT_ARTIFACT_KIND "7".
Definition sample_binding : ArtifactRecord := sample_record EXECUTION_BINDING_ARTIFACT_KIND "binding".
Definition sample_args : ArtifactRecord := sample_record EFFECT_ARGS_ARTIFACT_KIND "null".
Definition sample_attempt : InitialAttemptSpec :=
  {| ia_attempt_id := sample_id "attempt"; ia_continuation_id := sample_id "continuation";
     ia_occurrence_binding := artifact_id (reference sample_binding);
     ia_continuation_epoch := 0; ia_execution_fence := 1 |}.
Definition start_digest (cid : string) : string :=
  or_default "" (a ← MachineMaterialAdmission_new cid [sample_plan] [sample_binding; sample_input];
                 Ok (material_digest a)).
Definition start_command (cid : string) : Command :=
  StartRun (plan_id sample_plan) (artifact_id (reference sample_binding)) (reference sample_input)
    (start_digest cid) sample_attempt.
Definition main_invocation : string :=
  or_default "" (plan_invocation_id run_name (plan_id sample_plan) "main" []).
Definition work_scope : string :=
  or_default "" (plan_scope_id run_name (plan_id sample_plan) main_invocation "main" [0]).
Definition open_command : Command :=
  OpenScope work_scope ROOT_SCOPE_ID main_invocation [] "main" [] "work".
Definition propose_command : Command :=
  ProposeEffect work_scope main_invocation [] "main" [0] "pay-once" "first" "pay"
    (reference sample_args) (reference sample_binding) (sample_id "occurrence").
Definition pay_intent : string :=
  or_default "" (effect_intent_id run_name (plan_id sample_plan) main_invocation "pay-once"
                   work_scope "first" (reference sample_args) EFFECT_SCHEMA_VERSION).

Definition staged_machine : core Machine :=
  m ← Machine_new;
  m ← insert_plan m sample_plan;
  a ← put_artifact m RUN_INPUT_ARTIFACT_KIND "7";
  b ← put_artifact a.1 EXECUTION_BINDING_ARTIFACT_KIND "binding";
  c ← put_artifact b.1 EFFECT_ARGS_ARTIFACT_KIND "null";
  Ok c.1.
Definition script : list (string * Command) :=
  [("start", start_command "start"); ("open", open_command); ("propose", propose_command);
   ("commit", CommitScope work_scope); ("prepare", TransitionEffect pay_intent Prepare);
   ("release", TransitionEffect pay_intent AuthorizeRelease);
   ("dispatch", TransitionEffect pay_intent StartDispatch);
   ("observe", TransitionEffect pay_intent (Observe Applied));
   ("close", CommitScope ROOT_SCOPE_ID); ("fact", RecordFact "colour" (sample_id "red"));
   ("yield", YieldAttempt (sample_id "attempt") 0 1); ("complete", CompleteRun None)].
(** The machines of a script, from the first one on. *)
Fixpoint trace (m : Machine) (l : list (string * Command)) : list Machine :=
  m :: match l with
       | [] => []
       | (cid, c) :: l => match send m cid c with Ok m' => trace m' l | Err _ => [] end
       end.
(** The machines of [script]; the Run completes at position 12. *)
Definition sample_trace : list Machine :=
  match staged_machine with Ok m => trace m script | Err _ => [] end.
(** The same Run cancelled while its effect is dispatched (position 1), the
    effect reconciled afterwards (position 2). *)
Definition cancel_script : list (string * Command) :=
  [("cancel", CancelRun (reference sample_args));
   ("reconcile", TransitionEffect pay_intent (Reconcile ResolvedNotApplied))].
Definition dispatched_trace (l : list Machine) : list Machine :=
  match l !! 7 with Some m => trace m cancel_script | None => [] end.

(** ** Every machine of the scripts is reachable *)

Lemma send_step m cid c m' : send m cid c = Ok m' → machine_step m m'.
Proof.
  unfold send. intros (r & Hs & [= <-])%bind_Ok. destruct r. by eapply step_submit.
Qed.
Lemma trace_reachable l m0 m : reachable m0 → m ∈ trace m0 l → reachable m.
Proof.
  revert m0. induction l as [|[cid c] l IH]; intros m0 Hr Hm; cbn in Hm.
  - by apply list_elem_of_singleton in Hm as ->.
  - apply elem_of_cons in Hm as [-> |Hm]; [done|].
    destruct (send m0 cid c) as [m1|] eqn:Hs; [|by apply elem_of_nil in Hm].
    eapply IH; [|done]. eapply reachable_step; [exact Hr|]. by eapply send_step.
Qed.
Lemma staged_reachable m : staged_machine = Ok m → reachable m.
Proof.
  unfold staged_machine. intros (m0 & H0 & H)%bind_Ok.
  apply bind_Ok in H as (m1 & H1 & H). apply bind_Ok in H as ([m2 r2] & H2 & H).
  apply bind_Ok in H as ([m3 r3] & H3 & H). apply bind_Ok in H as ([m4 r4] & H4 & [= <-]).
  eapply reachable_step; [|by eapply step_artifact]. eapply reachable_step; [|by eapply step_artifact].
  eapply reachable_step; [|by eapply step_artifact]. eapply reachable_step; [|by eapply step_plan].
  exists m0. split; [exact H0|apply rtc_refl].
Qed.
Lemma sample_reachable n m : sample_trace !! n = Some m → reachable m.
Proof.
  unfold sample_trace. destruct staged_machine as [m0|] eqn:E; [|done].
  intros Hm%list_elem_of_lookup_2. by eapply trace_reachable, Hm; apply staged_reachable.
Qed.
Lemma cancelled_reachable n m : dispatched_trace sample_trace !! n = Some m → reachable m.
Proof.
  unfold dispatched_trace. destruct (sample_trace !! 7) as [m0|] eqn:E; [|done].
  intros Hm%list_elem_of_lookup_2. eapply trace_reachable, Hm. by eapply sample_reachable.
Qed.

Lemma send_submit m cid c m' :
  send m cid c = Ok m' → ∃ r, submit m (sample_envelope cid (token m) c) = Ok (m', r).
Proof. unfold send. intros ([m1 r] & Hs & [= <-])%bind_Ok. by exists r. Qed.
(** Consecutive machines of a trace are one submission apart. *)
Lemma trace_step l m0 n m m' :
  trace m0 l !! n = Some m → trace m0 l !! S n = Some m' →
  ∃ cid c r, l !! n = Some (cid, c)
    ∧ submit m (sample_envelope cid (token m) c) = Ok (m', r).
Proof.
  revert m0 n. induction l as [|[cid c] l IH]; intros m0 [|n] Hm Hm'; cbn in Hm, Hm'; try done.
  - injection Hm as ->. destruct (send m cid c) as [m1|] eqn:Hs; [|done].
    assert (Hh : trace m1 l !! 0 = Some m1) by (by destruct l as [|[]]). 
    pose proof (eq_trans (eq_sym Hh) Hm') as [= ->]. apply send_submit in Hs as [r Hr]. by exists cid, c, r.
  - destruct (send m0 cid c) as [m1|] eqn:Hs; [|done]. by apply (IH m1).
Qed.
Lemma trace_suffix l m0 n m m' k :
  trace m0 l !! n = Some m → trace m0 l !! (n + k) = Some m' → rtc machine_step m m'.
Proof.
  revert m'. induction k as [|k IH]; intros m' Hm Hm'.
  - rewrite Nat.add_0_r, Hm in Hm'. by injection Hm' as ->.
  - rewrite Nat.add_succ_r in Hm'. pose proof (lookup_lt_Some _ _ _ Hm') as Hlt.
    destruct (lookup_lt_is_Some_2 (trace m0 l) (n + k) ltac:(lia)) as [m1 Hm1].
    destruct (trace_step _ _ _ _ _ Hm1 Hm') as (cid & c & r & _ & Hs).
    eapply rtc_r; [by apply IH|]. by eapply step_submit.
Qed.
Lemma sample_step n m m' :
  sample_trace !! n = Some m → sample_trace !! S n = Some m' →
  ∃ cid c r, script !! n = Some (cid, c)
    ∧ submit m (sample_envelope cid (token m) c) = Ok (m', r).
Proof. unfold sample_trace. destruct staged_machine; [apply trace_step|done]. Qed.
Lemma sample_suffix n k m m' :
  sample_trace !! n = Some m → sample_trace !! (n + k) = Some m' → rtc machine_step m m'.
Proof. unfold sample_trace. destruct staged_machine; [apply trace_suffix|done]. Qed.

Lemma cancel_step n m m' :
  dispatched_trace sample_trace !! n = Some m → dispatched_trace sample_trace !! S n = Some m' →
  ∃ cid c r, cancel_script !! n = Some (cid, c)
    ∧ submit m (sample_envelope cid (token m) c) = Ok (m', r).
Proof.
  unfold dispatched_trace. destruct (sample_trace !! 7); [apply trace_step|done].
Qed.

(** ** What the machines look like *)

Definition with_run (f : RunProjection → bool) (m : Machine) : bool :=
  match runs (projection m) !! run_name with Some r => f r | None => false end.
Definition with_pay (f : EffectProjection → bool) (r : RunProjection) : bool :=
  match effects r !! pay_intent with Some e => f e | None => false end.
Definition is_completed (r : RunProjection) : bool := bool_decide (execution_status r = Completed).
Definition pay_is (p : EffectPhase) (o : WorldOutcome) (e : EffectProjection) : bool :=
  bool_decide (phase e = p) && bool_decide (outcome e = o)
  && bool_decide (effect_scope_id e = work_scope) && bool_decide (profile e = pay_profile).
Definition work_is (st : ScopeStatus) (r : RunProjection) : bool :=
  match scopes r !! work_scope with Some s => bool_decide (scope_status s = st) | None => false end.
Definition fresh (m : Machine) : bool :=
  bool_decide (token m = None) && bool_decide (commands m !! "start" = None).
Definition started (m : Machine) : bool := with_run (λ r, bool_decide (execution_status r = Active)) m.
Definition dispatched (m : Machine) : bool :=
  with_run (λ r, with_pay (pay_is DispatchStarted Unobserved) r && work_is ClosedCommitted r) m.
Definition completed (m : Machine) : bool :=
  with_run (λ r, is_completed r && with_pay (pay_is DispatchStarted Applied) r
                 && work_is ClosedCommitted r) m.
Definition unproposed (m : Machine) : bool :=
  bool_decide (is_Some (token m)) && bool_decide (commands m !! "propose" = None).
Definition script_checks : list (nat * (Machine → bool)) :=
  [(0, fresh); (1, started); (7, dispatched); (12, completed); (2, unproposed); (3, started)].
Definition cancelled (m : Machine) : bool :=
  bool_decide (commands m !! "reconcile" = None) &&
  with_run (λ r, is_failed_or_cancelled (execution_status r)
                 && with_pay (pay_is DispatchStarted Unknown) r) m.
Definition reconciled (m : Machine) : bool :=
  with_run (λ r, is_failed_or_cancelled (execution_status r)
                 && with_pay (pay_is DispatchStarted NotApplied) r) m.
Definition cancel_checks : list (nat * (Machine → bool)) := [(1, cancelled); (2, reconciled)].
Definition holds_at (t : list Machine) (c : nat * (Machine → bool)) : bool :=
  match t !! c.1 with Some m => c.2 m | None => false end.

(** The properties of a sample Run, read off a check. *)
Lemma with_run_elim f m :
  with_run f m = true → ∃ r, runs (projection m) !! run_name = Some r ∧ f r = true.
Proof. unfold with_run. destruct (runs _ !! _) as [r|]; [by exists r|done]. Qed.
Lemma with_pay_elim f r :
  with_pay f r = true → ∃ e, effects r !! pay_intent = Some e ∧ f e = true.
Proof. unfold with_pay. destruct (effects r !! _) as [e|]; [by exists e|done]. Qed.
Lemma pay_is_elim p o e :
  pay_is p o e = true →
  phase e = p ∧ outcome e = o ∧ effect_scope_id e = work_scope ∧ profile e = pay_profile.
Proof. unfold pay_is. rewrite !andb_true_iff, !bool_decide_eq_true. tauto. Qed.

(** An effect before its first transition. *)
Definition plain_ref (kind : string) : ArtifactRef :=
  {| identity_version := ARTIFACT_IDENTITY_VERSION; artifact_id := "artifact"; artifact_kind := kind |}.
Definition sample_effect_projection : EffectProjection :=
  {| intent_id := "intent"; origin_plan_id := "plan";
     effect_scope_id := ROOT_SCOPE_ID; effect_invocation_id := "invocation";
     effect_invocation_path := []; effect_definition_id := "main"; effect_region_path := [0];
     effect_site_id := "pay-once"; effect_occurrence := "first";
     effect_schema_version := EFFECT_SCHEMA_VERSION; effect_operation := "pay";
     profile := pay_profile; args := plain_ref EFFECT_ARGS_ARTIFACT_KIND;
     execution_binding := plain_ref EXECUTION_BINDING_ARTIFACT_KIND;
     effect_occurrence_binding := "occurrence"; execution_availability := Available;
     phase := Admitted_; outcome := Unobserved; reconciliation := NotRequired |}.

(** Both scripts, run once. *)
Lemma samples_hold :
  (let t := sample_trace in
   forallb (holds_at t) script_checks && forallb (holds_at (dispatched_trace t)) cancel_checks)
  = true.
Proof. vm_cast_no_check (eq_refl true). Qed.

Lemma checked t l i n f :
  forallb (holds_at t) l = true → l !! i = Some (n, f) → ∃ m, t !! n = Some m ∧ f m = true.
Proof.
  intros Hl Hi%list_elem_of_lookup_2. rewrite forallb_Forall, Forall_forall in Hl.
  specialize (Hl _ Hi). unfold holds_at in Hl. cbn in Hl. destruct (t !! n) as [m|]; [by exists m|done].
Qed.
Lemma sample_check i n f :
  script_checks !! i = Some (n, f) → ∃ m, sample_trace !! n = Some m ∧ f m = true ∧ reachable m.
Proof.
  intros Hi. pose proof samples_hold as Hs. cbv zeta in Hs. apply andb_true_iff in Hs as [Hs _].
  destruct (checked _ _ _ _ _ Hs Hi) as (m & Hm & Hf). exists m.
  split; [done|]. split; [done|]. by eapply sample_reachable.
Qed.
Lemma cancel_check i n f :
  cancel_checks !! i = Some (n, f) →
  ∃ m, dispatched_trace sample_trace !! n = Some m ∧ f m = true ∧ reachable m.
Proof.
  intros Hi. pose proof samples_hold as Hs. cbv zeta in Hs. apply andb_true_iff in Hs as [_ Hs].
  destruct (checked _ _ _ _ _ Hs Hi) as (m & Hm & Hf). exists m.
  split; [done|]. split; [done|]. by eapply cancelled_reachable.
Qed.

(** The identifiers are compared by name from here on, never computed. *)
#[global] Opaque pay_intent work_scope main_invocation sample_trace dispatched_trace.
