(* ===== verification/MachineTheorems.v ===== *)
(** * What the machine guarantees

    Properties of every machine the public operations can reach, each with a
    witness on the machines of [Samples]. *)

From S2P Require Import Prelude KeyIndex Identity CommandIndex Numbers Canonical Graph Ir Model.
From S2P Require Import Events Chain Machine Location Effects DerivedIndex IndexSpec Reducer.
From S2P Require Import Verify Authority Archive Compaction Admission Submit RunInv RunSteps.
From S2P Require Import Terminate ReducerInv MachineInv ChainInv History CompactionInv Samples.

Section Theorems.
Context `{Sha256} `{Canonical} `{!MachineSerialize} `{!ArchiveSerialize} `{!CompactionSerialize}
  `{SchemaCompiler} `{PlanCodec} `{!ValueSerialize}.

Lemma reachable_run m rid r :
  reachable m → runs (projection m) !! rid = Some r → run_inv rid r.
Proof. intros Hm. apply (mi_projection _ (reachable_inv _ Hm)). Qed.

(** C1: in every machine reachable from the empty one by staging material, submitting commands
    and compacting history, the verifier of the reducer accepts the projection and its derived
    indexes: verify_reducer_invariants and verify_derived_indexes return Ok. *)
Theorem reachable_projection_verified m :
  reachable m →
  verify_reducer_invariants (projection m) = Ok () ∧ verify_derived_indexes (projection m) = Ok ().
Proof.
  intros Hm. pose proof (mi_projection _ (reachable_inv _ Hm)) as Hp.
  split; [by apply projection_inv_verified|by apply projection_inv_indexed].
Qed.

(** C9: the derived index of every Run of a reachable machine follows the specification
    spec_index, a comprehension over the canonical maps: rebuilding it from scratch computes
    exactly that value, and the incrementally maintained index equals it as well once it is
    initialized. *)
Theorem reachable_index_refines m rid r :
  reachable m → runs (projection m) !! rid = Some r →
  rebuild r = Ok (spec_index r) ∧ (initialized (derived r) = true → derived r = spec_index r).
Proof.
  intros Hm Hr. pose proof (reachable_run _ _ _ Hm Hr) as Hi. split; [|by apply (ri_synced _ _ Hi)].
  apply rebuild_spec. eapply core_indexable, Hi.
Qed.

(** C3: event sourcing, also across compactions: the projection of a reachable machine is the
    fold of apply_event over the compacted events followed by those in its event order, the
    projection root is the hash chain over the same history, each of its events verifies with
    its declared footprint, and every parent precedes its child. *)
Theorem reachable_log m :
  reachable m →
  ∃ old evs, event_order m = event_id <$> evs
    ∧ replay_events (old ++ evs) = Ok (projection m)
    ∧ root_of (old ++ evs) = Ok (projection_root (authority m))
    ∧ (∀ ev, ev ∈ old ++ evs → Event_verify ev = Ok () ∧ verify_event_footprint ev = Ok ())
    ∧ causally_ordered (old ++ evs)
    ∧ match base m with
      | None => old = []
      | Some b =>
          replay_events old = Ok (base_projection b) ∧ root_of old = Ok (base_projection_root b)
          ∧ Machine.archive_event_count b = N.of_nat (length old)
      end.
Proof.
  intros Hm. destruct (mi_log _ (reachable_inv _ Hm)) as (old & evs & []). exists old, evs.
  split_and!; try done. intros ev Hev. rewrite Forall_forall in lo_events.
  by destruct (lo_events _ Hev) as (? & ? & _).
Qed.

(** One public operation after which the machine retains the command [i]. *)
Definition retains (i : string) (m m' : Machine) : Prop :=
  life_step m m' ∧ is_Some (commands m' !! i).

(** A step keeps a retained command as it is, or archives it below a base. *)
Lemma life_step_command m m' i rec :
  full_inv m → life_step m m' → commands m !! i = Some rec →
  commands m' !! i = Some rec ∨ commands m' !! i = None ∧ is_Some (base m').
Proof.
  intros Hm Hst. revert Hm. destruct Hst as [x y Hs|x k y report Hc|x y report Hc]; intros Hm Hrec.
  - left. destruct (machine_step_full _ _ Hs Hm) as [_ Hsub]. by eapply lookup_weaken.
  - destruct (fi_closure _ Hm) as (old & evs & Hl & _).
    destruct (compact_events_Ok _ _ _ _ _ _ Hm Hl (fi_nodup _ Hm) Hc) as (c & a & b & _ & Hcp & _).
    rewrite (cp_commands _ _ _ _ _ Hcp), (cp_base _ _ _ _ _ Hcp). case_decide; [right|left]; eauto.
  - destruct (fi_closure _ Hm) as (old & evs & Hl & _).
    destruct (compact_free_Ok _ _ _ _ _ Hm Hl Hc) as (a & b & _ & Hcp & _).
    rewrite (cp_commands _ _ _ _ _ Hcp), (cp_base _ _ _ _ _ Hcp). case_decide; [right|left]; eauto.
Qed.
Lemma retained_steps i rec m m' :
  rtc (retains i) m m' → full_inv m → commands m !! i = Some rec →
  full_inv m' ∧ commands m' !! i = Some rec.
Proof.
  induction 1 as [|x y z [Hs [rec' Hrec']] _ IH]; intros Hm Hrec; [done|].
  apply IH; [by eapply life_step_full|].
  destruct (life_step_command _ _ _ _ Hm Hs Hrec) as [?|[? _]]; [done|congruence].
Qed.

(** C4: submission is idempotent: after a command was accepted from a reachable machine,
    submitting the same envelope again at any later machine up to which the command stays
    retained, compactions included, returns the receipt of the first submission and changes
    nothing; every operation other than a compaction keeps the command retained; and after the
    compaction that archives it, submit refers to the archive with ArchivedCommandReplayRequired
    and does not admit it again. *)
Theorem submit_exact_replay m env m1 r m2 :
  reachable m → submit m env = Ok (m1, r) → rtc (retains (command_id env)) m1 m2 →
  submit m2 env = Ok (m2, r)
  ∧ (∀ m3, machine_step m2 m3 → retains (command_id env) m2 m3)
  ∧ ∀ m3, life_step m2 m3 → ¬ retains (command_id env) m2 m3 →
      submit m3 env = Err ArchivedCommandReplayRequired.
Proof.
  intros Hm Hs Hrt. pose proof (submit_cases _ _ _ _ Hs) as (Henv & _).
  destruct (submit_full _ _ _ _ (reachable_full _ Hm) Hs) as (Hf & _ & rec & Hrec & -> & Hh).
  destruct (retained_steps _ _ _ _ Hrt Hf Hrec) as [Hf2 Hrec2]. split; [|split].
  - by apply retained_replay.
  - intros m3 Hst. split; [by apply life_machine|].
    destruct (machine_step_full _ _ Hst Hf2) as [_ Hsub]. exists rec. by eapply lookup_weaken.
  - intros m3 Hst Hn. destruct (life_step_command _ _ _ _ Hf2 Hst Hrec2) as [Hk|[Hk Hb]].
    + destruct Hn. split; [done|]. by exists rec.
    + unfold submit. rewrite Henv. cbn [mbind result_bind]. rewrite Hh. cbn [mbind result_bind].
      by rewrite Hk, decide_True.
Qed.

(** C19: a command identity that a reachable machine retains cannot be reused: an envelope with
    this identity and another digest is refused with CommandReuse by both submission entry
    points, whatever the archive answers. *)
Theorem submit_reuse_refused m env rec hash :
  reachable m → commands m !! command_id env = Some rec → validate_envelope env = Ok () →
  canonical_digest (PreEnvelope env) = Ok hash → hash ≠ semantic_hash rec →
  submit m env = Err CommandReuse
  ∧ ∀ lookup, submit_with_archive_lookup m env lookup = Err CommandReuse.
Proof.
  intros Hm Hrec Henv Hh Hne.
  pose proof (retained_verified _ _ _ (fi_chain _ (reachable_full _ Hm)) Hrec) as Hv.
  assert (Hr : replay_retained m env hash rec = Err CommandReuse).
  { unfold replay_retained. rewrite Hv. cbn. by rewrite decide_False by congruence. }
  split; [|intros lookup]; [unfold submit|unfold submit_with_archive_lookup];
    rewrite Henv; cbn; rewrite Hh; cbn; by rewrite Hrec.
Qed.

(** C14: commands and events of a reachable machine close over each other: each event identity
    of a receipt names an event of the log that carries the identity, the hash and the Run of
    its command and corresponds to it, and each event of the log belongs to the receipt of a
    retained command. *)
Theorem reachable_closure m :
  reachable m →
  ∃ evs, event_order m = event_id <$> evs
    ∧ (∀ cid rec i, commands m !! cid = Some rec → i ∈ receipt_event_ids (receipt rec) →
        ∃ ev, ev ∈ evs ∧ event_id ev = i ∧ ev_command_id ev = cid
          ∧ ev_command_hash ev = semantic_hash rec ∧ ev_run_id ev = env_run_id (envelope rec)
          ∧ command_matches_event (command (envelope rec)) (payload ev) = true)
    ∧ (∀ ev, ev ∈ evs → ∃ rec, commands m !! ev_command_id ev = Some rec
        ∧ event_id ev ∈ receipt_event_ids (receipt rec)).
Proof.
  intros Hm. destruct (reachable_full _ Hm) as [_ Hch (old & evs & Hl & [Hr He]) _].
  exists evs. split; [apply Hl|]. split; [|done].
  intros cid rec i Hrec Hi. destruct (Hr _ _ _ Hrec Hi) as (ev & Hev & Hid & Hc & Hh & Hrun & Hm').
  exists ev. split_and!; try done. rewrite Hc. apply (ro_id _ _ _ (ch_command _ Hch _ _ Hrec)).
Qed.

(** C15: the admissions of a reachable machine form a verified chain: each verifies against its
    predecessor, no command is admitted twice, the retained commands are exactly the admitted
    ones, and each retained record passes the verification that a replay performs. *)
Theorem reachable_admission_chain m :
  reachable m →
  (∀ pre a post, admissions m = pre ++ a :: post →
    CommandAdmission_verify a (command_admission_parent pre (base m)) = Ok ())
  ∧ NoDup (adm_command_id <$> admissions m)
  ∧ (∀ cid, is_Some (commands m !! cid) ↔ cid ∈ adm_command_id <$> admissions m)
  ∧ ∀ cid rec, commands m !! cid = Some rec → verify_retained_command_record m cid rec = Ok ().
Proof.
  intros Hm. pose proof (fi_chain _ (reachable_full _ Hm)) as Hc. split_and!; [apply Hc..| |].
  - intros cid. rewrite list_elem_of_fmap. split.
    + intros [rec Hrec]. destruct (ro_admission _ _ _ (ch_command _ Hc _ _ Hrec)) as (a & Ha & <- & _).
      by exists a.
    + intros (a & -> & Ha). by apply (ch_admitted _ Hc).
  - intros cid rec. by apply retained_verified.
Qed.

(** C18: optimistic concurrency of a new command: its receipt is a conflict exactly when the
    command is not a Run start and its expected precondition differs from the token of the Run,
    a conflict changes neither projection nor log, and an applied command appends events that
    correspond to it and whose application gives the new projection, two for a Run start and one
    otherwise. *)
Theorem submit_precondition m env m' r :
  reachable m → commands m !! command_id env = None → submit m env = Ok (m', r) →
  (receipt_status r = ReceiptConflict ↔
    is_start_run (command env) = false
    ∧ expected_precondition env ≠ precondition_token <$> runs (projection m) !! env_run_id env)
  ∧ (receipt_status r = ReceiptConflict →
      projection m' = projection m ∧ event_order m' = event_order m)
  ∧ (receipt_status r = ReceiptApplied →
      ∃ new, event_order m' = event_order m ++ (event_id <$> new)
        ∧ try_fold apply_event (projection m) new = Ok (projection m')
        ∧ Forall (λ p, command_matches_event (command env) p = true) (payload <$> new)
        ∧ length new = 1 + if is_start_run (command env) then 1 else 0).
Proof.
  intros Hm Hc Hs. apply submit_cases in Hs
    as (_ & hash & _ & [(c & Hc' & _)|(_ & _ & proof & _ & Hs)]); [congruence|].
  destruct (submit_new_submission _ _ _ _ _ (reachable_inv _ Hm) Hs) as [new Hnew].
  split; [|split].
  - unfold submit_new_with_index_proof in Hs. inv_ok.
    match goal with Hst : stale_command_receipt _ _ = Ok ?o |- _ =>
      rename Hst into Hstale; destruct o as [rc|] end.
    + inv_ok. unfold stale_command_receipt in Hstale. destruct (is_start_run _); [by inv_ok|].
      inv_ok. match goal with Ho : expected_precondition _ = Some _ |- _ => rewrite Ho end.
      case_decide; inv_ok. by split.
    + inv_ok. unfold submit_applied_single_command in *. inv_ok.
      match goal with y : Machine * string |- _ => destruct y end. inv_ok. cbn.
      split; [done|]. intros [Hns Hne]. unfold stale_command_receipt in Hstale.
      rewrite Hns in Hstale. inv_ok.
      match goal with Ho : expected_precondition _ = Some _ |- _ => rewrite Ho in Hne end.
      by case_decide.
  - intros Hconf. pose proof (sb_conflict _ _ _ _ _ Hnew Hconf) as ->. split.
    + pose proof (sb_replay _ _ _ _ _ Hnew) as Hr. cbn in Hr. by inv_ok.
    + rewrite (sb_order _ _ _ _ _ Hnew). apply app_nil_r.
  - intros Happ. exists new. destruct (sb_applied _ _ _ _ _ Hnew Happ) as (p & Hp & Hall).
    split; [apply Hnew|]. split; [apply Hnew|]. split; [done|].
    rewrite <-(length_fmap payload), Hp. unfold batch_payloads. by destruct (command env).
Qed.
End Theorems.

(** ** Witnesses *)

Lemma reachable_projection_verified_witness :
  ∃ m, sample_trace !! 12 = Some m ∧ verify_reducer_invariants (projection m) = Ok ()
    ∧ verify_derived_indexes (projection m) = Ok ().
Proof.
  destruct (sample_check 3 12 completed eq_refl) as (m & Hm & _ & Hr). exists m.
  split; [exact Hm|]. exact (reachable_projection_verified m Hr).
Defined.

Lemma reachable_index_refines_witness :
  ∃ m r, sample_trace !! 12 = Some m ∧ runs (projection m) !! run_name = Some r
    ∧ rebuild r = Ok (spec_index r).
Proof.
  destruct (sample_check 3 12 completed eq_refl) as (m & Hm & Hf & Hr).
  destruct (with_run_elim _ _ Hf) as (r & Hrun & _). exists m, r.
  split; [exact Hm|]. split; [exact Hrun|]. exact (proj1 (reachable_index_refines m run_name r Hr Hrun)).
Defined.

Lemma reachable_log_witness :
  ∃ m old evs, sample_trace !! 12 = Some m ∧ replay_events (old ++ evs) = Ok (projection m)
    ∧ root_of (old ++ evs) = Ok (projection_root (authority m)).
Proof.
  destruct (sample_check 3 12 completed eq_refl) as (m & Hm & _ & Hr).
  destruct (reachable_log m Hr) as (old & evs & _ & Hp & Hroot & _).
  exists m, old, evs. split; [exact Hm|]. split; [exact Hp|exact Hroot].
Defined.

Lemma retains_suffix env m m1 r m2 :
  reachable m → submit m env = Ok (m1, r) → rtc machine_step m1 m2 →
  rtc (retains (command_id env)) m1 m2.
Proof.
  intros Hm Hs Hst. destruct (submit_full _ _ _ _ (reachable_full _ Hm) Hs) as (Hf & _ & rec & Hrec & _).
  clear Hs Hm. induction Hst as [|x y z Hxy _ IH]; [constructor|].
  destruct (machine_step_full _ _ Hxy Hf) as [Hfy Hsub].
  assert (commands y !! command_id env = Some rec) as Hy by (by eapply lookup_weaken).
  eapply rtc_l; [|by apply IH]. split; [by apply life_machine|by exists rec].
Qed.
Lemma submit_exact_replay_witness :
  ∃ m env m1 r m2, submit m env = Ok (m1, r) ∧ rtc (retains (command_id env)) m1 m2
    ∧ sample_trace !! 12 = Some m2 ∧ submit m2 env = Ok (m2, r).
Proof.
  destruct (sample_check 0 0 fresh eq_refl) as (m & Hm & _ & Hr).
  destruct (sample_check 1 1 started eq_refl) as (m1 & Hm1 & _ & _).
  destruct (sample_check 3 12 completed eq_refl) as (m2 & Hm2 & _ & _).
  destruct (sample_step 0 m m1 Hm Hm1) as (cid & c & r & _ & Hs).
  pose proof (retains_suffix _ _ _ _ m2 Hr Hs (sample_suffix 1 11 m1 m2 Hm1 Hm2)) as Hst.
  exists m, (sample_envelope cid (token m) c), m1, r, m2.
  split; [exact Hs|]. split; [exact Hst|]. split; [exact Hm2|].
  exact (proj1 (submit_exact_replay _ _ _ _ _ Hr Hs Hst)).
Defined.

(** Another command under the identifier of the first one. *)
Definition reused_envelope : CommandEnvelope := sample_envelope "start" (Some "pre:0:") AdvanceEpoch.
Lemma submit_reuse_refused_witness :
  ∃ m, sample_trace !! 1 = Some m ∧ submit m reused_envelope = Err CommandReuse.
Proof.
  destruct (sample_check 0 0 fresh eq_refl) as (m & Hm & Hf & Hr).
  destruct (sample_check 1 1 started eq_refl) as (m1 & Hm1 & _ & Hr1).
  destruct (sample_step 0 m m1 Hm Hm1) as (cid & c & r & Hc & Hs). injection Hc as <- <-.
  unfold fresh in Hf. apply andb_true_iff in Hf as [Ht _]. apply bool_decide_eq_true in Ht.
  rewrite Ht in Hs.
  destruct (submit_full _ _ _ _ (reachable_full _ Hr) Hs) as (_ & _ & rec & Hrec & _ & Hh).
  exists m1. split; [exact Hm1|].
  destruct (canonical_digest (PreEnvelope reused_envelope)) as [hash|] eqn:Hd;
    [|vm_compute in Hd; discriminate Hd].
  refine (proj1 (submit_reuse_refused m1 reused_envelope rec hash Hr1 Hrec eq_refl Hd _)).
  intros Heq. rewrite <-Heq, <-Hd in Hh. vm_compute in Hh. discriminate Hh.
Defined.

Lemma reachable_closure_witness :
  ∃ m evs, sample_trace !! 12 = Some m ∧ event_order m = event_id <$> evs
    ∧ ∀ ev, ev ∈ evs → is_Some (commands m !! ev_command_id ev).
Proof.
  destruct (sample_check 3 12 completed eq_refl) as (m & Hm & _ & Hr).
  destruct (reachable_closure m Hr) as (evs & Ho & _ & He).
  exists m, evs. split; [exact Hm|]. split; [exact Ho|].
  intros ev Hev. destruct (He ev Hev) as (rec & Hrec & _). exists rec. exact Hrec.
Defined.

Lemma reachable_admission_chain_witness :
  ∃ m, sample_trace !! 12 = Some m ∧ NoDup (adm_command_id <$> admissions m).
Proof.
  destruct (sample_check 3 12 completed eq_refl) as (m & Hm & _ & Hr). exists m.
  split; [exact Hm|]. exact (proj1 (proj2 (reachable_admission_chain m Hr))).
Defined.

Lemma submit_precondition_witness :
  ∃ m m' r, sample_trace !! 0 = Some m ∧ sample_trace !! 1 = Some m'
    ∧ submit m (sample_envelope "start" (token m) (start_command "start")) = Ok (m', r)
    ∧ receipt_status r ≠ ReceiptConflict.
Proof.
  destruct (sample_check 0 0 fresh eq_refl) as (m & Hm & Hf & Hr).
  destruct (sample_check 1 1 started eq_refl) as (m1 & Hm1 & _ & _).
  destruct (sample_step 0 m m1 Hm Hm1) as (cid & c & r & Hc & Hs). injection Hc as <- <-.
  unfold fresh in Hf. apply andb_true_iff in Hf as [_ Hn]. apply bool_decide_eq_true in Hn.
  exists m, m1, r. split; [exact Hm|]. split; [exact Hm1|]. split; [exact Hs|].
  intros Hconf. destruct (proj1 (proj1 (submit_precondition m (sample_envelope "start" (token m) (start_command "start"))
    m1 r Hr Hn Hs)) Hconf) as [Hst _].
  discriminate Hst.
Defined.
