(* ===== verification/RunTheorems.v ===== *)
(** * What a Run guarantees

    Properties of the Runs of every reachable machine: how they change, what
    completion and termination mean, which obligations exist and when an
    effect may be released. *)

From S2P Require Import Prelude KeyIndex Identity CommandIndex Numbers Canonical Graph Ir Model.
From S2P Require Import Events Chain Machine Location Effects DerivedIndex IndexSpec Reducer.
From S2P Require Import Verify Authority Archive Compaction Admission Submit RunInv RunSteps.
From S2P Require Import Terminate ReducerInv MachineInv ChainInv History CompactionInv Samples.

(** A legal settled effect is done. *)
Lemma settled_done e :
  effect_state_legal e = true → effect_settlement_class e = ClassSettled → effect_done e = true.
Proof. intros Hl Hc. legal_cases e Hl; try discriminate Hc; done. Qed.
Lemma having_none {A} (p : A → bool) (m : gmap string A) k a :
  having p m = ∅ → m !! k = Some a → p a = false.
Proof.
  intros Hn Ha. destruct (p a) eqn:Hp; [|done].
  assert (Hin : k ∈ having p m) by (apply elem_of_having; eauto).
  rewrite Hn in Hin. by apply elem_of_empty in Hin.
Qed.

Section Theorems.
Context `{Sha256} `{Canonical} `{!MachineSerialize} `{!ArchiveSerialize} `{!CompactionSerialize}
  `{SchemaCompiler} `{PlanCodec} `{!ValueSerialize}.

Lemma reachable_run_inv m rid r :
  reachable m → runs (projection m) !! rid = Some r → run_inv rid r.
Proof. intros Hm. apply (mi_projection _ (reachable_inv _ Hm)). Qed.

(** ** Growth across compactions *)

(** An effect whose outcome is known stays so. *)
Lemma done_advanced e e' :
  effect_state_legal e = true → effect_advanced e e' → effect_done e = true → effect_done e' = true.
Proof.
  intros Hl [_ _ _ Hrel Hset] Hd.
  assert (effect_settlement_class e = ClassSettled) as ->%Hset; [|done].
  legal_cases e Hl; try discriminate Hd; done.
Qed.
(** The obligations of two states of a Run, of which one extends the other *)
Lemma obligations_grow r r' :
  core_inv ∅ r → core_inv ∅ r' → run_extends r r' →
  grows obligation_advanced (obligations r) (obligations r').
Proof.
  intros Hc Hc' He oid o Ho.
  destruct (ow_obligation _ _ _ _ (ci_obligations _ _ Hc) _ _ Ho)
    as (Hid & Hb & Hoid & e & Hef & Hmut & Hcom & Hres).
  destruct (re_effects _ _ He _ _ Hef) as (e' & Hef' & Hadv).
  assert (is_mutating e' = true) as Hmut'.
  { unfold is_mutating in *. by destruct (ea_same _ _ Hadv) as (_ & _ & -> & _). }
  assert (committed_in (scopes r') e' = true) as Hcom'.
  { unfold committed_in in *. destruct (ea_same _ _ Hadv) as (_ & -> & _).
    destruct (scopes r !! effect_scope_id e) as [sc|] eqn:Hs; [|done].
    destruct (re_scopes _ _ He _ _ Hs) as (sc' & -> & Hsa). rewrite (sa_closed _ _ Hsa); [done|].
    intros Hop. by rewrite Hop in Hcom. }
  destruct (ow_effect _ _ _ _ (ci_obligations _ _ Hc') _ _ Hef' Hmut' Hcom') as (oid' & o' & Hoid' & Ho' & Hin').
  rewrite Hoid in Hoid'. injection Hoid' as <-. exists o'. split; [done|].
  destruct (ow_obligation _ _ _ _ (ci_obligations _ _ Hc') _ _ Ho')
    as (Hid' & Hb' & _ & e2 & Hef2 & _ & _ & Hres').
  rewrite Hin', Hef' in Hef2. injection Hef2 as <-. split; [congruence..|]. rewrite Hres, Hres' by set_solver.
  apply done_advanced; [|done]. apply (ew_legal _ _ _ (ci_effects _ _ Hc _ _ Hef)).
Qed.

(** The number of events below the base *)
Definition compacted_events_of (m : Machine) : N :=
  match base m with Some b => Machine.archive_event_count b | None => 0 end.
Record life_extends (m m' : Machine) : Prop := {
  le_count : (compacted_events_of m ≤ compacted_events_of m')%N;
  le_order : drop (N.to_nat (compacted_events_of m' - compacted_events_of m)) (event_order m)
    `prefix_of` event_order m';
  le_projection : projection_extends (projection m) (projection m');
}.
Lemma drop_prefix {A} n (l l' : list A) : l `prefix_of` l' → drop n l `prefix_of` drop n l'.
Proof.
  intros [k ->]. destruct (decide (n ≤ length l)) as [Hn|Hn].
  - rewrite drop_app_le by done. by apply prefix_app_r.
  - rewrite drop_ge by lia. apply prefix_nil.
Qed.
#[local] Instance life_extends_preorder : PreOrder life_extends.
Proof.
  split.
  - intros m. split; [done| |done]. by rewrite N.sub_diag.
  - intros a b c [C1 O1 P1] [C2 O2 P2]. split; [by etrans| |by etrans].
    assert (N.to_nat (compacted_events_of c - compacted_events_of a)
      = N.to_nat (compacted_events_of b - compacted_events_of a)
        + N.to_nat (compacted_events_of c - compacted_events_of b)) as -> by lia.
    rewrite <-drop_drop. etrans; [by apply drop_prefix|done].
Qed.
Lemma compaction_extends m m' old evs b n k :
  log_of m old evs → compacted m m' b n k → prefix_base m old evs b n k → n ≤ length evs →
  life_extends m m'.
Proof.
  intros Hl Hc Hp Hn. destruct (pb_base _ _ _ _ _ _ Hp) as (_ & _ & Hcount).
  assert (compacted_events_of m = N.of_nat (length old)) as Hm by exact (base_event_count _ _ (lo_base _ _ _ Hl)).
  assert (compacted_events_of m' = N.of_nat (length old + n)) as Hm'.
  { unfold compacted_events_of. rewrite (cp_base _ _ _ _ _ Hc), Hcount, length_app, length_take. f_equal. lia. }
  split; rewrite ?Hm, ?Hm'; [lia| |by rewrite (cp_projection _ _ _ _ _ Hc)].
  rewrite (cp_order _ _ _ _ _ Hc). by replace (N.to_nat _) with n by lia.
Qed.
Lemma life_step_extends m m' : life_step m m' → full_inv m → life_extends m m'.
Proof.
  intros [x y Hs|x k y report Hc|x y report Hc] Hm.
  - destruct (machine_step_extends _ _ (fi_machine _ Hm) Hs) as [Ho Hp].
    assert (compacted_events_of y = compacted_events_of x) as Hb
      by (unfold compacted_events_of; by rewrite (machine_step_base _ _ Hs)).
    split; rewrite ?Hb, ?N.sub_diag; done.
  - destruct (fi_closure _ Hm) as (old & evs & Hl & _).
    destruct (compact_events_Ok _ _ _ _ _ _ Hm Hl (fi_nodup _ Hm) Hc) as (c & a & b & Hp & Hcp & _).
    eapply compaction_extends; [exact Hl|exact Hcp|apply Hp|lia].
  - destruct (fi_closure _ Hm) as (old & evs & Hl & _).
    destruct (compact_free_Ok _ _ _ _ _ Hm Hl Hc) as (a & b & Hp & Hcp & _).
    eapply compaction_extends; [exact Hl|exact Hcp|apply Hp|lia].
Qed.
Lemma life_steps_extend m m' : rtc life_step m m' → full_inv m → life_extends m m'.
Proof.
  induction 1 as [|x y z Hs _ IH]; intros Hm; [done|].
  etrans; [by apply life_step_extends|]. apply IH. by eapply life_step_full.
Qed.

(** C2: history is monotone across every public operation, compaction included: the events that
    a machine has not archived since keep their place at the front of the event order, facts are
    kept, and every Run is kept and extended: its plans and bindings, attempts, scopes, effects
    and obligations stay with their identity, its epoch and the phases of its effects only
    advance, closed scopes and settled outcomes do not change, and a resolved obligation stays
    resolved. *)
Theorem runs_only_grow m m' rid r :
  reachable m → rtc life_step m m' → runs (projection m) !! rid = Some r →
  (compacted_events_of m ≤ compacted_events_of m')%N
  ∧ drop (N.to_nat (compacted_events_of m' - compacted_events_of m)) (event_order m)
      `prefix_of` event_order m'
  ∧ facts (projection m) ⊆ facts (projection m')
  ∧ ∃ r', runs (projection m') !! rid = Some r' ∧ run_extends r r'
    ∧ grows obligation_advanced (obligations r) (obligations r').
Proof.
  intros Hm Hs Hr. destruct (life_steps_extend _ _ Hs (reachable_full _ Hm)) as [Hc Ho [Hf Hg]].
  split; [done|]. split; [done|]. split; [done|]. destruct (Hg _ _ Hr) as (r' & Hr' & He).
  exists r'. split; [done|]. split; [done|].
  assert (reachable m') as Hm'
    by (destruct Hm as (m0 & Hn & Hpre); exists m0; split; [done|by etrans]).
  apply obligations_grow; [| |exact He];
    [exact (ri_core _ _ (reachable_run_inv _ _ _ Hm Hr))|exact (ri_core _ _ (reachable_run_inv _ _ _ Hm' Hr'))].
Qed.

(** C10: a Completed Run of a reachable machine has no active attempt, no open scope, only
    settled effects, only resolved obligations, and its world settlement is Settled. *)
Theorem completed_run_settled m rid r :
  reachable m → runs (projection m) !! rid = Some r → execution_status r = Completed →
  (∀ aid a, attempts r !! aid = Some a → active a = false)
  ∧ (∀ sid s, scopes r !! sid = Some s → scope_status s ≠ Open)
  ∧ (∀ i e, effects r !! i = Some e → effect_settlement_class e = ClassSettled)
  ∧ (∀ oid o, obligations r !! oid = Some o → resolved o = true)
  ∧ world_settlement r = Settled.
Proof.
  intros Hm Hr Hst. destruct (reachable_run_inv _ _ _ Hm Hr) as [_ Hc Hse Hw _].
  unfold status_wf in Hw. rewrite Hst in Hw. destruct Hw as (Ha & Ho & Hs).
  assert (Hcl : ∀ i e, effects r !! i = Some e → effect_settlement_class e = ClassSettled).
  { intros i e He. unfold settlement in Hs. cbn in Hs.
    destruct (decide (having (in_class ClassGovernance) (effects r) ≠ ∅)); [done|].
    destruct (decide (having (in_class ClassUnknown) (effects r) ≠ ∅)); [done|].
    destruct (decide (having (in_class ClassPending) (effects r) ≠ ∅)); [done|].
    repeat match goal with Hn : ¬ having ?p _ ≠ ∅ |- _ =>
      apply dec_stable in Hn; pose proof (having_none _ _ _ _ Hn He); clear Hn end.
    unfold in_class in *. to_prop. destruct (effect_settlement_class e); done. }
  split_and!; [| |done| |].
  - intros aid a Hat. by eapply having_none.
  - intros sid s Hsc Hop. pose proof (having_none _ _ _ _ Ho Hsc) as Hn.
    unfold scope_is_open in Hn. by rewrite bool_decide_eq_false in Hn.
  - intros oid o Hob. destruct (ow_obligation _ _ _ _ (ci_obligations _ _ Hc) _ _ Hob)
      as (_ & _ & _ & e & He & _ & _ & Hres). rewrite Hres by apply not_elem_of_empty.
    apply settled_done; [|by eapply Hcl]. by apply (legal_of ∅ r (obligation_intent_id o)).
  - by rewrite Hse.
Qed.

(** a failed or cancelled Run of a reachable machine has no result, no active attempt and no
    attempt of the current epoch, no open scope, every effect is cancelled before release or
    dispatched and observed, and its world settlement is no longer pending. *)
Theorem terminated_run_closed m rid r :
  reachable m → runs (projection m) !! rid = Some r →
  is_failed_or_cancelled (execution_status r) = true →
  run_result r = None
  ∧ (∀ aid a, attempts r !! aid = Some a →
      active a = false ∧ (continuation_epoch a < epoch r)%N)
  ∧ (∀ sid s, scopes r !! sid = Some s → scope_status s ≠ Open)
  ∧ (∀ i e, effects r !! i = Some e →
      (phase e = CancelledBeforeRelease ∧ outcome e = NotApplied)
      ∨ (phase e = DispatchStarted ∧ outcome e ≠ Unobserved))
  ∧ world_settlement r ≠ SettlementPending.
Proof.
  intros Hm Hr Hst. destruct (reachable_run_inv _ _ _ Hm Hr) as [_ Hc Hse Hw _].
  assert (Ht : terminal_wf r).
  { unfold status_wf in Hw. destruct (execution_status r); try done; by destruct Hw. }
  destruct Ht as [Hep Hres Ha Ho Hat Hef].
  assert (Hphase : ∀ i e, effects r !! i = Some e →
      (phase e = CancelledBeforeRelease ∧ outcome e = NotApplied)
      ∨ (phase e = DispatchStarted ∧ outcome e ≠ Unobserved)).
  { intros i e He. pose proof (having_none _ _ _ _ Hef He) as Hn.
    pose proof (legal_of ∅ r i e Hc He) as Hl. unfold needs_terminal_transition in Hn.
    unfold effect_state_legal in Hl. destruct (phase e); cbn in Hn; to_prop; try done; naive_solver. }
  split_and!; [done| | |done|].
  - intros aid a Haid. split; [by eapply having_none|by eapply Hat].
  - intros sid s Hsc Hop. pose proof (having_none _ _ _ _ Ho Hsc) as Hn.
    unfold scope_is_open in Hn. by rewrite bool_decide_eq_false in Hn.
  - rewrite Hse. unfold settlement. cbn.
    destruct (decide (having (in_class ClassGovernance) (effects r) ≠ ∅)); [done|].
    destruct (decide (having (in_class ClassUnknown) (effects r) ≠ ∅)); [done|].
    destruct (decide (having (in_class ClassPending) (effects r) ≠ ∅)) as [Hp|]; [|done].
    apply having_nonempty in Hp as (i & e & He & Hcl). unfold in_class in Hcl.
    apply bool_decide_eq_true in Hcl. unfold effect_settlement_class in Hcl.
    destruct (Hphase _ _ He) as [[Hp Hu]|[Hp Hu]]; repeat case_decide; try done;
      repeat case_bool_decide; done.
Qed.

(** C13: the obligations of a Run of a reachable machine are exactly those its committed scopes
    owe: one blocking obligation for each mutating effect of a committed scope, resolved exactly
    when the outcome of the effect is known, and no other. *)
Theorem obligations_exact m rid r :
  reachable m → runs (projection m) !! rid = Some r →
  (∀ i e s, effects r !! i = Some e → scopes r !! effect_scope_id e = Some s →
    mutation (profile e) = Mutating → scope_status s = ClosedCommitted →
    ∃ oid, effect_obligation_id i = Ok oid ∧ obligations r !! oid =
      Some {| obligation_id := oid; obligation_intent_id := i; blocking := true;
              resolved := effect_done e |})
  ∧ ∀ oid o, obligations r !! oid = Some o →
      effect_obligation_id (obligation_intent_id o) = Ok oid
      ∧ ∃ e s, effects r !! obligation_intent_id o = Some e
        ∧ scopes r !! effect_scope_id e = Some s
        ∧ mutation (profile e) = Mutating ∧ scope_status s = ClosedCommitted.
Proof.
  intros Hm Hr. destruct (reachable_run_inv _ _ _ Hm Hr) as [_ Hc _ _ _].
  destruct (ci_obligations _ _ Hc) as [Hob Hef]. split.
  - intros i e s He Hs Hmut Hst. destruct (Hef i e) as (oid & o & Hid & Ho & Hi); [done| | |].
    + unfold is_mutating. by rewrite Hmut.
    + unfold committed_in. by rewrite Hs, Hst.
    + exists oid. split; [done|]. rewrite Ho. f_equal.
      destruct (Hob _ _ Ho) as (Ho1 & Ho2 & _ & e' & He' & _ & _ & Hres).
      rewrite Hi, He in He'. injection He' as <-. specialize (Hres (not_elem_of_empty _)).
      destruct o; cbn in *. by subst.
  - intros oid o Ho. destruct (Hob _ _ Ho) as (_ & _ & Hid & e & He & Hmut & Hcm & _).
    split; [done|]. unfold committed_in in Hcm.
    destruct (scopes r !! effect_scope_id e) as [s|] eqn:Hs; [|done]. exists e, s.
    unfold is_mutating in Hmut. by to_prop.
Qed.

(** C12: a mutating effect of a reachable machine is released or dispatched only when its scope
    is committed, it is a member of its scope, and in an aborted scope it was cancelled before
    release and not applied. *)
Theorem mutation_released_after_commit m rid r i e :
  reachable m → runs (projection m) !! rid = Some r → effects r !! i = Some e →
  mutation (profile e) = Mutating →
  ∃ s, scopes r !! effect_scope_id e = Some s ∧ i ∈ intents s
    ∧ (phase e = ReleaseAuthorized ∨ phase e = DispatchStarted → scope_status s = ClosedCommitted)
    ∧ (scope_status s = ClosedAborted → phase e = CancelledBeforeRelease ∧ outcome e = NotApplied).
Proof.
  intros Hm Hr He Hmut. destruct (reachable_run_inv _ _ _ Hm Hr) as [_ Hc _ _ _].
  destruct (linked_scope _ _ (ci_linked _ _ Hc) _ _ He) as (s & Hs & Hi). exists s.
  split; [done|]. split.
  { rewrite (sw_intents _ (ci_scopes _ _ Hc) _ _ Hs). by apply elem_of_list_to_set. }
  destruct (ci_effects _ _ Hc _ _ He) as [_ _ _ _ Hl Hsc]. specialize (Hsc _ Hs).
  revert Hl Hsc Hmut. generalize (scope_status s). intros st Hl Hsc Hmut.
  legal_cases e Hl; try discriminate Hmut; destruct st; try discriminate Hsc; cbn;
    (split; [intros [Hx|Hx]; (done || discriminate Hx)|intros Hx; (done || discriminate Hx)]).
Qed.

(** C11: once a Run of a reachable machine is not Active, the only event the reducer accepts for
    it is the reconciliation of an effect of a failed or cancelled Run, and that event changes
    this effect alone: scopes, attempts, epoch, status and facts stay. *)
Theorem terminated_run_frozen m ev p' r :
  reachable m → runs (projection m) !! ev_run_id ev = Some r → execution_status r ≠ Active →
  apply_event (projection m) ev = Ok p' →
  is_failed_or_cancelled (execution_status r) = true
  ∧ ∃ i res e e' s r', payload ev = EffectTransitioned i (Reconcile res)
    ∧ effects r !! i = Some e ∧ scopes r !! effect_scope_id e = Some s
    ∧ apply_effect_transition e (scope_status s) (Reconcile res) = Ok e'
    ∧ runs p' !! ev_run_id ev = Some r' ∧ effects r' = <[i := e']> (effects r)
    ∧ scopes r' = scopes r ∧ attempts r' = attempts r ∧ epoch r' = epoch r
    ∧ execution_status r' = execution_status r ∧ facts p' = facts (projection m).
Proof.
  intros Hm Hr Hst Hok. pose proof (mi_projection _ (reachable_inv _ Hm)) as Hp.
  set (p := projection m) in *. clearbody p. clear Hm. unfold apply_event in Hok. apply bind_Ok in Hok as (p1 & Hens & Hok).
  assert (Hp1 : facts p1 = facts p ∧ ∃ x, runs p1 !! ev_run_id ev = Some (set_derived x r)
    ∧ ready (set_derived x r)).
  { destruct (ensure_index_spec _ _ _ Hp Hens) as (_ & Hf & _ & Hrd). split; [done|].
    unfold ensure_projection_derived_index in Hens. rewrite Hr in Hens.
    apply bind_Ok in Hens as (r' & Hr' & Hens). inv_ok. cbn in *.
    unfold ensure_derived in Hr'. destruct (initialized (derived r)).
    - inv_ok. exists (derived r'). rewrite lookup_insert_eq in *. destruct r'. split; [done|]. by apply Hrd.
    - inv_ok. eexists. rewrite lookup_insert_eq in *. split; [done|]. by apply Hrd. }
  destruct Hp1 as (Hf & x & Hrx & Hrd). clear Hens.
  apply bind_Ok in Hok as ([p2 finished] & Hglob & Hok). cbn in Hok.
  assert (Hgate : verify_run_event_gate (execution_status r) (payload ev) = Ok () →
    is_failed_or_cancelled (execution_status r) = true ∧ is_reconcile (payload ev) = true).
  { unfold verify_run_event_gate. intros Hg%require_Ok. apply orb_true_iff in Hg as [Hg|Hg].
    - by apply bool_decide_eq_true in Hg.
    - by apply andb_true_iff in Hg. }
  assert (Hfin : finished = true → False).
  { intros ->. unfold apply_projection_global_event in Hglob. destruct (payload ev); inv_ok; try done.
    - unfold apply_run_started in *. inv_ok. to_prop. congruence.
    - destruct (facts p1 !! _); inv_ok; done. }
  destruct finished; [by destruct Hfin|]. clear Hfin.
  apply bind_Ok in Hok as (r2 & Hr2 & Hok). apply ok_or_Ok in Hr2.
  apply bind_Ok in Hok as ([] & Hg & Hok). apply bind_Ok in Hok as (r3 & Hr3 & Hok). inv_ok.
  assert (runs p2 = runs p1 ∧ (is_reconcile (payload ev) = true → facts p2 = facts p1)) as [Hru Hfa].
  { unfold apply_projection_global_event in Hglob. destruct (payload ev); inv_ok; try done.
    destruct (facts p1 !! _); inv_ok; done. }
  rewrite Hru, Hrx in Hr2. injection Hr2 as <-. destruct (Hgate Hg) as [Hfc Hrec].
  split; [done|]. specialize (Hfa Hrec). unfold apply_run_event in Hr3.
  destruct (payload ev) as [| | | | | |i t| | | | | | | |] eqn:Hpay; try done.
  destruct t as [| | | |res|]; try done.
  apply effect_transitioned_eq in Hr3 as (e & s & e' & He & Hs & Ht & -> & _); [|done].
  exists i, res, e, e', s, (set_last_event (event_id ev) (transitioned (set_derived x r) i e')).
  split_and!; try done.
  - cbn. by rewrite lookup_insert_eq.
  - cbn. congruence.
Qed.
End Theorems.

(** ** Witnesses *)

Lemma runs_only_grow_witness :
  ∃ m m' r r', sample_trace !! 7 = Some m ∧ sample_trace !! 12 = Some m'
    ∧ runs (projection m) !! run_name = Some r ∧ runs (projection m') !! run_name = Some r'
    ∧ run_extends r r' ∧ grows obligation_advanced (obligations r) (obligations r').
Proof.
  destruct (sample_check 2 7 dispatched eq_refl) as (m & Hm & Hf & Hr).
  destruct (sample_check 3 12 completed eq_refl) as (m' & Hm' & _ & _).
  destruct (with_run_elim _ _ Hf) as (r & Hrun & _).
  pose proof (machine_steps_life _ _ (sample_suffix 7 5 m m' Hm Hm')) as Hs.
  destruct (runs_only_grow m m' run_name r Hr Hs Hrun) as (_ & _ & _ & r' & Hrun' & He & Ho).
  exists m, m', r, r'. split; [exact Hm|]. split; [exact Hm'|]. split; [exact Hrun|].
  split; [exact Hrun'|]. split; [exact He|exact Ho].
Defined.

Lemma completed_run_settled_witness :
  ∃ m r, sample_trace !! 12 = Some m ∧ runs (projection m) !! run_name = Some r
    ∧ execution_status r = Completed ∧ world_settlement r = Settled.
Proof.
  destruct (sample_check 3 12 completed eq_refl) as (m & Hm & Hf & Hr).
  destruct (with_run_elim _ _ Hf) as (r & Hrun & Hc).
  apply andb_true_iff in Hc as [Hc _]. apply andb_true_iff in Hc as [Hc _].
  apply bool_decide_eq_true in Hc. exists m, r. split; [exact Hm|]. split; [exact Hrun|].
  split; [exact Hc|].
  destruct (completed_run_settled m run_name r Hr Hrun Hc) as (_ & _ & _ & _ & Hw). exact Hw.
Defined.

Lemma cancelled_run m :
  cancelled m = true → ∃ r, runs (projection m) !! run_name = Some r
    ∧ is_failed_or_cancelled (execution_status r) = true ∧ with_pay (pay_is DispatchStarted Unknown) r = true.
Proof.
  unfold cancelled. intros Hf. apply andb_true_iff in Hf as [_ Hf].
  destruct (with_run_elim _ _ Hf) as (r & Hrun & Hc). apply andb_true_iff in Hc as [Hs Hp]. by exists r.
Qed.
Lemma terminated_run_closed_witness :
  ∃ m r, dispatched_trace sample_trace !! 1 = Some m ∧ runs (projection m) !! run_name = Some r
    ∧ is_failed_or_cancelled (execution_status r) = true ∧ world_settlement r ≠ SettlementPending.
Proof.
  destruct (cancel_check 0 1 cancelled eq_refl) as (m & Hm & Hf & Hr).
  destruct (cancelled_run m Hf) as (r & Hrun & Hs & _). exists m, r. split; [exact Hm|].
  split; [exact Hrun|]. split; [exact Hs|].
  destruct (terminated_run_closed m run_name r Hr Hrun Hs) as (_ & _ & _ & _ & Hw). exact Hw.
Defined.

Lemma completed_pay m :
  completed m = true → ∃ r e s, runs (projection m) !! run_name = Some r
    ∧ effects r !! pay_intent = Some e ∧ phase e = DispatchStarted ∧ profile e = pay_profile
    ∧ scopes r !! effect_scope_id e = Some s ∧ scope_status s = ClosedCommitted.
Proof.
  intros Hf. destruct (with_run_elim _ _ Hf) as (r & Hrun & Hc).
  apply andb_true_iff in Hc as [Hc Hw]. apply andb_true_iff in Hc as [_ Hp].
  destruct (with_pay_elim _ _ Hp) as (e & He & Hx). destruct (pay_is_elim _ _ _ Hx) as (Hph & _ & Hsc & Hpr).
  unfold work_is in Hw. destruct (scopes r !! work_scope) as [s|] eqn:Hs; [|discriminate Hw].
  apply bool_decide_eq_true in Hw. exists r, e, s. rewrite Hsc. exact (conj Hrun (conj He (conj Hph (conj Hpr (conj Hs Hw))))).
Qed.
Lemma obligations_exact_witness :
  ∃ m r oid, sample_trace !! 12 = Some m ∧ runs (projection m) !! run_name = Some r
    ∧ is_Some (obligations r !! oid).
Proof.
  destruct (sample_check 3 12 completed eq_refl) as (m & Hm & Hf & Hr).
  destruct (completed_pay m Hf) as (r & e & s & Hrun & He & _ & Hp & Hs & Hst).
  destruct (proj1 (obligations_exact m run_name r Hr Hrun) pay_intent e s He Hs) as (oid & _ & Ho);
    [rewrite Hp; reflexivity|exact Hst|].
  exists m, r, oid. split; [exact Hm|]. split; [exact Hrun|]. rewrite Ho. by eexists.
Defined.

Lemma mutation_released_after_commit_witness :
  ∃ m r e s, sample_trace !! 12 = Some m ∧ runs (projection m) !! run_name = Some r
    ∧ effects r !! pay_intent = Some e ∧ phase e = DispatchStarted
    ∧ scopes r !! effect_scope_id e = Some s ∧ scope_status s = ClosedCommitted.
Proof.
  destruct (sample_check 3 12 completed eq_refl) as (m & Hm & Hf & Hr).
  destruct (completed_pay m Hf) as (r & e & _ & Hrun & He & Hph & Hp & _).
  destruct (mutation_released_after_commit m run_name r pay_intent e Hr Hrun He)
    as (s & Hs & _ & Hrel & _); [rewrite Hp; reflexivity|].
  exists m, r, e, s. split; [exact Hm|]. split; [exact Hrun|]. split; [exact He|].
  split; [exact Hph|]. split; [exact Hs|]. apply Hrel. right. exact Hph.
Defined.

(** The event that reconciles the effect of the cancelled Run. *)
Lemma reconcile_event :
  ∃ m ev r, reachable m ∧ ev_run_id ev = run_name ∧ runs (projection m) !! run_name = Some r
    ∧ is_failed_or_cancelled (execution_status r) = true
    ∧ ∃ p', apply_event (projection m) ev = Ok p'.
Proof.
  destruct (cancel_check 0 1 cancelled eq_refl) as (m & Hm & Hf & Hr).
  destruct (cancel_check 1 2 reconciled eq_refl) as (m' & Hm' & Hf' & _).
  destruct (cancelled_run m Hf) as (r & Hrun & Hs & Hp).
  destruct (cancel_step 1 m m' Hm Hm') as (cid & c & rc & Hc & Hsub). injection Hc as <- <-.
  unfold cancelled in Hf. apply andb_true_iff in Hf as [Hn _]. apply bool_decide_eq_true in Hn.
  apply submit_cases in Hsub as (_ & h & _ & [(rec & Hrec & _)|(_ & _ & proof & _ & Hsub)]).
  { cbn in Hrec. by rewrite Hn in Hrec. }
  destruct (submit_new_submission _ _ _ _ _ (reachable_inv _ Hr) Hsub) as [new Hnew].
  pose proof (sb_replay _ _ _ _ _ Hnew) as Hrep. pose proof (sb_run _ _ _ _ _ Hnew) as Hev.
  destruct new as [|ev new].
  - exfalso. cbn in Hrep. injection Hrep as Hrep. unfold reconciled, with_run in Hf'.
    rewrite <-Hrep, Hrun in Hf'. apply andb_true_iff in Hf' as [_ Hp'].
    destruct (with_pay_elim _ _ Hp) as (e & He & Hx). destruct (with_pay_elim _ _ Hp') as (e' & He' & Hx').
    rewrite He in He'. injection He' as <-. destruct (pay_is_elim _ _ _ Hx) as (_ & Ho & _).
    destruct (pay_is_elim _ _ _ Hx') as (_ & Ho' & _). rewrite Ho in Ho'. discriminate Ho'.
  - apply Forall_cons in Hev as [Hid _]. cbn in Hrep. apply bind_Ok in Hrep as (p1 & Hap & _).
    exists m, ev, r. split; [done|]. split; [done|]. split; [done|]. split; [done|]. by exists p1.
Qed.
Lemma terminated_run_frozen_witness :
  ∃ m ev p' i res, apply_event (projection m) ev = Ok p'
    ∧ payload ev = EffectTransitioned i (Reconcile res).
Proof.
  destruct reconcile_event as (m & ev & r & Hr & Hid & Hrun & Hs & p' & Hap).
  rewrite <-Hid in Hrun.
  destruct (terminated_run_frozen m ev p' r Hr Hrun) as (_ & i & res & _ & _ & _ & _ & Hp & _);
    [destruct (execution_status r); [discriminate Hs|discriminate|discriminate|discriminate]|exact Hap|].
  exists m, ev, p', i, res. split; [exact Hap|exact Hp].
Defined.
