(* ===== verification/EffectTheorems.v ===== *)
(** * The lifecycle of an effect

    Properties of [Projection::apply_effect_transition] of
    [crates/cymule-core/src/model.rs] along whole sequences of transitions. *)

From S2P Require Import Prelude Identity Canonical Ir Model Effects Reducer RunInv.
From S2P Require Import Terminate History Samples.

(** ** Counting the steps of a lifecycle *)

Definition is_start_dispatch (st : ScopeStatus * EffectTransition) : bool :=
  bool_decide (st.2 = StartDispatch).
(** A reconciliation that leaves the outcome unknown can be repeated. *)
Definition makes_progress (st : ScopeStatus * EffectTransition) : bool :=
  negb (bool_decide (st.2 = Reconcile StillUnknown)).
(** The transitions an effect can still take, repetitions aside. *)
Definition transitions_left (e : EffectProjection) : nat :=
  match phase e with
  | Admitted_ => 6
  | Prepared => 5
  | ReleaseAuthorized => 4
  | CancelledBeforeRelease => 0
  | DispatchStarted =>
      match outcome e, execution_availability e with
      | Unobserved, _ => 3
      | Unknown, Available => 2
      | Unknown, Unavailable => 1
      | Applied, _ | NotApplied, _ => 0
      end
  end.
Definition dispatches_left (e : EffectProjection) : nat :=
  match phase e with Admitted_ | Prepared | ReleaseAuthorized => 1 | _ => 0 end.

Lemma transition_progress e s t e' :
  effect_state_legal e = true → apply_effect_transition e s t = Ok e' →
  transitions_left e' + (if makes_progress (s, t) then 1 else 0) ≤ transitions_left e
  ∧ dispatches_left e' + (if is_start_dispatch (s, t) then 1 else 0) ≤ dispatches_left e.
Proof.
  intros Hl Ht. legal_cases e Hl; destruct t as [| | |[]|[]|]; try discriminate Ht; destruct s;
    try discriminate Ht; injection Ht as <-; vm_compute; split; lia.
Qed.

Lemma lifecycle_inv e steps e' :
  effect_state_legal e = true → effect_lifecycle e steps = Ok e' →
  effect_state_legal e' = true ∧ effect_advanced e e'
  ∧ transitions_left e' + length (filter (λ st, makes_progress st = true) steps) ≤ transitions_left e
  ∧ dispatches_left e' + length (filter (λ st, is_start_dispatch st = true) steps)
    ≤ dispatches_left e.
Proof.
  unfold effect_lifecycle. revert e. induction steps as [|[s t] steps IH]; intros e Hl Hf; cbn in Hf.
  - injection Hf as ->. split_and!; try done; cbn; lia.
  - apply bind_Ok in Hf as (e1 & Ht & Hf).
    destruct (transition_progress _ _ _ _ Hl Ht) as [Hp Hd].
    destruct (IH e1) as (Hl' & Ha & Hp' & Hd'); [by eapply transition_legal|done|].
    split; [done|]. split; [etrans; [by eapply transition_advanced|done]|].
    rewrite !filter_cons. split; repeat case_decide; cbn [length];
      destruct (makes_progress (s, t)), (is_start_dispatch (s, t)); try done; lia.
Qed.

(** C21: a legal effect stays legal under any accepted transitions, makes at most six of them
    besides repeated inconclusive reconciliations, is dispatched at most once, and only
    advances. *)
Theorem lifecycle_bounded e steps e' :
  effect_state_legal e = true → effect_lifecycle e steps = Ok e' →
  effect_state_legal e' = true
  ∧ length (filter (λ st, makes_progress st = true) steps) ≤ 6
  ∧ length (filter (λ st, is_start_dispatch st = true) steps) ≤ 1
  ∧ effect_advanced e e'.
Proof.
  intros Hl Hf. destruct (lifecycle_inv _ _ _ Hl Hf) as (Hl' & Ha & Hp & Hd).
  assert (transitions_left e ≤ 6).
  { unfold transitions_left. destruct (phase e), (outcome e), (execution_availability e); lia. }
  assert (dispatches_left e ≤ 1) by (unfold dispatches_left; destruct (phase e); lia).
  split_and!; try done; lia.
Qed.

(** For a legal effect the settlement class that the index uses is Settled exactly when the
    effect refuses every transition in every scope status. *)
Theorem settled_iff_final e :
  effect_state_legal e = true →
  (effect_settlement_class e = ClassSettled ↔
    ∀ s t, apply_effect_transition e s t = Err IllegalTransition).
Proof.
  intros Hl. split; [intros Hc s t; by apply settled_refuses|].
  intros Hr. destruct (decide (effect_settlement_class e = ClassSettled)) as [|Hn]; [done|].
  destruct (unsettled_accepts e Hl Hn) as (s & t & e' & Ht). by rewrite Hr in Ht.
Qed.

(** C20: an effect that starts as admitted can only be dispatched after a release was authorised
    that its dispatch policy allows in the status its scope had then, and it stays dispatched
    for the rest of its life. *)
Theorem dispatch_needs_release e pre s post e' :
  phase e = Admitted_ →
  effect_lifecycle e (pre ++ (s, StartDispatch) :: post) = Ok e' →
  phase e' = DispatchStarted
  ∧ ∃ s', (s', AuthorizeRelease) ∈ pre ∧ release_allowed (profile e) s' = true.
Proof.
  intros Hp Hf. unfold effect_lifecycle in Hf. rewrite try_fold_app in Hf.
  apply bind_Ok in Hf as (e1 & Hpre & Hf). cbn [try_fold] in Hf.
  apply bind_Ok in Hf as (e2 & Hst & Hpost). cbn in Hst, Hpost. inv_ok. to_prop.
  assert (Hprof : profile e1 = profile e
    ∧ (phase e1 = ReleaseAuthorized ∨ phase e1 = DispatchStarted →
       ∃ s', (s', AuthorizeRelease) ∈ pre ∧ release_allowed (profile e) s' = true)).
  { refine (try_fold_inv _ (λ don e1, profile e1 = profile e
      ∧ (phase e1 = ReleaseAuthorized ∨ phase e1 = DispatchStarted →
         ∃ s', (s', AuthorizeRelease) ∈ don ∧ release_allowed (profile e) s' = true)) _ _ _ _ _ Hpre).
    - split; [done|]. rewrite Hp. by intros [].
    - intros don [s1 t1] rest e3 e4 _ [Hpr Hex] Ht. cbn in Ht.
      pose proof (transition_frame _ _ _ _ Ht) as (_ & _ & Hf & _). split; [congruence|].
      assert (Hkeep : (phase e3 = ReleaseAuthorized ∨ phase e3 = DispatchStarted) →
        ∃ s', (s', AuthorizeRelease) ∈ don ++ [(s1, t1)] ∧ release_allowed (profile e) s' = true).
      { intros Hph. destruct (Hex Hph) as (s' & Hin & Hr). exists s'. split; [set_solver|done]. }
      destruct t1 as [| | |o|res|]; cbn in Ht; inv_ok; to_prop; cbn; try (by intros []).
      + intros _. exists s1. split; [set_solver|congruence].
      + intros _. apply Hkeep. by left.
      + intros _. apply Hkeep. by right.
      + intros Hph. apply Hkeep. destruct res; by cbn in Hph.
      + case_decide as Hd; cbn; [intros _; apply Hkeep; by right|by intros []]. }
  destruct Hprof as [_ Hex]. split; [|apply Hex; auto]. clear Hex Hpre.
  refine (try_fold_inv _ (λ _ e1, phase e1 = DispatchStarted) _ _ _ _ _ Hpost); [done|].
  intros don [s1 t1] rest e3 e4 _ Hph Ht. cbn in Ht.
  destruct t1 as [| | |o|res|]; cbn in Ht; inv_ok; to_prop; cbn; try congruence.
  - destruct res; done.
  - by rewrite decide_True.
Qed.

(** ** Witnesses *)

Definition sample_steps : list (ScopeStatus * EffectTransition) :=
  [(Open, Prepare); (ClosedCommitted, AuthorizeRelease); (ClosedCommitted, StartDispatch);
   (ClosedCommitted, Observe Unknown); (ClosedCommitted, Reconcile StillUnknown);
   (ClosedCommitted, MarkUnavailable); (ClosedCommitted, Reconcile ResolvedApplied)].

Lemma lifecycle_bounded_witness :
  ∃ e', effect_lifecycle sample_effect_projection sample_steps = Ok e'
    ∧ effect_state_legal e' = true ∧ effect_advanced sample_effect_projection e'.
Proof.
  destruct (effect_lifecycle sample_effect_projection sample_steps) as [e'|] eqn:He;
    [|vm_compute in He; discriminate He].
  destruct (lifecycle_bounded sample_effect_projection sample_steps e' eq_refl He)
    as (Hl & _ & _ & Ha).
  exists e'. split; [reflexivity|]. split; [exact Hl|exact Ha].
Defined.

Lemma settled_iff_final_witness :
  effect_settlement_class (aborted_effect sample_effect_projection) = ClassSettled
  ∧ ∀ s t, apply_effect_transition (aborted_effect sample_effect_projection) s t = Err IllegalTransition.
Proof.
  split; [reflexivity|].
  refine (proj1 (settled_iff_final (aborted_effect sample_effect_projection) _) _); reflexivity.
Defined.

Lemma dispatch_needs_release_witness :
  ∃ s', (s', AuthorizeRelease) ∈ [(Open, Prepare); (ClosedCommitted, AuthorizeRelease)]
    ∧ release_allowed pay_profile s' = true.
Proof.
  refine (proj2 (dispatch_needs_release sample_effect_projection
    [(Open, Prepare); (ClosedCommitted, AuthorizeRelease)] ClosedCommitted
    [(ClosedCommitted, Observe Applied)] _ _ _)); reflexivity.
Defined.
