(* ===== verification/RollbackTheorems.v ===== *)
(** * What a rolled-back command leaves behind

    The machine undoes the projection of a command whose admission fails after
    its events were applied.  Here: what that rollback restores. *)

From S2P Require Import Prelude KeyIndex Identity CommandIndex Canonical Graph Ir Model Events.
From S2P Require Import Chain Machine Location Effects DerivedIndex IndexSpec Reducer Verify.
From S2P Require Import Authority Archive Compaction Admission Submit Rollback RunInv RunSteps.
From S2P Require Import Terminate ReducerInv MachineInv ChainInv RollbackInv CompactionInv.
From S2P Require Import Samples.

Definition is_propose_command (c : Command) : bool :=
  match c with ProposeEffect _ _ _ _ _ _ _ _ _ _ _ => true | _ => false end.

Section Theorems.
Context `{Sha256} `{Canonical} `{!MachineSerialize} `{!ArchiveSerialize} `{!CompactionSerialize}
  `{SchemaCompiler} `{PlanCodec} `{!ValueSerialize}.

Lemma admitted_plain c p :
  command_matches_event c p = true → is_propose_command c = false → is_proposal p = false.
Proof. destruct c, p; try done. Qed.

Lemma admitted_proposal c p :
  command_matches_event c p = true → is_propose_command c = true →
  ∃ i origin sid inv path did rpath site occ schema op prof arguments binding occ_binding,
    p = EffectProposed i origin sid inv path did rpath site occ schema op prof arguments binding
          occ_binding.
Proof. destruct c, p; try done. intros _ _. by repeat eexists. Qed.

Lemma command_batch_plain m env hash evs :
  command_event_batch m env hash = Ok evs → is_propose_command (command env) = false →
  Forall (λ ev, is_proposal (payload ev) = false) evs.
Proof.
  intros Hb Hc. destruct (command_event_batch_Ok _ _ _ _ Hb) as (p & Hp & Hps & _).
  apply Forall_forall. intros ev Hev. eapply admitted_plain; [|done].
  eapply batch_payload_matches; [done|]. rewrite <-Hps. by apply list_elem_of_fmap_2.
Qed.

(** C16: the projection rollback of a rejected command is exact: for every command but an effect
    proposal, the undo records that its batch of events collects take the machine with its new
    projection back to the machine before the batch, projection, derived indexes and root
    included; material admitted for the command is not part of this rollback. *)
Theorem rejected_command_restores m env hash m1 evs m2 root :
  reachable m → admit_staged_command_material m (command env) = Ok m1 →
  command_event_batch m1 env hash = Ok evs → apply_command_event_batch m1 evs = Ok (m2, root) →
  is_propose_command (command env) = false →
  ∃ undos, undo_command_event_batch m1 evs = Ok (m2, root, undos)
    ∧ rollback_projection_batch m2 undos = m1.
Proof.
  intros Hm Hst Hb Hap Hc. apply undo_batch_plain; [| |done].
  - eapply machine_inv_step; [by eapply admit_staged_step|by apply reachable_inv].
  - by eapply command_batch_plain.
Qed.

(** C17: the rollback of an effect proposal is not exact: it leaves the intent in the two order
    sequences of its scope, so the derived index that verified before the proposal no longer
    verifies, and if the effect is mutating no commit of this scope can be reduced in the
    restored state. *)
Theorem rejected_proposal_leaks m i origin sid inv path did rpath site occ schema op prof
    arguments binding occ_binding ev m1 m2 root c :
  reachable m → admit_staged_command_material m c = Ok m1 →
  payload ev = EffectProposed i origin sid inv path did rpath site occ schema op prof arguments
                 binding occ_binding →
  apply_command_event_batch m1 [ev] = Ok (m2, root) →
  ∃ undos m3, undo_command_event_batch m1 [ev] = Ok (m2, root, undos)
    ∧ rollback_projection_batch m2 undos = m3
    ∧ m3 = Machine.set_projection (leaked_projection ev (projection m1)) m1
    ∧ verify_derived_indexes (projection m1) = Ok ()
    ∧ verify_derived_indexes (projection m3) ≠ Ok ()
    ∧ (mutation prof = Mutating → ∃ r, runs (projection m3) !! ev_run_id ev = Some r
         ∧ ∀ count commitment r', apply_scope_committed r sid count commitment ≠ Ok r').
Proof.
  intros Hm Hst Hp Hap.
  assert (Hm1 : machine_inv m1)
    by (eapply machine_inv_step; [by eapply admit_staged_step|by apply reachable_inv]).
  destruct (undo_batch_single _ _ _ _ Hm1 Hap) as (undos & Hu & Hback & He).
  exists undos, (Machine.set_projection (leaked_projection ev (projection m1)) m1).
  split_and!; [done..|by apply projection_inv_indexed, Hm1| |].
  all: destruct He as [? ? _ (? & ? & ? & ? & Hst') _ _|r r' fs Hr Hrd _ Hok _]; [by rewrite Hst' in Hp|].
  all: unfold apply_run_event in Hok; rewrite Hp in Hok.
  all: destruct (effect_proposed_eq _ _ _ _ _ _ _ _ _ _ _ _ _ _ _ _ _ _ Hrd Hok)
    as (s & Hs & Hop & Hfresh & _).
  all: assert (Hx : ∃ x, open_scope_effects (derived r) !! sid = Some x)
    by (rewrite (rd_synced _ Hrd); cbn; rewrite lookup_open_indexes, Hs; cbn;
        unfold scope_is_open; rewrite Hop, (bool_decide_eq_true_2 (Open = Open)) by done; by eexists).
  all: destruct Hx as [x Hx].
  - apply (unsynced_refused _ (ev_run_id ev) (leaked_run (payload ev) r)).
    + cbn. by rewrite lookup_alter_eq, Hr.
    + rewrite Hp. cbn. by apply ready_initialized.
    + apply core_indexable with ∅. destruct (rd_core _ Hrd) as [[] ? ? ? ? ? ?]. by split.
    + rewrite Hp. cbn. change (spec_index (leaked_run _ r)) with (spec_index r).
      rewrite <-(rd_synced _ Hrd).
      exact (leaked_index_differs i origin sid inv path did rpath site occ schema op prof
               arguments binding occ_binding _ x Hx).
  - intros Hmut. exists (leaked_run (payload ev) r). split; [cbn; by rewrite lookup_alter_eq, Hr|].
    rewrite Hp. eapply absent_intent_blocks_commit with (i := i); [| |done].
    + cbn. by rewrite lookup_alter_eq, Hx.
    + cbn. rewrite bool_decide_eq_true_2 by done. set_solver.
Qed.

(** An accepted submission went through a batch. *)
Lemma submitted_batch m env m' r :
  commands m !! command_id env = None →
  is_start_run (command env) = true
  ∨ is_Some (expected_precondition env)
    ∧ expected_precondition env = precondition_token <$> runs (projection m) !! env_run_id env →
  submit m env = Ok (m', r) →
  ∃ m1 hash evs m2 root, admit_staged_command_material m (command env) = Ok m1
    ∧ command_event_batch m1 env hash = Ok evs ∧ apply_command_event_batch m1 evs = Ok (m2, root).
Proof.
  intros Hc Hpre Hs. apply submit_cases in Hs as (_ & h & _ & [(rec & Hrec & _)|(_ & _ & proof & _ & Hs)]);
    [congruence|].
  unfold submit_new_with_index_proof in Hs. apply bind_Ok in Hs as ([] & _ & Hs).
  apply bind_Ok in Hs as ([] & _ & Hs). apply bind_Ok in Hs as (hash & _ & Hs).
  apply bind_Ok in Hs as (pr & _ & Hs). apply bind_Ok in Hs as (bid & _ & Hs).
  assert (stale_command_receipt m env = Ok None) as Hst.
  { unfold stale_command_receipt. destruct Hpre as [->|[[t Ht] Heq]]; [done|].
    destruct (is_start_run _); [done|]. rewrite Ht in Heq |- *. cbn. by rewrite decide_True. }
  rewrite Hst in Hs. cbn in Hs. apply bind_Ok in Hs as (m1 & Ha & Hs).
  unfold submit_applied_single_command in Hs. apply bind_Ok in Hs as (evs & Hb & Hs).
  apply bind_Ok in Hs as ([m2 root] & Hap & _). by exists m1, hash, evs, m2, root.
Qed.
End Theorems.

(** ** Witnesses *)

Lemma rejected_command_restores_witness :
  ∃ m m1 evs m2 root undos, sample_trace !! 0 = Some m
    ∧ apply_command_event_batch m1 evs = Ok (m2, root)
    ∧ undo_command_event_batch m1 evs = Ok (m2, root, undos)
    ∧ rollback_projection_batch m2 undos = m1.
Proof.
  destruct (sample_check 0 0 fresh eq_refl) as (m & Hm & Hf & Hr).
  destruct (sample_check 1 1 started eq_refl) as (m' & Hm' & _ & _).
  destruct (sample_step 0 m m' Hm Hm') as (cid & c & r & [= <- <-] & Hs).
  unfold fresh in Hf. apply andb_true_iff in Hf as [_ Hn%bool_decide_eq_true].
  destruct (submitted_batch m (sample_envelope "start" (token m) (start_command "start")) m' r Hn
    (or_introl eq_refl) Hs)
    as (m1 & hash & evs & m2 & root & Ha & Hb & Hap).
  destruct (rejected_command_restores _ _ _ _ _ _ _ Hr Ha Hb Hap eq_refl) as (undos & Hu & Hback).
  exists m, m1, evs, m2, root, undos. split; [exact Hm|]. split; [exact Hap|].
  split; [exact Hu|exact Hback].
Defined.

Lemma rejected_proposal_leaks_witness :
  ∃ m m1 ev m2 root undos, sample_trace !! 2 = Some m
    ∧ apply_command_event_batch m1 [ev] = Ok (m2, root)
    ∧ undo_command_event_batch m1 [ev] = Ok (m2, root, undos)
    ∧ verify_derived_indexes (projection (rollback_projection_batch m2 undos)) ≠ Ok ().
Proof.
  destruct (sample_check 4 2 unproposed eq_refl) as (m & Hm & Hf & Hr).
  destruct (sample_check 5 3 started eq_refl) as (m' & Hm' & _ & _).
  destruct (sample_step 2 m m' Hm Hm') as (cid & c & r & [= <- <-] & Hs).
  unfold unproposed in Hf. apply andb_true_iff in Hf as [Ht%bool_decide_eq_true Hn%bool_decide_eq_true].
  destruct (submitted_batch m (sample_envelope "propose" (token m) propose_command) m' r Hn
    (or_intror (conj Ht eq_refl)) Hs)
    as (m1 & hash & evs & m2 & root & Ha & Hb & Hap).
  destruct (command_event_batch_Ok _ _ _ _ Hb) as (p & Hp & Hps & _).
  apply admit_matches in Hp.
  destruct evs as [|ev [|? ?]]; try discriminate Hps. injection Hps as Hps.
  destruct (admitted_proposal _ _ Hp eq_refl)
    as (i & o & sid & inv & path & did & rpath & site & occ & sch & op & prof & ar & b & ob & ->).
  destruct (rejected_proposal_leaks _ _ _ _ _ _ _ _ _ _ _ _ _ _ _ _ _ _ _ _ _ Hr Ha Hps Hap)
    as (undos & m3 & Hu & Hback & _ & _ & Hbad & _).
  exists m, m1, ev, m2, root, undos. split; [exact Hm|]. split; [exact Hap|]. split; [exact Hu|].
  rewrite Hback. exact Hbad.
Defined.
