(* ===== verification/PlanTheorems.v ===== *)
(** * What plan validation and sealing guarantee

    Exactness of [PlanCandidate::validate], its invocation graph check and
    [seal_plan] of [crates/cymule-core/src/ir.rs]. *)

From S2P Require Import Prelude Identity Numbers Canonical Graph Ir IrFacts Model Samples.

(** ** Declarative well-formedness of a candidate *)

(** Identifiers of one kind: each is valid, no two are equal. *)
Definition ids_wf (ids : list string) : Prop :=
  NoDup ids ∧ Forall (λ i, validate_semantic_id i = Ok ()) ids.

Section Candidates.
Context `{SchemaCompiler}.

(** A mutating effect is never dispatched eagerly. *)
Definition effect_contract_wf (c : EffectContract) : Prop :=
  validate_schema (effect_input_schema c) = Ok () ∧ validate_schema (effect_output_schema c) = Ok ()
  ∧ (mutation (contract_profile c) = Mutating → dispatch (contract_profile c) ≠ Eager).

Record candidate_wf (c : PlanCandidate) : Prop := {
  cw_version : ir_version c = IR_VERSION;
  cw_name : validate_semantic_id (plan_name c) = Ok ();
  cw_ids : ids_wf (component_id <$> components c) ∧ ids_wf (contract_id <$> effects_ c)
    ∧ ids_wf (def_id <$> definitions c);
  cw_components : ∀ x, x ∈ components c → validate_component_contract x = Ok ();
  cw_effects : ∀ x, x ∈ effects_ c → effect_contract_wf x;
  cw_schemas : ∀ d, d ∈ definitions c →
    validate_schema (def_input_schema d) = Ok () ∧ validate_schema (def_output_schema d) = Ok ();
  cw_entry : entry c ∈ def_id <$> definitions c;
  cw_regions : ∀ d, d ∈ definitions c →
    region_wf (list_to_set (component_id <$> components c)) (effect_profiles (effects_ c))
      (list_to_set (def_id <$> definitions c)) ∅ (body d);
  cw_sites : NoDup (flat_map (λ d, region_sites (body d)) (definitions c));
  cw_acyclic : ∀ d, ¬ tc (definition_invokes c) d d;
}.

Lemma unique_ids_exact ids s :
  unique_contract_ids ids = Ok s ↔ ids_wf ids ∧ s = list_to_set ids.
Proof.
  split.
  - intros Hv. destruct (unique_contract_ids_Ok _ _ Hv) as [Hnd ->]. split; [|done]. split; [done|].
    refine (try_fold_inv _ (λ don _, Forall (λ i, validate_semantic_id i = Ok ()) don) _ _ _ _ _ Hv);
      [done|].
    intros don i rest t t' _ Hall Hs. inv_ok. apply Forall_app. split; [done|].
    by apply Forall_singleton.
  - intros [[Hnd Hall] ->]. unfold unique_contract_ids.
    edestruct (try_fold_total (λ unique id, _ ← validate_semantic_id id;
      _ ← require (bool_decide (id ∉ unique)) Validation; Ok ({[id]} ∪ unique))
      (λ don (s : gset string), s = list_to_set don) ids ∅) as (s & -> & ->); [done| |done].
    intros don i rest t -> ->. rewrite Forall_app, Forall_cons in Hall. destruct Hall as (_ & -> & _).
    apply NoDup_app in Hnd as (_ & Hd & _). cbn.
    rewrite bool_decide_eq_true_2.
    + eexists. split; [done|]. rewrite list_to_set_app_L. set_solver.
    + rewrite elem_of_list_to_set. intros Hi. apply (Hd i Hi). by left.
Qed.

Lemma validate_definitions_exact comps effs defs l sites :
  validate_definitions comps effs defs l = Ok sites ↔
  (∀ d, d ∈ l → validate_schema (def_input_schema d) = Ok ()
    ∧ validate_schema (def_output_schema d) = Ok ())
  ∧ (∀ d, d ∈ l → region_wf comps effs defs ∅ (body d))
  ∧ NoDup (flat_map (λ d, region_sites (body d)) l)
  ∧ sites = list_to_set (flat_map (λ d, region_sites (body d)) l).
Proof.
  split.
  - intros Hv. destruct (validate_definitions_Ok _ _ _ _ _ Hv) as (Hall & Hnd & ->).
    rewrite Forall_forall in Hall. split_and!; try done.
    refine (try_fold_inv _ (λ don _, ∀ d, d ∈ don → validate_schema (def_input_schema d) = Ok ()
      ∧ validate_schema (def_output_schema d) = Ok ()) _ _ _ _ _ Hv); [by intros ? ?%elem_of_nil|].
    intros don d rest t t' _ IH Hs. inv_ok. intros d' [?| ->%list_elem_of_singleton]%elem_of_app;
      [by apply IH|done].
  - intros (Hs & Hr & Hnd & ->). unfold validate_definitions.
    edestruct (try_fold_total (λ sites d, _ ← validate_schema (def_input_schema d);
      _ ← validate_schema (def_output_schema d);
      validate_region comps effs defs (body d) sites ∅)
      (λ don s, s = list_to_set (flat_map (λ d, region_sites (body d)) don)) l ∅)
      as (s & -> & ->); [done| |done].
    intros don d rest t Hl ->. assert (Hd : d ∈ l) by (rewrite Hl; set_solver).
    destruct (Hs _ Hd) as [-> ->]. cbn [mbind result_bind]. eexists. split; [|done].
    rewrite Hl, flat_map_app in Hnd. cbn in Hnd. rewrite app_assoc in Hnd.
    apply NoDup_app in Hnd as (Hnd & _ & _). apply NoDup_app in Hnd as (_ & Hdis & Hnd).
    apply validate_region_spec. split; [by apply Hr|]. split; [done|]. split.
    + intros i Hi. rewrite elem_of_list_to_set. intros Hi'. by apply (Hdis i).
    + rewrite flat_map_app. cbn. rewrite app_nil_r. by rewrite list_to_set_app_L.
Qed.

Lemma definition_invokes_edge c d t :
  NoDup (def_id <$> definitions c) →
  definition_invokes c d t ↔ edge (invocation_graph (definitions c)) d t.
Proof. intros Hnd. by rewrite (invocation_graph_edge _ _ _ Hnd). Qed.
Lemma effect_contract_exact x : validate_effect_contract x = Ok () ↔ effect_contract_wf x.
Proof.
  unfold validate_effect_contract, effect_contract_wf. split.
  - intros Hv. inv_ok. split; [done|]. split; [done|]. intros Hm Hd.
    rewrite Hm, Hd in *. done.
  - intros (-> & -> & Hd). cbn. apply require_Ok, negb_true_iff, andb_false_iff.
    destruct (decide (mutation (contract_profile x) = Mutating)) as [Hm|Hm].
    + right. apply bool_decide_eq_false. by apply Hd.
    + left. by apply bool_decide_eq_false.
Qed.

(** C36: PlanCandidate::validate accepts exactly the well-formed candidates: versions, unique
    semantic identities, valid schemas, no eager mutation, an entry definition, scoped regions
    whose operations name declared contracts and whose sites are unique, and no recursive
    invocation, stated declaratively as candidate_wf. *)
Theorem candidate_validate_exact c : PlanCandidate_validate c = Ok () ↔ candidate_wf c.
Proof.
  split.
  - intros Hv. pose proof (validate_admitted _ Hv) as Ha. unfold PlanCandidate_validate in Hv. inv_ok.
    repeat match goal with
    | Hx : unique_contract_ids _ = Ok _ |- _ => apply unique_ids_exact in Hx as [? ->]
    | Hx : validate_definitions _ _ _ _ = Ok _ |- _ =>
        apply validate_definitions_exact in Hx as (? & ? & ? & ->)
    | Hx : bool_decide _ = true |- _ => apply bool_decide_eq_true in Hx
    | Hx : try_each _ _ = Ok _ |- _ => rewrite try_each_Ok in Hx
    end.
    split; try done.
    + intros e He. apply effect_contract_exact. auto.
    + apply Ha.
    + pose proof (admitted_closed _ Ha) as Hc. pose proof (admitted_graph _ Ha) as Hg.
      destruct (validate_acyclic_graph_cases _ Hc) as [[_ Hacc]|[Hx _]]; [|unfold validate_invocation_graph in Hg; congruence].
      intros d Hd. apply (acc_no_cycle (invocation_graph (definitions c)) d (Hacc d)).
      revert Hd. apply (tc_congruence id). intros x y. by rewrite <-definition_invokes_edge by apply Ha.
  - intros [Hve Hna (Hi1 & Hi2 & Hi3) Hco Hef Hsc Hen Hre Hsi Hac].
    unfold PlanCandidate_validate. rewrite Hve, Hna, bool_decide_eq_true_2 by done. cbn [mbind result_bind require].
    rewrite (proj2 (unique_ids_exact _ _) (conj Hi1 eq_refl)). cbn [mbind result_bind].
    rewrite (proj2 (unique_ids_exact _ _) (conj Hi2 eq_refl)). cbn [mbind result_bind].
    rewrite (proj2 (try_each_Ok _ _ ()) Hco). cbn [mbind result_bind].
    rewrite (proj2 (try_each_Ok validate_effect_contract (effects_ c) ())).
    2: { intros e He. by apply effect_contract_exact, Hef. }
    cbn [mbind result_bind].
    rewrite (proj2 (unique_ids_exact _ _) (conj Hi3 eq_refl)). cbn [mbind result_bind].
    rewrite bool_decide_eq_true_2 by (by apply elem_of_list_to_set). cbn [mbind result_bind require].
    rewrite (proj2 (validate_definitions_exact _ _ _ _ _) (conj Hsc (conj Hre (conj Hsi eq_refl)))).
    cbn [mbind result_bind]. destruct Hi3 as [Hnd _].
    assert (Hc : closed (invocation_graph (definitions c))).
    { intros d t. rewrite invocation_graph_edge by done. intros (def & Hin & _ & Hi).
      apply invocation_graph_dom. by apply (region_wf_invokes _ _ _ _ _ _ (Hre _ Hin)), elem_of_list_to_set in Hi. }
    destruct (validate_acyclic_graph_cases _ Hc) as [[Hx _]|[_ [d Hd]]]; [done|].
    destruct (Hac d). revert Hd. apply (tc_congruence id). intros x y. by rewrite <-definition_invokes_edge.
Qed.

(** C37: the invocation relation of an accepted candidate is well founded and stays inside its
    definitions, so following invocations of an admitted plan terminates. *)
Theorem admitted_invocations_terminate c :
  PlanCandidate_validate c = Ok () →
  well_founded (flip (definition_invokes c))
  ∧ ∀ d t, definition_invokes c d t → t ∈ def_id <$> definitions c.
Proof.
  intros Hv. pose proof (validate_admitted _ Hv) as Ha.
  pose proof (admitted_closed _ Ha) as Hc. pose proof (admitted_graph _ Ha) as Hg. split.
  - destruct (validate_acyclic_graph_cases _ Hc) as [[_ Hacc]|[Hx _]];
      [|unfold validate_invocation_graph in Hg; congruence].
    intros d. induction (Hacc d) as [d _ IH]. constructor. intros t Ht. apply IH.
    unfold flip in *. by apply definition_invokes_edge; [apply Ha|].
  - intros d t Hi. apply definition_invokes_edge in Hi; [|apply Ha].
    by apply invocation_graph_dom, (Hc _ _ Hi).
Qed.
End Candidates.

(** C38: the iterative depth-first search with its explicit stack accepts a closed graph exactly
    when it has no cycle and fails with a validation error exactly when it has one; it always
    returns. *)
Theorem acyclic_check_exact g :
  closed g →
  (validate_acyclic_graph g = Ok () ↔ ¬ cyclic g)
  ∧ (validate_acyclic_graph g = Err Validation ↔ cyclic g).
Proof.
  intros Hc. destruct (validate_acyclic_graph_cases g Hc) as [[-> Hacc]|[-> Hcy]].
  - assert (Hn : ¬ cyclic g) by (intros [d Hd]; by apply (acc_no_cycle g d (Hacc d))).
    by split.
  - by split.
Qed.

Section Sealing.
Context `{SchemaCompiler} `{Sha256} `{JsonLibrary} `{PlanCodec}.

(** A plan sealed from a candidate verifies: its candidate is the canonical form of the
    given one, is well formed, and its identity is recomputed by SealedPlan::verify; the
    hypothesis states the serde round trip of the candidate. *)
Theorem sealed_plan_verifies c p :
  (* [serde] round trip: the decoded candidate serialises to the bytes it was read from *)
  (∀ c', canonical_plan_candidate c = Ok c' →
    canonical_bytes (serialize_plan c') = canonical_bytes (serialize_plan c)) →
  seal_plan c = Ok p →
  SealedPlan_verify p = Ok () ∧ candidate_wf (candidate p)
  ∧ canonical_plan_candidate c = Ok (candidate p).
Proof.
  intros Hcodec Hs. unfold seal_plan in Hs. apply bind_Ok in Hs as (c' & Hc & Hs).
  assert (Heq : (if decide (c' = c) then c else c') = c') by (by case_decide). rewrite Heq in Hs.
  apply bind_Ok in Hs as ([] & Hv & Hs). apply bind_Ok in Hs as (id & Hid & Hs).
  injection Hs as <-. cbn. split; [|split; [by apply candidate_validate_exact|done]].
  unfold SealedPlan_verify. cbn [candidate plan_id].
  assert (Hn : canonical_plan_candidate c' = Ok c').
  { unfold canonical_plan_candidate in *. by rewrite (Hcodec c' Hc). }
  rewrite Hn, Hv, Hid. cbn. by rewrite !bool_decide_eq_true_2.
Qed.
End Sealing.

(** ** Witnesses *)

Lemma sample_valid : PlanCandidate_validate sample_candidate = Ok ().
Proof. vm_compute. reflexivity. Qed.

Lemma admitted_invocations_terminate_witness :
  PlanCandidate_validate sample_candidate = Ok ()
  ∧ well_founded (flip (definition_invokes sample_candidate)).
Proof.
  split; [exact sample_valid|].
  exact (proj1 (admitted_invocations_terminate sample_candidate sample_valid)).
Defined.

Lemma acyclic_check_exact_witness : ¬ cyclic (invocation_graph (definitions sample_candidate)).
Proof.
  pose proof (validate_admitted _ sample_valid) as Ha.
  apply (proj1 (acyclic_check_exact _ (admitted_closed _ Ha))). exact (admitted_graph _ Ha).
Defined.

Lemma sample_canonical_plan : canonical_plan_candidate sample_candidate = Ok sample_candidate.
Proof. vm_compute. reflexivity. Qed.
Lemma sample_sealed : is_Some (match seal_plan sample_candidate with Ok p => Some p | Err _ => None end).
Proof. vm_compute. by eexists. Qed.
Lemma sealed_plan_verifies_witness :
  ∃ p, seal_plan sample_candidate = Ok p ∧ SealedPlan_verify p = Ok ().
Proof.
  pose proof sample_sealed as Hs.
  destruct (seal_plan sample_candidate) as [p|] eqn:Hp; [|destruct Hs as [? Hs]; discriminate Hs].
  exists p. split; [reflexivity|]. refine (proj1 (sealed_plan_verifies sample_candidate p _ Hp)).
  intros c' Hc. rewrite sample_canonical_plan in Hc. injection Hc as <-. reflexivity.
Defined.
