(* ===== verification/ArchiveTheorems.v ===== *)
(** * What the command index and the archive guarantee

    Properties of the proofs of the command index and of the segments, proofs and
    nodes of the command archive of [crates/cymule-core/src/machine.rs], with
    witnesses on the hash function of [Samples] and on the first two commands of
    its script. *)

From stdpp Require Import pretty.
From S2P Require Import Prelude Identity CommandIndex IndexSound IndexUpdate Canonical Ir Model.
From S2P Require Import Events Chain Machine Archive ChainInv CollectionHash SparseTree.
From S2P Require Import SparseProof SparseSound SparseResolve ArchiveIndex ArchiveMember Samples.

Section Theorems.
Context `{Sha256}.

(** Two proofs of the command index that verify against one root agree on the value of a
    command, membership and absence included, unless their hash inputs contain a SHA-256
    collision. *)
Theorem index_proofs_agree p q root :
  IndexProof_verify p root = Ok () → IndexProof_verify q root = Ok () →
  ip_command_id p = ip_command_id q → collision_free (proof_inputs p ++ proof_inputs q) →
  ip_value p = ip_value q.
Proof.
  intros Hp Hq Hid Hc. destruct (ip_value p) as [v|] eqn:Hv.
  - symmetry. by eapply (member_agrees p q).
  - destruct (ip_value q) as [w|] eqn:Hw; [|done]. rewrite <-Hv.
    apply (member_agrees q p root w); [done|done|done| |done].
    intros x y Hx Hy. apply Hc; apply elem_of_app; apply elem_of_app in Hx, Hy; tauto.
Qed.

(** The root computed from a non-membership proof and a new value is the root of the tree
    with this value: the proof with the value and the materialised path verifies against it at
    full depth. *)
Theorem index_insertion_proves_membership p v root :
  ip_value p = None → root_with_value p (Some v) = Ok root →
  ∃ q, IndexProof_verify q root = Ok () ∧ ip_command_id q = ip_command_id p
    ∧ ip_value q = Some v ∧ length (siblings q) = COMMAND_INDEX_DEPTH.
Proof.
  intros Hn Hr. destruct (inserted_proof_verifies _ _ _ Hn Hr) as (path & Hp & Hv).
  exists (inserted_proof p v path). split; [done|]. split; [done|]. split; [done|].
  destruct (root_with_new_value _ _ _ Hn Hr) as (key & path' & _ & Hp' & Hl & _).
  rewrite Hp in Hp'. by injection Hp' as <-.
Qed.
End Theorems.

(** ** Witnesses *)

Definition sample_absent : MachineCommandIndexProof :=
  {| proof_version := COMMAND_INDEX_PROOF_VERSION; ip_command_id := "command"; ip_value := None;
     empty_depth := Some 256%N; siblings := replicate 256 (sample_id "sibling") |}.
Definition sample_index_value : MachineCommandIndexValue :=
  {| iv_admission_id := sample_id "admission"; iv_archive_entry_digest := sample_id "entry" |}.
(** The proof after the insertion. *)
Definition sample_member (path : list string) : MachineCommandIndexProof :=
  inserted_proof sample_absent sample_index_value path.
Lemma sample_insertion :
  match root_with_value sample_absent (Some sample_index_value), full_path sample_absent with
  | Ok root, Ok path => collision_check (proof_inputs (sample_member path))
  | _, _ => false
  end = true.
Proof. vm_cast_no_check (eq_refl true). Qed.

Lemma index_insertion_proves_membership_witness :
  ∃ root q, root_with_value sample_absent (Some sample_index_value) = Ok root
    ∧ IndexProof_verify q root = Ok () ∧ ip_value q = Some sample_index_value.
Proof.
  pose proof sample_insertion as Hs.
  destruct (root_with_value sample_absent (Some sample_index_value)) as [root|] eqn:Hr; [|discriminate Hs].
  destruct (index_insertion_proves_membership sample_absent sample_index_value root eq_refl Hr)
    as (q & Hq & _ & Hv & _).
  exists root, q. split; [reflexivity|]. by split.
Defined.

Lemma index_proofs_agree_witness :
  ∃ p q root, IndexProof_verify p root = Ok () ∧ IndexProof_verify q root = Ok ()
    ∧ ip_value p = Some sample_index_value ∧ ip_value p = ip_value q.
Proof.
  pose proof sample_insertion as Hs.
  destruct (root_with_value sample_absent (Some sample_index_value)) as [root|] eqn:Hr; [|discriminate Hs].
  destruct (full_path sample_absent) as [path|] eqn:Hp; [|discriminate Hs].
  destruct (inserted_proof_verifies sample_absent sample_index_value root eq_refl Hr)
    as (path' & Hp' & Hv).
  rewrite Hp in Hp'. injection Hp' as <-.
  exists (sample_member path), (sample_member path), root.
  split; [exact Hv|]. split; [exact Hv|]. split; [reflexivity|].
  apply (index_proofs_agree (sample_member path) (sample_member path) root Hv Hv eq_refl).
  apply collision_check_sound in Hs. intros x y Hx Hy.
  apply Hs; apply elem_of_app in Hx, Hy; tauto.
Defined.

Section Theorems.
Context `{Sha256} `{Canonical} `{!MachineSerialize} `{!ArchiveSerialize}.

(** C32: a segment that verifies, whoever made it, extends the cumulative index by exactly its
    entries: if the parent root of its header authenticates some contents, its result root
    authenticates them with the entries of the segment added, unless hash inputs collide. *)
Theorem archived_segment_extends_index s c :
  Segment_verify s = Ok () → indexes (parent_command_index_root (header s)) c →
  collision_free (segment_inputs c s) →
  indexes (result_command_index_root (header s)) (extend c (archived s))
  ∧ (archived s).*1 = entry_command_id <$> segment_entries s.
Proof.
  intros Hs Hc Hcf. split; [by apply segment_extends|]. by apply Segment_verify_checked in Hs as [].
Qed.

(** compaction seals the hot tail of a machine: for entries with distinct keys and proofs
    of their absence under the root of the base, the sequential index updates can be derived,
    the segment built from them verifies, and its result root authenticates the contents of the
    base with the entries added, unless hash inputs collide. *)
Theorem compaction_seals_segment p batches entries proofs c items :
  archive_serialises → parent_ok p → hot_tail p batches entries →
  indexes (ap_command_index_root p) c → archive_items entries = Ok items →
  Forall (λ x, IndexValue_verify x.2 = Ok ()) items → NoDup (entry_key <$> entries) →
  Forall2 (absent_at (ap_command_index_root p)) entries proofs →
  collision_free (tree_inputs c ++ update_inputs proofs) →
  ∃ updates nodes s,
    sequential_command_index_updates (ap_command_index_root p) entries proofs
      = Ok (updates, nodes, result_command_index_root (header s))
    ∧ Segment_new p batches entries updates = Ok s ∧ Segment_verify s = Ok ()
    ∧ segment_entries s = entries ∧ segment_batches s = batches
    ∧ indexes (result_command_index_root (header s)) (extend c items).
Proof.
  intros Hser Hpo Hht Hc Hi Hv Hnd Hp Hcf.
  destruct (compaction_updates_Ok (ap_command_index_root p) c entries proofs items)
    as (updates & nodes & result & Hseq & Hlen & Happ & Hres & _); [done..|].
  destruct (compaction_Ok p batches entries updates items result c)
    as (s & Hnew & Hs & He & Hb & _ & _ & Hroot); [done..|].
  exists updates, nodes, s. rewrite Hroot. by split_and!.
Qed.

(** C33: after the nodes of a verified segment are added to a store that serves the index before
    it, every command with a valid identifier, whose index key no other archived command has,
    resolves against the result root: to a proof that verifies and states the archived value of
    the command, or its absence when it has none; the hash inputs of the index and of the
    segment are assumed free of collisions. *)
Theorem archived_commands_resolve {L} (load : L → string → core (option MachineCommandIndexNode) * L)
    store s c l :
  Segment_verify s = Ok () → contents_wf c l →
  index_root c = Ok (parent_command_index_root (header s)) → serves store c l →
  collision_free (segment_inputs c s) →
  ∃ nodes, command_index_node_map s = Ok nodes ∧
    ((∀ st i, fst (load st i) = Ok ((nodes ∪ store) !! i)) →
     ∀ cid st, is_ok (command_index_key cid) = true → key_free (extend c (archived s)) cid →
     ∃ p st', resolve_machine_command_index_proof load (result_command_index_root (header s)) cid st
         = (Ok p, st')
       ∧ ip_command_id p = cid
       ∧ IndexProof_verify p (result_command_index_root (header s)) = Ok ()
       ∧ match ip_value p with
         | Some v => (cid, v) ∈ extend c (archived s)
         | None => cid ∉ (extend c (archived s)).*1
         end).
Proof.
  intros Hs Hw Hr Hsv Hcf. destruct (Segment_verify_checked s Hs) as [_ Hl _ _ Ha Hi _ _].
  destruct (fold_nodes_serve (segment_inputs c s) _ _ c l _ (archived s) _ ∅ store Hcf (λ x Hx, Hx)
    Hw Hr Ha Hl Hi) as (nodes & l' & Hfold & Hw' & Hr' & Hsv'); [done|by rewrite (left_id_L ∅ (∪))|].
  exists nodes. split; [unfold command_index_node_map; by rewrite Hs|].
  intros Hload cid st Hkey Hfree. destruct (command_index_key cid) as [key|] eqn:Hk; [|done].
  destruct (resolve_Ok load (nodes ∪ store) Hload (extend c (archived s)) l' cid key
    (result_command_index_root (header s)) st Hw' Hsv')
    as (p & st' & Hres & Hid & Hf); [|done..|].
  { eapply collision_free_subset, Hcf. intros x Hx. apply elem_of_app. left. by apply stage_inputs_last. }
  exists p, st'. split; [done|]. split; [done|]. split; [by eapply faithful_verifies|].
  destruct (ip_value p) as [v|] eqn:Hv.
  - rewrite <-Hid. by eapply faithful_member.
  - rewrite <-Hid, list_elem_of_fmap. intros ([did v] & Heq & Hin). cbn in Heq. rewrite <-Heq in Hin.
    by eapply faithful_absent in Hin.
Qed.

(** C34: the membership of an archived command can be proved against the root of the last of the
    verified segments that follow it: command_index_proof succeeds, its proof verifies there and
    states the value of the entry, provided that the parent root of the first segment
    authenticates some contents and that the hash inputs of the chain do not collide. *)
Theorem archived_command_stays_provable s target e v ds c :
  Segment_verify s = Ok () → indexes (parent_command_index_root (header s)) c →
  segment_entries s !! target = Some e → command_index_entry_value e = Ok v →
  linked (header s) ds → collision_free (chain_inputs c (s :: ds)) →
  ∃ p, command_index_proof s target ds = Ok p ∧ ip_command_id p = entry_command_id e
    ∧ ip_value p = Some v
    ∧ IndexProof_verify p (result_command_index_root (last_header (header s) ds)) = Ok ().
Proof.
  intros Hs Hc He Hv Hlink Hcf.
  destruct (command_index_proof_Ok s target e v ds c) as (p & ? & ? & ? & ? & _); [done..|].
  by exists p.
Qed.

(** A verified segment can prove the inclusion of each of its entries, and the
    proof passes [verify_entry]. *)
Theorem command_proof_verifies s index e :
  Segment_verify s = Ok () → segment_entries s !! index = Some e →
  ∃ p, command_proof s index = Ok p ∧ acp_entry p = e ∧ entry_index p = N.of_nat index
    ∧ ArchivedCommandProof_verify_entry p = Ok ().
Proof.
  intros Hs He. destruct (command_proof_Ok s index e Hs He) as (p & level & d & Hp & Hpe & Hi & _ & Hv & _).
  exists p. by split_and!.
Qed.

(** C35: a proof of inclusion that passes verify_entry under the header of a verified segment,
    whoever made it, is about the entry at its index: their leaves have the same digest, unless
    two hashed pairs collide. *)
Theorem archived_proof_binds_entry s p :
  Segment_verify s = Ok () → ArchivedCommandProof_verify_entry p = Ok () → acp_segment p = header s →
  merkle_collision_free (segment_pairs s ++ proof_pairs p) →
  ∃ e u digest, segment_entries s !! N.to_nat (entry_index p) = Some e
    ∧ command_index_updates s !! N.to_nat (entry_index p) = Some u
    ∧ command_archive_leaf_digest (acp_entry p) (acp_command_index_update p) = Ok digest
    ∧ command_archive_leaf_digest e u = Ok digest.
Proof.
  intros Hs Hp Hh Hcf. pose proof (Segment_verify_checked s Hs) as Hc. pose proof (sc_lengths s Hc) as Hl.
  unfold ArchivedCommandProof_verify_entry in Hp. rewrite Hh in Hp.
  do 3 apply bind_Ok in Hp as (? & _ & Hp). apply bind_Ok in Hp as (? & Hidx & Hp).
  apply bind_Ok in Hp as (? & _ & Hp). apply bind_Ok in Hp as (? & _ & Hp).
  apply bind_Ok in Hp as (digest & Hdig & Hp). apply bind_Ok in Hp as ([[d i'] w] & Hfold & Hp).
  apply require_Ok in Hidx, Hp. to_prop. subst.
  rewrite <-(sc_count s Hc) in *. rewrite Nat2N.id in Hfold.
  assert (N.to_nat (entry_index p) < length (segment_entries s)) as Hlt by lia.
  assert (segment_entries s ≠ []) as Hne by (intros Hnil; rewrite Hnil in Hlt; cbn in Hlt; lia).
  destruct (merkle_root_levels _ _ _ Hne (sc_merkle s Hc))
    as (level & Hlevel & Hreduce).
  destruct (archive_leaves_Ok _ _ _ Hlevel Hl) as (Hlen & _ & Hat). rewrite <-Hlen in Hfold, Hlt.
  assert (level !! N.to_nat (entry_index p) = Some digest) as Hd.
  { eapply (path_binds (segment_pairs s ++ proof_pairs p) (length level) level); [done| | |done|done|exact Hfold|done].
    - intros y Hy. apply elem_of_app. left. unfold segment_pairs. by rewrite Hlevel.
    - intros y Hy. apply elem_of_app. right. unfold proof_pairs. by rewrite Hdig. }
  destruct (lookup_lt_is_Some_2 (segment_entries s) (N.to_nat (entry_index p))) as [e He]; [lia|].
  destruct (lookup_lt_is_Some_2 (command_index_updates s) (N.to_nat (entry_index p))) as [u Hu]; [lia|].
  destruct (Hat _ e u He Hu) as (d & Hd' & Hdig'). exists e, u, digest. split_and!; [done..|]. congruence.
Qed.
End Theorems.

(** ** Witnesses *)

Lemma sample_archive_serialises : archive_serialises.
Proof.
  intros domain v. unfold archive_content_id, content_id_of, canonical_bytes.
  cbn [serialize_archive sample_archive_serialize]. generalize (archive_text v). intros s. cbn.
  by rewrite bool_decide_eq_true_2.
Qed.

(** The machine after the first two commands of the script, and its hot tail
    as entries of an archive. *)
Definition hot_machine : option Machine :=
  match staged_machine with Ok m => trace m (take 2 script) !! 2 | Err _ => None end.
Definition hot_entry (m : Machine) (a : CommandAdmission) : option MachineCommandArchiveEntry :=
  r ← commands m !! adm_command_id a;
  Some {| entry_admission := a; entry_command := r;
          entry_events := omap (λ i, events m !! i) (adm_event_ids a) |}.
Record HotTail := {
  hot_batches : list MachineCommandBatchRecord;
  hot_entries : list MachineCommandArchiveEntry;
  hot_proofs : list MachineCommandIndexProof;
}.
Definition tail_of (m : Machine) (n : nat) : HotTail :=
  {| hot_batches := take n (omap (λ i, batches m !! i) (batch_order m));
     hot_entries := take n (omap (hot_entry m) (admissions m));
     hot_proofs := take n (omap (λ a, command_index_proofs m !! adm_command_id a) (admissions m)) |}.
Definition genesis_parent (root : string) : MachineCommandArchiveParent :=
  {| ap_segment := None; ap_count := 0; ap_event_count := 0; ap_admission_head := None;
     ap_command_index_root := root |}.

(** The conditions of [compaction_seals_segment] over an empty base, evaluated. *)
Definition tail_check (t : HotTail) : bool :=
  let p := genesis_parent EmptyString in
  negb (bool_decide (hot_batches t = []))
  && is_ok (m ← try_fold insert_batch ∅ (hot_batches t);
            try_each (λ e, b ← ok_or ((m : gmap string MachineCommandBatchRecord)
                                        !! batch_id (entry_command e)) NotFound;
                           BatchRecord_verify_entry b e) (hot_entries t))
  && bool_decide ((hot_batches t ≫= λ b, member_command_id <$> members b)
                  = (λ e, command_id (envelope (entry_command e))) <$> hot_entries t)
  && is_ok (try_fold verify_archived_admission (ap_count p + 1, ap_admission_head p)%N (hot_entries t))
  && match archive_items (hot_entries t) with
     | Ok items => forallb (λ x, is_ok (IndexValue_verify x.2)) items
     | Err _ => false
     end.
(** The proofs are those of a machine without a base. *)
Definition proof_check (ep : MachineCommandArchiveEntry * MachineCommandIndexProof) : bool :=
  is_ok (entry_key ep.1)
  && bool_decide (empty_nonmembership (entry_command_id ep.1) = Ok ep.2).
Definition sealing_check (t : HotTail) : bool :=
  tail_check t && (length (hot_entries t) =? length (hot_proofs t))
  && forallb proof_check (zip (hot_entries t) (hot_proofs t))
  && bool_decide (NoDup (entry_key <$> hot_entries t))
  && (length (hot_entries t) <=? 2) && (length (hot_batches t) <=? 2).

Lemma genesis_ok root : empty_root = Ok root → parent_ok (genesis_parent root).
Proof.
  intros Hr. split; [intros _; exact Hr|apply N.le_refl|intros _; reflexivity|split; intros _; reflexivity|].
  split; reflexivity.
Qed.
Lemma forallb_is_ok (items : contents) :
  forallb (λ x, is_ok (IndexValue_verify x.2)) items = true →
  Forall (λ x, IndexValue_verify x.2 = Ok ()) items.
Proof.
  rewrite forallb_Forall. intros Hall. eapply Forall_impl; [exact Hall|]. intros x. cbv beta. by destruct (IndexValue_verify x.2) as [[]|].
Qed.
Lemma sealing_check_sound root t :
  empty_root = Ok root → sealing_check t = true →
  hot_tail (genesis_parent root) (hot_batches t) (hot_entries t)
  ∧ (∃ items, archive_items (hot_entries t) = Ok items
      ∧ Forall (λ x, IndexValue_verify x.2 = Ok ()) items)
  ∧ NoDup (entry_key <$> hot_entries t)
  ∧ Forall2 (absent_at root) (hot_entries t) (hot_proofs t)
  ∧ (∀ x, x ∈ update_inputs (hot_proofs t) → x ∈ tree_inputs []).
Proof.
  unfold sealing_check, tail_check. intros Hr Hc. rewrite !andb_true_iff in Hc.
  destruct Hc as [[[[[Htail Hlen] Hproofs] Hnd] Hn] Hb]. destruct Htail as [[[[Hne Hver] Hids] Hchain] Hitems].
  apply Nat.eqb_eq in Hlen. apply Nat.leb_le in Hn, Hb. apply bool_decide_eq_true in Hnd, Hids.
  apply negb_true_iff, bool_decide_eq_false in Hne. apply is_ok_Ok in Hchain as [last Hlast].
  apply is_ok_Ok in Hver as [[] Hver]. apply bind_Ok in Hver as (m & Hm & Heach).
  rewrite forallb_Forall in Hproofs.
  assert (Forall2 (λ e p, proof_check (e, p) = true) (hot_entries t) (hot_proofs t)) as Hall.
  { apply Forall2_same_length_lookup_2; [done|]. intros i e q He Hq. rewrite Forall_lookup in Hproofs.
    apply (Hproofs i). rewrite lookup_zip_with, He, Hq. done. }
  split; [|split; [|split; [done|split]]].
  - split; [done|eauto|done|eauto|]. unfold MAX_EXACT_INTEGER. cbn. lia.
  - destruct (archive_items (hot_entries t)) as [items|]; [|done]. exists items. by split; [|apply forallb_is_ok].
  - eapply Forall2_impl; [exact Hall|]. intros e q. cbv beta. unfold proof_check. rewrite andb_true_iff, bool_decide_eq_true.
    intros [Hk Hq]. cbn [fst snd] in *. destruct (empty_nonmembership_verifies _ _ Hq) as (r & Hr' & Hv).
    rewrite Hr in Hr'. injection Hr' as <-. unfold empty_nonmembership in Hq.
    apply bind_Ok in Hq as ([] & _ & [= <-]). by split_and!.
  - intros x (q & Hx & Hq)%list_elem_of_bind. apply list_elem_of_lookup in Hq as [i Hq].
    apply Forall2_lookup_r with (i := i) (y := q) in Hall as (e & He & Hall); [|done].
    unfold proof_check in Hall. rewrite andb_true_iff, bool_decide_eq_true in Hall. destruct Hall as [_ Hall].
    cbn [fst snd] in *. unfold empty_nonmembership in Hall. apply bind_Ok in Hall as ([] & _ & [= <-]).
    eapply empty_proof_inputs; [| |exact Hx]; reflexivity.
Qed.

(** The tail of the sample machine meets the conditions, and the trees over
    its commands hash no two strings alike. *)
Definition sample_ok (t : HotTail) : bool :=
  sealing_check t && (length (hot_entries t) =? 2)
  && match archive_items (hot_entries t) with
     | Ok items => collision_check (stage_inputs [] items)
     | Err _ => false
     end.
Lemma sample_tail_ok :
  match hot_machine with Some m => sample_ok (tail_of m 2) | None => false end = true.
Proof. vm_cast_no_check (eq_refl true). Qed.

Record sample_facts (t : HotTail) (root : string) (items : contents) : Prop := {
  sf_root : empty_root = Ok root;
  sf_tail : hot_tail (genesis_parent root) (hot_batches t) (hot_entries t);
  sf_items : archive_items (hot_entries t) = Ok items;
  sf_values : Forall (λ x, IndexValue_verify x.2 = Ok ()) items;
  sf_keys : NoDup (entry_key <$> hot_entries t);
  sf_absent : Forall2 (absent_at root) (hot_entries t) (hot_proofs t);
  sf_stages : collision_free (stage_inputs [] items);
  sf_base : collision_free (tree_inputs [] ++ update_inputs (hot_proofs t));
  sf_length : length (hot_entries t) = 2;
}.
Lemma sample_facts_hold : ∃ t root items, sample_facts t root items.
Proof.
  pose proof sample_tail_ok as Hs. destruct hot_machine as [m|]; [|discriminate Hs].
  unfold sample_ok in Hs. rewrite !andb_true_iff in Hs. destruct Hs as [[Hs Hlen] Hc].
  apply Nat.eqb_eq in Hlen. destruct empty_root_Ok as [root Hr].
  destruct (sealing_check_sound root (tail_of m 2) Hr Hs) as (Hht & (items & Hi & Hv) & Hnd & Hp & Hin).
  rewrite Hi in Hc. apply collision_check_sound in Hc. exists (tail_of m 2), root, items.
  refine (Build_sample_facts _ _ _ Hr Hht Hi Hv Hnd Hp Hc _ Hlen).
  eapply collision_free_subset; [|exact Hc]. intros x Hx. apply stage_inputs_first.
  apply elem_of_app in Hx as [Hx|Hx]; [exact Hx|exact (Hin x Hx)].
Qed.

Lemma compaction_seals_segment_witness : ∃ root batches entries proofs updates nodes s,
  length entries = 2
  ∧ sequential_command_index_updates root entries proofs
      = Ok (updates, nodes, result_command_index_root (header s))
  ∧ Segment_new (genesis_parent root) batches entries updates = Ok s ∧ Segment_verify s = Ok ().
Proof.
  destruct sample_facts_hold as (t & root & items & [Hr Hht Hi Hv Hnd Hp _ Hcf Hlen]).
  destruct (compaction_seals_segment (genesis_parent root) _ _ _ [] items sample_archive_serialises
    (genesis_ok root Hr) Hht (empty_indexes root Hr) Hi Hv Hnd Hp Hcf) as (us & nodes & s & Hseq & Hnew & Hok & _).
  exists root, (hot_batches t), (hot_entries t), (hot_proofs t), us, nodes, s.
  split; [exact Hlen|]. split; [exact Hseq|]. split; [exact Hnew|exact Hok].
Defined.

(** The segment of the sample. *)
Lemma sample_segment : ∃ s e0 e1, Segment_verify s = Ok () ∧ segment_entries s = [e0; e1]
  ∧ indexes (parent_command_index_root (header s)) [] ∧ collision_free (segment_inputs [] s)
  ∧ is_ok (entry_key e1) = true ∧ key_free (extend [] (archived s)) (entry_command_id e1).
Proof.
  destruct sample_facts_hold as (t & root & items & [Hr Hht Hi Hv Hnd Hp Hst Hcf Hlen]).
  pose proof (empty_indexes root Hr) as Hroot.
  destruct (compaction_updates_Ok root [] _ _ items Hroot Hi Hv Hnd Hp Hcf)
    as (us & nodes & result & Hseq & Hl & Happ & Hres & Hin).
  destruct (compaction_Ok (genesis_parent root) _ _ us items result [] sample_archive_serialises
    (genesis_ok root Hr) Hht Hroot Hl Happ Hres Hi) as (s & _ & Hok & He & _ & Hu & Hpr & _).
  destruct (hot_entries t) as [|e0 [|e1 [|]]] eqn:Ht; try discriminate Hlen.
  assert (archived s = items) as Ha by (unfold archived; by rewrite He, Hi).
  exists s, e0, e1. split; [exact Hok|]. split; [exact He|]. split; [rewrite Hpr; exact Hroot|]. split; [|split].
  - unfold segment_inputs. rewrite Ha, Hu. eapply collision_free_subset; [|exact Hst]. intros x.
    rewrite elem_of_app. intros [Hx|Hx]; [exact Hx|exact (Hin x Hx)].
  - destruct (Forall2_lookup_l _ _ _ 1 e1 Hp eq_refl) as (q & _ & Hq & _). exact Hq.
  - intros did v key Hd Hk1 Hk2. rewrite Ha in Hd. unfold extend in Hd.
    rewrite rev_append_rev, app_nil_r, list_elem_of_In, <-in_rev, <-list_elem_of_In in Hd.
    assert (did ∈ [entry_command_id e0; entry_command_id e1]) as Hid.
    { pose proof (sc_ids s (Segment_verify_checked s Hok)) as Hids. rewrite Ha, He in Hids.
      cbn [fmap list_fmap] in Hids. rewrite <-Hids. apply list_elem_of_fmap. exists (did, v).
      split; [reflexivity|exact Hd]. }
    rewrite !elem_of_cons, elem_of_nil in Hid. destruct Hid as [->|[->|[]]]; [|reflexivity].
    rewrite !fmap_cons in Hnd. apply NoDup_cons in Hnd as [Hne _]. destruct Hne. unfold entry_key.
    rewrite Hk1, Hk2. by left.
Qed.

Lemma command_proof_verifies_witness : ∃ s p, length (segment_entries s) = 2
  ∧ command_proof s 1 = Ok p ∧ ArchivedCommandProof_verify_entry p = Ok ().
Proof.
  destruct sample_segment as (s & e0 & e1 & Hs & He & _).
  destruct (command_proof_verifies s 1 e1 Hs) as (p & Hp & _ & _ & Hv); [rewrite He; reflexivity|].
  exists s, p. split; [rewrite He; reflexivity|]. split; [exact Hp|exact Hv].
Defined.

(** The one pair over two leaves. *)
Lemma two_leaves_pairs d0 d1 path :
  path_levels 2 [d0; d1] 1 = Ok path →
  ∀ x, x ∈ reduce_pairs 2 [d0; d1] ++ path_pairs d1 path → x = (d0, d1).
Proof.
  cbn -[command_archive_merkle_parent]. intros Hp.
  destruct (command_archive_merkle_parent d0 d1) as [p|] eqn:Hpar; [|discriminate Hp].
  cbn in Hp. injection Hp as <-. cbn -[command_archive_merkle_parent]. rewrite Hpar.
  cbn -[command_archive_merkle_parent]. intros x. rewrite !elem_of_cons, elem_of_nil. tauto.
Qed.
Lemma archived_proof_binds_entry_witness : ∃ s p digest e u,
  ArchivedCommandProof_verify_entry p = Ok () ∧ segment_entries s !! 1 = Some e
  ∧ command_archive_leaf_digest (acp_entry p) (acp_command_index_update p) = Ok digest
  ∧ command_archive_leaf_digest e u = Ok digest.
Proof.
  destruct sample_segment as (s & e0 & e1 & Hs & He & _).
  destruct (command_proof_Ok s 1 e1 Hs) as (p & level & d & _ & _ & Hi & Hseg & Hv & Hlevel & Hd & Hdig & Hpath);
    [rewrite He; reflexivity|].
  destruct (archived_proof_binds_entry s p Hs Hv Hseg) as (e & u & digest & He' & _ & Hd1 & Hd2).
  - destruct (archive_leaves_Ok _ _ _ Hlevel) as (Hlen & _ & _);
      [apply sc_lengths, Segment_verify_checked, Hs|].
    unfold segment_pairs, proof_pairs. rewrite Hlevel, Hdig.
    rewrite He in Hlen. destruct level as [|d0 [|d1 [|]]]; try discriminate Hlen.
    injection Hd as <-. pose proof (two_leaves_pairs d0 d1 _ Hpath) as Hone.
    intros x y _ Hx Hy _ _. rewrite (Hone x Hx), (Hone y Hy). reflexivity.
  - rewrite Hi in He'. exists s, p, digest, e, u. split; [exact Hv|]. split; [exact He'|]. split; [exact Hd1|exact Hd2].
Defined.

Lemma archived_segment_extends_index_witness : ∃ s e0 e1,
  Segment_verify s = Ok () ∧ segment_entries s = [e0; e1]
  ∧ indexes (result_command_index_root (header s)) (extend [] (archived s))
  ∧ (archived s).*1 = [entry_command_id e0; entry_command_id e1].
Proof.
  destruct sample_segment as (s & e0 & e1 & Hs & He & Hroot & Hcf & _).
  destruct (archived_segment_extends_index s [] Hs Hroot Hcf) as [Hi Hids].
  exists s, e0, e1. split; [exact Hs|]. split; [exact He|]. split; [exact Hi|].
  rewrite Hids, He. reflexivity.
Defined.

(** A store that holds the nodes of one segment. *)
Definition segment_load (s : MachineCommandArchiveSegment) (st : ()) (i : string)
    : core (option MachineCommandIndexNode) * () :=
  (Ok ((match command_index_node_map s with Ok nodes => nodes | Err _ => ∅ end) !! i), st).
Lemma archived_commands_resolve_witness : ∃ s e0 e1 p,
  Segment_verify s = Ok () ∧ segment_entries s = [e0; e1]
  ∧ fst (resolve_machine_command_index_proof (segment_load s) (result_command_index_root (header s))
           (entry_command_id e1) ()) = Ok p
  ∧ IndexProof_verify p (result_command_index_root (header s)) = Ok ().
Proof.
  destruct sample_segment as (s & e0 & e1 & Hs & He & [_ Hroot] & Hcf & Hk & Hfree).
  destruct (archived_commands_resolve (segment_load s) ∅ s [] [] Hs) as (nodes & Hn & Hall);
    [split; [reflexivity|constructor]|exact Hroot| |exact Hcf|].
  { split; [intros key d a b r _ _ []; apply sub_nil|intros ? ? ? ? Hin; inversion Hin]. }
  destruct (Hall ltac:(intros st i; unfold segment_load; rewrite Hn, (right_id_L ∅ (∪)); reflexivity)
    (entry_command_id e1) () Hk Hfree) as (p & st' & Hres & _ & Hv & _).
  exists s, e0, e1, p. split; [exact Hs|]. split; [exact He|]. rewrite Hres. split; [reflexivity|exact Hv].
Defined.

Lemma archived_command_stays_provable_witness : ∃ s e0 e1 v p,
  Segment_verify s = Ok () ∧ segment_entries s = [e0; e1] ∧ command_index_entry_value e0 = Ok v
  ∧ command_index_proof s 0 [] = Ok p ∧ ip_value p = Some v
  ∧ IndexProof_verify p (result_command_index_root (header s)) = Ok ().
Proof.
  destruct sample_segment as (s & e0 & e1 & Hs & He & Hroot & Hcf & _).
  pose proof (sc_items s (Segment_verify_checked s Hs)) as Hi. rewrite He in Hi.
  unfold archive_items, entry_item in Hi. cbn [try_map] in Hi.
  destruct (command_index_entry_value e0) as [v|] eqn:Hv; [|discriminate Hi].
  destruct (archived_command_stays_provable s 0 e0 v [] [] Hs Hroot) as (p & Hp & _ & Hval & Hver);
    [rewrite He; reflexivity|exact Hv|exact I| |].
  { cbn [chain_inputs]. rewrite app_nil_r. exact Hcf. }
  exists s, e0, e1, v, p. split; [exact Hs|]. split; [exact He|]. split; [exact Hv|].
  split; [exact Hp|]. split; [exact Hval|exact Hver].
Defined.
