(* ===== verification/CompactionTheorems.v ===== *)
(** * What compaction guarantees

    Properties of the two compactions of [Compaction] on reachable machines:
    nothing of the history is lost, every command is answered as before, an
    archived command is not admitted again, and a compaction that has passed
    its checks completes.  The witnesses compact the machine of [Samples] after
    two commands. *)

From S2P Require Import Prelude KeyIndex Identity CommandIndex IndexSound IndexUpdate Canonical.
From S2P Require Import Ir Model Events Chain Machine Location Effects DerivedIndex Reducer.
From S2P Require Import Verify Authority Archive Compaction Admission Submit MachineInv ChainInv.
From S2P Require Import CollectionHash SparseTree SparseProof SparseSound ArchiveIndex.
From S2P Require Import CompactionInv ArchiveMember Samples ArchiveTheorems.

Section Theorems.
Context `{Sha256} `{Canonical} `{!MachineSerialize} `{!ArchiveSerialize} `{!CompactionSerialize}
  `{SchemaCompiler} `{PlanCodec} `{!ValueSerialize}.

(** C5: compaction loses nothing: the projection and the authority root of the machine stay the
    same, the archived entries and the retained admissions are together the admissions from
    before, the archived and the retained events are together the events from before, the
    segment and the base verify, and the base points to the segment. *)
Theorem compaction_preserves_state m k m' report :
  reachable m → compact_event_history m k = Ok (m', report) →
  reachable m' ∧ projection m' = projection m ∧ authority_root m' = authority_root m
  ∧ (entry_admission <$> segment_entries (archive_segment report)) ++ admissions m' = admissions m
  ∧ (event_id <$> (segment_entries (archive_segment report) ≫= entry_events)) ++ event_order m'
    = event_order m
  ∧ length (event_order m') = k
  ∧ Segment_verify (archive_segment report) = Ok ()
  ∧ ∃ b, base m' = Some b ∧ Base_verify b = Ok ()
    ∧ archive_head b = segment_id (header (archive_segment report)).
Proof.
  intros Hr Hc. pose proof (reachable_full _ Hr) as Hm. pose proof (fi_nodup _ Hm) as Hnd.
  destruct (fi_closure _ Hm) as (old & evs & Hl & Hcl).
  destruct (compact_events_Ok _ _ _ _ _ _ Hm Hl Hnd Hc) as (c & a & b & Hp & Hcp & ->).
  pose proof (ep_base _ _ _ _ _ _ _ Hp) as Hpb.
  pose proof (ec_positive _ _ _ _ _ (ep_cut _ _ _ _ _ _ _ Hp)) as Hlen.
  destruct (pr_segment _ _ _ (ep_prepared _ _ _ _ _ _ _ Hp)) as (recs & es & Hn & He).
  rewrite (ns_entries _ _ _ _ Hn), (entries_events _ _ _ He), (pb_admissions _ _ _ _ _ _ Hpb).
  rewrite (cp_admissions _ _ _ _ _ Hcp), (cp_order _ _ _ _ _ Hcp), (lo_order _ _ _ Hl).
  split_and!.
  - destruct Hr as (m0 & Hm0 & Hs). exists m0. split; [done|]. eapply rtc_r; [exact Hs|].
    by eapply life_compact.
  - by apply Hcp.
  - exact (compacted_authority_root Hm Hnd Hl Hcp Hpb).
  - by rewrite (entries_admissions _ _ _ He), take_drop.
  - by rewrite fmap_take, take_drop.
  - rewrite length_drop, length_fmap. lia.
  - apply Hn.
  - exists b. split_and!; apply Hcp || apply Hp.
Qed.
(** The compaction of a tail without events loses nothing either: it archives every retained
    admission and leaves the projection, its root and the authority root as they are. *)
Theorem event_free_compaction_preserves_state m m' report :
  reachable m → compact_event_free_admissions m = Ok (m', report) →
  reachable m' ∧ projection m' = projection m ∧ authority_root m' = authority_root m
  ∧ entry_admission <$> segment_entries (archive_segment report) = admissions m
  ∧ admissions m' = [] ∧ event_order m = [] ∧ event_order m' = []
  ∧ Segment_verify (archive_segment report) = Ok ()
  ∧ ∃ b, base m' = Some b ∧ base_projection b = projection m.
Proof.
  intros Hr Hc. pose proof (reachable_full _ Hr) as Hm.
  destruct (fi_closure _ Hm) as (old & evs & Hl & Hcl).
  destruct (compact_free_Ok _ _ _ _ _ Hm Hl Hc) as (a & b & Hp & Hcp & ->).
  pose proof (fp_empty _ _ _ _ _ Hp) as Ho. pose proof (fp_base _ _ _ _ _ Hp) as Hpb.
  pose proof (fi_nodup _ Hm) as Hnd.
  destruct (pr_segment _ _ _ (fp_prepared _ _ _ _ _ Hp)) as (recs & es & Hn & He).
  rewrite (ns_entries _ _ _ _ Hn), (cp_admissions _ _ _ _ _ Hcp), (cp_order _ _ _ _ _ Hcp), Ho.
  split_and!; try done.
  - destruct Hr as (m0 & Hm0 & Hs). exists m0. split; [done|]. eapply rtc_r; [exact Hs|].
    by eapply life_compact_free.
  - by apply Hcp.
  - exact (compacted_authority_root Hm Hnd Hl Hcp Hpb).
  - by eapply entries_admissions.
  - apply drop_all.
  - apply Hn.
  - exists b. split; [apply Hcp|]. destruct (pb_base _ _ _ _ _ _ Hpb) as (Hre & _).
    pose proof (lo_replay _ _ _ Hl) as Hre'.
    assert (evs = []) as -> by (pose proof (lo_order _ _ _ Hl) as Heq; rewrite Ho in Heq; by destruct evs).
    rewrite take_nil in Hre. rewrite Hre in Hre'. by injection Hre'.
Qed.

(** The segment of a compaction joins the roots of the two bases. *)
Lemma compacted_segment m k m' report root :
  reachable m → compact_event_history m k = Ok (m', report) →
  current_command_index_root (base m) = Ok root →
  ∃ b, base m' = Some b ∧ Segment_verify (archive_segment report) = Ok ()
    ∧ parent_command_index_root (header (archive_segment report)) = root
    ∧ base_command_index_root b = result_command_index_root (header (archive_segment report)).
Proof.
  intros Hr Hc Hroot. pose proof (reachable_full _ Hr) as Hm. pose proof (fi_nodup _ Hm) as Hnd.
  destruct (fi_closure _ Hm) as (old & evs & Hl & _).
  destruct (compact_events_Ok _ _ _ _ _ _ Hm Hl Hnd Hc) as (ct & a & b & Hp & Hcp & ->).
  destruct (ep_prepared _ _ _ _ _ _ _ Hp) as [Hparent (recs & es & Hn & _) _].
  rewrite Hroot in Hparent. injection Hparent as ->. exists b.
  split; [apply Hcp|]. split; [apply Hn|]. split; [apply Hn|apply Hp].
Qed.

(** A member of the archive is answered with its receipt. *)
Lemma member_answered m env root proof entry v :
  commands m !! command_id env = None → current_command_index_root (base m) = Ok root →
  validate_envelope env = Ok () → IndexProof_verify proof root = Ok () →
  ip_command_id proof = command_id env → ip_value proof = Some v →
  ArchiveEntry_verify entry = Ok () → command_index_entry_value entry = Ok v →
  adm_command_id (entry_admission entry) = command_id env → envelope (entry_command entry) = env →
  submit_with_archive_lookup m env (ArchiveMember proof entry) = Ok (m, receipt (entry_command entry)).
Proof.
  intros Hn Hroot Henv Hv Hid Hval He Hev Hadm Heq. unfold submit_with_archive_lookup.
  pose proof He as Hrec. unfold ArchiveEntry_verify, verify_admission_record, verify_command_record in Hrec.
  apply bind_Ok in Hrec as ([] & Hrec & _). apply bind_Ok in Hrec as ([] & Hrec & _).
  apply bind_Ok in Hrec as ([] & _ & Hrec). apply bind_Ok in Hrec as (hash & Hh & Hrec).
  apply require_Ok in Hrec. to_prop. rewrite Heq in Hh. subst hash.
  unfold command_index_entry_value in Hev. apply bind_Ok in Hev as (digest & Hd & [= <-]).
  rewrite Henv, Hh, Hn, Hroot. cbn [mbind result_bind]. rewrite Hid, Hv, He, Hval, Hadm, Hd, Heq.
  cbn [mbind result_bind ok_or iv_admission_id iv_archive_entry_digest].
  by rewrite !(bool_decide_eq_true_2 (_ = _)) by done.
Qed.
(** An entry of a verified segment *)
Lemma segment_entry s target e :
  Segment_verify s = Ok () → segment_entries s !! target = Some e →
  ArchiveEntry_verify e = Ok () ∧ ∃ v, command_index_entry_value e = Ok v.
Proof.
  intros Hs He. destruct (segment_position s target e (Segment_verify_checked s Hs) He) as (Hv & _).
  split; [done|]. pose proof (sc_items s (Segment_verify_checked s Hs)) as Hi.
  apply try_map_Ok in Hi. destruct (Forall2_lookup_l _ _ _ _ _ Hi He) as (x & _ & Hx).
  unfold entry_item in Hx. apply bind_Ok in Hx as (v & Hx & _). eauto.
Qed.

(** C6: commands are answered across a compaction as before it: a retained command by submit,
    and an archived one, which submit refers to the archive, by submit_with_archive_lookup with
    its entry and the proof that command_index_proof derives from the segment; both give the
    receipt from before and change nothing, provided that the index root of the machine
    authenticates some contents and that no hash inputs of the segment collide. *)
Theorem compaction_answers_commands m k m' report env rec root c :
  reachable m → compact_event_history m k = Ok (m', report) →
  commands m !! command_id env = Some rec → envelope rec = env →
  current_command_index_root (base m) = Ok root → indexes root c →
  collision_free (segment_inputs c (archive_segment report)) →
  submit m env = Ok (m, receipt rec)
  ∧ match commands m' !! command_id env with
    | Some rec' => rec' = rec ∧ submit m' env = Ok (m', receipt rec)
    | None =>
        submit m' env = Err ArchivedCommandReplayRequired
        ∧ ∃ target entry proof, segment_entries (archive_segment report) !! target = Some entry
          ∧ command_index_proof (archive_segment report) target [] = Ok proof
          ∧ submit_with_archive_lookup m' env (ArchiveMember proof entry) = Ok (m', receipt rec)
    end.
Proof.
  intros Hr Hc Hrec Henv Hroot Hidx Hcf. pose proof (reachable_full _ Hr) as Hm.
  pose proof (fi_nodup _ Hm) as Hnd.
  destruct (fi_closure _ Hm) as (old & evs & Hl & Hcl).
  destruct (compact_events_Ok _ _ _ _ _ _ Hm Hl Hnd Hc) as (ct & a & b & Hp & Hcp & Hseg).
  pose proof (compacted_full Hm Hnd Hl Hcp (ep_base _ _ _ _ _ _ _ Hp) Hcl) as Hm'.
  destruct (ch_command _ (fi_chain _ Hm) _ _ Hrec) as [_ Hve Hh (ad & Hin & Hid & _) _].
  rewrite Henv in Hve, Hh. split; [by apply retained_replay|].
  pose proof (cp_commands _ _ _ _ _ Hcp (command_id env)) as Hk. case_decide as Harch.
  2: { rewrite Hk, Hrec. split; [done|]. apply retained_replay; [done| |done|done]. by rewrite Hk. }
  rewrite Hk. split.
  { unfold submit. rewrite Hve. cbn [mbind result_bind]. rewrite Hh. cbn [mbind result_bind].
    rewrite Hk, (cp_base _ _ _ _ _ Hcp). by rewrite decide_True by eauto. }
  apply list_elem_of_fmap in Harch as (ad' & Hid' & Hin'). apply list_elem_of_lookup in Hin' as [target Ht].
  pose proof (ep_prepared _ _ _ _ _ _ _ Hp) as [Hparent (recs & es & Hn & He) _].
  rewrite Hroot in Hparent. injection Hparent as Hparent.
  destruct (Forall2_lookup_l _ _ _ _ _ He Ht) as (e & Het & [Hea Hec _ _]).
  rewrite <-(ns_entries _ _ _ _ Hn), <-Hseg in Het. pose proof (ns_verify _ _ _ _ Hn) as Hs.
  rewrite <-Hseg in Hs. destruct (segment_entry _ _ _ Hs Het) as (Hev & v & Hv).
  rewrite <-Hid', Hrec in Hec. injection Hec as ->.
  destruct (command_index_proof_Ok (archive_segment report) target e v [] c)
    as (q & Hq & Hqi & Hqv & Hqver & _); [done| |done..| |].
  { rewrite Hseg, (ns_parent _ _ _ _ Hn). cbn. by rewrite <-Hparent. }
  { cbn [chain_inputs]. by rewrite app_nil_r. }
  exists target, e, q. split; [done|]. split; [done|].
  change (last_header ?h []) with h in Hqver. rewrite Hseg, <-(ep_result _ _ _ _ _ _ _ Hp) in Hqver.
  eapply member_answered; try done.
  - by rewrite (cp_base _ _ _ _ _ Hcp).
  - rewrite Hqi. unfold entry_command_id. by rewrite Hea.
  - by rewrite Hea.
Qed.

(** C7: a command that the archive holds cannot be admitted again: under a root against which a
    proof of its membership verifies, submit_with_archive_lookup accepts no proof of its
    absence, whoever made it, unless the hash inputs of the two proofs collide. *)
Theorem archived_command_not_readmitted m env root p q v :
  current_command_index_root (base m) = Ok root → commands m !! command_id env = None →
  IndexProof_verify q root = Ok () → ip_command_id q = command_id env → ip_value q = Some v →
  collision_free (proof_inputs p ++ proof_inputs q) →
  is_ok (submit_with_archive_lookup m env (NonMember p)) = false.
Proof.
  intros Hroot Hn Hq Hid Hv Hcf. destruct (submit_with_archive_lookup m env (NonMember p)) as [r|] eqn:Hs; [|done].
  unfold submit_with_archive_lookup in Hs. apply bind_Ok in Hs as ([] & _ & Hs).
  apply bind_Ok in Hs as (hash & _ & Hs). rewrite Hn, Hroot in Hs. cbn [mbind result_bind] in Hs.
  apply bind_Ok in Hs as ([] & Hp & Hs). apply bind_Ok in Hs as ([] & Hver & _).
  apply require_Ok in Hp. to_prop.
  assert (ip_value p = Some v); [|congruence]. eapply (member_agrees q p root v); try done; [congruence|].
  eapply collision_free_subset, Hcf. intros x. rewrite !elem_of_app. tauto.
Qed.
(** ** A checked compaction completes *)

Lemma apply_updates_values entries updates r r' items :
  try_fold apply_command_index_update r (zip entries updates) = Ok r' →
  length entries = length updates → archive_items entries = Ok items →
  Forall (λ x, IndexValue_verify x.2 = Ok ()) items.
Proof.
  revert updates r items. induction entries as [|e entries IH]; intros updates r items Ha Hl Hi;
    [by injection Hi as <-|].
  destruct updates as [|u updates]; [done|]. injection Hl as Hl. cbn [zip zip_with try_fold] in Ha.
  apply bind_Ok in Ha as (r1 & Ha & Hrest). unfold archive_items in Hi. cbn [try_map] in Hi.
  apply bind_Ok in Hi as (x & Hx & Hi). apply bind_Ok in Hi as (items' & Hi & [= <-]).
  unfold entry_item in Hx. apply bind_Ok in Hx as (v & Hv & [= <-]).
  unfold apply_command_index_update in Ha. apply bind_Ok in Ha as ([] & Hreq & Ha).
  apply bind_Ok in Ha as ([] & _ & Ha). rewrite Hv in Ha. cbn [mbind result_bind] in Ha.
  apply require_Ok in Hreq. to_prop.
  destruct (root_with_value_key u v r1) as (key & _ & Hvv); [done..|].
  constructor; [done|]. by eapply IH.
Qed.

(** A leaf that no item occupies. *)
Lemma slot_extend bits c items :
  (∀ x, x ∈ items → ∃ key, command_index_key x.1 = Ok key ∧ index_bits key ≠ bits) →
  slot_input bits (extend c items) = slot_input bits c.
Proof.
  revert c. induction items as [|[cid v] items IH]; intros c Hall; [done|].
  change (extend c ((cid, v) :: items)) with (extend ((cid, v) :: c) items).
  rewrite IH by (intros x Hx; apply Hall; by right).
  destruct (Hall (cid, v)) as (key & Hk & Hne); [by left|]. by eapply slot_insert_ne.
Qed.

(** The admitted commands have keys in the command index, which differ. *)
Definition keys_distinct (m : Machine) : Prop :=
  (∀ a, a ∈ admissions m → is_ok (command_index_key (adm_command_id a)) = true)
  ∧ NoDup (command_index_key ∘ adm_command_id <$> admissions m).

Lemma retained_absent m root a e p :
  full_inv m → current_command_index_root (base m) = Ok root → a ∈ admissions m →
  is_ok (command_index_key (adm_command_id a)) = true → entry_admission e = a →
  command_index_proofs m !! adm_command_id a = Some p → absent_at root e p.
Proof.
  intros Hm Hroot Ha Hk He Hp. destruct (ch_admitted _ (fi_chain _ Hm) _ Ha) as [r Hr].
  destruct (ro_proof _ _ _ (ch_command _ (fi_chain _ Hm) _ _ Hr))
    as (p' & root' & Hp' & Hid & Hv & Hroot' & Hver).
  rewrite Hp in Hp'. injection Hp' as <-. rewrite Hroot in Hroot'. injection Hroot' as <-.
  unfold absent_at, entry_key, entry_command_id. by rewrite He.
Qed.

(** The updates of a prepared archive, and the tree after them *)
Lemma prepared_tree m n a root c l :
  full_inv m → keys_distinct m → current_command_index_root (base m) = Ok root →
  contents_wf c l → index_root c = Ok root →
  collision_free (tree_inputs c ++ update_inputs (btree_values (command_index_proofs m))) →
  prepared m (take n (admissions m)) a → Segment_verify (prepared_segment a) = Ok () →
  ∃ l', contents_wf (extend c (archived (prepared_segment a))) l'
    ∧ index_root (extend c (archived (prepared_segment a))) = Ok (result_index_root a)
    ∧ nodes_ok l l' (index_nodes a)
    ∧ (archived (prepared_segment a)).*1 = adm_command_id <$> take n (admissions m).
Proof.
  intros Hm [Hkeys Hnd] Hroot Hw Hr Hcf [Hparent _ (inputs & us & [Hent Hpr] & Hes & Hsq)] Hs.
  rewrite Hroot in Hparent. injection Hparent as Hparent. rewrite <-Hparent in Hsq.
  destruct (Segment_verify_checked _ Hs) as [_ Hlen _ _ Hu Hi Hids _]. rewrite <-Hes in *.
  pose proof (apply_updates_values _ _ _ _ _ Hu Hlen Hi) as Hvals.
  pose proof (entries_admissions _ _ _ Hent) as Hadm.
  assert (Forall2 (absent_at root) (input_entries inputs) (index_proofs inputs)) as Habs.
  { apply Forall2_same_length_lookup_2.
    - by rewrite <-(Forall2_length _ _ _ Hent), <-(Forall2_length _ _ _ Hpr).
    - intros i e p He Hp. destruct (Forall2_lookup_r _ _ _ _ _ Hent He) as (ad & Had & Hea).
      pose proof (Forall2_lookup_lr _ _ _ _ _ _ Hpr Had Hp) as Hq.
      assert (ad ∈ admissions m) as Hin
        by (apply lookup_take_Some in Had as [Had _]; by eapply list_elem_of_lookup_2).
      eapply retained_absent; [done..|by apply Hkeys|apply Hea|done]. }
  assert (∀ x, x ∈ update_inputs (index_proofs inputs) →
    x ∈ update_inputs (btree_values (command_index_proofs m))) as Hsub.
  { intros x (p & Hx & Hp)%list_elem_of_bind. apply list_elem_of_bind. exists p. split; [done|].
    apply elem_of_btree_values. apply list_elem_of_lookup in Hp as [i Hp].
    destruct (Forall2_lookup_r _ _ _ _ _ Hpr Hp) as (ad & _ & Hq). eauto. }
  destruct (sequential_updates_Ok c l root (input_entries inputs) (index_proofs inputs)
    (archived (prepared_segment a)) c l root [] ∅)
    as (us' & nodes & r' & l' & Hseq & Hw' & Hr' & Hn & _); try done.
  - eapply absent_base_ok; [done..|]. eapply collision_free_subset, Hcf. intros x.
    rewrite !elem_of_app. intros [?|?]; auto.
  - assert (entry_key <$> input_entries inputs
      = command_index_key ∘ adm_command_id <$> take n (admissions m)) as ->.
    { rewrite <-Hadm, <-list_fmap_compose. done. }
    rewrite <-(take_drop n (admissions m)), fmap_app in Hnd. by apply NoDup_app in Hnd as [Hnd _].
  - unfold sequential_command_index_updates in Hsq. apply bind_Ok in Hsq as ([] & _ & Hsq).
    rewrite Hsq in Hseq. injection Hseq as _ <- <-. exists l'. split_and!; [done..|].
    rewrite Hids, <-Hadm, <-list_fmap_compose. done.
Qed.
(** A retained proof moves to the new root. *)
Lemma retained_rebases m n a root c l i p :
  full_inv m → keys_distinct m → current_command_index_root (base m) = Ok root →
  contents_wf c l → index_root c = Ok root →
  collision_free (tree_inputs c ++ update_inputs (btree_values (command_index_proofs m))) →
  prepared m (take n (admissions m)) a → Segment_verify (prepared_segment a) = Ok () →
  command_index_proofs m !! i = Some p → i ∉ adm_command_id <$> take n (admissions m) →
  ∃ q, rebase_command_index_proof p (parent_index_root a) (result_index_root a) (index_nodes a) = Ok q.
Proof.
  intros Hm Hk Hroot Hw Hr Hcf Hprep Hs Hp Hi.
  destruct (prepared_tree m n a root c l) as (l' & Hw' & Hr' & Hn & Hids); [done..|].
  pose proof (pr_parent _ _ _ Hprep) as Hparent. rewrite Hroot in Hparent. injection Hparent as <-.
  destruct Hk as [Hkeys Hnd].
  destruct (ch_proofs _ (fi_chain _ Hm) i) as [r Hrec]; [eauto|].
  destruct (ch_command _ (fi_chain _ Hm) _ _ Hrec)
    as [_ _ _ (ad & Had & Hid & _) (p' & root' & Hp' & Hpi & Hpv & Hroot' & Hver)].
  rewrite Hp in Hp'. injection Hp' as <-. rewrite Hroot in Hroot'. injection Hroot' as <-.
  pose proof (Hkeys _ Had) as Hkey. rewrite Hid in Hkey. destruct (is_ok_Ok _ Hkey) as [key Hkey'].
  destruct (rebase_faithful p c l (extend c (archived (prepared_segment a))) l' key (index_nodes a)
    root (result_index_root a)) as (q & Hq & _); [done|done| |done| |done|done|eauto].
  - eapply verified_faithful; [done|done|by rewrite Hpi|done|]. eapply collision_free_subset, Hcf.
    intros x. rewrite !elem_of_app. intros [?|Hx]; [by left|right]. apply list_elem_of_bind.
    exists p. split; [done|]. apply elem_of_btree_values. eauto.
  - apply slot_extend. intros x Hx. apply (list_elem_of_fmap_2 fst) in Hx. rewrite Hids in Hx.
    apply list_elem_of_fmap in Hx as (ad' & Hx & Hin'). rewrite Hx.
    assert (ad' ∈ admissions m) as Had' by (rewrite <-(take_drop n (admissions m)), elem_of_app; by left).
    destruct (is_ok_Ok _ (Hkeys _ Had')) as [key' Hk']. exists key'. split; [done|]. intros Heq.
    apply index_bits_inj in Heq; [|by eapply key_is_key..]. subst key'. destruct Hi.
    apply list_elem_of_lookup in Had as [j Hj], Had' as [j' Hj'].
    assert (j = j') as <-.
    { apply (NoDup_lookup _ _ _ (command_index_key i) Hnd); rewrite list_lookup_fmap;
        [rewrite Hj|rewrite Hj']; cbn; [by rewrite Hid|by rewrite Hk', Hkey']. }
    rewrite Hj in Hj'. injection Hj' as <-. rewrite <-Hid. by apply list_elem_of_fmap_2.
Qed.

(** C8: compaction is all or nothing: once its checks have passed, the part of
    compact_event_history that changes the machine returns no error: every retained proof can be
    rebased onto the new root and every retained event is found, provided that the index root of
    the machine authenticates some contents, that the admitted commands have distinct index
    keys, and that no hash inputs collide. *)
Theorem checked_compaction_completes m k plan root c :
  reachable m → plan_event_compaction m k = Ok plan →
  current_command_index_root (base m) = Ok root → indexes root c → keys_distinct m →
  collision_free (tree_inputs c ++ update_inputs (btree_values (command_index_proofs m))) →
  is_ok (compact_event_history m k) = true.
Proof.
  intros Hr Hp Hroot [[l Hw] Hir] Hkeys Hcf. pose proof (reachable_full _ Hr) as Hm.
  pose proof (fi_nodup _ Hm) as Hnd.
  destruct (fi_closure _ Hm) as (old & evs & Hl & _). destruct plan as [[[ct a] b] anchor].
  pose proof (plan_event_Ok _ _ _ _ _ _ _ _ Hm Hl Hnd Hp) as Hplan.
  pose proof (ep_prepared _ _ _ _ _ _ _ Hplan) as Hprep.
  destruct (pr_segment _ _ _ Hprep) as (recs & es & Hn & _).
  unfold compact_event_history. rewrite Hp. cbn [mbind result_bind].
  assert (is_ok (replace_prefix m ct a b anchor) = true) as Hok; [|by destruct (replace_prefix m ct a b anchor)].
  destruct (ep_cut _ _ _ _ _ _ _ Hplan) as [_ Hids _ _].
  destruct (pb_base _ _ _ _ _ _ (ep_base _ _ _ _ _ _ _ Hplan)) as (_ & Hroot' & _).
  unfold replace_prefix.
  match goal with |- context [rebase_proofs ?r1 ?r2 ?ns ?ps] =>
    assert (∃ proofs, rebase_proofs r1 r2 ns ps = Ok proofs) as [proofs ->] end.
  { unfold rebase_proofs. cbn.
    match goal with |- context [try_map ?f ?ps] => assert (∃ qs, try_map f ps = Ok qs) as [qs ->] end; [|eauto].
    apply try_map_total_in. intros [i p] Hin. apply elem_of_btree_list in Hin.
    rewrite foldl_delete_lookup in Hin. case_decide as Hi; [done|]. cbn.
    destruct (retained_rebases m (S (admission_index ct)) a root c l i p) as [q ->]; by try apply Hn. }
  cbn [mbind result_bind]. unfold install_base.
  rewrite (reset_root_Ok _ b (drop (length evs - k) evs) (projection_root (authority m))); [done| | |].
  - cbn. rewrite Hids, length_fmap, length_take, (lo_order _ _ _ Hl), <-fmap_drop.
    by replace ((length evs - k) `min` length evs) with (length evs - k) by lia.
  - cbn. rewrite Hids. apply Forall_forall. intros ev Hev. by eapply kept_events.
  - by eapply kept_root.
Qed.
End Theorems.

(** ** Witnesses *)

(** Proofs that a machine without a base stores *)
Definition empty_proofs (l : list MachineCommandIndexProof) : bool :=
  forallb (λ p, bool_decide (empty_nonmembership (ip_command_id p) = Ok p)) l.
Lemma empty_proofs_inputs l x :
  empty_proofs l = true → x ∈ update_inputs l → x ∈ tree_inputs [].
Proof.
  unfold empty_proofs. rewrite forallb_Forall, Forall_forall. intros Hall (p & Hx & Hp)%list_elem_of_bind.
  specialize (Hall p Hp). apply bool_decide_eq_true in Hall. unfold empty_nonmembership in Hall.
  apply bind_Ok in Hall as ([] & _ & Hall). injection Hall as Heq.
  eapply empty_proof_inputs; [| |exact Hx]; rewrite <-Heq; reflexivity.
Qed.

(** The machine after two commands, compacted down to its last event. *)
Definition compaction_check (m m' : Machine) (report : MachineCompaction) : bool :=
  let s := archive_segment report in
  let keys := command_index_key ∘ adm_command_id <$> admissions m in
  bool_decide (base m = None)
  && (length (admissions m') =? 1) && (length (segment_entries s) =? 1)
  && forallb is_ok keys && bool_decide (NoDup keys)
  && empty_proofs (btree_values (command_index_proofs m)) && empty_proofs (command_index_updates s)
  && collision_check (stage_inputs [] (archived s)).
Lemma sample_compaction :
  match hot_machine with
  | Some m => match compact_event_history m 1 with
              | Ok (m', report) => compaction_check m m' report
              | Err _ => false
              end
  | None => false
  end = true.
Proof. vm_cast_no_check (eq_refl true). Qed.

Record sample_compacted (m m' : Machine) (report : MachineCompaction) (root : string) : Prop := {
  sd_reachable : reachable m;
  sd_compact : compact_event_history m 1 = Ok (m', report);
  sd_root : current_command_index_root (base m) = Ok root;
  sd_index : indexes root [];
  sd_keys : keys_distinct m;
  sd_kept : length (admissions m') = 1;
  sd_entries : length (segment_entries (archive_segment report)) = 1;
  sd_proofs : collision_free (tree_inputs [] ++ update_inputs (btree_values (command_index_proofs m)));
  sd_stages : collision_free (stage_inputs [] (archived (archive_segment report)));
  sd_segment : collision_free (segment_inputs [] (archive_segment report));
}.
Lemma hot_reachable m : hot_machine = Some m → reachable m.
Proof.
  unfold hot_machine. destruct staged_machine as [m0|] eqn:Hs; [|discriminate].
  intros Hm%list_elem_of_lookup_2. eapply trace_reachable; [exact (staged_reachable m0 Hs)|exact Hm].
Qed.
Lemma sample_compacted_holds : ∃ m m' report root, sample_compacted m m' report root.
Proof.
  pose proof sample_compaction as Hs. destruct hot_machine as [m|] eqn:Hm; [|discriminate Hs].
  destruct (compact_event_history m 1) as [[m' report]|] eqn:Hc; [|discriminate Hs].
  unfold compaction_check in Hs. cbv zeta in Hs. rewrite !andb_true_iff in Hs.
  destruct Hs as [[[[[[[Hb Hk] He] Hok] Hkd] Hp] Hu] Hcf].
  apply bool_decide_eq_true in Hb, Hkd. apply Nat.eqb_eq in Hk, He. apply collision_check_sound in Hcf.
  destruct empty_root_Ok as [root Hr]. exists m, m', report, root.
  refine (Build_sample_compacted _ _ _ _ (hot_reachable m Hm) Hc _ (empty_indexes root Hr) _ Hk He _ Hcf _).
  - rewrite Hb. exact Hr.
  - split; [|exact Hkd]. intros a Ha. rewrite forallb_Forall, Forall_forall in Hok.
    apply Hok. apply list_elem_of_fmap. exists a. split; [reflexivity|exact Ha].
  - eapply collision_free_subset; [|exact Hcf]. intros x Hx. apply stage_inputs_first.
    apply elem_of_app in Hx as [Hx|Hx]; [exact Hx|exact (empty_proofs_inputs _ x Hp Hx)].
  - unfold segment_inputs. eapply collision_free_subset; [|exact Hcf]. intros x Hx.
    apply elem_of_app in Hx as [Hx|Hx]; [exact Hx|]. apply stage_inputs_first.
    exact (empty_proofs_inputs _ x Hu Hx).
Qed.

Lemma compaction_preserves_state_witness : ∃ m m' report,
  compact_event_history m 1 = Ok (m', report) ∧ length (event_order m') = 1
  ∧ length (admissions m) = 2 ∧ projection m' = projection m ∧ authority_root m' = authority_root m.
Proof.
  destruct sample_compacted_holds as (m & m' & report & root & [Hr Hc _ _ _ Hk He _ _ _]).
  destruct (compaction_preserves_state m 1 m' report Hr Hc) as (_ & Hp & Ha & Hadm & _ & Hlen & _).
  exists m, m', report. split; [exact Hc|]. split; [exact Hlen|]. split; [|split; [exact Hp|exact Ha]].
  rewrite <-Hadm, length_app, length_fmap, He, Hk. reflexivity.
Defined.

Lemma checked_compaction_completes_witness : ∃ m plan,
  plan_event_compaction m 1 = Ok plan ∧ is_ok (compact_event_history m 1) = true.
Proof.
  destruct sample_compacted_holds as (m & m' & report & root & [Hr Hc Hroot Hi Hkeys _ _ Hcf _ _]).
  pose proof Hc as Hplan. unfold compact_event_history in Hplan.
  apply bind_Ok in Hplan as (plan & Hplan & _). exists m, plan. split; [exact Hplan|].
  exact (checked_compaction_completes m 1 plan root [] Hr Hplan Hroot Hi Hkeys Hcf).
Defined.

(** The archived command of the sample *)
Lemma sample_archived m m' report root :
  sample_compacted m m' report root → ∃ a e rec, segment_entries (archive_segment report) = [e]
    ∧ entry_admission e = a ∧ commands m !! command_id (envelope rec) = Some rec
    ∧ command_id (envelope rec) = adm_command_id a ∧ commands m' !! command_id (envelope rec) = None.
Proof.
  intros [Hr Hc _ _ _ _ He _ _ _].
  destruct (compaction_preserves_state m 1 m' report Hr Hc) as (Hr' & _ & _ & Hadm & _).
  pose proof (reachable_full _ Hr) as Hm. pose proof (reachable_full _ Hr') as Hm'.
  destruct (segment_entries (archive_segment report)) as [|e [|]]; try discriminate He.
  cbn [fmap list_fmap app] in Hadm. pose proof (ch_unique _ (fi_chain _ Hm)) as Hu. rewrite <-Hadm in Hu.
  cbn [fmap list_fmap] in Hu. apply NoDup_cons in Hu as [Hni _].
  destruct (ch_admitted _ (fi_chain _ Hm) (entry_admission e)) as [rec Hrec]; [rewrite <-Hadm; left|].
  pose proof (ro_id _ _ _ (ch_command _ (fi_chain _ Hm) _ _ Hrec)) as Hid.
  exists (entry_admission e), e, rec. rewrite Hid. split; [reflexivity|]. split; [reflexivity|].
  split; [exact Hrec|]. split; [reflexivity|].
  destruct (commands m' !! adm_command_id (entry_admission e)) as [rec'|] eqn:Hrec'; [|reflexivity].
  destruct (ro_admission _ _ _ (ch_command _ (fi_chain _ Hm') _ _ Hrec')) as (a & Ha & Hai & _).
  destruct Hni. rewrite <-Hai. apply list_elem_of_fmap_2. exact Ha.
Qed.

Lemma compaction_answers_commands_witness : ∃ m m' report env r entry proof,
  compact_event_history m 1 = Ok (m', report) ∧ commands m' !! command_id env = None
  ∧ submit m env = Ok (m, r)
  ∧ submit_with_archive_lookup m' env (ArchiveMember proof entry) = Ok (m', r).
Proof.
  destruct sample_compacted_holds as (m & m' & report & root & Hsc).
  destruct (sample_archived _ _ _ _ Hsc) as (a & e & rec & _ & _ & Hrec & _ & Hnone).
  destruct Hsc as [Hr Hc Hroot Hi _ _ _ _ _ Hcf].
  destruct (compaction_answers_commands m 1 m' report (envelope rec) rec root [] Hr Hc Hrec eq_refl
    Hroot Hi Hcf) as [Hs Hs']. rewrite Hnone in Hs'. destruct Hs' as (_ & t & entry & proof & _ & _ & Hs').
  exists m, m', report, (envelope rec), (receipt rec), entry, proof.
  split; [exact Hc|]. split; [exact Hnone|]. split; [exact Hs|exact Hs'].
Defined.

Lemma archived_command_not_readmitted_witness : ∃ m m' report env p,
  compact_event_history m 1 = Ok (m', report) ∧ empty_nonmembership (command_id env) = Ok p
  ∧ is_ok (submit_with_archive_lookup m' env (NonMember p)) = false.
Proof.
  destruct sample_compacted_holds as (m & m' & report & root & Hsc).
  destruct (sample_archived _ _ _ _ Hsc) as (a & e & rec & He & Ha & Hrec & Hid & Hnone).
  destruct Hsc as [Hr Hc Hroot Hi _ _ _ _ Hst Hcf].
  destruct (compacted_segment m 1 m' report root Hr Hc Hroot) as (b & Hb & Hs & Hpar & Hres).
  destruct (segment_entry (archive_segment report) 0 e Hs) as (_ & v & Hv); [rewrite He; reflexivity|].
  destruct (command_index_proof_Ok (archive_segment report) 0 e v [] [] Hs)
    as (q & _ & Hqi & Hqv & Hqver & Hqin); [rewrite Hpar; exact Hi|rewrite He; reflexivity|exact Hv|exact I| |].
  { cbn [chain_inputs]. rewrite app_nil_r. exact Hcf. }
  change (last_header ?h []) with h in Hqver. rewrite <-Hres in Hqver.
  pose proof (ch_command _ (fi_chain _ (reachable_full _ Hr)) _ _ Hrec) as [_ Henv _ _ _].
  unfold validate_envelope in Henv. apply bind_Ok in Henv as ([] & _ & Henv).
  apply bind_Ok in Henv as ([] & Hci & _).
  assert (∃ p, empty_nonmembership (command_id (envelope rec)) = Ok p
    ∧ ∀ x, x ∈ proof_inputs p → x ∈ tree_inputs []) as (p & Hp & Hpin).
  { unfold empty_nonmembership. rewrite Hci. eexists. split; [reflexivity|].
    intros x. apply empty_proof_inputs; reflexivity. }
  exists m, m', report, (envelope rec), p. split; [exact Hc|]. split; [exact Hp|].
  refine (archived_command_not_readmitted m' (envelope rec) (base_command_index_root b) p q v _ Hnone Hqver
    _ Hqv _).
  - rewrite Hb. reflexivity.
  - rewrite Hqi, Hid. unfold entry_command_id. rewrite Ha. reflexivity.
  - eapply collision_free_subset; [|exact Hst]. intros x Hx. apply elem_of_app in Hx as [Hx|Hx].
    + apply stage_inputs_first, Hpin, Hx.
    + apply stage_inputs_last, Hqin, Hx.
Defined.

(** A command for a Run that does not exist conflicts; its tail has no event. *)
Definition early_envelope : CommandEnvelope :=
  sample_envelope "early" (Some "pre:0:none") AdvanceEpoch.
Definition conflict_machine : core Machine :=
  m ← staged_machine; r ← submit m early_envelope; Ok r.1.
Lemma sample_event_free :
  match conflict_machine with
  | Ok m => (length (admissions m) =? 1) && is_ok (compact_event_free_admissions m)
  | Err _ => false
  end = true.
Proof. vm_cast_no_check (eq_refl true). Qed.
Lemma event_free_compaction_preserves_state_witness : ∃ m m' report,
  compact_event_free_admissions m = Ok (m', report) ∧ length (admissions m) = 1 ∧ admissions m' = []
  ∧ authority_root m' = authority_root m.
Proof.
  pose proof sample_event_free as Hs. unfold conflict_machine in Hs.
  destruct staged_machine as [m0|] eqn:Hm0; [|discriminate Hs]. cbn [mbind result_bind] in Hs.
  destruct (submit m0 early_envelope) as [[m r]|] eqn:Hm; [|discriminate Hs]. cbn [mbind result_bind fst] in Hs.
  destruct (compact_event_free_admissions m) as [[m' report]|] eqn:Hc; apply andb_true_iff in Hs as [Hl Hok];
    [|discriminate Hok].
  apply Nat.eqb_eq in Hl.
  assert (reachable m) as Hr
    by (eapply reachable_step; [exact (staged_reachable m0 Hm0)|exact (step_submit m0 early_envelope m r Hm)]).
  destruct (event_free_compaction_preserves_state m m' report Hr Hc) as (_ & _ & Ha & _ & Hnil & _).
  exists m, m', report. split; [exact Hc|]. split; [exact Hl|]. split; [exact Hnil|exact Ha].
Defined.
