(* ===== verification/RestoreTheorems.v ===== *)
(** * What restoring guarantees

    Properties of [Restore] on reachable machines: the snapshot of a machine
    restores to the machine, its replay verifies, and the replay of its
    complete entries gives its projection.  The witnesses use the sample
    scripts. *)

From S2P Require Import Prelude KeyIndex Identity CommandIndex IndexSound IndexUpdate Canonical.
From S2P Require Import Ir Model Events Chain Machine Location Effects DerivedIndex Reducer Verify.
From S2P Require Import Authority Archive Compaction Admission Submit Restore ReducerInv MachineInv.
From S2P Require Import ChainInv RestoreInv RestoreTrace CompactionInv Samples.

Section Theorems.
Context `{Sha256} `{Canonical} `{!MachineSerialize} `{!ArchiveSerialize} `{!CompactionSerialize}
  `{!SnapshotSerialize} `{SchemaCompiler} `{PlanCodec} `{!ValueSerialize}.

(** ** Machines without a base *)

Lemma uncompacted_step m m' :
  life_step m m' → full_inv m → base m' = None → base m = None ∧ (hot_inv m → hot_inv m').
Proof.
  intros [x y Hs|x k y report Hc|x y report Hc] Hm Hb; [|pose proof (fi_nodup _ Hm) as Hnd..].
  - split; [|by apply machine_step_hot]. by rewrite <-(machine_step_base _ _ Hs).
  - destruct (fi_closure _ Hm) as (old & evs & Hl & Hcl).
    destruct (compact_events_Ok _ _ _ _ _ _ Hm Hl Hnd Hc) as (c & a & b & Hp & Hcp & _).
    pose proof (cp_base _ _ _ _ _ Hcp). congruence.
  - destruct (fi_closure _ Hm) as (old & evs & Hl & Hcl).
    destruct (compact_free_Ok _ _ _ _ _ Hm Hl Hc) as (a & b & Hp & Hcp & _).
    pose proof (cp_base _ _ _ _ _ Hcp). congruence.
Qed.
Lemma uncompacted_before m m' : rtc life_step m m' → full_inv m → base m' = None → base m = None.
Proof.
  induction 1 as [|x y z Hxy _ IH]; intros Hf Hb; [done|].
  apply (uncompacted_step _ _ Hxy Hf). apply IH; [|done]. by eapply life_step_full.
Qed.
Lemma uncompacted_hot m : reachable m → base m = None → hot_inv m.
Proof.
  intros (m0 & Hn & Hs) Hb. pose proof (new_full _ Hn) as Hf. pose proof (new_hot _ Hn) as Hh.
  clear Hn. revert Hb Hf Hh. induction Hs as [|x y z Hxy Hyz IH]; intros Hb Hf Hh; [done|].
  pose proof (life_step_full _ _ Hxy Hf) as Hfy. pose proof (uncompacted_before _ _ Hyz Hfy Hb) as Hby.
  destruct (uncompacted_step _ _ Hxy Hf Hby) as [_ Hstep]. by apply IH, Hstep.
Qed.

(** ** Restoring *)

Lemma hot_snapshot m : hot_inv m → ∃ s, snapshot m = Ok s.
Proof.
  intros [_ (s0 & l & Q & Hb & _ & Htr)].
  destruct (snapshot_taken _ _ _ _ (trace_facts_hold _ _ _ Hb Htr)) as (s & Hs & _). by exists s.
Qed.
Lemma restored_new m s :
  full_inv m → hot_inv m → base m = None → snapshot m = Ok s →
  base_anchor m = None
  ∧ restore_hot_internal s None []
    = (_ ← snapshot_digest s; _ ← validate_projection_authority (unstaged m) (projection m);
       Ok (unstaged m, N.of_nat (length (admissions m)))).
Proof.
  intros Hm [_ (s0 & l & Q & Hb & Hst & Htr)] Hbase Hsn.
  pose proof (trace_facts_hold _ _ _ Hb Htr) as Hf.
  destruct (snapshot_taken _ _ _ _ Hf) as (s' & Hs' & Hso). rewrite Hsn in Hs'. injection Hs' as <-.
  rewrite Hbase in Hst. cbn in Hst. destruct (base_anchor m) eqn:Hanc; [done|]. cbn in Hst.
  split; [done|]. destruct (so_base _ _ _ Hso) as [Hsb Hsa]. rewrite Hbase in Hsb. rewrite Hanc in Hsa.
  pose proof (tf_admissions _ _ _ Hf) as Hadm. cbn in Hadm.
  assert (length (admissions m) = length l) as Hlen by (rewrite Hadm, !length_fmap; done).
  unfold restore_hot_internal. rewrite (so_version _ _ _ Hso). cbn [require mbind result_bind].
  rewrite bool_decide_eq_true_2 by done. cbn [require mbind result_bind].
  destruct (snapshot_digest s) as [d|]; [|done]. cbn [mbind result_bind].
  unfold verify_restore_archive_authority. rewrite Hsb, Hsa. cbn.
  rewrite (snapshot_catalog _ _ _ _ _ Hf Hso). cbn [mbind result_bind]. rewrite Hst. cbn [mbind result_bind].
  unfold restore_base_projection. rewrite Hsb. cbn [mbind result_bind].
  rewrite (hot_suffix s0 l Q m s empty_ancestry 0 Hb Htr); [| |apply Hm|done|].
  - cbn [mbind result_bind]. change (projection (unstaged m)) with (projection m).
    destruct (validate_projection_authority (unstaged m) (projection m)) as [[]|]; [|done].
    cbn [mbind result_bind]. rewrite snapshot_unstaged, Hsn.
    cbn [mbind result_bind]. unfold same_snapshot. rewrite bool_decide_eq_true_2 by done.
    cbn [require mbind result_bind]. by rewrite N.add_0_l, Hlen.
  - intros i q. cbn. by rewrite lookup_empty.
  - destruct (tf_count _ _ _ Hf) as [Hc Hle]. unfold MAX_EXACT_INTEGER in Hle. unfold u64_max. lia.
Qed.

(** C31: a machine without a base comes back from its own snapshot: in every reachable machine
    that no compaction has cut, taking a snapshot succeeds, and restoring it replays every batch
    without an error and returns this machine, with the same projection, events, material,
    commands, admissions, proofs, batches and authority (without what is only staged); the only
    steps that can fail are the digest of the snapshot and validate_projection_authority;
    verify_replay succeeds under the same two conditions and a computable authority root. *)
Theorem snapshot_restores m :
  reachable m → base m = None →
  ∃ s, snapshot m = Ok s
  ∧ restore s = (_ ← snapshot_digest s;
                 _ ← validate_projection_authority (unstaged m) (projection m); Ok (unstaged m))
  ∧ verify_replay m = (_ ← snapshot_digest s;
                       _ ← validate_projection_authority (unstaged m) (projection m);
                       _ ← authority_root m; Ok ()).
Proof.
  intros Hr Hb. pose proof (reachable_full _ Hr) as Hm. pose proof (uncompacted_hot _ Hr Hb) as Hh.
  destruct (hot_snapshot _ Hh) as (s & Hs). exists s. split; [done|].
  destruct (restored_new _ _ Hm Hh Hb Hs) as [Hanc Hi]. split.
  - unfold restore. rewrite Hi. destruct (snapshot_digest s); [|done]. cbn [mbind result_bind].
    by destruct (validate_projection_authority _ _) as [[]|].
  - unfold verify_replay. pose proof (mi_projection _ (fi_machine _ Hm)) as Hp.
    rewrite (projection_inv_indexed _ Hp), (projection_inv_verified _ Hp).
    rewrite Hs, Hanc. cbn [mbind result_bind]. unfold restore. rewrite Hi.
    destruct (snapshot_digest s); [|done]. cbn [mbind result_bind].
    destruct (validate_projection_authority _ _) as [[]|]; [|done]. cbn [mbind result_bind fmap result_fmap fst].
    unfold same_projection. rewrite bool_decide_eq_true_2 by done. cbn [require mbind result_bind].
    change (authority_root (unstaged m)) with (authority_root m).
    destruct (authority_root m); [|done]. cbn [mbind result_bind]. by rewrite bool_decide_eq_true_2.
Qed.

(** ** What restoring accepts *)

(** A machine with the log of a history that it holds in full *)
Definition sound (m : Machine) : Prop :=
  machine_inv m ∧ base m = None ∧ NoDup (event_order m).

Lemma sound_step m m' : material_step m m' → sound m → sound m'.
Proof.
  intros Hs (Hm & Hb & Hn). destruct (Hs) as [Hl _].
  split; [by eapply machine_inv_step|]. by rewrite (sl_base _ _ Hl), (sl_order _ _ Hl).
Qed.
Lemma admit_catalog_step m b ps arts m' :
  admit_batch_material_from_catalog m b ps arts = Ok m' → material_step m m'.
Proof.
  unfold admit_batch_material_from_catalog. intros (m1 & Hp & Ha)%bind_Ok.
  etrans; [eapply try_fold_step, Hp|eapply try_fold_step, Ha]; intros x a y Hx.
  - unfold admit_catalog_plan in Hx. case_decide; [by injection Hx as <-|].
    apply bind_Ok in Hx as (p & _ & Hx). by eapply retain_plan_step.
  - unfold admit_catalog_artifact in Hx. case_decide; [by injection Hx as <-|].
    apply bind_Ok in Hx as (p & _ & Hx). by eapply retain_artifact_step.
Qed.
Lemma bind_NoDup_elem {A B} (f : A → list B) l x : NoDup (l ≫= f) → x ∈ l → NoDup (f x).
Proof.
  intros Hn (l1 & l2 & ->)%list_elem_of_split. rewrite bind_app in Hn. cbn in Hn.
  apply NoDup_app in Hn as (_ & _ & Hn). by apply NoDup_app in Hn as (? & _).
Qed.
Lemma entry_events_distinct b e :
  BatchRecord_verify_entry b e = Ok () → NoDup (event_id <$> entry_events e).
Proof.
  unfold BatchRecord_verify_entry. intros Hv. apply bind_Ok in Hv as ([] & Hb & Hv).
  apply bind_Ok in Hv as ([] & He & Hv). apply bind_Ok in Hv as (y & Hy & Hv).
  apply bind_Ok in Hv as ([] & _ & Hv). apply bind_Ok in Hv as (intent & _ & Hv).
  apply require_Ok in Hv. to_prop.
  unfold BatchRecord_verify in Hb. apply bind_Ok in Hb as ([] & _ & Hb).
  apply bind_Ok in Hb as ([] & _ & Hb). apply bind_Ok in Hb as (st & _ & Hb).
  apply bind_Ok in Hb as (seen & Hseen & _). destruct (batch_events_distinct _ _ _ Hseen) as [Hnd _].
  unfold ArchiveEntry_verify in He. apply bind_Ok in He as ([] & Hadm & He).
  apply bind_Ok in He as ([] & Hids & _). apply require_Ok in Hids. to_prop.
  unfold verify_admission_record in Hadm. apply bind_Ok in Hadm as ([] & _ & Hadm).
  apply bind_Ok in Hadm as ([] & _ & Hadm). apply bind_Ok in Hadm as (d & _ & Hadm).
  apply require_Ok in Hadm. to_prop.
  assert (event_id <$> entry_events e = receipt_event_ids (receipt (entry_command e))) as -> by congruence.
  eapply bind_NoDup_elem; [exact Hnd|]. by eapply list_elem_of_lookup_2.
Qed.

(** The replay of an entry records an applied batch of events. *)
Lemma entry_sound m e m' :
  replay_batch_entry m e = Ok m' → NoDup (event_id <$> entry_events e) → sound m → sound m'.
Proof.
  unfold replay_batch_entry. intros Hr Hnd ([Hp Hpi (old & evs & Hl)] & Hb & Hn).
  apply bind_Ok in Hr as ([] & _ & Hr). apply bind_Ok in Hr as ([] & _ & Hr).
  apply bind_Ok in Hr as ([] & _ & Hr). apply bind_Ok in Hr as (conflict & _ & Hr).
  apply bind_Ok in Hr as (new & _ & Hr). apply bind_Ok in Hr as ([] & Heq & Hr).
  apply require_Ok, bool_decide_eq_true in Heq as ->. apply bind_Ok in Hr as ([m2 after] & Hap & Hr).
  apply bind_Ok in Hr as ([] & _ & Hr). apply bind_Ok in Hr as (proof & _ & [= <-]).
  destruct (apply_batch_spec _ _ _ _ Hp Hpi Hap) as (pending & Hbp).
  pose proof (log_extend _ _ _ _ _ _ _ Hl Hbp) as Hlog. pose proof (bp_machine _ _ _ Hbp) as Hm2. cbn in Hm2.
  set (m3 := set_authority (set_projection_root after (authority m2)) m2) in *.
  destruct (foldl_append_fields m3 (entry_events e)) as (Ho & Hpr & _ & Hpl & Hba & _).
  eapply (sound_step (foldl append_event m3 (entry_events e))); [by split; [split|]|]. split; [split|split].
  - unfold plans_verified. rewrite Hpl. unfold m3. rewrite Hm2. exact Hp.
  - rewrite Hpr. exact (bp_projection _ _ _ Hbp).
  - by eauto.
  - rewrite Hba. unfold m3. by rewrite Hm2.
  - rewrite Ho. unfold m3. rewrite Hm2. cbn. apply NoDup_app. split; [done|]. split; [|done].
    intros i Hi (ev & -> & Hev)%list_elem_of_fmap. apply (lo_domain _ _ _ Hl) in Hi as [x Hx].
    pose proof (bp_new _ _ _ Hbp _ Hev). congruence.
Qed.
Lemma archived_batch_sound m b entries ps arts r m' r' n :
  replay_archived_batch m b entries ps arts r = Ok (m', r', n) → sound m → sound m'.
Proof.
  unfold replay_archived_batch. intros Hr Hs. apply bind_Ok in Hr as ([] & _ & Hr).
  apply bind_Ok in Hr as ([r1 parent] & _ & Hr). apply bind_Ok in Hr as ([] & _ & Hr).
  apply bind_Ok in Hr as ([] & _ & Hr). apply bind_Ok in Hr as ([] & _ & Hr).
  apply bind_Ok in Hr as (m1 & Hm1 & Hr). apply bind_Ok in Hr as ([m2 r2] & Hf & Hr).
  apply bind_Ok in Hr as (m3 & Hi & Hr). apply bind_Ok in Hr as (res & _ & Hr).
  apply bind_Ok in Hr as ([] & _ & Hr). apply bind_Ok in Hr as ([r3 x] & _ & [= <- _ _]).
  eapply sound_step; [by eapply insert_batch_step|].
  assert (sound m1) as Hs1.
  { destruct (admits_material b); [|by injection Hm1 as <-]. eapply sound_step, Hs. by eapply admit_catalog_step. }
  change (sound (m2, r2).1). refine (try_fold_inv _ (λ _ st, sound st.1) _ _ _ _ _ Hf); [done|].
  intros don y rest [mx rx] st _ Hsx Hy. cbn in Hsx. unfold replay_member in Hy.
  apply bind_Ok in Hy as (e & _ & Hy). apply bind_Ok in Hy as ([] & Hv & Hy).
  apply bind_Ok in Hy as (my & He & [= <-]). cbn. eapply entry_sound; [exact He| |done].
  by eapply entry_events_distinct.
Qed.
Lemma new_sound m : Machine_new = Ok m → sound m.
Proof.
  intros Hn. split; [by apply new_machine_inv|]. unfold Machine_new in Hn. inv_ok. split; [done|constructor].
Qed.
Lemma hot_snapshot_sound m s c r count m' n :
  replay_hot_snapshot m s c r count = Ok (m', n) → sound m →
  sound m' ∧ commands m' = snap_commands s ∧ admissions m' = snap_admissions s
  ∧ command_index_proofs m' = snap_command_index_proofs s.
Proof.
  unfold replay_hot_snapshot. intros Hr Hs. apply bind_Ok in Hr as ([[[m1 r1] c1] evs] & Hf & Hr).
  apply bind_Ok in Hr as (root & _ & Hr). apply bind_Ok in Hr as ([] & _ & Hr).
  apply bind_Ok in Hr as ([] & _ & Hr). apply bind_Ok in Hr as ([] & Hq & [= <- _]).
  apply require_Ok in Hq. to_prop. split; [|done]. apply (sound_step m1); [by split; [split|]|].
  change (sound (m1, r1, c1, evs).1.1.1).
  refine (try_fold_inv _ (λ _ st, sound st.1.1.1) _ _ _ _ _ Hf); [done|].
  intros don i rest [[[mx rx] cx] ex] st _ Hsx Hy. cbn in Hsx. unfold replay_hot_batch in Hy.
  apply bind_Ok in Hy as (b & _ & Hy). apply bind_Ok in Hy as (es & _ & Hy).
  apply bind_Ok in Hy as ([[my ry] cy] & Hc & [= <-]). cbn. unfold count_batch in Hc.
  apply bind_Ok in Hc as ([[mz rz] nz] & Hb & Hc). apply bind_Ok in Hc as (cz & _ & [= <- _ _]).
  by eapply archived_batch_sound.
Qed.
Lemma sound_ordered m old evs :
  log_of m old evs → NoDup (event_order m) → ordered_events m = evs.
Proof.
  intros Hl Hn. unfold ordered_events. rewrite (lo_order _ _ _ Hl). apply omap_all.
  pose proof (lo_lookup _ _ _ Hl Hn) as Hall. clear Hl Hn. induction evs as [|ev evs IH]; constructor.
  - apply Hall. by left.
  - apply IH. intros x Hx. apply Hall. by right.
Qed.

(** C30: restoring a snapshot without a base computes the machine, whoever made the snapshot: if
    restore accepts it, the projection is the fold of apply_event over the events of the
    snapshot, the projection root is their hash chain, each of these events verifies with its
    declared footprint after its parents, the projection passes the verifier of the reducer and
    the check of its derived indexes, and the machine holds the commands, admissions and proofs
    of the snapshot. *)
Theorem restored_machine_sound s m :
  restore s = Ok m →
  base m = None ∧ event_order m = event_id <$> snap_events s
  ∧ replay_events (snap_events s) = Ok (projection m)
  ∧ root_of (snap_events s) = Ok (projection_root (authority m))
  ∧ (∀ ev, ev ∈ snap_events s → Event_verify ev = Ok () ∧ verify_event_footprint ev = Ok ())
  ∧ causally_ordered (snap_events s)
  ∧ verify_reducer_invariants (projection m) = Ok () ∧ verify_derived_indexes (projection m) = Ok ()
  ∧ commands m = snap_commands s ∧ admissions m = snap_admissions s
  ∧ command_index_proofs m = snap_command_index_proofs s.
Proof.
  unfold restore. intros Hr. destruct (restore_hot_internal s None []) as [[m0 n]|] eqn:Hi; [|done].
  injection Hr as ->. unfold restore_hot_internal in Hi. apply bind_Ok in Hi as ([] & _ & Hi).
  apply bind_Ok in Hi as (d & _ & Hi). apply bind_Ok in Hi as ([] & Ha & Hi).
  apply bind_Ok in Hi as (c & _ & Hi). apply bind_Ok in Hi as (m0 & Hn & Hi).
  apply bind_Ok in Hi as ([[m1 r1] n1] & Hb & Hi). apply bind_Ok in Hi as ([m2 n2] & Hh & Hi).
  apply bind_Ok in Hi as ([] & _ & Hi). apply bind_Ok in Hi as (t & Ht & Hi).
  apply bind_Ok in Hi as ([] & Hsame & [= -> _]). apply require_Ok, bool_decide_eq_true in Hsame.
  assert (snap_base s = None) as Hbase.
  { unfold verify_restore_archive_authority in Ha. destruct (snap_base s), (snap_base_anchor s); try done.
    apply bind_Ok in Ha as ([] & _ & Ha). apply bind_Ok in Ha as (x & _ & Ha).
    by apply bind_Ok in Ha as ([] & _ & Ha). }
  assert (m1 = m0) as ->.
  { unfold restore_base_projection in Hb. cbn [mbind result_bind] in Hb. rewrite Hbase in Hb. by injection Hb. }
  destruct (hot_snapshot_sound _ _ _ _ _ _ _ Hh (new_sound _ Hn)) as (([_ Hpi (old & evs & Hl)] & Hbm & Hnd) & Hc & Had & Hp).
  pose proof (lo_base _ _ _ Hl) as Hold. rewrite Hbm in Hold. cbn in Hold. subst old.
  assert (snap_events s = evs) as ->.
  { apply (f_equal snap_events) in Hsame. cbn in Hsame. rewrite <-Hsame.
    unfold snapshot in Ht. apply bind_Ok in Ht as (? & _ & Ht). apply bind_Ok in Ht as (? & _ & Ht).
    apply bind_Ok in Ht as (? & _ & [= <-]). cbn. by eapply sound_ordered. }
  destruct Hl as [L1 L2 L3 L4 L5 _ _ _ _]. cbn [app] in *. split_and!; try done.
  - intros ev Hev. rewrite Forall_forall in L4. by destruct (L4 _ Hev) as (? & ? & _).
  - by apply projection_inv_verified.
  - by apply projection_inv_indexed.
Qed.
End Theorems.

(** ** Witnesses *)

#[export] Instance sample_snapshot_serialize : SnapshotSerialize :=
  { serialize_snapshot s := SerStr (join (snapshot_version s :: (adm_command_id <$> snap_admissions s))) }.

(** The completed sample, its snapshot and the machine restored from it *)
Definition restore_check (m : Machine) : bool :=
  bool_decide (base m = None)
  && match snapshot m with
     | Ok s => is_ok (snapshot_digest s) && (1 <? length (snap_events s))
               && is_ok (validate_projection_authority (unstaged m) (projection m))
               && is_ok (authority_root m)
     | Err _ => false
     end.
Lemma sample_restore :
  match sample_trace !! 12 with Some m => restore_check m | None => false end = true.
Proof. vm_cast_no_check (eq_refl true). Qed.

Record sample_restored (m : Machine) (s : MachineSnapshot) : Prop := {
  sr_machine : sample_trace !! 12 = Some m;
  sr_reachable : reachable m;
  sr_base : base m = None;
  sr_snapshot : snapshot m = Ok s;
  sr_digest : is_ok (snapshot_digest s) = true;
  sr_events : 1 < length (snap_events s);
  sr_valid : validate_projection_authority (unstaged m) (projection m) = Ok ();
  sr_root : is_ok (authority_root m) = true;
}.
Lemma sample_restored_holds : ∃ m s, sample_restored m s.
Proof.
  pose proof sample_restore as Hs. destruct (sample_trace !! 12) as [m|] eqn:Hm; [|discriminate Hs].
  unfold restore_check in Hs. apply andb_true_iff in Hs as [Hb Hs].
  destruct (snapshot m) as [s|] eqn:Hsn; [|discriminate Hs]. rewrite !andb_true_iff in Hs.
  destruct Hs as [[[Hd He] Hv] Hr]. apply bool_decide_eq_true in Hb. apply Nat.ltb_lt in He.
  exists m, s. split; try assumption; [exact (sample_reachable 12 m Hm)|].
  destruct (validate_projection_authority _ _) as [[]|]; [reflexivity|discriminate Hv].
Qed.

Lemma snapshot_restores_witness : ∃ m s,
  sample_trace !! 12 = Some m ∧ snapshot m = Ok s ∧ restore s = Ok (unstaged m) ∧ verify_replay m = Ok ().
Proof.
  destruct sample_restored_holds as (m & s & [Hm Hr Hb Hs Hd _ Hv Hk]).
  destruct (snapshot_restores m Hr Hb) as (s' & Hs' & Hres & Hver).
  rewrite Hs in Hs'. injection Hs' as <-. exists m, s. split; [exact Hm|]. split; [exact Hs|].
  rewrite Hres, Hver, Hv. destruct (snapshot_digest s); [|discriminate Hd].
  destruct (authority_root m); [|discriminate Hk]. split; reflexivity.
Defined.
Lemma sample_restore_result : ∃ m s, restore s = Ok m ∧ 1 < length (snap_events s).
Proof.
  destruct sample_restored_holds as (m & s & [_ Hr Hb Hs Hd He Hv _]). exists (unstaged m), s.
  split; [|exact He]. pose proof (reachable_full m Hr) as Hm. pose proof (uncompacted_hot m Hr Hb) as Hh.
  destruct (restored_new m s Hm Hh Hb Hs) as [_ Hi]. unfold restore. rewrite Hi, Hv.
  destruct (snapshot_digest s); [reflexivity|discriminate Hd].
Qed.
Lemma restored_machine_sound_witness : ∃ s m,
  restore s = Ok m ∧ 1 < length (snap_events s) ∧ replay_events (snap_events s) = Ok (projection m)
  ∧ root_of (snap_events s) = Ok (projection_root (authority m)).
Proof.
  destruct sample_restore_result as (m & s & Hs & Hl).
  destruct (restored_machine_sound s m Hs) as (_ & _ & Hp & Hr & _).
  exists s, m. split; [exact Hs|]. split; [exact Hl|]. split; [exact Hp|exact Hr].
Defined.
