(* ===== verification/LogTheorems.v ===== *)
(** * Theorems on the authenticated log

    A log is a sequence of values, authenticated by the root of a balanced
    tree.  Batches of mutations compute the root of the mutated sequence, the
    direct construction agrees with appending, and a proof that verifies tells
    the truth about the sequence, unless the hash inputs of the proof and of
    the log contain a collision. *)

From S2P Require Import Prelude Identity CommandIndex IndexSound CollectionHash Collections.
From S2P Require Import Stores LogNode LogTree LogProof Rope LogRefine LogJoin LogApply LogSound.
From S2P Require Import LogBuild Samples.

(** A batch whose conflicts depend on the values alone. *)
Definition by_values (mutation : LogMutation) : bool :=
  match mutation with ReplacePrefix _ _ _ => false | _ => true end.

Section Facts.
Context `{Sha256}.

Lemma mutate_conflict t mutation :
  by_values mutation = true → (mutate t mutation).2 = None → edit (lelems t) mutation = None.
Proof.
  destruct mutation as [vs|i v|i e v|c p vs|i e]; cbn [by_values mutate edit]; try done; intros _;
    repeat case_match; done.
Qed.
Lemma mutate_all_conflict t mutations :
  ready t mutations → Forall (λ m, by_values m = true) mutations →
  (mutate_all t mutations).2 = None → edits (lelems t) mutations = None.
Proof.
  revert t. induction mutations as [|mu mutations IH]; intros t Hr Hb; cbn [mutate_all edits]; [done|].
  apply Forall_cons in Hb as [Hb Hbs]. rewrite made_snd. destruct (mutate t mu).2 as [t1|] eqn:Hmu.
  - destruct (mutate_elems t mu t1) as [_ ->]; [apply lok_lwf, Hr|by eapply Forall_inv, Hr|done|].
    intros Hm. apply IH; [by eapply ready_next|done..].
  - intros _. by rewrite (mutate_conflict t mu).
Qed.

(** Nodes of well-formed ropes beside other nodes. *)
Lemma log_nodes_among nodes t n : lok t → n ∈ log_nodes t → among (nodes ++ log_nodes t) n.
Proof. intros Ht Hn. split; [by eapply log_nodes_verified|]. apply elem_of_app. by right. Qed.
Lemma keyed_values σ more : keyed verified σ → keyed (among ((map_to_list σ).*2 ++ more)) σ.
Proof.
  intros Hk id n Hn. destruct (Hk id n Hn) as [Hv Hid]. split; [|done]. split; [done|].
  apply elem_of_app. left. apply (list_elem_of_fmap_2 snd _ (id, n)). by apply elem_of_map_to_list.
Qed.
Lemma made_among {A} nodes (m : made A) t : t ∈ m.1 → rok t → among (nodes ++ made_nodes m) (rope_node t).
Proof.
  intros Ht Hok. split; [by apply rope_node_verify|]. apply elem_of_app. right.
  by apply list_elem_of_fmap_2.
Qed.
Lemma new_resolver_keyed maximum nodes (p : ProofResolver LogNode) more :
  ProofResolver_new nodes maximum = Ok p → keyed (among (nodes ++ more)) (pr_nodes p).
Proof.
  unfold ProofResolver_new. intros Hp. inv_ok. cbn [pr_nodes].
  eapply keyed_mono; [intros; by apply among_app_l|by eapply index_nodes_keyed].
Qed.
Lemma new_apply_resolver_keyed maximum nodes (p : ApplyProofResolver LogNode) more :
  ApplyProofResolver_new nodes maximum = Ok p → keyed (among (nodes ++ more)) (ap_nodes p).
Proof.
  unfold ApplyProofResolver_new. intros Hp. inv_ok. cbn [ap_nodes].
  eapply keyed_mono; [intros; by apply among_app_l|by eapply index_nodes_keyed].
Qed.
(** A resolver that serves the nodes of a log answers its reads. *)
Lemma served_answers `{!Resolver LogNode R} (I : R → Prop) σ t :
  serves I σ → (∀ n, n ∈ rope_nodes t → σ !! ln_object_id n = Some n) → rok t →
  answers (load_resolved (R := R)) I t.
Proof.
  intros Hs Hn Ht s u Hsi Hu. assert (Hok : rok u) by by eapply rok_subrope.
  apply (load_resolved_served I σ); [done|done| |by apply rope_node_verify|done|by apply rope_same_counts].
  apply (Hn (rope_node u)). by apply list_elem_of_fmap_2.
Qed.
End Facts.

Section Theorems.
Context `{Sha256}.

(** C27: the mutation algorithm of the authenticated log refines a function on plain lists: on
    any store that serves the nodes of a log within the capacity, a batch of appends,
    insertions, replacements, prefix replacements and removals gives the root of a balanced log
    with exactly the edited values, every node of the result being in the overlay or in the
    store, or reports a conflict, and for a batch without prefix replacements only when an
    expectation fails on the list; the inputs hashed for nodes are assumed free of collisions. *)
Theorem log_apply_refines_list `{Resolver LogNode R} (I : R → Prop) σ t mutations r :
  ready t mutations → serves I σ → I r → keyed verified σ →
  (∀ n, n ∈ log_nodes t → σ !! ln_object_id n = Some n) →
  plain_log_nodes ((map_to_list σ).*2 ++ made_nodes (mutate_all t mutations)) →
  (∃ o t', run_prog (apply_log_internal (log_root t) mutations) (Overlay_new r) = Ok (o, log_root t')
     ∧ lok t' ∧ edits (lelems t) mutations = Some (lelems t')
     ∧ ∀ n, n ∈ log_nodes t' → ov_pending o !! ln_object_id n = Some n ∨ σ !! ln_object_id n = Some n)
  ∨ run_prog (apply_log_internal (log_root t) mutations) (Overlay_new r) = Err MutationConflict
    ∧ (Forall (λ m, by_values m = true) mutations → edits (lelems t) mutations = None).
Proof.
  intros Hr Hs HI Hk Hn Hd%distinct_verified_log.
  pose proof (apply_performs I σ _ Hs Hd (keyed_values σ _ Hk) t mutations (Overlay_new r) Hr) as Hp.
  assert (Hh : lholds σ (Overlay_new r) t).
  { destruct t as [t|]; [|done]. intros u Hu. right. apply (Hn (rope_node u)). by apply list_elem_of_fmap_2. }
  specialize (Hp (new_inv I σ _ r HI) Hh (λ u Hu Hok, made_among _ _ u Hu Hok)).
  destruct (mutate_all t mutations).2 as [t'|] eqn:Hm.
  - left. destruct Hp as (o & Hrun & Hg & Hh'). exists o, t'. split; [done|].
    destruct (mutate_all_elems _ _ _ Hr Hm) as [Hok He]. split; [done|]. split; [done|].
    intros n Hn'. destruct t' as [t'|]; [|by apply elem_of_nil in Hn'].
    apply list_elem_of_fmap in Hn' as (u & -> & Hu). by apply Hh'.
  - right. split; [done|]. intros Hb. by apply mutate_all_conflict.
Qed.

(** a proof of a mutation batch that verifies against the root of a log, whoever made it,
    shows that every expectation of the batch holds for its values and that its result is the
    root of the edited values, unless the hash inputs of the proof and the log contain a
    collision. *)
Theorem verified_log_apply_sound t mutations proof v :
  ready t mutations →
  plain_log_nodes (lap_nodes proof ++ log_nodes t ++ made_nodes (mutate_all t mutations)) →
  verify_log_apply (log_root t) mutations proof = Ok v →
  ∃ t', lok t' ∧ edits (lelems t) mutations = Some (lelems t') ∧ vla_result v = log_root t'.
Proof.
  intros Hr Hd%distinct_verified_log Hv. unfold verify_log_apply in Hv.
  apply bind_Ok in Hv as (u & _ & Hv). apply bind_Ok in Hv as (ms & Hms & Hv).
  assert (ms = mutations) as -> by (unfold validate_mutations in Hms; by inv_ok).
  apply bind_Ok in Hv as (u2 & _ & Hv). apply bind_Ok in Hv as (p & Hp & Hv).
  apply bind_Ok in Hv as ([o root] & Hrun & Hv). inv_ok. cbn [vla_result snd].
  apply (log_apply_run _ (ap_nodes p) t Hd) with (I := λ q, ap_nodes q = ap_nodes p) in Hrun; try done.
  - destruct Hrun as (t' & Hm & ->). exists t'. by destruct (mutate_all_elems _ _ _ Hr Hm).
  - by eapply new_apply_resolver_keyed.
  - intros n Hn. rewrite app_assoc. apply among_app_l. apply log_nodes_among; [apply Hr|done].
  - apply Hr.
  - apply apply_proof_serves.
  - intros w Hw Hok. rewrite app_assoc. by apply made_among.
Qed.

(** An exact proof that verifies against the root of a log at an ordinal shows the value at
    that ordinal, unless the hash inputs contain a collision. *)
Theorem verified_log_read_sound t i proof v :
  lok t → plain_log_nodes (lex_nodes proof ++ log_nodes t) →
  verify_log_exact (log_root t) (N.of_nat i) proof = Ok v → lelems t !! i = Some (vlr_value v).
Proof.
  intros Ht Hd%distinct_verified_log Hv. unfold verify_log_exact in Hv.
  apply bind_Ok in Hv as (u & _ & Hv). apply bind_Ok in Hv as (u1 & _ & Hv).
  apply bind_Ok in Hv as (p & Hp & Hv). apply bind_Ok in Hv as ([r value] & Hrun & Hv). inv_ok.
  apply (log_get_run _ (pr_nodes p) t Hd) with (I := λ q, pr_nodes q = pr_nodes p) in Hrun; try done.
  - by eapply new_resolver_keyed.
  - intros n. by apply log_nodes_among.
  - apply proof_serves.
Qed.

(** C28: a range that verifies against the root of a log omits and reorders nothing: its values
    are the consecutive values from the start on, at most the limit and within the byte budget;
    it has a next ordinal exactly when values remain, that ordinal follows the range, and then
    the limit or the budget was reached after at least one value; collisions among the hash
    inputs excepted. *)
Theorem verified_log_range_complete t start limit max_bytes proof v :
  lok t → plain_log_nodes (lrp_nodes proof ++ log_nodes t) →
  verify_log_range (log_root t) (N.of_nat start) limit max_bytes proof = Ok v →
  let n := length (vrg_values v) in let rest := drop start (lelems t) in
  vrg_values v = take n rest ∧ n ≤ limit ∧ (total (byte_len <$> vrg_values v) ≤ max_bytes)%N
  ∧ match vrg_next_index v with
    | None => n = length rest
    | Some next => next = N.of_nat (start + n) ∧ 1 ≤ n < length rest
        ∧ (n = limit ∨ max_bytes < total (byte_len <$> take (S n) rest))%N
    end.
Proof.
  intros Ht Hd%distinct_verified_log Hv n rest. unfold verify_log_range in Hv.
  apply bind_Ok in Hv as (u & Hreq & Hv). apply bind_Ok in Hv as (u1 & _ & Hv).
  apply bind_Ok in Hv as (u2 & _ & Hv). apply bind_Ok in Hv as (p & Hp & Hv).
  apply bind_Ok in Hv as ([r sel] & Hrun & Hv). apply bind_Ok in Hv as (u3 & _ & Hv). cbn [snd] in Hv.
  apply bind_Ok in Hv as (next & Hnext & Hv). injection Hv as <-. subst n rest.
  cbn [vrg_values vrg_next_index].
  eapply (log_range_run _ (pr_nodes p) t (λ q, pr_nodes q = pr_nodes p)) in Hrun as [-> Href];
    [|exact Hd|by eapply new_resolver_keyed|intros n; by apply log_nodes_among|done|apply proof_serves|done|].
  2: { unfold validate_range_request in Hreq. inv_ok. by to_prop. }
  unfold log_selection, refused in *. destruct (pick_selected limit max_bytes (drop start (lelems t))) as [n Hsel].
  destruct Hsel as [Hval Hlim Hused Hbudget Hb]. set (rest := drop start (lelems t)) in *.
  assert (Hlen : length (lsel_values (pick limit max_bytes rest no_log_selection)) = Nat.min n (length rest)).
  { by rewrite Hval, length_take. }
  unfold checked_add in Hnext. case_decide; [|done]. injection Hnext as <-.
  destruct (lsel_boundary _) as [b|]; cbn [fmap option_fmap option_map].
  - destruct Hb as [Hlook Hwhy]. pose proof (lookup_lt_Some _ _ _ Hlook) as Hlt.
    rewrite Nat.min_l in Hlen by lia. rewrite !Hlen. split; [done|]. split; [done|].
    split; [by rewrite Hval, <-Hused|]. split; [lia|]. split; [|done]. split; [|done].
    apply andb_false_iff in Href as [Href|Href]; [|done]. apply bool_decide_eq_false in Href.
    destruct n; [|lia]. by rewrite Hval in Href.
  - rewrite Hb, Nat.min_id in Hlen. rewrite !Hlen. split; [by rewrite Hval, Hb|]. split; [lia|].
    split; [by rewrite Hval, <-Hused|done].
Qed.

(** A split proof that verifies against the root of a log gives the roots of two balanced
    logs that hold the values before and from the ordinal on, unless the hash inputs contain a
    collision. *)
Theorem verified_log_split_sound t i proof v :
  lok t → i ≤ length (lelems t) →
  plain_log_nodes (lsp_nodes proof ++ log_nodes t ++ made_nodes (lsplit t i)) →
  verify_log_split (log_root t) (N.of_nat i) proof = Ok v →
  ∃ a b, lok a ∧ lok b ∧ lelems a = take i (lelems t) ∧ lelems b = drop i (lelems t)
    ∧ vls_prefix v = log_root a ∧ vls_suffix v = log_root b.
Proof.
  intros Ht Hi Hd%distinct_verified_log Hv. unfold verify_log_split in Hv.
  apply bind_Ok in Hv as (u & _ & Hv). apply bind_Ok in Hv as (u1 & _ & Hv).
  apply bind_Ok in Hv as (u2 & _ & Hv). apply bind_Ok in Hv as (p & Hp & Hv).
  apply bind_Ok in Hv as ([o roots] & Hrun & Hv). cbn [snd] in Hv.
  apply (log_split_run _ (ap_nodes p) t Hd) with (I := λ q, ap_nodes q = ap_nodes p) in Hrun; try done.
  - pose proof (lsplit_splits t i (lok_lwf t Ht) Hi) as Hs. destruct (splits_lok t i _ Ht Hs) as [Ha Hb].
    destruct Hs as [_ _ H1 H2].
    subst roots. cbn [lroots] in Hv. inv_ok. exists (lsplit t i).2.1, (lsplit t i).2.2. by split_and!.
  - by eapply new_apply_resolver_keyed.
  - intros n Hn. rewrite app_assoc. apply among_app_l. by apply log_nodes_among.
  - apply apply_proof_serves.
  - intros w Hw Hok. rewrite app_assoc. by apply made_among.
Qed.

(** The direct construction of a log, which cuts the values into leaves and joins them in a
    fixed shape, gives the root and exactly the nodes that appending the values one by one to
    the empty log gives, collisions among the hash inputs excepted. *)
Theorem build_log_matches_append `{Resolver LogNode R} (r : R) values :
  Forall content_id values → fits (length values) →
  serves (λ s, s = r) ∅ → plain_log_nodes (made_nodes (rappend None values)) →
  ∃ t o objects, lok t ∧ lelems t = values
    ∧ run_prog (append_values LogRoot_empty values) (Overlay_new r) = Ok (o, log_root t)
    ∧ build_log values = Ok (log_root t, objects)
    ∧ (∀ n, n ∈ objects ↔ n ∈ log_nodes t)
    ∧ ∀ n, n ∈ objects → ov_pending o !! ln_object_id n = Some n.
Proof.
  intros Hv Hf Hs Hd%distinct_verified_log. set (m := rappend None values) in *.
  set (U := among (made_nodes m)) in *.
  assert (Hk : keyed U ∅) by by intros id n.
  destruct (append_makes (λ s, s = r) ∅ U Hs Hd Hk None values (Overlay_new r) I Hv Hf) as (o & Hrun & Hg & Hh);
    [by apply new_inv|done|intros t Ht Hok; by apply (made_among [])|].
  assert (Hown : ∀ n, n ∈ log_nodes m.2 → ov_pending o !! ln_object_id n = Some n ∧ U n).
  { fold m in Hh. destruct m.2 as [t|]; [|by intros n ?%elem_of_nil].
    intros n (u & -> & Hu)%list_elem_of_fmap. destruct (Hh u Hu) as [Hp|Hp]; [|done].
    split; [done|]. by apply (oi_pending _ _ _ _ (proj1 Hg)) in Hp as [? _]. }
  destruct (build_log_spec U Hd values Hv Hf) as (objects & Hb & Ho); [intros n Hn; by apply Hown|].
  destruct (rappend_spec None values I Hv) as [Hwf He]. exists m.2, o, objects.
  split; [apply lok_intro; [done|]; fold m in He; by rewrite He|]. split; [done|]. split; [done|].
  split; [done|]. split; [done|]. intros n Hn. by apply Hown, Ho.
Qed.

(** What an audit accepts is well formed: when it succeeds on any resolver the root is that
    of a balanced tree of leaves of one to thirty-two content identities within the height
    bound, the audited values are its values in order, and the objects are nodes of the tree,
    one for each identity; no assumption on the hash is needed. *)
Theorem audit_accepts_log `{Resolver LogNode R} root (r : R) values objects :
  audit_log root r = Ok (values, objects) →
  ∃ t, lwf t ∧ root = log_root t ∧ values = lelems t
    ∧ match t with Some t => rheight t ≤ MAX_LOG_HEIGHT | None => True end
    ∧ (∀ n, n ∈ objects → n ∈ log_nodes t)
    ∧ (∀ n, n ∈ log_nodes t → ∃ m, m ∈ objects ∧ ln_object_id m = ln_object_id n).
Proof.
  intros (t & Hwf & -> & Hv & Hh & Ho & Hc)%audit_log_sound. exists t. split_and!; try done.
  destruct t as [t|]; [|done]. cbn [log_root lr_height] in Hh. lia.
Qed.

(** Every proof of an ordinal or of a range that its prover produces, from any resolver, fits the
    bounds of the verifier, leaves no node unused and verifies with the outcome that the prover
    saw. *)
Theorem log_read_proofs_verify `{Resolver LogNode R} root (r : R) :
  (∀ index proof, prove_log_exact root index r = Ok proof →
     ∃ s v, run_reads load_resolved (get_log_value root index) {| rec_inner := r; rec_nodes := ∅ |} = Ok (s, v)
       ∧ verify_log_exact root index proof = Ok {| vlr_root := root; vlr_index := index; vlr_value := v |})
  ∧ ∀ start limit max_bytes proof, prove_log_range root start limit max_bytes r = Ok proof →
     ∃ s sel, run_reads load_resolved (collect_log_range start limit max_bytes root)
         {| rec_inner := r; rec_nodes := ∅ |} = Ok (s, sel)
       ∧ verify_log_range root start limit max_bytes proof = Ok (range_outcome root start sel).
Proof. split; [intros index proof; apply exact_replay|intros start limit max_bytes proof; apply range_replay]. Qed.

(** On a store that serves the nodes of a log every ordinal can be proved, and its proof verifies
    with the value at that ordinal. *)
Theorem every_ordinal_provable `{Resolver LogNode R} (I : R → Prop) σ t r i v :
  lok t → serves I σ → I r → (∀ n, n ∈ log_nodes t → σ !! ln_object_id n = Some n) →
  lelems t !! i = Some v →
  ∃ proof, prove_log_exact (log_root t) (N.of_nat i) r = Ok proof
    ∧ verify_log_exact (log_root t) (N.of_nat i) proof
      = Ok {| vlr_root := log_root t; vlr_index := N.of_nat i; vlr_value := v |}.
Proof.
  intros Ht Hs HI Hn Hv. destruct t as [t|]; [|done]. cbn [lelems log_nodes lok] in *.
  pose proof (served_answers (recorded I σ) σ t (recording_serves I σ Hs) Hn Ht) as Ha.
  assert (Hget : ∃ s, run_reads load_resolved (get_log_value (log_root (Some t)) (N.of_nat i))
      {| rec_inner := r; rec_nodes := ∅ |} = Ok (s, v)).
  { unfold get_log_value. rewrite root_ref_log by done.
    cbn [fmap option_fmap option_map ok_or mbind reads_bind].
    pose proof (get_path_spec load_resolved (recorded I σ) t (S MAX_LOG_HEIGHT) i
      {| rec_inner := r; rec_nodes := ∅ |} Ha) as Hg. rewrite Hv in Hg.
    destruct Hg as (s & Hg & _); [by split; [|apply map_empty_subseteq]| |by exists s].
    destruct Ht as [Hwf Hf]. pose proof (fits_height t Hwf Hf). lia. }
  destruct Hget as [s Hget]. apply lookup_lt_Some in Hv as Hlt.
  assert (Hp : ∃ proof, prove_log_exact (log_root (Some t)) (N.of_nat i) r = Ok proof).
  { unfold prove_log_exact. rewrite (log_root_verify (Some t) Ht). cbn [mbind result_bind].
    cbn [log_root lr_len]. rewrite (proj2 (N.ltb_lt _ _)) by (unfold rlen; lia).
    cbn [require mbind result_bind]. cbn [log_root] in Hget. rewrite Hget. by eexists. }
  destruct Hp as [proof Hp]. exists proof. split; [done|].
  destruct (exact_replay _ _ _ _ Hp) as (s' & v' & Hrun & Hver). congruence.
Qed.

End Theorems.

(** ** Witnesses *)

Definition sample_values : list string :=
  (λ n, sample_id (String (Ascii.ascii_of_nat n) EmptyString)) <$> seq 48 35.
(** Thirty-five values: a full leaf, a leaf of one value and another leaf. *)
Definition sample_log : rlog := (rappend None sample_values).2.
Definition sample_log_root : LogRoot := log_root sample_log.
Definition sample_log_store : gmap string LogNode := node_map (log_nodes sample_log).
Definition sample_log_mutations : list LogMutation :=
  [ReplacePrefix 2 (log_root (lsplit sample_log 2).2.1) [sample_id "a"; sample_id "b"; sample_id "c"];
   InsertAt 33 (sample_id "d"); LogAppend [sample_id "e"; sample_id "e"];
   ReplaceAt 1 (sample_id "b") (sample_id "f"); RemoveAt 0 (sample_id "a")].
Definition plain_log_check (nodes : list LogNode) : bool := collision_check (log_node_input <$> nodes).

Lemma sample_values_valid : Forall content_id sample_values.
Proof. apply Forall_forall, (proj1 (try_each_Ok validate_collection_id sample_values ())). by vm_compute. Qed.
Lemma sample_log_ok : lok sample_log ∧ lelems sample_log = sample_values.
Proof.
  destruct (rappend_spec None sample_values I sample_values_valid) as [Hwf He]. split; [|done].
  apply lok_intro; [done|]. fold sample_log in He. rewrite He. by vm_compute.
Qed.
Definition served_check (σ : gmap string LogNode) (nodes : list LogNode) : bool :=
  forallb (λ n, bool_decide (σ !! ln_object_id n = Some n)) nodes.
Lemma served_check_sound σ nodes n :
  served_check σ nodes = true → n ∈ nodes → σ !! ln_object_id n = Some n.
Proof.
  unfold served_check. rewrite forallb_forall. intros Hall Hn%list_elem_of_In. specialize (Hall n Hn).
  by apply bool_decide_eq_true in Hall.
Qed.
Lemma sample_log_served : served_check sample_log_store (log_nodes sample_log) = true.
Proof. vm_cast_no_check (eq_refl true). Qed.
Lemma sample_log_store_has n : n ∈ log_nodes sample_log → sample_log_store !! ln_object_id n = Some n.
Proof. apply served_check_sound, sample_log_served. Qed.
Lemma sample_log_store_keyed : keyed verified sample_log_store.
Proof. apply node_map_keyed. intros n. apply log_nodes_verified, sample_log_ok. Qed.
Lemma sample_log_ready : ready sample_log sample_log_mutations.
Proof. split; [apply sample_log_ok| |by vm_compute]. repeat (apply Forall_cons; split; [by vm_compute|]). done. Qed.

Lemma sample_log_refine :
  plain_log_check ((map_to_list sample_log_store).*2
       ++ made_nodes (mutate_all sample_log sample_log_mutations)) = true.
Proof. vm_cast_no_check (eq_refl true). Qed.
Definition accepts {A} (r : coll A) : bool := match r with Ok _ => true | Err _ => false end.
Lemma sample_log_applies :
  accepts (run_prog (apply_log_internal sample_log_root sample_log_mutations) (Overlay_new sample_log_store))
  = true.
Proof. vm_cast_no_check (eq_refl true). Qed.
Lemma log_apply_refines_list_witness :
  ∃ o t', run_prog (apply_log_internal sample_log_root sample_log_mutations) (Overlay_new sample_log_store)
      = Ok (o, log_root t')
    ∧ edits sample_values sample_log_mutations = Some (lelems t').
Proof.
  pose proof sample_log_refine as Hp. apply collision_check_sound in Hp.
  pose proof (proj2 sample_log_ok) as Hv.
  destruct (log_apply_refines_list (λ s, s = sample_log_store) sample_log_store sample_log
    sample_log_mutations sample_log_store sample_log_ready (memory_serves _) eq_refl
    sample_log_store_keyed sample_log_store_has Hp) as [(o & t' & Hrun & _ & He & _)|[Hrun _]].
  - exists o, t'. split; [exact Hrun|]. rewrite <-Hv. exact He.
  - pose proof sample_log_applies as Ha. unfold sample_log_root in Ha. rewrite Hrun in Ha. discriminate Ha.
Defined.

Lemma sample_log_apply :
  match apply_log_mutations sample_log_root sample_log_mutations sample_log_store with
  | Ok out => accepts (verify_log_apply sample_log_root sample_log_mutations (lao_proof out))
      && plain_log_check (lap_nodes (lao_proof out) ++ log_nodes sample_log
           ++ made_nodes (mutate_all sample_log sample_log_mutations))
  | Err _ => false
  end = true.
Proof. vm_cast_no_check (eq_refl true). Qed.
Lemma verified_log_apply_sound_witness :
  ∃ proof v t', verify_log_apply sample_log_root sample_log_mutations proof = Ok v
    ∧ edits sample_values sample_log_mutations = Some (lelems t') ∧ vla_result v = log_root t'.
Proof.
  pose proof sample_log_apply as Hs. destruct (apply_log_mutations _ _ _) as [out|]; [|discriminate Hs].
  apply andb_true_iff in Hs as [Ha Hp]. destruct (verify_log_apply _ _ _) as [v|] eqn:Hv; [|discriminate Ha].
  apply collision_check_sound in Hp. pose proof (proj2 sample_log_ok) as He.
  destruct (verified_log_apply_sound sample_log sample_log_mutations (lao_proof out) v sample_log_ready Hp Hv)
    as (t' & _ & Hed & Hr).
  exists (lao_proof out), v, t'. split; [exact Hv|]. split; [rewrite <-He; exact Hed|exact Hr].
Defined.

Lemma sample_log_read :
  match prove_log_exact sample_log_root 34 sample_log_store with
  | Ok proof => accepts (verify_log_exact sample_log_root 34 proof)
      && plain_log_check (lex_nodes proof ++ log_nodes sample_log)
  | Err _ => false
  end = true.
Proof. vm_cast_no_check (eq_refl true). Qed.
Lemma verified_log_read_sound_witness :
  ∃ proof v, verify_log_exact sample_log_root 34 proof = Ok v
    ∧ sample_values !! 34 = Some (vlr_value v).
Proof.
  pose proof sample_log_read as Hs. destruct (prove_log_exact _ _ _) as [proof|]; [|discriminate Hs].
  apply andb_true_iff in Hs as [Ha Hp]. destruct (verify_log_exact _ _ _) as [v|] eqn:Hv; [|discriminate Ha].
  apply collision_check_sound in Hp. exists proof, v. split; [exact Hv|]. rewrite <-(proj2 sample_log_ok).
  exact (verified_log_read_sound sample_log 34 proof v (proj1 sample_log_ok) Hp Hv).
Defined.

(** Four values from ordinal 30 on, across the ends of two leaves. *)
Lemma sample_log_range :
  match prove_log_range sample_log_root 30 4 4000 sample_log_store with
  | Ok proof =>
      match verify_log_range sample_log_root 30 4 4000 proof with
      | Ok v => bool_decide (length (vrg_values v) = 4)
          && plain_log_check (lrp_nodes proof ++ log_nodes sample_log)
      | Err _ => false
      end
  | Err _ => false
  end = true.
Proof. vm_cast_no_check (eq_refl true). Qed.
Lemma verified_log_range_complete_witness :
  ∃ proof v, verify_log_range sample_log_root 30 4 4000 proof = Ok v
    ∧ length (vrg_values v) = 4 ∧ vrg_values v = take 4 (drop 30 (lelems sample_log)).
Proof.
  pose proof sample_log_range as Hs. destruct (prove_log_range _ _ _ _ _) as [proof|]; [|discriminate Hs].
  destruct (verify_log_range _ _ _ _ _) as [v|] eqn:Hv; [|discriminate Hs].
  apply andb_true_iff in Hs as [Hlen%bool_decide_eq_true Hp]. apply collision_check_sound in Hp.
  destruct (verified_log_range_complete sample_log 30 4 4000 proof v (proj1 sample_log_ok) Hp Hv) as [He _].
  exists proof, v. split; [exact Hv|]. split; [exact Hlen|]. rewrite Hlen in He. exact He.
Defined.

Lemma sample_log_split :
  match split_log sample_log_root 20 sample_log_store with
  | Ok out => accepts (verify_log_split sample_log_root 20 (lso_proof out))
      && plain_log_check (lsp_nodes (lso_proof out) ++ log_nodes sample_log
           ++ made_nodes (lsplit sample_log 20))
  | Err _ => false
  end = true.
Proof. vm_cast_no_check (eq_refl true). Qed.
Lemma verified_log_split_sound_witness :
  ∃ proof v a b, verify_log_split sample_log_root 20 proof = Ok v
    ∧ lelems a = take 20 (lelems sample_log) ∧ lelems b = drop 20 (lelems sample_log)
    ∧ vls_prefix v = log_root a ∧ vls_suffix v = log_root b.
Proof.
  pose proof sample_log_split as Hs. destruct (split_log _ _ _) as [out|]; [|discriminate Hs].
  apply andb_true_iff in Hs as [Ha Hp]. destruct (verify_log_split _ _ _) as [v|] eqn:Hv; [|discriminate Ha].
  apply collision_check_sound in Hp.
  destruct (verified_log_split_sound sample_log 20 (lso_proof out) v) as (a & b & _ & _ & H1 & H2 & H3 & H4).
  - exact (proj1 sample_log_ok).
  - rewrite (proj2 sample_log_ok). vm_compute. lia.
  - exact Hp.
  - exact Hv.
  - exists (lso_proof out), v, a, b. split; [exact Hv|]. split; [exact H1|]. split; [exact H2|].
    split; [exact H3|exact H4].
Defined.

Lemma sample_log_made : plain_log_check (made_nodes (rappend None sample_values)) = true.
Proof. vm_cast_no_check (eq_refl true). Qed.
Lemma build_log_matches_append_witness :
  ∃ o root objects, build_log sample_values = Ok (root, objects)
    ∧ run_prog (append_values LogRoot_empty sample_values) (Overlay_new (∅ : gmap string LogNode))
      = Ok (o, root).
Proof.
  pose proof sample_log_made as Hp. apply collision_check_sound in Hp.
  destruct (build_log_matches_append (∅ : gmap string LogNode) sample_values)
    as (t & o & objects & _ & _ & Hrun & Hb & _).
  - exact sample_values_valid.
  - by vm_compute.
  - apply memory_serves.
  - exact Hp.
  - exists o, (log_root t), objects. split; [exact Hb|exact Hrun].
Defined.

Lemma sample_log_audit : accepts (audit_log sample_log_root sample_log_store) = true.
Proof. vm_cast_no_check (eq_refl true). Qed.
Lemma audit_accepts_log_witness :
  ∃ values objects t, audit_log sample_log_root sample_log_store = Ok (values, objects)
    ∧ sample_log_root = log_root t ∧ values = lelems t.
Proof.
  pose proof sample_log_audit as Hs.
  destruct (audit_log sample_log_root sample_log_store) as [[values objects]|] eqn:Ha; [|discriminate Hs].
  destruct (audit_accepts_log sample_log_root sample_log_store values objects Ha) as (t & _ & Hr & Hv & _).
  exists values, objects, t. split; [reflexivity|]. split; [exact Hr|exact Hv].
Defined.
Lemma every_ordinal_provable_witness :
  ∃ proof v, prove_log_exact sample_log_root 34 sample_log_store = Ok proof
    ∧ verify_log_exact sample_log_root 34 proof
      = Ok {| vlr_root := sample_log_root; vlr_index := 34; vlr_value := v |}.
Proof.
  destruct (lelems sample_log !! 34) as [v|] eqn:Hv.
  - destruct (every_ordinal_provable (λ s, s = sample_log_store) sample_log_store sample_log sample_log_store
      34 v (proj1 sample_log_ok) (memory_serves _) eq_refl sample_log_store_has Hv) as (proof & Hp & Hver).
    exists proof, v. split; [exact Hp|exact Hver].
  - exfalso. rewrite (proj2 sample_log_ok) in Hv. vm_compute in Hv. discriminate Hv.
Defined.
Lemma log_read_proofs_verify_witness :
  ∃ exact ranged v w, prove_log_exact sample_log_root 34 sample_log_store = Ok exact
    ∧ verify_log_exact sample_log_root 34 exact = Ok v
    ∧ prove_log_range sample_log_root 30 4 4000 sample_log_store = Ok ranged
    ∧ verify_log_range sample_log_root 30 4 4000 ranged = Ok w.
Proof.
  pose proof sample_log_read as H1. pose proof sample_log_range as H2.
  destruct (prove_log_exact sample_log_root 34 sample_log_store) as [exact|] eqn:Hx; [|discriminate H1].
  destruct (prove_log_range sample_log_root 30 4 4000 sample_log_store) as [ranged|] eqn:Hr; [|discriminate H2].
  destruct (log_read_proofs_verify sample_log_root sample_log_store) as [Hexact Hrange].
  destruct (Hexact 34%N exact Hx) as (s1 & v & _ & Hv).
  destruct (Hrange 30%N 4 4000%N ranged Hr) as (s2 & sel & _ & Hw).
  exists exact, ranged. eexists. eexists. split; [reflexivity|]. split; [exact Hv|].
  split; [reflexivity|exact Hw].
Defined.
