(* ===== verification/MapTheorems.v ===== *)
(** * Theorems on the authenticated map

    A map is authenticated by its root: the root binds its contents, a batch
    of mutations computes the root of the mutated contents, and a proof that
    verifies tells the truth about the contents, unless the hash inputs of the
    proof and of the map contain a collision. *)

From S2P Require Import Prelude Identity CommandIndex IndexSound CollectionHash Collections.
From S2P Require Import Stores MapNode MapTree MapProof Trie MapRefine MapApply MapSound MapReads.
From S2P Require Import MapBuild Samples.

Section Theorems.
Context `{Sha256}.

(** C22: the mutation algorithm of the authenticated map refines a function on plain entries: on
    any store that serves the nodes of a map, a batch gives the root of the entries after its
    puts and removals, with every node of the result in the overlay or in the store, and exactly
    the conflict of a stale expectation otherwise; the inputs hashed for nodes are assumed free
    of collisions. *)
Theorem map_apply_refines_contents `{Resolver MapNode R} (I : R → Prop) σ m mutations r :
  ready m mutations → serves I σ → I r →
  keyed verified σ → plain_nodes ((map_to_list σ).*2 ++ (versions m mutations ≫= contents_nodes)) →
  (∀ n, n ∈ contents_nodes m → σ !! mn_object_id n = Some n) →
  match mutate_all m mutations with
  | Some m' =>
      ∃ o, run_prog (apply_map_internal (root_of_contents m) mutations) (Overlay_new r)
             = Ok (o, root_of_contents m')
        ∧ ∀ n, n ∈ contents_nodes m' →
            ov_pending o !! mn_object_id n = Some n ∨ σ !! mn_object_id n = Some n
  | None =>
      run_prog (apply_map_internal (root_of_contents m) mutations) (Overlay_new r)
      = Err MutationConflict
  end.
Proof.
  intros Hr Hs HI Hk Hd%distinct_verified Hn. set (U := among _) in Hd.
  assert (HU : keyed U σ).
  { intros id n Hid. destruct (Hk id n Hid) as [? ?]. split; [|done]. split; [done|].
    apply elem_of_app. left. apply (list_elem_of_fmap_2 snd _ (id, n)). by apply elem_of_map_to_list. }
  assert (Hv : ∀ m' n, m' ∈ versions m mutations → n ∈ contents_nodes m' → U n).
  { intros m' n Hm' Hn'. destruct (ready_version _ _ _ Hr Hm') as [? ?]. split.
    - by apply (contents_nodes_verified m').
    - apply elem_of_app. right. apply list_elem_of_bind. by exists m'. }
  pose proof (apply_internal_spec I σ U Hs Hd HU (Overlay_new r) m mutations Hr) as Happly.
  destruct (mutate_all m mutations) as [m'|].
  - destruct Happly as (o & Hrun & _ & Hh); [by apply new_inv|by apply contents_held|exact Hv|].
    exists o. split; [done|]. intros n Hn'. unfold contents_nodes in Hn'.
    by destruct (trie_of m'); [apply Hh|apply elem_of_nil in Hn'].
  - apply Happly; [by apply new_inv|by apply contents_held|exact Hv].
Qed.

(** C23: a proof of a mutation batch that verifies against the root of a map, whoever made it,
    shows that every expectation of the batch holds for the entries of the map and that its
    result is the root of the mutated entries, unless the hash inputs of the proof, the keys and
    the map contain a collision. *)
Theorem verified_map_apply_sound m mutations proof v :
  contents_valid m → (N.of_nat (size m + length mutations) ≤ MAX_EXACT_INTEGER)%N →
  plain_keys (elements (dom m) ++ (mutation_key <$> mutations)) →
  plain_nodes (apf_nodes proof ++ (versions m (apf_mutations proof) ≫= contents_nodes)) →
  verify_map_apply (root_of_contents m) mutations proof = Ok v →
  ∃ m', mutate_all m mutations = Some m' ∧ va_result v = root_of_contents m'.
Proof.
  intros Hv Hsz Hpk Hpn Hok. unfold verify_map_apply in Hok. inv_ok. to_prop.
  match goal with Hc : canonical_mutations _ = Ok _ |- _ =>
    apply canonical_mutations_spec in Hc as (Hperm & Hmv & Hnd) end.
  unfold ApplyProofResolver_new in *. inv_ok. subst. cbn [va_result].
  match goal with Hx : index_nodes _ _ = Ok ?s |- _ => apply index_nodes_keyed in Hx; rename s into σ, Hx into Hσ end.
  match goal with Hx : run_prog _ _ = Ok ?s |- _ => rename Hx into Hrun; destruct s as [o root] end.
  pose proof (ready_perm _ _ _ (symmetry Hperm) (ready_intro m mutations Hv Hsz Hpk Hmv)) as Hr.
  rewrite (mutate_all_perm m mutations (apf_mutations proof)) by done.
  apply distinct_verified in Hpn.
  eapply (apply_run_sound (λ r, ap_nodes r = σ) σ);
    [exact Hr|apply apply_proof_serves| |exact Hpn|..|exact Hrun].
  - done.
  - eapply keyed_mono, Hσ. apply among_app_l.
  - intros m' n Hm' Hn. destruct (ready_version _ _ _ Hr Hm'). split; [by apply (contents_nodes_verified m')|].
    apply elem_of_app. right. apply list_elem_of_bind. by exists m'.
Qed.

(** an exact proof that verifies against the root of a map shows the value of the key in
    that map, absence included, and its rank in the order of the key hashes, unless the hash
    inputs contain a collision. *)
Theorem verified_map_read_sound m key proof v :
  contents_valid m → plain_keys (key :: elements (dom m)) →
  plain_nodes (ex_nodes proof ++ contents_nodes m) →
  verify_map_exact (root_of_contents m) key proof = Ok v →
  vr_value v = m !! key ∧ vr_rank v = contents_rank m key.
Proof.
  intros Hv Hpk Hpn Hok. unfold verify_map_exact in Hok. inv_ok. to_prop.
  unfold map_key_hash, ProofResolver_new in *. inv_ok. cbn [vr_value vr_rank].
  match goal with Hx : index_nodes _ _ = Ok ?s |- _ => apply index_nodes_keyed in Hx; rename s into σ, Hx into Hσ end.
  match goal with Hx : run_reads _ _ _ = Ok ?s |- _ => rename Hx into Hrun; destruct s as [r outcome] end.
  match goal with Hx : hash_digest _ _ = ex_key_hash proof |- _ => rewrite <-Hx in Hrun end.
  set (key := ex_key proof) in *.
  assert (Hh : hash_distinct ({[key]} ∪ dom m)).
  { apply distinct_hashes in Hpk.
    - eapply hash_distinct_subset, Hpk. cbn. by rewrite list_to_set_elements_L.
    - intros k [->|Hin%elem_of_elements%elem_of_dom]%elem_of_cons; [done|].
      destruct Hin as [w Hin]. by apply Hv in Hin as [? _]. }
  apply distinct_verified in Hpn. eapply lookup_run_sound in Hrun;
    [|done|done|apply (proof_serves σ)|done|exact Hpn| |].
  - by subst outcome.
  - eapply keyed_mono, Hσ. apply among_app_l.
  - intros n Hn. split; [|apply elem_of_app; by right].
    eapply contents_nodes_verified; [|done|done]. eapply hash_distinct_subset, Hh. set_solver.
Qed.

(** The root of a map binds its entries: two maps with the same root are equal, unless the
    inputs hashed for their keys and nodes contain a collision. *)
Theorem map_root_binds_contents m1 m2 :
  contents_valid m1 → contents_valid m2 →
  plain_keys (elements (dom m1) ++ elements (dom m2)) →
  plain_nodes (contents_nodes m1 ++ contents_nodes m2) →
  root_of_contents m1 = root_of_contents m2 → m1 = m2.
Proof.
  intros H1 H2 Hk Hn. assert (Hd : hash_distinct (dom m1) ∧ hash_distinct (dom m2)).
  { split; (apply contents_keys; [|done]); (eapply collision_free_subset; [|exact Hk]); intros x;
      rewrite fmap_app, elem_of_app; auto. }
  destruct Hd. apply distinct_verified in Hn. apply (root_inj _ m1 m2 Hn); [done|done|..];
    intros n Hin; (split; [|apply elem_of_app; auto]).
  - by apply (contents_nodes_verified m1).
  - by apply (contents_nodes_verified m2).
Qed.

(** C25: every exact proof that prove_map_exact produces, from any resolver, verifies against
    the same root and key with the outcome that its producer saw: it fits the node and byte
    bounds and leaves no node unused; nothing is assumed of the resolver or of the hash. *)
Theorem exact_proof_roundtrip `{Resolver MapNode R} root key (r : R) proof :
  prove_map_exact root key r = Ok proof →
  ∃ s outcome,
    run_reads load_resolved (map_lookup root key (ex_key_hash proof))
      {| rec_inner := r; rec_nodes := ∅ |} = Ok (s, outcome)
    ∧ verify_map_exact root key proof
      = Ok {| vr_root := root; vr_key := key; vr_value := lo_value outcome; vr_rank := lo_rank outcome |}.
Proof.
  unfold prove_map_exact. intros Hp. inv_ok.
  match goal with Hx : run_reads _ _ _ = Ok ?p |- _ => rename Hx into Hrun; destruct p as [s outcome] end.
  cbn [ex_key_hash fst]. exists s, outcome. split; [done|].
  destruct (replay_proof _ _ _ _ Hrun) as (Hk & q & Hq & Hfin).
  assert (Hleaf : one_leaf MAX_MAP_PATH_NODES (rec_nodes s)) by by eapply map_lookup_record.
  unfold verify_map_exact. cbn [ex_root ex_key ex_key_hash ex_nodes]. redo_ok.
  rewrite !bool_decide_eq_true_2 by done. cbn [andb require mbind result_bind].
  unfold ProofResolver_new. rewrite (proj2 (Nat.leb_le _ _)) by by apply proof_length.
  cbn [require mbind result_bind]. rewrite proof_bytes_fit by done. cbn [mbind result_bind].
  rewrite index_nodes_values by done. cbn [mbind result_bind]. rewrite Hq.
  cbn [mbind result_bind fst snd]. by rewrite Hfin.
Qed.

(** An audit accepts only the root of a map: when it succeeds on any resolver there are
    valid entries whose root it is, the audited entries are all of them in the order of their
    hashes with the right positions, and the objects are the nodes of the map; no assumption on
    the hash is needed. *)
Theorem audit_accepts_contents `{Resolver MapNode R} root (r : R) entries objects :
  audit_map root r = Ok (entries, objects) →
  ∃ m, root = root_of_contents m ∧ contents_valid m ∧ hash_distinct (dom m)
    ∧ entries = entry_position <$> contents_list m ∧ objects ≡ₚ contents_nodes m.
Proof.
  unfold audit_map. generalize MAX_MAP_PATH_NODES. intros fuel Ha. apply bind_Ok in Ha as ([] & Hroot & Ha).
  apply root_verify_size in Hroot as [Hs Hz]. destruct root as [[id|] n]; cbn [mr_node mr_entries] in *.
  - apply bind_Ok in Ha as ([r' st] & Hrun & Ha). inv_ok.
    apply audit_subtree_sound in Hrun as (t & [Hwf _ Href Hval He Ho]).
    cbn [au_entries au_objects app fst snd] in *. unfold trie_ref in Href. injection Href as -> ->.
    destruct (trie_contents t Hwf Hval Hs) as (Hv & Hd & Ht). exists (tmap t).
    unfold root_of_contents, contents_list, contents_nodes. rewrite Ht.
    split; [reflexivity|]. split; [exact Hv|]. split; [exact Hd|]. split; [exact He|].
    rewrite sort_by_key_perm, Ho. reflexivity.
  - injection Ha as <- <-. exists ∅. rewrite (Hz eq_refl).
    split; [reflexivity|]. split; [apply contents_valid_empty|]. split; [|split; reflexivity].
    intros j k Hj. rewrite dom_empty_L in Hj. by apply elem_of_empty in Hj.
Qed.

(** C24: a page that verifies against the root of a map omits nothing: its entries are the
    consecutive entries of the map from the position after the cursor, at most the limit and
    within the byte budget, and it has a next position exactly when entries remain, because the
    next one would exceed the limit or the budget; the keys and the nodes of the map and of the
    proof are assumed free of hash collisions. *)
Theorem verified_page_complete m after limit max_bytes proof v :
  contents_valid m → plain_keys (elements (after_key after) ++ elements (dom m)) →
  plain_nodes (rg_nodes proof ++ contents_nodes m) →
  verify_map_range (root_of_contents m) after limit max_bytes proof = Ok v →
  ∃ start n, cursor m after start
    ∧ let rest := drop (N.to_nat start) (contents_list m) in
      pg_entries v = entry_position <$> take n rest
      ∧ n ≤ limit ∧ (total (entry_bytes <$> take n rest) ≤ max_bytes)%N
      ∧ match pg_next_position v with
        | None => n = length rest
        | Some p => n < length rest ∧ fst <$> last (pg_entries v) = Some p
            ∧ (n = limit ∨ max_bytes < total (entry_bytes <$> take (S n) rest))%N
        end.
Proof.
  intros Hv Hpk Hpn Hok. unfold verify_map_range, validate_page_request, ProofResolver_new in Hok.
  inv_ok. to_prop. cbn [pg_entries pg_next_position].
  match goal with Hx : index_nodes _ _ = Ok ?s |- _ => apply index_nodes_keyed in Hx; rename s into σ, Hx into Hσ end.
  match goal with Hx : run_reads _ _ _ = Ok ?p |- _ => rename Hx into Hrun; destruct p as [r sel] end.
  pose proof (range_after_valid _ _ _ _ _ _ Hrun) as Hafter.
  assert (Hh : hash_distinct (after_key after ∪ dom m)).
  { apply distinct_hashes in Hpk.
    - by rewrite list_to_set_app_L, !list_to_set_elements_L in Hpk.
    - intros k [Hin%elem_of_elements|Hin%elem_of_elements%elem_of_dom]%elem_of_app; [by apply Hafter|].
      destruct Hin as [w Hin]. by apply Hv in Hin as [? _]. }
  apply distinct_verified in Hpn.
  eapply (page_run_sound (λ r, pr_nodes r = σ) σ) in Hrun as (start & n & Hc & [He Hl Hu Hm Hb] & Hne);
    [|done|done|done|apply proof_serves|done|exact Hpn|eapply keyed_mono, Hσ; apply among_app_l|].
  - exists start, n. cbn [snd]. rewrite <-Hu. split_and!; try done.
    destruct (sel_boundary sel) as [b|]; [|exact Hb].
    destruct (last (sel_entries sel)) as [e|] eqn:Hlast.
    + destruct Hb as (kv & Hkv & _ & Hend). cbn [fmap option_fmap option_map].
      split; [by eapply lookup_lt_Some|]. by split.
    + apply last_None in Hlast. by destruct Hne.
  - intros k Hk. split; [|apply elem_of_app; by right].
    eapply contents_nodes_verified; [|done|done]. eapply hash_distinct_subset, Hh. set_solver.
Qed.

(** C26: building a whole map bottom up from valid entries with different keys succeeds and
    gives the root that the entries have whatever their order, with exactly the nodes of the map
    as objects; together with the refinement of batches this makes the root independent of the
    history; the keys and the nodes of the map are assumed free of hash collisions. *)
Theorem build_map_builds_contents entries :
  Forall entry_valid entries → NoDup entries.*1 → (N.of_nat (length entries) ≤ MAX_EXACT_INTEGER)%N →
  plain_keys entries.*1 → plain_nodes (contents_nodes (list_to_map entries)) →
  ∃ objects, build_map entries = Ok (root_of_contents (list_to_map entries), objects)
    ∧ ∀ n, n ∈ objects ↔ n ∈ contents_nodes (list_to_map entries).
Proof.
  intros Hv Hn Hl Hk Hp. assert (Hh : hash_distinct (dom (list_to_map entries : gmap string string))).
  { rewrite dom_list_to_map_L. apply distinct_hashes; [done|]. intros k (kv & -> & Hkv)%list_elem_of_fmap.
    rewrite Forall_forall in Hv. by apply Hv. }
  apply (build_map_spec _ entries Hv Hn Hl Hh (distinct_verified _ Hp)). intros n Hin. split; [|done].
  apply (contents_nodes_verified (list_to_map entries)); [done| |done]. by apply list_contents_valid.
Qed.
End Theorems.

(** ** Witnesses *)

Definition sample_entries : list (string * string) :=
  [("alpha", sample_id "a"); ("beta", sample_id "b")].
Definition sample_map : gmap string string := list_to_map sample_entries.
Definition sample_map_root : MapRoot := root_of_contents sample_map.
Definition sample_store : gmap string MapNode := node_map (contents_nodes sample_map).
Definition sample_mutations : list MapMutation :=
  [Remove "alpha" (sample_id "a"); Put "gamma" Absent (sample_id "c")].
Definition plain_nodes_check (nodes : list MapNode) : bool := collision_check (map_node_input <$> nodes).
Definition plain_keys_check (keys : list string) : bool := collision_check (map_key_input <$> keys).

Lemma sample_entries_valid : Forall entry_valid sample_entries.
Proof. repeat constructor. Qed.
Lemma sample_entries_distinct : NoDup sample_entries.*1.
Proof. apply (bool_decide_unpack _). by vm_compute. Qed.
Lemma sample_map_valid : contents_valid sample_map.
Proof. apply list_contents_valid; [apply sample_entries_valid|apply sample_entries_distinct|by vm_compute]. Qed.

Lemma sample_build :
  plain_keys_check sample_entries.*1 && plain_nodes_check (contents_nodes sample_map) = true.
Proof. vm_cast_no_check (eq_refl true). Qed.
Lemma build_map_builds_contents_witness :
  ∃ objects, build_map sample_entries = Ok (sample_map_root, objects).
Proof.
  pose proof sample_build as [Hk Hn]%andb_true_iff.
  destruct (build_map_builds_contents sample_entries) as (objects & Hb & _).
  - apply sample_entries_valid.
  - apply sample_entries_distinct.
  - by vm_compute.
  - by apply collision_check_sound.
  - by apply collision_check_sound.
  - exists objects. exact Hb.
Defined.

Lemma sample_read :
  match prove_map_exact sample_map_root "alpha" sample_store with
  | Ok proof =>
      match verify_map_exact sample_map_root "alpha" proof with
      | Ok _ => plain_keys_check ("alpha" :: elements (dom sample_map))
                && plain_nodes_check (ex_nodes proof ++ contents_nodes sample_map)
      | Err _ => false
      end
  | Err _ => false
  end = true.
Proof. vm_cast_no_check (eq_refl true). Qed.
Lemma verified_map_read_sound_witness :
  ∃ proof v, verify_map_exact sample_map_root "alpha" proof = Ok v
    ∧ vr_value v = sample_map !! "alpha" ∧ vr_rank v = contents_rank sample_map "alpha".
Proof.
  pose proof sample_read as Hs. destruct (prove_map_exact _ _ _) as [proof|]; [|discriminate Hs].
  destruct (verify_map_exact _ _ _) as [v|] eqn:Hv; [|discriminate Hs].
  apply andb_true_iff in Hs as [Hk Hn]. exists proof, v. split; [exact Hv|].
  apply (verified_map_read_sound sample_map "alpha" proof v); [apply sample_map_valid| | |exact Hv];
    by apply collision_check_sound.
Defined.
Lemma exact_proof_roundtrip_witness :
  ∃ proof v, prove_map_exact sample_map_root "alpha" sample_store = Ok proof
    ∧ verify_map_exact sample_map_root "alpha" proof = Ok v.
Proof.
  pose proof sample_read as Hs.
  destruct (prove_map_exact sample_map_root "alpha" sample_store) as [proof|] eqn:Hp; [|discriminate Hs].
  destruct (exact_proof_roundtrip sample_map_root "alpha" sample_store proof Hp) as (s & outcome & _ & Hv).
  exists proof. eexists. split; [reflexivity|]. exact Hv.
Defined.

Definition sample_reversed : gmap string string := list_to_map (reverse sample_entries).
Lemma sample_binding_check :
  bool_decide (root_of_contents sample_map = root_of_contents sample_reversed)
  && plain_keys_check (elements (dom sample_map) ++ elements (dom sample_reversed))
  && plain_nodes_check (contents_nodes sample_map ++ contents_nodes sample_reversed) = true.
Proof. vm_cast_no_check (eq_refl true). Qed.
Lemma sample_reversed_valid : contents_valid sample_reversed.
Proof.
  apply list_contents_valid; [repeat constructor|apply (bool_decide_unpack _)|]; by vm_compute.
Qed.
Lemma map_root_binds_contents_witness :
  root_of_contents sample_map = root_of_contents sample_reversed ∧ sample_map = sample_reversed.
Proof.
  pose proof sample_binding_check as [[Heq%bool_decide_eq_true Hk]%andb_true_iff Hn]%andb_true_iff.
  split; [exact Heq|]. apply (map_root_binds_contents sample_map sample_reversed).
  - apply sample_map_valid.
  - apply sample_reversed_valid.
  - by apply collision_check_sound.
  - by apply collision_check_sound.
  - exact Heq.
Defined.

Lemma sample_audit :
  match audit_map sample_map_root sample_store with Ok _ => true | Err _ => false end = true.
Proof. vm_cast_no_check (eq_refl true). Qed.
Lemma audit_accepts_contents_witness :
  ∃ entries objects m, audit_map sample_map_root sample_store = Ok (entries, objects)
    ∧ sample_map_root = root_of_contents m ∧ entries = entry_position <$> contents_list m.
Proof.
  pose proof sample_audit as Hs.
  destruct (audit_map sample_map_root sample_store) as [[entries objects]|] eqn:Ha; [|discriminate Hs].
  destruct (audit_accepts_contents sample_map_root sample_store entries objects Ha)
    as (m & Hr & _ & _ & He & _).
  exists entries, objects, m. split; [reflexivity|]. split; [exact Hr|exact He].
Defined.

(** A page of one entry. *)
Lemma sample_page :
  match prove_map_range sample_map_root None 1 4000 sample_store with
  | Ok proof =>
      match verify_map_range sample_map_root None 1 4000 proof with
      | Ok v => bool_decide (length (pg_entries v) = 1)
                && plain_keys_check (elements (after_key None) ++ elements (dom sample_map))
                && plain_nodes_check (rg_nodes proof ++ contents_nodes sample_map)
      | Err _ => false
      end
  | Err _ => false
  end = true.
Proof. vm_cast_no_check (eq_refl true). Qed.
Lemma verified_page_complete_witness :
  ∃ proof v start n, verify_map_range sample_map_root None 1 4000 proof = Ok v
    ∧ length (pg_entries v) = 1 ∧ cursor sample_map None start
    ∧ pg_entries v = entry_position <$> take n (drop (N.to_nat start) (contents_list sample_map)).
Proof.
  pose proof sample_page as Hs. destruct (prove_map_range _ _ _ _ _) as [proof|]; [|discriminate Hs].
  destruct (verify_map_range _ _ _ _ _) as [v|] eqn:Hv; [|discriminate Hs].
  apply andb_true_iff in Hs as [[Hlen%bool_decide_eq_true Hk]%andb_true_iff Hn].
  destruct (verified_page_complete sample_map None 1 4000 proof v) as (start & n & Hc & He & _).
  - apply sample_map_valid.
  - by apply collision_check_sound.
  - by apply collision_check_sound.
  - exact Hv.
  - exists proof, v, start, n. split; [exact Hv|]. split; [exact Hlen|]. split; [exact Hc|exact He].
Defined.

Lemma sample_apply :
  match apply_map_mutations sample_map_root sample_mutations sample_store with
  | Ok out =>
      match verify_map_apply sample_map_root sample_mutations (out_proof out) with
      | Ok _ =>
          plain_keys_check (elements (dom sample_map) ++ (mutation_key <$> sample_mutations))
          && plain_nodes_check (apf_nodes (out_proof out)
               ++ (versions sample_map (apf_mutations (out_proof out)) ≫= contents_nodes))
      | Err _ => false
      end
  | Err _ => false
  end = true.
Proof. vm_cast_no_check (eq_refl true). Qed.
Lemma verified_map_apply_sound_witness :
  ∃ proof v m', verify_map_apply sample_map_root sample_mutations proof = Ok v
    ∧ mutate_all sample_map sample_mutations = Some m' ∧ va_result v = root_of_contents m'.
Proof.
  pose proof sample_apply as Hs. destruct (apply_map_mutations _ _ _) as [out|]; [|discriminate Hs].
  destruct (verify_map_apply _ _ _) as [v|] eqn:Hv; [|discriminate Hs].
  apply andb_true_iff in Hs as [Hk Hn].
  destruct (verified_map_apply_sound sample_map sample_mutations (out_proof out) v) as (m' & Hm & Hr).
  - apply sample_map_valid.
  - by vm_compute.
  - by apply collision_check_sound.
  - by apply collision_check_sound.
  - exact Hv.
  - exists (out_proof out), v, m'. split; [exact Hv|]. split; [exact Hm|exact Hr].
Defined.

Lemma sample_refine :
  match mutate_all sample_map sample_mutations with Some _ => true | None => false end
  && plain_keys_check (elements (dom sample_map) ++ (mutation_key <$> sample_mutations))
  && plain_nodes_check ((map_to_list sample_store).*2
       ++ (versions sample_map sample_mutations ≫= contents_nodes))
  && plain_nodes_check (contents_nodes sample_map) = true.
Proof. vm_cast_no_check (eq_refl true). Qed.
Lemma sample_mutations_verify : Forall (λ mu, MapMutation_verify mu = Ok ()) sample_mutations.
Proof. repeat constructor. Qed.
Lemma sample_store_verified n : n ∈ contents_nodes sample_map → verified n.
Proof.
  pose proof sample_build as [Hk _]%andb_true_iff. apply contents_nodes_verified; [|apply sample_map_valid].
  apply collision_check_sound in Hk. apply contents_keys; [|apply sample_map_valid].
  eapply collision_free_subset; [|exact Hk]. intros x (k & -> & Hin)%list_elem_of_fmap.
  apply (list_elem_of_fmap_2 map_key_input). apply elem_of_elements in Hin.
  unfold sample_map in Hin. rewrite dom_list_to_map_L in Hin. by apply elem_of_list_to_set in Hin.
Qed.
Lemma map_apply_refines_contents_witness :
  ∃ o m', mutate_all sample_map sample_mutations = Some m'
    ∧ run_prog (apply_map_internal sample_map_root sample_mutations) (Overlay_new sample_store)
      = Ok (o, root_of_contents m').
Proof.
  pose proof sample_refine as [[[Hm Hk]%andb_true_iff Hp]%andb_true_iff Hn]%andb_true_iff.
  apply collision_check_sound in Hk, Hp, Hn.
  assert (Hr : ready sample_map sample_mutations).
  { apply ready_intro; [apply sample_map_valid|by vm_compute|exact Hk|apply sample_mutations_verify]. }
  pose proof (map_apply_refines_contents (λ s, s = sample_store) sample_store sample_map
    sample_mutations sample_store Hr (memory_serves sample_store) eq_refl) as Ha.
  destruct (mutate_all sample_map sample_mutations) as [m'|]; [|discriminate Hm].
  destruct Ha as (o & Ho & _).
  - apply node_map_keyed, sample_store_verified.
  - exact Hp.
  - intros n Hin. apply (node_map_lookup _ (distinct_verified _ Hn)); [|exact Hin].
    intros k Hk'. split; [by apply sample_store_verified|exact Hk'].
  - exists o, m'. split; [reflexivity|exact Ho].
Defined.
