(* ===== verification/VerifyTheorems.v ===== *)
(** * The projection verifier always decides

    [Projection::verify_reducer_invariants] of
    [crates/cymule-core/src/model.rs] ends with a verdict on every projection,
    well formed or not: no loop runs on and no map is indexed at an absent
    key. *)

From S2P Require Import Prelude Identity Canonical Ir Model Effects DerivedIndex Reducer.
From S2P Require Import Verify.

(** A computation that ends with a value or an error of the program. *)
Definition decides {A} (m : core A) : Prop := m ≠ Err Panic.

Lemma decides_bind {A B} (m : core A) (f : A → core B) :
  decides m → (∀ a, m = Ok a → decides (f a)) → decides (m ≫= f).
Proof. unfold decides. destruct m as [a|e]; cbn; [intros _ Hf; by apply Hf|congruence]. Qed.
Lemma decides_require b e : e ≠ Panic → decides (require b e).
Proof. unfold decides. destruct b; cbn; congruence. Qed.
Lemma decides_ok_or {A} (o : option A) e : e ≠ Panic → decides (ok_or o e).
Proof. unfold decides. destruct o; cbn; congruence. Qed.
Lemma decides_Ok {A} (a : A) : decides (Ok a).
Proof. done. Qed.
Lemma decides_Err {A} e : e ≠ Panic → decides (A := A) (Err e).
Proof. unfold decides. congruence. Qed.
Lemma decides_each {A} (f : A → core ()) l :
  (∀ a, a ∈ l → decides (f a)) → decides (try_each f l).
Proof.
  induction l as [|a l IH]; intros Hf; [done|]. cbn. apply decides_bind.
  - apply Hf. by left.
  - intros _ _. apply IH. intros b Hb. apply Hf. by right.
Qed.
Lemma decides_fold {A S} (f : S → A → core S) l s :
  (∀ s a, a ∈ l → decides (f s a)) → decides (try_fold f s l).
Proof.
  revert s. induction l as [|a l IH]; intros s Hf; [done|]. cbn. apply decides_bind.
  - apply Hf. by left.
  - intros s' _. apply IH. intros t b Hb. apply Hf. by right.
Qed.
Create HintDb decides.
#[export] Hint Resolve decides_require decides_ok_or decides_Ok decides_Err : decides.
#[export] Hint Extern 1 (_ ≠ Panic) => discriminate : decides.
(** Decompose a computation into its calls. *)
Ltac decides :=
  repeat first
    [ progress eauto with decides
    | apply decides_bind; [|intros ? ?]
    | apply decides_each; intros ? ?
    | match goal with
      | |- decides (if ?b then _ else _) => destruct b
      | |- decides (match ?x with _ => _ end) => destruct x
      | |- decides (let '(_, _) := ?x in _) => destruct x
      end ].

Lemma decides_content_id v : decides (validate_content_id v).
Proof. unfold validate_content_id. decides. Qed.
Lemma decides_kind k : decides (validate_artifact_kind k).
Proof. unfold validate_artifact_kind. decides. Qed.
#[export] Hint Resolve decides_content_id decides_kind : decides.
Lemma decides_ref r : decides (ArtifactRef_validate r).
Proof. unfold ArtifactRef_validate. decides. Qed.
#[export] Hint Resolve decides_ref : decides.
Lemma decides_args r : decides (validate_effect_args_reference r).
Proof. unfold validate_effect_args_reference. decides. Qed.
Lemma decides_failure f : decides (RunFailure_verify f).
Proof. unfold RunFailure_verify, validate_failure_code. decides. Qed.
#[export] Hint Resolve decides_args decides_failure : decides.

(** ** Canonicalisation decides *)

Section SerInd.
Context (P : Ser → Prop).
Hypothesis HLeaf : ∀ v, match v with
  | SerSome _ | SerNewtype _ | SerSeq _ | SerMap _ | SerStruct _ => False | _ => True end → P v.
Hypothesis HSome : ∀ v, P v → P (SerSome v).
Hypothesis HNewtype : ∀ v, P v → P (SerNewtype v).
Hypothesis HSeq : ∀ l, Forall P l → P (SerSeq l).
Hypothesis HMap : ∀ l, Forall (λ kv, P kv.1 ∧ P kv.2) l → P (SerMap l).
Hypothesis HStruct : ∀ l, Forall (λ kv, P kv.2) l → P (SerStruct l).
Fixpoint Ser_nested_ind (v : Ser) : P v :=
  match v with
  | SerSome v => HSome v (Ser_nested_ind v)
  | SerNewtype v => HNewtype v (Ser_nested_ind v)
  | SerSeq l => HSeq l ((fix go l : Forall P l :=
      match l with
      | [] => Forall_nil_2 P
      | x :: l => Forall_cons_2 P x l (Ser_nested_ind x) (go l)
      end) l)
  | SerMap l => HMap l ((fix go l : Forall (λ kv, P kv.1 ∧ P kv.2) l :=
      match l with
      | [] => Forall_nil_2 _
      | (k, x) :: l =>
          Forall_cons_2 (λ kv, P kv.1 ∧ P kv.2) (k, x) l
            (conj (Ser_nested_ind k) (Ser_nested_ind x)) (go l)
      end) l)
  | SerStruct l => HStruct l ((fix go l : Forall (λ kv, P kv.2) l :=
      match l with
      | [] => Forall_nil_2 _
      | (k, x) :: l => Forall_cons_2 (λ kv, P kv.2) (k, x) l (Ser_nested_ind x) (go l)
      end) l)
  | v => HLeaf v I
  end.
End SerInd.

Lemma decides_map {A B} (f : A → core B) l :
  (∀ a, a ∈ l → decides (f a)) → decides (try_map f l).
Proof.
  induction l as [|a l IH]; intros Hf; [done|]. cbn. apply decides_bind.
  - apply Hf. by left.
  - intros b _. apply decides_bind; [|done]. apply IH. intros c Hc. apply Hf. by right.
Qed.

Lemma decides_probe v : decides (number_probe v).
Proof.
  induction v as [v Hv|v IH|v IH|l IH|l IH|l IH] using Ser_nested_ind; cbn; try done.
  - destruct v; try done; unfold number_probe, probe_float; decides.
  - rewrite Forall_forall in IH. apply decides_each. auto.
  - rewrite Forall_forall in IH. apply decides_each. intros [k x] Hx.
    destruct (IH _ Hx). by apply decides_bind.
  - rewrite Forall_forall in IH. apply decides_each. intros [k x] Hx. by apply (IH _ Hx).
Qed.
Lemma decides_normalize v : decides (normalize_ijson_numbers v).
Proof.
  induction v as [|b|n|s|l IH|l IH] using Json_nested_ind; cbn; try done.
  - apply decides_bind; [|done]. unfold normalize_number. destruct n; decides.
  - rewrite Forall_forall in IH. apply decides_bind; [|done]. by apply decides_map.
  - rewrite Forall_forall in IH. apply decides_bind; [|done]. apply decides_map.
    intros [k x] Hx. apply decides_bind; [|done]. by apply (IH _ Hx).
Qed.
#[export] Hint Resolve decides_probe decides_normalize : decides.

Section Verifier.
Context `{Sha256} `{Canonical}.

Lemma decides_identity domain v : decides (content_id domain v).
Proof. unfold content_id, content_id_of, canonical_bytes. decides. Qed.
Hint Resolve decides_identity : decides.

(** ** The walk to the root scope *)

(** Every step adds a scope of the Run to the seen set. *)
Lemma walk_decides run status fuel seen anc :
  seen ⊆ dom (scopes run) → size (scopes run) < fuel + size seen →
  ∃ v, walk_ancestors fuel run status seen anc = Some v ∧ decides v.
Proof.
  revert seen anc. induction fuel as [|fuel IH]; intros seen anc Hsub Hlt.
  - apply subseteq_size in Hsub. rewrite size_dom in Hsub. cbn in Hlt. lia.
  - destruct anc as [a|]; cbn; [|by eexists]. case_decide as Ha; [by eexists|].
    destruct (scopes run !! a) as [s|] eqn:Hs; [|by eexists].
    destruct (_ && _); [by eexists|]. apply IH.
    + assert (a ∈ dom (scopes run)) by (by eapply elem_of_dom_2). set_solver.
    + rewrite size_union, size_singleton by set_solver. lia.
Qed.

Lemma decides_scope run sid s : scopes run !! sid = Some s → decides (verify_one_scope run (sid, s)).
Proof.
  intros Hs. unfold verify_one_scope. decides.
  destruct (walk_decides run (scope_status s) (S (size (scopes run))) {[sid]}
    (parent_scope s)) as (v & Hv & Hd).
  - apply singleton_subseteq_l. by eapply elem_of_dom_2.
  - rewrite size_singleton. lia.
  - match goal with Ho : ok_or _ _ = Ok _ |- _ => apply ok_or_Ok in Ho; rewrite Ho in Hv end.
    by rewrite Hv.
Qed.

Lemma decides_run rid run : decides (verify_one_run (rid, run)).
Proof.
  unfold verify_one_run. apply decides_bind; [decides|intros _ _].
  apply decides_bind; [unfold verify_lineage; decides|intros _ _].
  apply decides_bind; [decides|intros _ _].
  apply decides_bind.
  { unfold verify_scope_projection. apply decides_bind; [decides|intros root _].
    apply decides_bind; [decides|intros _ _]. apply decides_each. intros [sid s] Hs.
    apply decides_scope. by apply elem_of_btree_list. }
  intros _ _. apply decides_bind.
  { unfold verify_effect_projection, verify_one_effect, verify_effect_reducer_state,
      verify_effect_scope_state, verify_scope_members. decides. }
  intros u Heff. apply decides_bind.
  { unfold verify_obligation_projection. apply decides_bind; [|decides].
    apply decides_fold. intros m e He. unfold expected_obligation.
    apply elem_of_btree_values in He as [i He].
    unfold verify_effect_projection in Heff. apply bind_Ok in Heff as ([] & Hall & _).
    rewrite try_each_Ok in Hall. specialize (Hall (i, e)). rewrite elem_of_btree_list in Hall.
    specialize (Hall He). cbn in Hall. inv_ok.
    match goal with Hs : scopes run !! effect_scope_id e = Some _ |- _ => rewrite Hs end.
    cbn. unfold effect_obligation_id. decides. }
  intros _ _. apply decides_bind.
  { unfold verify_attempts. apply decides_fold. intros n [aid a] _. decides. }
  intros n _. apply decides_bind; [decides|intros _ _].
  unfold verify_status, verify_terminal_run. decides.
Qed.

(** The verifier of the reducer always returns: on every projection, also on one with
    cyclic scopes, it gives Ok or an error and the walk over the ancestors of a scope ends. *)
Theorem verify_reducer_invariants_decides p : verify_reducer_invariants p ≠ Err Panic.
Proof.
  change (decides (verify_reducer_invariants p)). unfold verify_reducer_invariants,
    verify_execution_numbers, verify_run_numbers, verify_world_settlement_invariants,
    verify_run_settlement.
  apply decides_bind; [decides|intros _ _]. apply decides_bind; [decides|intros _ _].
  apply decides_each. intros [rid run] _. apply decides_run.
Qed.
End Verifier.
