(* ===== verification/CanonicalTheorems.v ===== *)
(** * What identities, numbers and canonical JSON guarantee

    Artifact references of [crates/cymule-core/src/model.rs] bind their kind and
    their bytes.  Exactness of the literal check and totality of the document
    scan, strict decoding and canonical bytes of [canonical.rs]. *)

From S2P Require Import Prelude Identity Numbers Canonical Ir Model Events Samples.

Section Artifacts.
Context `{Sha256}.

(** The framing of the preimage is injective: both parts carry their length. *)
Lemma artifact_preimage_inj k b k' b' :
  (byte_len k <= 4294967295)%N → (byte_len k' <= 4294967295)%N →
  (byte_len b <= u64_max)%N → (byte_len b' <= u64_max)%N →
  artifact_preimage k b = artifact_preimage k' b' → k = k' ∧ b = b'.
Proof.
  intros Hk Hk' Hb Hb'. unfold artifact_preimage. intros Heq.
  apply append_inj in Heq as [_ Heq]; [|done].
  apply append_inj in Heq as [Hl Heq]; [|by rewrite !to_be_bytes_len].
  apply to_be_bytes_inj in Hl; [|cbn; lia..].
  apply append_inj in Heq as [-> Heq]; [|done]. split; [done|].
  apply append_inj in Heq as [_ ->]; [done|by rewrite !to_be_bytes_len].
Qed.

(** C39: an artifact reference binds its content: it validates, carries its kind, and two
    references have the same identity exactly when kind and bytes are equal, as long as the two
    framed preimages are not a SHA-256 collision; the length framing makes the preimage
    injective. *)
Theorem artifact_ref_binding k b r k' b' r' :
  artifact_ref k b = Ok r → artifact_ref k' b' = Ok r' →
  (* the two preimages are not a collision *)
  (sha256 (artifact_preimage k b) = sha256 (artifact_preimage k' b') →
    artifact_preimage k b = artifact_preimage k' b') →
  ArtifactRef_validate r = Ok () ∧ artifact_kind r = k
  ∧ (artifact_id r = artifact_id r' ↔ k = k' ∧ b = b').
Proof.
  intros Hr Hr' Hc. unfold artifact_ref in Hr, Hr'. inv_ok. to_prop. cbn. split; [|split; [done|]].
  - unfold ArtifactRef_validate. cbn [identity_version artifact_kind artifact_id].
    rewrite bool_decide_eq_true_2 by done. cbn [require mbind result_bind].
    match goal with Hv : validate_artifact_kind k = Ok _ |- _ => rewrite Hv end.
    cbn [mbind result_bind]. rewrite strip_prefix_app.
    pose proof (sha256_bytes_digest (artifact_preimage k b)) as Hd. unfold is_canonical_digest in Hd.
    apply andb_true_iff in Hd as [-> ->]. done.
  - split; [|by intros [-> ->]]. intros Heq. apply append_inj in Heq as [_ Heq]; [|done].
    apply hex_string_inj in Heq. apply artifact_preimage_inj; [done..|]. by apply Hc.
Qed.
End Artifacts.

Section Events.
Context `{Sha256} `{Canonical}.

Lemma merge_sort_dedup_strict l : strictly_sorted (dedup (merge_sort str_le l)) = true.
Proof. apply dedup_strict, Sorted_merge_sort, _. Qed.

(** An event built by Event::new from a payload with valid references verifies, its
    identity is a content identity, and its parents are those of the content, sorted and without
    duplicates. *)
Theorem event_new_verifies c e :
  Event_new c = Ok e → verify_payload (c_payload c) = Ok () →
  Event_verify e = Ok () ∧ validate_content_id (event_id e) = Ok ()
  ∧ (∀ i, i ∈ parents e ↔ i ∈ c_parents c).
Proof.
  intros Hn Hp. unfold Event_new in Hn. inv_ok.
  match goal with Hi : event_preimage_id _ _ _ _ _ _ _ _ _ = Ok _ |- _ => rename Hi into Hid end.
  cbn. split; [|split].
  - unfold Event_verify. cbn. rewrite bool_decide_eq_true_2 by done. cbn [require mbind result_bind].
    match goal with Hv : validate_event_header _ _ _ = Ok _ |- _ => rewrite Hv end.
    cbn [mbind result_bind]. rewrite merge_sort_dedup_strict. cbn [require mbind result_bind].
    match goal with Hv : try_each _ _ = Ok _ |- _ => rewrite Hv end.
    cbn [mbind result_bind]. rewrite Hp. cbn [mbind result_bind]. rewrite Hid. cbn.
    by rewrite bool_decide_eq_true_2.
  - by eapply content_id_is_valid.
  - intros i. assert (Hd : ∀ l, i ∈ dedup l ↔ i ∈ l).
    { induction l as [|a [|b l] IH]; [done|done|]. rewrite dedup_cons.
      case_decide; rewrite ?elem_of_cons, ?IH, ?elem_of_cons; naive_solver. }
    by rewrite Hd, merge_sort_Permutation.
Qed.
End Events.

(** ** Witnesses *)

Lemma artifact_ref_binding_witness :
  ∃ r r', artifact_ref "cymule.input/1" "7" = Ok r ∧ artifact_ref "cymule.input/1" "8" = Ok r'
    ∧ artifact_id r ≠ artifact_id r'.
Proof.
  destruct (artifact_ref "cymule.input/1" "7") as [r|] eqn:Hr; [|vm_compute in Hr; discriminate Hr].
  destruct (artifact_ref "cymule.input/1" "8") as [r'|] eqn:Hr'; [|vm_compute in Hr'; discriminate Hr'].
  exists r, r'. split; [reflexivity|]. split; [reflexivity|]. intros Heq.
  destruct (artifact_ref_binding "cymule.input/1" "7" r "cymule.input/1" "8" r' Hr Hr') as (_ & _ & Hb);
    [intros Hx; vm_compute in Hx; discriminate Hx|].
  destruct (proj1 Hb Heq) as [_ Hx]. discriminate Hx.
Defined.

Definition sample_content : EventContent :=
  {| c_command_id := "command"; c_command_hash := sha256_bytes "command"; c_run_id := run_name;
     c_parents := [sample_id "b"; sample_id "a"; sample_id "b"]; c_reads := ∅; c_writes := ∅;
     c_coordination_key := None; c_payload := FactRecorded "colour" (sample_id "red") |}.
Lemma event_new_verifies_witness :
  ∃ e, Event_new sample_content = Ok e ∧ Event_verify e = Ok ().
Proof.
  destruct (Event_new sample_content) as [e|] eqn:He; [|vm_compute in He; discriminate He].
  exists e. split; [reflexivity|].
  refine (proj1 (event_new_verifies sample_content e He _)). vm_compute. reflexivity.
Defined.

(** ** Digit lists *)

Abbreviation val := digits_value.
Definition digits_wf (l : list N) : Prop := Forall (λ d, d < 10)%N l.

Lemma val_acc l a : foldl (λ acc d, 10 * acc + d)%N a l = (a * 10 ^ N.of_nat (length l) + val l)%N.
Proof.
  unfold val. revert a. induction l as [|d l IH]; intros a; cbn [foldl length].
  - cbn. lia.
  - rewrite IH, (IH (10 * 0 + d)%N). rewrite Nat2N.inj_succ, N.pow_succ_r'. lia.
Qed.
Lemma val_cons d l : val (d :: l) = (d * 10 ^ N.of_nat (length l) + val l)%N.
Proof. unfold val at 1. cbn [foldl]. rewrite val_acc. lia. Qed.
Lemma val_app l k : val (l ++ k) = (val l * 10 ^ N.of_nat (length k) + val k)%N.
Proof. unfold val at 1. rewrite foldl_app. apply val_acc. Qed.
Lemma val_replicate n : val (replicate n 0%N) = 0%N.
Proof. induction n; cbn [replicate]; [done|]. rewrite val_cons. lia. Qed.
Lemma val_bound l : digits_wf l → (val l < 10 ^ N.of_nat (length l))%N.
Proof.
  induction 1 as [|d l Hd _ IH]; [done|]. rewrite val_cons. cbn [length].
  rewrite Nat2N.inj_succ, N.pow_succ_r'. nia.
Qed.
Lemma val_low d l : d ≠ 0%N → (10 ^ N.of_nat (length l) ≤ val (d :: l))%N.
Proof. intros Hd. rewrite val_cons. nia. Qed.

Lemma zeros_split l : l = replicate (zeros l) 0%N ++ drop (zeros l) l.
Proof. induction l as [|d l IH]; [done|]. cbn. case_decide; [|done]. subst. cbn. by f_equal. Qed.
Lemma zeros_le l : zeros l ≤ length l.
Proof. induction l; cbn; [done|]. case_decide; lia. Qed.
Lemma zeros_head l : zeros l < length l → ∃ d k, drop (zeros l) l = d :: k ∧ d ≠ 0%N.
Proof.
  induction l as [|d l IH]; cbn; [lia|]. case_decide; cbn; [|by exists d, l]. intros Hl. apply IH. lia.
Qed.
Lemma val_zeros l : val l = val (drop (zeros l) l).
Proof. rewrite (zeros_split l) at 1. rewrite val_app, val_replicate. lia. Qed.
Lemma val_all_zeros l : zeros l = length l → val l = 0%N.
Proof. intros Hz. by rewrite val_zeros, Hz, drop_all. Qed.

(** The digits past the last nonzero one. *)
Lemma trailing_split l k :
  k ≤ zeros (reverse l) → l = take (length l - k) l ++ replicate k 0%N.
Proof.
  intros Hk. rewrite <-(take_drop (length l - k) l) at 1. f_equal.
  pose proof (zeros_split (reverse l)) as Hs. set (z := zeros (reverse l)) in *.
  assert (Hz : z ≤ length l) by (unfold z; etrans; [apply zeros_le|by rewrite length_reverse]).
  apply (f_equal reverse) in Hs. rewrite reverse_involutive, reverse_app, reverse_replicate in Hs.
  assert (Hlen : length (reverse (drop z (reverse l))) = length l - z).
  { by rewrite length_reverse, length_drop, length_reverse. }
  rewrite Hs. rewrite drop_app_ge by (rewrite Hlen, length_app, length_replicate; lia).
  rewrite length_app, length_replicate, Hlen, drop_replicate. f_equal. lia.
Qed.
Lemma divisible_trailing l k :
  digits_wf l → zeros l < length l → (val l mod 10 ^ N.of_nat k = 0)%N → k ≤ zeros (reverse l).
Proof.
  intros Hwf Hnz Hm. destruct (decide (k ≤ zeros (reverse l))) as [|Hgt]; [done|exfalso].
  assert (Hz : zeros (reverse l) < length (reverse l)).
  { rewrite length_reverse. destruct (decide (zeros (reverse l) = length l)) as [He|];
      [|pose proof (zeros_le (reverse l)); rewrite length_reverse in *; lia].
    pose proof (trailing_split l (length l) ltac:(lia)) as Hs. rewrite Nat.sub_diag, take_0 in Hs.
    cbn [app] in Hs. rewrite Hs in Hnz. clear -Hnz. rewrite length_replicate in Hnz.
    assert (zeros (replicate (length l) 0%N) = length l) as He; [|lia].
    generalize (length l). induction n; cbn; [done|]. by rewrite decide_True, IHn. }
  set (z := zeros (reverse l)) in *. pose proof (trailing_split l z ltac:(lia)) as Hs.
  destruct (zeros_head _ Hz) as (d & t & Hd & Hne). fold z in Hd.
  pose proof (zeros_split (reverse l)) as Hr. fold z in Hr. rewrite Hd in Hr.
  apply (f_equal reverse) in Hr. rewrite reverse_involutive, reverse_app, reverse_cons, reverse_replicate in Hr.
  rewrite Hr in Hm, Hwf. apply Forall_app in Hwf as [Hwf _]. apply Forall_app in Hwf as [_ Hwf].
  assert (Hd10 : (d < 10)%N) by (by inversion Hwf). rewrite !val_app, val_replicate in Hm.
  rewrite length_replicate in Hm. cbn [length] in Hm.
  assert (Hk : N.of_nat k = (N.of_nat z + 1 + N.of_nat (k - z - 1))%N) by lia.
  rewrite Hk, !N.pow_add_r, N.add_0_r in Hm. change (10 ^ 1)%N with 10%N in Hm.
  apply N.Div0.mod_divides in Hm as [c Hc]. change (val [d]) with (10 * 0 + d)%N in Hc.
  assert (Hp : (0 < 10 ^ N.of_nat z)%N) by (apply N.neq_0_lt_0, N.pow_nonzero; lia).
  revert Hc. change (N.of_nat 1) with 1%N. rewrite N.pow_1_r. intros Hc.
  assert (Hq : ((val (reverse t) * 10 + d) * 10 ^ N.of_nat z
    = (10 * (10 ^ N.of_nat (k - z - 1) * c)) * 10 ^ N.of_nat z)%N) by lia.
  apply N.mul_cancel_r in Hq; [|lia]. revert Hq.
  generalize (10 ^ N.of_nat (k - z - 1) * c)%N, (val (reverse t)). intros. lia.
Qed.

(** Lexicographic comparison of equally long digit lists is numeric. *)
Lemma digits_le_val a b :
  length a = length b → digits_wf a → digits_wf b → digits_le a b = true ↔ (val a ≤ val b)%N.
Proof.
  revert b. induction a as [|x a IH]; intros [|y b] Hl Ha Hb; try done.
  apply Forall_cons in Ha as [Hx Ha], Hb as [Hy Hb]. cbn [length] in Hl. injection Hl as Hl.
  cbn [digits_le]. rewrite orb_true_iff, andb_true_iff, N.ltb_lt, N.eqb_eq, (IH b Hl Ha Hb), !val_cons, Hl.
  pose proof (val_bound a Ha) as Hba. pose proof (val_bound b Hb) as Hbb. rewrite Hl in Hba.
  split; [intros [Hlt|[-> Hle]]; nia|]. intros Hle.
  destruct (N.lt_trichotomy x y) as [|[->|Hgt]]; [by left|right; split; [done|lia]|nia].
Qed.

(** ** The bound on an integer literal *)

Lemma safe_exact digits removed appended :
  digits_wf digits → zeros digits < length digits → removed ≤ zeros (reverse digits) →
  decimal_integer_is_safe digits (zeros digits) removed appended = true ↔
  (val (take (length digits - removed) digits) * 10 ^ N.of_nat appended ≤ MAX_EXACT_INTEGER)%N.
Proof.
  intros Hwf Hz Hr. unfold decimal_integer_is_safe.
  destruct (zeros_head _ Hz) as (d & t & Hd & Hne).
  set (lz := zeros digits) in *. set (body := take (length digits - removed) digits).
  pose proof (trailing_split digits removed Hr) as Hs. fold body in Hs.
  assert (Hrl : lz + removed < length digits).
  { assert (removed ≤ length digits) by (rewrite <-(length_reverse digits); etrans; [done|apply zeros_le]).
    destruct (decide (lz + removed < length digits)) as [|Hge]; [done|exfalso].
    assert (Hdr : drop lz digits = replicate (length digits - lz) 0%N).
    { rewrite Hs at 1. unfold body. rewrite drop_app_ge by (rewrite length_take; lia).
      rewrite drop_replicate, length_take. f_equal. lia. }
    rewrite Hdr in Hd. destruct (length digits - lz) eqn:Hn; [lia|]. cbn in Hd. congruence. }
  set (kept := drop lz body).
  assert (Hlen : length kept = length digits - lz - removed).
  { unfold kept, body. rewrite length_drop, length_take. lia. }
  assert (Hkept : ∃ t', kept = d :: t').
  { assert (Ht : drop lz digits = kept ++ replicate removed 0%N).
    { rewrite Hs at 1. unfold kept. rewrite drop_app_le; [done|]. unfold body. rewrite length_take. lia. }
    rewrite Hd in Ht. destruct kept as [|d' t']; [cbn in Hlen; lia|]. injection Ht as -> _. by exists t'. }
  destruct Hkept as [t' Hkept].
  assert (Hval : val body = val kept).
  { assert (Hb : body = replicate lz 0%N ++ kept).
    { rewrite <-(take_drop lz body) at 1. f_equal. unfold body. rewrite take_take.
      rewrite (zeros_split digits) at 2. fold lz.
      rewrite take_app_le by (rewrite length_replicate; lia).
      rewrite take_replicate. f_equal. lia. }
    clearbody kept. rewrite Hb, val_app, val_replicate. lia. }
  rewrite Hval.
  assert (Hkwf : digits_wf kept) by (unfold kept, body; by apply Forall_drop, Forall_take).
  pose proof (val_bound _ Hkwf) as Hup.
  assert (Hlow : (10 ^ N.of_nat (length kept - 1) ≤ val kept)%N).
  { rewrite Hkept. cbn [length]. rewrite Nat.sub_succ, Nat.sub_0_r. by apply val_low. }
  rewrite <-Hlen. fold body. fold kept. clearbody kept. clear -Hup Hlow Hkwf Hkept.
  assert (Hpos : 0 < length kept) by (rewrite Hkept; cbn; lia).
  set (n := length kept) in *. unfold MAX_EXACT_INTEGER.
  assert (Hpow : ∀ a b, (a ≤ b)%nat → (10 ^ N.of_nat a ≤ 10 ^ N.of_nat b)%N)
    by (intros; apply N.pow_le_mono_r; lia).
  destruct (Nat.eqb_spec (n + appended) 16) as [He|He]; cbn [negb].
  - rewrite digits_le_val.
    + rewrite val_app, val_replicate, length_replicate. replace (16 - n) with appended by lia.
      change (val MAX_DIGITS) with 9007199254740991%N. lia.
    + rewrite length_app, length_replicate. fold n. cbn. lia.
    + apply Forall_app. split; [done|]. apply Forall_replicate. lia.
    + unfold MAX_DIGITS. repeat constructor; lia.
  - rewrite Nat.ltb_lt. split.
    + intros Hlt. assert (val kept * 10 ^ N.of_nat appended < 10 ^ N.of_nat (n + appended))%N.
      { rewrite Nat2N.inj_add, N.pow_add_r. apply N.mul_lt_mono_pos_r; [|done].
        apply N.neq_0_lt_0, N.pow_nonzero. lia. }
      pose proof (Hpow (n + appended) 15 ltac:(lia)) as Hp. change (10 ^ N.of_nat 15)%N with 1000000000000000%N in Hp. lia.
    + intros Hle. destruct (decide (n + appended < 16)) as [|Hge]; [done|exfalso].
      assert (10 ^ N.of_nat (n - 1 + appended) ≤ val kept * 10 ^ N.of_nat appended)%N.
      { rewrite Nat2N.inj_add, N.pow_add_r. by apply N.mul_le_mono_r. }
      pose proof (Hpow 16 (n - 1 + appended) ltac:(lia)) as Hp.
      change (10 ^ N.of_nat 16)%N with 10000000000000000%N in Hp. lia.
Qed.

(** ** Whole literals *)

Lemma digits_of_wf s : digits_wf (digits_of s).
Proof.
  induction s as [|c s IH]; cbn; [constructor|]. destruct (is_digit c) eqn:Hd; [|done].
  constructor; [|done]. unfold is_digit, is_ascii_digit, digit_value in *. to_prop. lia.
Qed.
Lemma lit_digits_wf lexeme : digits_wf (lit_digits (read_literal lexeme)).
Proof.
  unfold read_literal. destruct (split_at_first is_exponent_mark _) as [mantissa ?]. apply digits_of_wf.
Qed.
Lemma val_take l k :
  k ≤ zeros (reverse l) → val l = (val (take (length l - k) l) * 10 ^ N.of_nat k)%N.
Proof.
  intros Hk. rewrite (trailing_split l k Hk) at 1.
  rewrite val_app, val_replicate, length_replicate. lia.
Qed.
Lemma val_nonzero l : zeros l < length l → val l ≠ 0%N.
Proof.
  intros Hz. rewrite val_zeros. destruct (zeros_head _ Hz) as (d & t & -> & Hne).
  pose proof (val_low d t Hne). assert (0 < 10 ^ N.of_nat (length t))%N; [|lia].
  apply N.neq_0_lt_0, N.pow_nonzero. lia.
Qed.
Lemma require_result (b : bool) :
  (if negb b then Err Encoding else Ok ()) = (Ok () : core ()) ↔ b = true.
Proof. by destruct b. Qed.

Section Literal.
Context (lexeme : string).
Local Abbreviation digits := (lit_digits (read_literal lexeme)).
Local Abbreviation scale := (lit_scale (read_literal lexeme)).

Lemma zero_accepted : zeros digits = length digits → validate_json_number_lexeme lexeme = Ok ().
Proof. intros Hz. unfold validate_json_number_lexeme. by rewrite bool_decide_eq_true_2. Qed.

(** The check against the digits and the scale that it reads *)
Lemma read_literal_exact :
  ((0 ≤ scale)%Z →
    validate_json_number_lexeme lexeme = Ok () ↔
    (digits_value digits * 10 ^ Z.to_N scale ≤ MAX_EXACT_INTEGER)%N)
  ∧ ((scale < 0)%Z → (digits_value digits mod 10 ^ Z.to_N (- scale) = 0)%N →
    validate_json_number_lexeme lexeme = Ok () ↔
    (digits_value digits / 10 ^ Z.to_N (- scale) ≤ MAX_EXACT_INTEGER)%N).
Proof.
  pose proof (lit_digits_wf lexeme) as Hwf. pose proof (zeros_le digits) as Hle.
  destruct (decide (zeros digits = length digits)) as [Hz|Hz].
  { rewrite (zero_accepted Hz), (val_all_zeros _ Hz), N.Div0.div_0_l. by split. }
  assert (Hlt : zeros digits < length digits) by lia.
  unfold validate_json_number_lexeme. rewrite (bool_decide_eq_false_2 (_ = _)) by done.
  cbn [orb negb andb]. split.
  - intros Hs. rewrite (proj2 (Z.leb_le 0 scale)) by done. cbn [orb].
    rewrite (proj2 (Z.ltb_ge scale 0)) by done. rewrite require_result, safe_exact; [|done|done|lia].
    rewrite Nat.sub_0_r, firstn_all, Z.max_l by done. by rewrite Z_nat_N.
  - intros Hs Hm. rewrite (proj2 (Z.ltb_lt scale 0)) by done.
    rewrite <-(Z_nat_N (- scale)) in Hm |- *. set (k := Z.to_nat (- scale)) in *.
    pose proof (divisible_trailing _ _ Hwf Hlt Hm) as Hk.
    rewrite (proj2 (Nat.leb_le _ _) Hk), orb_true_r.
    rewrite require_result, safe_exact by done. rewrite Z.max_r by lia. cbn [Z.to_nat].
    rewrite (val_take digits k Hk), N.div_mul by (apply N.pow_nonzero; lia).
    by rewrite N.mul_1_r.
Qed.
End Literal.

(** ** The value of a numeral

    The grammar of number literals, with their exact values: the exponent is
    not bounded here. *)

Record Numeral := {
  nl_negative : bool;
  nl_integer : string;
  nl_fraction : option string;
  nl_exponent : option (ascii * string * string);   (** mark, sign, digits *)
}.
Definition digit_string (s : string) : Prop := s ≠ EmptyString ∧ all_bytes is_ascii_digit s = true.
Definition numeral_wf (n : Numeral) : Prop :=
  digit_string (nl_integer n)
  ∧ (∀ f, nl_fraction n = Some f → digit_string f)
  ∧ ∀ c sign d, nl_exponent n = Some (c, sign, d) →
      is_exponent_mark c = true ∧ (sign = "" ∨ sign = "+" ∨ sign = "-") ∧ digit_string d.
Definition numeral_mantissa (n : Numeral) : string :=
  nl_integer n +:+ match nl_fraction n with Some f => String "." f | None => "" end.
Definition numeral_text (n : Numeral) : string :=
  (if nl_negative n then "-" else "") +:+ numeral_mantissa n
  +:+ match nl_exponent n with Some (c, sign, d) => String c (sign +:+ d) | None => "" end.
Definition numeral_digits (n : Numeral) : list N :=
  digits_of (nl_integer n) ++ digits_of (default "" (nl_fraction n)).
Definition signed (sign : string) (v : Z) : Z := if decide (sign = "-") then (- v)%Z else v.
Definition numeral_exponent (n : Numeral) : Z :=
  match nl_exponent n with
  | Some (_, sign, d) => signed sign (Z.of_N (digits_value (digits_of d)))
  | None => 0%Z
  end.
Definition numeral_scale (n : Numeral) : Z :=
  (numeral_exponent n - Z.of_nat (String.length (default "" (nl_fraction n))))%Z.
(** The magnitude of the numeral, [digits * 10^scale], is the natural number [v]. *)
Definition numeral_denotes (n : Numeral) (v : N) : Prop :=
  (v * 10 ^ Z.to_N (- numeral_scale n) = digits_value (numeral_digits n) * 10 ^ Z.to_N (numeral_scale n))%N.

Lemma split_none p s : all_bytes is_ascii_digit s = true → (∀ c, is_digit c = true → p c = false) →
  split_at_first p s = (s, None).
Proof.
  intros Hs Hp. induction s as [|c s IH]; cbn in *; [done|]. apply andb_true_iff in Hs as [Hc Hs].
  by rewrite (Hp c Hc), IH.
Qed.
Lemma split_app p s t : all_bytes is_ascii_digit s = true → (∀ c, is_digit c = true → p c = false) →
  split_at_first p (s +:+ t) = (s +:+ (split_at_first p t).1, (split_at_first p t).2).
Proof.
  intros Hs Hp. induction s as [|c s IH].
  - change ("" +:+ t) with t. change ("" +:+ ?x) with x. by destruct (split_at_first p t).
  - cbn in Hs. apply andb_true_iff in Hs as [Hc Hs]. change (String c s +:+ t) with (String c (s +:+ t)).
    cbn [split_at_first]. by rewrite (Hp c Hc), IH.
Qed.
Lemma digit_no_mark c : is_digit c = true → is_exponent_mark c = false.
Proof. destruct c as [[] [] [] [] [] [] [] []]; try discriminate; done. Qed.
Lemma digit_no_dot c : is_digit c = true → is_dot c = false.
Proof. destruct c as [[] [] [] [] [] [] [] []]; try discriminate; done. Qed.
Lemma digits_of_app s t : digits_of (s +:+ t) = digits_of s ++ digits_of t.
Proof.
  induction s as [|c s IH]; [done|]. change (String c s +:+ t) with (String c (s +:+ t)).
  cbn [digits_of]. rewrite IH. by destruct (is_digit c).
Qed.
Lemma digits_of_length s : all_bytes is_ascii_digit s = true → length (digits_of s) = String.length s.
Proof.
  induction s as [|c s IH]; cbn; [done|]. intros [Hc Hs]%andb_true_iff.
  unfold is_digit. rewrite Hc. cbn. by rewrite IH.
Qed.
Lemma digit_front p c s : is_digit c = true → is_digit p = false → strip_prefix (String p "") (String c s) = None.
Proof. intros Hc Hp. cbn. rewrite decide_False; [done|]. intros ->. congruence. Qed.

Definition EXPONENT_BOUND : Z := 1000000000.
Lemma exponent_digits d acc :
  all_bytes is_ascii_digit d = true → (0 ≤ acc)%Z →
  (fix go (current : Z) (s : string) : Z :=
     match s with
     | EmptyString => current
     | String c s => go (Z.min (current * 10 + Z.of_N (byte_of c - 48)) 1000000000) s
     end) (Z.min acc EXPONENT_BOUND) d
  = Z.min (acc * 10 ^ Z.of_nat (String.length d) + Z.of_N (val (digits_of d))) EXPONENT_BOUND.
Proof.
  revert acc. induction d as [|c d IH]; intros acc Hd Ha.
  - cbn. f_equal. lia.
  - cbn in Hd. apply andb_true_iff in Hd as [Hc Hd]. cbn [digits_of String.length].
    unfold is_digit. rewrite Hc. rewrite val_cons, digits_of_length by done. unfold digit_value.
    assert (Hmin : Z.min (Z.min acc EXPONENT_BOUND * 10 + Z.of_N (byte_of c - 48)) 1000000000
      = Z.min (acc * 10 + Z.of_N (byte_of c - 48)) EXPONENT_BOUND)
      by (unfold EXPONENT_BOUND; lia).
    rewrite Hmin, IH by (done || lia). f_equal. rewrite Nat2Z.inj_succ, Z.pow_succ_r by lia.
    rewrite N2Z.inj_add, N2Z.inj_mul, N2Z.inj_pow, nat_N_Z. lia.
Qed.
Lemma exponent_read sign d :
  digit_string d → sign = "" ∨ sign = "+" ∨ sign = "-" →
  parse_decimal_exponent (sign +:+ d)
  = signed sign (Z.min (Z.of_N (val (digits_of d))) EXPONENT_BOUND).
Proof.
  intros [Hne Hd] Hsign. pose proof (exponent_digits d 0 Hd (Z.le_refl _)) as He.
  change (Z.min 0 EXPONENT_BOUND) with 0%Z in He. rewrite Z.mul_0_l, Z.add_0_l in He.
  destruct d as [|c d]; [done|]. cbn in Hd. apply andb_true_iff in Hd as [Hc _].
  assert (strip_prefix "-" (String c d) = None) as Hm by exact (digit_front "-" c d Hc eq_refl).
  assert (strip_prefix "+" (String c d) = None) as Hp by exact (digit_front "+" c d Hc eq_refl).
  unfold parse_decimal_exponent, signed. destruct Hsign as [->|[->| ->]].
  - change ("" +:+ ?x) with x. rewrite Hm, Hp. cbn [default]. rewrite decide_False by done. exact He.
  - assert (strip_prefix "-" ("+" +:+ String c d) = None) as -> by done. rewrite strip_prefix_app.
    cbn [default]. rewrite decide_False by done. exact He.
  - rewrite strip_prefix_app, Hp. cbn [default]. rewrite decide_True by done. by f_equal.
Qed.

(** The exponent as the check reads it *)
Definition read_exponent (n : Numeral) : Z :=
  match nl_exponent n with
  | Some (_, sign, d) => signed sign (Z.min (Z.of_N (digits_value (digits_of d))) EXPONENT_BOUND)
  | None => 0%Z
  end.
Lemma mantissa_split (n : Numeral) :
  numeral_wf n →
  (∀ t, (∀ x, t = Some x → is_exponent_mark x.1 = true) →
    split_at_first is_exponent_mark (numeral_mantissa n
      +:+ match t with Some (c, s) => String c s | None => "" end) = (numeral_mantissa n, snd <$> t))
  ∧ (split_at_first is_dot (numeral_mantissa n)).2 = nl_fraction n
  ∧ digits_of (numeral_mantissa n) = numeral_digits n.
Proof.
  intros ([_ Hi] & Hf & _). unfold numeral_mantissa, numeral_digits.
  rewrite digits_of_app, (split_app is_dot) by (done || apply digit_no_dot). split; [|split].
  - intros t Ht. rewrite string_assoc. rewrite split_app by (done || apply digit_no_mark).
    destruct (nl_fraction n) as [f|].
    + change (String "." f +:+ ?x) with (String "." (f +:+ x)). cbn [split_at_first].
      change (is_exponent_mark ".") with false. cbn iota.
      rewrite split_app by (apply Hf || apply digit_no_mark; done). destruct t as [[c s]|]; cbn [split_at_first].
      * pose proof (Ht (c, s) eq_refl) as Hc. cbn in Hc. rewrite Hc. cbn [fst snd]. by rewrite string_nil.
      * cbn [fst snd]. by rewrite string_nil.
    + change ("" +:+ ?x) with x. destruct t as [[c s]|]; cbn [split_at_first]; [|done].
      pose proof (Ht (c, s) eq_refl) as Hc. cbn in Hc. by rewrite Hc.
  - by destruct (nl_fraction n).
  - by destruct (nl_fraction n).
Qed.
Lemma read_numeral n :
  numeral_wf n → read_literal (numeral_text n)
  = {| lit_digits := numeral_digits n;
       lit_scale := read_exponent n - Z.of_nat (String.length (default "" (nl_fraction n))) |}.
Proof.
  intros Hn. destruct (mantissa_split n Hn) as (Hsplit & Hdot & Hdig). destruct Hn as ([Hne Hi] & Hf & He).
  set (t := (λ x : ascii * string * string, (x.1.1, x.1.2 +:+ x.2)) <$> nl_exponent n).
  assert (numeral_text n = (if nl_negative n then "-" else "") +:+ (numeral_mantissa n
    +:+ match t with Some (c, s) => String c s | None => "" end)) as ->.
  { unfold numeral_text, t. by destruct (nl_exponent n) as [[[c sign] d]|]. }
  unfold read_literal.
  assert (∀ s, default ((if nl_negative n then "-" else "") +:+ (numeral_mantissa n +:+ s))
    (strip_prefix "-" ((if nl_negative n then "-" else "") +:+ (numeral_mantissa n +:+ s)))
    = numeral_mantissa n +:+ s) as Hunsigned.
  { intros s. destruct (nl_negative n); [by rewrite strip_prefix_app|]. change ("" +:+ ?x) with x.
    unfold numeral_mantissa. rewrite string_assoc. destruct (nl_integer n) as [|c i]; [done|].
    cbn in Hi. apply andb_true_iff in Hi as [Hc _].
    change (String c i +:+ ?x) with (String c (i +:+ x)). by rewrite (digit_front "-" c _ Hc eq_refl). }
  rewrite Hunsigned, Hsplit.
  2: { intros x. unfold t. destruct (nl_exponent n) as [[[c sign] d]|]; [|done]. intros [= <-]. cbn.
       by destruct (He _ _ _ eq_refl). }
  rewrite Hdot, Hdig. f_equal. f_equal.
  - unfold t, read_exponent. destruct (nl_exponent n) as [[[c sign] d]|]; [|done]. cbn [fmap option_fmap option_map snd fst].
    destruct (He _ _ _ eq_refl) as (_ & Hs & Hd). by apply exponent_read.
  - by destruct (nl_fraction n).
Qed.

Lemma numeral_digits_wf n : digits_wf (numeral_digits n).
Proof. apply Forall_app. split; apply digits_of_wf. Qed.
(** A power of ten above the limit *)
Lemma above_limit v k : v ≠ 0%N → (16 ≤ k)%N → (MAX_EXACT_INTEGER < v * 10 ^ k)%N.
Proof.
  intros Hv Hk. assert (10 ^ 16 ≤ 10 ^ k)%N as Hp by (apply N.pow_le_mono_r; lia).
  change (10 ^ 16)%N with 10000000000000000%N in Hp. unfold MAX_EXACT_INTEGER. nia.
Qed.

Lemma fraction_short n :
  numeral_wf n → String.length (default "" (nl_fraction n)) ≤ length (numeral_digits n).
Proof.
  intros (_ & Hf & _). unfold numeral_digits. rewrite length_app. destruct (nl_fraction n) as [f|]; cbn; [|lia].
  destruct (Hf f eq_refl) as [_ Hd]. rewrite (digits_of_length f Hd). lia.
Qed.
Lemma read_exponent_clamped n :
  read_exponent n = Z.max (- EXPONENT_BOUND) (Z.min (numeral_exponent n) EXPONENT_BOUND).
Proof.
  unfold read_exponent, numeral_exponent, EXPONENT_BOUND. destruct (nl_exponent n) as [[[c sign] d]|]; [|done].
  unfold signed. case_decide; lia.
Qed.
Lemma digits_zero l : digits_wf l → val l = 0%N → zeros l = length l.
Proof.
  intros _ Hv. pose proof (zeros_le l). destruct (decide (zeros l < length l)) as [Hlt|]; [|lia].
  by apply val_nonzero in Hlt.
Qed.
Lemma lexeme_answer l v :
  (validate_json_number_lexeme l = Ok () ↔ (v ≤ MAX_EXACT_INTEGER)%N) →
  validate_json_number_lexeme l = if (v <=? MAX_EXACT_INTEGER)%N then Ok () else Err Encoding.
Proof.
  intros Hiff. assert (validate_json_number_lexeme l = Ok () ∨ validate_json_number_lexeme l = Err Encoding) as Hr.
  { unfold validate_json_number_lexeme. destruct (_ || _); [destruct (_ && _); tauto|].
    destruct (f64_is_finite _); cbn; [|tauto]. destruct (f64_is_integral _); cbn; tauto. }
  destruct (N.leb_spec v MAX_EXACT_INTEGER) as [Hle|Hgt]; [by apply Hiff|].
  destruct Hr as [Hr|Hr]; [|done]. apply Hiff in Hr. lia.
Qed.

(** C40: the lexical number check is exact on number literals with an integer value: a literal
    of the grammar (a sign, an integer part, a fraction, an exponent of any size) whose
    magnitude is the natural number v is accepted exactly when v is at most 2^53-1, and refused
    as not encodable otherwise; the clamp of the exponent never changes the answer as long as
    the mantissa has at most 10^9 - 16 digits. *)
Theorem integer_literal_exact n v :
  numeral_wf n → numeral_denotes n v →
  (Z.of_nat (length (numeral_digits n)) + 16 ≤ EXPONENT_BOUND)%Z →
  validate_json_number_lexeme (numeral_text n)
  = if (v <=? MAX_EXACT_INTEGER)%N then Ok () else Err Encoding.
Proof.
  intros Hn Hv Hlen. pose proof (numeral_digits_wf n) as Hwf. pose proof (val_bound _ Hwf) as Hbound.
  pose proof (fraction_short n Hn) as Hf. pose proof (read_literal_exact (numeral_text n)) as [Hup Hdown].
  pose proof (zero_accepted (numeral_text n)) as Hzero. rewrite (read_numeral n Hn) in Hup, Hdown, Hzero.
  cbn [lit_digits lit_scale] in Hup, Hdown, Hzero. rewrite read_exponent_clamped in Hup, Hdown.
  unfold numeral_denotes, numeral_scale in Hv. apply lexeme_answer.
  set (f := Z.of_nat (String.length (default "" (nl_fraction n)))) in *.
  set (e := numeral_exponent n) in *. set (D := val (numeral_digits n)) in *.
  assert (16 ≤ EXPONENT_BOUND)%Z as HB by done.
  destruct (decide (e < - EXPONENT_BOUND)%Z) as [Hlow|Hlow]; [|destruct (decide (EXPONENT_BOUND < e)%Z) as [Hhigh|Hhigh]].
  - (* far below one: only zero is a natural number *)
    assert (Z.to_N (e - f) = 0%N) as Hz by lia. rewrite Hz, N.pow_0_r, N.mul_1_r in Hv.
    assert (D = 0%N) as HD.
    { destruct (decide (v = 0%N)) as [->|Hne]; [lia|exfalso].
      assert (10 ^ N.of_nat (length (numeral_digits n)) ≤ 10 ^ Z.to_N (- (e - f)))%N
        by (apply N.pow_le_mono_r; lia). nia. }
    assert (v = 0%N) as ->.
    { rewrite HD in Hv. apply N.mul_eq_0 in Hv as [?|Hp]; [done|]. by apply N.pow_nonzero in Hp. }
    rewrite Hzero by (by apply digits_zero). split; [intros _; unfold MAX_EXACT_INTEGER; lia|done].
  - (* far above the limit, unless it is zero *)
    assert (Z.to_N (- (e - f)) = 0%N) as Hz by lia. rewrite Hz, N.pow_0_r, N.mul_1_r in Hv. subst v.
    destruct (decide (D = 0%N)) as [HD|HD].
    + rewrite HD, N.mul_0_l, Hzero by (by apply digits_zero). split; [intros _; unfold MAX_EXACT_INTEGER; lia|done].
    + rewrite Hup by lia. pose proof (above_limit D (Z.to_N (e - f)) HD ltac:(lia)).
      pose proof (above_limit D (Z.to_N (Z.max (- EXPONENT_BOUND) (Z.min e EXPONENT_BOUND) - f)) HD ltac:(lia)).
      lia.
  - rewrite Z.min_l, Z.max_r in Hup, Hdown by lia.
    destruct (decide (0 ≤ e - f)%Z) as [Hs|Hs].
    + rewrite Hup by done. assert (Z.to_N (- (e - f)) = 0%N) as Hz by lia.
      rewrite Hz, N.pow_0_r, N.mul_1_r in Hv. by rewrite <-Hv.
    + assert (Z.to_N (e - f) = 0%N) as Hz by lia. rewrite Hz, N.pow_0_r, N.mul_1_r in Hv.
      assert (10 ^ Z.to_N (- (e - f)) ≠ 0)%N as Hp by (apply N.pow_nonzero; lia).
      rewrite Hdown; [|lia|rewrite <-Hv; by apply N.Div0.mod_mul]. by rewrite <-Hv, N.div_mul.
Qed.

(** ** The scan of a document ends *)

Lemma length_take_digits s : String.length (take_digits s).2 ≤ String.length s.
Proof.
  induction s as [|c s IH]; cbn; [lia|]. destruct (is_digit c); [|done].
  destruct (take_digits s) as [d r]. cbn in *. lia.
Qed.
Lemma length_skip_string b s : String.length (skip_string b s) ≤ String.length s.
Proof.
  revert b. induction s as [|c s IH]; intros b; cbn; [done|].
  pose proof (IH true). pose proof (IH false). repeat case_match; lia.
Qed.
(** The fraction and the exponent are optional parts of what follows. *)
Lemma length_scan_number c s :
  is_digit c = true → String.length (scan_number (String c s)).2 ≤ String.length s.
Proof.
  intros Hc. unfold scan_number.
  destruct (if decide (byte_of c = 48%N) then (String c EmptyString, s) else take_digits (String c s))
    as [int r1] eqn:H1.
  assert (L1 : String.length r1 ≤ String.length s).
  { case_decide; [by injection H1 as _ <-|]. cbn in H1. rewrite Hc in H1.
    pose proof (length_take_digits s). destruct (take_digits s). injection H1 as _ <-. done. }
  match goal with |- context [let '(frac, rest) := ?t in _] => destruct t as [frac r2] eqn:H2 end.
  assert (L2 : String.length r2 ≤ String.length r1).
  { destruct r1 as [|d r1]; [by injection H2 as _ <-|]. destruct (is_dot d); [|by injection H2 as _ <-].
    pose proof (length_take_digits r1). destruct (take_digits r1). injection H2 as _ <-. cbn in *. lia. }
  match goal with |- context [let '(exp, rest) := ?t in _] => destruct t as [exp r3] eqn:H3 end.
  cbn. enough (String.length r3 ≤ String.length r2) by lia.
  destruct r2 as [|d r2]; [by injection H3 as _ <-|]. destruct (is_exponent_mark d); [|by injection H3 as _ <-].
  match type of H3 with context [let '(sign, rest) := ?t in _] => destruct t as [sign r4] eqn:H4 end.
  pose proof (length_take_digits r4). destruct (take_digits r4). injection H3 as _ <-. cbn in *.
  enough (String.length r4 ≤ String.length r2) by lia.
  destruct r2 as [|e r2]; [by injection H4 as _ <-|]. destruct (_ || _); injection H4 as _ <-; cbn; lia.
Qed.

Lemma lexeme_decides l : validate_json_number_lexeme l ≠ Err Panic.
Proof.
  unfold validate_json_number_lexeme. destruct (_ || _); [by destruct (_ && _)|].
  destruct (f64_is_finite _); cbn; [|done]. by destruct (f64_is_integral _).
Qed.

Lemma scan_decides fuel s : String.length s ≤ fuel → scan_numbers fuel s ≠ Err Panic.
Proof.
  assert (Hb : ∀ l (k : core ()), k ≠ Err Panic →
    (validate_json_number_lexeme l ≫= λ _, k) ≠ Err Panic).
  { intros l k Hk. pose proof (lexeme_decides l). destruct (validate_json_number_lexeme l); cbn; congruence. }
  revert s. induction fuel as [|fuel IH]; intros [|c s] Hl; cbn [String.length] in Hl; try done; [lia|].
  cbn [scan_numbers]. case_decide; [apply IH; pose proof (length_skip_string false s); lia|].
  destruct (is_digit c) eqn:Hc.
  - pose proof (length_scan_number c s Hc). destruct (scan_number (String c s)) as [lex r].
    apply Hb, IH. cbn in *. lia.
  - case_decide; [|apply IH; lia]. destruct s as [|d s]; [apply IH; lia|].
    destruct (is_digit d) eqn:Hd; [|apply IH; lia].
    pose proof (length_scan_number d s Hd). destruct (scan_number (String d s)) as [lex r].
    apply Hb, IH. cbn in *. lia.
Qed.

(** The scan for number lexemes returns on every byte string, also on one that is not JSON. *)
Theorem number_scan_decides s : validate_json_number_lexemes s ≠ Err Panic.
Proof. by apply scan_decides. Qed.

(** ** Witness *)

Definition sample_numeral (int : string) (frac : option string) (exp : option (ascii * string * string))
    : Numeral :=
  {| nl_negative := true; nl_integer := int; nl_fraction := frac; nl_exponent := exp |}.
Lemma integer_literal_exact_witness :
  validate_json_number_lexeme "-9007199254.7409910E6" = Ok ()
  ∧ validate_json_number_lexeme "-9e99" = Err Encoding.
Proof.
  assert (∀ s, s ≠ EmptyString → all_bytes is_ascii_digit s = true → digit_string s) as Hd by (by split).
  split.
  - refine (integer_literal_exact (sample_numeral "9007199254" (Some "7409910") (Some ("E"%char, "", "6")))
      9007199254740991 _ _ _); [|vm_compute; reflexivity|vm_compute; discriminate].
    split; [by apply Hd|]. split; [intros f [= <-]; by apply Hd|].
    intros c sign d [= <- <- <-]. split; [done|]. split; [by left|by apply Hd].
  - refine (integer_literal_exact (sample_numeral "9" None (Some ("e"%char, "", "99"))) (9 * 10 ^ 99) _ _ _);
      [|vm_compute; reflexivity|vm_compute; discriminate].
    split; [by apply Hd|]. split; [intros f [=]|].
    intros c sign d [= <- <- <-]. split; [done|]. split; [by left|by apply Hd].
Defined.

Section Theorems.
Context `{JsonLibrary}.

(** Strict decoding returns only values with exact numbers and without duplicate members,
    which normalisation leaves unchanged. *)
Theorem decode_json_strict {T} (from_value : Json → option T) bytes t :
  decode_json from_value bytes = Ok t →
  ∃ v, from_value v = Some t ∧ json_exact v = true ∧ json_unique v = true
    ∧ normalize_ijson_numbers v = Ok v.
Proof.
  intros Hd. destruct (decode_json_value _ _ _ Hd) as (raw & v & _ & _ & Hf & He & Hu).
  exists v. split_and!; try done. by apply normalize_id.
Qed.

(** Canonical bytes exist only for values whose numbers the probe accepts; they are the JCS
    form of a normalised value with exact numbers, normalisation is idempotent on it, and both
    ways to serialise give the same bytes. *)
Theorem canonical_bytes_normal value bytes :
  canonical_bytes value = Ok bytes →
  number_probe value = Ok ()
  ∧ ∃ v w, to_value value = Some v ∧ normalize_ijson_numbers v = Ok w ∧ json_exact w = true
    ∧ normalize_ijson_numbers w = Ok w ∧ jcs_value w = Some bytes
    ∧ jcs_serialized value = Some bytes.
Proof.
  unfold canonical_bytes. intros Hc. inv_ok.
  match goal with Hn : normalize_ijson_numbers ?a = Ok ?b |- _ => pose proof (normalize_exact _ _ Hn) end.
  to_prop. subst. split; [done|]. do 2 eexists. split_and!; try done. by apply normalize_id.
Qed.
End Theorems.

(** ** Witnesses *)

Lemma decode_json_strict_witness :
  decode_json (λ v, Some v) "42" = Ok (JNumber (NInt 42))
  ∧ json_exact (JNumber (NInt 42)) = true.
Proof.
  assert (Hd : decode_json (λ v, Some v) "42" = Ok (JNumber (NInt 42))) by (vm_compute; reflexivity).
  split; [exact Hd|]. destruct (decode_json_strict (λ v, Some v) "42" _ Hd) as (v & Hv & He & _).
  injection Hv as ->. exact He.
Defined.
Lemma canonical_bytes_normal_witness :
  canonical_bytes (SerUnsigned 42) = Ok "42" ∧ number_probe (SerUnsigned 42) = Ok ().
Proof.
  assert (Hc : canonical_bytes (SerUnsigned 42) = Ok "42") by (vm_compute; reflexivity).
  split; [exact Hc|]. exact (proj1 (canonical_bytes_normal (SerUnsigned 42) "42" Hc)).
Defined.
